(* ===== verification/_CoqProject ===== *)
-Q . S2P
Prelude.v
Monad.v
GoStrings.v
GoNum.v
GoNet.v
GoRegexp.v
GoIO.v
GoPath.v
Model.v
GoTime.v
GoJson.v
JsonText.v
GoHttp.v
Decoder.v
Cef.v
Leef.v
KeyValue.v
Syslog.v
Text.v
Csv.v
Json.v
JsonDepth.v
JsonBatch.v
Xml.v
Registry.v
Decoders.v
Ocsf.v
Pack.v
Snapshot.v
Extract.v
Normalize.v
World.v
RawStore.v
StoreSpec.v
Outbox.v
Pipeline.v
Samples.v
Delivery.v
Accounting.v
Lifecycle.v
NoLoss.v
Disk.v
DiskSpec.v
PackStore.v
PackJournal.v
PackCrash.v
PackOps.v
PackLive.v
PackSamples.v
PackSafety.v
Ingest.v
Framing.v
FileIngest.v
Pull.v
Http.v
IngestManager.v
Ndjson.v
HttpSink.v
Sinks.v
KafkaSink.v
Connections.v
FileTree.v
Catalog.v
Market.v
MarketSamples.v
Parquet.v
Runtime.v
CatalogSpec.v
MarketSafety.v
MarketRoundtrip.v
Release.v
Publish.v
ApiCore.v
ApiStore.v
ApiPacks.v
ApiServer.v
ApiSpec.v
ApiSafety.v
ApiInstall.v
ApiReplay.v
