(* ===== verification/Prelude.v ===== *)
(** * A verification development for WORM, the universal log pre-processor

    WORM (Go, [src/]) receives raw log payloads, commits their bytes to a SQLite raw
    store, detects and decodes their format, matches each decoded child record against
    the active parser packs, normalizes it to an OCSF event, validates it, stores it with
    its delivery intents in one transaction, and delivers it to output sinks; whatever
    cannot be processed is quarantined and can be replayed.  Its promise is that no
    accepted record is lost silently: accepted = normalized + quarantined + pending.
    Around this pipeline are the parser packs and their crash-safe store, a signed
    marketplace the packs come from, the adapters and sinks that connection files
    declare, and a management API over all of them.

    ** Files, and the code they model

    Foundations (models of the Go language and library the source uses, no code of
    [src/] themselves):
    - Prelude: errors as values with their wrapping ([errors.Is]), the result type [res]
      (a value, an error, or a panic), generic list and counting lemmas;
    - Monad: the state-and-error monad [Prog], its weakest preconditions [wp], the
      relations a program keeps ([keeps]) and programs without a panic ([panicless]);
      every stateful component is written in it;
    - GoStrings: bytes and UTF-8 runes, [strings] and [bytes], [encoding/hex], the
      fuel-free [scan] loop; GoNum: [int64], [strconv], IEEE doubles ([SpecFloat]);
      GoNet: [net.ParseIP] and [IP.String]; GoRegexp: backtracking leftmost-first
      matching for the constant patterns; GoTime: civil dates and RFC 3339 text;
      GoIO and GoPath: [path], [filepath], [bufio], [encoding/base64]; GoJson and
      JsonText: [encoding/json] into dynamic values, and a reference printer it reads
      back; GoHttp: [net/url] and the routing of [net/http].

    Data and decoding ([internal/model], [internal/decode], [internal/ocsf]):
    - Model: [model/model.go], and the dynamic values ([any]) of decoded fields;
    - Decoder: the [Decoder] interface as a record, its laws as classes
      ([LawfulDecoder]: distinct ordinals; [TotalDecoder]: no panic; [NonNilDecoder]);
    - Cef, Leef, KeyValue, Syslog, Text, Csv, Json, Xml: [cef.go], [leef.go],
      [syslog.go], [text.go], [csv.go], [json.go], [xml.go], every decoder whole;
      JsonDepth and JsonBatch: the nesting limit of the JSON decoder, and its records;
    - Registry: [detect.go], detection, ranking and dispatch; Decoders: the registry
      with every decoder in place;
    - Ocsf: [ocsf/schema.go].

    Packs and normalization ([internal/packs], [internal/normalize]):
    - Pack: [pack.go] (validation, matching, field lookup); Snapshot: [snapshot.go];
      Extract: [extract.go]; Normalize: [normalizer.go] and [validate.go].

    The pack store ([internal/packs]):
    - Disk: the pack directory and its calls ([filesystem.go], the Unix half of the
      atomic replacement); DiskSpec: what each call guarantees, failures included;
    - PackStore: [manager.go] and [manifest.go], every operation;
    - PackJournal: what an interrupted transaction leaves, and its recovery; PackCrash,
      PackOps: the operations as functions of the directory, and their crash safety;
      PackLive: they succeed on a disk that works; PackSamples, PackSafety: a concrete
      store and the theorems.

    Storage and the pipeline ([internal/rawstore], [internal/outbox],
    [internal/pipeline]):
    - World: the database tables as lists of rows, the pipeline's counters, the
      environment, the operations on them and their weakest preconditions;
    - RawStore: [store.go]; Outbox: [outbox.go]; Pipeline: [pipeline.go];
    - Samples: concrete environments and records for the instances of the theorems;
    - StoreSpec: the abstract specification of the store (its effect on the number of
      outcomes of each child) that the clients' proofs use instead of its code;
      Delivery: the delivery pass; Accounting and Lifecycle: the counters over every
      run; NoLoss: the outcomes of every child over every run.

    Ingestion ([internal/ingest]):
    - Ingest: the channel between an adapter and the pipeline, as a class [Receiver],
      what durable delivery asks of it ([DurableReceiver]), and that the pipeline
      discharges that interface;
    - Framing: [syslog.go] and [syslog_tls.go], a stream cut into messages;
      FileIngest: [file.go]; Pull: [kafka.go] and [poller.go]; Http: [http.go];
      IngestManager: [adapter.go].

    Output ([internal/output]):
    - Ndjson: [file.go] over a [bufio.Writer], and [stdout.go]; HttpSink: [http.go];
      Sinks: [sink.go], [multi.go], [retry.go], [dynamic.go], with the class
      [DurableSink] of a sink whose acknowledgement means something; KafkaSink:
      [kafka.go]; Parquet: [parquet.go], the lake of partitions and its manifest.  The
      file, HTTP, Kafka and Parquet sinks are instances of [DurableSink].

    Connections ([internal/connections]):
    - Connections: [connection.go] and [manager.go]; Runtime: [runtime.go], the
      adapters and sinks compiled from connections, and their replacement.

    The marketplace ([internal/marketplace], [cmd/marketplace]):
    - FileTree: files by absolute path, where several directories are involved;
    - Catalog: the signed catalogue and the choice of a release; Market: the store of
      the catalogue and of its artifacts, export and import; MarketSamples: a small
      catalogue; CatalogSpec: what a verified catalogue is; MarketSafety and
      MarketRoundtrip: importing, and exporting then importing;
    - Release: [release.go], the owner's preparation of releases; Publish: [main.go] and
      [site.go], the catalogue assembled and signed, and its site.

    The management API ([internal/api/server.go]):
    - ApiCore: requests, answers and the state a server works on; ApiStore: the
      handlers over the raw store, the pipeline and the connections; ApiPacks: those
      over packs and the marketplace; ApiServer: the routing table, the guards and the
      middleware;
    - ApiSpec: what each handler may change; ApiSafety: the theorems over every
      request; ApiInstall: a small server, and installation over the API; ApiReplay:
      replaying the quarantine over the API.

    ** How the state corresponds

    [World] holds the database ([Db]: [raw_events], [quarantine], [normalized_events],
    [outbox]), the five atomic counters of [Pipeline], the raw-id sequence, the
    normalizer's state, and the log of the events a sink accepted.  The environment
    [Env] supplies what the program does not decide: which database call fails
    ([fault], indexed by the number of the call), random draws, clock readings, sink
    refusals, SHA-256 and [json.Marshal].  A theorem that quantifies over [Env]
    therefore holds for every pattern of failures, and a process that stops after its
    n-th database call is the environment in which all later calls fail: what the
    database then holds is what a restart finds.  A transaction keeps its changes only
    when every call in it, and the commit, succeed.

    The other components have environments of the same kind: [FsEnv] for the pack
    directory, [TreeEnv] for files by path, [IngestEnv] and [SpoolEnv] for the
    adapters, [FileEnv] for the NDJSON file, [SiemEnv] for the endpoint, [KafkaEnv] and
    [ParquetEnv] for those sinks, [ConnEnv] for the connection files, [RuntimeEnv] for
    what is built from them, [MarketEnv], [CatalogEnv] and [SemVer] for the
    marketplace, [ReleaseEnv] and [PublishEnv] for the owner's
    command, [ApiEnv] and [Probes] for the
    API.  An adapter's state is [Feed]: the state of the receiver, its own state, and
    the records it sent.  The API's [Backend] has the database, the connections, the
    pack files and the files of the marketplace, which are two parts of one directory.

    ** Theorems

    - No loss (NoLoss): whatever fails, a stored raw row is either still 'accepted',
      and resumed at the next start, or every child of its payload has an outcome;
      no child has two, as long as the same decoders are in place; resuming settled
      children changes nothing.
    - Accounting (Lifecycle): in every reachable state accepted = counted outcomes +
      pending, so that the audit of a report, which takes its outcomes from the
      database, passes if and only if every counted outcome is stored.
    - Delivery (Delivery, Outbox): at-least-once delivery of each row, the back-off, the
      partition of events in the statistics.
    - Pack store (PackSafety): an interrupted installation, removal or rollback is
      recovered to the state before or after it, whenever the process stops; an
      operation that fails changes nothing; on a working disk it succeeds, and a
      rollback undoes the installation.
    - Ingestion (Framing, FileIngest, Pull, Http): frames written are the messages read;
      a connection sends its messages in order; a file reaches [processed] only when
      all its records are durable; checkpoints cover only what is durable; the HTTP
      answer tells exactly what is durable.  Each is proved for any receiver whose
      acknowledgements are honest, and Ingest proves the pipeline is one.
      IngestManager: no adapter sends on the closed channel.
    - Sinks (Ndjson, HttpSink, Sinks, Parquet): an acknowledged event is in the synced
      file, or was accepted by the endpoint; through the dynamic sink, at its
      destination.  In the lake, what Emit accepted is in a part file or still in
      memory whatever fails, a committed part is whole, listed and named after its
      partition, and no path leaves the lake's directory.
    - Connections (Connections, Runtime): applying a file is all or nothing, takes the
      connection that the file held out, and is rolled back exactly; the adapters and sinks that are open are exactly those in use,
      a reconciliation replaces all of them or none, and none panics on validated
      connections.
    - Packs and events (Pack, Snapshot, Extract, Normalize): what a validated pack
      guarantees, unique matching, typed, lossless and order-independent extraction,
      exactness of the validator.
    - Decoding (Registry, Decoders, Cef, Leef, KeyValue, Syslog, Csv, Json, JsonDepth,
      JsonBatch, Xml): ranking and dispatch, round trips of JSON, CSV and escaped text,
      the nesting bound of JSON, and exactly which payloads panic.
    - Marketplace (CatalogSpec, MarketSafety, MarketRoundtrip, Release, Publish): only signed
      and well-formed catalogues are trusted, the chosen release is the newest that
      passes, an import adds nothing unverified, what was exported can be imported,
      the preparation of releases keeps the exact bytes of every earlier one, and what
      is published extends what was, with every artifact on the site.
    - Management API (ApiSafety, ApiInstall, ApiReplay): a request without the token
      changes nothing and, but for the verification of an event, its answer does not depend on
      the payloads of the raw records; the pipeline sees only steps of its own
      specification; an installation writes verified bytes, never over a locally
      changed pack; the report of a replay says what happened to each record.

    ** Choices

    Go maps are [gmap]s; where the source ranges over one, the order is an argument
    ([MapOrder]) and the results are shown not to depend on it.  [int] and [int64] are
    [Z] with their range where overflow is possible (conversions from [float64] go
    through [GoPlatform], which is implementation defined in Go).  Loops are structural
    or use [scan], a fuel-driven loop whose fuel (the length of the text) is proved
    enough; [runes], [Split] and the connection loop use the length of the text as
    fuel, which is enough as each round consumes a byte.  A loop that runs until its
    context is done takes the number of its rounds as an argument, over which the
    theorems quantify.

    Parameters (code outside the repository or too large to read into the model):
    [regexp.Compile] of a pack's pattern, [time.Parse], [time.ParseDuration], the
    shortest text of a float, SHA-256, ed25519, [semver], [sort.Slice] (any order it
    may leave), JSON of the program's own records, the YAML decoder, the tokenizer of
    [encoding/xml], the clients of Kafka and of HTTP, [http.FileServer], [url.Parse] of
    an endpoint, the encoding of a Parquet file, the files of a TLS configuration, the
    HTML templates of the site.

    ** Not modelled

    Interleaving of the worker goroutines (records are processed one after the other,
    in any order of submissions, deliveries and replays; the API's requests likewise);
    sockets, deadlines and connection caps of the listeners; the adoption of shipped
    packs when the server is built; [cmd/worm] and [internal/cli], which read flags and
    print, and [cmd/logsim], a generator of test traffic. *)

From stdpp Require Export base tactics gmap strings list option pretty.
From Stdlib Require Export Ascii ZArith Lia Sorted.

#[global] Open Scope string_scope.
#[global] Open Scope list_scope.
#[global] Open Scope Z_scope.
#[global] Arguments String.append : simpl nomatch.

(** ** Go errors

    A Go [error] built by [fmt.Errorf] or [errors.New] is represented by its
    format string and its arguments, so that [%w] wrapping, and hence
    [errors.Is], is visible in the value.  The rendered text ([err.Error()]) is
    a function of this value and is never inspected by the program. *)

Inductive error :=
| Errorf (format : string) (args : list earg)
with earg :=
| AStr (s : string)          (* %s, %q *)
| AInt (z : Z)               (* %d *)
| AErr (e : error)           (* %w: wrapped, seen by errors.Is *)
| AVErr (e : error).         (* %v of an error: rendered only *)

Definition errors_New (text : string) : error := Errorf text [].

(** [errors.Is err target] for a sentinel created by [errors.New text]. *)
Fixpoint errors_is (e : error) (sentinel : string) : bool :=
  match e with
  | Errorf f args =>
      match args with
      | [] => String.eqb f sentinel
      | _ => existsb (λ a, match a with AErr e' => errors_is e' sentinel | _ => false end) args
      end
  end.

(** ** Fallible results

    The Go pair [(value, error)] with exactly one meaningful half, or a run-time
    panic, which no code of the program recovers from. *)

Inductive res (A : Type) :=
| Ok (a : A)
| Err (e : error)
| Panic (msg : string).
Arguments Ok {A} a.
Arguments Err {A} e.
Arguments Panic {A} msg.

#[export] Instance res_ret : MRet res := λ A a, Ok a.
#[export] Instance res_bind : MBind res := λ A B f m,
  match m with Ok a => f a | Err e => Err e | Panic p => Panic p end.
#[export] Instance res_fmap : FMap res := λ A B f m,
  match m with Ok a => Ok (f a) | Err e => Err e | Panic p => Panic p end.

Definition is_ok {A} (r : res A) : bool := match r with Ok _ => true | _ => false end.
Definition no_panic {A} (r : res A) : Prop := match r with Panic _ => False | _ => True end.

(** [if err != nil { return fmt.Errorf("...: %w", err) }] *)
Definition wrap_err {A} (wrap : error → error) (r : res A) : res A :=
  match r with Ok a => Ok a | Err e => Err (wrap e) | Panic p => Panic p end.

Definition of_option {A} (e : error) (o : option A) : res A :=
  match o with Some a => Ok a | None => Err e end.

Lemma of_option_ok {A} (e : error) (o : option A) a : of_option e o = Ok a → o = Some a.
Proof. destruct o; simpl; congruence. Qed.

(** Go's [==] on strings and on bytes. *)
Declare Scope worm_scope.
Delimit Scope worm_scope with worm.
Notation "s =s t" := (String.eqb s t) (at level 70) : worm_scope.
Notation "s <>s t" := (negb (String.eqb s t)) (at level 70) : worm_scope.
Notation "a =b c" := (Ascii.eqb a c) (at level 70) : worm_scope.
Notation "a <>b c" := (negb (Ascii.eqb a c)) (at level 70) : worm_scope.
#[global] Open Scope worm_scope.

(** ** Automation *)

Create HintDb worm discriminated.
#[export] Hint Constants Opaque : worm.

(** [inv H]: inversion that cleans up after itself. *)
Ltac inv H := inversion H; clear H; simplify_eq/=.

(** [case_inner]: destruct the scrutinee of the innermost match of the goal. *)
Ltac case_inner :=
  match goal with
  | |- context [ match ?x with _ => _ end ] =>
      lazymatch x with context [ match _ with _ => _ end ] => fail | _ => destruct x eqn:? end
  end.

(** [case_inner_in H]: the same in a hypothesis. *)
Ltac case_inner_in H :=
  match type of H with
  | context [ match ?x with _ => _ end ] =>
      lazymatch x with context [ match _ with _ => _ end ] => fail | _ => destruct x eqn:? end
  end.

(** [res_inv]: peel the monadic binds of every hypothesis [_ = Ok _]. *)
Ltac res_inv :=
  repeat match goal with
  | H : Ok _ = Ok _ |- _ => injection H as H; subst
  | H : Err _ = Ok _ |- _ => discriminate H
  | H : Ok _ = Err _ |- _ => discriminate H
  | H : Panic _ = Ok _ |- _ => discriminate H
  | H : (if ?c then Err _ else _) = Ok _ |- _ => destruct c eqn:?; [discriminate H|]
  | H : mbind _ ?m = Ok _ |- _ => destruct m eqn:?; simpl in H; [|discriminate H..]
  | H : fmap _ ?m = Ok _ |- _ => destruct m eqn:?; simpl in H; [|discriminate H..]
  | H : wrap_err _ ?m = Ok _ |- _ => destruct m eqn:?; simpl in H; [|discriminate H..]
  | H : of_option _ ?m = Ok _ |- _ => destruct m eqn:?; simpl in H; [|discriminate H..]
  end.

(** ** Shared lemmas on results *)

Lemma res_bind_ok {A B} (f : A → res B) (m : res A) b :
  (m ≫= f) = Ok b ↔ ∃ a, m = Ok a ∧ f a = Ok b.
Proof. destruct m; simpl; naive_solver. Qed.

Lemma res_bind_no_panic {A B} (f : A → res B) (m : res A) :
  no_panic m → (∀ a, m = Ok a → no_panic (f a)) → no_panic (m ≫= f).
Proof. destruct m; simpl; auto. Qed.

Lemma wrap_err_ok {A} w (m : res A) a : wrap_err w m = Ok a ↔ m = Ok a.
Proof. destruct m; simpl; naive_solver. Qed.

Lemma wrap_err_no_panic {A} w (m : res A) : no_panic m → no_panic (wrap_err w m).
Proof. by destruct m. Qed.

(** ** Shared lemmas on lists and counting *)

(** Number of elements that satisfy a boolean predicate: SQL [COUNT( * ) ... WHERE]. *)
Fixpoint count {A} (p : A → bool) (l : list A) : Z :=
  match l with
  | [] => 0
  | x :: l' => (if p x then 1 else 0) + count p l'
  end.

Section count.
Context {A : Type}.
Implicit Types (p q : A → bool) (l : list A).

Lemma count_app p l1 l2 : count p (l1 ++ l2) = count p l1 + count p l2.
Proof. induction l1 as [|x l1 IH]; simpl; [done|rewrite IH; lia]. Qed.

Lemma count_nonneg p l : 0 ≤ count p l.
Proof. induction l as [|x l IH]; simpl; [lia|destruct (p x); lia]. Qed.

Lemma count_ext p q l : (∀ x, x ∈ l → p x = q x) → count p l = count q l.
Proof.
  induction l as [|x l IH]; intros H; simpl; [done|].
  rewrite (H x) by left. rewrite IH; [done|]. intros y Hy. apply H. by right.
Qed.

Lemma count_pos p l : 0 < count p l ↔ ∃ x, x ∈ l ∧ p x = true.
Proof.
  induction l as [|x l IH]; simpl.
  { split; [lia|]. intros (y & Hy & _). inversion Hy. }
  pose proof (count_nonneg p l). destruct (p x) eqn:E; split.
  - intros _. exists x. split; [left|done].
  - lia.
  - intros Hc. destruct (proj1 IH) as (y & Hy & Ep); [lia|]. exists y. split; [by right|done].
  - intros (y & Hy & Ep). apply elem_of_cons in Hy as [->|Hy]; [congruence|].
    assert (0 < count p l); [|lia]. apply IH. eauto.
Qed.

Lemma count_zero p l : count p l = 0 ↔ ∀ x, x ∈ l → p x = false.
Proof.
  pose proof (count_nonneg p l) as Hn. split.
  - intros H0 x Hx. destruct (p x) eqn:E; [|done].
    assert (0 < count p l) by (apply count_pos; eauto). lia.
  - intros H. assert (¬ 0 < count p l); [|lia].
    intros (x & Hx & E)%count_pos. rewrite H in E; done.
Qed.

Lemma count_le_length p l : count p l ≤ Z.of_nat (length l).
Proof. induction l as [|x l IH]; simpl; [lia|destruct (p x); lia]. Qed.

Lemma count_true l : count (λ _, true) l = Z.of_nat (length l).
Proof. induction l as [|x l IH]; simpl; lia. Qed.
End count.

Lemma count_map {A B} (f : A → B) (p : B → bool) (l : list A) :
  count p (f <$> l) = count (λ x, p (f x)) l.
Proof. induction l as [|x l IH]; [done|]. rewrite fmap_cons. cbn [count]. by rewrite IH. Qed.

(** Bounds-checked list filter used for SQL [WHERE]: [List.filter] on booleans. *)
Lemma count_filter {A} (p q : A → bool) (l : list A) :
  count p (List.filter q l) = count (λ x, p x && q x) l.
Proof.
  induction l as [|x l IH]; simpl; [done|].
  destruct (q x); simpl; rewrite IH; by destruct (p x).
Qed.

Lemma NoDup_filter_bool {A} (p : A → bool) (l : list A) : NoDup l → NoDup (List.filter p l).
Proof. rewrite !NoDup_ListNoDup. apply List.NoDup_filter. Qed.

Lemma NoDup_fmap_filter {A B} (f : A → B) (p : A → bool) (l : list A) :
  NoDup (f <$> l) → NoDup (f <$> List.filter p l).
Proof.
  induction l as [|x l IH]; [done|]. rewrite fmap_cons. intros [Hx Hl]%NoDup_cons. simpl.
  destruct (p x); [|by apply IH]. rewrite fmap_cons. apply NoDup_cons. split; [|by apply IH].
  intros (y & Hy & Hin)%list_elem_of_fmap. apply Hx. rewrite Hy. apply list_elem_of_fmap_2.
  rewrite list_elem_of_In in *. by apply filter_In in Hin as [? _].
Qed.

Lemma NoDup_fmap_inj {A B} (f : A → B) (l : list A) x y :
  NoDup (f <$> l) → x ∈ l → y ∈ l → f x = f y → x = y.
Proof.
  induction l as [|z l IH]; [by intros _ ?%elem_of_nil|]. rewrite fmap_cons. intros [Hz Hl]%NoDup_cons.
  intros [->|Hx]%elem_of_cons [->|Hy]%elem_of_cons He; [done|..|by apply IH];
    destruct Hz; [rewrite He|rewrite <- He]; by apply list_elem_of_fmap_2.
Qed.

Lemma forallb_false {A} (p : A → bool) (l : list A) :
  forallb p l = false → ∃ x, x ∈ l ∧ p x = false.
Proof.
  induction l as [|x l IH]; simpl; [done|]. intros [H|H]%andb_false_iff.
  - exists x. split; [left|done].
  - destruct (IH H) as (y & ? & ?). exists y. split; [by right|done].
Qed.

(** Checking a decidable fact about a small range of integers by computation. *)
Lemma check_range (p : Z → bool) (n : Z) :
  forallb p (seqZ 0 n) = true → ∀ z, 0 ≤ z < n → p z = true.
Proof.
  intros H z Hz. rewrite forallb_forall in H. apply H.
  apply list_elem_of_In, elem_of_seqZ. lia.
Qed.

(** ** Sorting: SQL's [ORDER BY], Go's [sort.Strings]; a stable insertion sort *)

Fixpoint sort_insert {A} (le : A → A → bool) (x : A) (l : list A) : list A :=
  match l with
  | [] => [x]
  | y :: l' => if le x y then x :: l else y :: sort_insert le x l'
  end.
Definition order_by {A} (le : A → A → bool) (l : list A) : list A := foldr (sort_insert le) [] l.

Lemma order_by_perm {A} (le : A → A → bool) l : order_by le l ≡ₚ l.
Proof.
  unfold order_by. induction l as [|x l IH]; [done|]. simpl. rewrite <- IH at 2. generalize (foldr (sort_insert le) [] l).
  clear. intros l. induction l as [|y l IH]; simpl; [done|]. destruct (le x y); [done|].
  rewrite IH. constructor.
Qed.

Lemma order_by_sorted {A} (le : A → A → bool) l :
  (∀ x y, le x y = true ∨ le y x = true) → (∀ x y z, le x y = true → le y z = true → le x z = true) →
  StronglySorted (λ x y, le x y = true) (order_by le l).
Proof.
  intros Htot Htr. unfold order_by. induction l as [|x l IH]; [constructor|]. simpl.
  generalize dependent (foldr (sort_insert le) [] l). clear l. intros l IH.
  induction l as [|y l IHl]; simpl; [repeat constructor|].
  apply StronglySorted_inv in IH as [Hs Hy]. destruct (le x y) eqn:E.
  - constructor; [by constructor|]. constructor; [done|]. eapply Forall_impl; [exact Hy|]. eauto.
  - specialize (IHl Hs). constructor; [done|].
    assert (sort_insert le x l ≡ₚ x :: l) as Hp.
    { clear. induction l as [|z l IH]; simpl; [done|]. destruct (le x z); [done|]. rewrite IH. constructor. }
    rewrite Hp. constructor; [|done]. destruct (Htot x y); congruence.
Qed.
