(* ===== verification/Monad.v ===== *)
(** * Stateful and fallible programs: a monad, weakest preconditions and kept relations

    A program of type [Prog S A] reads and changes a state of type [S] and ends with a
    value, an error (the Go function returned one) or a panic.  The pipeline is written
    over the [World] of World.v, the pack store over the disk of Disk.v. *)

From S2P Require Import Prelude.

Definition Prog (S A : Type) : Type := S → res A * S.

Section monad.
Context {S : Type}.

Definition ret {A} (a : A) : Prog S A := λ w, (Ok a, w).
Definition fail {A} (e : error) : Prog S A := λ w, (Err e, w).
Definition mcall {A} (r : res A) : Prog S A := λ w, (r, w).
Definition bind {A B} (m : Prog S A) (f : A → Prog S B) : Prog S B := λ w,
  match m w with
  | (Ok a, w') => f a w'
  | (Err e, w') => (Err e, w')
  | (Panic p, w') => (Panic p, w')
  end.
(** [r, err := m()]: the caller looks at the error. *)
Definition try {A} (m : Prog S A) : Prog S (res A) := λ w,
  match m w with
  | (Panic p, w') => (Panic p, w')
  | (r, w') => (Ok r, w')
  end.

(** [wp m Q w]: running [m] from [w] ends with a result and a state that satisfy [Q]. *)
Definition wp {A} (m : Prog S A) (Q : res A → S → Prop) (w : S) : Prop :=
  let '(r, w') := m w in Q r w'.

(** [keeps R m]: every run of [m] relates its first and last states by [R]. *)
Definition keeps {A} (R : S → S → Prop) (m : Prog S A) : Prop := ∀ w, R w (m w).2.
End monad.

Declare Scope monad_scope.
Delimit Scope monad_scope with M.
Notation "x <- m ;; k" := (bind m (λ x, k)) (at level 100, m at next level, right associativity) : monad_scope.
Notation "' pat <- m ;; k" := (bind m (λ x, match x with pat => k end))
  (at level 100, pat pattern, m at next level, right associativity) : monad_scope.
Notation "m ;;; k" := (bind m (λ _, k)) (at level 100, right associativity) : monad_scope.

Section wp.
Context {S A B : Type}.
Implicit Types (w : S).

Lemma wp_run (m : Prog S A) Q w r w' : m w = (r, w') → Q r w' → wp m Q w.
Proof. unfold wp. by intros ->. Qed.

Lemma wp_elim (m : Prog S A) Q w r w' : wp m Q w → m w = (r, w') → Q r w'.
Proof. unfold wp. intros H E. by rewrite E in H. Qed.

Lemma wp_mono (m : Prog S A) (Q Q' : res A → S → Prop) w :
  wp m Q w → (∀ r w', Q r w' → Q' r w') → wp m Q' w.
Proof. unfold wp. destruct (m w); auto. Qed.

Lemma wp_and (m : Prog S A) (Q Q' : res A → S → Prop) w :
  wp m Q w → wp m Q' w → wp m (λ r w', Q r w' ∧ Q' r w') w.
Proof. unfold wp. by destruct (m w). Qed.

Lemma wp_ret (a : A) (Q : res A → S → Prop) w : Q (Ok a) w → wp (ret a) Q w.
Proof. done. Qed.
Lemma wp_fail e (Q : res A → S → Prop) w : Q (Err e) w → wp (fail e) Q w.
Proof. done. Qed.
Lemma wp_mcall r (Q : res A → S → Prop) w : Q r w → wp (mcall r) Q w.
Proof. done. Qed.

Lemma wp_bind (m : Prog S A) (f : A → Prog S B) Q w :
  wp m (λ r w', match r with
                | Ok a => wp (f a) Q w'
                | Err e => Q (Err e) w'
                | Panic p => Q (Panic p) w'
                end) w →
  wp (bind m f) Q w.
Proof. unfold wp, bind. destruct (m w) as [[a|e|p] w']; auto. Qed.

Lemma wp_try (m : Prog S A) Q w :
  wp m (λ r w', match r with Panic p => Q (Panic p) w' | _ => Q (Ok r) w' end) w → wp (try m) Q w.
Proof. unfold wp, try. destruct (m w) as [[a|e|p] w']; auto. Qed.

(** What a program keeps may be added to its postcondition. *)
Lemma wp_keeps R (m : Prog S A) Q w : keeps R m → wp m (λ r w', R w w' → Q r w') w → wp m Q w.
Proof. unfold wp, keeps. intros H. specialize (H w). destruct (m w). auto. Qed.
End wp.

Section keeps.
Context {S : Type} (R : S → S → Prop) `{!PreOrder R}.

Lemma keeps_ret {A} (a : A) : keeps R (ret a).
Proof. intros w. reflexivity. Qed.
Lemma keeps_fail {A} e : keeps R (@fail S A e).
Proof. intros w. reflexivity. Qed.
Lemma keeps_mcall {A} (r : res A) : keeps R (mcall r).
Proof. intros w. reflexivity. Qed.
Lemma keeps_bind {A B} (m : Prog S A) (f : A → Prog S B) :
  keeps R m → (∀ a, keeps R (f a)) → keeps R (bind m f).
Proof.
  intros Hm Hf w. specialize (Hm w). unfold bind. destruct (m w) as [[a|e|p] w']; [|done..].
  transitivity w'; [done|apply Hf].
Qed.
Lemma keeps_try {A} (m : Prog S A) : keeps R m → keeps R (try m).
Proof. intros Hm w. specialize (Hm w). unfold try. destruct (m w) as [[a|e|p] w']; done. Qed.
Lemma keeps_mono {A} (R' : S → S → Prop) (m : Prog S A) :
  (∀ w w', R' w w' → R w w') → keeps R' m → keeps R m.
Proof. intros H Hm w. apply H, Hm. Qed.
Lemma keeps_wp {A} (m : Prog S A) : keeps R m ↔ ∀ w, wp m (λ _ w', R w w') w.
Proof. unfold keeps, wp. split; intros Hm w; specialize (Hm w); by destruct (m w). Qed.
End keeps.

(** ** Runs that succeed, programs that do not panic *)

(** A call that succeeded, taken apart. *)
Lemma bind_ok {S A B} (m : Prog S A) (f : A → Prog S B) s b s' :
  bind m f s = (Ok b, s') → ∃ a s1, m s = (Ok a, s1) ∧ f a s1 = (Ok b, s').
Proof. unfold bind. destruct (m s) as [[a|e|p] s1]; [eauto|done..]. Qed.
Lemma try_ok {S A} (m : Prog S A) s r s' : try m s = (Ok r, s') → m s = (r, s') ∧ no_panic r.
Proof. unfold try. destruct (m s) as [[a|e|p] s1]; intros [= <- <-]; done. Qed.

(** No run of the program panics. *)
Definition panicless {S A} (m : Prog S A) : Prop := ∀ s, no_panic (m s).1.
Lemma panicless_ret {S A} (a : A) : panicless (@ret S A a).
Proof. by intros s. Qed.
Lemma panicless_fail {S A} e : panicless (@fail S A e).
Proof. by intros s. Qed.
Lemma panicless_mcall {S A} (r : res A) : no_panic r → panicless (@mcall S A r).
Proof. by intros Hr s. Qed.
Lemma panicless_bind {S A B} (m : Prog S A) (f : A → Prog S B) : panicless m → (∀ a, panicless (f a)) → panicless (bind m f).
Proof. intros Hm Hf s. specialize (Hm s). unfold bind. destruct (m s) as [[a|e|p] s1]; [apply Hf|done..]. Qed.
Lemma panicless_try {S A} (m : Prog S A) : panicless m → panicless (try m).
Proof. intros Hm s. specialize (Hm s). unfold try. by destruct (m s) as [[a|e|p] s1]. Qed.
(** What is tried has not panicked: the branch of a panic is dead. *)
Lemma panicless_tried {S A B} (m : Prog S A) (f : res A → Prog S B) :
  panicless m → (∀ r, no_panic r → panicless (f r)) → panicless (bind (try m) f).
Proof. intros Hm Hf s. specialize (Hm s). unfold bind, try. destruct (m s) as [[a|e|p] s1]; [by apply Hf|by apply Hf|done]. Qed.

(** [keeps_tac]: go through the structure of a program. *)
Ltac keeps_step :=
  match goal with
  | |- keeps _ (bind _ _) => apply keeps_bind; [try typeclasses eauto| |intros ?]
  | |- keeps _ (try _) => apply keeps_try
  | |- keeps _ (ret _) => apply keeps_ret; try typeclasses eauto
  | |- keeps _ (fail _) => apply keeps_fail; try typeclasses eauto
  | |- keeps _ (mcall _) => apply keeps_mcall; try typeclasses eauto
  | |- keeps _ (match ?x with _ => _ end) => destruct x eqn:?
  | |- keeps _ (let _ := _ in _) => cbv zeta
  | |- keeps _ _ => solve [eauto with worm]
  end.
Ltac keeps_tac := repeat keeps_step.
