(* ===== verification/GoStrings.v ===== *)
(** * The parts of Go's [strings], [bytes], [unicode/utf8] and [encoding/hex] the program uses

    A Go [string] and a Go [[]byte] are both a sequence of bytes: Rocq's
    [string] of 8-bit [ascii].  Slicing is [str_take]/[str_drop]; the indices
    the program computes are always in range, which the lemmas below make
    available ([index_bound], ...). *)

From S2P Require Import Prelude.

(** ** Bytes *)

Definition bz (c : ascii) : Z := Z.of_N (Ascii.N_of_ascii c).
Definition zb (z : Z) : ascii := Ascii.ascii_of_N (Z.to_N z).
Definition chr (c : ascii) : string := String c "".

Definition TAB : ascii := "009"%char.
Definition LF : ascii := "010"%char.
Definition CR : ascii := "013"%char.
Definition QUOTE : ascii := "034"%char.
Definition BACKSLASH : ascii := "\"%char.

Definition is_digit (c : ascii) : bool := (48 <=? bz c) && (bz c <=? 57).

Lemma bz_range c : 0 ≤ bz c < 256.
Proof.
  unfold bz. pose proof (Ascii.N_ascii_bounded c). lia.
Qed.

Lemma zb_bz c : zb (bz c) = c.
Proof. unfold zb, bz. rewrite N2Z.id. apply Ascii.ascii_N_embedding. Qed.

Lemma bz_zb z : 0 ≤ z < 256 → bz (zb z) = z.
Proof. intros H. unfold zb, bz. rewrite Ascii.N_ascii_embedding by lia. lia. Qed.

Lemma bz_inj c d : bz c = bz d → c = d.
Proof. intros H. by rewrite <- (zb_bz c), H, zb_bz. Qed.

(** ** Length, slicing and concatenation *)

Definition slen (s : string) : Z := Z.of_nat (String.length s).

(** [s[:n]] and [s[n:]] *)
Fixpoint str_take (n : nat) (s : string) : string :=
  match n, s with
  | S n', String c s' => String c (str_take n' s')
  | _, _ => ""
  end.

Fixpoint str_drop (n : nat) (s : string) : string :=
  match n, s with
  | S n', String _ s' => str_drop n' s'
  | O, _ => s
  | _, EmptyString => ""
  end.

(** [s[i]] *)
Definition str_get (s : string) (i : nat) : option ascii := String.get i s.

Definition str_last (s : string) : option ascii := str_get s (pred (String.length s)).

Lemma app_nil_r_str (s : string) : s +:+ "" = s.
Proof. induction s as [|c s IH]; simpl; [done|by rewrite IH]. Qed.

Lemma app_assoc_str (s1 s2 s3 : string) : (s1 +:+ s2) +:+ s3 = s1 +:+ (s2 +:+ s3).
Proof. induction s1 as [|c s IH]; simpl; [done|by rewrite IH]. Qed.

Lemma length_app_str (s1 s2 : string) :
  String.length (s1 +:+ s2) = (String.length s1 + String.length s2)%nat.
Proof. induction s1 as [|c s IH]; simpl; [done|by rewrite IH]. Qed.

Lemma app_cons_str c (s t : string) : String c s +:+ t = String c (s +:+ t).
Proof. done. Qed.

Lemma take_drop_str n s : str_take n s +:+ str_drop n s = s.
Proof. revert s. induction n as [|n IH]; intros [|c s]; simpl; try done; by rewrite IH. Qed.

Lemma length_drop_str n s : String.length (str_drop n s) = (String.length s - n)%nat.
Proof. revert s. induction n as [|n IH]; intros [|c s]; simpl; try done; apply IH. Qed.

Lemma length_take_str n s : String.length (str_take n s) = Nat.min n (String.length s).
Proof. revert s. induction n as [|n IH]; intros [|c s]; simpl; try done; by rewrite IH. Qed.

Lemma drop_app_str s t : str_drop (String.length s) (s +:+ t) = t.
Proof. induction s; simpl; [by destruct t|done]. Qed.

Lemma drop_app_chr s c t : str_drop (String.length s + 1) (s +:+ String c t) = t.
Proof. induction s; simpl; [by destruct t|done]. Qed.

Lemma str_take_all s : str_take (String.length s) s = s.
Proof. induction s as [|c s IH]; simpl; [done|by rewrite IH]. Qed.
Lemma take_app_chr s c t : str_take (String.length s + 1) (s +:+ String c t) = s +:+ chr c.
Proof. induction s as [|d s IH]; [done|]. simpl. by rewrite IH. Qed.
Lemma take_app_str s t : str_take (String.length s) (s +:+ t) = s.
Proof. induction s as [|c s IH]; simpl; [by destruct t|by rewrite IH]. Qed.

Lemma drop_0_str s : str_drop 0 s = s.
Proof. by destruct s. Qed.

Lemma drop_all_str s n : (String.length s ≤ n)%nat → str_drop n s = "".
Proof. revert n. induction s as [|c s IH]; intros [|n] H; simpl in *; try done; [lia|]. apply IH. lia. Qed.

Lemma app_inj_l_str (s t u : string) : s +:+ t = s +:+ u → t = u.
Proof. induction s as [|c s IH]; simpl; [done|]. intros [=]. auto. Qed.

Create Rewrite HintDb strings.
#[export] Hint Rewrite app_nil_r_str app_assoc_str length_app_str : strings.

(** A string as the list of its bytes. *)
Fixpoint bytes_of (s : string) : list ascii :=
  match s with "" => [] | String c s' => c :: bytes_of s' end.

Fixpoint of_bytes (l : list ascii) : string :=
  match l with [] => "" | c :: l' => String c (of_bytes l') end.

Lemma of_bytes_of s : of_bytes (bytes_of s) = s.
Proof. induction s as [|c s IH]; simpl; [done|by rewrite IH]. Qed.

Lemma bytes_of_app s t : bytes_of (s +:+ t) = bytes_of s ++ bytes_of t.
Proof. induction s as [|c s IH]; simpl; [done|by rewrite IH]. Qed.

Lemma length_bytes_of s : length (bytes_of s) = String.length s.
Proof. induction s as [|c s IH]; simpl; [done|by rewrite IH]. Qed.

(** Every byte satisfies [p]. *)
Fixpoint all_bytes (p : ascii → bool) (s : string) : bool :=
  match s with "" => true | String c s' => p c && all_bytes p s' end.

Lemma all_bytes_app p s t : all_bytes p (s +:+ t) = all_bytes p s && all_bytes p t.
Proof. induction s as [|c s IH]; simpl; [done|]. by rewrite IH, andb_assoc. Qed.

Lemma all_bytes_impl (p q : ascii → bool) s :
  (∀ c, p c = true → q c = true) → all_bytes p s = true → all_bytes q s = true.
Proof.
  intros H. induction s as [|c s IH]; simpl; [done|].
  intros [Hc Hs]%andb_prop. by rewrite (H c Hc), IH.
Qed.

(** ** Searching *)

(** [strings.HasPrefix], [strings.TrimPrefix], [strings.HasSuffix] *)
Fixpoint HasPrefix (s pre : string) {struct pre} : bool :=
  match pre, s with
  | "", _ => true
  | String c pre', String d s' => (c =b d) && HasPrefix s' pre'
  | _, _ => false
  end.

Definition TrimPrefix (s pre : string) : string :=
  if HasPrefix s pre then str_drop (String.length pre) s else s.

Definition HasSuffix (s suf : string) : bool :=
  (String.length suf <=? String.length s)%nat
  && (str_drop (String.length s - String.length suf) s =s suf).

Definition TrimSuffix (s suf : string) : string :=
  if HasSuffix s suf then str_take (String.length s - String.length suf) s else s.

(** [strings.Index]: the first occurrence *)
Fixpoint Index (s sub : string) : option nat :=
  if HasPrefix s sub then Some 0%nat
  else match s with
       | "" => None
       | String _ s' => S <$> Index s' sub
       end.

(** [bytes.IndexByte], [strings.IndexByte] *)
Fixpoint IndexByte (s : string) (c : ascii) : option nat :=
  match s with
  | "" => None
  | String d s' => if d =b c then Some 0%nat else S <$> IndexByte s' c
  end.

Definition Contains (s sub : string) : bool :=
  match Index s sub with Some _ => true | None => false end.

(** [strings.Count(s, string(c))] for a one-byte separator *)
Fixpoint CountByte (s : string) (c : ascii) : Z :=
  match s with
  | "" => 0
  | String d s' => (if d =b c then 1 else 0) + CountByte s' c
  end.

Lemma HasPrefix_spec s pre : HasPrefix s pre = true ↔ ∃ t, s = pre +:+ t.
Proof.
  revert s. induction pre as [|c pre IH]; intros s; simpl.
  { destruct s; split; eauto. }
  destruct s as [|d s]; simpl.
  { split; [done|]. by intros [t ?]. }
  rewrite andb_true_iff, Ascii.eqb_eq, IH. split.
  - intros [-> [t ->]]. by exists t.
  - intros [t [= -> ->]]. eauto.
Qed.

Lemma TrimPrefix_app pre t : TrimPrefix (pre +:+ t) pre = t.
Proof.
  unfold TrimPrefix. rewrite (proj2 (HasPrefix_spec _ _)) by eauto. apply drop_app_str.
Qed.

Lemma app_suffix_inj (s t u v : string) :
  s +:+ u = t +:+ v → String.length u = String.length v → u = v.
Proof.
  intros He Hl. assert (String.length s = String.length t) as Hst.
  { apply (f_equal String.length) in He. rewrite !length_app_str in He. lia. }
  apply (f_equal (str_drop (String.length s))) in He. rewrite drop_app_str in He.
  by rewrite Hst, drop_app_str in He.
Qed.

Lemma TrimPrefix_cases s pre : s = TrimPrefix s pre ∨ s = pre +:+ TrimPrefix s pre.
Proof.
  destruct (HasPrefix s pre) eqn:E.
  - right. apply HasPrefix_spec in E as [t ->]. by rewrite TrimPrefix_app.
  - left. unfold TrimPrefix. by rewrite E.
Qed.

Lemma HasSuffix_spec s suf : HasSuffix s suf = true ↔ ∃ t, s = t +:+ suf.
Proof.
  unfold HasSuffix. rewrite andb_true_iff, Nat.leb_le, String.eqb_eq. split.
  - intros [_ H]. exists (str_take (String.length s - String.length suf) s).
    pose proof (take_drop_str (String.length s - String.length suf) s) as T. by rewrite H in T.
  - intros [t ->]. rewrite length_app_str. split; [lia|].
    replace (_ - _)%nat with (String.length t) by lia. apply drop_app_str.
Qed.

Lemma Index_Some s sub n :
  Index s sub = Some n → s = str_take n s +:+ sub +:+ str_drop (n + String.length sub) s.
Proof.
  revert n. induction s as [|c s IH]; intros n; cbn [Index].
  - destruct sub; simpl; [|done]. by intros [= <-].
  - destruct (HasPrefix (String c s) sub) eqn:E.
    + intros [= <-]. apply HasPrefix_spec in E as [t E]. rewrite E. simpl. by rewrite drop_app_str.
    + destruct (Index s sub) as [m|] eqn:Em; [|done]. intros [= <-]. simpl. by rewrite <- (IH m).
Qed.

Lemma Index_bound s sub n :
  Index s sub = Some n → (n + String.length sub ≤ String.length s)%nat.
Proof.
  revert n. induction s as [|c s IH]; intros n; cbn [Index].
  - destruct sub; simpl; [|done]. by intros [= <-].
  - destruct (HasPrefix (String c s) sub) eqn:E.
    + intros [= <-]. apply HasPrefix_spec in E as [t ->]. rewrite length_app_str. lia.
    + destruct (Index s sub) as [m|] eqn:Em; [|done]. intros [= <-].
      specialize (IH m eq_refl). simpl. lia.
Qed.

Lemma Index_None_prefix s sub t u : s = t +:+ (sub +:+ u) → Index s sub ≠ None.
Proof.
  revert t. induction s as [|c s IH]; intros t E.
  - destruct t, sub; done.
  - cbn [Index]. destruct (HasPrefix (String c s) sub) eqn:Ep; [done|].
    destruct t as [|d t]; simpl in E.
    + rewrite (proj2 (HasPrefix_spec _ _)) in Ep; [done|eauto].
    + injection E as <- ->. specialize (IH t eq_refl). by destruct (Index _ _).
Qed.

Lemma Contains_spec s sub : Contains s sub = true ↔ ∃ t u, s = t +:+ (sub +:+ u).
Proof.
  unfold Contains. destruct (Index s sub) as [n|] eqn:E; split; intros H; try done.
  - eexists _, _. by apply Index_Some.
  - destruct H as (t & u & H). by apply Index_None_prefix in H.
Qed.

Lemma IndexByte_Some s c n :
  IndexByte s c = Some n →
  s = str_take n s +:+ String c (str_drop (S n) s)
  ∧ all_bytes (λ d, d <>b c) (str_take n s) = true.
Proof.
  revert n. induction s as [|d s IH]; intros n; simpl; [done|].
  destruct (Ascii.eqb_spec d c) as [->|Hne].
  - intros [= <-]. by rewrite drop_0_str.
  - destruct (IndexByte s c) as [m|] eqn:E; [|done]. intros [= <-].
    destruct (IH m eq_refl) as [H1 H2]. split; [apply (f_equal (String d)), H1|]. simpl.
    rewrite H2. by rewrite (proj2 (Ascii.eqb_neq d c)).
Qed.
Lemma IndexByte_bound s c i : IndexByte s c = Some i → (i < String.length s)%nat.
Proof.
  revert i. induction s as [|d s IH]; intros i; simpl; [done|]. destruct (d =b c); [intros [= <-]; lia|].
  destruct (IndexByte s c) as [j|]; simpl; [|done]. intros [= <-]. specialize (IH j eq_refl). lia.
Qed.

Lemma IndexByte_app s c t :
  all_bytes (λ d, d <>b c) s = true → IndexByte (s +:+ String c t) c = Some (String.length s).
Proof.
  induction s as [|d s IH]; simpl.
  - intros _. by rewrite Ascii.eqb_refl.
  - intros [Hd Hs]%andb_prop. apply negb_true_iff in Hd. rewrite Hd. by rewrite IH.
Qed.

Lemma IndexByte_None s c : IndexByte s c = None ↔ all_bytes (λ d, d <>b c) s = true.
Proof.
  induction s as [|d s IH]; simpl; [done|].
  destruct (d =b c); simpl; [done|]. rewrite <- IH. by destruct (IndexByte s c).
Qed.

(** ** UTF-8 *)

Definition RuneError : Z := 65533.

Definition in_range (lo hi : Z) (c : ascii) : bool := (lo <=? bz c) && (bz c <=? hi).
Definition cont : ascii → bool := in_range 128 191.
Definition low6 (c : ascii) : Z := Z.land (bz c) 63.

(** [utf8.DecodeRuneInString]: the first rune and its width; an invalid
    sequence is [RuneError] of width 1. *)
Definition decode_rune (c0 : ascii) (s : string) : Z * nat :=
  if bz c0 <? 128 then (bz c0, 1%nat) else
  match s with
  | String c1 s1 =>
      if in_range 194 223 c0 && cont c1
      then (Z.shiftl (Z.land (bz c0) 31) 6 + low6 c1, 2%nat)
      else match s1 with
      | String c2 s2 =>
          if (((bz c0 =? 224) && in_range 160 191 c1)
              || (in_range 225 239 c0 && negb (bz c0 =? 237) && cont c1)
              || ((bz c0 =? 237) && in_range 128 159 c1)) && cont c2
          then (Z.shiftl (Z.land (bz c0) 15) 12 + Z.shiftl (low6 c1) 6 + low6 c2, 3%nat)
          else match s2 with
          | String c3 _ =>
              if (((bz c0 =? 240) && in_range 144 191 c1)
                  || (in_range 241 243 c0 && cont c1)
                  || ((bz c0 =? 244) && in_range 128 143 c1)) && cont c2 && cont c3
              then (Z.shiftl (Z.land (bz c0) 7) 18 + Z.shiftl (low6 c1) 12
                    + Z.shiftl (low6 c2) 6 + low6 c3, 4%nat)
              else (RuneError, 1%nat)
          | "" => (RuneError, 1%nat)
          end
      | "" => (RuneError, 1%nat)
      end
  | "" => (RuneError, 1%nat)
  end.

(** [range s]: each rune with the bytes it was decoded from.  [fuel] bounds the
    number of runes; [String.length s] is enough because every rune is at least
    one byte wide. *)
Definition rune := (Z * string)%type.

Fixpoint runes_aux (fuel : nat) (s : string) : list rune :=
  match fuel, s with
  | S n, String c s' =>
      let '(r, w) := decode_rune c s' in
      (r, String c (str_take (pred w) s')) :: runes_aux n (str_drop (pred w) s')
  | _, _ => []
  end.

Definition runes (s : string) : list rune := runes_aux (String.length s) s.
Definition unrunes (rs : list rune) : string := String.concat "" (snd <$> rs).

(** [utf8.ValidString]: a width-1 [RuneError] is exactly an invalid byte. *)
Definition utf8_Valid (s : string) : bool :=
  forallb (λ r, negb ((r.1 =? RuneError) && (String.length r.2 =? 1)%nat)) (runes s).

Lemma decode_rune_ascii c s : bz c < 128 → decode_rune c s = (bz c, 1%nat).
Proof. intros H. unfold decode_rune. by rewrite (proj2 (Z.ltb_lt _ _)). Qed.

Lemma concat_cons_str s l : String.concat "" (s :: l) = s +:+ String.concat "" l.
Proof. destruct l; simpl; [by rewrite app_nil_r_str|done]. Qed.

Lemma unrunes_cons r rs : unrunes (r :: rs) = r.2 +:+ unrunes rs.
Proof. unfold unrunes. rewrite fmap_cons. apply concat_cons_str. Qed.

Lemma unrunes_app rs1 rs2 : unrunes (rs1 ++ rs2) = unrunes rs1 +:+ unrunes rs2.
Proof.
  induction rs1 as [|r rs1 IH]; [done|].
  rewrite <- app_comm_cons, !unrunes_cons, IH. by rewrite app_assoc_str.
Qed.

(** More fuel than bytes changes nothing. *)
Lemma runes_aux_fuel n s :
  (String.length s ≤ n)%nat → runes_aux n s = runes_aux (String.length s) s.
Proof.
  revert s. induction n as [n IH] using lt_wf_ind. intros [|c s] H; destruct n as [|n]; simpl in *; try done; [lia|].
  destruct (decode_rune c s) as [r w]. f_equal.
  rewrite (IH n), (IH (String.length s)); rewrite ?length_drop_str; [done|lia..].
Qed.

Lemma runes_cons c s :
  runes (String c s) =
  let '(r, w) := decode_rune c s in
  (r, String c (str_take (pred w) s)) :: runes (str_drop (pred w) s).
Proof.
  unfold runes. simpl. destruct (decode_rune c s) as [r w]. f_equal.
  apply runes_aux_fuel. rewrite length_drop_str. lia.
Qed.

Lemma runes_ascii c s : bz c < 128 → runes (String c s) = (bz c, chr c) :: runes s.
Proof.
  intros H. rewrite runes_cons, decode_rune_ascii by done. by destruct s.
Qed.

Lemma land_low (m base : Z) (z : Z) :
  forallb (λ z, Z.land z m =? z - base) (seqZ base (m + 1)) = true → base ≤ z ≤ base + m → Z.land z m = z - base.
Proof. rewrite forallb_forall. intros Hc Hz. apply Z.eqb_eq, Hc, list_elem_of_In, elem_of_seqZ. lia. Qed.

(** Only an ASCII byte decodes to an ASCII rune. *)
Lemma decode_rune_value c s : 128 ≤ bz c → 128 ≤ (decode_rune c s).1.
Proof.
  intros Hc. assert (∀ d, 0 ≤ low6 d) as Hl by (intros d; unfold low6; apply Z.land_nonneg; lia).
  assert (∀ lo hi d, 128 ≤ lo → hi ≤ 191 → in_range lo hi d = true → low6 d = bz d - 128 ∧ lo ≤ bz d) as Hin.
  { unfold in_range, low6. intros lo hi d Hlo Hhi Hd. split; [|lia]. apply land_low; [by vm_compute|lia]. }
  assert (RuneError >= 128) as Hre by done.
  unfold decode_rune. rewrite (proj2 (Z.ltb_ge _ _)) by done.
  destruct s as [|c1 s]; [done|].
  destruct (in_range 194 223 c && cont c1) eqn:E1.
  { apply andb_prop in E1 as [E1 _]. unfold in_range in E1. cbn [fst].
    rewrite (land_low 31 192 (bz c)) by (first [by vm_compute|lia]). rewrite Z.shiftl_mul_pow2 by lia. specialize (Hl c1). lia. }
  destruct s as [|c2 s]; [done|].
  match goal with |- context [if ?b then (?x, 3%nat) else _] => destruct b eqn:E2 end.
  { apply andb_prop in E2 as [E2 _]. rewrite !orb_true_iff, !andb_true_iff in E2. cbn [fst]. rewrite !Z.shiftl_mul_pow2 by lia.
    pose proof (Hl c1). pose proof (Hl c2). unfold in_range at 2 in E2.
    assert (Z.land (bz c) 15 = bz c - 224) as -> by (apply land_low; [by vm_compute|lia]).
    destruct E2 as [[[Hz E]|[[? ?] E]]|[? E]]; [|lia..]. apply Z.eqb_eq in Hz. apply Hin in E; lia. }
  destruct s as [|c3 s]; [done|].
  match goal with |- context [if ?b then (?x, 4%nat) else _] => destruct b eqn:E3 end; [|done].
  rewrite !andb_true_iff, !orb_true_iff, !andb_true_iff in E3. destruct E3 as [[E3 _] _]. cbn [fst]. rewrite !Z.shiftl_mul_pow2 by lia.
  pose proof (Hl c1). pose proof (Hl c2). pose proof (Hl c3). unfold in_range at 2 in E3.
  assert (Z.land (bz c) 7 = bz c - 240) as -> by (apply land_low; [by vm_compute|lia]).
  destruct E3 as [[[Hz E]|[? E]]|[? E]]; [|lia..]. apply Z.eqb_eq in Hz. apply Hin in E; lia.
Qed.

Lemma runes_ascii_bytes (q : Z → bool) s :
  Forall (λ r, r.1 < 128 ∧ q r.1 = true) (runes s) → all_bytes (λ c, q (bz c)) s = true.
Proof.
  remember (String.length s) as n eqn:En. revert s En. induction n as [|n IH]; intros [|c s] En; try done.
  rewrite runes_cons. destruct (Z.ltb_spec (bz c) 128) as [Hc|Hc].
  - rewrite decode_rune_ascii by done. cbn [pred]. rewrite Forall_cons. intros [[_ Hq] Hs]. cbn [fst all_bytes] in *. rewrite Hq. simpl.
    apply IH; [simpl in En; by injection En|]. by rewrite drop_0_str in Hs.
  - pose proof (decode_rune_value c s Hc) as Hv. destruct (decode_rune c s) as [r w]. rewrite Forall_cons. simpl in *. lia.
Qed.

Lemma unrunes_runes s : unrunes (runes s) = s.
Proof.
  unfold runes. remember (String.length s) as n eqn:E.
  assert (String.length s ≤ n)%nat as Hle by lia. clear E. revert s Hle.
  induction n as [|n IH]; intros [|c s] H; simpl in *; try done; [lia|].
  destruct (decode_rune c s) as [r w]. rewrite unrunes_cons. simpl.
  rewrite IH by (rewrite length_drop_str; lia). by rewrite take_drop_str.
Qed.

Lemma runes_app_ascii s t : all_bytes (λ c, bz c <? 128) s = true → runes (s +:+ t) = runes s ++ runes t.
Proof.
  induction s as [|c s IH]; [done|]. simpl. intros [Hc Hs]%andb_prop. apply Z.ltb_lt in Hc.
  rewrite !runes_ascii by done. by rewrite IH.
Qed.

(** An ASCII byte belongs to no longer rune. *)
Lemma decode_rune_width c s d t :
  bz d < 128 → (pred (decode_rune c (s +:+ String d t)).2 ≤ String.length s)%nat
              ∧ decode_rune c (s +:+ String d t) = decode_rune c s.
Proof.
  intros Hd. assert (cont d = false) as Hc by (unfold cont, in_range; lia).
  assert (in_range 160 191 d = false ∧ in_range 128 159 d = false ∧ in_range 144 191 d = false ∧ in_range 128 143 d = false)
    as (Hr1 & Hr2 & Hr3 & Hr4) by (unfold in_range; lia).
  unfold decode_rune. destruct (bz c <? 128); [simpl; split; [lia|done]|].
  destruct s as [|c1 [|c2 [|c3 s]]]; cbn [String.append];
    repeat first [rewrite Hc | rewrite Hr1 | rewrite Hr2 | rewrite Hr3 | rewrite Hr4 | rewrite andb_false_r | rewrite orb_false_r
                 | rewrite andb_false_l];
    cbn [orb andb]; repeat (case_match; simplify_eq; simpl; try (split; [lia|done])).
Qed.

Lemma str_take_app_le n s t : (n ≤ String.length s)%nat → str_take n (s +:+ t) = str_take n s.
Proof. revert n. induction s as [|c s IH]; intros [|n] H; simpl in *; [by destruct t|lia|done|]. by rewrite IH by lia. Qed.
Lemma str_drop_app_le n s t : (n ≤ String.length s)%nat → str_drop n (s +:+ t) = str_drop n s +:+ t.
Proof. revert n. induction s as [|c s IH]; intros [|n] H; simpl in *; [by destruct t|lia|done|]. by rewrite IH by lia. Qed.

Lemma runes_app_ascii_r s d t : bz d < 128 → runes (s +:+ String d t) = runes s ++ runes (String d t).
Proof.
  intros Hd. remember (String.length s) as n eqn:En. assert (String.length s ≤ n)%nat as Hn by lia. clear En.
  revert s Hn. induction n as [|n IH]; intros [|c s] Hn; try done; [simpl in Hn; lia|].
  rewrite app_cons_str, !runes_cons. destruct (decode_rune_width c s d t Hd) as [Hw E]. rewrite E in *.
  destruct (decode_rune c s) as [r w]. simpl in Hw. rewrite str_take_app_le, str_drop_app_le by done. cbn [app].
  rewrite IH by (rewrite length_drop_str; simpl in Hn; lia). rewrite runes_cons. done.
Qed.

(** ** White space: [unicode.IsSpace], [strings.TrimSpace], [bytes.TrimSpace], [strings.Fields] *)

Definition IsSpaceRune (r : Z) : bool :=
  ((9 <=? r) && (r <=? 13)) || (r =? 32) || (r =? 133) || (r =? 160) || (r =? 5760)
  || ((8192 <=? r) && (r <=? 8202)) || (r =? 8232) || (r =? 8233) || (r =? 8239)
  || (r =? 8287) || (r =? 12288).

Fixpoint drop_while {A} (p : A → bool) (l : list A) : list A :=
  match l with
  | [] => []
  | x :: l' => if p x then drop_while p l' else l
  end.

Definition drop_while_end {A} (p : A → bool) (l : list A) : list A :=
  reverse (drop_while p (reverse l)).

(** Trimming the decoded runes is [TrimSpace]: the bytes of a white-space rune
    start with a byte that never continues another rune, so decoding from the
    left and from the right agree on it. *)
Definition TrimSpace (s : string) : string :=
  unrunes (drop_while_end (IsSpaceRune ∘ fst) (drop_while (IsSpaceRune ∘ fst) (runes s))).

(** [bytes.TrimLeft(s, cutset)], [bytes.TrimRight(s, cutset)] for an ASCII cutset *)
Fixpoint TrimLeftBytes (p : ascii → bool) (s : string) : string :=
  match s with
  | "" => ""
  | String c s' => if p c then TrimLeftBytes p s' else s
  end.

Definition TrimRightBytes (p : ascii → bool) (s : string) : string :=
  of_bytes (drop_while_end p (bytes_of s)).

(** [strings.Fields] *)
Fixpoint fields_aux (cur : string) (rs : list rune) : list string :=
  match rs with
  | [] => if cur =s "" then [] else [cur]
  | (r, b) :: rs' =>
      if IsSpaceRune r
      then (if cur =s "" then [] else [cur]) ++ fields_aux "" rs'
      else fields_aux (cur +:+ b) rs'
  end.

Definition Fields (s : string) : list string := fields_aux "" (runes s).

Example trim_space_ex : TrimSpace " 	 a b
" = "a b".
Proof. reflexivity. Qed.

Lemma TrimSpace_empty : TrimSpace "" = "".
Proof. done. Qed.

Lemma drop_while_length {A} (p : A → bool) l : (length (drop_while p l) ≤ length l)%nat.
Proof. induction l as [|x l IH]; simpl; [done|]. destruct (p x); simpl; lia. Qed.

Lemma drop_while_suffix {A} (p : A → bool) l : ∃ k, l = k ++ drop_while p l ∧ forallb p k = true.
Proof.
  induction l as [|x l (k & E & Hk)]; [by exists []|]. simpl. destruct (p x) eqn:Ex.
  - exists (x :: k). simpl. rewrite Ex, Hk. by rewrite <- E.
  - by exists [].
Qed.

Lemma drop_while_none {A} (p : A → bool) x l : p x = false → drop_while p (x :: l) = x :: l.
Proof. simpl. by intros ->. Qed.

Lemma drop_while_end_app {A} (p : A → bool) l x :
  p x = false → drop_while_end p (l ++ [x]) = l ++ [x].
Proof.
  intros H. unfold drop_while_end. rewrite reverse_app. simpl. rewrite H.
  change (x :: reverse l) with ([x] ++ reverse l). by rewrite reverse_app, reverse_involutive.
Qed.

Lemma drop_while_end_snoc {A} (p : A → bool) l x : p x = true → drop_while_end p (l ++ [x]) = drop_while_end p l.
Proof. intros Hx. unfold drop_while_end. rewrite reverse_app. simpl. by rewrite Hx. Qed.

(** What [TrimSpace] removes is white space at both ends. *)
Lemma TrimSpace_decompose s :
  ∃ k1 k2, s = unrunes k1 +:+ (TrimSpace s +:+ unrunes k2)
         ∧ forallb (IsSpaceRune ∘ fst) k1 = true ∧ forallb (IsSpaceRune ∘ fst) k2 = true.
Proof.
  unfold TrimSpace, drop_while_end. set (p := IsSpaceRune ∘ fst).
  destruct (drop_while_suffix p (runes s)) as (k1 & E1 & H1).
  destruct (drop_while_suffix p (reverse (drop_while p (runes s)))) as (k2 & E2 & H2).
  exists k1, (reverse k2). split_and!; [|done|].
  - rewrite <- unrunes_app, <- (unrunes_runes s) at 1. rewrite E1 at 1.
    rewrite <- unrunes_app. f_equal. f_equal.
    rewrite <- (reverse_involutive (drop_while p (runes s))) at 1.
    rewrite E2 at 1. by rewrite reverse_app.
  - apply forallb_forall. intros r Hr. rewrite forallb_forall in H2. apply H2.
    apply list_elem_of_In, elem_of_reverse, list_elem_of_In. done.
Qed.

Lemma TrimSpace_length s : (String.length (TrimSpace s) ≤ String.length s)%nat.
Proof.
  destruct (TrimSpace_decompose s) as (k1 & k2 & E & _).
  rewrite E at 2. rewrite !length_app_str. lia.
Qed.

(** ** [strings.Split], [strings.SplitN], [strings.Join] *)

(** [SplitN(s, sep, n)] for a non-empty [sep]; [n = None] is [Split] (no limit).
    Each step consumes [sep], so [String.length s] bounds the number of cuts. *)
Fixpoint split_aux (fuel : nat) (s sep : string) (n : option nat) : list string :=
  match fuel, n with
  | O, _ | _, Some 1%nat => [s]
  | S fuel', _ =>
      match Index s sep with
      | None => [s]
      | Some m =>
          str_take m s
          :: split_aux fuel' (str_drop (m + String.length sep) s) sep (pred <$> n)
      end
  end.

Definition Split (s sep : string) : list string := split_aux (S (String.length s)) s sep None.
Definition SplitN (s sep : string) (n : nat) : list string :=
  split_aux (S (String.length s)) s sep (Some n).
Definition Join (l : list string) (sep : string) : string := String.concat sep l.

Lemma Join_cons x y l sep : Join (x :: y :: l) sep = x +:+ (sep +:+ Join (y :: l) sep).
Proof. done. Qed.

Lemma Join_nonempty x l sep : x ≠ "" → Join (x :: l) sep ≠ "".
Proof. intros Hx. destruct x; [done|]. by destruct l. Qed.

Lemma split_aux_nonempty fuel s sep n : split_aux fuel s sep n ≠ [].
Proof. destruct fuel, n as [[|[|]]|]; simpl; try done; by destruct (Index s sep). Qed.

(** Joining the pieces gives the string back, with or without a limit. *)
Lemma Join_split_aux fuel s sep n : Join (split_aux fuel s sep n) sep = s.
Proof.
  revert s n. induction fuel as [|fuel IH]; intros s n; [done|].
  assert (Join (match Index s sep with None => [s] | Some m =>
    str_take m s :: split_aux fuel (str_drop (m + String.length sep) s) sep (pred <$> n) end) sep = s) as H.
  { destruct (Index s sep) as [m|] eqn:E; [|done].
    destruct (split_aux fuel _ sep _) as [|y l] eqn:El; [by apply split_aux_nonempty in El|].
    rewrite Join_cons, <- El, IH. symmetry. by apply Index_Some. }
  destruct n as [[|[|n]]|]; try exact H. done.
Qed.

Lemma Join_Split s sep : Join (Split s sep) sep = s.
Proof. apply Join_split_aux. Qed.

Lemma Join_SplitN s sep n : Join (SplitN s sep n) sep = s.
Proof. apply Join_split_aux. Qed.

Lemma length_split_aux fuel s sep n :
  (0 < n)%nat → (length (split_aux fuel s sep (Some n)) ≤ n)%nat.
Proof.
  revert s n. induction fuel as [|fuel IH]; intros s n Hn; simpl; [lia|].
  destruct n as [|[|n]]; [lia|done|].
  destruct (Index s sep) as [m|]; simpl; [|lia].
  change (pred <$> Some (S (S n))) with (Some (S n)).
  specialize (IH (str_drop (m + String.length sep) s) (S n)). lia.
Qed.

(** One-byte separators: the pieces are exactly the separator-free stretches. *)
Lemma HasPrefix_chr c s : HasPrefix s (chr c) = match s with String d _ => c =b d | "" => false end.
Proof. destruct s as [|d s]; cbn [HasPrefix chr]; [done|]. by rewrite andb_true_r. Qed.

Lemma Index_chr s c : Index s (chr c) = IndexByte s c.
Proof.
  induction s as [|d s IH]; [done|]. cbn [Index IndexByte].
  rewrite HasPrefix_chr, IH. rewrite Ascii.eqb_sym. done.
Qed.

Lemma split_join_chr l c fuel :
  l ≠ [] → Forall (λ x, all_bytes (λ d, d <>b c) x = true) l →
  (length l ≤ fuel)%nat → split_aux fuel (Join l (chr c)) (chr c) None = l.
Proof.
  intros Hne Hall. revert fuel. induction Hall as [|x l Hx Hl IH]; intros fuel Hf; [done|].
  destruct fuel as [|fuel]; [simpl in Hf; lia|]. destruct l as [|y l].
  - simpl. rewrite Index_chr. by rewrite (proj2 (IndexByte_None _ _)).
  - rewrite Join_cons. cbn [split_aux]. rewrite Index_chr. simpl String.append.
    rewrite IndexByte_app by done. rewrite take_app_str.
    rewrite drop_app_chr. f_equal. apply IH; [done|simpl in *; lia].
Qed.

Lemma length_Join_chr l c : (length l ≤ S (String.length (Join l (chr c))))%nat.
Proof.
  induction l as [|x l IH]; [simpl; lia|]. destruct l as [|y l]; [simpl; lia|].
  rewrite Join_cons, !length_app_str. simpl in *. lia.
Qed.

Lemma Split_Join_chr l c :
  l ≠ [] → Forall (λ x, all_bytes (λ d, d <>b c) x = true) l → Split (Join l (chr c)) (chr c) = l.
Proof. intros. apply split_join_chr; [done..|apply length_Join_chr]. Qed.

Lemma split_chr_fuel c n m s :
  (String.length s < n)%nat → (String.length s < m)%nat → split_aux n s (chr c) None = split_aux m s (chr c) None.
Proof.
  revert m s. induction n as [|n IH]; intros [|m] s Hn Hm; [lia..|]. cbn [split_aux]. rewrite Index_chr.
  destruct (IndexByte s c) as [i|] eqn:E; [|done]. f_equal.
  assert (0 < String.length s)%nat by (destruct s; simpl in *; [done|lia]).
  apply IH; rewrite length_drop_str; simpl; lia.
Qed.

(** The pieces, from the first cut on. *)
Lemma Split_chr s c :
  Split s (chr c) = match IndexByte s c with
                    | None => [s]
                    | Some i => str_take i s :: Split (str_drop (i + 1) s) (chr c)
                    end.
Proof.
  unfold Split at 1. cbn [split_aux]. rewrite Index_chr. destruct (IndexByte s c) as [i|] eqn:E; [|done]. f_equal.
  assert (0 < String.length s)%nat by (destruct s; simpl in *; [done|lia]).
  apply split_chr_fuel; rewrite length_drop_str; simpl; lia.
Qed.

(** Text between two ASCII bytes that are no white space is not trimmed. *)
Lemma TrimSpace_framed c s d :
  bz c < 128 → IsSpaceRune (bz c) = false → bz d < 128 → IsSpaceRune (bz d) = false →
  TrimSpace (String c (s +:+ chr d)) = String c (s +:+ chr d).
Proof.
  intros Hc Hsc Hd Hsd. unfold TrimSpace. change (String c (s +:+ chr d)) with (String c s +:+ String d "").
  rewrite runes_app_ascii_r, runes_ascii, (runes_ascii d) by done. change (runes "") with (@nil rune).
  rewrite <- app_comm_cons, drop_while_none, app_comm_cons, drop_while_end_app by done.
  assert ((bz c, chr c) :: runes s = runes (String c s)) as -> by by rewrite runes_ascii.
  assert ([(bz d, chr d)] = runes (chr d)) as -> by (unfold chr; by rewrite runes_ascii).
  by rewrite unrunes_app, !unrunes_runes.
Qed.

(** A text that begins with the byte [o] and ends with another byte [c]. *)
Definition framed (o c : ascii) (s : string) : Prop := ∃ x, s = String o (x +:+ chr c).

Lemma framed_join o c s t : framed o c s → framed o c t → framed o c (s +:+ (chr LF +:+ t)).
Proof.
  intros [x ->] [y ->]. exists (x +:+ chr c +:+ chr LF +:+ chr o +:+ y). rewrite app_cons_str. f_equal.
  rewrite !app_assoc_str. done.
Qed.

Definition visible (c : ascii) : bool := (bz c <? 128) && negb (IsSpaceRune (bz c)).

Lemma TrimSpace_frame o c s : visible o = true → visible c = true → framed o c s → TrimSpace s = s.
Proof.
  unfold visible. intros [Ho Hos%negb_true_iff]%andb_prop [Hc Hcs%negb_true_iff]%andb_prop [x ->].
  apply TrimSpace_framed; [lia|done|lia|done].
Qed.

(** ** Case mapping

    [strings.ToLower]/[ToUpper] on ASCII letters.  Non-ASCII runes are left
    alone: the callers compare the result with ASCII texts only, and the two
    non-ASCII runes whose lower case is ASCII (U+0130, U+212A) are mapped. *)
Definition lower_byte (c : ascii) : ascii :=
  if (65 <=? bz c) && (bz c <=? 90) then zb (bz c + 32) else c.

Definition lower_rune (r : rune) : string :=
  if r.1 =? 304 then "i" else if r.1 =? 8490 then "k"
  else match r.2 with String c "" => chr (lower_byte c) | b => b end.

Definition ToLower (s : string) : string := String.concat "" (lower_rune <$> runes s).

(** ** [encoding/hex] *)

Definition hex_val (c : ascii) : option Z :=
  let z := bz c in
  if (48 <=? z) && (z <=? 57) then Some (z - 48)
  else if (97 <=? z) && (z <=? 102) then Some (z - 87)
  else if (65 <=? z) && (z <=? 70) then Some (z - 55)
  else None.

Definition hex_digit (z : Z) : ascii := zb (if z <? 10 then 48 + z else 87 + z).

Fixpoint hex_EncodeToString (s : string) : string :=
  match s with
  | "" => ""
  | String c s' => String (hex_digit (bz c / 16)) (String (hex_digit (bz c mod 16)) (hex_EncodeToString s'))
  end.

(** [hex.DecodeString]; [None] for an odd length or a non-hex digit *)
Fixpoint hex_DecodeString (s : string) : option string :=
  match s with
  | "" => Some ""
  | String a (String b s') =>
      x ← hex_val a; y ← hex_val b; rest ← hex_DecodeString s';
      Some (String (zb (16 * x + y)) rest)
  | String _ "" => None
  end.

Lemma hex_val_digit z : 0 ≤ z < 16 → hex_val (hex_digit z) = Some z.
Proof.
  intros H. apply (bool_decide_unpack (hex_val (hex_digit z) = Some z)), Is_true_true.
  revert z H. by apply check_range; vm_compute.
Qed.

Lemma hex_decode_encode s : hex_DecodeString (hex_EncodeToString s) = Some s.
Proof.
  induction s as [|c s IH]; [done|]. cbn [hex_EncodeToString hex_DecodeString].
  pose proof (bz_range c).
  assert (0 ≤ bz c / 16 < 16) by (split; [apply Z.div_pos|apply Z.div_lt_upper_bound]; lia).
  rewrite !hex_val_digit by (first [done | apply Z.mod_pos_bound; lia]).
  rewrite IH. cbn -[Z.mul Z.add Z.div Z.modulo zb bz].
  replace (16 * (bz c / 16) + bz c mod 16) with (bz c) by (apply Z.div_mod; lia).
  by rewrite zb_bz.
Qed.

Lemma length_hex_encode s : String.length (hex_EncodeToString s) = (2 * String.length s)%nat.
Proof. induction s as [|c s IH]; simpl; [done|]. lia. Qed.

(** ** Scanning loops

    [for i < len(s) { ... }] over the text that is left: [round] is one pass of
    the body; a body that consumes at least one byte terminates, and the length
    of the text bounds the number of passes. *)
Section scan.
Context {A : Type} (round : string → A → res (string * A)).

Fixpoint scan_loop (fuel : nat) (s : string) (a : A) : res A :=
  match s, fuel with
  | "", _ | _, O => Ok a
  | _, S fuel' => '(s', a') ← round s a; scan_loop fuel' s' a'
  end.

Definition scan (s : string) (a : A) : res A := scan_loop (String.length s) s a.

Class Consuming := consuming s a s' a' :
  s ≠ "" → round s a = Ok (s', a') → (String.length s' < String.length s)%nat.

Context `{!Consuming}.

Lemma scan_loop_fuel n s a : (String.length s ≤ n)%nat → scan_loop n s a = scan s a.
Proof.
  unfold scan. revert s a. induction n as [n IH] using lt_wf_ind. intros s a Hn.
  destruct s as [|c s]; [by destruct n|]. destruct n as [|n]; [simpl in Hn; lia|].
  cbn [scan_loop String.length].
  destruct (round (String c s) a) as [[s' a']| |] eqn:E; simpl; [|done..].
  apply consuming in E; [|done]. simpl in *.
  rewrite (IH n), (IH (String.length s)) by lia. done.
Qed.

(** The loop equation. *)
Lemma scan_unfold s a :
  scan s a = match s with "" => Ok a | _ => '(s', a') ← round s a; scan s' a' end.
Proof.
  destruct s as [|c s]; [done|]. unfold scan at 1. cbn [scan_loop String.length].
  destruct (round (String c s) a) as [[s' a']| |] eqn:E; simpl; [|done..].
  apply consuming in E; [|done]. apply scan_loop_fuel. simpl in E. lia.
Qed.

(** Rule of the loop: an invariant of the passes holds at the end. *)
Lemma scan_inv (P : string → A → Prop) s a r :
  (∀ s a s' a', s ≠ "" → P s a → round s a = Ok (s', a') → P s' a') →
  P s a → scan s a = Ok r → P "" r.
Proof.
  intros Hstep. remember (String.length s) as n eqn:En. assert (String.length s ≤ n)%nat as Hn by lia.
  clear En. revert s a Hn. induction n as [|n IH]; intros s a Hn HP; rewrite scan_unfold;
    (destruct s as [|c s]; [by intros [= <-]|]); [simpl in Hn; lia|].
  intros ([s' a'] & E & Hr)%res_bind_ok. pose proof (consuming (String c s) a s' a' ltac:(done) E) as Hlt.
  apply (IH s' a'); [simpl in *; lia| |done].
  by apply (Hstep (String c s) a).
Qed.

Lemma scan_no_panic s a :
  (∀ s a, no_panic (round s a)) → no_panic (scan s a).
Proof.
  intros Hr. unfold scan. generalize (String.length s). intros n. revert s a.
  induction n as [|n IH]; intros [|c s] a; try done. cbn [scan_loop].
  apply res_bind_no_panic; [done|]. intros [s' a'] _. apply IH.
Qed.
End scan.

(** ** Deciding a property of every byte *)

Lemma check_byte (P : ascii → bool) : forallb (λ z, P (zb z)) (seqZ 0 256) = true → ∀ c, P c = true.
Proof.
  intros H c. rewrite forallb_forall in H. rewrite <- (zb_bz c). apply H, list_elem_of_In, elem_of_seqZ, bz_range.
Qed.

(** The searches are kept folded: their lemmas are the way to reason about them. *)
#[global] Arguments HasPrefix : simpl never.
#[global] Arguments Index : simpl never.
