(* ===== verification/GoNum.v ===== *)
(** * Go's machine integers, [strconv], and [float64]

    [int] and [int64] are integers in [-2^63, 2^63); a [float64] is an IEEE
    binary64 value, Rocq's [spec_float] at precision 53 and [emax] 1024. *)

From S2P Require Import Prelude GoStrings.
From Stdlib Require Export SpecFloat.

(** ** Integers *)

Definition MinInt64 : Z := - 2 ^ 63.
Definition MaxInt64 : Z := 2 ^ 63 - 1.
Definition in_int64 (z : Z) : bool := (MinInt64 <=? z) && (z <=? MaxInt64).

(** [%d], [strconv.Itoa] *)
Definition Itoa (z : Z) : string := pretty z.

Fixpoint digits_val (acc : Z) (s : string) : option Z :=
  match s with
  | "" => Some acc
  | String c s' => if is_digit c then digits_val (10 * acc + (bz c - 48)) s' else None
  end.

(** A non-empty run of decimal digits. *)
Definition parse_digits (s : string) : option Z :=
  match s with "" => None | _ => digits_val 0 s end.

(** [strconv.Atoi] and [strconv.ParseInt(s, 10, 64)]: [None] is any error
    (syntax or range); a sign is accepted, underscores are not. *)
Definition Atoi (s : string) : option Z :=
  match s with
  | String c s' =>
      z ← (if c =b "-"%char then Z.opp <$> parse_digits s'
           else if c =b "+"%char then parse_digits s'
           else parse_digits s);
      if in_int64 z then Some z else None
  | "" => None
  end.

(** [strconv.ParseUint(s, 16, 8)] *)
Fixpoint hex_digits_val (acc : Z) (s : string) : option Z :=
  match s with
  | "" => Some acc
  | String c s' => d ← hex_val c; hex_digits_val (16 * acc + d) s'
  end.

Definition ParseUint_16_8 (s : string) : option Z :=
  match s with
  | "" => None
  | _ => z ← hex_digits_val 0 s; if z <=? 255 then Some z else None
  end.

(** [strconv.ParseBool] *)
Definition ParseBool (s : string) : option bool :=
  if existsb (String.eqb s) ["1"; "t"; "T"; "true"; "TRUE"; "True"] then Some true
  else if existsb (String.eqb s) ["0"; "f"; "F"; "false"; "FALSE"; "False"] then Some false
  else None.

(** ** [strconv.Atoi] inverts [strconv.Itoa] *)

Lemma digits_val_pretty_go x s :
  digits_val 0 (pretty_N_go x s) = digits_val (Z.of_N x) s.
Proof.
  revert s. induction (N.lt_wf_0 x) as [x _ IH]. intros s.
  destruct (decide (0 < x)%N) as [Hx|Hx].
  - rewrite pretty_N_go_step by done. rewrite IH by (apply N.div_lt; lia).
    cbn [digits_val].
    assert (x mod 10 < 10)%N as Hm by (apply N.mod_lt; lia).
    assert (is_digit (pretty_N_char (x mod 10)) = true
            ∧ bz (pretty_N_char (x mod 10)) = 48 + Z.of_N (x mod 10)) as [-> ->].
    { generalize dependent (x mod 10)%N. intros m Hm. clear -Hm.
      assert (m = 0 ∨ m = 1 ∨ m = 2 ∨ m = 3 ∨ m = 4 ∨ m = 5 ∨ m = 6 ∨ m = 7 ∨ m = 8 ∨ m = 9)%N as H by lia.
      by repeat destruct H as [->|H]; subst; vm_compute. }
    f_equal. rewrite N2Z.inj_div, N2Z.inj_mod.
    pose proof (Z.div_mod (Z.of_N x) 10). simpl Z.of_N. lia.
  - assert (x = 0%N) as -> by lia. by rewrite pretty_N_go_0.
Qed.

Lemma digits_val_pretty (n : N) : digits_val 0 (pretty n) = Some (Z.of_N n).
Proof.
  unfold pretty, pretty_N. case_decide as H; [by subst|]. by rewrite digits_val_pretty_go.
Qed.

Lemma pretty_N_nonempty (n : N) : pretty n ≠ "".
Proof.
  intros H. pose proof (digits_val_pretty n) as E. rewrite H in E. simpl in E.
  injection E as E. assert (n = 0%N) as -> by lia. done.
Qed.

Lemma parse_digits_pretty (n : N) : parse_digits (pretty n) = Some (Z.of_N n).
Proof.
  unfold parse_digits. destruct (pretty n) eqn:E; [by apply pretty_N_nonempty in E|].
  rewrite <- E. apply digits_val_pretty.
Qed.

Lemma digits_val_all acc s z : digits_val acc s = Some z → all_bytes is_digit s = true.
Proof.
  revert acc. induction s as [|c s IH]; intros acc; simpl; [done|].
  destruct (is_digit c); [simpl; apply IH|done].
Qed.

Lemma digits_val_mono acc s z : 0 ≤ acc → digits_val acc s = Some z → acc ≤ z.
Proof.
  revert acc. induction s as [|c s IH]; intros acc Ha; simpl; [intros [= ->]; lia|].
  destruct (is_digit c) eqn:E; [|done]. unfold is_digit in E. intros H.
  assert (48 ≤ bz c) by lia. apply IH in H; lia.
Qed.

(** Decimal text: the leading digit, and the number of digits. *)
Lemma pretty_N_char_digit m : (m < 10)%N → bz (pretty_N_char m) = 48 + Z.of_N m.
Proof.
  intros Hm. assert (m = 0 ∨ m = 1 ∨ m = 2 ∨ m = 3 ∨ m = 4 ∨ m = 5 ∨ m = 6 ∨ m = 7 ∨ m = 8 ∨ m = 9)%N as Hd by lia.
  by repeat destruct Hd as [->|Hd]; subst; vm_compute.
Qed.

Lemma pretty_go_lead x s : (0 < x)%N → ∃ c t, pretty_N_go x s = String c t ∧ 49 ≤ bz c ≤ 57.
Proof.
  revert s. induction (N.lt_wf_0 x) as [x _ IH]. intros s Hx. rewrite pretty_N_go_step by done.
  destruct (N.eq_0_gt_0_cases (x / 10)) as [E|Hq]; [|apply IH; [by apply N.div_lt|done]].
  rewrite E, pretty_N_go_0. apply N.div_small_iff in E; [|done].
  eexists _, _. split; [done|]. rewrite N.mod_small, pretty_N_char_digit by done. lia.
Qed.

Lemma pretty_go_length k x s :
  (x < 10 ^ N.of_nat k)%N → (String.length (pretty_N_go x s) ≤ k + String.length s)%nat.
Proof.
  revert x s. induction k as [|k IH]; intros x s Hx.
  - change (10 ^ N.of_nat 0)%N with 1%N in Hx. assert (x = 0)%N as -> by lia. by rewrite pretty_N_go_0.
  - destruct (decide (0 < x)%N) as [Hp|Hp]; [|assert (x = 0)%N as -> by lia; rewrite pretty_N_go_0; lia].
    rewrite pretty_N_go_step by done. etransitivity; [apply IH|simpl; lia].
    rewrite Nat2N.inj_succ, N.pow_succ_r' in Hx. apply N.Div0.div_lt_upper_bound; lia.
Qed.

Lemma parse_digits_nonneg s z : parse_digits s = Some z → 0 ≤ z.
Proof. unfold parse_digits. destruct s; [done|]. apply digits_val_mono. lia. Qed.

Lemma Itoa_nonneg z : 0 ≤ z → Itoa z = pretty (Z.to_N z).
Proof. intros H. destruct z; [done..|lia]. Qed.

Lemma Itoa_lead z : 0 < z → ∃ c t, Itoa z = String c t ∧ 49 ≤ bz c ≤ 57.
Proof.
  intros Hz. rewrite Itoa_nonneg by lia. unfold pretty, pretty_N. rewrite decide_False by lia. apply pretty_go_lead. lia.
Qed.
Lemma Itoa_length k z : 0 < z < 10 ^ Z.of_nat k → (String.length (Itoa z) ≤ k)%nat.
Proof.
  intros [Hz Hk]. rewrite Itoa_nonneg by lia. unfold pretty, pretty_N. rewrite decide_False by lia.
  etransitivity; [apply (pretty_go_length k)|simpl; lia]. zify. lia.
Qed.

(** Decimal text of a natural starts with a digit. *)
Lemma Itoa_digits z : 0 ≤ z → all_bytes is_digit (Itoa z) = true.
Proof.
  intros H. rewrite Itoa_nonneg by done. eapply digits_val_all. apply digits_val_pretty.
Qed.

Lemma Atoi_digits c s :
  is_digit c = true →
  Atoi (String c s) =
    z ← parse_digits (String c s); if in_int64 z then Some z else None.
Proof.
  intros H. unfold Atoi.
  destruct (Ascii.eqb_spec c "-") as [->|_]; [done|].
  destruct (Ascii.eqb_spec c "+") as [->|_]; [done|]. done.
Qed.

Lemma Atoi_Itoa z : in_int64 z = true → Atoi (Itoa z) = Some z.
Proof.
  intros H. destruct (decide (0 ≤ z)) as [Hz|Hz].
  - pose proof (Itoa_digits z Hz) as Hd. rewrite Itoa_nonneg in * by done.
    pose proof (parse_digits_pretty (Z.to_N z)) as Hp.
    destruct (pretty (Z.to_N z)) as [|c s]; [done|].
    simpl in Hd. apply andb_prop in Hd as [Hc _]. rewrite Atoi_digits by done.
    rewrite Hp. simpl. rewrite Z2N.id by done. by rewrite H.
  - destruct z as [|p|p]; [lia..|]. change (Itoa (Zneg p)) with ("-" +:+ pretty (Npos p)).
    cbn -[in_int64 pretty]. rewrite parse_digits_pretty.
    cbn -[in_int64]. change (- Z.pos p) with (Z.neg p). by rewrite H.
Qed.

Lemma Atoi_range s z : Atoi s = Some z → MinInt64 ≤ z ≤ MaxInt64.
Proof.
  unfold Atoi. destruct s as [|c s]; [done|]. intros (y & _ & H)%bind_Some.
  destruct (in_int64 y) eqn:E; [|done]. injection H as <-. unfold in_int64 in E. lia.
Qed.

(** ** [float64] *)

Definition f64 := spec_float.
Definition prec : Z := 53.
Definition emax : Z := 1024.

(** The nearest float to [m * 2^e]; [float64(z)] is [f64_of_Z z]. *)
Definition f64_norm (m e : Z) : f64 := binary_normalize prec emax m e false.
Definition f64_of_Z (z : Z) : f64 := f64_norm z 0.
Definition f64_mul : f64 → f64 → f64 := SFmul prec emax.
Definition f64_div : f64 → f64 → f64 := SFdiv prec emax.
Definition f64_leb : f64 → f64 → bool := SFleb.
Definition f64_ltb : f64 → f64 → bool := SFltb.

(** The integer part of a finite float, rounding towards zero. *)
Definition f64_trunc (f : f64) : option Z :=
  match f with
  | S754_zero _ => Some 0
  | S754_finite s m e =>
      let a := if 0 <=? e then Z.pos m * 2 ^ e else Z.pos m / 2 ^ (- e) in
      Some (if s then - a else a)
  | _ => None
  end.

(** What the language leaves to the implementation: [int64(f)] when the integer
    part of [f] is not an [int64]. *)
Class GoPlatform := {
  int64_overflow : f64 → Z;
  int64_overflow_range f : in_int64 (int64_overflow f) = true;
}.

Definition int64_of_f64 `{GoPlatform} (f : f64) : Z :=
  match f64_trunc f with
  | Some z => if in_int64 z then z else int64_overflow f
  | None => int64_overflow f
  end.

(** amd64: every unrepresentable conversion gives the least [int64]. *)
Definition amd64 : GoPlatform.
Proof. refine {| int64_overflow _ := MinInt64 |}. done. Defined.

Lemma int64_of_f64_range `{GoPlatform} f : in_int64 (int64_of_f64 f) = true.
Proof.
  unfold int64_of_f64. destruct (f64_trunc f) as [z|]; [destruct (in_int64 z) eqn:E; [done|]|];
    apply int64_overflow_range.
Qed.

(** *** [strconv.ParseFloat(s, 64)] *)

(** The float nearest to the rational [m / d], [m] and [d] positive. *)
Definition f64_ratio (s : bool) (m d : positive) : f64 :=
  let '(q, e, l) := SFdiv_core_binary prec emax (Zpos m) 0 (Zpos d) 0 in
  binary_round_aux prec emax s q e l.

Definition f64_signed (s : bool) (f : f64) : f64 := if s then SFopp f else f.

(** [m * 10^e] and [m * 2^e], correctly rounded *)
Definition f64_decimal (m e : Z) : f64 :=
  match m with
  | Zpos p =>
      if 0 <=? e then f64_norm (m * 10 ^ e) 0
      else match 10 ^ (- e) with Zpos d => f64_ratio false p d | _ => S754_nan end
  | _ => S754_zero false
  end.

(** Digits of a mantissa in [base], with at most one point: the value without the
    point, the number of digits after the point, whether a digit was read, and
    the rest of the text.  Underscores are skipped here and checked at the end. *)
Fixpoint read_mantissa (base : Z) (dot seen : bool) (m frac : Z) (s : string)
    : Z * Z * bool * string :=
  match s with
  | "" => (m, frac, seen, "")
  | String c s' =>
      if c =b "_"%char then read_mantissa base dot seen m frac s'
      else if (c =b "."%char) && negb dot then read_mantissa base true seen m frac s'
      else match hex_val c with
           | Some d =>
               if d <? base
               then read_mantissa base dot true (base * m + d) (if dot then frac + 1 else frac) s'
               else (m, frac, seen, s)
           | None => (m, frac, seen, s)
           end
  end.

(** Exponent digits; the accumulator stops growing at 10000, as in the library. *)
Fixpoint read_exp (e : Z) (s : string) : option Z :=
  match s with
  | "" => Some e
  | String c s' =>
      if c =b "_"%char then read_exp e s'
      else if is_digit c
           then read_exp (if e <? 10000 then 10 * e + (bz c - 48) else e) s'
           else None
  end.

Definition read_exp1 (s : string) : option Z :=
  match s with
  | String c _ => if is_digit c then read_exp 0 s else None
  | "" => None
  end.

(** What follows the mantissa: nothing (exponent 0, unless one is mandatory), or
    the exponent letter, an optional sign and digits to the end of the text. *)
Definition read_exponent (letter : ascii) (mandatory : bool) (s : string) : option Z :=
  match s with
  | "" => if mandatory then None else Some 0
  | String c s' =>
      if lower_byte c =b letter then
        match s' with
        | String d t =>
            if d =b "-"%char then Z.opp <$> read_exp1 t
            else if d =b "+"%char then read_exp1 t
            else read_exp1 s'
        | "" => None
        end
      else None
  end.

(** [underscoreOK]: an underscore must separate digits, or a base prefix and a
    digit; [prev] is the kind of the previous character. *)
Inductive uprev := UStart | UDigit | UUnder | UOther.

Fixpoint underscore_ok (hex : bool) (prev : uprev) (s : string) : bool :=
  match s with
  | "" => match prev with UUnder => false | _ => true end
  | String c s' =>
      if is_digit c || (hex && match hex_val c with Some _ => true | None => false end)
      then underscore_ok hex UDigit s'
      else if c =b "_"%char
      then match prev with UDigit => underscore_ok hex UUnder s' | _ => false end
      else match prev with UUnder => false | _ => underscore_ok hex UOther s' end
  end.

Definition parse_unsigned_float (s : string) : option f64 :=
  let hex := (2 <? slen s) && (HasPrefix s "0x" || HasPrefix s "0X") in
  let t := if hex then str_drop 2 s else s in
  let base := if hex then 16 else 10 in
  let '(m, frac, seen, rest) := read_mantissa base false false 0 0 t in
  if negb seen then None else
  e ← read_exponent (if hex then "p"%char else "e"%char) hex rest;
  if negb (underscore_ok hex (if hex then UDigit else UStart) t) then None else
  match (if hex then f64_norm m (e - 4 * frac) else f64_decimal m (e - frac)) with
  | S754_infinity _ => None
  | f => Some f
  end.

Definition ParseFloat (s : string) : option f64 :=
  let lower := ToLower s in
  if existsb (String.eqb lower) ["inf"; "+inf"; "infinity"; "+infinity"] then Some (S754_infinity false)
  else if existsb (String.eqb lower) ["-inf"; "-infinity"] then Some (S754_infinity true)
  else if lower =s "nan" then Some S754_nan
  else match s with
       | String c s' =>
           if c =b "-"%char then f64_signed true <$> parse_unsigned_float s'
           else if c =b "+"%char then parse_unsigned_float s'
           else parse_unsigned_float s
       | "" => None
       end.

Example parse_float_ex :
  ParseFloat "1790.25e2" = Some (f64_of_Z 179025)
  ∧ ParseFloat "-0x1p4" = Some (f64_of_Z (-16))
  ∧ ParseFloat "0.1" = Some (f64_ratio false 1 10)
  ∧ ParseFloat "1e400" = None ∧ ParseFloat "1_0" = Some (f64_of_Z 10) ∧ ParseFloat "1_" = None ∧ ParseFloat "." = None.
Proof. by vm_compute. Qed.
