(* ===== verification/GoNet.v ===== *)
(** * Go's [net.ParseIP] and [net.IP.String]

    An address is its eight 16-bit groups; an IPv4 address is the mapped form
    [::ffff:a.b.c.d], as in the 16-byte slices of package [net]. *)

From S2P Require Import Prelude GoStrings GoNum.

Definition IP := list Z.

(** ** Parsing *)

(** One octet: digits without a superfluous leading zero, at most 255. *)
Definition parse_octet (s : string) : option Z :=
  match s with
  | "" => None
  | String c t =>
      if (c =b "0"%char) && (t <>s "") then None
      else z ← parse_digits s; if z <=? 255 then Some z else None
  end.

Definition parseIPv4Fields (s : string) : option (Z * Z * Z * Z) :=
  match Split s "." with
  | [s0; s1; s2; s3] =>
      a ← parse_octet s0; b ← parse_octet s1; c ← parse_octet s2; d ← parse_octet s3;
      Some (a, b, c, d)
  | _ => None
  end.

(** The leading hexadecimal digits of a text: their value, their number, the rest.
    A group of more than four digits is refused by the caller. *)
Fixpoint read_hex (acc : Z) (n : nat) (s : string) : Z * nat * string :=
  match s with
  | String c s' =>
      match hex_val c with
      | Some d => read_hex (16 * acc + d) (S n) s'
      | None => (acc, n, s)
      end
  | "" => (acc, n, "")
  end.

(** The loop of [parseIPv6]: [ip] holds the groups read so far, [ellipsis] the index
    of the double colon. *)
Fixpoint v6_loop (fuel : nat) (ip : list Z) (ellipsis : option nat) (s : string)
    : option (list Z * option nat * string) :=
  match fuel with
  | O => Some (ip, ellipsis, s)
  | S fuel' =>
      let '(acc, off, rest) := read_hex 0 0 s in
      if (off =? 0)%nat || (4 <? off)%nat then None
      else match rest with
      | "" => Some (ip ++ [acc], ellipsis, "")
      | String c rest' =>
          if c =b "."%char then
            if (match ellipsis with None => negb (length ip =? 6)%nat | _ => false end)
               || (6 <? length ip)%nat then None
            else '(a, b, c, d) ← parseIPv4Fields s;
                 Some (ip ++ [256 * a + b; 256 * c + d], ellipsis, "")
          else if c <>b ":"%char then None
          else match rest' with
          | "" => None
          | String c' rest'' =>
              if c' =b ":"%char then
                match ellipsis with
                | Some _ => None
                | None =>
                    let e := Some (S (length ip)) in
                    if rest'' =s "" then Some (ip ++ [acc], e, "")
                    else v6_loop fuel' (ip ++ [acc]) e rest''
                end
              else v6_loop fuel' (ip ++ [acc]) ellipsis rest'
          end
      end
  end.

Definition parseIPv6 (s : string) : option IP :=
  let lead := HasPrefix s "::" in
  let s' := if lead then str_drop 2 s else s in
  if lead && (s' =s "") then Some (replicate 8 0)
  else
    '(ip, ellipsis, rest) ← v6_loop 8 [] (if lead then Some 0%nat else None) s';
    if rest <>s "" then None
    else match ellipsis with
         | None => if (length ip =? 8)%nat then Some ip else None
         | Some e =>
             if (length ip <? 8)%nat
             then Some (take e ip ++ replicate (8 - length ip) 0 ++ drop e ip)
             else None
         end.

(** [netip.ParseAddr] decides by the first of the bytes [.], [:] and [%]; an address
    with a zone is not an [IP]. *)
Fixpoint ParseIP_at (whole s : string) : option IP :=
  match s with
  | "" => None
  | String c s' =>
      if c =b "."%char then
        '(a, b, c, d) ← parseIPv4Fields whole;
        Some [0; 0; 0; 0; 0; 65535; 256 * a + b; 256 * c + d]
      else if c =b ":"%char then
        if Contains whole "%" then None else parseIPv6 whole
      else if c =b "%"%char then None
      else ParseIP_at whole s'
  end.

Definition ParseIP (s : string) : option IP := ParseIP_at s s.

(** ** Printing *)

Fixpoint to_hex_aux (fuel : nat) (z : Z) (acc : string) : string :=
  match fuel with
  | O => acc
  | S fuel' =>
      let acc' := String (hex_digit (z mod 16)) acc in
      if z / 16 =? 0 then acc' else to_hex_aux fuel' (z / 16) acc'
  end.
(** A 16-bit group without leading zeros. *)
Definition to_hex (z : Z) : string := to_hex_aux 4 z "".

Fixpoint zero_run (l : list Z) : nat :=
  match l with z :: l' => if z =? 0 then S (zero_run l') else O | [] => O end.

(** The first longest run of at least two zero groups: [(255, 255)] when there is none. *)
Fixpoint longest_zeros (i : nat) (l : list Z) (best : nat * nat) : nat * nat :=
  match l with
  | [] => best
  | _ :: l' =>
      let n := zero_run l in
      longest_zeros (S i) l'
        (if (2 <=? n)%nat && (best.2 - best.1 <? n)%nat then (i, (i + n)%nat) else best)
  end.

Definition hex_groups (l : list Z) : string := Join (map to_hex l) ":".

Definition v6_String (ip : IP) : string :=
  let '(zs, ze) := longest_zeros 0 ip (255%nat, 255%nat) in
  if (zs =? 255)%nat then hex_groups ip
  else hex_groups (take zs ip) +:+ "::" +:+ hex_groups (drop ze ip).

Definition v4_String (x y : Z) : string :=
  Join [Itoa (x / 256); Itoa (x mod 256); Itoa (y / 256); Itoa (y mod 256)] ".".

Definition IP_String (ip : IP) : string :=
  match ip with
  | [0; 0; 0; 0; 0; 65535; x; y] => v4_String x y
  | _ => v6_String ip
  end.

Example parse_ip_ex :
  (IP_String <$> ParseIP "192.168.1.20") = Some "192.168.1.20"
  ∧ ParseIP "192.168.01.20" = None ∧ ParseIP "1.2.3" = None ∧ ParseIP "1.2.3.256" = None
  ∧ (IP_String <$> ParseIP "2001:DB8:0:0:1:0:0:1") = Some "2001:db8::1:0:0:1"
  ∧ (IP_String <$> ParseIP "::") = Some "::" ∧ (IP_String <$> ParseIP "1::") = Some "1::"
  ∧ (IP_String <$> ParseIP "::ffff:10.0.0.1") = Some "10.0.0.1"
  ∧ (IP_String <$> ParseIP "64:ff9b::10.0.0.1") = Some "64:ff9b::a00:1"
  ∧ ParseIP "fe80::1%eth0" = None ∧ ParseIP "1::2::3" = None ∧ ParseIP "1:2:3:4:5:6:7" = None
  ∧ ParseIP "1:2:3:4:5:6:7:8:9" = None ∧ ParseIP "1:2:3:4:5:6:7:" = None ∧ ParseIP "" = None
  ∧ ParseIP "1:2:3:4:5:6:7::" = Some [1;2;3;4;5;6;7;0] ∧ ParseIP "1:2:3:4:5:6:7:8::" = None.
Proof. by vm_compute. Qed.
