(* ===== verification/GoRegexp.v ===== *)
(** * The fragment of Go's [regexp] the program's fixed patterns use

    Leftmost-first (Perl-like) matching over the runes of a string, with
    captures, by a backtracking matcher in continuation-passing style: the
    semantics the package documents for its syntax.  Patterns given by users in
    parser packs are not interpreted here: they are a parameter of [Pack]. *)

From S2P Require Import Prelude GoStrings.

Inductive re :=
| RChr (p : Z → bool)
| RSeq (r1 r2 : re)
| RAlt (r1 r2 : re)
| RStar (r : re)                  (* greedy; the body consumes at least one rune *)
| RGroup (n : nat) (r : re)
| REps
| RBol                            (* ^ : beginning of text *)
| REol                            (* $ : end of text *)
| RWordB.                         (* \b : ASCII word boundary *)

Definition RPlus (r : re) : re := RSeq r (RStar r).
Definition ROpt (r : re) : re := RAlt r REps.
Fixpoint RRep (n : nat) (r : re) : re :=
  match n with O => REps | S n' => RSeq r (RRep n' r) end.
Fixpoint RSeqs (l : list re) : re :=
  match l with [] => REps | [r] => r | r :: l' => RSeq r (RSeqs l') end.
Definition RLit (c : ascii) : re := RChr (Z.eqb (bz c)).
Fixpoint RLits (s : string) : re :=
  match s with "" => REps | String c s' => RSeq (RLit c) (RLits s') end.

(** Character classes *)
Definition cls_range (lo hi : ascii) (r : Z) : bool := (bz lo <=? r) && (r <=? bz hi).
Definition cls_digit : Z → bool := cls_range "0" "9".
Definition cls_space (r : Z) : bool :=           (* \s = [\t\n\f\r ] *)
  (r =? 9) || (r =? 10) || (r =? 12) || (r =? 13) || (r =? 32).
Definition cls_not (p : Z → bool) (r : Z) : bool := negb (p r).
Definition cls_any_but_nl : Z → bool := cls_not (Z.eqb 10).     (* . *)
Definition cls_alnum (r : Z) : bool :=
  cls_range "a" "z" r || cls_range "A" "Z" r || cls_digit r.
Definition cls_word (r : Z) : bool := cls_alnum r || (r =? bz "_").
Definition cls_lit (c : ascii) : Z → bool := Z.eqb (bz c).

(** A position: the rune before it, its byte offset and the runes after it. *)
Record pos := Pos { p_prev : option Z; p_off : nat; p_rest : list rune }.

(** Captured groups, the latest assignment first. *)
Definition caps := list (nat * (nat * nat)).

Definition word_at (o : option Z) : bool := match o with Some r => cls_word r | None => false end.
Definition next_rune (p : pos) : option Z := fst <$> head (p_rest p).

Fixpoint re_match (r : re) (k : pos → caps → option (pos * caps)) (p : pos) (c : caps) {struct r}
    : option (pos * caps) :=
  match r with
  | RChr cls =>
      match p_rest p with
      | (x, b) :: rest =>
          if cls x then k (Pos (Some x) (p_off p + String.length b) rest) c else None
      | [] => None
      end
  | RSeq r1 r2 => re_match r1 (re_match r2 k) p c
  | RAlt r1 r2 =>
      match re_match r1 k p c with
      | Some x => Some x
      | None => re_match r2 k p c
      end
  | RStar r1 =>
      (fix loop (fuel : nat) (p : pos) (c : caps) : option (pos * caps) :=
         match fuel with
         | O => k p c
         | S fuel' =>
             match re_match r1 (λ p' c', if (length (p_rest p') <? length (p_rest p))%nat
                                         then loop fuel' p' c' else None) p c with
             | Some x => Some x
             | None => k p c
             end
         end) (length (p_rest p)) p c
  | RGroup n r1 =>
      re_match r1 (λ p' c', k p' ((n, (p_off p, p_off p')) :: c)) p c
  | REps => k p c
  | RBol => match p_prev p with None => k p c | Some _ => None end
  | REol => match p_rest p with [] => k p c | _ => None end
  | RWordB => if xorb (word_at (p_prev p)) (word_at (next_rune p)) then k p c else None
  end.

Definition start_pos (s : string) : pos := Pos None 0 (runes s).

Definition step_pos (p : pos) : option pos :=
  match p_rest p with
  | (x, b) :: rest => Some (Pos (Some x) (p_off p + String.length b) rest)
  | [] => None
  end.

(** The leftmost match from [p] on: its start offset, end position and groups. *)
Fixpoint find_from (fuel : nat) (r : re) (p : pos) : option (nat * pos * caps) :=
  match re_match r (λ p' c', Some (p', c')) p [] with
  | Some (p', c) => Some (p_off p, p', c)
  | None =>
      match fuel, step_pos p with
      | S fuel', Some p' => find_from fuel' r p'
      | _, _ => None
      end
  end.

Definition MatchString (r : re) (s : string) : bool :=
  match find_from (String.length s) r (start_pos s) with Some _ => true | None => false end.

Definition group_range (c : caps) (n : nat) : option (nat * nat) :=
  snd <$> List.find (λ e, (e.1 =? n)%nat) c.

Definition substr (s : string) (i j : nat) : string := str_take (j - i) (str_drop i s).

(** [FindStringSubmatch]: group 0, then groups [1..ngroups]; "" when unset. *)
Definition FindStringSubmatch (ngroups : nat) (r : re) (s : string) : option (list string) :=
  '(b, p, c) ← find_from (String.length s) r (start_pos s);
  Some (substr s b (p_off p)
        :: map (λ n, match group_range c n with Some (i, j) => substr s i j | None => "" end)
               (seq 1 ngroups)).

(** One element of [FindAllStringSubmatchIndex]: the match and its first group. *)
Record rmatch := RMatch { m_start : nat; m_end : nat; m_g1 : nat * nat }.

(** Successive non-overlapping matches of a pattern that never matches the empty
    string; each consumes a rune, so the length of the text is enough fuel. *)
Fixpoint find_all_from (fuel : nat) (r : re) (p : pos) : list rmatch :=
  match fuel with
  | O => []
  | S fuel' =>
      match find_from (length (p_rest p)) r p with
      | None => []
      | Some (b, p', c) =>
          RMatch b (p_off p') (default (0, 0)%nat (group_range c 1))
          :: (if (length (p_rest p') <? length (p_rest p))%nat then find_all_from fuel' r p' else [])
      end
  end.

Definition FindAllIndex (r : re) (s : string) : list rmatch :=
  find_all_from (S (String.length s)) r (start_pos s).

Lemma MatchString_submatch n r s :
  MatchString r s = match FindStringSubmatch n r s with Some _ => true | None => false end.
Proof.
  unfold MatchString, FindStringSubmatch. by destruct (find_from _ _ _) as [[[??]?]|].
Qed.

Lemma FindStringSubmatch_length n r s l :
  FindStringSubmatch n r s = Some l → length l = S n.
Proof.
  unfold FindStringSubmatch. destruct (find_from _ _ _) as [[[??]?]|]; simpl; [|done].
  intros [= <-]. simpl. by rewrite length_map, length_seq.
Qed.

(** A pattern [^[p][q]*$] matches the texts whose first rune is in [p] and the others in [q]. *)
Lemma find_from_anchored r fuel p : p_prev p ≠ None → find_from fuel (RSeq RBol r) p = None.
Proof.
  revert p. induction fuel as [|fuel IH]; intros p Hp; cbn [find_from re_match]; destruct (p_prev p); try done.
  unfold step_pos. destruct (p_rest p) as [|[x b] rest]; [done|]. by apply IH.
Qed.

Lemma star_chars q k p c m :
  re_match (RStar (RChr q)) (re_match REol k) p c = Some m → Forall (λ r, q r.1 = true) (p_rest p).
Proof.
  cbn [re_match]. remember (length (p_rest p)) as n eqn:En. revert p c m En. induction n as [|n IH]; intros [o off rest] c m En; cbn [p_rest] in *.
  - destruct rest; [constructor|done].
  - destruct rest as [|[x b] rest]; [done|]. cbn [length] in *. destruct (q x) eqn:Eq; [|done].
    destruct (Nat.ltb_spec (length rest) (S (length rest))); [|lia].
    intros E. constructor; [done|]. injection En as En.
    match type of E with match ?t with _ => _ end = _ => destruct t as [m'|] eqn:E' end; [|done].
    by apply (IH (Pos (Some x) (off + String.length b) rest) c m').
Qed.

Lemma MatchString_chars p q s :
  MatchString (RSeqs [RBol; RChr p; RStar (RChr q); REol]) s = true →
  ∃ r rs, runes s = r :: rs ∧ p r.1 = true ∧ Forall (λ r, q r.1 = true) rs.
Proof.
  unfold MatchString. cbn [RSeqs]. destruct (find_from _ _ _) as [m|] eqn:E; [|done]. intros _.
  assert (∀ fuel, find_from fuel (RSeq RBol (RSeq (RChr p) (RSeq (RStar (RChr q)) REol))) (start_pos s) = Some m →
            ∃ m', re_match (RSeq (RChr p) (RSeq (RStar (RChr q)) REol)) (λ p' c', Some (p', c')) (start_pos s) [] = Some m') as Hm.
  { intros fuel. destruct fuel; cbn [find_from];
      (destruct (re_match (RSeq RBol _) _ _ _) as [m'|] eqn:E'; [intros _; by exists m'|]); [done|].
    unfold step_pos, start_pos. cbn [p_rest]. destruct (runes s) as [|[x b] rest]; [done|]. by rewrite find_from_anchored. }
  apply Hm in E as [m' E]. clear Hm. change (RSeq (RChr p) _) with (RSeq (RChr p) (RSeq (RStar (RChr q)) REol)) in E.
  cbn [re_match start_pos p_rest] in E. destruct (runes s) as [|[x b] rest]; [done|]. destruct (p x) eqn:Ep; [|done].
  exists (x, b), rest. split_and!; [done..|]. by apply (star_chars q (λ p' c', Some (p', c')) (Pos (Some x) (0 + String.length b) rest) [] m').
Qed.
