(* ===== verification/GoIO.v ===== *)
(** * Parts of [path/filepath] and [bufio]

    A [bufio.Reader] is the text its source still delivers; where that source ends, by an
    end of file or an error, is the end of the text. *)

From S2P Require Import Prelude GoStrings.

(** ** [path/filepath] *)

(** [filepath.Ext]: from the last dot of the last element. *)
Fixpoint ext_from (s cur : string) : string :=
  match s with
  | "" => cur
  | String c s' => if c =b "." then ext_from s' s else if c =b "/" then ext_from s' "" else ext_from s' cur
  end.
Definition filepath_Ext (s : string) : string := ext_from s "".

Definition filepath_Base (s : string) : string :=
  if s =s "" then "."
  else let t := TrimRightBytes (λ c, c =b "/") s in
       if t =s "" then "/" else List.last (Split t "/") "".

(** A file name without separators is its own base name. *)
Lemma filepath_Base_plain s : s ≠ "" → Contains s "/" = false → filepath_Base s = s.
Proof.
  intros Hne Hs. unfold filepath_Base.
  destruct (String.eqb_spec s "") as [|_]; [done|].
  assert (TrimRightBytes (λ c, c =b "/") s = s) as ->.
  { unfold TrimRightBytes. destruct (exists_last (l := bytes_of s)) as (l & x & E).
    { intros E. apply (f_equal of_bytes) in E. rewrite of_bytes_of in E. done. }
    rewrite E, drop_while_end_app, <- E; [apply of_bytes_of|].
    destruct (Ascii.eqb_spec x "/") as [->|]; [|done].
    assert (Contains s "/" = true) as Hc; [|congruence]. apply Contains_spec.
    exists (of_bytes l), "". rewrite <- (of_bytes_of s), E. clear.
    induction l as [|y l IH]; simpl; [done|by rewrite IH]. }
  destruct (String.eqb_spec s "") as [|_]; [done|]. unfold Contains in Hs. unfold Split. simpl.
  by destruct (Index s "/").
Qed.

(** ** [bufio.Reader] *)

(** How a read up to a delimiter ends: with it, with a full buffer, or with the text. *)
Inductive read_end := Found | BufferFull | Ended.

(** [ReadSlice(delim)] of a reader whose buffer holds [size] bytes: the slice, the rest. *)
Definition ReadSlice (size : Z) (delim : ascii) (s : string) : string * string * read_end :=
  match IndexByte s delim with
  | Some i =>
      if Z.of_nat i <? size then (str_take (i + 1) s, str_drop (i + 1) s, Found)
      else (str_take (Z.to_nat size) s, str_drop (Z.to_nat size) s, BufferFull)
  | None =>
      if slen s <? size then (s, "", Ended)
      else (str_take (Z.to_nat size) s, str_drop (Z.to_nat size) s, BufferFull)
  end.

Lemma ReadSlice_app size delim s : let '(part, rest, _) := ReadSlice size delim s in part +:+ rest = s.
Proof.
  unfold ReadSlice. destruct (IndexByte s delim) as [i|].
  - destruct (_ <? _); apply take_drop_str.
  - destruct (_ <? _); [apply app_nil_r_str|apply take_drop_str].
Qed.

(** The size of [bufio.NewReader]. *)
Definition default_size : Z := 4096.

(** ** Lines *)

(** A carriage return at the end of a line belongs to its end. *)
Definition dropCR (line : string) : string :=
  match str_last line with Some c => if c =b CR then str_take (pred (String.length line)) line else line | None => line end.

Lemma dropCR_cases s : s = dropCR s ∨ s = dropCR s +:+ chr CR.
Proof.
  unfold dropCR. destruct (str_last s) as [c|] eqn:E; [|by left]. destruct (Ascii.eqb_spec c CR) as [->|]; [|by left].
  right. revert E. unfold str_last, str_get. induction s as [|c s IH]; [done|]. destruct s as [|d s]; [by intros [= ->]|].
  intros E. cbn [String.length pred str_take]. rewrite app_cons_str. f_equal. by apply IH.
Qed.

