(* ===== verification/GoPath.v ===== *)
(** * [path], [path/filepath] and [encoding/base64]

    A path of the host is absolute and clean, and is the list of its elements; relative
    texts are joined to one element by element. *)

From S2P Require Import Prelude GoStrings.

(** ** [path.Clean], [filepath.Join] *)

Definition ContainsAny (s chars : string) : bool := existsb (λ c, existsb (Ascii.eqb c) (bytes_of chars)) (bytes_of s).

Abbreviation tpath := (list string).

(** One element of a path below the root; the elements so far, last first. *)
Definition clean_step (rooted : bool) (stk : list string) (part : string) : list string :=
  if (part =s "") || (part =s ".") then stk
  else if part =s ".." then
    match stk with
    | [] => if rooted then [] else [".."]
    | top :: stk' => if top =s ".." then ".." :: stk else stk'
    end
  else part :: stk.

Definition path_Clean (p : string) : string :=
  if p =s "" then "."
  else
    let rooted := HasPrefix p "/" in
    let out := Join (reverse (foldl (clean_step rooted) [] (Split p "/"))) "/" in
    if rooted then "/" +:+ out else if out =s "" then "." else out.

(** [filepath.Dir]: what comes before the last element, cleaned. *)
Definition filepath_Dir_text (p : string) : string := path_Clean (Join (removelast (Split p "/") ++ [""]) "/").
Example dir_examples :
  (filepath_Dir_text "out/a.ndjson", filepath_Dir_text "a", filepath_Dir_text "/a", filepath_Dir_text "/x//y/") = ("out", ".", "/", "/x/y").
Proof. vm_compute. reflexivity. Qed.

(** [filepath.Join(dir, elems...)] of a clean absolute [dir] *)
Definition filepath_Join (dir : tpath) (elems : list string) : tpath :=
  reverse (foldl (clean_step true) (reverse dir) (elems ≫= λ e, Split e "/")).

Definition filepath_Dir (p : tpath) : tpath := removelast p.

(** [filepath.Rel] of two absolute paths, below [root] only: the rest of the elements. *)
Fixpoint below (root target : tpath) : option (list string) :=
  match root, target with
  | [], rest => Some rest
  | r :: root', t :: target' => if r =s t then below root' target' else None
  | _, [] => None
  end.

Example clean_examples :
  (path_Clean "packs/a/1.0.0/pack.yaml", path_Clean "packs/../a//b/.", path_Clean "/../a", path_Clean "../../x", path_Clean "")
  = ("packs/a/1.0.0/pack.yaml", "a/b", "/a", "../../x", ".").
Proof. vm_compute. reflexivity. Qed.

(** An element that stands for itself. *)
Definition plain_element (e : string) : bool :=
  all_bytes (λ c, c <>b "/"%char) e && (e <>s "") && (e <>s ".") && (e <>s "..").

Lemma below_app root rest : below root (root ++ rest) = Some rest.
Proof. induction root as [|r root IH]; [done|]. simpl. by rewrite String.eqb_refl. Qed.

Lemma below_Some root target rest : below root target = Some rest → target = root ++ rest.
Proof.
  revert target. induction root as [|r root IH]; intros target; [by intros [= ->]|].
  destruct target as [|t target]; [done|]. simpl. destruct (String.eqb_spec r t) as [->|]; [|done].
  intros H. by rewrite (IH _ H).
Qed.

Lemma Join_plain dir elems : forallb plain_element elems = true → filepath_Join dir elems = dir ++ elems.
Proof.
  unfold filepath_Join. intros H.
  assert (∀ stk, foldl (clean_step true) stk (elems ≫= λ e, Split e "/") = reverse elems ++ stk) as ->.
  { induction elems as [|e l IH]; intros stk; [done|]. cbn [forallb] in H. apply andb_true_iff in H as [He Hl].
    unfold plain_element in He. rewrite !andb_true_iff, !negb_true_iff in He. destruct He as [[[Hs He] Hd] Hdd].
    assert (Split e "/" = [e]) as Hsp by (change "/" with (chr "/"); rewrite Split_chr; by rewrite (proj2 (IndexByte_None _ _))).
    rewrite bind_cons, foldl_app, Hsp. cbn [foldl]. unfold clean_step at 2. rewrite He, Hd, Hdd. cbn [orb].
    rewrite IH by done. rewrite reverse_cons. by rewrite <- app_assoc. }
  by rewrite reverse_app, !reverse_involutive.
Qed.

(** ** [base64.StdEncoding] *)

Definition b64_val (c : ascii) : option Z :=
  let z := bz c in
  if (65 <=? z) && (z <=? 90) then Some (z - 65)
  else if (97 <=? z) && (z <=? 122) then Some (z - 71)
  else if (48 <=? z) && (z <=? 57) then Some (z + 4)
  else if z =? 43 then Some 62
  else if z =? 47 then Some 63
  else None.

(** Groups of four letters; the last one may be padded. *)
Fixpoint b64_groups (s : list ascii) : option (list ascii) :=
  match s with
  | [] => Some []
  | a :: b :: c :: d :: rest =>
      x ← b64_val a; y ← b64_val b;
      let byte0 := zb (4 * x + y / 16) in
      if (c =b "="%char) && (d =b "="%char) then match rest with [] => Some [byte0] | _ => None end
      else
        z ← b64_val c;
        let byte1 := zb (16 * (y mod 16) + z / 4) in
        if d =b "="%char then match rest with [] => Some [byte0; byte1] | _ => None end
        else
          w ← b64_val d;
          l ← b64_groups rest;
          Some (byte0 :: byte1 :: zb (64 * (z mod 4) + w) :: l)
  | _ => None
  end.

(** [base64.StdEncoding.DecodeString] ignores line ends. *)
Definition base64_DecodeString (s : string) : option string :=
  of_bytes <$> b64_groups (List.filter (λ c, negb ((c =b LF) || (c =b CR))) (bytes_of s)).

(** [base64.StdEncoding.EncodeToString] *)
Definition b64_chr (n : Z) : ascii :=
  zb (if n <? 26 then n + 65 else if n <? 52 then n + 71 else if n <? 62 then n - 4 else if n =? 62 then 43 else 47).
Fixpoint b64_encode (s : list ascii) : list ascii :=
  match s with
  | [] => []
  | [a] => [b64_chr (bz a / 4); b64_chr (16 * (bz a mod 4)); "="%char; "="%char]
  | [a; b] => [b64_chr (bz a / 4); b64_chr (16 * (bz a mod 4) + bz b / 16); b64_chr (4 * (bz b mod 16)); "="%char]
  | a :: b :: c :: rest =>
      b64_chr (bz a / 4) :: b64_chr (16 * (bz a mod 4) + bz b / 16) :: b64_chr (4 * (bz b mod 16) + bz c / 64) :: b64_chr (bz c mod 64)
      :: b64_encode rest
  end.
Definition base64_EncodeToString (s : string) : string := of_bytes (b64_encode (bytes_of s)).

(** A letter of the alphabet is decoded to its number, and is no padding, line end or other byte than ASCII. *)
Definition b64_letter (c : ascii) : bool := negb ((c =b LF) || (c =b CR)) && (bz c <? 128).
Lemma b64_chr_spec n : 0 ≤ n < 64 → b64_val (b64_chr n) = Some n ∧ (b64_chr n =b "="%char) = false ∧ b64_letter (b64_chr n) = true.
Proof.
  intros Hn. assert (forallb (λ k, bool_decide (b64_val (b64_chr (Z.of_nat k)) = Some (Z.of_nat k)) && negb (b64_chr (Z.of_nat k) =b "="%char) && b64_letter (b64_chr (Z.of_nat k))) (seq 0 64) = true) as Hall
    by (vm_compute; reflexivity).
  rewrite forallb_forall in Hall. specialize (Hall (Z.to_nat n)). rewrite Z2Nat.id in Hall by lia.
  rewrite !andb_true_iff, bool_decide_eq_true, negb_true_iff in Hall. destruct Hall as [[? ?] ?]; [|done]. apply in_seq. lia.
Qed.

(** Three bytes at a time. *)
Lemma three_ind (Q : list ascii → Prop) :
  Q [] → (∀ a, Q [a]) → (∀ a b, Q [a; b]) → (∀ a b c l, Q l → Q (a :: b :: c :: l)) → ∀ l, Q l.
Proof.
  intros H0 H1 H2 H3 l. assert (∀ n l, (length l ≤ n)%nat → Q l) as Hn; [|by eapply Hn].
  clear l. induction n as [|n IH]; intros [|a [|b [|c l]]] Hl; try done; cbn in Hl; [lia..|]. apply H3, IH. lia.
Qed.

Lemma b64_ranges a b c :
  (0 ≤ bz a / 4 < 64) ∧ (0 ≤ 16 * (bz a mod 4) + bz b / 16 < 64) ∧ (0 ≤ 4 * (bz b mod 16) + bz c / 64 < 64) ∧ (0 ≤ bz c mod 64 < 64)
  ∧ 4 * (bz a / 4) + (16 * (bz a mod 4) + bz b / 16) / 16 = bz a
  ∧ 16 * ((16 * (bz a mod 4) + bz b / 16) mod 16) + (4 * (bz b mod 16) + bz c / 64) / 4 = bz b
  ∧ 64 * ((4 * (bz b mod 16) + bz c / 64) mod 4) + bz c mod 64 = bz c.
Proof. pose proof (bz_range a). pose proof (bz_range b). pose proof (bz_range c). Z.to_euclidean_division_equations. lia. Qed.

Lemma b64_groups_encode l : b64_groups (b64_encode l) = Some l.
Proof.
  induction l as [|a|a b|a b c l IH] using three_ind.
  - done.
  - destruct (b64_ranges a "000"%char "000"%char) as (R1 & R2 & _ & _ & E1 & _). change (bz "000") with 0 in *. change (0 / 16) with 0 in *. rewrite Z.add_0_r in *.
    destruct (b64_chr_spec _ R1) as (V1 & _), (b64_chr_spec _ R2) as (V2 & _). cbn [b64_encode b64_groups]. rewrite V1, V2. cbn [mbind option_bind].
    rewrite E1. by rewrite zb_bz.
  - destruct (b64_ranges a b "000"%char) as (R1 & R2 & R3 & _ & E1 & E2 & _). change (bz "000") with 0 in *. change (0 / 64) with 0 in *. rewrite Z.add_0_r in *.
    destruct (b64_chr_spec _ R1) as (V1 & _), (b64_chr_spec _ R2) as (V2 & _), (b64_chr_spec _ R3) as (V3 & N3 & _).
    cbn [b64_encode b64_groups]. rewrite V1, V2, V3. cbn [mbind option_bind]. rewrite N3, E1, E2. by rewrite !zb_bz.
  - destruct (b64_ranges a b c) as (R1 & R2 & R3 & R4 & E1 & E2 & E3).
    destruct (b64_chr_spec _ R1) as (V1 & _), (b64_chr_spec _ R2) as (V2 & _), (b64_chr_spec _ R3) as (V3 & N3 & _), (b64_chr_spec _ R4) as (V4 & N4 & _).
    cbn [b64_encode b64_groups]. rewrite V1, V2, V3, V4, IH. cbn [mbind option_bind]. rewrite N3, N4, E1, E2, E3. by rewrite !zb_bz.
Qed.
Lemma b64_encode_letters l : Forall (λ c, b64_letter c = true) (b64_encode l).
Proof.
  induction l as [|a|a b|a b c l IH] using three_ind; cbn [b64_encode].
  - constructor.
  - destruct (b64_ranges a "000"%char "000"%char) as (R1 & R2 & _). change (bz "000") with 0 in *. change (0 / 16) with 0 in *. rewrite Z.add_0_r in *.
    repeat constructor; by apply b64_chr_spec.
  - destruct (b64_ranges a b "000"%char) as (R1 & R2 & R3 & _). change (bz "000") with 0 in *. change (0 / 64) with 0 in *. rewrite Z.add_0_r in *.
    repeat constructor; by apply b64_chr_spec.
  - destruct (b64_ranges a b c) as (R1 & R2 & R3 & R4 & _). repeat constructor; try done; by apply b64_chr_spec.
Qed.

Lemma bytes_of_of l : bytes_of (of_bytes l) = l.
Proof. induction l as [|c l IH]; [done|]. cbn. by rewrite IH. Qed.
Lemma filter_all {A} (p : A → bool) l : Forall (λ x, p x = true) l → List.filter p l = l.
Proof. induction 1 as [|x l Hx _ IH]; [done|]. cbn. by rewrite Hx, IH. Qed.
Lemma base64_roundtrip s : base64_DecodeString (base64_EncodeToString s) = Some s.
Proof.
  unfold base64_DecodeString, base64_EncodeToString. rewrite bytes_of_of, filter_all, b64_groups_encode; [cbn; by rewrite of_bytes_of|].
  eapply Forall_impl; [apply b64_encode_letters|]. intros c Hc. unfold b64_letter in Hc. by apply andb_prop in Hc as [? _].
Qed.

Example base64_examples :
  (base64_DecodeString "d29ybQ==", base64_DecodeString ("d29y" +:+ chr LF +:+ "bXM="), base64_DecodeString "d29ybQ", base64_DecodeString "d2=y")
  = (Some "worm", Some "worms", None, None).
Proof. vm_compute. reflexivity. Qed.
