(* ===== verification/Model.v ===== *)
(** * [internal/model]: the records that flow through the pipeline, and the dynamic values of decoded fields *)

From Stdlib Require OrdersEx.
From S2P Require Import Prelude GoStrings GoNum.

(** ** Dynamic values: the Go [any] of a decoded field *)

Inductive value :=
| VNil
| VStr (s : string)
| VInt (z : Z)               (* int *)
| VInt64 (z : Z)             (* int64 *)
| VFloat (f : f64)
| VBool (b : bool)
| VMap (m : gmap string value)
| VList (l : list value).

Abbreviation fields := (gmap string value).

(** A Go map variable: [None] is the nil map, which reads as empty and panics when
    assigned to. *)
Definition gomap := option fields.
Definition entries (m : gomap) : fields := default ∅ m.
Definition assign (m : gomap) (k : string) (v : value) : res gomap :=
  match m with
  | Some f => Ok (Some (<[k := v]> f))
  | None => Panic "assignment to entry in nil map"
  end.

Definition is_nil (v : value) : bool := match v with VNil => true | _ => false end.

(** ** Time: nanoseconds since the Unix epoch *)

Definition time := Z.
Definition zero_time : time := - 62135596800 * 10 ^ 9.    (* year 1, [time.Time{}] *)
Definition IsZero (t : time) : bool := t =? zero_time.
Definition UnixMilli (t : time) : Z := t / 10 ^ 6.

(** ** Records *)

Inductive RawStatus :=
| StatusAccepted | StatusNormalized | StatusQuarantined | StatusPending | StatusPartial.

#[export] Instance RawStatus_eq_dec : EqDecision RawStatus.
Proof. solve_decision. Defined.

Record ReceiveMetadata := {
  ConnectionID : string; Listener : string; RequestID : string;
  FilePath : string; FileID : string; FileOffset : Z;
  ObjectKey : string; Watermark : string;
  KafkaTopic : string; KafkaPartition : Z; KafkaOffset : Z; KafkaKey : string;
}.

Definition no_metadata : ReceiveMetadata :=
  {| ConnectionID := ""; Listener := ""; RequestID := ""; FilePath := ""; FileID := "";
     FileOffset := 0; ObjectKey := ""; Watermark := ""; KafkaTopic := "";
     KafkaPartition := 0; KafkaOffset := 0; KafkaKey := "" |}.

#[export] Instance ReceiveMetadata_eq_dec : EqDecision ReceiveMetadata.
Proof. solve_decision. Defined.

(** The acknowledgement channel [Ack] is an output of the pipeline, not a field. *)
Record IngestedRecord := {
  ir_Transport : string; ir_SourceIP : string; ir_SourcePort : Z;
  ir_RawBytes : string; ir_ReceivedAt : time; ir_Metadata : ReceiveMetadata;
  ir_ExistingRawID : string;
}.

Record RawEvent := {
  re_RawID : string; re_Duplicate : bool; re_RawSHA256 : string; re_ByteCount : Z;
  re_Transport : string; re_SourceIP : string; re_SourcePort : Z;
  re_Metadata : ReceiveMetadata; re_ReceivedAt : time; re_Payload : string;
  re_Status : RawStatus;
}.

Record ProcessingStep := {
  Stage : string; Timestamp : time; Result : string; Error : string;
}.

Record DecodedRecord := {
  dr_RawID : string; RecordOrdinal : Z; Format : string;
  Headers : gomap; Fields : gomap; RawPayload : string;
}.

Record WormEnvelope := {
  EventID : string; we_RawID : string; we_RawSHA256 : string; we_RawBytes : Z;
  we_RecordOrdinal : Z; SourceCategory : string; SourceID : string;
  we_ParserPack : string; ParserVersion : string; CoreVersion : string;
  SchemaVersion : string; ReceivedTime : time; we_Status : string;
  Warnings : list error; ProcessingHistory : list ProcessingStep;
}.

Record NormalizedEvent := { Worm : WormEnvelope; OCSF : fields }.

Record QuarantineEntry := {
  qe_QuarantineID : string; qe_RawID : string; qe_RecordOrdinal : Z; qe_RawSHA256 : string;
  qe_Stage : string; qe_Reason : string; qe_ErrorDetails : error; qe_RawPreview : string;
  qe_CandidatePacks : list string; qe_ReplayEligible : bool;
  qe_QuarantinedAt : time; qe_ReplayedAt : option time;
}.

Record LossAccountingStats := {
  Accepted : Z; Normalized : Z; Quarantined : Z; Pending : Z;
  Delivered : Z; DeliveryPending : Z; DeliveryFailed : Z;
}.

(** [VerifyInvariant]: accepted = normalized + quarantined + pending *)
Definition VerifyInvariant (s : LossAccountingStats) : bool :=
  let expected := Normalized s + Quarantined s + Pending s in
  if negb (Accepted s =? expected) then false else true.

(** ** [fmt.Sprintf("%v", v)]

    [fmt_float] is the [%v] text of a [float64] (shortest representation), the
    only part of the rendering that is left abstract. *)
Section sprint.
Context (fmt_float : f64 → string).

Definition str_le (a b : string) : bool :=
  match String.compare a b with Gt => false | _ => true end.

Fixpoint insert_sorted (kv : string * string) (l : list (string * string)) :=
  match l with
  | [] => [kv]
  | kv' :: l' => if str_le kv.1 kv'.1 then kv :: l else kv' :: insert_sorted kv l'
  end.

Fixpoint sprint_v (v : value) : string :=
  match v with
  | VNil => "<nil>"
  | VStr s => s
  | VInt z | VInt64 z => Itoa z
  | VFloat f => fmt_float f
  | VBool b => if b then "true" else "false"
  | VMap m =>
      "map[" +:+ Join ((λ kv, kv.1 +:+ ":" +:+ kv.2) <$>
                        map_fold (λ k x acc, insert_sorted (k, sprint_v x) acc) [] m) " " +:+ "]"
  | VList l => "[" +:+ Join (map sprint_v l) " " +:+ "]"
  end.
End sprint.

Lemma VerifyInvariant_spec s :
  VerifyInvariant s = true ↔ Accepted s = Normalized s + Quarantined s + Pending s.
Proof. unfold VerifyInvariant. destruct (Z.eqb_spec (Accepted s) (Normalized s + Quarantined s + Pending s)); naive_solver. Qed.

(** ** The order of strings *)

Lemma str_le_spec a b : str_le a b = true ↔ a = b ∨ OrdersEx.String_as_OT.lt a b.
Proof.
  assert (String.compare a b = OrdersEx.String_as_OT.compare a b) as E.
  { revert b. induction a as [|c a IH]; by intros [|d b]. }
  unfold str_le. rewrite E. destruct (OrdersEx.String_as_OT.compare_spec a b) as [Heq|Hlt|Hgt];
    [split; [intros _; left; exact Heq|done]|split; [intros _; right; exact Hlt|done]|].
  split; [done|]. intros [->|Hlt]; [by destruct (StrictOrder_Irreflexive (R := OrdersEx.String_as_OT.lt) b)|].
  destruct (StrictOrder_Irreflexive (R := OrdersEx.String_as_OT.lt) a). by transitivity b.
Qed.

Lemma str_le_total a b : str_le a b = true ∨ str_le b a = true.
Proof. rewrite !str_le_spec. destruct (OrdersEx.String_as_OT.compare_spec a b) as [->|?|?]; auto. Qed.
Lemma str_le_trans a b c : str_le a b = true → str_le b c = true → str_le a c = true.
Proof.
  rewrite !str_le_spec. intros [E1|H1] [E2|H2]; subst; auto. right. by transitivity b.
Qed.
Lemma str_le_antisym a b : str_le a b = true → str_le b a = true → a = b.
Proof.
  rewrite !str_le_spec. intros [E1|H1] [E2|H2]; subst; auto.
  destruct (StrictOrder_Irreflexive (R := OrdersEx.String_as_OT.lt) a). by transitivity b.
Qed.
