(* ===== verification/GoTime.v ===== *)
(** * Go's [time]: instants, the calendar, and the textual formats the program stores *)

From S2P Require Import Prelude GoStrings GoNum Model.

(** ** Times as [time.Parse] returns them: an instant and a fixed zone offset in seconds *)

Record gtime := { unix_ns : Z; zone_offset : Z }.

(** Days since 1970-01-01 of a proleptic Gregorian date; the day may overflow its month,
    as in [time.Date]. *)
Definition days_from_civil (year month day : Z) : Z :=
  let y := if month <=? 2 then year - 1 else year in
  let doy := (153 * ((month + 9) mod 12) + 2) / 5 + day - 1 in
  365 * y + y / 4 - y / 100 + y / 400 + doy - 719468.

Definition civil_from_days (days : Z) : Z * Z * Z :=
  let z := days + 719468 in
  let era := z / 146097 in
  let doe := z mod 146097 in
  let yoe := (doe - doe / 1460 + doe / 36524 - doe / 146096) / 365 in
  let doy := doe - (365 * yoe + yoe / 4 - yoe / 100) in
  let mp := (5 * doy + 2) / 153 in
  let month := if mp <? 10 then mp + 3 else mp - 9 in
  (yoe + era * 400 + (if month <=? 2 then 1 else 0), month, doy - (153 * mp + 2) / 5 + 1).

Definition ns_per_day : Z := 86400 * 10 ^ 9.
Definition local_ns (t : gtime) : Z := unix_ns t + zone_offset t * 10 ^ 9.
Definition Year (t : gtime) : Z := (civil_from_days (local_ns t / ns_per_day)).1.1.

(** [t.AddDate(years, 0, 0)] *)
Definition AddYears (t : gtime) (years : Z) : gtime :=
  let '(y, m, d) := civil_from_days (local_ns t / ns_per_day) in
  {| unix_ns := days_from_civil (y + years) m d * ns_per_day + local_ns t mod ns_per_day
                - zone_offset t * 10 ^ 9;
     zone_offset := zone_offset t |}.

Example add_years_ex :
  civil_from_days (days_from_civil 2026 3 1) = (2026, 3, 1)
  ∧ civil_from_days (days_from_civil 2025 2 29) = (2025, 3, 1)
  ∧ Year {| unix_ns := days_from_civil 0 9 20 * ns_per_day; zone_offset := 0 |} = 0
  ∧ unix_ns (AddYears {| unix_ns := days_from_civil 0 9 20 * ns_per_day; zone_offset := 0 |} 2026)
    = days_from_civil 2026 9 20 * ns_per_day.
Proof. by vm_compute. Qed.


(** ** Formatting an instant in UTC *)

(** A number on [n] digits, padded with zeros. *)
Definition pad (n : nat) (z : Z) : string :=
  let d := Itoa z in String.concat "" (replicate (n - String.length d) "0") +:+ d.

Definition utc_date (t : time) : Z * Z * Z := civil_from_days (t / ns_per_day).

(** [t.Format("20060102")] *)
Definition Format_date (t : time) : string :=
  let '(y, m, d) := utc_date t in pad 4 y +:+ pad 2 m +:+ pad 2 d.

Definition strip_zeros (s : string) : string := TrimRightBytes (λ c, c =b "0"%char) s.

(** [t.Format(time.RFC3339Nano)]: the fraction loses its trailing zeros. *)
Definition Format_RFC3339Nano (t : time) : string :=
  let '(y, m, d) := utc_date t in
  let sec := t / 10 ^ 9 mod 86400 in
  let frac := strip_zeros (pad 9 (t mod 10 ^ 9)) in
  pad 4 y +:+ "-" +:+ pad 2 m +:+ "-" +:+ pad 2 d +:+ "T"
  +:+ pad 2 (sec / 3600) +:+ ":" +:+ pad 2 (sec / 60 mod 60) +:+ ":" +:+ pad 2 (sec mod 60)
  +:+ (if frac =s "" then "" else "." +:+ frac) +:+ "Z".

Example format_ex :
  Format_date (days_from_civil 2026 9 21 * ns_per_day) = "20260921"
  ∧ Format_RFC3339Nano (days_from_civil 2026 9 21 * ns_per_day + 37205250000000) = "2026-09-21T10:20:05.25Z"
  ∧ Format_RFC3339Nano (days_from_civil 2026 9 21 * ns_per_day) = "2026-09-21T00:00:00Z".
Proof. by vm_compute. Qed.

(** The text order of a column is not the order in time: a whole second sorts after
    the fractions that follow it. *)
Lemma RFC3339Nano_text_order :
  let t1 := days_from_civil 2026 9 21 * ns_per_day in
  t1 < t1 + 500000000
  ∧ String.compare (Format_RFC3339Nano t1) (Format_RFC3339Nano (t1 + 500000000)) = Gt.
Proof. by vm_compute. Qed.
