(* ===== verification/GoJson.v ===== *)
(** * Go's [encoding/json]: [Unmarshal] into [map[string]any] and [[]json.RawMessage]

    As in the package, a document is read by an automaton over a stack of open arrays and
    objects ([parseState]); here its input is the list of lexical tokens, each with the
    white space before it and its text, so that the text of a part of the document
    ([json.RawMessage]) is that of its tokens.  The errors of the package are never
    inspected by the program; they are values without details. *)

From S2P Require Import Prelude GoStrings GoNum Model.

(** ** Documents *)

Inductive json :=
| JNull
| JBool (b : bool)
| JNum (literal : string)
| JStr (s : string)
| JArr (items : list json)
| JObj (members : list (string * json)).

Section json_ind'.
Context (P : json → Prop).
Context (Pnull : P JNull) (Pbool : ∀ b, P (JBool b)) (Pnum : ∀ l, P (JNum l)) (Pstr : ∀ s, P (JStr s)).
Context (Parr : ∀ l, Forall P l → P (JArr l)) (Pobj : ∀ l, Forall (P ∘ snd) l → P (JObj l)).

Fixpoint json_ind' (j : json) : P j :=
  match j with
  | JNull => Pnull
  | JBool b => Pbool b
  | JNum l => Pnum l
  | JStr s => Pstr s
  | JArr l => Parr l ((fix go l : Forall P l :=
                         match l with [] => Forall_nil_2 P | j :: l' => Forall_cons_2 P j l' (json_ind' j) (go l') end) l)
  | JObj l => Pobj l ((fix go l : Forall (P ∘ snd) l :=
                         match l with
                         | [] => Forall_nil_2 _
                         | (k, j) :: l' => Forall_cons_2 (P ∘ snd) (k, j) l' (json_ind' j) (go l')
                         end) l)
  end.
End json_ind'.

(** ** Tokens *)

Inductive lexeme :=
| LBrace | RBrace | LBracket | RBracket | Colon | Comma
| LNull | LBool (b : bool) | LNum (literal : string) | LStr (s : string).

Record token := Tok { tk_space : string; tk_text : string; tk_lex : lexeme }.

Definition is_ws (c : ascii) : bool := (bz c =? 32) || (bz c =? 9) || (bz c =? 10) || (bz c =? 13).

(** The longest prefix of bytes satisfying [p], and the rest. *)
Fixpoint span_bytes (p : ascii → bool) (s : string) : string * string :=
  match s with
  | "" => ("", "")
  | String c s' => if p c then let '(x, r) := span_bytes p s' in (String c x, r) else ("", s)
  end.

(** *** Numbers *)

Definition lex_sign (s : string) : string * string :=
  match s with String c s' => if c =b "-"%char then (chr c, s') else ("", s) | "" => ("", s) end.

Definition lex_int (s : string) : option (string * string) :=
  match s with
  | String c s' =>
      if c =b "0"%char then Some (chr c, s')
      else if is_digit c then Some (span_bytes is_digit s) else None
  | "" => None
  end.

Definition lex_digits (s : string) : option (string * string) :=
  match span_bytes is_digit s with ("", _) => None | r => Some r end.

Definition lex_frac (s : string) : option (string * string) :=
  match s with
  | String c s' =>
      if c =b "."%char then '(d, r) ← lex_digits s'; Some (String c d, r) else Some ("", s)
  | "" => Some ("", s)
  end.

Definition is_exp (c : ascii) : bool := (c =b "e"%char) || (c =b "E"%char).
Definition is_sign (c : ascii) : bool := (c =b "+"%char) || (c =b "-"%char).

Definition lex_exp_digits (s : string) : option (string * string) :=
  match s with
  | String c s' =>
      if is_sign c then '(d, r) ← lex_digits s'; Some (String c d, r) else lex_digits s
  | "" => None
  end.

Definition lex_exp (s : string) : option (string * string) :=
  match s with
  | String c s' => if is_exp c then '(d, r) ← lex_exp_digits s'; Some (String c d, r) else Some ("", s)
  | "" => Some ("", s)
  end.

Definition lex_number (s : string) : option (string * string) :=
  let '(sign, s1) := lex_sign s in
  '(int, s2) ← lex_int s1; '(frac, s3) ← lex_frac s2; '(exp, s4) ← lex_exp s3;
  Some (sign +:+ (int +:+ (frac +:+ exp)), s4).

(** *** Strings *)

Definition is_hex (c : ascii) : bool := match hex_val c with Some _ => true | None => false end.

(** The code of the character that a one-letter escape stands for. *)
Definition escape_code (c : ascii) : option Z :=
  if c =b QUOTE then Some 34 else if c =b BACKSLASH then Some 92 else if c =b "/"%char then Some 47
  else if c =b "b"%char then Some 8 else if c =b "f"%char then Some 12 else if c =b "n"%char then Some 10
  else if c =b "r"%char then Some 13 else if c =b "t"%char then Some 9 else None.

(** The body of a string whose opening quote was read, and what follows its closing one. *)
Fixpoint string_body (s : string) : option (string * string) :=
  match s with
  | "" => None
  | String c s1 =>
      if c =b QUOTE then Some ("", s1)
      else if c =b BACKSLASH then
        match s1 with
        | String e s2 =>
            if e =b "u"%char then
              match s2 with
              | String h1 (String h2 (String h3 (String h4 s3))) =>
                  if is_hex h1 && is_hex h2 && is_hex h3 && is_hex h4
                  then '(b, r) ← string_body s3;
                       Some (String c (String e (String h1 (String h2 (String h3 (String h4 b))))), r)
                  else None
              | _ => None
              end
            else match escape_code e with
                 | Some _ => '(b, r) ← string_body s2; Some (String c (String e b), r)
                 | None => None
                 end
        | "" => None
        end
      else if bz c <? 32 then None
      else '(b, r) ← string_body s1; Some (String c b, r)
  end.

(** [utf8.AppendRune]; what is no code point is written as U+FFFD. *)
Definition replacement : string := String (zb 239) (String (zb 191) (chr (zb 189))).
Definition cbyte (z : Z) : ascii := zb (128 + Z.land z 63).
Definition utf8_Append (r : Z) : string :=
  if (r <? 0) || (1114111 <? r) || ((55296 <=? r) && (r <=? 57343)) then replacement
  else if r <? 128 then chr (zb r)
  else if r <? 2048 then String (zb (192 + Z.shiftr r 6)) (chr (cbyte r))
  else if r <? 65536 then String (zb (224 + Z.shiftr r 12)) (String (cbyte (Z.shiftr r 6)) (chr (cbyte r)))
  else String (zb (240 + Z.shiftr r 18))
         (String (cbyte (Z.shiftr r 12)) (String (cbyte (Z.shiftr r 6)) (chr (cbyte r)))).

(** A rune of the text, an invalid byte replaced. *)
Definition clean (r : rune) : string :=
  if (r.1 =? RuneError) && (String.length r.2 =? 1)%nat then replacement else r.2.

(** The units of a string body: text, or the UTF-16 unit of a [\u] escape. *)
Inductive junit := JText (s : string) | JCode (u : Z).

Definition hex_of (r : rune) : Z := match r.2 with String c "" => default 0 (hex_val c) | _ => 0 end.
Definition escaped (r : rune) : string :=
  match r.2 with String c "" => match escape_code c with Some z => chr (zb z) | None => "" end | _ => "" end.

Fixpoint junits (rs : list rune) : list junit :=
  match rs with
  | [] => []
  | r :: rs1 =>
      if r.2 =s "\" then
        match rs1 with
        | e :: rs2 =>
            if e.2 =s "u" then
              match rs2 with
              | h1 :: h2 :: h3 :: h4 :: rs3 =>
                  JCode (16 * (16 * (16 * hex_of h1 + hex_of h2) + hex_of h3) + hex_of h4) :: junits rs3
              | _ => []
              end
            else JText (escaped e) :: junits rs2
        | [] => []
        end
      else JText (clean r) :: junits rs1
  end.

(** [utf16.IsSurrogate], [utf16.DecodeRune] *)
Definition IsSurrogate (u : Z) : bool := (55296 <=? u) && (u <? 57344).
Definition surrogate_pair (u v : Z) : bool := (55296 <=? u) && (u <? 56320) && (56320 <=? v) && (v <? 57344).
Definition utf16_DecodeRune (u v : Z) : Z := Z.shiftl (u - 55296) 10 + (v - 56320) + 65536.

Fixpoint join_units (l : list junit) : string :=
  match l with
  | [] => ""
  | JText s :: l1 => s +:+ join_units l1
  | JCode u :: l1 =>
      if IsSurrogate u then
        match l1 with
        | JCode v :: l2 =>
            if surrogate_pair u v then utf8_Append (utf16_DecodeRune u v) +:+ join_units l2
            else replacement +:+ join_units l1
        | _ => replacement +:+ join_units l1
        end
      else utf8_Append u +:+ join_units l1
  end.

Definition unquote (body : string) : string := join_units (junits (runes body)).

(** *** The next token *)

Definition lex_literal (s : string) : option (string * lexeme * string) :=
  if HasPrefix s "true" then Some ("true", LBool true, TrimPrefix s "true")
  else if HasPrefix s "false" then Some ("false", LBool false, TrimPrefix s "false")
  else if HasPrefix s "null" then Some ("null", LNull, TrimPrefix s "null")
  else None.

Definition punctuation (c : ascii) : option lexeme :=
  if c =b "{"%char then Some LBrace else if c =b "}"%char then Some RBrace
  else if c =b "["%char then Some LBracket else if c =b "]"%char then Some RBracket
  else if c =b ":"%char then Some Colon else if c =b ","%char then Some Comma else None.

Definition lexeme_at (s : string) : option (string * lexeme * string) :=
  match s with
  | "" => None
  | String c s1 =>
      match punctuation c with
      | Some l => Some (chr c, l, s1)
      | None =>
          if c =b QUOTE then '(b, r) ← string_body s1; Some (String c (b +:+ chr QUOTE), LStr (unquote b), r)
          else if is_digit c || (c =b "-"%char) then '(t, r) ← lex_number s; Some (t, LNum t, r)
          else lex_literal s
      end
  end.

Definition syntax_error : error := errors_New "json: syntax error".

Definition token_round (s : string) (acc : list token) : res (string * list token) :=
  let '(sp, s1) := span_bytes is_ws s in
  if s1 =s "" then Ok ("", acc)
  else match lexeme_at s1 with
       | None => Err syntax_error
       | Some (t, l, r) => Ok (r, acc ++ [Tok sp t l])
       end.

Definition tokens (s : string) : res (list token) := scan token_round s [].

(** ** The automaton *)

Inductive frame :=
| FArr (items : list json)                                  (* an open array *)
| FObj (members : list (string * json)) (key : string).      (* an open object, at the value of [key] *)

Inductive pstate :=
| PValue (first : bool) (stk : list frame)                  (* a value, or the end of an empty array *)
| PKey (first : bool) (members : list (string * json)) (stk : list frame)
| PColon (members : list (string * json)) (key : string) (stk : list frame)
| PAfter (j : json) (stk : list frame).                     (* a value has ended *)

Definition maxNestingDepth : Z := 10000.
Definition fits (stk : list frame) : bool := Z.of_nat (length stk) <? maxNestingDepth.

Definition pnext (p : pstate) (l : lexeme) : option pstate :=
  match p, l with
  | PValue _ stk, LBrace => if fits stk then Some (PKey true [] stk) else None
  | PValue _ stk, LBracket => if fits stk then Some (PValue true (FArr [] :: stk)) else None
  | PValue true (FArr [] :: stk), RBracket => Some (PAfter (JArr []) stk)
  | PValue _ stk, LNull => Some (PAfter JNull stk)
  | PValue _ stk, LBool b => Some (PAfter (JBool b) stk)
  | PValue _ stk, LNum n => Some (PAfter (JNum n) stk)
  | PValue _ stk, LStr s => Some (PAfter (JStr s) stk)
  | PKey _ ms stk, LStr k => Some (PColon ms k stk)
  | PKey true _ stk, RBrace => Some (PAfter (JObj []) stk)
  | PColon ms k stk, Colon => Some (PValue false (FObj ms k :: stk))
  | PAfter j (FArr l :: stk), Comma => Some (PValue false (FArr (l ++ [j]) :: stk))
  | PAfter j (FArr l :: stk), RBracket => Some (PAfter (JArr (l ++ [j])) stk)
  | PAfter j (FObj ms k :: stk), Comma => Some (PKey false (ms ++ [(k, j)]) stk)
  | PAfter j (FObj ms k :: stk), RBrace => Some (PAfter (JObj (ms ++ [(k, j)])) stk)
  | _, _ => None
  end.

Fixpoint prun (p : pstate) (ls : list lexeme) : option pstate :=
  match ls with
  | [] => Some p
  | l :: ls' => p' ← pnext p l; prun p' ls'
  end.

Definition parse (s : string) : res json :=
  ts ← tokens s;
  match prun (PValue false []) (tk_lex <$> ts) with
  | Some (PAfter j []) => Ok j
  | _ => Err syntax_error
  end.

(** ** [Unmarshal] *)

(** The dynamic value of a document; a number beyond the range of [float64] is an error. *)
Fixpoint value_of (j : json) : option value :=
  match j with
  | JNull => Some VNil
  | JBool b => Some (VBool b)
  | JNum l => VFloat <$> ParseFloat l
  | JStr s => Some (VStr s)
  | JArr l => VList <$> mapM value_of l
  | JObj ms => (λ kvs, VMap (list_to_map (reverse kvs))) <$> mapM (λ '(k, j), pair k <$> value_of j) ms
  end.

Definition type_error : error := errors_New "json: cannot unmarshal".

(** [json.Unmarshal(data, &m)] for a nil map [m map[string]any] *)
Definition Unmarshal_map (data : string) : res gomap :=
  j ← parse data;
  match j with
  | JNull => Ok None
  | JObj _ => match value_of j with Some (VMap m) => Ok (Some m) | _ => Err type_error end
  | _ => Err type_error
  end.

(** The items of an array whose bracket was read: [cur] is the item being read, [d] the number
    of brackets open in it. *)
Fixpoint split_items (d : Z) (cur : list token) (ts : list token) : list (list token) :=
  match ts with
  | [] => [cur]
  | t :: ts' =>
      match tk_lex t with
      | LBrace | LBracket => split_items (d + 1) (cur ++ [t]) ts'
      | RBrace => split_items (d - 1) (cur ++ [t]) ts'
      | RBracket => if d =? 0 then (match cur with [] => [] | _ => [cur] end) else split_items (d - 1) (cur ++ [t]) ts'
      | Comma => if d =? 0 then cur :: split_items 0 [] ts' else split_items d (cur ++ [t]) ts'
      | _ => split_items d (cur ++ [t]) ts'
      end
  end.

(** The text of a part of the document, without the white space before it. *)
Fixpoint raw_text (ts : list token) : string :=
  match ts with [] => "" | t :: ts' => tk_space t +:+ (tk_text t +:+ raw_text ts') end.
Definition raw_message (ts : list token) : string :=
  match ts with [] => "" | t :: ts' => tk_text t +:+ raw_text ts' end.

(** [json.Unmarshal(data, &l)] for [l []json.RawMessage] *)
Definition Unmarshal_raws (data : string) : res (list string) :=
  j ← parse data;
  ts ← tokens data;
  match j with
  | JNull => Ok []
  | JArr _ => Ok (raw_message <$> split_items 0 [] (tail ts))
  | _ => Err type_error
  end.

Example unmarshal_ex :
  let q := chr QUOTE in
  Unmarshal_map (" {" +:+ q +:+ "a\u00e9\ud83d\ude00" +:+ q +:+ " : [1, -2.5e1, {}],"+:+ q +:+ "b" +:+ q +:+":null} ")
  = Ok (Some (list_to_map [("a" +:+ of_bytes (zb <$> [195; 169; 240; 159; 152; 128]), VList [VFloat (f64_of_Z 1); VFloat (f64_of_Z (-25)); VMap ∅]); ("b", VNil)]))
  ∧ Unmarshal_map "{]" = Err syntax_error ∧ Unmarshal_map "null " = Ok None ∧ Unmarshal_map "[1]" = Err type_error
  ∧ Unmarshal_map "01" = Err syntax_error ∧ Unmarshal_map "{} {}" = Err syntax_error
  ∧ Unmarshal_raws (" [1 , {" +:+ q +:+ "a, ]" +:+ q +:+ " : [1 ,2 ]} ,null ]")
    = Ok ["1"; "{" +:+ q +:+ "a, ]" +:+ q +:+ " : [1 ,2 ]}"; "null"]
  ∧ Unmarshal_raws "[ ]" = Ok [].
Proof. vm_compute. repeat split. Qed.

Lemma parse_no_panic s : no_panic (parse s).
Proof.
  unfold parse. apply res_bind_no_panic.
  - apply scan_no_panic. intros t acc. unfold token_round. by repeat case_match.
  - intros ts _. by repeat case_match.
Qed.

Lemma Unmarshal_map_no_panic s : no_panic (Unmarshal_map s).
Proof. apply res_bind_no_panic; [apply parse_no_panic|]. intros j _. by repeat case_match. Qed.

Lemma Unmarshal_raws_no_panic s : no_panic (Unmarshal_raws s).
Proof.
  apply res_bind_no_panic; [apply parse_no_panic|]. intros j _. apply res_bind_no_panic; [|by intros; repeat case_match].
  apply scan_no_panic. intros t acc. unfold token_round. by repeat case_match.
Qed.
