(* ===== verification/JsonText.v ===== *)
(** * JSON as text: a reference printer, and that [Unmarshal] reads what it writes *)

From S2P Require Import Prelude GoStrings GoNum Model GoJson.

(** ** The printer *)

(** A string escaped as RFC 8259 asks: quotes, backslashes and control characters. *)
Definition quote_rune (r : rune) : string :=
  match r.2 with
  | String c "" =>
      if c =b QUOTE then String BACKSLASH (chr QUOTE)
      else if c =b BACKSLASH then String BACKSLASH (chr BACKSLASH)
      else if bz c <? 32
           then String BACKSLASH (String "u" (String "0" (String "0" (String (hex_digit (bz c / 16)) (chr (hex_digit (bz c mod 16)))))))
           else chr c
  | b => b
  end.
Definition quote_body (s : string) : string := String.concat "" (quote_rune <$> runes s).
Definition quote (s : string) : string := String QUOTE (quote_body s +:+ chr QUOTE).

Definition text_of (l : lexeme) : string :=
  match l with
  | LBrace => "{" | RBrace => "}" | LBracket => "[" | RBracket => "]" | Colon => ":" | Comma => ","
  | LNull => "null" | LBool b => if b then "true" else "false" | LNum n => n | LStr s => quote s
  end.

(** The lexemes of the items of an array or object, the commas between them included. *)
Fixpoint separated (l : list (list lexeme)) : list lexeme :=
  match l with
  | [] => []
  | [x] => x
  | x :: l' => x ++ Comma :: separated l'
  end.

Fixpoint lexemes (j : json) : list lexeme :=
  match j with
  | JNull => [LNull]
  | JBool b => [LBool b]
  | JNum n => [LNum n]
  | JStr s => [LStr s]
  | JArr l => LBracket :: separated (lexemes <$> l) ++ [RBracket]
  | JObj ms => LBrace :: separated ((λ m, LStr m.1 :: Colon :: lexemes m.2) <$> ms) ++ [RBrace]
  end.

Definition texts (ls : list lexeme) : string := String.concat "" (text_of <$> ls).
Definition print (j : json) : string := texts (lexemes j).

(** Documents that have a text: number literals are JSON's, strings are UTF-8. *)
Definition is_literal (n : string) : bool :=
  match lex_number n with Some (t, "") => t =s n | _ => false end.

Definition lexeme_ok (l : lexeme) : bool :=
  match l with LNum n => is_literal n | LStr s => utf8_Valid s | _ => true end.

Definition well_formed (j : json) : bool := forallb lexeme_ok (lexemes j).

(** The greatest number of arrays and objects open at one point. *)
Fixpoint depth (j : json) : Z :=
  match j with
  | JArr l => 1 + foldr Z.max 0 (depth <$> l)
  | JObj ms => 1 + foldr Z.max 0 ((λ m, depth m.2) <$> ms)
  | _ => 0
  end.

(** ** Numbers *)

Definition num_end (t : string) : bool :=
  match t with String c _ => negb (is_digit c || (c =b ".") || is_exp c) | "" => true end.

Lemma span_bytes_app p s t x r :
  span_bytes p s = (x, r) → (r = "" → match t with String c _ => p c = false | "" => True end) →
  span_bytes p (s +:+ t) = (x, r +:+ t).
Proof.
  revert x r. induction s as [|c s IH]; intros x r; simpl.
  - intros [= <- <-] Ht. destruct t as [|c t]; [done|]. simpl. by rewrite Ht.
  - destruct (p c); [|by intros [= <- <-]]. destruct (span_bytes p s) as [x' r'].
    intros [= <- <-] Ht. by rewrite (IH x' r').
Qed.

Lemma num_end_digit t : num_end t = true → match t with String c _ => is_digit c = false | "" => True end.
Proof. destruct t as [|c t]; [done|]. simpl. intros H%negb_true_iff. by destruct (is_digit c). Qed.

Lemma lex_digits_app s t x r :
  lex_digits s = Some (x, r) → num_end t = true → lex_digits (s +:+ t) = Some (x, r +:+ t).
Proof.
  unfold lex_digits. destruct (span_bytes is_digit s) as [d u] eqn:E. intros Hx Ht.
  rewrite (span_bytes_app _ _ t _ _ E) by (intros _; by apply num_end_digit).
  destruct d; [done|]. by simplify_eq.
Qed.

Lemma lex_int_app s t x r : lex_int s = Some (x, r) → num_end t = true → lex_int (s +:+ t) = Some (x, r +:+ t).
Proof.
  destruct s as [|c s]; [done|]. simpl. destruct (c =b "0"); [by intros [= <- <-]|]. destruct (is_digit c); [|done].
  intros [= Hx] Ht. destruct (span_bytes is_digit s) as [d u] eqn:E. simplify_eq.
  by rewrite (span_bytes_app _ _ t _ _ E) by (intros _; by apply num_end_digit).
Qed.

Lemma lex_frac_app s t x r : lex_frac s = Some (x, r) → num_end t = true → lex_frac (s +:+ t) = Some (x, r +:+ t).
Proof.
  destruct s as [|c s]; simpl.
  - intros [= <- <-] Ht. destruct t as [|c t]; [done|]. simpl in *. apply negb_true_iff in Ht.
    by destruct (is_digit c), (c =b ".").
  - destruct (c =b "."); [|by intros [= <- <-]]. intros ([d u] & E & [= <- <-])%bind_Some Ht.
    by rewrite (lex_digits_app _ t _ _ E).
Qed.

Lemma lex_exp_app s t x r : lex_exp s = Some (x, r) → num_end t = true → lex_exp (s +:+ t) = Some (x, r +:+ t).
Proof.
  destruct s as [|c s]; simpl.
  - intros [= <- <-] Ht. destruct t as [|c t]; [done|]. simpl in *. apply negb_true_iff in Ht.
    by destruct (is_digit c), (c =b "."), (is_exp c).
  - destruct (is_exp c); [|by intros [= <- <-]]. intros ([d u] & E & [= <- <-])%bind_Some Ht.
    destruct s as [|s0 s]; [done|]. cbn [lex_exp_digits String.append] in *.
    destruct (is_sign s0).
    + apply bind_Some in E as ([d' u'] & E & [= <- <-]). by rewrite (lex_digits_app _ t _ _ E).
    + change (String s0 (s +:+ t)) with (String s0 s +:+ t). by rewrite (lex_digits_app _ t _ _ E).
Qed.

Lemma lex_number_app n t : is_literal n = true → num_end t = true → lex_number (n +:+ t) = Some (n, t).
Proof.
  unfold is_literal, lex_number. intros Hn Ht.
  assert (lex_sign (n +:+ t) = ((lex_sign n).1, (lex_sign n).2 +:+ t)) as ->.
  { destruct n as [|c n]; simpl in *; [done|]. by destruct (c =b "-"). }
  destruct (lex_sign n) as [sg s1]. simpl in *.
  destruct (lex_int s1) as [[i s2]|] eqn:E1; [|done]. simpl in *. rewrite (lex_int_app _ t _ _ E1) by done. simpl.
  destruct (lex_frac s2) as [[f s3]|] eqn:E2; [|done]. simpl in *. rewrite (lex_frac_app _ t _ _ E2) by done. simpl.
  destruct (lex_exp s3) as [[e s4]|] eqn:E3; [|done]. simpl in *. rewrite (lex_exp_app _ t _ _ E3) by done. simpl.
  destruct s4; [|done]. apply String.eqb_eq in Hn. by rewrite Hn.
Qed.

(** ** Strings *)

Definition invalid (r : rune) : bool := (r.1 =? RuneError) && (String.length r.2 =? 1)%nat.

Lemma utf8_Valid_forall s : utf8_Valid s = true ↔ Forall (λ r, invalid r = false) (runes s).
Proof.
  unfold utf8_Valid. rewrite forallb_forall, Forall_forall. setoid_rewrite list_elem_of_In.
  split; intros H r Hr; specialize (H r Hr); unfold invalid in *; [by apply negb_true_iff|by rewrite H].
Qed.

(** A decoded rune does not depend on what follows its bytes. *)
Lemma decode_rune_prefix c s t :
  let '(r, w) := decode_rune c s in
  (r =? RuneError) && (w =? 1)%nat = false → (pred w ≤ String.length s)%nat ∧ decode_rune c (str_take (pred w) s +:+ t) = (r, w).
Proof.
  unfold decode_rune. destruct (bz c <? 128); [simpl; split; [lia|done]|].
  destruct s as [|c1 s]; [done|].
  destruct (in_range 194 223 c && cont c1) eqn:E1; [intros _; simpl; rewrite E1; split; [lia|done]|].
  destruct s as [|c2 s]; [done|].
  match goal with |- context [if ?b then (?x, 3%nat) else _] => destruct b eqn:E2 end.
  { intros _. simpl. rewrite E1, E2. split; [lia|done]. }
  destruct s as [|c3 s]; [done|].
  match goal with |- context [if ?b then (?x, 4%nat) else _] => destruct b eqn:E3 end; [|done].
  intros _. simpl. rewrite E1, E2, E3. split; [lia|done].
Qed.

Lemma decode_rune_high c s : 128 ≤ bz c → all_bytes (λ c, 128 <=? bz c) (str_take (pred (decode_rune c s).2) s) = true.
Proof.
  intros Hc. assert (∀ d lo hi, 128 ≤ lo → in_range lo hi d = true → (128 <=? bz d) = true) as Hin.
  { intros d lo hi. unfold in_range. lia. }
  assert (∀ d, cont d = true → (128 <=? bz d) = true) as Hcont by (intros d; by apply Hin).
  unfold decode_rune. rewrite (proj2 (Z.ltb_ge _ _)) by done.
  destruct s as [|c1 s]; [done|].
  destruct (in_range 194 223 c && cont c1) eqn:E1; [simpl; apply andb_prop in E1 as [_ E1]; by rewrite Hcont|].
  destruct s as [|c2 s]; [done|].
  match goal with |- context [if ?b then (?x, 3%nat) else _] => destruct b eqn:E2 end.
  { simpl. apply andb_prop in E2 as [E2 E2c]. rewrite (Hcont c2) by done.
    rewrite !orb_true_iff, !andb_true_iff in E2. destruct E2 as [[[_ E]|[_ E]]|[_ E]]; rewrite ?(Hcont c1) by done; try done;
      apply Hin in E; try done; by rewrite E. }
  destruct s as [|c3 s]; [done|].
  match goal with |- context [if ?b then (?x, 4%nat) else _] => destruct b eqn:E3 end; [|done].
  simpl. apply andb_prop in E3 as [[E3 E3c]%andb_prop E3d]. rewrite (Hcont c2), (Hcont c3) by done.
  rewrite !orb_true_iff, !andb_true_iff in E3. destruct E3 as [[[_ E]|[_ E]]|[_ E]]; rewrite ?(Hcont c1) by done; try done;
    apply Hin in E; try done; by rewrite E.
Qed.

(** The runes of a UTF-8 text are ASCII bytes and longer runes of other bytes, each of which
    is decoded alike wherever it stands. *)
Inductive text_rune : rune → Prop :=
| ascii_rune c : bz c < 128 → text_rune (bz c, chr c)
| long_rune r c b : all_bytes (λ c, 128 <=? bz c) (String c b) = true → invalid (r, String c b) = false →
    (∀ t, runes (String c b +:+ t) = (r, String c b) :: runes t) → text_rune (r, String c b).

Lemma text_runes s : utf8_Valid s = true → Forall text_rune (runes s).
Proof.
  remember (String.length s) as n eqn:En. assert (String.length s ≤ n)%nat as Hn by lia. clear En.
  revert s Hn. induction n as [|n IH]; intros [|c s] Hn; try done; [simpl in Hn; lia|].
  rewrite utf8_Valid_forall, runes_cons. pose proof (decode_rune_prefix c s) as Hp. pose proof (decode_rune_high c s) as Hh.
  destruct (decode_rune c s) as [r w] eqn:E. rewrite Forall_cons. intros [Hr Hs]. simpl in Hh.
  constructor; [|apply IH; [rewrite length_drop_str; simpl in Hn; lia|by apply utf8_Valid_forall]].
  destruct (Z.ltb_spec (bz c) 128) as [Hc|Hc].
  - rewrite decode_rune_ascii in E by done. injection E as <- <-. destruct s; by constructor.
  - constructor; [simpl; rewrite Hh by done; lia|done|]. intros t. rewrite app_cons_str, runes_cons.
    assert ((r =? RuneError) && (w =? 1)%nat = false) as Hv.
    { unfold invalid in Hr. simpl in Hr. destruct (r =? RuneError); [|done]. simpl in *.
      destruct (Nat.eqb_spec w 1) as [->|]; [|done]. simpl in Hr. by destruct s. }
    destruct (Hp t Hv) as [Hw ->]. rewrite str_take_app_le, str_drop_app_le by (rewrite length_take_str; lia).
    assert (String.length (str_take (pred w) s) = pred w) as Hl by (rewrite length_take_str; lia).
    rewrite <- Hl at 1 3. by rewrite str_take_all, drop_all_str by done.
Qed.

(** *** Escaping *)

Lemma quote_body_cons r rs : String.concat "" (quote_rune <$> r :: rs) = quote_rune r +:+ String.concat "" (quote_rune <$> rs).
Proof. apply concat_cons_str. Qed.

(** The digits of a control character. *)
Definition control_ok (c : ascii) : bool :=
  if bz c <? 32
  then is_hex (hex_digit (bz c / 16)) && is_hex (hex_digit (bz c mod 16))
       && (default 99 (hex_val (hex_digit (bz c / 16))) * 16 + default 99 (hex_val (hex_digit (bz c mod 16))) =? bz c)
       && (bz (hex_digit (bz c / 16)) <? 128) && (bz (hex_digit (bz c mod 16)) <? 128)
  else true.
Lemma control_digits c : control_ok c = true.
Proof. revert c. by apply check_byte; vm_compute. Qed.

Definition plain_byte (c : ascii) : bool := (c <>b QUOTE) && (c <>b BACKSLASH) && (32 <=? bz c).

Lemma string_body_plain b t :
  all_bytes plain_byte b = true → string_body (b +:+ t) = '(x, r) ← string_body t; Some (b +:+ x, r).
Proof.
  induction b as [|c b IH]; [intros _; simpl; by destruct (string_body t) as [[]|]|].
  cbn [all_bytes]. intros [[[Hq Hb]%andb_prop Hc]%andb_prop Hr]%andb_prop. rewrite app_cons_str. cbn [string_body].
  apply negb_true_iff in Hq as ->. apply negb_true_iff in Hb as ->. rewrite (proj2 (Z.ltb_ge _ _)) by lia.
  rewrite IH by done. by destruct (string_body t) as [[]|].
Qed.

Lemma quote_cases r (P : Prop) :
  text_rune r →
  (r = (34, chr QUOTE) → quote_rune r = String BACKSLASH (chr QUOTE) → P) →
  (r = (92, chr BACKSLASH) → quote_rune r = String BACKSLASH (chr BACKSLASH) → P) →
  (∀ c, bz c < 32 → r = (bz c, chr c) →
     quote_rune r = String BACKSLASH (String "u" (String "0" (String "0" (String (hex_digit (bz c / 16)) (chr (hex_digit (bz c mod 16))))))) → P) →
  (quote_rune r = r.2 → all_bytes plain_byte r.2 = true → invalid r = false → r.2 ≠ "\" →
     (∀ t, runes (r.2 +:+ t) = r :: runes t) → P) → P.
Proof.
  intros Hr Hq Hb Hc Hp. destruct Hr as [c Ha|z c b Hb' Hi Ht].
  - unfold quote_rune in *. cbn [snd chr] in *.
    destruct (Ascii.eqb_spec c QUOTE) as [->|Hnq]; [by apply Hq|].
    destruct (Ascii.eqb_spec c BACKSLASH) as [->|Hnb]; [by apply Hb|].
    destruct (Z.ltb_spec (bz c) 32); [by eapply Hc|]. apply Hp; [done|..].
    + simpl. unfold plain_byte. apply Ascii.eqb_neq in Hnq as ->. apply Ascii.eqb_neq in Hnb as ->. simpl. lia.
    + unfold invalid, RuneError. simpl. rewrite andb_true_r. lia.
    + by intros [= ->].
    + intros t. by apply runes_ascii.
  - apply Hp; [| |done| |done].
    + unfold quote_rune. cbn [snd]. destruct b; [|done]. cbn [all_bytes] in Hb'.
      assert (128 ≤ bz c) by lia. destruct (Ascii.eqb_spec c QUOTE) as [->|_]; [done|].
      destruct (Ascii.eqb_spec c BACKSLASH) as [->|_]; [done|]. by rewrite (proj2 (Z.ltb_ge _ _)) by lia.
    + eapply all_bytes_impl; [|exact Hb']. intros d Hd. unfold plain_byte.
      destruct (Ascii.eqb_spec d QUOTE) as [->|_]; [done|]. destruct (Ascii.eqb_spec d BACKSLASH) as [->|_]; [done|]. apply Z.leb_le in Hd. simpl. lia.
    + simpl. by intros [= -> ->].
Qed.

Lemma string_body_quote r t :
  text_rune r → string_body (quote_rune r +:+ t) = '(x, u) ← string_body t; Some (quote_rune r +:+ x, u).
Proof.
  intros Hr. apply (quote_cases r); [done| | | |].
  - intros _ ->. simpl. by destruct (string_body t) as [[]|].
  - intros _ ->. simpl. by destruct (string_body t) as [[]|].
  - intros c Hc _ ->. pose proof (control_digits c) as Hd. unfold control_ok in Hd. rewrite (proj2 (Z.ltb_lt _ _)) in Hd by done.
    rewrite !andb_true_iff in Hd. destruct Hd as [[[[H1 H2] _] _] _].
    remember (hex_digit (bz c / 16)) as a. remember (hex_digit (bz c mod 16)) as b.
    cbn -[is_hex]. change (is_hex "0") with true. rewrite H1, H2. cbn [andb]. by destruct (string_body t) as [[]|].
  - intros -> Hp _ _ _. by apply string_body_plain.
Qed.

Lemma unquote_ascii c t : bz c < 128 → c ≠ BACKSLASH → unquote (String c t) = String c (unquote t).
Proof.
  intros Hc Hb. unfold unquote. rewrite runes_ascii by done. cbn [junits snd].
  destruct (String.eqb_spec (chr c) "\") as [[= ->]|_]; [done|]. cbn [join_units]. unfold clean.
  cbn [fst snd]. assert ((bz c =? RuneError) = false) as -> by (unfold RuneError; lia). done.
Qed.

Lemma unquote_quote_rune r t : text_rune r → unquote (quote_rune r +:+ t) = r.2 +:+ unquote t.
Proof.
  intros Hr. apply (quote_cases r); [done| | | |].
  - intros -> ->. unfold unquote, chr. rewrite !app_cons_str. change ("" +:+ t) with t. rewrite !runes_ascii by done. reflexivity.
  - intros -> ->. unfold unquote, chr. rewrite !app_cons_str. change ("" +:+ t) with t. rewrite !runes_ascii by done. reflexivity.
  - intros c Hc -> ->. pose proof (control_digits c) as Hd. unfold control_ok in Hd. rewrite (proj2 (Z.ltb_lt _ _)) in Hd by done.
    rewrite !andb_true_iff in Hd. destruct Hd as [[[[H1 H2] He] Ha] Hb]. apply Z.eqb_eq in He. unfold is_hex in H1, H2. apply Z.ltb_lt in Ha, Hb.
    remember (hex_digit (bz c / 16)) as a. remember (hex_digit (bz c mod 16)) as b.
    unfold unquote, chr. rewrite !app_cons_str. change ("" +:+ t) with t. rewrite !runes_ascii by done.
    cbn [junits snd]. change (chr BACKSLASH =s "\") with true. change (chr "u" =s "u") with true. cbn [join_units].
    unfold hex_of. cbn [snd chr]. change (default 0 (hex_val "0")) with 0.
    pose proof (bz_range c). assert (16 * (16 * (16 * 0 + 0) + default 0 (hex_val a)) + default 0 (hex_val b) = bz c) as ->.
    { destruct (hex_val a), (hex_val b); try done. unfold default in *. cbn [from_option id] in *. lia. }
    unfold IsSurrogate, utf8_Append. assert ((55296 <=? bz c) = false) as -> by lia.
    assert ((bz c <? 0) = false) as -> by lia. assert ((1114111 <? bz c) = false) as -> by lia.
    assert ((bz c <? 128) = true) as -> by lia. simpl. by rewrite zb_bz.
  - intros -> _ Hi Hb Ht. unfold unquote. rewrite Ht. destruct r as [z b]. cbn [junits snd] in *.
    destruct (String.eqb_spec b "\"); [done|]. cbn [join_units]. unfold clean, invalid in *. by rewrite Hi.
Qed.

Lemma string_body_quote_body s t : utf8_Valid s = true → string_body (quote_body s +:+ String QUOTE t) = Some (quote_body s, t).
Proof.
  intros Hs%text_runes. unfold quote_body. induction Hs as [|r rs Hr _ IH]; [done|].
  by rewrite quote_body_cons, app_assoc_str, string_body_quote, IH.
Qed.

Lemma unquote_quote_body s : utf8_Valid s = true → unquote (quote_body s) = s.
Proof.
  intros Hs%text_runes. rewrite <- (unrunes_runes s) at 2. unfold quote_body.
  induction Hs as [|r rs Hr _ IH]; [done|]. by rewrite quote_body_cons, unquote_quote_rune, unrunes_cons, IH.
Qed.

Lemma quote_body_plain s : utf8_Valid s = true → all_bytes (λ c, 32 <=? bz c) (quote_body s) = true.
Proof.
  intros Hs%text_runes. unfold quote_body. induction Hs as [|r rs Hr _ IH]; [done|].
  rewrite quote_body_cons, all_bytes_app, IH, andb_true_r. apply (quote_cases r); [done| | | |].
  - by intros _ ->.
  - by intros _ ->.
  - intros c Hc _ ->. pose proof (control_digits c) as Hd. unfold control_ok in Hd. rewrite (proj2 (Z.ltb_lt _ _)) in Hd by done.
    assert (∀ d, is_hex d = true → (32 <=? bz d) = true) as Hx.
    { intros d. unfold is_hex, hex_val. repeat case_match; try done; lia. }
    rewrite !andb_true_iff in Hd. destruct Hd as [[[[H1%Hx H2%Hx] _] _] _].
    remember (hex_digit (bz c / 16)) as a. remember (hex_digit (bz c mod 16)) as b. unfold chr. cbn [all_bytes]. by rewrite H1, H2.
  - intros -> Hp _ _ _. eapply all_bytes_impl; [|exact Hp]. intros c. unfold plain_byte. lia.
Qed.

(** ** Tokens *)

Lemma span_bytes_text p s : let '(x, r) := span_bytes p s in s = x +:+ r.
Proof. induction s as [|c s IH]; simpl; [done|]. destruct (p c); [|done]. destruct (span_bytes p s) as [x r]. by rewrite IH. Qed.

Lemma lex_digits_text s x r : lex_digits s = Some (x, r) → s = x +:+ r.
Proof.
  unfold lex_digits. pose proof (span_bytes_text is_digit s) as Ht. destruct (span_bytes is_digit s) as [[|c d] u]; [done|].
  by intros [= <- <-].
Qed.

Lemma lex_number_text s t r : lex_number s = Some (t, r) → s = t +:+ r.
Proof.
  assert (s = (lex_sign s).1 +:+ (lex_sign s).2) as E0.
  { destruct s as [|c s]; simpl; [done|]. by destruct (c =b "-"). }
  unfold lex_number. destruct (lex_sign s) as [sg s1]. simpl in E0.
  intros ([i s2] & E1 & ([f s3] & E2 & ([e s4] & E3 & [= <- <-])%bind_Some)%bind_Some)%bind_Some.
  assert (s1 = i +:+ s2) as ->.
  { destruct s1 as [|c s1]; [done|]. simpl in E1. destruct (c =b "0"); [by simplify_eq|]. destruct (is_digit c); [|done].
    injection E1 as E1. pose proof (span_bytes_text is_digit s1) as Ht. destruct (span_bytes is_digit s1) as [x y]. by simplify_eq. }
  assert (s2 = f +:+ s3) as ->.
  { destruct s2 as [|c s2]; simpl in E2; [by simplify_eq|]. destruct (c =b "."); [|by simplify_eq].
    apply bind_Some in E2 as ([d u] & ->%lex_digits_text & [= <- <-]). done. }
  assert (s3 = e +:+ s4) as ->.
  { destruct s3 as [|c s3]; simpl in E3; [by simplify_eq|]. destruct (is_exp c); [|by simplify_eq].
    apply bind_Some in E3 as ([d u] & E3 & [= <- <-]). destruct s3 as [|c' s3]; [done|]. cbn [lex_exp_digits] in E3.
    destruct (is_sign c'); [apply bind_Some in E3 as ([d' u'] & ->%lex_digits_text & [= <- <-])|apply lex_digits_text in E3 as ->]; done. }
  by rewrite E0, !app_assoc_str.
Qed.

Lemma string_body_text n s b r : (String.length s ≤ n)%nat → string_body s = Some (b, r) → s = b +:+ String QUOTE r.
Proof.
  revert s b r. induction n as [|n IH]; intros [|c s] b r Hn; try done; [simpl in Hn; lia|]. cbn [string_body]. simpl in Hn.
  destruct (Ascii.eqb_spec c QUOTE) as [->|_]; [by intros [= <- <-]|].
  destruct (c =b BACKSLASH).
  - destruct s as [|e s]; [done|]. simpl in Hn. destruct (e =b "u").
    + destruct s as [|h1 [|h2 [|h3 [|h4 s]]]]; try done. simpl in Hn. case_match; [|done].
      intros ([b' r'] & E & [= <- <-])%bind_Some. by rewrite (IH s b' r') by (done || lia).
    + destruct (escape_code e); [|done]. intros ([b' r'] & E & [= <- <-])%bind_Some. by rewrite (IH s b' r') by (done || lia).
  - destruct (bz c <? 32); [done|]. intros ([b' r'] & E & [= <- <-])%bind_Some. by rewrite (IH s b' r') by (done || lia).
Qed.

(** A token is its text. *)
Lemma lexeme_at_text s t l r : lexeme_at s = Some (t, l, r) → s = t +:+ r ∧ t ≠ "".
Proof.
  destruct s as [|c s]; [done|]. unfold lexeme_at. destruct (punctuation c); [by intros [= <- <- <-]|].
  destruct (Ascii.eqb_spec c QUOTE) as [->|_].
  - intros ([b u] & E & [= <- <- <-])%bind_Some. rewrite (string_body_text _ s b u (le_n _) E).
    rewrite app_cons_str, app_assoc_str. done.
  - destruct (is_digit c || (c =b "-")).
    + intros ([x u] & E & [= <- <- <-])%bind_Some. split; [by apply lex_number_text|]. intros ->.
      apply lex_number_text in E as E'. unfold lex_number in E. destruct (lex_sign _) as [sg s1].
      apply bind_Some in E as ([i s2] & E1 & ([f s3] & E2 & ([e s4] & E3 & [= E _])%bind_Some)%bind_Some).
      destruct sg; [|done]. destruct i; [|done]. destruct s1 as [|c1 s1]; [done|]. simpl in E1.
      destruct (c1 =b "0"); [done|]. destruct (is_digit c1); [|done]. by destruct (span_bytes is_digit s1).
    + unfold lex_literal. repeat (case_match; [intros [= <- <- <-]; split; [|done]|]); [..|done];
        match goal with H : HasPrefix _ _ = true |- _ => apply HasPrefix_spec in H as (u & ->) end; by rewrite TrimPrefix_app.
Qed.

#[export] Instance token_round_consuming : Consuming token_round.
Proof.
  intros s acc s' acc' Hs. unfold token_round. pose proof (span_bytes_text is_ws s) as Hsp.
  destruct (span_bytes is_ws s) as [sp s1]. destruct (String.eqb_spec s1 "") as [->|Hs1].
  - intros [= <- <-]. by destruct s; [|simpl; lia].
  - destruct (lexeme_at s1) as [[[t l] r]|] eqn:E; [|done]. intros [= <- <-]. apply lexeme_at_text in E as [-> Ht].
    subst s. rewrite !length_app_str. destruct t; simpl; [done|lia].
Qed.

(** *** The tokens of printed text *)

Definition tok (l : lexeme) : token := Tok "" (text_of l) l.

(** No number runs into what follows it. *)
Fixpoint apart (ls : list lexeme) (t : string) : bool :=
  match ls with
  | [] => true
  | l :: ls' => match l with LNum _ => num_end (texts ls' +:+ t) | _ => true end && apart ls' t
  end.

Lemma texts_cons l ls : texts (l :: ls) = text_of l +:+ texts ls.
Proof. apply concat_cons_str. Qed.
Lemma texts_app ls1 ls2 : texts (ls1 ++ ls2) = texts ls1 +:+ texts ls2.
Proof. induction ls1 as [|l ls1 IH]; [done|]. by rewrite <- app_comm_cons, !texts_cons, IH, app_assoc_str. Qed.

Lemma literal_head n : is_literal n = true → ∃ c n', n = String c n' ∧ is_digit c || (c =b "-") = true.
Proof.
  unfold is_literal, lex_number. destruct n as [|c n]; [done|]. intros E. exists c, n. split; [done|].
  destruct (is_digit c) eqn:Hd; [done|]. destruct (c =b "-") eqn:Hm; [done|]. exfalso. revert E. cbn [lex_sign]. rewrite Hm.
  cbn [lex_int]. rewrite Hd. destruct (Ascii.eqb_spec c "0") as [->|_]; [by vm_compute in Hd|done].
Qed.

Lemma number_head c :
  is_digit c || (c =b "-") = true → match punctuation c with None => true | _ => false end && negb (c =b QUOTE) = true.
Proof. apply implb_true_iff. revert c. by apply check_byte; vm_compute. Qed.

Lemma lexeme_at_print l t :
  lexeme_ok l = true → (match l with LNum _ => num_end t | _ => true end = true) →
  lexeme_at (text_of l +:+ t) = Some (text_of l, l, t).
Proof.
  destruct l as [| | | | | | |[]|n|s]; intros Hok Ht; try done.
  - cbn [text_of] in *. destruct (literal_head n Hok) as (c & n' & E & Hc). pose proof (lex_number_app n t Hok Ht) as En.
    rewrite E, app_cons_str in *. unfold lexeme_at. rewrite Hc.
    assert (punctuation c = None ∧ (c =b QUOTE) = false) as [-> ->].
    { apply number_head in Hc. by destruct (punctuation c), (c =b QUOTE). }
    by rewrite En.
  - cbn [text_of lexeme_ok] in *. unfold quote. rewrite app_cons_str, app_assoc_str. change (chr QUOTE +:+ t) with (String QUOTE t).
    cbn [lexeme_at]. change (punctuation QUOTE) with (@None lexeme). cbn [option_bind]. change (QUOTE =b QUOTE) with true. cbn iota.
    rewrite string_body_quote_body by done. simpl. by rewrite unquote_quote_body.
Qed.

Lemma span_none p c s : p c = false → span_bytes p (String c s) = ("", String c s).
Proof. intros H. simpl. by rewrite H. Qed.

Lemma text_of_head l : lexeme_ok l = true → ∃ c s, text_of l = String c s ∧ is_ws c = false.
Proof.
  destruct l as [| | | | | | |[]|n|s]; intros Hok; try (by eexists _, _).
  destruct (literal_head n Hok) as (c & n' & -> & Hc). exists c, n'. split; [done|]. revert Hc.
  unfold is_digit, is_ws. destruct (Ascii.eqb_spec c "-") as [->|_]; [done|]. lia.
Qed.

Lemma token_round_print l t acc :
  lexeme_ok l = true → (match l with LNum _ => num_end t | _ => true end = true) →
  token_round (text_of l +:+ t) acc = Ok (t, acc ++ [tok l]).
Proof.
  intros Hok Ht. pose proof (lexeme_at_print l t Hok Ht) as E. destruct (text_of_head l Hok) as (c & s & Es & Hc).
  unfold token_round. assert (span_bytes is_ws (text_of l +:+ t) = ("", text_of l +:+ t)) as ->.
  { rewrite Es, app_cons_str. by apply span_none. }
  rewrite E. rewrite Es at 1. done.
Qed.

Lemma scan_print ls t acc :
  forallb lexeme_ok ls = true → apart ls t = true →
  scan token_round (texts ls +:+ t) acc = scan token_round t (acc ++ (tok <$> ls)).
Proof.
  revert acc. induction ls as [|l ls IH]; intros acc; [by rewrite app_nil_r|]. cbn [forallb apart].
  intros [Hl Hok]%andb_prop [Ha Hap]%andb_prop. rewrite texts_cons, app_assoc_str, (scan_unfold token_round).
  rewrite token_round_print by done. destruct (text_of_head l Hl) as (c & s & -> & _).
  rewrite app_cons_str. cbn -[scan]. rewrite IH by done. by rewrite <- app_assoc.
Qed.

Lemma apart_separated xs ls t :
  Forall (λ x, ∀ ls, apart ls t = true → num_end (texts ls +:+ t) = true → apart (x ++ ls) t = true) xs →
  apart ls t = true → num_end (texts ls +:+ t) = true → apart (separated xs ++ ls) t = true.
Proof.
  intros Hx. revert ls. induction Hx as [|x xs Hx Hxs IH]; intros ls Hl Hn; [done|]. destruct xs as [|y xs]; [by apply Hx|].
  change (separated (x :: y :: xs)) with (x ++ Comma :: separated (y :: xs)). rewrite <- app_assoc, <- app_comm_cons.
  apply Hx; [by apply IH|by rewrite texts_cons].
Qed.

Lemma apart_lexemes j t ls : apart ls t = true → num_end (texts ls +:+ t) = true → apart (lexemes j ++ ls) t = true.
Proof.
  revert ls. induction j as [| | | |l IH|ms IH] using json_ind'; intros ls Hl Hn; cbn [lexemes];
    try (cbn [app apart]; by rewrite ?Hl, ?Hn).
  - rewrite <- app_comm_cons, <- app_assoc. cbn [apart]. apply apart_separated; [by apply Forall_fmap|done|].
    cbn [app]. by rewrite texts_cons.
  - rewrite <- app_comm_cons, <- app_assoc. cbn [apart]. apply apart_separated; [|done|cbn [app]; by rewrite texts_cons].
    apply Forall_fmap. eapply Forall_impl; [exact IH|]. intros [k j] Hj ls' Hl' Hn'. by apply Hj.
Qed.

Lemma tokens_print j t ts :
  well_formed j = true → num_end t = true →
  scan token_round t (tok <$> lexemes j) = Ok ts → tokens (print j +:+ t) = Ok ts.
Proof.
  intros Hw Hn Ht. unfold tokens, print. rewrite scan_print; [done|done|].
  rewrite <- (app_nil_r (lexemes j)). by apply apart_lexemes.
Qed.

(** ** The automaton *)

Lemma foldr_max_le (l : list Z) n : (foldr Z.max 0 l <= n) ↔ 0 <= n ∧ Forall (λ x, x <= n) l.
Proof.
  induction l as [|x l IH]; simpl; [rewrite Forall_nil; tauto|]. rewrite Forall_cons. split.
  - intros H. assert (foldr Z.max 0 l <= n) as [? ?]%IH by lia. split_and!; [done|lia|done].
  - intros (Hn & Hx & Hl). assert (foldr Z.max 0 l <= n) by (by apply IH). lia.
Qed.

Definition room (stk : list frame) (d : Z) : Prop := Z.of_nat (length stk) + d <= maxNestingDepth.

Definition reads (j : json) : Prop :=
  ∀ b stk ls, room stk (depth j) → prun (PValue b stk) (lexemes j ++ ls) = prun (PAfter j stk) ls.

Lemma prun_items stk ls x l acc b :
  Forall reads (x :: l) → Forall (λ j, room (FArr [] :: stk) (depth j)) (x :: l) →
  prun (PValue b (FArr acc :: stk)) (separated (lexemes <$> x :: l) ++ RBracket :: ls)
  = prun (PAfter (JArr (acc ++ x :: l)) stk) ls.
Proof.
  revert acc x b. induction l as [|y l IH]; intros acc x b [Hx Hxs]%Forall_cons [Hr Hrs]%Forall_cons.
  - cbn [fmap list_fmap separated]. by rewrite Hx.
  - change (separated (lexemes <$> x :: y :: l)) with (lexemes x ++ Comma :: separated (lexemes <$> y :: l)).
    rewrite <- app_assoc, Hx by done. cbn [app prun pnext option_bind mbind]. rewrite IH by done. by rewrite <- app_assoc.
Qed.

Definition member_lexemes (m : string * json) : list lexeme := LStr m.1 :: Colon :: lexemes m.2.

Lemma prun_members stk ls m ms acc b :
  Forall (reads ∘ snd) (m :: ms) → Forall (λ m, room (FArr [] :: stk) (depth m.2)) (m :: ms) →
  prun (PKey b acc stk) (separated (member_lexemes <$> m :: ms) ++ RBrace :: ls)
  = prun (PAfter (JObj (acc ++ m :: ms)) stk) ls.
Proof.
  revert acc m b. induction ms as [|m' ms IH]; intros acc [k j] b [Hx Hxs]%Forall_cons [Hr Hrs]%Forall_cons;
    unfold compose in Hx; cbn [snd] in *.
  - cbn [fmap list_fmap separated member_lexemes fst snd app prun pnext]. destruct b; cbn [pnext option_bind mbind]; by rewrite Hx.
  - change (separated (member_lexemes <$> (k, j) :: m' :: ms)) with (LStr k :: Colon :: lexemes j ++ Comma :: separated (member_lexemes <$> m' :: ms)).
    cbn [app prun]. rewrite <- app_assoc.
    assert (pnext (PKey b acc stk) (LStr k) = Some (PColon acc k stk)) as -> by by destruct b.
    cbn [pnext option_bind mbind]. rewrite Hx by done. cbn [app prun pnext option_bind mbind]. rewrite IH by done. by rewrite <- app_assoc.
Qed.

Lemma depth_nonneg j : 0 <= depth j.
Proof.
  assert (∀ l : list Z, 0 <= foldr Z.max 0 l) by (induction l; simpl; lia).
  destruct j as [| | | |l|ms]; simpl; try lia; [pose proof (H (depth <$> l))|pose proof (H ((λ m, depth m.2) <$> ms))]; lia.
Qed.

Lemma rooms {A} (d : A → Z) (l : list A) stk :
  room stk (1 + foldr Z.max 0 (d <$> l)) → fits stk = true ∧ Forall (λ x, room (FArr [] :: stk) (d x)) l.
Proof.
  unfold room, fits. intros H.
  assert (foldr Z.max 0 (d <$> l) <= maxNestingDepth - 1 - Z.of_nat (length stk)) as [H0 Hl]%foldr_max_le by lia.
  split; [lia|]. rewrite Forall_fmap in Hl. eapply Forall_impl; [exact Hl|]. intros x Hx. unfold compose in Hx. cbn [length]. lia.
Qed.

Lemma prun_lexemes j : reads j.
Proof.
  induction j as [|c|n|s|l IH|ms IH] using json_ind'; intros b stk ls Hr; [by destruct b, stk as [|[[]|] ?]..| |].
  - cbn [depth] in Hr. apply rooms in Hr as [Hf Hrooms]. cbn [lexemes]. rewrite <- app_comm_cons, <- app_assoc. cbn [prun].
    assert (pnext (PValue b stk) LBracket = Some (PValue true (FArr [] :: stk))) as ->.
    { destruct b, stk as [|[[]|] ?]; cbn [pnext]; by rewrite Hf. }
    destruct l as [|x l]; [done|]. cbn [option_bind mbind app]. by apply (prun_items _ _ _ _ []).
  - cbn [depth] in Hr. apply rooms in Hr as [Hf Hrooms]. cbn [lexemes]. rewrite <- app_comm_cons, <- app_assoc. cbn [prun].
    assert (pnext (PValue b stk) LBrace = Some (PKey true [] stk)) as ->.
    { destruct b, stk as [|[[]|] ?]; cbn [pnext]; by rewrite Hf. }
    destruct ms as [|m ms]; [done|]. cbn [option_bind mbind app]. by apply (prun_members _ _ _ _ []).
Qed.

(** ** [Unmarshal] of printed documents *)

Lemma parse_print j : well_formed j = true → depth j <= maxNestingDepth → parse (print j) = Ok j.
Proof.
  intros Hw Hd. unfold parse. rewrite <- (app_nil_r_str (print j)), (tokens_print j "" (tok <$> lexemes j)) by done.
  cbn [res_bind mbind]. assert (tk_lex <$> (tok <$> lexemes j) = lexemes j ++ []) as ->.
  { rewrite app_nil_r, <- list_fmap_compose. apply list_fmap_id. }
  rewrite prun_lexemes; [done|]. by unfold room.
Qed.

Lemma token_round_acc s acc : token_round s acc = ('(r, l) ← token_round s []; Ok (r, acc ++ l)).
Proof.
  unfold token_round. destruct (span_bytes is_ws s) as [sp s1]. destruct (s1 =s ""); [cbn; by rewrite app_nil_r|].
  by destruct (lexeme_at s1) as [[[x l] r]|].
Qed.

Lemma scan_tokens_acc t acc : scan token_round t acc = (ts ← scan token_round t []; Ok (acc ++ ts)).
Proof.
  remember (String.length t) as n eqn:En. assert (String.length t ≤ n)%nat as Hn by lia. clear En.
  revert t Hn acc. induction n as [|n IH]; intros [|c t] Hn acc; [by cbn; rewrite app_nil_r|simpl in Hn; lia|by cbn; rewrite app_nil_r|].
  rewrite !(scan_unfold token_round (String c t)), token_round_acc.
  destruct (token_round (String c t) []) as [[r l]| |] eqn:E; [|done..]. cbn -[scan].
  apply token_round_consuming in E; [|done]. assert (String.length r ≤ n)%nat as Hr by (simpl in *; lia).
  rewrite (IH r Hr (acc ++ l)), (IH r Hr l). destruct (scan token_round r []); cbn -[scan]; [|done..]. by rewrite <- app_assoc.
Qed.

(** A document followed by something else than white space is refused. *)
Lemma parse_app j t :
  well_formed j = true → depth j <= maxNestingDepth → num_end t = true →
  parse (print j +:+ t) = match scan token_round t [] with
                          | Ok [] => Ok j | Ok _ => Err syntax_error | Err e => Err e | Panic p => Panic p
                          end.
Proof.
  intros Hw Hd Ht. unfold parse, tokens, print. rewrite scan_print; [|done|].
  2: { rewrite <- (app_nil_r (lexemes j)). by apply apart_lexemes. }
  rewrite app_nil_l, scan_tokens_acc. destruct (scan token_round t []) as [ts| |]; [|done..]. cbn -[fmap].
  assert (tk_lex <$> ((tok <$> lexemes j) ++ ts) = lexemes j ++ (tk_lex <$> ts)) as ->.
  { rewrite fmap_app. f_equal. rewrite <- list_fmap_compose. apply list_fmap_id. }
  rewrite prun_lexemes by (by unfold room). by destruct ts.
Qed.

(** The members of an object, the later of two of a name first. *)
Definition object_map (ms : list (string * json)) : option fields :=
  (λ kvs, list_to_map (reverse kvs)) <$> mapM (λ '(k, j), pair k <$> value_of j) ms.

Lemma Unmarshal_print ms m :
  well_formed (JObj ms) = true → depth (JObj ms) <= maxNestingDepth → object_map ms = Some m →
  Unmarshal_map (print (JObj ms)) = Ok (Some m).
Proof.
  intros Hw Hd Hm. unfold Unmarshal_map. rewrite parse_print by done. cbn [res_bind mbind value_of].
  unfold object_map in Hm. destruct (mapM _ ms); [|done]. by injection Hm as <-.
Qed.

(** ** The items of a printed array *)

Definition skips (ls : list lexeme) : Prop :=
  ∀ d cur ts, 0 <= d → split_items d cur ((tok <$> ls) ++ ts) = split_items d (cur ++ (tok <$> ls)) ts.

Lemma split_separated xs d cur ts :
  0 < d → Forall skips xs → split_items d cur ((tok <$> separated xs) ++ ts) = split_items d (cur ++ (tok <$> separated xs)) ts.
Proof.
  intros Hd Hx. revert cur. induction Hx as [|x xs Hx Hxs IH]; intros cur; [by rewrite app_nil_r|]. destruct xs as [|y xs]; [apply Hx; lia|].
  change (separated (x :: y :: xs)) with (x ++ Comma :: separated (y :: xs)). rewrite fmap_app, fmap_cons, <- app_assoc, Hx by lia.
  cbn [app split_items tk_lex tok]. rewrite (proj2 (Z.eqb_neq d 0)) by lia. rewrite IH. by rewrite <- !app_assoc.
Qed.

Lemma split_lexemes j : skips (lexemes j).
Proof.
  induction j as [|c|n|s|l IH|ms IH] using json_ind'; intros d cur ts Hd; [done..| |]; cbn [lexemes];
    rewrite fmap_cons, fmap_app, <- app_comm_cons, <- app_assoc; cbn [split_items tk_lex tok];
    (rewrite split_separated; [|lia|]).
  - cbn [fmap list_fmap app split_items tk_lex tok]. rewrite (proj2 (Z.eqb_neq (d + 1) 0)) by lia.
    replace (d + 1 - 1) with d by lia. by rewrite <- !app_assoc.
  - by apply Forall_fmap.
  - cbn [fmap list_fmap app split_items tk_lex tok]. replace (d + 1 - 1) with d by lia. by rewrite <- !app_assoc.
  - apply Forall_fmap. eapply Forall_impl; [exact IH|]. intros m Hm e cur' ts' He. unfold compose in *.
    cbn [fmap list_fmap app split_items tk_lex tok]. rewrite Hm by done. by rewrite <- !app_assoc.
Qed.

Lemma split_array_items l :
  split_items 0 [] ((tok <$> separated (lexemes <$> l)) ++ [tok RBracket]) = (λ j, tok <$> lexemes j) <$> l.
Proof.
  destruct l as [|x l]; [done|]. revert x. induction l as [|y l IH]; intros x.
  - cbn [fmap list_fmap separated]. rewrite split_lexemes by done. cbn [app split_items tk_lex tok]. change (0 =? 0) with true. cbn iota.
    by destruct x.
  - change (separated (lexemes <$> x :: y :: l)) with (lexemes x ++ Comma :: separated (lexemes <$> y :: l)).
    rewrite fmap_app, fmap_cons, <- app_assoc, split_lexemes by done. cbn [app split_items tk_lex tok].
    change (0 =? 0) with true. cbn iota. rewrite IH. done.
Qed.

Lemma raw_text_print ls : raw_text (tok <$> ls) = texts ls.
Proof. induction ls as [|l ls IH]; [done|]. cbn [fmap list_fmap raw_text tok tk_space tk_text]. by rewrite texts_cons, IH. Qed.

Lemma raw_message_print j : raw_message (tok <$> lexemes j) = print j.
Proof.
  unfold print. rewrite <- raw_text_print. by destruct (lexemes j).
Qed.

Lemma Unmarshal_raws_print l :
  well_formed (JArr l) = true → depth (JArr l) <= maxNestingDepth →
  Unmarshal_raws (print (JArr l)) = Ok (print <$> l).
Proof.
  intros Hw Hd. unfold Unmarshal_raws. rewrite parse_print by done.
  rewrite <- (app_nil_r_str (print (JArr l))), (tokens_print _ "" (tok <$> lexemes (JArr l))) by done.
  cbn [res_bind mbind lexemes]. rewrite fmap_cons, fmap_app. cbn [tail].
  change (tok <$> [RBracket]) with [tok RBracket]. rewrite split_array_items. f_equal.
  rewrite <- list_fmap_compose. apply list_fmap_ext. intros _ j _. apply raw_message_print.
Qed.
