(* ===== verification/GoHttp.v ===== *)
(** * Go's [net/url] and [net/http], as far as the management API uses them

    Query strings, the routing of [http.ServeMux] over escaped paths, [http.MaxBytesReader]
    and [json.Decoder] on a request's body, and the decoding of an object into a struct. *)

From S2P Require Import Prelude GoStrings GoNum GoPath GoJson.

(** ** [net/url]: escapes and queries *)

(** A percent sign is followed by two hexadecimal digits; a plus sign is a space in a query. *)
Fixpoint unescape (plus : bool) (s : string) : option string :=
  match s with
  | "" => Some ""
  | String c s1 =>
      if c =b "%"%char then
        match s1 with
        | String h (String l s2) =>
            x ← hex_val h; y ← hex_val l; r ← unescape plus s2; Some (String (zb (16 * x + y)) r)
        | _ => None
        end
      else r ← unescape plus s1; Some (String (if plus && (c =b "+"%char) then " "%char else c) r)
  end.
Definition PathUnescape (s : string) : option string := unescape false s.
Definition QueryUnescape (s : string) : option string := unescape true s.

(** [strings.Cut] at one byte; without it, all of the text and nothing. *)
Definition CutByte (s : string) (c : ascii) : string * string :=
  match IndexByte s c with Some i => (str_take i s, str_drop (S i) s) | None => (s, "") end.

Definition query_pair (s : string) : option (string * string) :=
  if (s =s "") || Contains s ";" then None
  else let '(k, v) := CutByte s "=" in k' ← QueryUnescape k; v' ← QueryUnescape v; Some (k', v').
(** [r.URL.Query()] drops what it cannot read. *)
Definition ParseQuery (query : string) : list (string * string) := omap query_pair (Split query "&").
(** [Values.Get] *)
Definition query_Get (q : list (string * string)) (k : string) : string :=
  match List.find (λ kv, kv.1 =s k) q with Some kv => kv.2 | None => "" end.

Example query_ex :
  let q := ParseQuery "limit=5&q=a+b%2Fc&limit=9&bad=%zz&x;y=1&flag" in
  (query_Get q "limit", query_Get q "q", query_Get q "bad", query_Get q "flag", query_Get q "x;y") = ("5", "a b/c", "", "", "").
Proof. vm_compute. reflexivity. Qed.

(** ** Requests *)

Record Request := {
  rq_Method : string;
  rq_Path : string;                          (* [r.URL.EscapedPath()] *)
  rq_RawQuery : string;
  rq_Header : string → string;               (* [r.Header.Get], by canonical name *)
  rq_Body : string; rq_BodyErr : option error;     (* the bytes that arrive, and how reading them ends *)
}.

Definition query_of (r : Request) : list (string * string) := ParseQuery (rq_RawQuery r).

(** ** [http.ServeMux] *)

Inductive segment := Lit (s : string) | Wild (name : string).

(** The escaped path in its segments, each unescaped where that is possible; the last one is
    empty where the path ends with a slash. *)
Definition path_segments (p : string) : list string := (λ e, default e (PathUnescape e)) <$> tail (Split p "/").

(** The values of the wildcards; a wildcard matches neither a trailing slash nor a segment that
    is one slash. *)
Fixpoint match_segments (pat : list segment) (path : list string) : option (list (string * string)) :=
  match pat, path with
  | [], [] => Some []
  | Lit s :: pat', e :: path' => if s =s e then match_segments pat' path' else None
  | Wild n :: pat', e :: path' =>
      if (e =s "") || (e =s "/") then None else vs ← match_segments pat' path'; Some ((n, e) :: vs)
  | _, _ => None
  end.

(** A pattern without a method matches each; [GET] matches [HEAD] as well. *)
Definition match_method (pat m : string) : bool := (pat =s "") || (pat =s m) || ((pat =s "GET") && (m =s "HEAD")).

Record Pattern := { pt_Method : string; pt_Path : list segment }.
Definition match_pattern (p : Pattern) (m : string) (path : list string) : option (list (string * string)) :=
  if match_method (pt_Method p) m then match_segments (pt_Path p) path else None.

(** Can one path match both? *)
Fixpoint segments_overlap (a b : list segment) : bool :=
  match a, b with
  | [], [] => true
  | Lit s :: a', Lit t :: b' => (s =s t) && segments_overlap a' b'
  | Wild _ :: a', Lit t :: b' => (t <>s "") && (t <>s "/") && segments_overlap a' b'
  | Lit s :: a', Wild _ :: b' => (s <>s "") && (s <>s "/") && segments_overlap a' b'
  | Wild _ :: a', Wild _ :: b' => segments_overlap a' b'
  | _, _ => false
  end.
Definition methods_overlap (a b : string) : bool := match_method a b || match_method b a.
Definition patterns_overlap (p q : Pattern) : bool :=
  methods_overlap (pt_Method p) (pt_Method q) && segments_overlap (pt_Path p) (pt_Path q).

(** [cleanPath]: a trailing slash stays. *)
Definition cleanPath (p : string) : string :=
  if p =s "" then "/"
  else
    let p := if HasPrefix p "/" then p else "/" +:+ p in
    let np := path_Clean p in
    if HasSuffix p "/" && (np <>s "/") then np +:+ "/" else np.

(** ** Bodies *)

(** One JSON value from the front of the text, as [json.Decoder.Decode] reads it; [None] where
    the text ends first. *)
Fixpoint stream_loop (fuel : nat) (s : string) (p : pstate) : option (res json) :=
  match p with
  | PAfter j [] => Some (Ok j)
  | _ =>
      match fuel with
      | O => None
      | S fuel' =>
          let '(_, s1) := span_bytes is_ws s in
          if s1 =s "" then None
          else match lexeme_at s1 with
               | None => Some (Err syntax_error)
               | Some (_, l, r) => match pnext p l with None => Some (Err syntax_error) | Some p' => stream_loop fuel' r p' end
               end
      end
  end.
(** Each round reads a byte at least. *)
Definition stream_value (s : string) : option (res json) := stream_loop (S (String.length s)) s (PValue false []).

(** [http.MaxBytesReader(w, r.Body, n)] *)
Definition MaxBytesReader (n : Z) (r : Request) : Request :=
  {| rq_Method := rq_Method r; rq_Path := rq_Path r; rq_RawQuery := rq_RawQuery r; rq_Header := rq_Header r;
     rq_Body := str_take (Z.to_nat n) (rq_Body r);
     rq_BodyErr := if n <? slen (rq_Body r) then Some (errors_New "http: request body too large") else rq_BodyErr r |}.

(** [json.NewDecoder(r.Body).Decode] up to the value *)
Definition decode_value (r : Request) : res json :=
  match stream_value (rq_Body r) with
  | Some v => v
  | None => Err (default (errors_New "EOF") (rq_BodyErr r))
  end.

(** ** Decoding into a struct

    The field of a member is that of the same name, or of the same name up to case; the text of
    a member that does not fit is skipped and makes the whole decoding an error. *)

(** [foldRune]; of the letters beyond ASCII two fold to ASCII. *)
Definition fold_rune (c : Z) : Z :=
  if (97 <=? c) && (c <=? 122) then c - 32 else if c =? 383 then 83 else if c =? 8490 then 75 else c.
Definition fold_name (s : string) : list Z := fold_rune ∘ fst <$> runes s.
Definition is_field (name key : string) : bool := bool_decide (fold_name key = fold_name name).

Definition members (j : json) : list (string * json) := match j with JObj ms => ms | _ => [] end.
Definition field_values (name : string) (j : json) : list json := snd <$> List.filter (λ kv, is_field name kv.1) (members j).

(** The last value that fits wins, and [null] changes nothing. *)
Definition str_field (name : string) (j : json) : string :=
  foldl (λ v j, match j with JStr s => s | _ => v end) "" (field_values name j).
Definition bool_field (name : string) (j : json) : bool :=
  foldl (λ v j, match j with JBool b => b | _ => v end) false (field_values name j).
(** A pointer to a boolean, which [null] makes nil. *)
Definition bool_ptr_field (name : string) (j : json) : option bool :=
  foldl (λ v j, match j with JBool b => Some b | JNull => None | _ => v end) None (field_values name j).

Inductive kind := KStr | KBool.
Definition fits_kind (k : kind) (j : json) : bool :=
  match k, j with _, JNull | KStr, JStr _ | KBool, JBool _ => true | _, _ => false end.
Definition fits_struct (fields : list (string * kind)) (j : json) : bool :=
  match j with
  | JNull => true
  | JObj _ => forallb (λ nk, forallb (fits_kind nk.2) (field_values nk.1 j)) fields
  | _ => false
  end.

(** [Decode(&req)] for a struct of these fields *)
Definition decode_struct (fields : list (string * kind)) (r : Request) : res json :=
  j ← decode_value r;
  if fits_struct fields j then Ok j else Err type_error.

Example struct_ex :
  let q s := chr QUOTE +:+ s +:+ chr QUOTE in
  let body := " {" +:+ q "Name" +:+ ":" +:+ q "a" +:+ ", " +:+ q "name" +:+ ":null," +:+ q "pin" +:+ ":true," +:+ q "x" +:+ ":[1]} rest" in
  let req b := {| rq_Method := "POST"; rq_Path := "/"; rq_RawQuery := ""; rq_Header := λ _, ""; rq_Body := b; rq_BodyErr := None |} in
  let fs := [("name", KStr); ("pin", KBool)] in
  ((λ j, (str_field "name" j, bool_ptr_field "pin" j, str_field "version" j)) <$> decode_struct fs (req body)) = Ok ("a", Some true, "")
  ∧ decode_struct fs (req ("{" +:+ q "pin" +:+ ":3}")) = Err type_error
  ∧ decode_struct fs (req ("{" +:+ q "pin")) = Err (errors_New "EOF")
  ∧ decode_struct fs (req "") = Err (errors_New "EOF").
Proof. vm_compute. repeat split. Qed.
