(* ===== verification/Decoder.v ===== *)
(** * [internal/decode]: the decoder interface and its safety limits

    [Decoder] is the Go interface; [LawfulDecoder] is what the registry and the
    pipeline rely on: an oversized payload is refused, and the child records of
    a batch are numbered from 0. *)

From S2P Require Import Prelude GoStrings Model.

(** ** limits.go *)

Definition MaxPayloadBytes : Z := 10 * 1024 * 1024.
Definition MaxChildren : Z := 10000.
Definition MaxFields : Z := 1000.
Definition MaxDepth : Z := 32.
Definition MaxTextLine : Z := 64 * 1024.

(** ** decoder.go *)

(** A confidence score in hundredths: 99 is the Go constant [0.99].  The program
    only ever compares these constants, whose order is that of their hundredths. *)
Definition confidence := Z.

Record Decoder := {
  Name : string;
  Detect : string → confidence;
  Decode : string → res (list DecodedRecord);
}.

Definition ordinals (recs : list DecodedRecord) : list Z := RecordOrdinal <$> recs.

Class LawfulDecoder (d : Decoder) := {
  detect_range raw : 0 ≤ Detect d raw ≤ 100;
  decode_bounded raw recs : Decode d raw = Ok recs → slen raw ≤ MaxPayloadBytes;
  decode_ordinals raw recs : Decode d raw = Ok recs → ordinals recs = seqZ 0 (Z.of_nat (length recs));
}.

(** A decoder that returns, with a value or an error, on every payload. *)
Class TotalDecoder (d : Decoder) := decode_total raw : no_panic (Decode d raw).

(** A record whose maps may be assigned to. *)
Definition non_nil (r : DecodedRecord) : bool :=
  match Headers r, Fields r with Some _, Some _ => true | _, _ => false end.

Class NonNilDecoder (d : Decoder) :=
  decode_non_nil raw recs : Decode d raw = Ok recs → Forall (λ r, non_nil r = true) recs.

(** The single record of the one-record formats. *)
Definition single_record (format : string) (headers flds : fields) (raw : string) : DecodedRecord :=
  {| dr_RawID := ""; RecordOrdinal := 0; Format := format;
     Headers := Some headers; Fields := Some flds; RawPayload := raw |}.

(** A value nested at most [n] deep. *)
Fixpoint shallow (n : nat) (v : value) : Prop :=
  match v with
  | VMap m => match n with O => False | S n' => map_Forall (λ _, shallow n') m end
  | VList l => match n with O => False | S n' => Forall (shallow n') l end
  | _ => True
  end.

Definition bounded_fields (m : gomap) : Prop := match m with Some f => shallow (Z.to_nat MaxDepth) (VMap f) | None => True end.

Lemma ordinals_single f h fl raw : ordinals [single_record f h fl raw] = seqZ 0 1.
Proof. done. Qed.

Lemma ordinals_cons r recs i :
  RecordOrdinal r = i → ordinals recs = seqZ (i + 1) (Z.of_nat (length recs)) →
  ordinals (r :: recs) = seqZ i (Z.of_nat (length (r :: recs))).
Proof.
  intros Hr Hs. unfold ordinals in *. rewrite fmap_cons, Hr, Hs. cbn [length].
  rewrite (seqZ_cons i) by lia. repeat f_equal; lia.
Qed.

(** [v, ok := rec.Fields[k]] and [rec.Headers[k]] *)
Definition field (r : DecodedRecord) (k : string) : option value := entries (Fields r) !! k.
Definition header (r : DecodedRecord) (k : string) : option value := entries (Headers r) !! k.

(** Copying a map of texts into a map of dynamic values: [for k, v := range m]. *)
Definition text_values (m : gmap string string) : fields := VStr <$> m.

(** [for k, v := range src { dst[k] = v }] *)
Definition copy_into (src dst : fields) : fields := src ∪ dst.
