(* ===== verification/Cef.v ===== *)
(** * [internal/decode/cef.go]: the ArcSight CEF decoder *)

From S2P Require Import Prelude GoStrings GoNum GoRegexp Model Decoder.

(** [(?:^|\s+)([a-zA-Z0-9_\.\-]+)=] *)
Definition cef_key_class (r : Z) : bool :=
  cls_alnum r || cls_lit "_" r || cls_lit "." r || cls_lit "-" r.

Definition cefExtensionRegex : re :=
  RSeq (RAlt RBol (RPlus (RChr cls_space)))
       (RSeq (RGroup 1 (RPlus (RChr cef_key_class))) (RLit "=")).

(** ** Detection *)

Definition CEFDecoder_Detect (raw : string) : confidence :=
  let s := TrimSpace raw in
  if HasPrefix s "CEF:" then 99
  else if Contains s "CEF:0|" || Contains s "CEF:1|" then 85
  else 0.

(** ** The header: seven fields separated by unescaped pipes *)

Fixpoint splitCEFHeader_loop (s cur : string) (parts : list string) (escaped : bool)
    : res (list string * string) :=
  match s with
  | "" => Err (Errorf "expected at least 7 pipe separators in CEF header, found %d"
                 [AInt (Z.of_nat (length parts))])
  | String ch s' =>
      if escaped then
        splitCEFHeader_loop s'
          (if (ch <>b "|") && (ch <>b BACKSLASH) then cur +:+ "\" +:+ chr ch else cur +:+ chr ch)
          parts false
      else if ch =b BACKSLASH then splitCEFHeader_loop s' cur parts true
      else if ch =b "|" then
        let parts := parts ++ [cur] in
        if (length parts =? 7)%nat then Ok (parts, s')
        else splitCEFHeader_loop s' "" parts false
      else splitCEFHeader_loop s' (cur +:+ chr ch) parts false
  end.

Definition splitCEFHeader (s : string) : res (list string * string) :=
  splitCEFHeader_loop s "" [] false.

(** ** The extension: key=value pairs *)

Fixpoint unescapeCEF_loop (s : string) (escaped : bool) : string :=
  match s with
  | "" => if escaped then "\" else ""
  | String ch s' =>
      if escaped then
        (if ch =b "=" then "="
         else if ch =b BACKSLASH then "\"
         else if ch =b "n" then chr LF
         else if ch =b "r" then chr CR
         else "\" +:+ chr ch) +:+ unescapeCEF_loop s' false
      else if ch =b BACKSLASH then unescapeCEF_loop s' true
      else String ch (unescapeCEF_loop s' false)
  end.

Definition unescapeCEFValue (s : string) : string :=
  if negb (Contains s "\") then s else unescapeCEF_loop s false.

(** [matches[i]] with the start of [matches[i+1]], or the end of the text, as the
    end of the value. *)
Fixpoint cef_pairs (ext : string) (matches : list rmatch) (result : gmap string string)
    : gmap string string :=
  match matches with
  | [] => result
  | m :: rest =>
      let key := substr ext (m_g1 m).1 (m_g1 m).2 in
      let valEnd := match rest with m' :: _ => m_start m' | [] => String.length ext end in
      let val := unescapeCEFValue (TrimSpace (substr ext (m_end m) valEnd)) in
      cef_pairs ext rest (<[key := val]> result)
  end.

Definition parseCEFExtensions (ext : string) : gmap string string :=
  cef_pairs ext (FindAllIndex cefExtensionRegex ext) ∅.

(** ** Decoding *)

Definition cef_header_fields (parts : list string) : fields :=
  let part i := VStr (default "" (parts !! i)) in
  list_to_map [("device_vendor", part 1%nat); ("device_product", part 2%nat);
               ("device_version", part 3%nat); ("device_event_class_id", part 4%nat);
               ("name", part 5%nat); ("severity", part 6%nat)].

Definition cef_version (parts : list string) : value :=
  let versionStr := TrimPrefix (default "" (parts !! 0%nat)) "CEF:" in
  match Atoi versionStr with Some v => VInt v | None => VStr versionStr end.

Definition CEFDecoder_Decode (raw : string) : res (list DecodedRecord) :=
  if MaxPayloadBytes <? slen raw then
    Err (Errorf "CEF payload %d bytes exceeds maximum limit of %d" [AInt (slen raw); AInt MaxPayloadBytes])
  else
  let s := TrimSpace raw in
  if slen s =? 0 then Err (errors_New "empty CEF payload") else
  match Index s "CEF:" with
  | None => Err (errors_New "missing CEF: prefix")
  | Some cefIdx =>
      let cefPayload := str_drop cefIdx s in
      '(parts, extension) ← wrap_err (λ e, Errorf "invalid CEF header: %w" [AErr e])
                              (splitCEFHeader cefPayload);
      let headers := <["cef_version" := cef_version parts]> (cef_header_fields parts) in
      let extMap := parseCEFExtensions extension in
      if MaxFields - 6 <? Z.of_nat (size extMap) then
        Err (Errorf "CEF extension field count exceeds maximum %d" [AInt (MaxFields - 6)])
      else
      let flds := copy_into (text_values extMap) (cef_header_fields parts) in
      Ok [single_record "cef" headers flds raw]
  end.

Definition CEFDecoder : Decoder :=
  {| Name := "cef"; Detect := CEFDecoder_Detect; Decode := CEFDecoder_Decode |}.

(** ** Encoding, the specification side *)

(** A CEF producer escapes the pipes and backslashes of a header field. *)
Fixpoint escape_header (s : string) : string :=
  match s with
  | "" => ""
  | String ch s' =>
      (if (ch =b "|") || (ch =b BACKSLASH) then "\" +:+ chr ch else chr ch) +:+ escape_header s'
  end.

Fixpoint cef_header_text (parts : list string) : string :=
  match parts with
  | [] => ""
  | p :: parts' => escape_header p +:+ ("|" +:+ cef_header_text parts')
  end.

(** ... and the equal signs, backslashes and line breaks of an extension value. *)
Fixpoint escape_value (s : string) : string :=
  match s with
  | "" => ""
  | String ch s' =>
      (if (ch =b "=") || (ch =b BACKSLASH) then "\" +:+ chr ch
       else if ch =b LF then "\n" else if ch =b CR then "\r" else chr ch) +:+ escape_value s'
  end.

(** ** Lemmas *)

Lemma split_header_field p cur parts rest :
  splitCEFHeader_loop (escape_header p +:+ rest) cur parts false =
  splitCEFHeader_loop rest (cur +:+ p) parts false.
Proof.
  revert cur. induction p as [|ch p IH]; intros cur; simpl; [by rewrite app_nil_r_str|].
  destruct (Ascii.eqb_spec ch "|") as [->|Hp]; [|destruct (Ascii.eqb_spec ch BACKSLASH) as [->|Hb]].
  - simpl. rewrite IH. by rewrite app_assoc_str.
  - simpl. rewrite IH. by rewrite app_assoc_str.
  - simpl. rewrite (proj2 (Ascii.eqb_neq _ _) Hp), (proj2 (Ascii.eqb_neq _ _) Hb).
    rewrite IH. by rewrite app_assoc_str.
Qed.

Lemma split_header_fields ps parts rest :
  ps ≠ [] → (length parts + length ps)%nat = 7%nat →
  splitCEFHeader_loop (cef_header_text ps +:+ rest) "" parts false = Ok (parts ++ ps, rest).
Proof.
  revert parts. induction ps as [|p ps IH]; intros parts Hne Hlen; [done|].
  cbn [cef_header_text]. rewrite !app_assoc_str, split_header_field.
  cbn -[Nat.eqb]. rewrite length_app. simpl in Hlen. cbn -[Nat.eqb].
  destruct ps as [|q ps].
  - simpl in Hlen. rewrite (proj2 (Nat.eqb_eq _ _)) by lia. done.
  - rewrite (proj2 (Nat.eqb_neq _ _)) by (simpl in Hlen; lia).
    rewrite IH; [|done|rewrite length_app; simpl in *; lia].
    by rewrite <- app_assoc.
Qed.

Lemma split_header_length_loop s cur parts b ps ext :
  (length parts < 7)%nat →
  splitCEFHeader_loop s cur parts b = Ok (ps, ext) → length ps = 7%nat ∧ ∃ h, s = h +:+ ext.
Proof.
  revert cur parts b. induction s as [|ch s IH]; intros cur parts b Hl; [done|]. cbn -[Nat.eqb].
  assert (∀ cur parts b, (length parts < 7)%nat → splitCEFHeader_loop s cur parts b = Ok (ps, ext) →
    length ps = 7%nat ∧ ∃ h, String ch s = h +:+ ext) as IH'.
  { intros cur' parts' b' Hl' H. destruct (IH _ _ _ Hl' H) as (Hps & h & ->).
    split; [done|]. by exists (String ch h). }
  destruct b; [by apply IH'|]. destruct (ch =b BACKSLASH); [by apply IH'|].
  destruct (ch =b "|"); [|by apply IH'].
  rewrite length_app. simpl (length [cur]).
  destruct (Nat.eqb_spec (length parts + 1) 7) as [E|E].
  - intros [= <- <-]. rewrite length_app. split; [simpl; lia|]. by exists (chr ch).
  - apply IH'. rewrite length_app. simpl. lia.
Qed.

Lemma unescape_escape_loop v : unescapeCEF_loop (escape_value v) false = v.
Proof.
  induction v as [|ch v IH]; [done|]. cbn [escape_value].
  destruct (Ascii.eqb_spec ch "=") as [->|He]; [simpl; by rewrite IH|].
  destruct (Ascii.eqb_spec ch BACKSLASH) as [->|Hb]; [simpl; by rewrite IH|].
  destruct (Ascii.eqb_spec ch LF) as [->|Hl]; [simpl; by rewrite IH|].
  destruct (Ascii.eqb_spec ch CR) as [->|Hc]; [simpl; by rewrite IH|].
  simpl. rewrite (proj2 (Ascii.eqb_neq _ _) Hb). by rewrite IH.
Qed.

Lemma unescape_plain s : Contains s "\" = false → unescapeCEF_loop s false = s.
Proof.
  unfold Contains. change "\" with (chr BACKSLASH). rewrite Index_chr.
  destruct (IndexByte s BACKSLASH) eqn:E; [done|]. intros _. apply IndexByte_None in E.
  induction s as [|ch s IH]; [done|]. simpl in *. apply andb_prop in E as [E1 E2].
  apply negb_true_iff in E1. rewrite E1. by rewrite IH.
Qed.

(** The fast path of [unescapeCEFValue] is not observable. *)
Lemma unescapeCEFValue_loop s : unescapeCEFValue s = unescapeCEF_loop s false.
Proof.
  unfold unescapeCEFValue. destruct (Contains s "\") eqn:E; [done|]. simpl. by rewrite unescape_plain.
Qed.

#[export] Instance CEFDecoder_lawful : LawfulDecoder CEFDecoder.
Proof.
  split.
  - intros raw. simpl. unfold CEFDecoder_Detect. repeat case_match; lia.
  - intros raw recs. simpl. unfold CEFDecoder_Decode. case_match; [done|]. lia.
  - intros raw recs. simpl. unfold CEFDecoder_Decode. repeat (case_match; try done).
    intros ([parts ext] & _ & H')%res_bind_ok. case_match; [done|]. by simplify_eq.
Qed.

Lemma splitCEFHeader_total s cur parts b : no_panic (splitCEFHeader_loop s cur parts b).
Proof. revert cur parts b. induction s as [|ch s IH]; intros; cbn -[Nat.eqb]; [done|]. repeat case_match; auto; done. Qed.

#[export] Instance CEFDecoder_total : TotalDecoder CEFDecoder.
Proof.
  intros raw. simpl. unfold CEFDecoder_Decode. repeat (case_match; try done).
  apply res_bind_no_panic; [apply wrap_err_no_panic, splitCEFHeader_total|].
  intros [parts ext] _. by case_match.
Qed.

#[export] Instance CEFDecoder_non_nil : NonNilDecoder CEFDecoder.
Proof.
  intros raw recs. simpl. unfold CEFDecoder_Decode. repeat (case_match; try done).
  intros ([parts ext] & _ & H')%res_bind_ok. case_match; [done|]. simplify_eq. by repeat constructor.
Qed.

(** ** Properties *)

(** A header of seven fields, whatever bytes they hold (pipes and backslashes
    escaped by the producer), survives encoding and [splitCEFHeader], and the
    extension is what follows the seventh separator. *)
Theorem splitCEFHeader_roundtrip (parts : list string) (ext : string) :
  length parts = 7%nat → splitCEFHeader (cef_header_text parts +:+ ext) = Ok (parts, ext).
Proof. intros H. apply (split_header_fields parts []); [by intros ->|done]. Qed.

Lemma splitCEFHeader_roundtrip_witness :
  splitCEFHeader (cef_header_text ["CEF:0"; "a|b"; "c\d"; "1"; "x\|"; ""; "5"] +:+ "k=v")
  = Ok (["CEF:0"; "a|b"; "c\d"; "1"; "x\|"; ""; "5"], "k=v").
Proof. apply splitCEFHeader_roundtrip. reflexivity. Defined.

(** Unescaping a CEF extension value inverts the producer's escaping of equal
    signs, backslashes and line breaks, for every value. *)
Theorem unescapeCEFValue_escape (v : string) : unescapeCEFValue (escape_value v) = v.
Proof. rewrite unescapeCEFValue_loop. apply unescape_escape_loop. Qed.

Example cef_decode_example :
  match CEFDecoder_Decode "CEF:0|Acme\|Co|FW|1.0|100|Drop|5|src=10.0.0.1 msg=bad \= thing  act=deny" with
  | Ok [r] => Some (field r "device_vendor", field r "msg", field r "src", header r "cef_version")
  | _ => None
  end = Some (Some (VStr "Acme|Co"), Some (VStr "bad = thing"), Some (VStr "10.0.0.1"), Some (VInt 0)).
Proof. vm_compute. reflexivity. Qed.
