(* ===== verification/Leef.v ===== *)
(** * [internal/decode/leef.go]: the IBM LEEF 1.0 / 2.0 decoder *)

From S2P Require Import Prelude GoStrings GoNum Model Decoder.

(** ** Detection *)

Definition LEEFDecoder_Detect (raw : string) : confidence :=
  let s := TrimSpace raw in
  if HasPrefix s "LEEF:1.0|" || HasPrefix s "LEEF:2.0|" then 99
  else if HasPrefix s "LEEF:" then 95
  else if Contains s "LEEF:1.0|" || Contains s "LEEF:2.0|" then 85
  else 0.

(** ** The header *)

(** Whether the header is complete after the fields read so far. *)
Definition leef_header_done (parts : list string) : bool :=
  let version := default "" (head parts) in
  if HasPrefix version "LEEF:1.0" then (length parts =? 5)%nat
  else if HasPrefix version "LEEF:2.0" then (length parts =? 6)%nat
  else false.

Fixpoint splitLEEFHeader_loop (s cur : string) (parts : list string) (escaped : bool)
    : res (list string * string) :=
  match s with
  | "" =>
      if (length parts =? 5)%nat && HasPrefix (default "" (head parts)) "LEEF:2.0"
      then Ok (parts, cur)
      else Err (Errorf "incomplete LEEF header: expected at least 5 pipe-delimited fields, found %d"
                  [AInt (Z.of_nat (length parts))])
  | String ch s' =>
      if escaped then
        splitLEEFHeader_loop s'
          (if (ch <>b "|") && (ch <>b BACKSLASH) then cur +:+ "\" +:+ chr ch else cur +:+ chr ch)
          parts false
      else if ch =b BACKSLASH then splitLEEFHeader_loop s' cur parts true
      else if ch =b "|" then
        let parts := parts ++ [cur] in
        if leef_header_done parts then Ok (parts, s')
        else splitLEEFHeader_loop s' "" parts false
      else splitLEEFHeader_loop s' (cur +:+ chr ch) parts false
  end.

Definition splitLEEFHeader (s : string) : res (list string * string) :=
  splitLEEFHeader_loop s "" [] false.

Definition parseLEEFDelimiter (delimSpec : string) : res string :=
  if delimSpec =s "" then Ok (chr TAB) else
  let lower := ToLower delimSpec in
  if HasPrefix lower "0x" || HasPrefix lower "x" then
    let hexPart := TrimPrefix (TrimPrefix lower "0x") "x" in
    let hexPart := if slen hexPart =? 1 then "0" +:+ hexPart else hexPart in
    match hex_DecodeString hexPart with
    | Some (String b "") => Ok (chr b)
    | _ =>
        match ParseUint_16_8 hexPart with
        | None => Err (Errorf "malformed hex delimiter %q" [AStr delimSpec])
        | Some val => Ok (chr (zb val))
        end
    end
  else if slen delimSpec =? 1 then Ok delimSpec
  else if delimSpec =s "\t" then Ok (chr TAB)
  else Ok (str_take 1 delimSpec).

(** ** Attributes *)

(** [delimiter[0]], the only byte of the delimiter that is ever compared; the
    empty delimiter stands for TAB. *)
Definition delim_byte (delimiter : string) : ascii :=
  match delimiter with String c _ => c | "" => TAB end.

Fixpoint splitWithEscapes_loop (s cur : string) (tokens : list string) (delimByte : ascii)
    (escaped : bool) : list string :=
  match s with
  | "" =>
      if (0 <? slen cur) || (0 <? length tokens)%nat then tokens ++ [cur] else tokens
  | String ch s' =>
      if escaped then splitWithEscapes_loop s' (cur +:+ "\" +:+ chr ch) tokens delimByte false
      else if ch =b BACKSLASH then splitWithEscapes_loop s' cur tokens delimByte true
      else if ch =b delimByte then splitWithEscapes_loop s' "" (tokens ++ [cur]) delimByte false
      else splitWithEscapes_loop s' (cur +:+ chr ch) tokens delimByte false
  end.

Definition splitWithEscapes (s delimiter : string) : list string :=
  splitWithEscapes_loop s "" [] (delim_byte delimiter) false.

Fixpoint unescapeLEEF_loop (s delimiter : string) (escaped : bool) : string :=
  match s with
  | "" => if escaped then "\" else ""
  | String ch s' =>
      if escaped then
        (if ch =b BACKSLASH then "\"
         else if ch =b "t" then chr TAB
         else if ch =b "n" then chr LF
         else if ch =b "r" then chr CR
         else if (0 <? slen delimiter) && (ch =b delim_byte delimiter) then chr ch
         else "\" +:+ chr ch) +:+ unescapeLEEF_loop s' delimiter false
      else if ch =b BACKSLASH then unescapeLEEF_loop s' delimiter true
      else String ch (unescapeLEEF_loop s' delimiter false)
  end.

Definition unescapeLEEFValue (s delimiter : string) : string :=
  if negb (Contains s "\") then s else unescapeLEEF_loop s delimiter false.

(** Duplicate keys are preserved: the second value turns the entry into a list. *)
Definition add_attribute (key val : string) (result : fields) : fields :=
  match result !! key with
  | Some (VList sl) => <[key := VList (sl ++ [VStr val])]> result
  | Some existing => <[key := VList [existing; VStr val]]> result
  | None => <[key := VStr val]> result
  end.

Definition leef_attribute (delimiter token : string) (result : fields) : fields :=
  let trimmed := TrimSpace token in
  if slen trimmed =? 0 then result else
  match IndexByte trimmed "=" with
  | None | Some O => result
  | Some eqIdx =>
      let key := TrimSpace (str_take eqIdx trimmed) in
      if slen key =? 0 then result else
      let rawVal := str_drop (S eqIdx) trimmed in
      add_attribute key (unescapeLEEFValue rawVal delimiter) result
  end.

Definition parseLEEFAttributes (attrStr delimiter : string) : fields :=
  if slen attrStr =? 0 then ∅
  else foldl (λ result token, leef_attribute delimiter token result) ∅
         (splitWithEscapes attrStr delimiter).

(** ** Decoding *)

Definition leef_header_fields (parts : list string) : fields :=
  let part i := VStr (default "" (parts !! i)) in
  list_to_map [("vendor", part 1%nat); ("product", part 2%nat);
               ("product_version", part 3%nat); ("event_id", part 4%nat)].

Definition leef_delimiter (version : string) (parts : list string) : res string :=
  if (version =s "2.0") && (6 <=? length parts)%nat then
    let delimSpec := default "" (parts !! 5%nat) in
    wrap_err (λ e, Errorf "invalid LEEF 2.0 delimiter %q: %w" [AStr delimSpec; AErr e])
      (parseLEEFDelimiter delimSpec)
  else Ok (chr TAB).

Definition LEEFDecoder_Decode (raw : string) : res (list DecodedRecord) :=
  if MaxPayloadBytes <? slen raw then
    Err (Errorf "LEEF payload %d bytes exceeds maximum limit of %d" [AInt (slen raw); AInt MaxPayloadBytes])
  else
  let s := TrimSpace raw in
  if slen s =? 0 then Err (errors_New "empty LEEF payload") else
  match Index s "LEEF:" with
  | None => Err (errors_New "missing LEEF: prefix")
  | Some leefIdx =>
      '(parts, remaining) ← wrap_err (λ e, Errorf "invalid LEEF header: %w" [AErr e])
                              (splitLEEFHeader (str_drop leefIdx s));
      let version := TrimPrefix (default "" (head parts)) "LEEF:" in
      if (version <>s "1.0") && (version <>s "2.0") then
        Err (Errorf "unsupported LEEF version: %s (expected 1.0 or 2.0)" [AStr version])
      else
      delimiter ← leef_delimiter version parts;
      let headers := <["leef_version" := VStr version]> (leef_header_fields parts) in
      let attrs := parseLEEFAttributes remaining delimiter in
      if MaxFields <? Z.of_nat (size attrs) then
        Err (Errorf "field count limit exceeded: %d > %d" [AInt (Z.of_nat (size attrs)); AInt MaxFields])
      else
      Ok [single_record "leef" headers (copy_into attrs (leef_header_fields parts)) raw]
  end.

Definition LEEFDecoder : Decoder :=
  {| Name := "leef"; Detect := LEEFDecoder_Detect; Decode := LEEFDecoder_Decode |}.

(** ** Encoding, the specification side *)

(** A LEEF producer escapes backslashes, line breaks, tabs and the delimiter. *)
Definition escape_byte (d ch : ascii) : string :=
  if ch =b BACKSLASH then "\\"
  else if ch =b TAB then "\t"
  else if ch =b LF then "\n"
  else if ch =b CR then "\r"
  else if ch =b d then "\" +:+ chr ch
  else chr ch.

Fixpoint escape_attr (d : ascii) (s : string) : string :=
  match s with "" => "" | String ch s' => escape_byte d ch +:+ escape_attr d s' end.

Definition attr_text (d : ascii) (kv : string * string) : string :=
  kv.1 +:+ "=" +:+ escape_attr d kv.2.

(** Delimiters that no escape letter collides with. *)
Definition good_delim (d : ascii) : bool :=
  negb (existsb (Ascii.eqb d) [BACKSLASH; "="%char; "t"%char; "n"%char; "r"%char]).

(** A key the format can carry: no equal sign, backslash or delimiter, no outer white space. *)
Definition good_key (d : ascii) (k : string) : bool :=
  (k <>s "") && (TrimSpace k =s k)
  && all_bytes (λ c, (c <>b "=") && ((c <>b BACKSLASH) && (c <>b d))) k.

(** ** Lemmas *)

Lemma unescape_escape_leef d v :
  good_delim d = true → unescapeLEEF_loop (escape_attr d v) (chr d) false = v.
Proof.
  intros Hd. induction v as [|ch v IH]; [done|]. cbn [escape_attr]. unfold escape_byte.
  destruct (Ascii.eqb_spec ch BACKSLASH) as [->|Hb]; [simpl; by rewrite IH|].
  destruct (Ascii.eqb_spec ch TAB) as [->|Ht]; [simpl; by rewrite IH|].
  destruct (Ascii.eqb_spec ch LF) as [->|Hl]; [simpl; by rewrite IH|].
  destruct (Ascii.eqb_spec ch CR) as [->|Hc]; [simpl; by rewrite IH|].
  destruct (Ascii.eqb_spec ch d) as [->|Hne].
  - unfold good_delim in Hd. simpl in Hd. rewrite !negb_orb in Hd.
    apply andb_prop in Hd as [H1 Hd]. apply andb_prop in Hd as [_ Hd].
    apply andb_prop in Hd as [H2 Hd]. apply andb_prop in Hd as [H3 Hd].
    apply andb_prop in Hd as [H4 _].
    apply negb_true_iff in H1, H2, H3, H4. simpl.
    rewrite H1, H2, H3, H4, Ascii.eqb_refl. simpl. by rewrite IH.
  - simpl. rewrite (proj2 (Ascii.eqb_neq _ _) Hb). by rewrite IH.
Qed.

Lemma unescape_plain_leef s d : Contains s "\" = false → unescapeLEEF_loop s d false = s.
Proof.
  unfold Contains. change "\" with (chr BACKSLASH). rewrite Index_chr.
  destruct (IndexByte s BACKSLASH) eqn:E; [done|]. intros _. apply IndexByte_None in E.
  induction s as [|ch s IH]; [done|]. simpl in *. apply andb_prop in E as [E1 E2].
  apply negb_true_iff in E1. rewrite E1. by rewrite IH.
Qed.

Lemma unescapeLEEFValue_loop s d : unescapeLEEFValue s d = unescapeLEEF_loop s d false.
Proof.
  unfold unescapeLEEFValue. destruct (Contains s "\") eqn:E; [done|]. simpl.
  by rewrite unescape_plain_leef.
Qed.

Lemma split_escape_byte d ch rest cur tokens :
  good_delim d = true →
  splitWithEscapes_loop (escape_byte d ch +:+ rest) cur tokens d false =
  splitWithEscapes_loop rest (cur +:+ escape_byte d ch) tokens d false.
Proof.
  intros _. unfold escape_byte. repeat case_match; simpl;
    rewrite ?(Ascii.eqb_refl), ?app_assoc_str; try done.
  destruct (ch =b BACKSLASH) eqn:?; [done|]. destruct (ch =b d) eqn:?; done.
Qed.

Lemma split_escape_attr d v rest cur tokens :
  good_delim d = true →
  splitWithEscapes_loop (escape_attr d v +:+ rest) cur tokens d false =
  splitWithEscapes_loop rest (cur +:+ escape_attr d v) tokens d false.
Proof.
  intros Hd. revert cur. induction v as [|ch v IH]; intros cur; simpl; [by rewrite app_nil_r_str|].
  rewrite app_assoc_str, split_escape_byte, IH by done. by rewrite app_assoc_str.
Qed.

Lemma split_plain d k rest cur tokens :
  all_bytes (λ c, (c <>b BACKSLASH) && (c <>b d)) k = true →
  splitWithEscapes_loop (k +:+ rest) cur tokens d false =
  splitWithEscapes_loop rest (cur +:+ k) tokens d false.
Proof.
  revert cur. induction k as [|ch k IH]; intros cur; simpl; [by rewrite app_nil_r_str|].
  intros [[H1 H2]%andb_prop Hk]%andb_prop. apply negb_true_iff in H1, H2. rewrite H1, H2, IH by done.
  by rewrite app_assoc_str.
Qed.

Lemma split_attr_text d kv rest cur tokens :
  good_delim d = true → good_key d kv.1 = true →
  splitWithEscapes_loop (attr_text d kv +:+ rest) cur tokens d false =
  splitWithEscapes_loop rest (cur +:+ attr_text d kv) tokens d false.
Proof.
  intros Hd [_ Hk]%andb_prop. unfold attr_text. rewrite !app_assoc_str, split_plain.
  2: { eapply all_bytes_impl; [|exact Hk]. intros c [_ ?]%andb_prop. done. }
  change ("=" +:+ escape_attr d kv.2 +:+ rest) with (String "=" (escape_attr d kv.2 +:+ rest)).
  cbn [splitWithEscapes_loop].
  assert (("="%char =b d) = false) as ->.
  { unfold good_delim in Hd. simpl in Hd. rewrite Ascii.eqb_sym.
    destruct (d =b "=") eqn:E; [|done]. by rewrite orb_true_r in Hd. }
  simpl. rewrite split_escape_attr by done. by rewrite !app_assoc_str.
Qed.

Lemma split_attrs d kvs kv tokens :
  good_delim d = true → good_key d kv.1 = true → Forall (λ kv, good_key d kv.1 = true) kvs →
  splitWithEscapes_loop (Join (attr_text d <$> kv :: kvs) (chr d)) "" tokens d false =
  tokens ++ (attr_text d <$> kv :: kvs).
Proof.
  intros Hd. revert kv tokens. induction kvs as [|kv' kvs IH]; intros kv tokens Hkv Hall.
  - simpl. rewrite <- (app_nil_r_str (attr_text d kv)) at 1.
    rewrite split_attr_text by done. simpl.
    destruct kv as [k v]. unfold good_key in Hkv. simpl in Hkv.
    by destruct k as [|c k].
  - rewrite !fmap_cons, Join_cons, split_attr_text by done. apply Forall_cons in Hall as [Hkv' Hall].
    cbn [splitWithEscapes_loop String.append chr].
    assert ((d =b BACKSLASH) = false) as ->.
    { unfold good_delim in Hd. simpl in Hd. by destruct (d =b BACKSLASH). }
    rewrite Ascii.eqb_refl. rewrite <- fmap_cons, IH by done.
    by rewrite <- app_assoc.
Qed.

Lemma leef_attribute_text d kv result :
  good_delim d = true → good_key d kv.1 = true → TrimSpace (attr_text d kv) = attr_text d kv →
  result !! kv.1 = None →
  leef_attribute (chr d) (attr_text d kv) result = <[kv.1 := VStr kv.2]> result.
Proof.
  intros Hd Hk Ht Hr. unfold leef_attribute. rewrite Ht. destruct kv as [k v].
  unfold attr_text in *. simpl in *.
  assert (all_bytes (λ c, c <>b "=") k = true) as Heq.
  { apply andb_prop in Hk as [_ Hk]. eapply all_bytes_impl; [|exact Hk]. by intros c [? _]%andb_prop. }
  change ("=" +:+ escape_attr d v) with (String "=" (escape_attr d v)) in *.
  rewrite IndexByte_app by done.
  apply andb_prop in Hk as [[Hne Htk]%andb_prop _]. apply negb_true_iff in Hne.
  apply String.eqb_neq in Hne. apply String.eqb_eq in Htk.
  destruct (slen (k +:+ String "=" (escape_attr d v)) =? 0) eqn:El.
  { by destruct k. }
  destruct (String.length k) as [|n] eqn:En; [by destruct k|]. rewrite <- En.
  rewrite take_app_str, Htk.
  assert ((slen k =? 0) = false) as -> by (by destruct k).
  pose proof (drop_app_chr k "=" (escape_attr d v)) as Hdrop.
  rewrite Nat.add_comm in Hdrop. simpl in Hdrop. rewrite Hdrop, unescapeLEEFValue_loop, unescape_escape_leef by done.
  unfold add_attribute. by rewrite Hr.
Qed.

(** A text is an attribute list: its tokens carry distinct good keys and survive trimming. *)
Definition good_attrs (d : ascii) (kvs : list (string * string)) : bool :=
  good_delim d && bool_decide (NoDup kvs.*1)
  && forallb (λ kv, good_key d kv.1 && (TrimSpace (attr_text d kv) =s attr_text d kv)) kvs.

Lemma fold_attrs d kvs result :
  good_delim d = true → NoDup kvs.*1 →
  Forall (λ kv, good_key d kv.1 && (TrimSpace (attr_text d kv) =s attr_text d kv) = true) kvs →
  (∀ k, k ∈ kvs.*1 → result !! k = None) →
  foldl (λ result token, leef_attribute (chr d) token result) result (attr_text d <$> kvs)
  = text_values (list_to_map kvs) ∪ result.
Proof.
  intros Hd. revert result. induction kvs as [|[k v] kvs IH]; intros result Hnd Hall Hfresh.
  - simpl. unfold text_values. by rewrite fmap_empty, (left_id_L ∅ (∪)).
  - apply NoDup_cons in Hnd as [Hk Hnd].
    apply Forall_cons in Hall as [[Hgk Ht]%andb_prop Hall]. apply String.eqb_eq in Ht.
    rewrite fmap_cons. cbn [foldl].
    pose proof (leef_attribute_text d (k, v) result Hd Hgk Ht (Hfresh k ltac:(left))) as E.
    cbn [fst snd] in E. rewrite E, IH; [|done..|].
    + simpl. unfold text_values. rewrite fmap_insert. rewrite <- insert_union_l.
      rewrite <- insert_union_r; [done|]. rewrite lookup_fmap.
      by rewrite not_elem_of_list_to_map_1.
    + intros k' Hk'. rewrite lookup_insert_ne; [apply Hfresh; by right|]. by intros ->.
Qed.

#[export] Instance LEEFDecoder_lawful : LawfulDecoder LEEFDecoder.
Proof.
  split.
  - intros raw. simpl. unfold LEEFDecoder_Detect. repeat case_match; lia.
  - intros raw recs. simpl. unfold LEEFDecoder_Decode. case_match; [done|]. lia.
  - intros raw recs. simpl. unfold LEEFDecoder_Decode. repeat (case_match; try done).
    intros ([parts ext] & _ & H')%res_bind_ok. repeat case_match; try done.
    apply res_bind_ok in H' as (d & _ & H'). case_match; [done|]. by simplify_eq.
Qed.

Lemma splitLEEFHeader_total s cur parts b : no_panic (splitLEEFHeader_loop s cur parts b).
Proof. revert cur parts b. induction s as [|ch s IH]; intros; cbn -[Nat.eqb]; repeat case_match; auto; done. Qed.

#[export] Instance LEEFDecoder_total : TotalDecoder LEEFDecoder.
Proof.
  intros raw. simpl. unfold LEEFDecoder_Decode. repeat (case_match; try done).
  apply res_bind_no_panic; [apply wrap_err_no_panic, splitLEEFHeader_total|].
  intros [parts ext] _. case_match; [done|]. apply res_bind_no_panic.
  - unfold leef_delimiter. case_match; [|done]. apply wrap_err_no_panic.
    unfold parseLEEFDelimiter. by repeat case_match.
  - intros d _. by case_match.
Qed.

#[export] Instance LEEFDecoder_non_nil : NonNilDecoder LEEFDecoder.
Proof.
  intros raw recs. simpl. unfold LEEFDecoder_Decode. repeat (case_match; try done).
  intros ([parts ext] & _ & H')%res_bind_ok. repeat case_match; try done.
  apply res_bind_ok in H' as (d & _ & H'). case_match; [done|]. simplify_eq. by repeat constructor.
Qed.

(** ** Properties *)

(** LEEF attributes survive their encoding: any list of pairs with distinct
    keys, printed as [key=value] with backslashes, tabs, line breaks and the
    delimiter escaped and joined by the delimiter, is parsed back to exactly
    those pairs. *)
Theorem parseLEEFAttributes_roundtrip (d : ascii) (kvs : list (string * string)) :
  good_attrs d kvs = true →
  parseLEEFAttributes (Join (attr_text d <$> kvs) (chr d)) (chr d) = text_values (list_to_map kvs).
Proof.
  unfold good_attrs. rewrite !andb_true_iff. intros [[Hd Hnd] Hall]. apply bool_decide_eq_true in Hnd.
  rewrite forallb_forall in Hall. unfold parseLEEFAttributes.
  destruct kvs as [|kv kvs]; [done|].
  assert (Forall (λ kv, good_key d kv.1 && (TrimSpace (attr_text d kv) =s attr_text d kv) = true) (kv :: kvs)) as HF.
  { apply Forall_forall. intros x Hx. apply Hall. by apply list_elem_of_In. }
  unfold splitWithEscapes. simpl delim_byte. rewrite split_attrs; [|done|..].
  2: { apply Forall_cons in HF as [[? _]%andb_prop _]. done. }
  2: { apply Forall_cons in HF as [_ HF]. eapply Forall_impl; [exact HF|]. by intros x [? _]%andb_prop. }
  rewrite app_nil_l, fold_attrs by done. rewrite (right_id_L ∅ (∪)).
  case_match eqn:E; [|done]. exfalso. apply Z.eqb_eq in E. unfold slen in E.
  assert (Join (attr_text d <$> kv :: kvs) (chr d) ≠ "") as Hne; [|by destruct (Join _ _)].
  apply Forall_cons in HF as [[HF _]%andb_prop _]. clear -HF. unfold good_key in HF.
  destruct kv as [k v], k as [|c k]; [done|]. by destruct kvs.
Qed.

Lemma parseLEEFAttributes_roundtrip_witness :
  parseLEEFAttributes (Join (attr_text "^" <$> [("src", "10.0.0.1"); ("msg", "a^b\c	d")]) "^") "^"
  = text_values (list_to_map [("src", "10.0.0.1"); ("msg", "a^b\c	d")]).
Proof. apply (parseLEEFAttributes_roundtrip "^" [("src", "10.0.0.1"); ("msg", "a^b\c	d")]). vm_compute. reflexivity. Defined.

Example leef_decode_example :
  match LEEFDecoder_Decode "<13>host LEEF:2.0|Acme|IDS|3.1|evt-7|x5E|src=10.0.0.1^msg=a\^b^src=second" with
  | Ok [r] => Some (field r "vendor", field r "msg", field r "src")
  | _ => None
  end = Some (Some (VStr "Acme"), Some (VStr "a^b"), Some (VList [VStr "10.0.0.1"; VStr "second"])).
Proof. vm_compute. reflexivity. Qed.
