(* ===== verification/KeyValue.v ===== *)
(** * Key=value text, quoting and structured data: the scanners of [internal/decode/syslog.go]

    The Go scanners move an index over the text; here each works on the text
    that is left.  The outer loop of [parseKeyValueTokens] is [GoStrings.scan];
    every pass consumes a byte ([kv_round_consuming]), so it terminates. *)

From S2P Require Import Prelude GoStrings Model Decoder.

Definition isSpace (b : ascii) : bool :=
  (b =b " ") || (b =b TAB) || (b =b CR) || (b =b LF).

(** The longest prefix whose bytes satisfy [p], and the rest. *)
Fixpoint span (p : ascii → bool) (s : string) : string * string :=
  match s with
  | String c s' => if p c then let '(a, b) := span p s' in (String c a, b) else ("", s)
  | "" => ("", "")
  end.

(** ** parseKeyValueTokens *)

(** The body of a quoted value: the value and what follows the closing quote;
    [None] when the quote is never closed. *)
Fixpoint quoted_value (quote : ascii) (s value : string) : option (string * string) :=
  match s with
  | "" => None
  | String c s' =>
      let plain :=
        if c =b quote then Some (value, s') else quoted_value quote s' (value +:+ chr c) in
      if c =b BACKSLASH then
        match s' with
        | String d s'' =>
            if (d =b quote) || (d =b BACKSLASH)
            then quoted_value quote s'' (value +:+ chr d)
            else quoted_value quote s' (value +:+ chr c)
        | "" => plain
        end
      else plain
  end.

Definition not_space (c : ascii) : bool := negb (isSpace c).

Definition key_byte (c : ascii) : bool := (c <>b "=") && not_space c.

Definition is_quote (c : ascii) : bool := (c =b QUOTE) || (c =b "'").

(** One pass of the outer loop. *)
Definition kv_round (s : string) (result : fields) : res (string * fields) :=
  let s := (span isSpace s).2 in
  let '(key, rest) := span key_byte s in
  match rest with
  | String c after =>
      if (c =b "=") && (key <>s "") then
        match after with
        | String q body =>
            if is_quote q then
              match quoted_value q body "" with
              | Some (v, rest') => Ok (rest', <[key := VStr v]> result)
              | None =>
                  Err (Errorf "malformed key=value payload: unterminated quoted value for %q" [AStr key])
              end
            else
              let '(v, rest') := span not_space after in
              Ok (rest', if v =s "" then result else <[key := VStr v]> result)
        | "" => Ok ("", result)
        end
      else Ok ((span not_space rest).2, result)
  | "" => Ok ("", result)
  end.

Definition parseKeyValueTokens (s : string) : res fields := scan kv_round s ∅.

(** ** balancedQuotes *)

Fixpoint balanced_loop (s : string) (quoted : bool) : bool :=
  match s with
  | "" => negb quoted
  | String c s' =>
      match s' with
      | String d s'' =>
          if quoted && (c =b BACKSLASH) then balanced_loop s'' quoted
          else if c <>b QUOTE then balanced_loop s' quoted
          else if quoted && (d =b QUOTE) then balanced_loop s'' quoted
          else balanced_loop s' (negb quoted)
      | "" =>
          if c <>b QUOTE then balanced_loop s' quoted else balanced_loop s' (negb quoted)
      end
  end.

Definition balancedQuotes (s : string) : bool := balanced_loop s false.

(** ** splitRFC5424StructuredData *)

(** From just after a '[': what follows the matching ']', or [None]. *)
Fixpoint sd_element (s : string) (quoted escaped : bool) : option string :=
  match s with
  | "" => None
  | String ch s' =>
      if escaped then sd_element s' quoted false
      else if ch =b BACKSLASH then sd_element s' quoted true
      else if ch =b QUOTE then sd_element s' (negb quoted) escaped
      else if (ch =b "]") && negb quoted then Some s'
      else sd_element s' quoted escaped
  end.

(** What is left after the leading run of elements. *)
Fixpoint sd_elements (fuel : nat) (s : string) : res string :=
  match fuel, s with
  | S fuel', String c s' =>
      if c =b "[" then
        match sd_element s' false false with
        | None => Err (errors_New "malformed RFC 5424 structured data")
        | Some rest => sd_elements fuel' rest
        end
      else Ok s
  | _, _ => Ok s
  end.

(** [s[:pos]] and the message; an element is at least two bytes long, so the
    length of [s] is enough fuel. *)
Definition splitRFC5424StructuredData (s : string) : res (string * string) :=
  rest ← sd_elements (String.length s) s;
  let pos := (String.length s - String.length rest)%nat in
  if (pos =? 0)%nat then Ok ("-", s)
  else Ok (str_take pos s, TrimSpace rest).

(** ** Scanner lemmas *)

Lemma span_app p s : s = (span p s).1 +:+ (span p s).2.
Proof.
  induction s as [|c s IH]; simpl; [done|]. destruct (p c); [|done].
  destruct (span p s) as [a b]. simpl in *. by rewrite <- IH.
Qed.

Lemma span_length p s : (String.length (span p s).2 ≤ String.length s)%nat.
Proof. rewrite (span_app p s) at 2. rewrite length_app_str. lia. Qed.

Lemma span_all p k rest :
  all_bytes p k = true → match rest with String c _ => p c = false | "" => True end →
  span p (k +:+ rest) = (k, rest).
Proof.
  intros Hk Hr. induction k as [|c k IH]; simpl in *.
  - destruct rest as [|c rest]; [done|]. simpl. by rewrite Hr.
  - apply andb_prop in Hk as [-> Hk]. by rewrite IH.
Qed.

Lemma span_stop p s c s' : (span p s).2 = String c s' → p c = false.
Proof.
  induction s as [|d s IH]; simpl; [done|]. destruct (p d) eqn:E.
  - destruct (span p s). exact IH.
  - by intros [= <- _].
Qed.

Lemma quoted_value_length q s v v' rest :
  quoted_value q s v = Some (v', rest) → (String.length rest < String.length s)%nat.
Proof.
  remember (String.length s) as n eqn:E. assert (String.length s ≤ n)%nat as Hn by lia.
  clear E. revert s v Hn. induction n as [|n IH]; intros [|c s] v Hn; try done; [simpl in Hn; lia|].
  simpl in Hn. assert (∀ t w, (String.length t ≤ String.length s)%nat →
    quoted_value q t w = Some (v', rest) → (String.length rest < S n)%nat) as IH'.
  { intros t w Ht Hq. apply IH in Hq; lia. }
  cbn [quoted_value]. destruct (c =b BACKSLASH).
  - destruct s as [|d s]; [destruct (c =b q); [intros [= <- <-]; simpl; lia|done]|].
    destruct (_ || _); apply IH'; simpl; lia.
  - destruct (c =b q); [intros [= <- <-]; lia|by apply IH'].
Qed.

Lemma sd_element_suffix s q e rest :
  sd_element s q e = Some rest → ∃ t, s = t +:+ rest ∧ t ≠ "".
Proof.
  revert q e. induction s as [|ch s IH]; intros q e; simpl; [done|].
  assert (∀ q e, sd_element s q e = Some rest → ∃ t, String ch s = t +:+ rest ∧ t ≠ "") as IH'.
  { intros q' e' (t & -> & _)%IH. by exists (String ch t). }
  repeat case_match; try apply IH'. intros [= ->]. by exists (chr ch).
Qed.

#[export] Instance kv_round_consuming : Consuming kv_round.
Proof.
  intros s r s' r' Hs. unfold kv_round.
  pose proof (span_app isSpace s) as E1. pose proof (span_stop isSpace s) as Hstop.
  set (t := (span isSpace s).2) in *. set (sp := (span isSpace s).1) in *.
  destruct (span key_byte t) as [key rest] eqn:E. pose proof (span_app key_byte t) as E2.
  pose proof (span_stop key_byte t) as Hk. rewrite E in E2, Hk. simpl in E2, Hk.
  assert (String.length s = (String.length sp + (String.length key + String.length rest))%nat) as Hl.
  { rewrite E1, E2 at 1. by rewrite !length_app_str. }
  assert (0 < String.length s)%nat by (destruct s; simpl; [done|lia]).
  destruct rest as [|c after]; [intros [= <- <-]; simpl; lia|]. simpl in Hl.
  destruct ((c =b "=") && (key <>s "")) eqn:Ec.
  - destruct after as [|q body]; [intros [= <- <-]; simpl; lia|]. destruct (is_quote q).
    + destruct (quoted_value q body "") as [[v rest']|] eqn:Eq; [|done].
      intros [= <- <-]. apply quoted_value_length in Eq. simpl in Hl. lia.
    + pose proof (span_length not_space (String q body)) as Hsp.
      destruct (span not_space (String q body)) as [v rest']. intros [= <- <-]. simpl in *. lia.
  - intros [= <- <-]. pose proof (span_length not_space (String c after)) as Hsp.
    simpl. destruct (not_space c) eqn:En.
    + pose proof (span_length not_space after). destruct (span not_space after). simpl in *. lia.
    + (* a space right after the key: the key is not empty *)
      destruct key as [|k key]; [|simpl in *; lia]. simpl in E2.
      unfold not_space in En. apply negb_false_iff in En. rewrite (Hstop c after) in En; done.
Qed.

Lemma kv_round_no_panic s r : no_panic (kv_round s r).
Proof. unfold kv_round. repeat case_match; done. Qed.

Lemma parseKeyValueTokens_no_panic s : no_panic (parseKeyValueTokens s).
Proof. apply scan_no_panic, kv_round_no_panic. Qed.

(** ** Printing pairs, the specification side *)

Fixpoint escape_quoted (s : string) : string :=
  match s with
  | "" => ""
  | String c s' => (if (c =b QUOTE) || (c =b BACKSLASH) then "\" +:+ chr c else chr c) +:+ escape_quoted s'
  end.

Definition kv_text (kv : string * string) : string :=
  kv.1 +:+ String "=" (String QUOTE (escape_quoted kv.2 +:+ chr QUOTE)).

Definition kv_key (k : string) : bool := (k <>s "") && all_bytes key_byte k.

Lemma quoted_value_escape v rest acc :
  quoted_value QUOTE (escape_quoted v +:+ String QUOTE rest) acc = Some (acc +:+ v, rest).
Proof.
  revert acc. induction v as [|c v IH]; intros acc; simpl.
  - by rewrite app_nil_r_str.
  - destruct (Ascii.eqb_spec c QUOTE) as [->|Hq]; [|destruct (Ascii.eqb_spec c BACKSLASH) as [->|Hb]]; simpl.
    + rewrite IH. by rewrite app_assoc_str.
    + rewrite IH. by rewrite app_assoc_str.
    + rewrite (proj2 (Ascii.eqb_neq _ _) Hq), (proj2 (Ascii.eqb_neq _ _) Hb), IH.
      by rewrite app_assoc_str.
Qed.

Lemma key_byte_not_space c : key_byte c = true → isSpace c = false.
Proof. intros [_ H]%andb_prop. by apply negb_true_iff in H. Qed.

Lemma kv_round_text kv rest r :
  kv_key kv.1 = true →
  kv_round (kv_text kv +:+ rest) r = Ok (rest, <[kv.1 := VStr kv.2]> r).
Proof.
  intros [Hne Hk]%andb_prop. destruct kv as [k v]. unfold kv_text, kv_round. simpl in *.
  rewrite app_assoc_str. destruct k as [|c k]; [done|]. simpl in Hk. apply andb_prop in Hk as [Hc Hk].
  cbn [String.append span]. rewrite (key_byte_not_space c Hc). cbn [snd].
  change (String c (k +:+ ?t)) with (String c k +:+ t).
  rewrite span_all by first [done | by simpl; rewrite Hc]. rewrite Hne. simpl.
  rewrite app_assoc_str. change (chr QUOTE +:+ rest) with (String QUOTE rest).
  by rewrite quoted_value_escape.
Qed.

Lemma kv_round_space t r : kv_round (String " " t) r = kv_round t r.
Proof. unfold kv_round. simpl. by destruct (span isSpace t). Qed.

Lemma kv_text_nonempty kv : kv_text kv ≠ "".
Proof. by destruct kv as [[] ?]. Qed.

Lemma scan_kv_texts kvs r :
  Forall (λ kv, kv_key kv.1 = true) kvs →
  scan kv_round (Join (kv_text <$> kvs) " ") r
  = Ok (foldl (λ r kv, <[kv.1 := VStr kv.2]> r) r kvs).
Proof.
  intros Hall. revert r. induction Hall as [|kv kvs Hkv Hall IH]; intros r; [done|].
  rewrite (scan_unfold kv_round). destruct (Join (kv_text <$> kv :: kvs) " ") as [|c0 s0] eqn:E0.
  { rewrite fmap_cons in E0. by apply Join_nonempty in E0; [|apply kv_text_nonempty]. }
  rewrite <- E0. clear E0 c0 s0. rewrite fmap_cons. destruct kvs as [|kv' kvs].
  - simpl Join. rewrite <- (app_nil_r_str (kv_text kv)), kv_round_text by done. done.
  - rewrite fmap_cons, Join_cons, kv_round_text, <- fmap_cons by done. cbn [mbind res_bind].
    transitivity (scan kv_round (Join (kv_text <$> kv' :: kvs) " ") (<[kv.1 := VStr kv.2]> r));
      [|apply IH]. clear IH.
    (* the separating space is skipped by the next round *)
    rewrite (scan_unfold kv_round (_ +:+ _)), (scan_unfold kv_round (Join _ _)).
    destruct (Join (kv_text <$> kv' :: kvs) " ") as [|c0 s0] eqn:E0.
    { rewrite fmap_cons in E0. by apply Join_nonempty in E0; [|apply kv_text_nonempty]. }
    cbn [String.append]. by rewrite kv_round_space.
Qed.

Lemma foldl_text_values (kvs : list (string * string)) :
  foldl (λ (r : fields) kv, <[kv.1 := VStr kv.2]> r) ∅ kvs = text_values (list_to_map (reverse kvs)).
Proof.
  unfold text_values. induction kvs as [|kv kvs IH] using rev_ind.
  { change (∅ = VStr <$> (∅ : gmap string string)). by rewrite fmap_empty. }
  rewrite foldl_snoc, IH, reverse_snoc. destruct kv as [k v]. simpl. by rewrite fmap_insert.
Qed.

(** ** Properties *)

(** Key=value text round trip: any list of pairs with keys free of white space and
    equal signs, printed with quoted and escaped values and separated by spaces,
    is parsed to the map of those pairs, a later pair overwriting an earlier one. *)
Theorem parseKeyValueTokens_roundtrip (kvs : list (string * string)) :
  Forall (λ kv, kv_key kv.1 = true) kvs →
  parseKeyValueTokens (Join (kv_text <$> kvs) " ") = Ok (text_values (list_to_map (reverse kvs))).
Proof.
  intros H. unfold parseKeyValueTokens. rewrite scan_kv_texts by done. f_equal.
  apply foldl_text_values.
Qed.

Lemma parseKeyValueTokens_roundtrip_witness :
  parseKeyValueTokens (Join (kv_text <$> [("src", "a b"); ("msg", "x=\y"); ("src", "c")]) " ")
  = Ok (text_values (list_to_map (reverse [("src", "a b"); ("msg", "x=\y"); ("src", "c")]))).
Proof. apply parseKeyValueTokens_roundtrip. repeat constructor. Defined.

(** ** RFC 5424 structured data, the specification side *)

(** A SD-ELEMENT: its identifier and its parameters. *)
Record sd_elem := { sd_id : string; sd_params : list (string * string) }.

Fixpoint escape_sd (s : string) : string :=
  match s with
  | "" => ""
  | String c s' =>
      (if (c =b QUOTE) || (c =b BACKSLASH) || (c =b "]") then "\" +:+ chr c else chr c)
      +:+ escape_sd s'
  end.

Fixpoint sd_params_text (ps : list (string * string)) : string :=
  match ps with
  | [] => ""
  | (k, v) :: ps' =>
      " " +:+ (k +:+ String "=" (String QUOTE (escape_sd v +:+ String QUOTE (sd_params_text ps'))))
  end.

Definition sd_elem_text (e : sd_elem) : string :=
  String "[" (sd_id e +:+ (sd_params_text (sd_params e) +:+ "]")).

Fixpoint sd_text (l : list sd_elem) : string :=
  match l with [] => "" | e :: l' => sd_elem_text e +:+ sd_text l' end.

Definition sd_name (s : string) : bool :=
  all_bytes (λ c, (c <>b QUOTE) && ((c <>b BACKSLASH) && (c <>b "]"))) s.

Definition sd_elem_ok (e : sd_elem) : bool :=
  sd_name (sd_id e) && forallb (λ kv, sd_name kv.1) (sd_params e).

Lemma sd_element_name t r : sd_name t = true → sd_element (t +:+ r) false false = sd_element r false false.
Proof.
  induction t as [|c t IH]; simpl; [done|]. intros [[H1 [H2 H3]%andb_prop]%andb_prop Ht]%andb_prop.
  apply negb_true_iff in H1, H2, H3. rewrite H1, H2, H3. by apply IH.
Qed.

Lemma sd_element_quoted v r :
  sd_element (escape_sd v +:+ String QUOTE r) true false = sd_element r false false.
Proof.
  induction v as [|c v IH]; [done|]. cbn [escape_sd].
  destruct (Ascii.eqb_spec c QUOTE) as [->|H1]; [done|].
  destruct (Ascii.eqb_spec c BACKSLASH) as [->|H2]; [done|].
  destruct (Ascii.eqb_spec c "]") as [->|H3]; [done|].
  simpl. rewrite (proj2 (Ascii.eqb_neq _ _) H1), (proj2 (Ascii.eqb_neq _ _) H2),
    (proj2 (Ascii.eqb_neq _ _) H3). done.
Qed.

Lemma sd_element_params ps r :
  forallb (λ kv, sd_name kv.1) ps = true →
  sd_element (sd_params_text ps +:+ String "]" r) false false = Some r.
Proof.
  induction ps as [|[k v] ps IH]; simpl; [done|]. intros [Hk Hps]%andb_prop.
  rewrite app_assoc_str, sd_element_name by done. simpl.
  rewrite app_assoc_str. simpl. rewrite sd_element_quoted. by apply IH.
Qed.

Lemma sd_elements_text l r fuel :
  forallb sd_elem_ok l = true → match r with String c _ => c <>b "[" | "" => true end = true →
  (String.length (sd_text l +:+ r) ≤ fuel)%nat → sd_elements fuel (sd_text l +:+ r) = Ok r.
Proof.
  intros Hl Hr. revert fuel. induction l as [|e l IH]; intros fuel Hf; simpl in *.
  - destruct fuel, r as [|c r]; simpl; try done. apply negb_true_iff in Hr. by rewrite Hr.
  - apply andb_prop in Hl as [[Hid Hps]%andb_prop Hl]. unfold sd_elem_text in *. simpl in *.
    destruct fuel as [|fuel]; [lia|]. simpl.
    rewrite !app_assoc_str in *. simpl. rewrite sd_element_name, sd_element_params by done.
    apply IH; [done|]. rewrite !length_app_str in Hf. simpl in Hf. rewrite length_app_str in *. lia.
Qed.

(** RFC 5424 structured data of any elements, names and (escaped) values, followed
    by a message, is split exactly at its end: a ']' inside a quoted value does
    not close an element, and the message is what follows, trimmed. *)
Theorem splitRFC5424StructuredData_roundtrip (l : list sd_elem) (msg : string) :
  l ≠ [] → forallb sd_elem_ok l = true →
  splitRFC5424StructuredData (sd_text l +:+ " " +:+ msg)
  = Ok (sd_text l, TrimSpace (" " +:+ msg)).
Proof.
  intros Hne Hl. unfold splitRFC5424StructuredData.
  rewrite sd_elements_text by done. simpl.
  rewrite length_app_str. simpl String.length.
  replace (_ + _ - _)%nat with (String.length (sd_text l)) by lia.
  destruct (String.length (sd_text l)) as [|n] eqn:E; [by destruct l|].
  simpl (_ =? _)%nat. rewrite <- E. by rewrite take_app_str.
Qed.

Definition sd_example : list sd_elem :=
  [{| sd_id := "ex@1"; sd_params := [("a", "x]y"); ("b", "q\")] |}; {| sd_id := "z"; sd_params := [] |}].

Lemma splitRFC5424StructuredData_roundtrip_witness :
  splitRFC5424StructuredData (sd_text sd_example +:+ " " +:+ "hello [x]")
  = Ok (sd_text sd_example, TrimSpace (" " +:+ "hello [x]")).
Proof. apply splitRFC5424StructuredData_roundtrip; [discriminate|reflexivity]. Defined.

Example sd_example_value :
  splitRFC5424StructuredData (sd_text sd_example +:+ " hello [x]") = Ok (sd_text sd_example, "hello [x]").
Proof. reflexivity. Qed.
