(* ===== verification/Syslog.v ===== *)
(** * [internal/decode/syslog.go]: RFC 5424 and RFC 3164 syslog, with layered payloads *)

From S2P Require Import Prelude GoStrings GoNum GoRegexp Model Decoder Cef Leef KeyValue.

(** The RFC 3164 header pattern: month, day, time, host, and the rest of the line. *)
Definition cls_upper := cls_range "A" "Z".
Definition cls_lower := cls_range "a" "z".
Definition rx_d2 : re := RRep 2 (RChr cls_digit).
Definition rx_spaces : re := RPlus (RChr cls_space).
Definition rx_nonspaces : re := RPlus (RChr (cls_not cls_space)).

Definition rfc3164Header : re :=
  RSeqs [RBol;
         RGroup 1 (RSeq (RChr cls_upper) (RRep 2 (RChr cls_lower))); rx_spaces;
         RGroup 2 (RSeq (RChr cls_digit) (ROpt (RChr cls_digit))); rx_spaces;
         RGroup 3 (RSeqs [rx_d2; RLit ":"; rx_d2; RLit ":"; rx_d2]); rx_spaces;
         RGroup 4 rx_nonspaces;
         ROpt (RSeq rx_spaces (RGroup 5 (RStar (RChr cls_any_but_nl))));
         REol].

(** ** Detection *)

Definition months : list string :=
  ["Jan"; "Feb"; "Mar"; "Apr"; "May"; "Jun"; "Jul"; "Aug"; "Sep"; "Oct"; "Nov"; "Dec"].

Definition valid_pri (pri : Z) : bool := negb ((pri <? 0) || (191 <? pri)).

Definition SyslogDecoder_Detect (raw : string) : confidence :=
  let trimmed := TrimLeftBytes isSpace raw in
  if (slen trimmed <? 4) || negb (HasPrefix trimmed "<") then 0 else
  match IndexByte trimmed ">" with
  | None => 0
  | Some gtIdx =>
      if (gtIdx <? 2)%nat || (5 <? gtIdx)%nat then 0 else
      match Atoi (substr trimmed 1 gtIdx) with
      | None => 0
      | Some pri =>
          if negb (valid_pri pri) then 0 else
          let rest := str_drop (S gtIdx) trimmed in
          if (2 <? slen rest) && HasPrefix rest "1 " then 98
          else if existsb (λ m, HasPrefix rest m) months then 95
          else 85
      end
  end.

(** ** The priority and the two header variants *)

(** [<PRI>] at the start of the trimmed text: the priority and what follows. *)
Definition parse_pri (trimmed : string) : res (Z * string) :=
  if negb (HasPrefix trimmed "<") then Err (errors_New "malformed syslog: missing leading '<'") else
  match IndexByte trimmed ">" with
  | None | Some O | Some 1%nat =>
      Err (errors_New "malformed syslog: missing or empty priority '<>'")
  | Some gtIdx =>
      if (5 <? gtIdx)%nat then Err (errors_New "malformed syslog: priority tag exceeds 5 bytes") else
      let priStr := substr trimmed 1 gtIdx in
      match Atoi priStr with
      | None => Err (Errorf "malformed syslog: non-numeric priority %q" [AStr priStr])
      | Some pri =>
          if negb (valid_pri pri)
          then Err (Errorf "malformed syslog: priority %d out of valid range (0-191)" [AInt pri])
          else Ok (pri, str_drop (S gtIdx) trimmed)
      end
  end.

(** [pri / 8] and [pri % 8]: Go's operators truncate; [pri] is not negative here. *)
Definition pri_headers (pri : Z) : fields :=
  list_to_map [("syslog_pri", VInt pri); ("syslog_facility", VInt (Z.quot pri 8));
               ("syslog_severity", VInt (Z.rem pri 8))].

(** The structured data and message part of RFC 5424. *)
Definition rfc5424_body (headers : fields) (sdAndMsg : string) : res (fields * string) :=
  if HasPrefix sdAndMsg "- " then
    Ok (<["syslog_structured_data" := VStr "-"]> headers, TrimPrefix sdAndMsg "- ")
  else if sdAndMsg =s "-" then Ok (<["syslog_structured_data" := VStr "-"]> headers, "")
  else if HasPrefix sdAndMsg "[" then
    '(sd, message) ← splitRFC5424StructuredData sdAndMsg;
    Ok (<["syslog_structured_data" := VStr sd]> headers, message)
  else Ok (headers, sdAndMsg).

Definition rfc5424 (headers : fields) (rest : string) : res (fields * string) :=
  let parts := SplitN rest " " 7 in
  if (length parts <? 6)%nat
  then Err (errors_New "malformed RFC 5424 syslog: incomplete header elements")
  else
    let part i := VStr (default "" (parts !! i)) in
    let headers :=
      <["syslog_msgid" := part 5%nat]> (<["syslog_procid" := part 4%nat]>
      (<["syslog_app" := part 3%nat]> (<["syslog_host" := part 2%nat]>
      (<["syslog_time" := part 1%nat]> (<["syslog_version" := VInt 1]> headers))))) in
    match parts !! 6%nat with
    | Some sdAndMsg => rfc5424_body headers sdAndMsg
    | None => Ok (headers, "")
    end.

(** [app[pid]: body] *)
Definition rfc3164_tag (headers : fields) (remaining : string) : fields * string :=
  if remaining =s "" then (headers, "") else
  match SplitN remaining ": " 2 with
  | [appTag; body] =>
      match Index appTag "[" with
      | Some pOpen =>
          if HasSuffix appTag "]" then
            (<["syslog_pid" := VStr (substr appTag (S pOpen) (pred (String.length appTag)))]>
               (<["syslog_app" := VStr (str_take pOpen appTag)]> headers), body)
          else (<["syslog_app" := VStr appTag]> headers, body)
      | None => (<["syslog_app" := VStr appTag]> headers, body)
      end
  | _ => (headers, remaining)
  end.

Definition rfc3164 (headers : fields) (rest : string) : fields * string :=
  match FindStringSubmatch 5 rfc3164Header rest with
  | Some [_; p1; p2; p3; p4; p5] =>
      rfc3164_tag
        (<["syslog_host" := VStr p4]>
           (<["syslog_time" := VStr (p1 +:+ " " +:+ p2 +:+ " " +:+ p3)]> headers)) p5
  | _ => (headers, rest)
  end.

(** The header part of [Decode]: the format variant, the headers, the body. *)
Definition syslog_envelope (raw : string) : res (string * fields * string) :=
  let trimmed := TrimSpace raw in
  if slen trimmed =? 0 then Err (errors_New "empty syslog message") else
  '(pri, rest) ← parse_pri trimmed;
  let headers := pri_headers pri in
  if HasPrefix rest "1 " then
    '(headers, msgBody) ← rfc5424 headers rest; Ok ("syslog_rfc5424", headers, msgBody)
  else
    let '(headers, msgBody) := rfc3164 headers rest in Ok ("syslog_rfc3164", headers, msgBody).

(** ** Layered payloads *)

(** [if _, exists := m[k]; !exists { m[k] = v }] *)
Definition assign_absent (m : gomap) (k : string) (v : value) : res gomap :=
  match entries m !! k with Some _ => Ok m | None => assign m k v end.

(** The range loop over the syslog headers: entry by entry, in any order. *)
Definition merge_absent (src : fields) (m : gomap) : res gomap :=
  foldr (λ kv r, m ← r; assign_absent m kv.1 kv.2) (Ok m) (map_to_list src).

Definition wrapInnerRecord (syslogHeaders : fields) (raw outerVariant : string) (rec : DecodedRecord)
    : res DecodedRecord :=
  hs ← assign (Headers rec) "syslog_envelope" (VStr outerVariant);
  hs ← merge_absent syslogHeaders hs;
  fl ← merge_absent syslogHeaders (Fields rec);
  Ok {| dr_RawID := dr_RawID rec; RecordOrdinal := RecordOrdinal rec; Format := Format rec;
        Headers := hs; Fields := fl; RawPayload := raw |}.

Fixpoint wrapInnerRecords (innerRecs : list DecodedRecord) (syslogHeaders : fields)
    (raw outerVariant : string) : res (list DecodedRecord) :=
  match innerRecs with
  | [] => Ok []
  | rec :: recs =>
      r ← wrapInnerRecord syslogHeaders raw outerVariant rec;
      rs ← wrapInnerRecords recs syslogHeaders raw outerVariant;
      Ok (r :: rs)
  end.

Section syslog.
(** The JSON and XML decoders the layered payload inspection calls. *)
Context (jsonDec xmlDec : Decoder).

(** Which decoder the trimmed body is handed to, if any. *)
Definition inner_decoder (b : string) : option Decoder :=
  if HasPrefix b "CEF:" then Some CEFDecoder
  else if HasPrefix b "LEEF:" then Some LEEFDecoder
  else if (HasPrefix b "{" && HasSuffix b "}") || (HasPrefix b "[" && HasSuffix b "]")
  then Some jsonDec
  else if HasPrefix b "<" && HasSuffix b ">" && negb (HasPrefix b "<!") then Some xmlDec
  else None.

Definition plain_record (variant : string) (headers : fields) (msgBody raw : string)
    : res (list DecodedRecord) :=
  kvPairs ← parseKeyValueTokens msgBody;
  let flds := copy_into headers (copy_into kvPairs {["message" := VStr msgBody]}) in
  Ok [single_record variant headers flds raw].

Definition SyslogDecoder_Decode (raw : string) : res (list DecodedRecord) :=
  if MaxPayloadBytes <? slen raw then
    Err (Errorf "syslog payload %d bytes exceeds maximum limit of %d" [AInt (slen raw); AInt MaxPayloadBytes])
  else
  '(formatVariant, headers, msgBody) ← syslog_envelope raw;
  if (5 <=? CountByte msgBody ",") && negb (balancedQuotes msgBody)
  then Err (errors_New "malformed syslog payload: unbalanced quoted field")
  else
  let trimmedBody := TrimSpace msgBody in
  match inner_decoder trimmedBody with
  | Some dec =>
      match Decode dec trimmedBody with
      | Ok [] | Err _ => plain_record formatVariant headers msgBody raw
      | Ok innerRecs => wrapInnerRecords innerRecs headers raw formatVariant
      | Panic p => Panic p
      end
  | None => plain_record formatVariant headers msgBody raw
  end.

Definition SyslogDecoder : Decoder :=
  {| Name := "syslog"; Detect := SyslogDecoder_Detect; Decode := SyslogDecoder_Decode |}.
End syslog.

(** ** Lemmas *)

Lemma valid_pri_range pri : valid_pri pri = true ↔ 0 ≤ pri ≤ 191.
Proof. unfold valid_pri. rewrite negb_true_iff, orb_false_iff. lia. Qed.

Lemma digits_no_gt s : all_bytes is_digit s = true → all_bytes (λ c, c <>b ">") s = true.
Proof.
  apply all_bytes_impl. intros c H. apply negb_true_iff, Ascii.eqb_neq. by intros ->.
Qed.


Lemma Itoa_pri_length pri :
  0 ≤ pri < 192 → ((1 <=? String.length (Itoa pri)) && (String.length (Itoa pri) <=? 3))%nat = true.
Proof. revert pri. by apply check_range; vm_compute. Qed.

Lemma parse_pri_text pri rest :
  0 ≤ pri ≤ 191 → parse_pri ("<" +:+ (Itoa pri +:+ (">" +:+ rest))) = Ok (pri, rest).
Proof.
  intros H. pose proof (Itoa_pri_length pri ltac:(lia)) as [H1 H2]%andb_prop.
  apply Nat.leb_le in H1, H2.
  unfold parse_pri. change (HasPrefix ("<" +:+ ?t) "<") with true. cbn [negb String.append IndexByte].
  change ("<"%char =b ">") with false. cbn [String.append].
  rewrite IndexByte_app by (apply digits_no_gt, Itoa_digits; lia). cbn [fmap option_fmap option_map].
  assert (substr (String "<" (Itoa pri +:+ String ">" rest)) 1 (S (String.length (Itoa pri))) = Itoa pri) as ->.
  { unfold substr. simpl. rewrite Nat.sub_0_r. apply take_app_str. }
  destruct (String.length (Itoa pri)) as [|n] eqn:El; [lia|].
  rewrite (proj2 (Nat.ltb_ge _ _)) by lia. rewrite Atoi_Itoa.
  2: { unfold in_int64, MinInt64, MaxInt64. lia. }
  rewrite (proj2 (valid_pri_range _)) by done. cbn [negb]. f_equal. f_equal.
  rewrite <- El. pose proof (drop_app_chr (Itoa pri) ">" rest) as Hd.
  rewrite Nat.add_comm in Hd. exact Hd.
Qed.

Lemma parse_pri_range t pri rest : parse_pri t = Ok (pri, rest) → 0 ≤ pri ≤ 191.
Proof.
  unfold parse_pri. repeat (case_match; try done); intros [= -> <-];
    apply valid_pri_range; by apply negb_false_iff.
Qed.

Lemma assign_absent_non_nil m k v :
  m ≠ None → ∃ f, assign_absent m k v = Ok (Some f).
Proof.
  intros Hm. unfold assign_absent. destruct m as [f|]; [|done]. simpl.
  destruct (f !! k); eauto.
Qed.

Lemma merge_absent_non_nil src m : m ≠ None → ∃ f, merge_absent src m = Ok (Some f).
Proof.
  intros Hm. unfold merge_absent. induction (map_to_list src) as [|kv l IH]; simpl.
  - destruct m; eauto; done.
  - destruct IH as [f ->]. simpl. by apply assign_absent_non_nil.
Qed.

Lemma wrapInnerRecord_ok hs raw v rec :
  non_nil rec = true → ∃ r, wrapInnerRecord hs raw v rec = Ok r ∧ RecordOrdinal r = RecordOrdinal rec
    ∧ non_nil r = true.
Proof.
  unfold non_nil, wrapInnerRecord. destruct (Headers rec) as [h|]; [|done].
  destruct (Fields rec) as [f|]; [|done]. intros _. cbn [assign mbind res_bind].
  destruct (merge_absent_non_nil hs (Some (<["syslog_envelope":=VStr v]> h))) as [h' ->]; [done|].
  cbn [mbind res_bind]. destruct (merge_absent_non_nil hs (Some f)) as [f' ->]; [done|].
  cbn [mbind res_bind]. eauto.
Qed.

Lemma wrapInnerRecords_ordinals hs raw v recs rs :
  wrapInnerRecords recs hs raw v = Ok rs → ordinals rs = ordinals recs.
Proof.
  revert rs. induction recs as [|rec recs IH]; intros rs; simpl; [by intros [= <-]|].
  intros (r & Hr & (rs' & Hrs & [= <-])%res_bind_ok)%res_bind_ok.
  unfold ordinals. rewrite !fmap_cons. f_equal; [|by apply IH].
  unfold wrapInnerRecord in Hr. res_inv. done.
Qed.

Lemma wrapInnerRecords_no_panic hs raw v recs :
  Forall (λ r, non_nil r = true) recs → no_panic (wrapInnerRecords recs hs raw v).
Proof.
  induction 1 as [|rec recs Hr _ IH]; simpl; [done|].
  destruct (wrapInnerRecord_ok hs raw v rec Hr) as (r & -> & _). simpl.
  by apply res_bind_no_panic.
Qed.

Lemma syslog_envelope_no_panic raw : no_panic (syslog_envelope raw).
Proof.
  unfold syslog_envelope. case_match; [done|]. apply res_bind_no_panic.
  { unfold parse_pri. by repeat case_match. }
  intros [pri rest] _. case_match; [|by destruct (rfc3164 _ _)].
  apply res_bind_no_panic; [|by intros []]. unfold rfc5424. repeat (case_match; try done).
  unfold rfc5424_body. repeat (case_match; try done).
  apply res_bind_no_panic; [|by intros []]. unfold splitRFC5424StructuredData.
  apply res_bind_no_panic; [|intros; by case_match]. clear.
  generalize (String.length s) as n. intros n. revert s.
  induction n as [|n IH]; intros [|c s]; simpl; try done.
  by repeat (case_match; try done).
Qed.

Lemma plain_record_ok v h b raw recs :
  plain_record v h b raw = Ok recs → ordinals recs = [0] ∧ Forall (λ r, non_nil r = true) recs.
Proof. unfold plain_record. intros (kv & _ & [= <-])%res_bind_ok. by repeat constructor. Qed.

Lemma plain_record_no_panic v h b raw : no_panic (plain_record v h b raw).
Proof. apply res_bind_no_panic; [apply parseKeyValueTokens_no_panic|done]. Qed.

Section laws.
Context (jsonDec xmlDec : Decoder) `{!LawfulDecoder jsonDec, !LawfulDecoder xmlDec}.

Lemma inner_decoder_lawful b dec : inner_decoder jsonDec xmlDec b = Some dec → LawfulDecoder dec.
Proof. unfold inner_decoder. repeat case_match; intros [= <-]; apply _. Qed.

#[export] Instance SyslogDecoder_lawful : LawfulDecoder (SyslogDecoder jsonDec xmlDec).
Proof.
  split.
  - intros raw. simpl. unfold SyslogDecoder_Detect. repeat case_match; lia.
  - intros raw recs. simpl. unfold SyslogDecoder_Decode. case_match; [done|]. lia.
  - intros raw recs. simpl. unfold SyslogDecoder_Decode. case_match; [done|].
    intros ([[v h] b] & _ & H')%res_bind_ok. case_match; [done|].
    assert (∀ r, plain_record v h b raw = Ok r → ordinals r = seqZ 0 (Z.of_nat (length r))) as Hplain.
    { intros r [Ho _]%plain_record_ok. pose proof (f_equal length Ho) as Hl.
      unfold ordinals in Hl. rewrite length_fmap in Hl. by rewrite Hl. }
    destruct (inner_decoder jsonDec xmlDec (TrimSpace b)) as [dec|] eqn:Ed; [|by apply Hplain].
    destruct (Decode dec (TrimSpace b)) as [rs| |] eqn:Er; [|by apply Hplain|done].
    destruct rs as [|r rs]; [by apply Hplain|].
    pose proof (wrapInnerRecords_ordinals _ _ _ _ _ H') as Ho.
    pose proof (inner_decoder_lawful _ _ Ed) as Hlaw.
    rewrite Ho, (decode_ordinals _ _ Er). f_equal. f_equal.
    apply (f_equal length) in Ho. unfold ordinals in Ho. by rewrite !length_fmap in Ho.
Qed.
End laws.

(** ** Properties *)

(** Every priority 0..191 printed between angle brackets is read back by the
    header parser, whatever follows it; and any priority the parser accepts
    splits into a facility in 0..23 and a severity in 0..7 that determine it. *)
Theorem parse_pri_spec (pri : Z) (rest : string) :
  (0 ≤ pri ≤ 191 → parse_pri ("<" +:+ (Itoa pri +:+ (">" +:+ rest))) = Ok (pri, rest))
  ∧ (∀ t rest', parse_pri t = Ok (pri, rest') →
       ∃ f s, pri_headers pri !! "syslog_facility" = Some (VInt f)
              ∧ pri_headers pri !! "syslog_severity" = Some (VInt s)
              ∧ 0 ≤ f ≤ 23 ∧ 0 ≤ s ≤ 7 ∧ 8 * f + s = pri).
Proof.
  split; [apply parse_pri_text|]. intros t rest' H%parse_pri_range.
  pose proof (Z.quot_rem' pri 8). pose proof (Z.rem_bound_pos pri 8 ltac:(lia) ltac:(lia)).
  exists (Z.quot pri 8), (Z.rem pri 8). split_and!; [done..| | | | |]; lia.
Qed.

(** ** When the decoder panics *)

(** The message passes the checks of the decoder, and its body is handed to [dec]. *)
Definition layered (jsonDec xmlDec : Decoder) (raw variant : string) (headers : fields) (msgBody : string) (dec : Decoder) : Prop :=
  slen raw ≤ MaxPayloadBytes ∧ syslog_envelope raw = Ok (variant, headers, msgBody)
  ∧ ((5 <=? CountByte msgBody ",") && negb (balancedQuotes msgBody)) = false
  ∧ inner_decoder jsonDec xmlDec (TrimSpace msgBody) = Some dec.

(** Where the decoders of a layered payload never panic, the syslog decoder panics only on a
    record of theirs that lacks a map. *)
Lemma SyslogDecoder_panic (jsonDec xmlDec : Decoder) (raw p : string) :
  TotalDecoder jsonDec → TotalDecoder xmlDec →
  SyslogDecoder_Decode jsonDec xmlDec raw = Panic p →
  ∃ v h b dec recs, layered jsonDec xmlDec raw v h b dec ∧ Decode dec (TrimSpace b) = Ok recs
                    ∧ ¬ Forall (λ r, non_nil r = true) recs.
Proof.
  intros Hjt Hxt Hp. assert (¬ no_panic (SyslogDecoder_Decode jsonDec xmlDec raw)) as Hn by (rewrite Hp; tauto). clear Hp.
  revert Hn. unfold SyslogDecoder_Decode. destruct (Z.ltb_spec MaxPayloadBytes (slen raw)) as [|Hlen]; [done|]. intros Hn.
  destruct (syslog_envelope raw) as [[[v h] b]| |] eqn:Ee; [|by destruct Hn|by pose proof (syslog_envelope_no_panic raw) as He; rewrite Ee in He].
  cbn [mbind res_bind] in Hn. destruct (_ && _) eqn:Eq in Hn; [by destruct Hn|].
  destruct (inner_decoder jsonDec xmlDec (TrimSpace b)) as [dec|] eqn:Ed; [|destruct Hn; apply plain_record_no_panic].
  assert (TotalDecoder dec) as Ht.
  { revert Ed. unfold inner_decoder. repeat case_match; intros [= <-]; apply _. }
  pose proof (Ht (TrimSpace b)) as Hd.
  destruct (Decode dec (TrimSpace b)) as [rs| |] eqn:Er; [|destruct Hn; apply plain_record_no_panic|done].
  exists v, h, b, dec, rs. split; [by split_and!|]. split; [done|]. intros Hall. destruct Hn.
  destruct rs as [|r rs]; [apply plain_record_no_panic|]. by apply wrapInnerRecords_no_panic.
Qed.

(** Conversely, such a record makes it panic: the headers of a message are never empty. *)
Lemma syslog_envelope_headers raw v h b : syslog_envelope raw = Ok (v, h, b) → h ≠ ∅.
Proof.
  assert (∀ (hs : fields) k x, <[k := x]> hs ≠ ∅) as Hins by (intros; apply insert_non_empty).
  assert (∀ hs sd h' b', hs ≠ ∅ → rfc5424_body hs sd = Ok (h', b') → h' ≠ ∅) as Hbody.
  { intros hs sd h' b' Hhs. unfold rfc5424_body. repeat case_match; try (intros [= <- <-]; first [exact Hhs|apply Hins]).
    intros ([x y] & _ & [= <- <-])%res_bind_ok. apply Hins. }
  assert (∀ hs t, hs ≠ ∅ → (rfc3164_tag hs t).1 ≠ ∅) as Htag.
  { intros hs t Hhs. unfold rfc3164_tag. repeat case_match; cbn [fst]; first [exact Hhs|apply Hins]. }
  unfold syslog_envelope. case_match; [done|]. intros ([pri rest] & _ & He)%res_bind_ok.
  assert (pri_headers pri ≠ ∅) as Hpri by (unfold pri_headers; cbn [list_to_map foldr]; apply Hins).
  case_match.
  - apply res_bind_ok in He as ([h' b'] & Hr & [= <- <- <-]). revert Hr. unfold rfc5424. case_match; [done|].
    case_match; [|intros [= <- <-]; apply Hins]. apply Hbody, Hins.
  - destruct (rfc3164 _ _) as [h' b'] eqn:Er. injection He as <- <- <-.
    assert ((rfc3164 (pri_headers pri) rest).1 ≠ ∅) as Hne; [|by rewrite Er in Hne].
    unfold rfc3164. repeat case_match; cbn [fst]; first [exact Hpri|apply Htag, Hins].
Qed.

Lemma merge_absent_nil src m : merge_absent src None = Ok m → src = ∅.
Proof.
  unfold merge_absent. intros Hm. apply map_to_list_empty_iff. revert m Hm. induction (map_to_list src) as [|kv l IH]; [done|].
  intros m. cbn [foldr]. intros (m' & Hm' & Hk)%res_bind_ok. pose proof (IH m' Hm') as ->. cbn in Hm'. by injection Hm' as <-.
Qed.

Lemma merge_absent_no_err src m e : merge_absent src m ≠ Err e.
Proof.
  unfold merge_absent. induction (map_to_list src) as [|kv l IH]; [done|]. cbn [foldr].
  destruct (foldr _ _ l) as [m'|e'|p']; cbn; [|congruence|done].
  unfold assign_absent. destruct (_ !! _); [done|]. by destruct m'.
Qed.

Lemma wrapInnerRecords_nil hs raw v recs :
  hs ≠ ∅ → ¬ Forall (λ r, non_nil r = true) recs → ∃ p, wrapInnerRecords recs hs raw v = Panic p.
Proof.
  intros Hhs. induction recs as [|rec recs IH]; intros Hn; [by destruct Hn|]. cbn [wrapInnerRecords].
  destruct (wrapInnerRecord hs raw v rec) as [r|e|p] eqn:Er; [|exfalso|by exists p].
  - assert (non_nil rec = true) as Hrec.
    { revert Er. unfold wrapInnerRecord, non_nil. destruct (Headers rec); [|done]. cbn [assign mbind res_bind].
      intros (h & _ & (f & Hf & _)%res_bind_ok)%res_bind_ok. destruct (Fields rec); [done|]. by apply merge_absent_nil in Hf. }
    destruct IH as [p Hp]; [intros Hall; apply Hn; by constructor|]. exists p. cbn [mbind res_bind]. by rewrite Hp.
  - revert Er. unfold wrapInnerRecord. destruct (Headers rec); [|done]. cbn [assign mbind res_bind].
    destruct (merge_absent hs (Some _)) as [h|e'|p] eqn:E1; cbn [mbind res_bind]; [|by apply merge_absent_no_err in E1|discriminate].
    destruct (merge_absent hs (Fields rec)) as [f|e'|p] eqn:E2; cbn [mbind res_bind];
      [discriminate|by apply merge_absent_no_err in E2|discriminate].
Qed.

Lemma SyslogDecoder_panics (jsonDec xmlDec : Decoder) (raw v : string) (h : fields) (b : string) (dec : Decoder) recs :
  layered jsonDec xmlDec raw v h b dec → Decode dec (TrimSpace b) = Ok recs → ¬ Forall (λ r, non_nil r = true) recs →
  ∃ p, SyslogDecoder_Decode jsonDec xmlDec raw = Panic p.
Proof.
  intros (Hlen & He & Hq & Hd) Hrecs Hn. unfold SyslogDecoder_Decode. rewrite (proj2 (Z.ltb_ge _ _)) by exact Hlen.
  rewrite He. cbn [mbind res_bind]. rewrite Hq, Hd, Hrecs. destruct recs as [|r recs]; [by destruct Hn|].
  apply wrapInnerRecords_nil; [by eapply syslog_envelope_headers|exact Hn].
Qed.

(** The syslog decoder never panics provided the JSON and XML decoders it hands a
    layered payload to neither panic nor return a record with a nil map. *)
Theorem SyslogDecoder_no_panic (jsonDec xmlDec : Decoder) (raw : string) :
  TotalDecoder jsonDec → TotalDecoder xmlDec → NonNilDecoder jsonDec → NonNilDecoder xmlDec →
  no_panic (SyslogDecoder_Decode jsonDec xmlDec raw).
Proof.
  intros Hjt Hxt Hjn Hxn. destruct (SyslogDecoder_Decode jsonDec xmlDec raw) as [| |p] eqn:E; [done..|].
  destruct (SyslogDecoder_panic _ _ _ _ Hjt Hxt E) as (v & h & b & dec & rs & (_ & _ & _ & Hd) & Hr & Hn). destruct Hn.
  assert (NonNilDecoder dec) as Hnn by (revert Hd; unfold inner_decoder; repeat case_match; intros [= <-]; apply _).
  by eapply Hnn.
Qed.

(** Decoders of one fixed outcome, to instantiate the interface. *)
Definition refusing_decoder (name : string) : Decoder :=
  {| Name := name; Detect _ := 0; Decode _ := Err (errors_New "refused") |}.

Lemma SyslogDecoder_no_panic_witness :
  no_panic (SyslogDecoder_Decode (refusing_decoder "json") (refusing_decoder "xml") "<34>1 - h a - - - {x}").
Proof.
  apply SyslogDecoder_no_panic.
  - intros raw. exact I.
  - intros raw. exact I.
  - intros raw recs H. discriminate H.
  - intros raw recs H. discriminate H.
Defined.
