(* ===== verification/Text.v ===== *)
(** * [internal/decode/text.go]: Combined Log Format and unstructured log lines *)

From S2P Require Import Prelude GoStrings GoNum GoRegexp Model Decoder KeyValue.

(** ** The fixed patterns *)

Definition rx_word : re := RPlus (RChr (cls_not cls_space)).          (* \S+ *)
Definition rx_sp : re := RPlus (RChr cls_space).                      (* \s+ *)
Definition rx_not (c : ascii) : re := RChr (cls_not (cls_lit c)).     (* [^c] *)
Definition rx_dq : re := RLit QUOTE.

(** NCSA Common / Combined Log Format: host ident user [time] "method path version"
    status bytes, optionally "referrer" "agent" *)
Definition clfRegex : re :=
  RSeqs [RBol; RGroup 1 rx_word; rx_sp; RGroup 2 rx_word; rx_sp; RGroup 3 rx_word; rx_sp;
         RLit "["; RGroup 4 (RPlus (rx_not "]")); RLit "]"; rx_sp;
         rx_dq; RGroup 5 (RPlus (RChr (cls_range "A" "Z"))); rx_sp; RGroup 6 rx_word; rx_sp;
         RGroup 7 (RPlus (rx_not QUOTE)); rx_dq; rx_sp;
         RGroup 8 (RRep 3 (RChr cls_digit)); rx_sp; RGroup 9 rx_word;
         ROpt (RSeqs [rx_sp; rx_dq; RGroup 10 (RStar (rx_not QUOTE)); rx_dq; rx_sp;
                      rx_dq; RGroup 11 (RStar (rx_not QUOTE)); rx_dq])].

Definition kv_key_class (r : Z) : bool := cls_alnum r || cls_lit "_" r || cls_lit "." r || cls_lit "-" r.

(** key=value, at the beginning or after white space *)
Definition genericKVRegex : re :=
  RSeqs [RAlt RBol rx_sp; RGroup 1 (RPlus (RChr kv_key_class)); RLit "="; RGroup 2 rx_word].

(** A MySQL general-log line: date, 'T' or space, time, TAB, thread, command *)
Definition mysqlFileLogRegex : re :=
  RSeqs [RBol; RRep 4 (RChr cls_digit); RLit "-"; RRep 2 (RChr cls_digit); RLit "-"; RRep 2 (RChr cls_digit);
         RChr (λ r, cls_lit "T" r || cls_lit " " r); RPlus (rx_not TAB); RLit TAB;
         RPlus (RChr cls_digit); rx_sp;
         RGroup 1 (RAlt (RLits "Query") (RAlt (RLits "Connect") (RAlt (RLits "Quit") (RLits "Init DB"))));
         RWordB].

(** ** Detection *)

Definition TextDecoder_Detect (raw : string) : confidence :=
  if slen raw =? 0 then 0
  else if negb (utf8_Valid raw) then 0
  else
  let s := TrimSpace raw in
  if slen s =? 0 then 0
  else if MatchString clfRegex s then 85
  else if HasPrefix s "REPORT RequestId:" || MatchString mysqlFileLogRegex s then 80
  else if (2 <=? length (FindAllIndex genericKVRegex s))%nat then 65
  else 51.

(** ** Decoding *)

(** The typed fields of a Combined Log Format match (group 0 first). *)
Definition clf_fields (m : list string) (s : string) : fields :=
  let g i := default "" (m !! i) in
  let status := match Atoi (g 8%nat) with Some code => VInt code | None => VStr (g 8%nat) end in
  let response_bytes :=
    if g 9%nat <>s "-" then
      match Atoi (g 9%nat) with Some b => VInt64 b | None => VStr (g 9%nat) end
    else VInt64 0 in
  let base : fields := list_to_map
    [("client_ip", VStr (g 1%nat)); ("ident", VStr (g 2%nat)); ("auth_user", VStr (g 3%nat));
     ("timestamp", VStr (g 4%nat)); ("http_method", VStr (g 5%nat)); ("url_path", VStr (g 6%nat));
     ("http_version", VStr (g 7%nat)); ("status_code", status); ("response_bytes", response_bytes);
     ("message", VStr s)] in
  let base := if g 10%nat <>s "" then <["referrer" := VStr (g 10%nat)]> base else base in
  if g 11%nat <>s "" then <["user_agent" := VStr (g 11%nat)]> base else base.

Definition TextDecoder_Decode (raw : string) : res (list DecodedRecord) :=
  if MaxPayloadBytes <? slen raw then
    Err (Errorf "text payload %d bytes exceeds maximum limit of %d" [AInt (slen raw); AInt MaxPayloadBytes])
  else if slen raw =? 0 then Err (errors_New "empty text payload")
  else
  let s := TrimSpace raw in
  if slen s =? 0 then Err (errors_New "empty text string")
  else if MaxTextLine <? slen s then
    Err (Errorf "text line length %d exceeds maximum limit of %d" [AInt (slen s); AInt MaxTextLine])
  else
  match FindStringSubmatch 11 clfRegex s with
  | Some m => Ok [single_record "text_clf" ∅ (clf_fields m s) raw]
  | None =>
      pairs ← parseKeyValueTokens s;
      Ok [single_record "text" ∅ (copy_into pairs {["message" := VStr s]}) raw]
  end.

Definition TextDecoder : Decoder :=
  {| Name := "text"; Detect := TextDecoder_Detect; Decode := TextDecoder_Decode |}.

#[export] Instance TextDecoder_lawful : LawfulDecoder TextDecoder.
Proof.
  split.
  - intros raw. simpl. unfold TextDecoder_Detect. repeat case_match; lia.
  - intros raw recs. simpl. unfold TextDecoder_Decode. case_match; [done|]. lia.
  - intros raw recs. simpl. unfold TextDecoder_Decode. repeat (case_match; try done).
    + by intros [= <-].
    + by intros (kv & _ & [= <-])%res_bind_ok.
Qed.

#[export] Instance TextDecoder_total : TotalDecoder TextDecoder.
Proof.
  intros raw. simpl. unfold TextDecoder_Decode. repeat (case_match; try done).
  apply res_bind_no_panic; [apply parseKeyValueTokens_no_panic|done].
Qed.

(** Every payload the text detector accepts is at least a candidate: text is the fallback. *)
Lemma TextDecoder_fallback raw :
  utf8_Valid raw = true → TrimSpace raw ≠ "" → 51 ≤ TextDecoder_Detect raw.
Proof.
  intros Hv Ht. unfold TextDecoder_Detect. rewrite Hv. destruct raw as [|c raw]; [done|].
  change (slen (String c raw) =? 0) with false. cbn [negb].
  destruct (TrimSpace (String c raw)) as [|d t] eqn:E; [done|].
  change (slen (String d t) =? 0) with false. repeat case_match; lia.
Qed.

Example clf_example :
  match TextDecoder_Decode ("10.0.1.50 - john [20/Sep/2026:10:15:01 +0530] " +:+ chr QUOTE +:+ "GET /dashboard HTTP/1.1" +:+ chr QUOTE +:+ " 200 15234") with
  | Ok [r] => Some (Format r, field r "status_code", field r "url_path", field r "response_bytes")
  | _ => None
  end = Some ("text_clf", Some (VInt 200), Some (VStr "/dashboard"), Some (VInt64 15234)).
Proof. vm_compute. reflexivity. Qed.
