(* ===== verification/Csv.v ===== *)
(** * [internal/decode/csv.go]: delimited tables

    [encoding/csv] reads its input by lines and normalizes their ends; here the whole input
    is normalized first ([csv_normalize]), so that a field is a prefix of what is left of
    it, also where a quoted field spans lines.  The reader's state is that rest and the
    number of fields of its first record. *)

From S2P Require Import Prelude GoStrings GoNum GoRegexp Model GoIO Decoder.

(** ** [encoding/csv] *)

Definition ErrBareQuote : error := errors_New "bare quote in non-quoted field".
Definition ErrQuote : error := errors_New "extraneous or missing quote in quoted-field".
Definition ErrFieldCount : error := errors_New "wrong number of fields".
Definition errInvalidDelim : error := errors_New "csv: invalid field or comment delimiter".

(** Each line without the carriage return at its end. *)
Definition csv_normalize (s : string) : string := Join (dropCR <$> Split s (chr LF)) (chr LF).

(** How a field ends: at a delimiter, or with its record. *)
Inductive field_end := MoreFields | EndOfRecord.

Section reader.
Context (comma : ascii) (trim : bool).       (* [Comma]; [TrimLeadingSpace] *)

Definition validDelim : bool :=
  negb ((bz comma =? 0) || (comma =b QUOTE) || (comma =b CR) || (comma =b LF)) && (bz comma <? 128).

(** The white space of the line before the field. *)
Definition trim_field (t : string) : string :=
  if trim then unrunes (drop_while (λ r, IsSpaceRune r.1 && negb (r.1 =? 10)) (runes t)) else t.

Fixpoint plain_field (t : string) : string * field_end * string :=
  match t with
  | "" => ("", EndOfRecord, "")
  | String c t' =>
      if c =b LF then ("", EndOfRecord, t')
      else if c =b comma then ("", MoreFields, t')
      else let '(f, e, r) := plain_field t' in (String c f, e, r)
  end.

(** The field whose opening quote was read. *)
Fixpoint quoted_field (t : string) : res (string * field_end * string) :=
  match t with
  | "" => Err ErrQuote
  | String c t' =>
      if c =b QUOTE then
        match t' with
        | "" => Ok ("", EndOfRecord, "")
        | String d t'' =>
            if d =b QUOTE then '(f, e, r) ← quoted_field t''; Ok (String QUOTE f, e, r)
            else if d =b comma then Ok ("", MoreFields, t'')
            else if d =b LF then Ok ("", EndOfRecord, t'')
            else Err ErrQuote
        end
      else '(f, e, r) ← quoted_field t'; Ok (String c f, e, r)
  end.

Definition csv_field (t : string) : res (string * field_end * string) :=
  match trim_field t with
  | String c t' as u =>
      if c =b QUOTE then quoted_field t'
      else let '(f, e, r) := plain_field u in
           if Contains f (chr QUOTE) then Err ErrBareQuote else Ok (f, e, r)
  | "" => Ok ("", EndOfRecord, "")
  end.

(** The fields of a record; each but the last consumes a delimiter, so that the length of the
    text is enough [fuel]. *)
Fixpoint csv_fields (fuel : nat) (t : string) : res (list string * string) :=
  match fuel with
  | O => Ok ([], t)
  | S fuel' =>
      '(f, e, r) ← csv_field t;
      match e with
      | EndOfRecord => Ok ([f], r)
      | MoreFields => '(fs, r') ← csv_fields fuel' r; Ok (f :: fs, r')
      end
  end.

Definition skip_empty_lines (t : string) : string := TrimLeftBytes (λ c, c =b LF) t.

Record csv_reader := { cr_rest : string; cr_fields : option nat }.
Definition NewReader (s : string) : csv_reader := {| cr_rest := csv_normalize s; cr_fields := None |}.

(** [Read]: [None] is [io.EOF]. *)
Definition csv_Read (r : csv_reader) : res (option (list string) * csv_reader) :=
  if negb validDelim then Err errInvalidDelim
  else
    match skip_empty_lines (cr_rest r) with
    | "" => Ok (None, {| cr_rest := ""; cr_fields := cr_fields r |})
    | t =>
        '(fs, rest) ← csv_fields (S (String.length t)) t;
        let n := length fs in
        match cr_fields r with
        | Some k => if (n =? k)%nat then Ok (Some fs, {| cr_rest := rest; cr_fields := Some k |}) else Err ErrFieldCount
        | None => Ok (Some fs, {| cr_rest := rest; cr_fields := Some n |})
        end
    end.
End reader.

(** ** Detection *)

Definition csvHeaderToken : re :=
  RSeqs [RBol; RChr (λ r, cls_range "A" "Z" r || cls_range "a" "z" r || cls_lit "_" r);
         RStar (RChr (λ r, cls_alnum r || cls_lit "_" r || cls_lit "." r || cls_lit " " r || cls_lit "-" r)); REol].
Definition csvTimestampPrefix : re :=
  RSeqs [RBol; RRep 4 (RChr cls_digit); RLit "-"; RRep 2 (RChr cls_digit); RLit "-"; RRep 2 (RChr cls_digit);
         RChr (λ r, cls_lit " " r || cls_lit "T" r)].

Definition csvHeaderRow (row : list string) : bool :=
  match row with [] => false | _ => forallb (λ cell, MatchString csvHeaderToken (TrimSpace cell)) row end.

Section csv.
Context (Comma : ascii).

Fixpoint best_delim (line : string) (candidates : list ascii) (best : ascii) (count : Z) : ascii :=
  match candidates with
  | [] => best
  | d :: ds => let cnt := CountByte line d in
               if count <? cnt then best_delim line ds d cnt else best_delim line ds best count
  end.

Definition detectDelimiter (line : string) : ascii :=
  if negb (bz Comma =? 0) && (Comma <>b ","%char) then Comma
  else best_delim line [","%char; TAB; ";"%char; "|"%char] ","%char 0.

Definition CSVDecoder_Detect (raw : string) : confidence :=
  match TrimSpace raw with
  | "" => 0
  | String firstChar _ as trimmed =>
      if (firstChar =b "{"%char) || (firstChar =b "["%char) || (firstChar =b "<"%char) then 0
      else if HasPrefix trimmed "CEF:" then 0
      else
        let lines := SplitN trimmed (chr LF) 3 in
        let line0 := default "" (head lines) in
        let delim := detectDelimiter line0 in
        let c1 := CountByte line0 delim in
        if c1 =? 0 then 0
        else
          match lines with
          | _ :: line1 :: _ => if c1 =? CountByte line1 delim then 85 else 0
          | _ =>
              if match csv_Read delim false (NewReader trimmed) with
                 | Ok (Some row, _) => csvHeaderRow row
                 | _ => false
                 end then 55
              else if (10 <=? c1) || MatchString csvTimestampPrefix trimmed then 55
              else 0
          end
  end.

(** ** Decoding *)

Definition column (i : Z) : string := "column_" +:+ Itoa i.

Definition header_names (rawHeaders : list string) (hasHeader : bool) : list string :=
  imap (λ i h, if hasHeader then TrimSpace h else column (Z.of_nat i)) rawHeaders.

(** [for colIdx, colVal := range row] *)
Definition row_fields (headers row : list string) : fields :=
  foldl (λ m '(i, v), <[default (column (Z.of_nat i)) (headers !! i) := VStr v]> m) ∅ (imap pair row).

Definition csv_record (headers : list string) (delim : ascii) (rowIdx : Z) (row : list string) : DecodedRecord :=
  {| dr_RawID := ""; RecordOrdinal := rowIdx; Format := "csv";
     Headers := Some {["csv_row" := VInt (rowIdx + 1); "column_count" := VInt (Z.of_nat (length headers));
                       "delimiter" := VStr (chr delim)]};
     Fields := Some (row_fields headers row); RawPayload := Join row (chr delim) |}.

Definition too_many_rows : error :=
  Errorf "CSV record count exceeded maximum allowed limit of %d child records" [AInt MaxChildren].

(** The loop over the rows: each reads at least a byte, so that the length of the text is
    enough [fuel]. *)
Fixpoint csv_rows (fuel : nat) (headers : list string) (delim : ascii) (rowIdx : Z) (reader : csv_reader)
    : res (list DecodedRecord) :=
  match fuel with
  | O => Ok []
  | S fuel' =>
      '(row, reader') ← wrap_err (λ e, Errorf "malformed CSV row %d: %w" [AInt (rowIdx + 1); AErr e]) (csv_Read delim true reader);
      match row with
      | None => Ok []
      | Some row =>
          if MaxChildren <=? rowIdx then Err too_many_rows
          else recs ← csv_rows fuel' headers delim (rowIdx + 1) reader'; Ok (csv_record headers delim rowIdx row :: recs)
      end
  end.

Definition CSVDecoder_Decode (raw : string) : res (list DecodedRecord) :=
  if MaxPayloadBytes <? slen raw then
    Err (Errorf "CSV payload %d bytes exceeds maximum limit of %d" [AInt (slen raw); AInt MaxPayloadBytes])
  else
    let trimmed := TrimSpace raw in
    if slen trimmed =? 0 then Err (errors_New "empty CSV payload")
    else
      let delim := detectDelimiter (default "" (head (SplitN trimmed (chr LF) 2))) in
      '(first, reader) ← wrap_err (λ e, Errorf "malformed CSV header: %w" [AErr e]) (csv_Read delim true (NewReader trimmed));
      match first with
      | None => Err (errors_New "empty CSV document")
      | Some rawHeaders =>
          let n := Z.of_nat (length rawHeaders) in
          if MaxFields <? n then Err (Errorf "CSV column count %d exceeds maximum limit of %d" [AInt n; AInt MaxFields])
          else
            let hasHeader := csvHeaderRow rawHeaders in
            let headers := header_names rawHeaders hasHeader in
            let rows := csv_rows (S (String.length (cr_rest reader))) headers delim in
            if hasHeader then rows 0 reader
            else recs ← rows 1 reader; Ok (csv_record headers delim 0 rawHeaders :: recs)
      end.
End csv.

Definition NewCSVDecoder : ascii := ","%char.

Definition CSVDecoder : Decoder :=
  {| Name := "csv"; Detect := CSVDecoder_Detect NewCSVDecoder; Decode := CSVDecoder_Decode NewCSVDecoder |}.

Example csv_decode_example :
  match CSVDecoder_Decode NewCSVDecoder ("src, port" +:+ String CR (String LF "10.0.0.1, 443") +:+ chr LF +:+ chr QUOTE +:+ "a, b" +:+ chr QUOTE +:+ ",x") with
  | Ok [r0; r1] => Some (field r0 "src", field r0 "port", field r1 "src", RawPayload r1, RecordOrdinal r1)
  | _ => None
  end = Some (Some (VStr "10.0.0.1"), Some (VStr "443"), Some (VStr "a, b"), "a, b,x", 1).
Proof. vm_compute. reflexivity. Qed.

(** ** The reader *)

Lemma plain_field_shorter c t f e r : t ≠ "" → plain_field c t = (f, e, r) → (String.length r < String.length t)%nat.
Proof.
  revert f. induction t as [|d t IH]; intros f Ht; [done|]. cbn [plain_field String.length].
  repeat (case_match; [intros [= _ _ <-]; lia|]). destruct t as [|d' t]; [intros [= _ _ <-]; simpl; lia|].
  destruct (plain_field c (String d' t)) as [[g e'] u]. intros [= _ -> ->]. specialize (IH g ltac:(done) eq_refl). lia.
Qed.

Lemma quoted_field_shorter c n t f e r :
  (String.length t ≤ n)%nat → quoted_field c t = Ok (f, e, r) → (String.length r < String.length t)%nat.
Proof.
  revert t f. induction n as [|n IH]; intros [|d t] f Hn; try done; [simpl in Hn; lia|]. cbn [quoted_field]. simpl in Hn.
  destruct (d =b QUOTE).
  - destruct t as [|d' t]; [intros [= _ _ <-]; simpl; lia|]. simpl in Hn. destruct (d' =b QUOTE).
    + intros ([[g e'] u] & E & [= _ -> ->])%res_bind_ok. apply IH in E; simpl; lia.
    + repeat (case_match; [intros [= _ _ <-]; simpl; lia|]). done.
  - intros ([[g e'] u] & E & [= _ -> ->])%res_bind_ok. apply IH in E; simpl; lia.
Qed.

Lemma drop_while_unrunes_length (p : rune → bool) t : (String.length (unrunes (drop_while p (runes t))) ≤ String.length t)%nat.
Proof.
  destruct (drop_while_suffix p (runes t)) as (k & E & _). rewrite <- (unrunes_runes t) at 2. rewrite E at 2.
  rewrite unrunes_app, length_app_str. lia.
Qed.

Lemma trim_field_length b t : (String.length (trim_field b t) ≤ String.length t)%nat.
Proof. unfold trim_field. destruct b; [apply drop_while_unrunes_length|done]. Qed.

Lemma csv_field_shorter c b t f e r : t ≠ "" → csv_field c b t = Ok (f, e, r) → (String.length r < String.length t)%nat.
Proof.
  intros Ht. unfold csv_field. pose proof (trim_field_length b t) as Hl. destruct (trim_field b t) as [|d u] eqn:Et.
  { intros [= _ <- <-]. destruct t; [done|simpl; lia]. }
  destruct (d =b QUOTE).
  - intros H%(quoted_field_shorter c _ _ _ _ _ (le_n _)). simpl in *. lia.
  - destruct (plain_field c (String d u)) as [[g e'] v] eqn:E. case_match; [done|]. intros [= _ -> ->].
    apply plain_field_shorter in E; [lia|done].
Qed.

Lemma csv_field_empty c b : csv_field c b "" = Ok ("", EndOfRecord, "").
Proof. by destruct b. Qed.

(** More fuel than the text is long changes nothing. *)
Lemma csv_fields_fuel c b n m t :
  (String.length t < n)%nat → (String.length t < m)%nat → csv_fields c b n t = csv_fields c b m t.
Proof.
  revert m t. induction n as [|n IH]; intros [|m] t Hn Hm; try lia. cbn [csv_fields].
  destruct (csv_field c b t) as [[[f []] r]| |] eqn:E; [|done..]. cbn [mbind res_bind].
  destruct (String.eqb_spec t "") as [->|Ht]; [by rewrite csv_field_empty in E|].
  apply csv_field_shorter in E; [|done]. rewrite (IH m r) by lia. done.
Qed.

Lemma csv_fields_shorter c b n t fs r :
  t ≠ "" → csv_fields c b n t = Ok (fs, r) → n ≠ O → (String.length r < String.length t)%nat.
Proof.
  assert (∀ n t fs r, csv_fields c b n t = Ok (fs, r) → (String.length r ≤ String.length t)%nat) as Hle.
  { clear. induction n as [|n IH]; intros t fs r; cbn [csv_fields]; [by intros [= _ <-]|]. intros ([[f e] u] & E & H)%res_bind_ok.
    assert (String.length u ≤ String.length t)%nat as Hu.
    { destruct (String.eqb_spec t "") as [->|Ht]; [rewrite csv_field_empty in E; by injection E as _ _ <-|].
      apply csv_field_shorter in E; [lia|done]. }
    destruct e; [|by injection H as _ <-]. apply res_bind_ok in H as ([fs' r'] & H & [= _ <-]). apply IH in H. lia. }
  intros Ht. destruct n as [|n]; [done|]. cbn [csv_fields]. intros ([[f e] u] & E & H)%res_bind_ok _.
  apply csv_field_shorter in E; [|done]. destruct e; [|by injection H as _ <-].
  apply res_bind_ok in H as ([fs' r'] & H & [= _ <-]). apply Hle in H. lia.
Qed.

Lemma TrimLeftBytes_length p t : (String.length (TrimLeftBytes p t) ≤ String.length t)%nat.
Proof. induction t as [|d t IH]; simpl; [done|]. case_match; simpl; lia. Qed.

Lemma csv_Read_shorter c b rd row rd' :
  csv_Read c b rd = Ok (Some row, rd') → (String.length (cr_rest rd') < String.length (cr_rest rd))%nat.
Proof.
  unfold csv_Read. case_match; [done|]. pose proof (TrimLeftBytes_length (λ c, c =b LF) (cr_rest rd)) as Hl. unfold skip_empty_lines.
  destruct (TrimLeftBytes _ (cr_rest rd)) as [|d t] eqn:Et; [done|].
  intros ([fs rest] & E & H')%res_bind_ok. apply csv_fields_shorter in E; [|done|done].
  destruct (cr_fields rd); [case_match; [|done]|]; injection H' as _ <-; simpl in *; lia.
Qed.

(** More fuel than bytes left changes nothing: the rows are read to the end of the text. *)
Lemma csv_rows_fuel n m headers d i rd :
  (String.length (cr_rest rd) < n)%nat → (String.length (cr_rest rd) < m)%nat →
  csv_rows n headers d i rd = csv_rows m headers d i rd.
Proof.
  revert m i rd. induction n as [|n IH]; intros [|m] i rd Hn Hm; try lia. cbn [csv_rows].
  destruct (csv_Read d true rd) as [[[row|] rd']| |] eqn:E; [|done..]. cbn [wrap_err mbind res_bind]. case_match; [done|].
  apply csv_Read_shorter in E. by rewrite (IH m) by lia.
Qed.

(** ** The decoder's interface *)

Lemma csv_rows_spec n headers d i rd recs :
  csv_rows n headers d i rd = Ok recs →
  ordinals recs = seqZ i (Z.of_nat (length recs)) ∧ Forall (λ r, non_nil r = true) recs
  ∧ (0 ≤ i ≤ MaxChildren → i + Z.of_nat (length recs) ≤ MaxChildren).
Proof.
  revert i rd recs. induction n as [|n IH]; intros i rd recs; cbn [csv_rows]; [intros [= <-]; split_and!; [done|constructor|simpl; lia]|].
  intros ([[row|] rd'] & _ & H)%res_bind_ok; [|injection H as <-; split_and!; [done|constructor|simpl; lia]].
  destruct (Z.leb_spec MaxChildren i); [done|]. apply res_bind_ok in H as (rest & Hr & [= <-]).
  destruct (IH _ _ _ Hr) as (Ho & Hn & Hl). split_and!; [by apply ordinals_cons|by constructor|]. intros Hi. cbn [length]. lia.
Qed.

Lemma csv_decode_spec comma raw recs :
  CSVDecoder_Decode comma raw = Ok recs →
  slen raw ≤ MaxPayloadBytes ∧ ordinals recs = seqZ 0 (Z.of_nat (length recs)) ∧ Forall (λ r, non_nil r = true) recs
  ∧ Z.of_nat (length recs) ≤ MaxChildren.
Proof.
  unfold CSVDecoder_Decode. destruct (Z.ltb_spec MaxPayloadBytes (slen raw)); [done|]. case_match; [done|]. split; [done|].
  revert H1. intros ([[row|] rd] & _ & H')%res_bind_ok; [|done]. cbv zeta in H'. case_match; [done|]. case_match.
  - apply csv_rows_spec in H' as (Ho & Hn & Hl). split_and!; [done..|]. assert (0 ≤ MaxChildren) by by vm_compute. lia.
  - apply res_bind_ok in H' as (rest & (Ho & Hn & Hl)%csv_rows_spec & [= <-]). assert (1 ≤ MaxChildren) by by vm_compute.
    split_and!; [by apply ordinals_cons|by constructor|]. cbn [length]. lia.
Qed.

#[export] Instance CSVDecoder_lawful : LawfulDecoder CSVDecoder.
Proof.
  split.
  - intros raw. cbn [Detect CSVDecoder]. unfold CSVDecoder_Detect. repeat case_match; lia.
  - by intros raw recs (? & _)%csv_decode_spec.
  - by intros raw recs (_ & ? & _)%csv_decode_spec.
Qed.

#[export] Instance CSVDecoder_non_nil : NonNilDecoder CSVDecoder.
Proof. by intros raw recs (_ & _ & ? & _)%csv_decode_spec. Qed.

Lemma quoted_field_no_panic c n t : (String.length t ≤ n)%nat → no_panic (quoted_field c t).
Proof.
  revert t. induction n as [|n IH]; intros [|d t] Hn; try done; [simpl in Hn; lia|]. cbn [quoted_field]. simpl in Hn. case_match.
  - destruct t as [|d' t]; [done|]. simpl in Hn. repeat (case_match; try done). apply res_bind_no_panic; [apply IH; lia|]. by intros [[? ?] ?].
  - apply res_bind_no_panic; [apply IH; lia|]. by intros [[? ?] ?].
Qed.

Lemma csv_fields_no_panic c b n t : no_panic (csv_fields c b n t).
Proof.
  revert t. induction n as [|n IH]; intros t; [done|]. apply res_bind_no_panic.
  - unfold csv_field. case_match; [done|]. case_match; [by eapply quoted_field_no_panic|]. destruct (plain_field _ _) as [[? ?] ?]. by case_match.
  - intros [[f []] r] _; [|done]. apply res_bind_no_panic; [done|]. by intros [? ?].
Qed.

Lemma csv_Read_no_panic c b rd : no_panic (csv_Read c b rd).
Proof.
  unfold csv_Read. case_match; [done|]. case_match; [done|]. apply res_bind_no_panic; [apply csv_fields_no_panic|].
  intros [fs rest] _. cbv zeta. by repeat case_match.
Qed.

#[export] Instance CSVDecoder_total : TotalDecoder CSVDecoder.
Proof.
  assert (∀ n h d i rd, no_panic (csv_rows n h d i rd)) as Hr.
  { intros n h d. induction n as [|n IH]; intros i rd; [done|].
    apply res_bind_no_panic; [apply wrap_err_no_panic, csv_Read_no_panic|]. intros [[row|] rd'] _; [|done].
    case_match; [done|]. by apply res_bind_no_panic. }
  intros raw. cbn [Decode CSVDecoder]. unfold CSVDecoder_Decode. case_match; [done|]. case_match; [done|].
  apply res_bind_no_panic; [apply wrap_err_no_panic, csv_Read_no_panic|]. intros [[row|] rd] _; [|done]. cbv zeta.
  case_match; [done|]. case_match; [done|]. by apply res_bind_no_panic.
Qed.

(** * Tables come out as they went in *)

(** A producer that quotes every cell, doubling the quotes in it. *)
Fixpoint double_quotes (s : string) : string :=
  match s with
  | "" => ""
  | String c s' => if c =b QUOTE then String QUOTE (String QUOTE (double_quotes s')) else String c (double_quotes s')
  end.
Definition quote_cell (s : string) : string := String QUOTE (double_quotes s +:+ chr QUOTE).
Definition comma : ascii := ","%char.
Definition row_text (row : list string) : string := Join (quote_cell <$> row) (chr comma).
Definition csv_text (rows : list (list string)) : string := Join (row_text <$> rows) (chr LF).

(** Cells without carriage returns, which the reader would take for line ends. *)
Definition cell_ok (s : string) : bool := all_bytes (λ c, c <>b CR) s.
Definition row_ok (n : nat) (row : list string) : bool := (length row =? n)%nat && forallb cell_ok row.

(** A header: names without white space at their ends, of letters, digits and [_. -]. *)
Definition header_byte (c : ascii) : bool :=
  let r := bz c in cls_alnum r || cls_lit "_" r || cls_lit "." r || cls_lit " " r || cls_lit "-" r.
Definition header_ok (headers : list string) : bool :=
  csvHeaderRow headers && forallb (λ h, (TrimSpace h =s h) && all_bytes header_byte h) headers.

(** ** The reader on a quoted table *)

Definition ends_with (e : field_end) (r t : string) : Prop :=
  match e with
  | MoreFields => t = String comma r
  | EndOfRecord => t = String LF r ∨ (t = "" ∧ r = "")
  end.

Lemma quoted_field_text s e r t : ends_with e r t → quoted_field comma (double_quotes s +:+ String QUOTE t) = Ok (s, e, r).
Proof.
  intros Ht. induction s as [|c s IH].
  - cbn [double_quotes]. change ("" +:+ String QUOTE t) with (String QUOTE t). cbn [quoted_field].
    change (QUOTE =b QUOTE) with true. cbn iota. destruct e; cbn in Ht; [by subst t|by destruct Ht as [->|[-> ->]]].
  - cbn [double_quotes]. destruct (Ascii.eqb_spec c QUOTE) as [->|Hc].
    + rewrite !app_cons_str. cbn [quoted_field]. change (QUOTE =b QUOTE) with true. cbn iota. by rewrite IH.
    + rewrite app_cons_str. cbn [quoted_field]. apply Ascii.eqb_neq in Hc as ->. by rewrite IH.
Qed.

Lemma trim_field_quote t : trim_field true (String QUOTE t) = String QUOTE t.
Proof.
  unfold trim_field. rewrite runes_ascii by done. rewrite drop_while_none by done. rewrite <- runes_ascii by done.
  by rewrite unrunes_runes.
Qed.

Lemma csv_field_text s e r t : ends_with e r t → csv_field comma true (quote_cell s +:+ t) = Ok (s, e, r).
Proof.
  intros Ht. unfold quote_cell, csv_field. rewrite app_cons_str, app_assoc_str. change (chr QUOTE +:+ t) with (String QUOTE t).
  rewrite trim_field_quote. change (QUOTE =b QUOTE) with true. cbn iota. by apply quoted_field_text.
Qed.

Lemma row_text_cons s s' row : row_text (s :: s' :: row) = quote_cell s +:+ String comma (row_text (s' :: row)).
Proof. unfold row_text. rewrite !fmap_cons, Join_cons. done. Qed.

Lemma csv_fields_text n s row r t :
  ends_with EndOfRecord r t → (length row < n)%nat → csv_fields comma true n (row_text (s :: row) +:+ t) = Ok (s :: row, r).
Proof.
  intros Ht. revert n s. induction row as [|s' row IH]; intros [|n] s Hn; try (simpl in Hn; lia).
  - cbn [csv_fields]. unfold row_text. cbn [fmap list_fmap Join]. change (Join [quote_cell s] (chr comma)) with (quote_cell s).
    by rewrite (csv_field_text s EndOfRecord r).
  - rewrite row_text_cons, app_assoc_str, app_cons_str. cbn [csv_fields].
    rewrite (csv_field_text s MoreFields (row_text (s' :: row) +:+ t)) by done. cbn [mbind res_bind].
    rewrite IH by (simpl in *; lia). done.
Qed.

Lemma length_row_text s row : (2 * length (s :: row) ≤ String.length (row_text (s :: row)))%nat.
Proof.
  revert s. induction row as [|s' row IH]; intros s.
  - unfold row_text, Join. simpl. rewrite length_app_str. simpl. lia.
  - rewrite row_text_cons. specialize (IH s'). unfold quote_cell at 1. rewrite !length_app_str. simpl in *. rewrite length_app_str. simpl. lia.
Qed.

Lemma row_text_head s row : ∃ u, row_text (s :: row) = String QUOTE u.
Proof. destruct row as [|s' row]; [by eexists|]. rewrite row_text_cons. by eexists. Qed.

(** The rest of a table after a row. *)
Definition rows_rest (rows : list (list string)) : string := match rows with [] => "" | _ => String LF (csv_text rows) end.

Lemma csv_text_cons row rows : csv_text (row :: rows) = row_text row +:+ rows_rest rows.
Proof. destruct rows as [|r rows]; [by rewrite app_nil_r_str|]. unfold csv_text. by rewrite !fmap_cons, Join_cons. Qed.

Lemma rows_rest_ends rows : ends_with EndOfRecord (csv_text rows) (rows_rest rows).
Proof. destruct rows; [by right|by left]. Qed.

Lemma csv_Read_text s row rows k :
  (match k with Some n => n = length (s :: row) | None => True end) →
  csv_Read comma true {| cr_rest := csv_text ((s :: row) :: rows); cr_fields := k |}
  = Ok (Some (s :: row), {| cr_rest := csv_text rows; cr_fields := Some (length (s :: row)) |}).
Proof.
  intros Hk. unfold csv_Read. change (validDelim comma) with true. cbn [negb cr_rest cr_fields].
  rewrite csv_text_cons. destruct (row_text_head s row) as [u Eu].
  assert (skip_empty_lines (row_text (s :: row) +:+ rows_rest rows) = row_text (s :: row) +:+ rows_rest rows) as -> by by rewrite Eu.
  destruct (row_text (s :: row) +:+ rows_rest rows) as [|c t] eqn:E; [by rewrite Eu in E|]. rewrite <- E.
  rewrite (csv_fields_text _ s row (csv_text rows)); [|apply rows_rest_ends|].
  - cbn [mbind res_bind]. destruct k as [n|]; [|done]. subst n. by rewrite Nat.eqb_refl.
  - rewrite length_app_str. pose proof (length_row_text s row). simpl in *. lia.
Qed.

Lemma csv_Read_end k : csv_Read comma true {| cr_rest := csv_text []; cr_fields := k |} = Ok (None, {| cr_rest := ""; cr_fields := k |}).
Proof. done. Qed.

Lemma csv_rows_text headers n fuel i rows :
  n ≠ O → Forall (λ row, length row = n) rows → (length rows < fuel)%nat → Z.of_nat i + Z.of_nat (length rows) ≤ MaxChildren →
  csv_rows fuel headers comma (Z.of_nat i) {| cr_rest := csv_text rows; cr_fields := Some n |}
  = Ok (imap (λ k, csv_record headers comma (Z.of_nat (i + k))) rows).
Proof.
  intros Hn Hrows. revert fuel i. induction Hrows as [|row rows Hrow _ IH]; intros [|fuel] i Hf Hi; try (simpl in Hf; lia); [done|].
  destruct row as [|s row]; [by subst n|]. cbn [csv_rows]. rewrite csv_Read_text by done. cbn [wrap_err mbind res_bind].
  cbn [length] in *. rewrite (proj2 (Z.leb_gt _ _)) by lia. replace (Z.of_nat i + 1) with (Z.of_nat (S i)) by lia.
  rewrite Hrow, IH by lia. cbn [mbind res_bind imap]. rewrite Nat.add_0_r. do 2 f_equal. apply imap_ext. intros k x _. unfold compose.
  by replace (i + S k)%nat with (S i + k)%nat by lia.
Qed.

(** ** The text around the rows *)

Lemma all_bytes_join p l sep : all_bytes p (Join l sep) = true → Forall (λ x, all_bytes p x = true) l.
Proof.
  induction l as [|x l IH]; [constructor|]. destruct l as [|y l]; [by constructor|].
  rewrite Join_cons, !all_bytes_app. intros [Hx [_ Hl]%andb_prop]%andb_prop. constructor; [done|]. by apply IH.
Qed.

Lemma all_bytes_join_intro p l sep :
  Forall (λ x, all_bytes p x = true) l → all_bytes p sep = true → all_bytes p (Join l sep) = true.
Proof.
  intros Hl Hs. induction Hl as [|x l Hx Hl IH]; [done|]. destruct l as [|y l]; [done|].
  by rewrite Join_cons, !all_bytes_app, Hx, Hs, IH.
Qed.

Lemma dropCR_id s : cell_ok s = true → dropCR s = s.
Proof.
  unfold cell_ok. intros Hs. destruct (dropCR_cases s) as [E|E]; [done|]. rewrite E, all_bytes_app in Hs.
  by rewrite andb_false_r in Hs.
Qed.

Lemma csv_normalize_id s : cell_ok s = true → csv_normalize s = s.
Proof.
  intros Hs. unfold csv_normalize. rewrite <- (Join_Split s (chr LF)) at 2. f_equal.
  unfold cell_ok in Hs. rewrite <- (Join_Split s (chr LF)) in Hs. apply all_bytes_join in Hs.
  induction Hs as [|x l Hx _ IH]; [done|]. by rewrite fmap_cons, IH, dropCR_id.
Qed.

Lemma quote_cell_bytes (p : ascii → bool) s : p QUOTE = true → all_bytes p s = true → all_bytes p (quote_cell s) = true.
Proof.
  intros Hq Hs. unfold quote_cell. cbn [all_bytes]. rewrite all_bytes_app, Hq. cbn [all_bytes chr andb]. rewrite Hq, andb_true_r.
  induction s as [|c s IH]; [done|]. cbn [all_bytes double_quotes] in *. apply andb_prop in Hs as [Hc Hs].
  case_match; cbn [all_bytes]; by rewrite ?Hq, ?Hc, IH.
Qed.

Lemma row_text_bytes (p : ascii → bool) row :
  p QUOTE = true → p comma = true → forallb (all_bytes p) row = true → all_bytes p (row_text row) = true.
Proof.
  intros Hq Hc Hr. apply all_bytes_join_intro; [|simpl; by rewrite Hc].
  apply Forall_fmap. rewrite forallb_forall in Hr. apply Forall_forall. intros s Hs. apply quote_cell_bytes; [done|].
  apply Hr. by apply list_elem_of_In.
Qed.

Lemma csv_text_ok rows : Forall (λ row, forallb cell_ok row = true) rows → cell_ok (csv_text rows) = true.
Proof.
  intros Hr. apply all_bytes_join_intro; [|done]. apply Forall_fmap. eapply Forall_impl; [exact Hr|]. intros row H. by apply row_text_bytes.
Qed.

Lemma row_text_framed s row : framed QUOTE QUOTE (row_text (s :: row)).
Proof.
  revert s. induction row as [|s' row IH]; intros s; [by eexists|]. rewrite row_text_cons. destruct (IH s') as [x ->].
  unfold quote_cell. eexists ((double_quotes s +:+ chr QUOTE) +:+ String comma (String QUOTE x)). rewrite app_cons_str. f_equal.
  by rewrite !app_assoc_str.
Qed.

Lemma csv_text_framed row rows : Forall (λ row, row ≠ []) (row :: rows) → framed QUOTE QUOTE (csv_text (row :: rows)).
Proof.
  revert row. induction rows as [|row' rows IH]; intros row [Hr Hrs]%Forall_cons.
  - destruct row; [done|]. apply row_text_framed.
  - unfold csv_text. rewrite !fmap_cons, Join_cons. apply framed_join; [|by apply IH]. destruct row; [done|]. apply row_text_framed.
Qed.

(** *** The delimiter *)

Lemma CountByte_none d s : all_bytes (λ c, c <>b d) s = true → CountByte s d = 0.
Proof. induction s as [|c s IH]; [done|]. simpl. intros [Hc Hs]%andb_prop. apply negb_true_iff in Hc as ->. by rewrite IH. Qed.

Lemma header_delimiter line : all_bytes (λ c, header_byte c || (c =b QUOTE) || (c =b comma)) line = true → detectDelimiter NewCSVDecoder line = comma.
Proof.
  intros Hl. unfold detectDelimiter. change (negb (bz NewCSVDecoder =? 0) && (NewCSVDecoder <>b ",")) with false. cbn iota.
  assert (∀ d, header_byte d || (d =b QUOTE) || (d =b comma) = false → CountByte line d = 0) as Hd.
  { intros d Hd. apply CountByte_none. eapply all_bytes_impl; [|exact Hl]. intros c Hc.
    destruct (Ascii.eqb_spec c d) as [->|]; [by rewrite Hc in Hd|done]. }
  cbn [best_delim]. rewrite (Hd TAB), (Hd ";"%char), (Hd "|"%char) by done.
  destruct (0 <? CountByte line ",") eqn:E; cbn [best_delim]; repeat (case_match; try done); lia.
Qed.

Lemma first_line x t : all_bytes (λ c, c <>b LF) x = true → head (SplitN (x +:+ String LF t) (chr LF) 2) = Some x.
Proof.
  intros Hx. unfold SplitN. cbn [split_aux]. rewrite Index_chr.
  rewrite IndexByte_app by done. cbn [head]. by rewrite take_app_str.
Qed.

Lemma only_line x : all_bytes (λ c, c <>b LF) x = true → head (SplitN x (chr LF) 2) = Some x.
Proof. intros Hx. apply IndexByte_None in Hx. unfold SplitN. cbn [split_aux]. by rewrite Index_chr, Hx. Qed.

(** ** The table *)

Lemma header_line headers s0 t :
  header_ok headers = true → headers = s0 :: t →
  all_bytes (λ c, header_byte c || (c =b QUOTE) || (c =b comma)) (row_text headers) = true
  ∧ forallb cell_ok headers = true ∧ header_names headers true = headers.
Proof.
  unfold header_ok. intros [_ Hh]%andb_prop _. rewrite forallb_forall in Hh. setoid_rewrite andb_true_iff in Hh. split_and!.
  - apply row_text_bytes; [done|done|]. apply forallb_forall. intros x Hx. eapply all_bytes_impl; [|apply (Hh x Hx)].
    intros c Hc. by rewrite Hc.
  - apply forallb_forall. intros x Hx. eapply all_bytes_impl; [|apply (Hh x Hx)].
    intros c. apply implb_true_iff. revert c. by apply check_byte; vm_compute.
  - unfold header_names. clear -Hh. assert (∀ i : nat, imap (λ _ h, TrimSpace h) headers = headers) as E; [|apply (E O)].
    intros _. induction headers as [|h headers IH]; [done|]. cbn [imap]. destruct (Hh h) as [Hx%String.eqb_eq _]; [by left|]. rewrite Hx. f_equal.
    apply IH. intros x Hin. apply Hh. by right.
Qed.

Lemma length_csv_text rows : Forall (λ row, row ≠ []) rows → (length rows ≤ String.length (csv_text rows))%nat.
Proof.
  induction 1 as [|row rows Hr Hrs IH]; [done|]. rewrite csv_text_cons, length_app_str. destruct row as [|s row]; [done|].
  pose proof (length_row_text s row). destruct rows as [|r rows]; [simpl in *; lia|]. cbn [rows_rest String.length length] in *. lia.
Qed.

Lemma row_fields_snoc headers row v :
  row_fields headers (row ++ [v])
  = <[default (column (Z.of_nat (length row))) (headers !! length row) := VStr v]> (row_fields headers row).
Proof. unfold row_fields. rewrite imap_app, foldl_app. cbn. by rewrite Nat.add_0_r. Qed.

Lemma row_fields_lookup headers row i h v :
  NoDup headers → (length row ≤ length headers)%nat → headers !! i = Some h → row !! i = Some v →
  row_fields headers row !! h = Some (VStr v).
Proof.
  intros Hnd. revert i h v. induction row as [|x row IH] using rev_ind; intros i h v Hl Hh Hv; [by rewrite lookup_nil in Hv|].
  rewrite row_fields_snoc. rewrite length_app in Hl. cbn [length] in Hl.
  destruct (lookup_lt_is_Some_2 headers (length row)) as [h' Hh']; [lia|]. rewrite Hh'. cbn [default from_option id].
  apply lookup_snoc_Some in Hv as [[Hi Hv]|[-> ->]].
  - rewrite lookup_insert_ne; [apply (IH i); [lia|done|done]|]. intros ->. pose proof (NoDup_lookup _ _ _ _ Hnd Hh Hh'). lia.
  - rewrite Hh' in Hh. injection Hh as ->. by rewrite lookup_insert_eq.
Qed.

(** C35: a table comes out as it went in, within limits that the code sets.  Take a table
    separated by commas, one row to a line, every cell quoted, whose first row is a header
    that the decoder recognises as one: each name is a letter or [_] followed by letters, digits,
    [_], [.], [-] and spaces, with no space at its end (with any other name the first row is taken
    for data and the columns are numbered, see [other_header_is_data]).  Every row has a cell
    per column, at most 1,000 ([MaxFields]); there are at most 10,000 rows ([MaxChildren]) and 10 MiB of text
    ([MaxPayloadBytes]); no cell has a carriage return, but delimiters, quotes and line feeds
    are free.  Then the decoder gives one record per row, in order and numbered from 0, which, if
    the names are distinct, maps each column's name to its cell. *)
Theorem csv_table_roundtrip (headers : list string) (rows : list (list string)) :
  header_ok headers = true → forallb (row_ok (length headers)) rows = true →
  Z.of_nat (length headers) ≤ MaxFields → Z.of_nat (length rows) ≤ MaxChildren →
  slen (csv_text (headers :: rows)) ≤ MaxPayloadBytes →
  CSVDecoder_Decode NewCSVDecoder (csv_text (headers :: rows))
  = Ok (imap (λ i, csv_record headers comma (Z.of_nat i)) rows)
  ∧ (NoDup headers → ∀ row i h v, row ∈ rows → headers !! i = Some h → row !! i = Some v →
     row_fields headers row !! h = Some (VStr v)).
Proof.
  intros Hh Hrows Hf Hn Hs. assert (csvHeaderRow headers = true) as Hhr by by apply andb_prop in Hh as [? _].
  destruct headers as [|s0 hs] eqn:Eh; [done|]. rewrite <- Eh in *.
  destruct (header_line headers s0 hs Hh Eh) as (Hline & Hhc & Hnames).
  assert (Forall (λ row, length row = length headers ∧ forallb cell_ok row = true) rows) as Hr.
  { rewrite forallb_forall in Hrows. apply Forall_forall. intros r Hin%list_elem_of_In%Hrows. unfold row_ok in Hin.
    apply andb_prop in Hin as [?%Nat.eqb_eq ?]. done. }
  assert (Forall (λ row, row ≠ []) rows) as Hne.
  { eapply Forall_impl; [exact Hr|]. intros r [Hl _] ->. by rewrite Eh in Hl. }
  split; [|intros Hnd row i h v Hin; apply row_fields_lookup; [done|]; rewrite Forall_forall in Hr; by destruct (Hr row Hin) as [-> _]].
  assert (framed QUOTE QUOTE (csv_text (headers :: rows))) as Hfr.
  { apply csv_text_framed. constructor; [by subst|done]. }
  assert (cell_ok (csv_text (headers :: rows)) = true) as Hok.
  { apply csv_text_ok. constructor; [done|]. eapply Forall_impl; [exact Hr|]. by intros r [_ ?]. }
  assert (all_bytes (λ c, c <>b LF) (row_text headers) = true) as Hlf.
  { eapply all_bytes_impl; [|exact Hline]. intros c. apply implb_true_iff. revert c. by apply check_byte; vm_compute. }
  assert (head (SplitN (csv_text (headers :: rows)) (chr LF) 2) = Some (row_text headers)) as Hfirst.
  { rewrite csv_text_cons. destruct rows; [by rewrite app_nil_r_str; apply only_line|by apply first_line]. }
  unfold CSVDecoder_Decode. rewrite (proj2 (Z.ltb_ge _ _)) by done. rewrite (TrimSpace_frame QUOTE QUOTE _ eq_refl eq_refl Hfr), Hfirst.
  cbn [default from_option id]. rewrite (header_delimiter _ Hline). unfold NewReader. rewrite csv_normalize_id by done.
  assert ((slen (csv_text (headers :: rows)) =? 0) = false) as -> by (destruct Hfr as [x ->]; unfold slen; simpl; lia).
  rewrite Eh, csv_Read_text by done. rewrite <- Eh. cbn [wrap_err mbind res_bind]. rewrite (proj2 (Z.ltb_ge _ _)) by done.
  rewrite Hhr, Hnames. cbn [cr_rest].
  apply (csv_rows_text headers (length headers) _ 0).
  - by rewrite Eh.
  - eapply Forall_impl; [exact Hr|]. by intros r [? _].
  - pose proof (length_csv_text rows Hne). lia.
  - lia.
Qed.

Definition sample_rows : list (list string) :=
  [["10.0.0.1"; "a, b"]; ["fe80::1"; chr QUOTE +:+ "x" +:+ chr QUOTE +:+ chr LF]].

Lemma csv_table_roundtrip_witness :
  CSVDecoder_Decode NewCSVDecoder (csv_text (["src"; "msg"] :: sample_rows))
  = Ok (imap (λ i, csv_record ["src"; "msg"] comma (Z.of_nat i)) sample_rows).
Proof.
  apply csv_table_roundtrip.
  - vm_compute. reflexivity.
  - vm_compute. reflexivity.
  - vm_compute. discriminate.
  - vm_compute. discriminate.
  - vm_compute. discriminate.
Defined.

(** An empty cell between tabs is taken for white space before the next field: the row comes
    out one field short and the table is refused. *)
Lemma empty_tab_cell_refused :
  CSVDecoder_Decode NewCSVDecoder (Join [Join ["a"; "b"; "c"] (chr TAB); Join ["1"; ""; "3"] (chr TAB)] (chr LF))
  = Err (Errorf "malformed CSV row %d: %w" [AInt 1; AErr ErrFieldCount]).
Proof. vm_compute. reflexivity. Qed.

(** A column with a unit in brackets: the header is taken for a row. *)
Lemma other_header_is_data :
  CSVDecoder_Decode NewCSVDecoder (csv_text [["src"; "Bytes(KB)"]; ["10.0.0.1"; "7"]])
  = Ok (imap (λ i, csv_record ["column_0"; "column_1"] comma (Z.of_nat i)) [["src"; "Bytes(KB)"]; ["10.0.0.1"; "7"]]).
Proof. vm_compute. reflexivity. Qed.
