(* ===== verification/Json.v ===== *)
(** * [internal/decode/json.go]: JSON objects, arrays and NDJSON streams *)

From S2P Require Import Prelude GoStrings GoNum Model GoIO GoJson Decoder.

(** ** Detect *)

Definition array_start (c : ascii) : bool :=
  (c =b "{"%char) || (c =b QUOTE) || (c =b "["%char) || (c =b "]"%char) || is_digit c || (c =b "-"%char)
  || (c =b "t"%char) || (c =b "f"%char) || (c =b "n"%char).

Definition JSONDecoder_Detect (raw : string) : confidence :=
  match TrimSpace raw with
  | "" => 0
  | String c rest as trimmed =>
      if c =b "{"%char then 95
      else if c =b "["%char then
        if (1 <? slen trimmed) && match str_last trimmed with Some d => d =b "]"%char | None => false end
        then match TrimSpace rest with
             | String d _ => if array_start d then 90 else 0
             | "" => 0
             end
        else 0
      else 0
  end.

(** ** The nesting check, byte by byte *)

Record scanned := { sc_depth : Z; sc_string : bool; sc_escaped : bool }.

Definition depth_error : error := Errorf "JSON nesting exceeds maximum depth %d" [AInt MaxDepth].

Definition depth_byte (b : ascii) (s : scanned) : res scanned :=
  if sc_string s then
    Ok (if sc_escaped s then {| sc_depth := sc_depth s; sc_string := true; sc_escaped := false |}
        else if b =b BACKSLASH then {| sc_depth := sc_depth s; sc_string := true; sc_escaped := true |}
        else if b =b QUOTE then {| sc_depth := sc_depth s; sc_string := false; sc_escaped := false |}
        else s)
  else if b =b QUOTE then Ok {| sc_depth := sc_depth s; sc_string := true; sc_escaped := sc_escaped s |}
  else if (b =b "{"%char) || (b =b "["%char) then
    let d := sc_depth s + 1 in
    if MaxDepth <? d then Err depth_error
    else Ok {| sc_depth := d; sc_string := false; sc_escaped := sc_escaped s |}
  else if (b =b "}"%char) || (b =b "]"%char)
  then Ok {| sc_depth := sc_depth s - 1; sc_string := false; sc_escaped := sc_escaped s |}
  else Ok s.

Fixpoint depth_loop (raw : string) (s : scanned) : res scanned :=
  match raw with
  | "" => Ok s
  | String b raw' => s' ← depth_byte b s; depth_loop raw' s'
  end.

Definition validateJSONDepth (raw : string) : res unit :=
  _ ← depth_loop raw {| sc_depth := 0; sc_string := false; sc_escaped := false |}; Ok ().

(** ** Decode *)

(** [len(fields)] of a map that may be nil *)
Definition map_len (m : gomap) : Z := Z.of_nat (size (entries m)).

Definition json_record (i : Z) (format : string) (headers : fields) (m : gomap) (raw : string) : DecodedRecord :=
  {| dr_RawID := ""; RecordOrdinal := i; Format := format; Headers := Some headers; Fields := m; RawPayload := raw |}.

Fixpoint array_records (total i : Z) (items : list string) : res (list DecodedRecord) :=
  match items with
  | [] => Ok []
  | itemBytes :: items' =>
      m ← wrap_err (λ e, Errorf "malformed JSON object at array index %d: %w" [AInt i; AErr e]) (Unmarshal_map itemBytes);
      if MaxFields <? map_len m then
        Err (Errorf "JSON object at index %d exceeds maximum fields limit %d (got %d)" [AInt i; AInt MaxFields; AInt (map_len m)])
      else
        recs ← array_records total (i + 1) items';
        Ok (json_record i "json_array" {["batch_index" := VInt i; "batch_total" := VInt total]} m itemBytes :: recs)
  end.

Definition decode_array (trimmed : string) : res (list DecodedRecord) :=
  rawArray ← wrap_err (λ e, Errorf "malformed JSON array: %w" [AErr e]) (Unmarshal_raws trimmed);
  let n := Z.of_nat (length rawArray) in
  if MaxChildren <? n then
    Err (Errorf "JSON array exceeds bounded maximum of %d elements (got %d)" [AInt MaxChildren; AInt n])
  else array_records n 0 rawArray.

(** [bufio.ScanLines] cuts at line feeds and drops one carriage return before them; a line that
    does not fit the buffer of 64 KiB together with its line feed ends the scan. *)
Definition MaxScanTokenSize : Z := 64 * 1024.
Definition ErrTooLong : error := errors_New "bufio.Scanner: token too long".

(** The loop over the lines; the text does not end in a line feed. *)
Fixpoint ndjson_records (ordinal : Z) (lines : list string) : res (list DecodedRecord) :=
  match lines with
  | [] => Ok []
  | segment :: lines' =>
      if MaxScanTokenSize <=? slen segment then Err (Errorf "NDJSON scanner error: %w" [AErr ErrTooLong])
      else if MaxChildren <=? ordinal then Err (Errorf "NDJSON exceeds maximum allowed child records %d" [AInt MaxChildren])
      else
        let line := TrimSpace (dropCR segment) in
        if slen line =? 0 then ndjson_records ordinal lines'
        else
          m ← wrap_err (λ e, Errorf "malformed NDJSON line at ordinal %d: %w" [AInt ordinal; AErr e]) (Unmarshal_map line);
          if MaxFields <? map_len m then
            Err (Errorf "NDJSON object at ordinal %d exceeds maximum fields limit %d (got %d)"
                   [AInt ordinal; AInt MaxFields; AInt (map_len m)])
          else
            recs ← ndjson_records (ordinal + 1) lines';
            Ok (json_record ordinal "ndjson" {["record_ordinal" := VInt ordinal]} m line :: recs)
  end.

Definition decode_lines (trimmed : string) (e : error) : res (list DecodedRecord) :=
  let malformed := Err (Errorf "malformed JSON object: %w" [AErr e]) in
  if Contains trimmed (chr LF) then
    recs ← ndjson_records 0 (Split trimmed (chr LF));
    match recs with [] => malformed | _ => Ok recs end
  else malformed.

Definition decode_object (trimmed : string) : res (list DecodedRecord) :=
  match Unmarshal_map trimmed with
  | Ok m =>
      if MaxFields <? map_len m then
        Err (Errorf "JSON object exceeds maximum fields limit %d (got %d)" [AInt MaxFields; AInt (map_len m)])
      else Ok [json_record 0 "json" ∅ m trimmed]
  | Err e => decode_lines trimmed e
  | Panic p => Panic p
  end.

Definition JSONDecoder_Decode (raw : string) : res (list DecodedRecord) :=
  if MaxPayloadBytes <? slen raw then
    Err (Errorf "JSON payload %d bytes exceeds maximum limit of %d" [AInt (slen raw); AInt MaxPayloadBytes])
  else
    let trimmed := TrimSpace raw in
    if slen trimmed =? 0 then Err (errors_New "empty JSON payload")
    else
      _ ← validateJSONDepth trimmed;
      match trimmed with
      | String c _ => if c =b "["%char then decode_array trimmed else decode_object trimmed
      | "" => decode_object trimmed
      end.

Definition JSONDecoder : Decoder :=
  {| Name := "json"; Detect := JSONDecoder_Detect; Decode := JSONDecoder_Decode |}.

(** ** The decoder's interface *)

Lemma depth_byte_no_panic b s : no_panic (depth_byte b s).
Proof. unfold depth_byte. by repeat case_match. Qed.

Lemma depth_loop_no_panic raw s : no_panic (depth_loop raw s).
Proof.
  revert s. induction raw as [|b raw IH]; intros s; [done|].
  apply res_bind_no_panic; [apply depth_byte_no_panic|intros s' _; apply IH].
Qed.

Lemma array_records_spec total i items recs :
  array_records total i items = Ok recs →
  ordinals recs = seqZ i (Z.of_nat (length recs))
  ∧ Forall2 (λ item r, RawPayload r = item ∧ Unmarshal_map item = Ok (Fields r) ∧ map_len (Fields r) ≤ MaxFields) items recs.
Proof.
  revert i recs. induction items as [|x items IH]; intros i recs; cbn [array_records]; [by intros [= <-]|].
  intros (m & Hm%wrap_err_ok & H)%res_bind_ok. destruct (Z.ltb_spec MaxFields (map_len m)); [done|].
  apply res_bind_ok in H as (rest & Hrest & [= <-]). destruct (IH _ _ Hrest) as [Ho Hf].
  split; [by apply ordinals_cons|]. by constructor.
Qed.

Lemma ndjson_records_spec i lines recs :
  ndjson_records i lines = Ok recs →
  ordinals recs = seqZ i (Z.of_nat (length recs))
  ∧ Forall2 (λ line r, RawPayload r = TrimSpace (dropCR line) ∧ Unmarshal_map (TrimSpace (dropCR line)) = Ok (Fields r)
                       ∧ map_len (Fields r) ≤ MaxFields)
      (List.filter (λ line, negb (slen (TrimSpace (dropCR line)) =? 0)) lines) recs.
Proof.
  revert i recs. induction lines as [|x lines IH]; intros i recs; cbn [ndjson_records List.filter]; [by intros [= <-]|].
  case_match; [done|]. case_match; [done|]. destruct (slen (TrimSpace (dropCR x)) =? 0); cbn [negb]; [apply IH|].
  intros (m & Hm%wrap_err_ok & H')%res_bind_ok. destruct (Z.ltb_spec MaxFields (map_len m)); [done|].
  apply res_bind_ok in H' as (rest & Hrest & [= <-]). destruct (IH _ _ Hrest) as [Ho Hf].
  split; [by apply ordinals_cons|]. by constructor.
Qed.
