(* ===== verification/JsonDepth.v ===== *)
(** * The nesting check of the JSON decoder: what it bounds, and what it lets through *)

From S2P Require Import Prelude GoStrings GoNum Model GoIO GoJson JsonText Decoder Json.

(** ** The check on tokens *)

Definition opens (l : lexeme) : bool := match l with LBrace | LBracket => true | _ => false end.
Definition level (l : lexeme) : Z := match l with LBrace | LBracket => 1 | RBrace | RBracket => -1 | _ => 0 end.

(** The nesting after the lexemes, or [None] where it exceeded the bound. *)
Fixpoint levels (d : Z) (ls : list lexeme) : option Z :=
  match ls with
  | [] => Some d
  | l :: ls' => if opens l && (MaxDepth <? d + 1) then None else levels (d + level l) ls'
  end.

Definition at_depth (d : Z) : scanned := {| sc_depth := d; sc_string := false; sc_escaped := false |}.

(** Reading [t] anywhere outside a string acts as the lexemes [ls]. *)
Definition acts (t : string) (ls : list lexeme) : Prop :=
  ∀ u d, depth_loop (t +:+ u) (at_depth d)
         = match levels d ls with Some d' => depth_loop u (at_depth d') | None => Err depth_error end.

Lemma levels_app d ls1 ls2 : levels d (ls1 ++ ls2) = (d' ← levels d ls1; levels d' ls2).
Proof. revert d. induction ls1 as [|l ls1 IH]; intros d; simpl; [done|]. case_match; [done|apply IH]. Qed.

Lemma acts_app t1 t2 ls1 ls2 : acts t1 ls1 → acts t2 ls2 → acts (t1 +:+ t2) (ls1 ++ ls2).
Proof.
  intros H1 H2 u d. rewrite app_assoc_str, H1, levels_app. destruct (levels d ls1) as [d'|]; [|done]. apply H2.
Qed.

Lemma acts_nil : acts "" [].
Proof. by intros u d. Qed.

Definition calm_byte (c : ascii) : bool :=
  (c <>b QUOTE) && (c <>b "{"%char) && (c <>b "["%char) && (c <>b "}"%char) && (c <>b "]"%char).

Lemma acts_calm t : all_bytes calm_byte t = true → acts t [].
Proof.
  induction t as [|c t IH]; [by intros _ u d|]. cbn [all_bytes]. intros [Hc Ht]%andb_prop u d.
  rewrite app_cons_str. cbn [depth_loop]. unfold calm_byte in Hc. rewrite !andb_true_iff, !negb_true_iff in Hc.
  destruct Hc as [[[[Hq H1] H2] H3] H4]. unfold depth_byte at 1. cbn [sc_string at_depth]. rewrite Hq, H1, H2, H3, H4. by apply IH.
Qed.

Definition in_string (d : Z) : scanned := {| sc_depth := d; sc_string := true; sc_escaped := false |}.

Lemma depth_loop_escape c u d : depth_loop (String BACKSLASH (String c u)) (in_string d) = depth_loop u (in_string d).
Proof. done. Qed.

Lemma depth_loop_plain c u d :
  c ≠ QUOTE → c ≠ BACKSLASH → depth_loop (String c u) (in_string d) = depth_loop u (in_string d).
Proof.
  intros Hq Hb. cbn [depth_loop]. unfold depth_byte at 1. cbn [sc_string sc_escaped in_string].
  apply Ascii.eqb_neq in Hq as ->. by apply Ascii.eqb_neq in Hb as ->.
Qed.

Lemma hex_plain c : is_hex c = true → c ≠ QUOTE ∧ c ≠ BACKSLASH.
Proof. intros H. by split; intros ->. Qed.

Lemma depth_loop_string n s b r u d :
  (String.length s ≤ n)%nat → string_body s = Some (b, r) →
  depth_loop (b +:+ String QUOTE u) (in_string d) = depth_loop u (at_depth d).
Proof.
  revert s b r. induction n as [|n IH]; intros [|c s] b r Hn; try done; [simpl in Hn; lia|]. cbn [string_body]. simpl in Hn.
  destruct (Ascii.eqb_spec c QUOTE) as [->|Hq]; [by intros [= <- <-]|].
  destruct (Ascii.eqb_spec c BACKSLASH) as [->|Hb].
  - destruct s as [|e s]; [done|]. simpl in Hn. destruct (e =b "u").
    + destruct s as [|h1 [|h2 [|h3 [|h4 s]]]]; try done. simpl in Hn. case_match eqn:Hh; [|done].
      rewrite !andb_true_iff in Hh. destruct Hh as [[[[? ?]%hex_plain [? ?]%hex_plain] [? ?]%hex_plain] [? ?]%hex_plain].
      intros ([b' r'] & E & [= <- <-])%bind_Some. rewrite !app_cons_str, depth_loop_escape, !depth_loop_plain by done.
      apply (IH s b' r'); [lia|done].
    + destruct (escape_code e); [|done]. intros ([b' r'] & E & [= <- <-])%bind_Some.
      rewrite !app_cons_str, depth_loop_escape. apply (IH s b' r'); [lia|done].
  - destruct (bz c <? 32); [done|]. intros ([b' r'] & E & [= <- <-])%bind_Some.
    rewrite app_cons_str, depth_loop_plain by done. apply (IH s b' r'); [lia|done].
Qed.

(** *** The text of a number *)

Lemma span_bytes_all p s : let '(x, _) := span_bytes p s in all_bytes p x = true.
Proof.
  induction s as [|c s IH]; simpl; [done|]. destruct (p c) eqn:E; [|done]. destruct (span_bytes p s) as [x r]. simpl. by rewrite E.
Qed.

Definition number_byte (c : ascii) : bool := is_digit c || (c =b "."%char) || is_exp c || is_sign c.
Lemma number_byte_calm c : number_byte c = true → calm_byte c = true.
Proof. apply implb_true_iff. revert c. by apply check_byte; vm_compute. Qed.

Lemma digits_number_byte x : all_bytes is_digit x = true → all_bytes number_byte x = true.
Proof. apply all_bytes_impl. intros c Hc. unfold number_byte. by rewrite Hc. Qed.

Lemma lex_digits_bytes s x r : lex_digits s = Some (x, r) → all_bytes number_byte x = true.
Proof.
  unfold lex_digits. pose proof (span_bytes_all is_digit s) as H. destruct (span_bytes is_digit s) as [[|c d] u]; [done|].
  intros [= <- <-]. by apply digits_number_byte.
Qed.

Lemma lex_number_bytes s t r : lex_number s = Some (t, r) → all_bytes number_byte t = true.
Proof.
  assert (all_bytes number_byte (lex_sign s).1 = true) as E0.
  { destruct s as [|c s]; simpl; [done|]. destruct (Ascii.eqb_spec c "-") as [->|]; done. }
  unfold lex_number. destruct (lex_sign s) as [sg s1]. simpl in E0.
  intros ([i s2] & E1 & ([f s3] & E2 & ([e s4] & E3 & [= <- <-])%bind_Some)%bind_Some)%bind_Some.
  rewrite !all_bytes_app, E0. cbn [andb].
  assert (all_bytes number_byte i = true) as ->.
  { destruct s1 as [|c s1]; [done|]. simpl in E1. destruct (Ascii.eqb_spec c "0") as [->|]; [by simplify_eq|].
    destruct (is_digit c) eqn:Hc; [|done]. injection E1 as E1. pose proof (span_bytes_all is_digit s1) as H.
    destruct (span_bytes is_digit s1) as [x y]. simplify_eq. cbn [all_bytes]. rewrite (digits_number_byte _ H).
    unfold number_byte. by rewrite Hc. }
  assert (all_bytes number_byte f = true) as ->.
  { destruct s2 as [|c s2]; simpl in E2; [by simplify_eq|]. destruct (Ascii.eqb_spec c ".") as [->|]; [|by simplify_eq].
    apply bind_Some in E2 as ([d u] & H%lex_digits_bytes & [= <- <-]). simpl. by rewrite H. }
  destruct s3 as [|c s3]; simpl in E3; [by simplify_eq|]. destruct (is_exp c) eqn:Hc; [|by simplify_eq].
  apply bind_Some in E3 as ([d u] & E3 & [= <- <-]). cbn [all_bytes].
  assert (number_byte c = true) as -> by (unfold number_byte; rewrite Hc; by rewrite orb_true_r).
  destruct s3 as [|c' s3]; [done|]. cbn [lex_exp_digits] in E3. destruct (is_sign c') eqn:Hs.
  - apply bind_Some in E3 as ([d' u'] & H%lex_digits_bytes & [= <- <-]). cbn [all_bytes]. rewrite H.
    unfold number_byte. by rewrite Hs, !orb_true_r.
  - by apply lex_digits_bytes in E3.
Qed.

(** *** Every token acts as its lexeme *)

Lemma acts_punctuation c l : punctuation c = Some l → acts (chr c) [l].
Proof.
  unfold punctuation.
  destruct (Ascii.eqb_spec c "{") as [->|_]; [intros [= <-] u d; cbn -[MaxDepth]; by case_match|].
  destruct (Ascii.eqb_spec c "}") as [->|_]; [by intros [= <-] u d|].
  destruct (Ascii.eqb_spec c "[") as [->|_]; [intros [= <-] u d; cbn -[MaxDepth]; by case_match|].
  destruct (Ascii.eqb_spec c "]") as [->|_]; [by intros [= <-] u d|].
  destruct (Ascii.eqb_spec c ":") as [->|_]; [intros [= <-] u d; cbn [levels opens level andb]; by rewrite Z.add_0_r|].
  destruct (Ascii.eqb_spec c ",") as [->|_]; [intros [= <-] u d; cbn [levels opens level andb]; by rewrite Z.add_0_r|done].
Qed.

Lemma acts_lexeme s t l r : lexeme_at s = Some (t, l, r) → acts t [l].
Proof.
  destruct s as [|c s]; [done|]. unfold lexeme_at. destruct (punctuation c) eqn:Hp.
  { intros [= <- <- <-]. by apply acts_punctuation. }
  destruct (Ascii.eqb_spec c QUOTE) as [->|_].
  { intros ([b u] & E & [= <- <- <-])%bind_Some v d. rewrite app_cons_str, app_assoc_str. change (chr QUOTE +:+ v) with (String QUOTE v).
    cbn [levels opens level andb]. rewrite Z.add_0_r. rewrite <- (depth_loop_string _ s b u v d (le_n _) E). done. }
  destruct (is_digit c || (c =b "-")).
  { intros ([x u] & E%lex_number_bytes & [= <- <- <-])%bind_Some. intros v d.
    assert (all_bytes calm_byte x = true) as Hx by (eapply all_bytes_impl; [apply number_byte_calm|done]).
    cbn [levels opens level andb]. rewrite Z.add_0_r. by apply (acts_calm x Hx v d). }
  unfold lex_literal. repeat (case_match; [intros [= <- <- <-] v d; cbn [levels opens level andb]; rewrite Z.add_0_r; done|]). done.
Qed.

Lemma acts_space t : all_bytes is_ws t = true → acts t [].
Proof.
  intros H. apply acts_calm. eapply all_bytes_impl; [|exact H]. intros c. apply implb_true_iff. revert c. by apply check_byte; vm_compute.
Qed.

Definition token_acts (t : token) : Prop := acts (tk_space t) [] ∧ acts (tk_text t) [tk_lex t].

(** The text acts as its tokens, and so does every part of it. *)
Lemma tokens_act s ts : tokens s = Ok ts → acts s (tk_lex <$> ts) ∧ Forall token_acts ts.
Proof.
  unfold tokens. remember (String.length s) as n eqn:En. assert (String.length s ≤ n)%nat as Hn by lia. clear En.
  revert s Hn ts. induction n as [|n IH]; intros [|c s] Hn ts; [by intros [= <-]|simpl in Hn; lia|by intros [= <-]|].
  rewrite (scan_unfold token_round). intros ([r l] & E & Hs)%res_bind_ok. unfold token_round in E.
  pose proof (span_bytes_text is_ws (String c s)) as Hsp. pose proof (span_bytes_all is_ws (String c s)) as Hws.
  destruct (span_bytes is_ws (String c s)) as [sp s1]. apply acts_space in Hws. rewrite Hsp in *. destruct (String.eqb_spec s1 "") as [->|_].
  { injection E as <- <-. injection Hs as <-. by rewrite app_nil_r_str. }
  destruct (lexeme_at s1) as [[[t x] r']|] eqn:El; [|done]. injection E as <- <-. rewrite scan_tokens_acc in Hs.
  apply res_bind_ok in Hs as (ts' & Ht & [= <-]). pose proof (acts_lexeme _ _ _ _ El) as Hl. apply lexeme_at_text in El as [-> Hne].
  destruct (IH r') with (ts := ts') as [Ha Hf]; [|done|].
  { rewrite !length_app_str in Hn. destruct t; [done|simpl in *; lia]. }
  split; [|by repeat constructor]. cbn [app fmap list_fmap tk_lex]. rewrite <- (app_nil_l (x :: _)). apply acts_app; [done|].
  change (x :: (tk_lex <$> ts')) with ([x] ++ (tk_lex <$> ts')). by apply acts_app.
Qed.

(** ** The automaton keeps to the nesting of its input *)

Definition plevel (p : pstate) : Z :=
  match p with
  | PValue _ stk | PAfter _ stk => Z.of_nat (length stk)
  | PKey _ _ stk | PColon _ _ stk => Z.of_nat (length stk) + 1
  end.

Definition frame_depth (f : frame) : Z :=
  match f with FArr l => foldr Z.max 0 (depth <$> l) | FObj ms _ => foldr Z.max 0 ((λ m, depth m.2) <$> ms) end.

(** Nothing read so far is nested deeper than the bound. *)
Fixpoint frames_bounded (stk : list frame) : Prop :=
  match stk with
  | [] => True
  | f :: stk' => frame_depth f + Z.of_nat (length stk) ≤ MaxDepth ∧ frames_bounded stk'
  end.

Definition pbounded (p : pstate) : Prop :=
  match p with
  | PValue _ stk => frames_bounded stk
  | PAfter j stk => depth j + Z.of_nat (length stk) ≤ MaxDepth ∧ frames_bounded stk
  | PKey _ ms stk | PColon ms _ stk =>
      1 + foldr Z.max 0 ((λ m, depth m.2) <$> ms) + Z.of_nat (length stk) ≤ MaxDepth ∧ frames_bounded stk
  end.

Lemma foldr_max_snoc {A} (f : A → Z) l x :
  0 ≤ f x → foldr Z.max 0 (f <$> l ++ [x]) = Z.max (foldr Z.max 0 (f <$> l)) (f x).
Proof.
  intros Hx. rewrite fmap_app. cbn [fmap list_fmap]. generalize (f <$> l). intros l'.
  induction l' as [|y l' IH]; simpl; [lia|]. rewrite IH. lia.
Qed.

Lemma pnext_bounded p l p' :
  pnext p l = Some p' → opens l && (MaxDepth <? plevel p + 1) = false → plevel p ≤ MaxDepth → pbounded p →
  pbounded p' ∧ plevel p' = plevel p + level l ∧ plevel p' ≤ MaxDepth.
Proof.
  intros Hp Ho Hl Hb.
  destruct p as [b stk|b ms stk|ms k stk|j stk], l; cbn -[MaxDepth fits Z.of_nat] in *;
    try (destruct (fits stk); [|destruct b, stk as [|[[]|] ?]; discriminate Hp]);
    try (destruct b, stk as [|[[|]|] ?]; simplify_eq); try (destruct stk as [|[] ?]; simplify_eq);
    try (destruct b; simplify_eq); simplify_eq; try discriminate Hp;
    cbn -[MaxDepth Z.of_nat fmap] in *;
    rewrite ?(foldr_max_snoc depth) by apply depth_nonneg; rewrite ?(foldr_max_snoc (λ m, depth m.2)) by apply depth_nonneg;
    try (apply Z.ltb_ge in Ho); cbn -[MaxDepth Z.of_nat] in *; split_and?; try tauto; lia.
Qed.

Lemma prun_bounded ls p p' d :
  prun p ls = Some p' → levels (plevel p) ls = Some d → plevel p ≤ MaxDepth → pbounded p →
  pbounded p' ∧ plevel p' = d.
Proof.
  revert p. induction ls as [|l ls IH]; intros p; cbn [prun levels]; [by intros [= <-] [= <-]|].
  intros (q & Hq & Hp)%bind_Some. destruct (opens l && (MaxDepth <? plevel p + 1)) eqn:Ho; [done|]. intros Hl Hle Hb.
  destruct (pnext_bounded _ _ _ Hq Ho Hle Hb) as (Hqb & El & Hql). apply (IH q); [done|by rewrite El|done..].
Qed.

Definition fresh : scanned := at_depth 0.

(** A document that passes the check is nested no deeper than the bound, and is balanced. *)
Lemma parse_bounded s j u st :
  parse s = Ok j → depth_loop (s +:+ u) fresh = Ok st → depth j ≤ MaxDepth ∧ depth_loop u fresh = Ok st.
Proof.
  unfold parse. intros (ts & [Ha _]%tokens_act & Hp)%res_bind_ok Hd. specialize (Ha u 0). unfold fresh in *. rewrite Ha in Hd.
  destruct (levels 0 (tk_lex <$> ts)) as [d|] eqn:Hl; [|done].
  destruct (prun (PValue false []) (tk_lex <$> ts)) as [p'|] eqn:Hr; [|done].
  destruct (prun_bounded _ _ _ _ Hr Hl) as [Hb El]; [done|done|].
  destruct p' as [| | |j' []]; try done. injection Hp as ->. cbn in Hb, El. subst d. split; [lia|done].
Qed.

Definition passes (s : string) : Prop := ∃ st, depth_loop s fresh = Ok st.

Lemma validateJSONDepth_ok s : validateJSONDepth s = Ok () ↔ passes s.
Proof.
  unfold validateJSONDepth, passes. split.
  - by intros (st & H & _)%res_bind_ok; exists st.
  - intros [st H]. apply res_bind_ok. by exists st.
Qed.

(** ** Values *)

Lemma foldr_max_elem {A} (f : A → Z) l x : x ∈ l → f x ≤ foldr Z.max 0 (f <$> l).
Proof. induction 1 as [x l|x y l _ IH]; rewrite fmap_cons; cbn [foldr]; lia. Qed.

Lemma foldr_max_nonneg (l : list Z) : 0 ≤ foldr Z.max 0 l.
Proof. induction l; simpl; lia. Qed.

Lemma value_shallow j n v : value_of j = Some v → depth j ≤ Z.of_nat n → shallow n v.
Proof.
  revert n v. induction j as [|b|l|s|l IH|ms IH] using json_ind'; intros n v Hv Hd; cbn [value_of] in Hv.
  - injection Hv as <-. by destruct n.
  - injection Hv as <-. by destruct n.
  - apply fmap_Some in Hv as (f & _ & ->). by destruct n.
  - injection Hv as <-. by destruct n.
  - apply fmap_Some in Hv as (vs & Hvs%mapM_Some & ->). cbn [depth] in Hd.
    destruct n as [|n]; [pose proof (foldr_max_nonneg (depth <$> l)); lia|]. cbn [shallow].
    apply Forall_forall. intros v Hv. apply list_elem_of_lookup in Hv as (i & Hi).
    destruct (Forall2_lookup_r _ _ _ _ _ Hvs Hi) as (j & Hj & Hjv).
    apply list_elem_of_lookup_2 in Hj. rewrite Forall_forall in IH. apply (IH j); [done|done|].
    pose proof (foldr_max_elem depth l j Hj). lia.
  - apply fmap_Some in Hv as (kvs & Hvs%mapM_Some & ->). cbn [depth] in Hd.
    destruct n as [|n]; [pose proof (foldr_max_nonneg ((λ m, depth m.2) <$> ms)); lia|]. cbn [shallow].
    intros k v Hkv. apply elem_of_list_to_map_2 in Hkv. rewrite elem_of_reverse in Hkv.
    apply list_elem_of_lookup in Hkv as (i & Hi). destruct (Forall2_lookup_r _ _ _ _ _ Hvs Hi) as ([k' j] & Hj & Hjv).
    apply fmap_Some in Hjv as (v' & Hv' & [= <- <-]). apply list_elem_of_lookup_2 in Hj. rewrite Forall_forall in IH.
    apply (IH (k, j) Hj); [done|]. pose proof (foldr_max_elem (λ m, depth m.2) ms (k, j) Hj). cbn [snd] in *. lia.
Qed.

Lemma Unmarshal_bounded s u st m :
  Unmarshal_map s = Ok m → depth_loop (s +:+ u) fresh = Ok st → bounded_fields m ∧ depth_loop u fresh = Ok st.
Proof.
  unfold Unmarshal_map. intros (j & Hj & Hm)%res_bind_ok Hd. destruct (parse_bounded _ _ _ _ Hj Hd) as [Hb Hu].
  split; [|done]. destruct j as [| | | | |ms]; try done; [by injection Hm as <-|].
  destruct (value_of (JObj ms)) as [[]|] eqn:Hv; try done. injection Hm as <-. apply (value_shallow _ (Z.to_nat MaxDepth)) in Hv; [done|].
  unfold MaxDepth in *. lia.
Qed.

(** ** The items of an array *)

Lemma split_items_levels ts cur d :
  levels 0 (tk_lex <$> cur) = Some d → levels (d + 1) (tk_lex <$> ts) ≠ None →
  Forall token_acts cur → Forall token_acts ts →
  Forall (λ item, levels 0 (tk_lex <$> item) ≠ None ∧ Forall token_acts item) (split_items d cur ts).
Proof.
  revert cur d. induction ts as [|t ts IH]; intros cur d Hc Hl Hac Hat; cbn [split_items];
    [apply Forall_singleton; split; [congruence|done]|].
  apply Forall_cons in Hat as [Ht Hat]. cbn [fmap list_fmap levels] in Hl.
  assert (∀ x, tk_lex t = x → opens x && (MaxDepth <? d + 1) = false →
            levels 0 (tk_lex <$> cur ++ [t]) = Some (d + level x) ∧ Forall token_acts (cur ++ [t])) as Hsnoc.
  { intros x <- Ho. rewrite fmap_app, levels_app, Hc. cbn [mbind option_bind fmap list_fmap levels]. rewrite Ho.
    split; [done|]. apply Forall_app_2; [done|by constructor]. }
  assert (∀ b, b && (MaxDepth <? d + 1 + 1) = false → b && (MaxDepth <? d + 1) = false) as Hopen.
  { intros [] H; [|done]. apply Z.ltb_ge in H. apply Z.ltb_ge. lia. }
  destruct (opens (tk_lex t) && (MaxDepth <? d + 1 + 1)) eqn:Ho; [done|]. apply Hopen in Ho.
  destruct (Hsnoc _ eq_refl Ho) as [Hsl Hsa].
  replace (d + 1 + level (tk_lex t)) with (d + level (tk_lex t) + 1) in Hl by lia.
  destruct (tk_lex t) eqn:Hx; cbn [level] in *; rewrite ?Z.add_0_r in *; try (by apply IH).
  - case_match; [|by apply IH]. destruct cur; [constructor|]. apply Forall_singleton. split; [congruence|done].
  - destruct (Z.eqb_spec d 0) as [->|]; [|by apply IH]. constructor; [split; [congruence|done]|]. by apply (IH [] 0).
Qed.

Lemma raw_text_acts ts : Forall token_acts ts → acts (raw_text ts) (tk_lex <$> ts).
Proof.
  induction 1 as [|t ts [Hs Ht] _ IH]; [apply acts_nil|]. cbn [raw_text fmap list_fmap]. rewrite <- (app_nil_l (tk_lex t :: _)).
  apply acts_app; [done|]. change (tk_lex t :: (tk_lex <$> ts)) with ([tk_lex t] ++ (tk_lex <$> ts)). by apply acts_app.
Qed.

Lemma raw_message_acts ts : Forall token_acts ts → acts (raw_message ts) (tk_lex <$> ts).
Proof.
  destruct 1 as [|t ts [_ Ht] Hts]; [apply acts_nil|]. cbn [raw_message fmap list_fmap].
  change (tk_lex t :: (tk_lex <$> ts)) with ([tk_lex t] ++ (tk_lex <$> ts)). by apply acts_app, raw_text_acts.
Qed.

(** The items of a document that passes the check pass it. *)
Lemma Unmarshal_raws_passes s l : Unmarshal_raws s = Ok l → passes s → Forall passes l.
Proof.
  unfold Unmarshal_raws. intros (j & Hj & (ts & Ht & Hl)%res_bind_ok)%res_bind_ok [st Hst].
  destruct j; try done; [by injection Hl as <-|]. injection Hl as <-.
  pose proof (tokens_act _ _ Ht) as [Ha Hts]. specialize (Ha "" 0). rewrite app_nil_r_str in Ha. unfold fresh in Hst. rewrite Ha in Hst.
  unfold parse in Hj. rewrite Ht in Hj. cbn [mbind res_bind] in Hj.
  destruct ts as [|t ts]; [done|]. apply Forall_cons in Hts as [_ Hts]. cbn [tail fmap list_fmap levels prun] in *.
  destruct (opens (tk_lex t) && (MaxDepth <? 0 + 1)); [done|].
  assert (level (tk_lex t) = 1) as E.
  { destruct (tk_lex t); cbn in Hj; try discriminate Hj; try done;
      (destruct ts as [|t' ts]; cbn in Hj; [discriminate Hj|by destruct (tk_lex t')]). }
  rewrite E in Hst. apply Forall_fmap. eapply Forall_impl.
  - apply (split_items_levels ts [] 0); [done| |done|done]. intros Hn. cbn in Hst. by rewrite Hn in Hst.
  - intros item [Hl Hi]. exists (at_depth (default 0 (levels 0 (tk_lex <$> item)))).
    pose proof (raw_message_acts _ Hi "" 0) as Hr. rewrite app_nil_r_str in Hr. unfold fresh. rewrite Hr.
    by destruct (levels 0 _).
Qed.

(** ** The lines of a stream *)

(** The bytes of a rune: an ASCII byte, or bytes from 128. *)
Lemma runes_bytes s : Forall (λ r, (∃ c, r = (bz c, chr c)) ∨ all_bytes (λ c, 128 <=? bz c) r.2 = true) (runes s).
Proof.
  remember (String.length s) as n eqn:En. assert (String.length s ≤ n)%nat as Hn by lia. clear En.
  revert s Hn. induction n as [|n IH]; intros [|c s] Hn; try constructor; [simpl in Hn; lia|].
  rewrite runes_cons. pose proof (decode_rune_high c s) as Hh. destruct (decode_rune c s) as [r w] eqn:E.
  constructor; [|apply IH; rewrite length_drop_str; simpl in Hn; lia]. destruct (Z.ltb_spec (bz c) 128) as [Hc|Hc].
  - left. exists c. rewrite decode_rune_ascii in E by done. injection E as <- <-. by destruct s.
  - right. simpl in *. rewrite Hh by done. by rewrite (proj2 (Z.leb_le _ _)).
Qed.

Lemma spaces_calm k :
  forallb (IsSpaceRune ∘ fst) k = true → Forall (λ r, (∃ c, r = (bz c, chr c)) ∨ all_bytes (λ c, 128 <=? bz c) r.2 = true) k →
  all_bytes calm_byte (unrunes k) = true.
Proof.
  induction k as [|r k IH]; [done|]. cbn [forallb]. intros [Hr Hk]%andb_prop [Hb Hks]%Forall_cons.
  rewrite unrunes_cons, all_bytes_app, IH, andb_true_r by done. unfold compose in Hr. destruct Hb as [[c ->]|Hb].
  - simpl in *. rewrite andb_true_r. revert Hr. apply implb_true_iff. revert c. by apply check_byte; vm_compute.
  - eapply all_bytes_impl; [|exact Hb]. intros c. apply implb_true_iff. revert c. by apply check_byte; vm_compute.
Qed.

(** White space at the ends does not change what the text does to the check. *)
Lemma TrimSpace_calm s : ∃ a b, s = a +:+ (TrimSpace s +:+ b) ∧ all_bytes calm_byte a = true ∧ all_bytes calm_byte b = true.
Proof.
  pose proof (runes_bytes s) as Hs. unfold TrimSpace, drop_while_end. set (p := IsSpaceRune ∘ fst).
  destruct (drop_while_suffix p (runes s)) as (k1 & E1 & H1).
  destruct (drop_while_suffix p (reverse (drop_while p (runes s)))) as (k2 & E2 & H2).
  apply (f_equal reverse) in E2. rewrite reverse_involutive, reverse_app in E2.
  exists (unrunes k1), (unrunes (reverse k2)). rewrite <- (unrunes_runes s) at 1. rewrite E1 in Hs. apply Forall_app in Hs as [Hs1 Hs2].
  rewrite E2 in Hs2. apply Forall_app in Hs2 as [_ Hs2]. split_and!.
  - rewrite <- (unrunes_app (reverse _)). transitivity (unrunes (k1 ++ drop_while p (runes s))); [by rewrite <- E1|].
    rewrite unrunes_app. do 2 f_equal. exact E2.
  - by apply spaces_calm.
  - apply spaces_calm; [|done]. rewrite <- H2. clear. induction k2 as [|x k2 IH]; [done|].
    rewrite reverse_cons, forallb_app. cbn [forallb]. rewrite IH, andb_true_r. apply andb_comm.
Qed.

Lemma line_frame_calm s :
  ∃ a b, s = a +:+ (TrimSpace (dropCR s) +:+ b) ∧ all_bytes calm_byte a = true ∧ all_bytes calm_byte b = true.
Proof.
  destruct (TrimSpace_calm (dropCR s)) as (a & b & E & Ha & Hb). destruct (dropCR_cases s) as [Es|Es].
  - exists a, b. by rewrite Es at 1.
  - exists a, (b +:+ chr CR). rewrite Es at 1. rewrite E at 1. rewrite !app_assoc_str, all_bytes_app, Hb. done.
Qed.

Lemma depth_loop_calm t u : all_bytes calm_byte t = true → depth_loop (t +:+ u) fresh = depth_loop u fresh.
Proof. intros Ht. apply (acts_calm t Ht u 0). Qed.

Lemma ndjson_records_bounded i lines recs st :
  ndjson_records i lines = Ok recs → depth_loop (Join lines (chr LF)) fresh = Ok st →
  Forall (λ r, bounded_fields (Fields r)) recs.
Proof.
  revert i recs. induction lines as [|s lines IH]; intros i recs; cbn [ndjson_records]; [by intros [= <-]|].
  case_match; [done|]. case_match; [done|]. intros Hr Hd.
  destruct (line_frame_calm s) as (a & b & E & Ha & Hb). set (x := TrimSpace (dropCR s)) in *.
  assert (∃ u, depth_loop (x +:+ u) fresh = Ok st ∧ (lines ≠ [] → depth_loop u fresh = depth_loop (Join lines (chr LF)) fresh)) as (u & Hu & Hrest).
  { destruct lines as [|s' lines].
    - exists b. split; [|done]. unfold Join in Hd. cbn [String.concat] in Hd. rewrite E, depth_loop_calm in Hd by done. done.
    - exists (b +:+ (chr LF +:+ Join (s' :: lines) (chr LF))). rewrite Join_cons, E in Hd.
      rewrite !app_assoc_str, depth_loop_calm in Hd by done. split; [done|]. intros _. rewrite depth_loop_calm by done.
      by apply (depth_loop_calm (chr LF)). }
  assert (∀ rest j, ndjson_records j lines = Ok rest → depth_loop u fresh = Ok st → Forall (λ r, bounded_fields (Fields r)) rest) as Hlater.
  { intros rest j Hj Hus. destruct lines as [|s' lines]; [by injection Hj as <-|]. apply (IH j); [done|]. by rewrite <- Hrest. }
  destruct (slen x =? 0) eqn:Hx.
  - apply (Hlater recs i Hr). destruct x; [done|]. discriminate Hx.
  - apply res_bind_ok in Hr as (m & Hm%wrap_err_ok & Hr). case_match; [done|]. apply res_bind_ok in Hr as (rest & Hrs & [= <-]).
    destruct (Unmarshal_bounded _ _ _ _ Hm Hu) as [Hbm Hus]. constructor; [done|]. by apply (Hlater rest (i + 1)).
Qed.

Lemma array_records_bounded total i items recs :
  array_records total i items = Ok recs → Forall passes items → Forall (λ r, bounded_fields (Fields r)) recs.
Proof.
  intros [_ Hf]%array_records_spec Hp. induction Hf as [|x r items recs (_ & Hm & _) _ IH]; [done|].
  apply Forall_cons in Hp as [[st Hst] Hp]. constructor; [|by apply IH].
  rewrite <- (app_nil_r_str x) in Hst. by apply (Unmarshal_bounded x "" st).
Qed.

(** ** The decoder *)

Lemma decode_object_cases trimmed recs :
  decode_object trimmed = Ok recs →
  (∃ m, Unmarshal_map trimmed = Ok m ∧ map_len m ≤ MaxFields ∧ recs = [json_record 0 "json" ∅ m trimmed])
  ∨ ndjson_records 0 (Split trimmed (chr LF)) = Ok recs.
Proof.
  unfold decode_object. destruct (Unmarshal_map trimmed) as [m| |]; [|unfold decode_lines|done].
  - destruct (Z.ltb_spec MaxFields (map_len m)); [done|]. intros [= <-]. left. by exists m.
  - case_match; [|done]. intros (r & Hr & H')%res_bind_ok. right. destruct r; [done|]. by simplify_eq.
Qed.

Lemma decode_array_cases trimmed recs :
  decode_array trimmed = Ok recs →
  ∃ l, Unmarshal_raws trimmed = Ok l ∧ Z.of_nat (length l) ≤ MaxChildren ∧ array_records (Z.of_nat (length l)) 0 l = Ok recs.
Proof.
  unfold decode_array. cbv zeta. intros (l & Hl%wrap_err_ok & H)%res_bind_ok.
  destruct (Z.ltb_spec MaxChildren (Z.of_nat (length l))); [done|]. by exists l.
Qed.

Lemma JSONDecoder_cases raw recs :
  JSONDecoder_Decode raw = Ok recs →
  slen raw ≤ MaxPayloadBytes ∧ passes (TrimSpace raw)
  ∧ (decode_array (TrimSpace raw) = Ok recs ∨ decode_object (TrimSpace raw) = Ok recs).
Proof.
  unfold JSONDecoder_Decode. destruct (Z.ltb_spec MaxPayloadBytes (slen raw)); [done|]. case_match; [done|].
  intros ([] & Hv%validateJSONDepth_ok & Hd)%res_bind_ok. split_and!; [done..|]. destruct (TrimSpace raw); [by right|].
  case_match; [by left|by right].
Qed.

#[export] Instance JSONDecoder_lawful : LawfulDecoder JSONDecoder.
Proof.
  split.
  - intros raw. cbn [Detect JSONDecoder]. unfold JSONDecoder_Detect. repeat case_match; lia.
  - intros raw recs [H _]%JSONDecoder_cases. done.
  - intros raw recs (_ & _ & [(l & _ & _ & [Ho _]%array_records_spec)%decode_array_cases|[(m & _ & _ & ->)|[Ho _]%ndjson_records_spec]%decode_object_cases])%JSONDecoder_cases;
      done.
Qed.

#[export] Instance JSONDecoder_total : TotalDecoder JSONDecoder.
Proof.
  assert (∀ total i items, no_panic (array_records total i items)) as Ha.
  { intros total i items. revert i. induction items as [|x items IH]; intros i; [done|].
    apply res_bind_no_panic; [apply wrap_err_no_panic, Unmarshal_map_no_panic|]. intros m _. case_match; [done|].
    by apply res_bind_no_panic. }
  assert (∀ i lines, no_panic (ndjson_records i lines)) as Hl.
  { intros i lines. revert i. induction lines as [|x lines IH]; intros i; [done|]. cbn [ndjson_records]. do 2 (case_match; [done|]).
    case_match; [apply IH|]. apply res_bind_no_panic; [apply wrap_err_no_panic, Unmarshal_map_no_panic|]. intros m _. case_match; [done|].
    by apply res_bind_no_panic. }
  assert (∀ t, no_panic (decode_object t)) as Hobj.
  { intros t. unfold decode_object. pose proof (Unmarshal_map_no_panic t). destruct (Unmarshal_map t); [by case_match| |done].
    unfold decode_lines. case_match; [|done]. apply res_bind_no_panic; [done|]. intros r _. by case_match. }
  intros raw. cbn [Decode JSONDecoder]. unfold JSONDecoder_Decode. case_match; [done|]. case_match; [done|].
  apply res_bind_no_panic.
  { apply res_bind_no_panic; [apply depth_loop_no_panic|done]. }
  intros _ _. case_match; [done|]. case_match; [|done].
  apply res_bind_no_panic; [apply wrap_err_no_panic, Unmarshal_raws_no_panic|]. intros l _. cbv zeta. by case_match.
Qed.
