(* ===== verification/JsonBatch.v ===== *)
(** * The JSON decoder on a batch: the records it makes of the objects a producer wrote *)

From S2P Require Import Prelude GoStrings GoNum Model GoIO GoJson JsonText Decoder Json JsonDepth.

Definition obj : Type := list (string * json).

Definition fields_of (o : obj) : fields := default ∅ (object_map o).

(** An object within the decoder's limits, also as an item of an array. *)
Definition good (o : obj) : bool :=
  well_formed (JObj o) && (depth (JObj o) <? MaxDepth) && (match object_map o with Some _ => true | None => false end)
  && (Z.of_nat (size (fields_of o)) <=? MaxFields).

Definition array_record (total : nat) (i : nat) (o : obj) : DecodedRecord :=
  json_record (Z.of_nat i) "json_array" {["batch_index" := VInt (Z.of_nat i); "batch_total" := VInt (Z.of_nat total)]}
    (Some (fields_of o)) (print (JObj o)).
Definition ndjson_record (i : nat) (o : obj) : DecodedRecord :=
  json_record (Z.of_nat i) "ndjson" {["record_ordinal" := VInt (Z.of_nat i)]} (Some (fields_of o)) (print (JObj o)).

Definition array_text (l : list obj) : string := print (JArr (JObj <$> l)).
Definition lines_text (l : list obj) : string := Join ((λ o, print (JObj o)) <$> l) (chr LF).

(** ** The printed text passes the nesting check *)

Definition leveled (j : json) : Prop := ∀ d ls, d + depth j ≤ MaxDepth → levels d (lexemes j ++ ls) = levels d ls.

Lemma levels_separated xs d ls :
  Forall (λ x, ∀ ls, levels d (x ++ ls) = levels d ls) xs → levels d (separated xs ++ ls) = levels d ls.
Proof.
  induction 1 as [|x xs Hx Hxs IH]; [done|]. destruct xs as [|y xs]; [apply Hx|].
  change (separated (x :: y :: xs)) with (x ++ Comma :: separated (y :: xs)). rewrite <- app_assoc, Hx.
  cbn [app levels opens level andb]. by rewrite Z.add_0_r.
Qed.

Lemma levels_bracketed o c xs d ls :
  opens o = true → level c = -1 → opens c = false → d + 1 ≤ MaxDepth →
  Forall (λ x, ∀ ls, levels (d + 1) (x ++ ls) = levels (d + 1) ls) xs →
  levels d ((o :: separated xs ++ [c]) ++ ls) = levels d ls.
Proof.
  intros Ho Hc Hcl Hd Hx. rewrite <- app_comm_cons, <- app_assoc. cbn [levels]. rewrite Ho, (proj2 (Z.ltb_ge _ _)) by done.
  assert (level o = 1) as -> by by destruct o. cbn [andb]. rewrite levels_separated by done. cbn [app levels]. rewrite Hcl, Hc.
  cbn [andb]. by replace (d + 1 + -1) with d by lia.
Qed.

Lemma depth_items {A} (f : A → Z) l d : d + (1 + foldr Z.max 0 (f <$> l)) ≤ MaxDepth → d + 1 ≤ MaxDepth ∧ Forall (λ x, d + 1 + f x ≤ MaxDepth) l.
Proof.
  intros H. pose proof (foldr_max_nonneg (f <$> l)). split; [lia|]. apply Forall_forall. intros x Hx.
  pose proof (foldr_max_elem f l x Hx). lia.
Qed.

Lemma levels_lexemes j : leveled j.
Proof.
  induction j as [|b|n|s|l IH|ms IH] using json_ind'; intros d ls Hd;
    [by cbn [lexemes app levels opens level andb]; rewrite Z.add_0_r..| |]; cbn [depth] in Hd; apply depth_items in Hd as [Hd Hi];
    cbn [lexemes]; apply levels_bracketed; try done; apply Forall_fmap, Forall_forall; intros x Hx ls'; unfold compose;
    rewrite Forall_forall in IH, Hi; [by apply (IH x Hx), Hi|].
  cbn [app levels opens level andb]. rewrite !Z.add_0_r. by apply (IH x Hx), (Hi x Hx).
Qed.

Lemma acts_print j : well_formed j = true → acts (print j) (lexemes j).
Proof.
  intros Hw. pose proof (tokens_print j "" (tok <$> lexemes j) Hw) as Ht. rewrite app_nil_r_str in Ht.
  destruct (tokens_act _ _ (Ht eq_refl eq_refl)) as [Ha _]. rewrite <- list_fmap_compose in Ha.
  by replace (tk_lex ∘ tok <$> lexemes j) with (lexemes j) in Ha by (symmetry; apply list_fmap_id).
Qed.

Lemma depth_loop_print j u : well_formed j = true → depth j ≤ MaxDepth → depth_loop (print j +:+ u) fresh = depth_loop u fresh.
Proof.
  intros Hw Hd. unfold fresh. rewrite (acts_print j Hw u 0). rewrite <- (app_nil_r (lexemes j)), levels_lexemes by lia. done.
Qed.

(** ** Framing *)

Lemma print_object_framed ms : framed "{" "}" (print (JObj ms)).
Proof. unfold print. cbn [lexemes]. rewrite texts_cons, texts_app. by eexists. Qed.

Lemma print_array_framed l : framed "[" "]" (print (JArr l)).
Proof. unfold print. cbn [lexemes]. rewrite texts_cons, texts_app. by eexists. Qed.

Lemma lines_framed o l : framed "{" "}" (lines_text (o :: l)).
Proof.
  unfold lines_text. revert o. induction l as [|p l IH]; intros o; [apply print_object_framed|].
  cbn [fmap list_fmap]. rewrite Join_cons. apply framed_join; [apply print_object_framed|apply IH].
Qed.

Lemma slen_framed o c s : framed o c s → (slen s =? 0) = false.
Proof. intros [x ->]. unfold slen. simpl. lia. Qed.

Lemma texts_plain ls : forallb lexeme_ok ls = true → all_bytes (λ c, 32 <=? bz c) (texts ls) = true.
Proof.
  induction ls as [|l ls IH]; [done|]. cbn [forallb]. intros [Hl Hls]%andb_prop. rewrite texts_cons, all_bytes_app, IH, andb_true_r by done.
  destruct l as [| | | | | | |[]|n|s]; try done; cbn [text_of lexeme_ok] in *.
  - unfold is_literal in Hl. destruct (lex_number n) as [[t r]|] eqn:E; [|done]. destruct r; [|done]. apply String.eqb_eq in Hl as ->.
    apply lex_number_bytes in E. eapply all_bytes_impl; [|exact E]. intros c. apply implb_true_iff. revert c. by apply check_byte; vm_compute.
  - unfold quote. cbn [all_bytes]. rewrite all_bytes_app, quote_body_plain by done. done.
Qed.

Lemma print_one_line j : well_formed j = true → all_bytes (λ c, c <>b LF) (print j) = true.
Proof.
  intros Hw. eapply all_bytes_impl; [|by apply texts_plain]. intros c. apply implb_true_iff. revert c. by apply check_byte; vm_compute.
Qed.

Lemma dropCR_framed o c s : c ≠ CR → framed o c s → dropCR s = s.
Proof.
  intros Hc [x ->]. unfold dropCR.
  assert (str_last (String o (x +:+ chr c)) = Some c) as ->; [|by apply Ascii.eqb_neq in Hc as ->].
  unfold str_last, str_get. revert o. induction x as [|d x IH]; intros o; [done|]. apply (IH d).
Qed.

(** ** The three forms *)

Lemma good_spec o :
  good o = true →
  well_formed (JObj o) = true ∧ depth (JObj o) < MaxDepth ∧ object_map o = Some (fields_of o) ∧ map_len (Some (fields_of o)) ≤ MaxFields.
Proof.
  unfold good, fields_of, map_len. cbn [entries default]. intros [[[Hw Hd]%andb_prop Hm]%andb_prop Hs]%andb_prop.
  destruct (object_map o); [|done]. split_and!; [done|lia|done|]. cbn [default from_option id] in *. unfold entries. cbn. lia.
Qed.

Lemma Unmarshal_good o : good o = true → Unmarshal_map (print (JObj o)) = Ok (Some (fields_of o)).
Proof.
  intros (Hw & Hd & Hm & _)%good_spec. apply Unmarshal_print; [done| |done]. unfold MaxDepth, maxNestingDepth in *. lia.
Qed.

Lemma array_records_good total i l :
  Forall (λ o, good o = true) l →
  array_records (Z.of_nat total) (Z.of_nat i) (print <$> (JObj <$> l)) = Ok (imap (λ k, array_record total (i + k)) l).
Proof.
  intros Hl. revert i. induction Hl as [|o l Ho _ IH]; intros i; [done|]. cbn [fmap list_fmap array_records imap].
  rewrite Unmarshal_good by done. cbn [wrap_err mbind res_bind]. apply good_spec in Ho as (_ & _ & _ & Hs).
  rewrite (proj2 (Z.ltb_ge _ _)) by done. replace (Z.of_nat i + 1) with (Z.of_nat (S i)) by lia. rewrite IH. cbn [mbind res_bind].
  unfold array_record at 1. rewrite Nat.add_0_r. do 2 f_equal. apply imap_ext. intros k x _. unfold compose. by replace (i + S k)%nat with (S i + k)%nat by lia.
Qed.

Lemma ndjson_records_good i l :
  Forall (λ o, good o = true ∧ slen (print (JObj o)) < MaxScanTokenSize) l → Z.of_nat i + Z.of_nat (length l) ≤ MaxChildren →
  ndjson_records (Z.of_nat i) ((λ o, print (JObj o)) <$> l) = Ok (imap (λ k, ndjson_record (i + k)) l).
Proof.
  intros Hl. revert i. induction Hl as [|o l [Ho Hlen] _ IH]; intros i Hi; [done|]. cbn [fmap list_fmap ndjson_records imap length] in *.
  rewrite (proj2 (Z.leb_gt _ _)) by done. rewrite (proj2 (Z.leb_gt _ _)) by lia.
  pose proof (print_object_framed o) as Hf. rewrite (dropCR_framed "{" "}" _ ltac:(done) Hf), (TrimSpace_frame "{" "}" _ eq_refl eq_refl Hf).
  rewrite (slen_framed _ _ _ Hf), Unmarshal_good by done. cbn [wrap_err mbind res_bind]. apply good_spec in Ho as (_ & _ & _ & Hs).
  rewrite (proj2 (Z.ltb_ge _ _)) by done. replace (Z.of_nat i + 1) with (Z.of_nat (S i)) by lia. rewrite IH by lia. cbn [mbind res_bind].
  unfold ndjson_record at 1. rewrite Nat.add_0_r. do 2 f_equal. apply imap_ext. intros k x _. unfold compose. by replace (i + S k)%nat with (S i + k)%nat by lia.
Qed.

Lemma well_formed_array l : Forall (λ j, well_formed j = true) l → well_formed (JArr l) = true.
Proof.
  intros Hl. unfold well_formed. cbn [lexemes forallb]. rewrite forallb_app. cbn [forallb].
  change (lexeme_ok LBracket) with true. change (lexeme_ok RBracket) with true. cbn [andb]. rewrite andb_true_r. unfold well_formed in Hl.
  induction Hl as [|x l Hx _ IH]; [done|]. destruct l as [|y l]; [exact Hx|].
  change (separated (lexemes <$> x :: y :: l)) with (lexemes x ++ Comma :: separated (lexemes <$> y :: l)).
  rewrite forallb_app. cbn [forallb]. by rewrite Hx, IH.
Qed.

Lemma validate_print j : well_formed j = true → depth j ≤ MaxDepth → validateJSONDepth (print j) = Ok ().
Proof.
  intros Hw Hd. apply validateJSONDepth_ok. exists fresh. pose proof (depth_loop_print j "" Hw Hd) as H.
  by rewrite app_nil_r_str in H.
Qed.

Lemma lines_text_cons o p l : lines_text (o :: p :: l) = print (JObj o) +:+ String LF (lines_text (p :: l)).
Proof. unfold lines_text. cbn [fmap list_fmap]. by rewrite Join_cons. Qed.

Lemma validate_lines o l : Forall (λ o, good o = true) (o :: l) → validateJSONDepth (lines_text (o :: l)) = Ok ().
Proof.
  intros Hl. apply validateJSONDepth_ok. exists fresh. revert o Hl. induction l as [|p l IH]; intros o [Ho Hl]%Forall_cons;
    apply good_spec in Ho as (Hw & Hd & _).
  - pose proof (depth_loop_print (JObj o) "" Hw ltac:(lia)) as H. by rewrite app_nil_r_str in H.
  - rewrite lines_text_cons, depth_loop_print by (done || lia).
    change (String LF (lines_text (p :: l))) with (chr LF +:+ lines_text (p :: l)). rewrite depth_loop_calm by done. by apply IH.
Qed.

Lemma decode_framed o raw :
  framed o (if o =b "["%char then "]"%char else "}"%char) raw → visible o = true → slen raw ≤ MaxPayloadBytes →
  validateJSONDepth raw = Ok () →
  JSONDecoder_Decode raw = if o =b "["%char then decode_array raw else decode_object raw.
Proof.
  intros Hf Ho Hs Hv. unfold JSONDecoder_Decode. rewrite (proj2 (Z.ltb_ge _ _)) by done.
  assert (TrimSpace raw = raw) as -> by (eapply TrimSpace_frame; [exact Ho| |exact Hf]; by case_match). rewrite (slen_framed _ _ _ Hf), Hv. cbn [mbind res_bind].
  by destruct Hf as [x ->].
Qed.

(** More than one line is no single document. *)
Lemma Unmarshal_lines o p l :
  good o = true → ∃ e, Unmarshal_map (lines_text (o :: p :: l)) = Err e.
Proof.
  intros (Hw & Hd & _)%good_spec. unfold Unmarshal_map. rewrite lines_text_cons, parse_app; [|done|unfold MaxDepth, maxNestingDepth in *; lia|done].
  destruct (lines_framed p l) as [x ->]. rewrite (scan_unfold token_round).
  change (token_round (String LF (String "{" (x +:+ chr "}"))) []) with (Ok (x +:+ chr "}", [Tok (chr LF) "{" LBrace])).
  cbn [mbind res_bind]. rewrite scan_tokens_acc.
  destruct (scan token_round (x +:+ chr "}") []) as [ts|e|pn] eqn:E; cbn [mbind res_bind app]; [by eexists..|].
  exfalso. assert (no_panic (scan token_round (x +:+ chr "}") [])) as Hn; [|by rewrite E in Hn].
  apply scan_no_panic. intros t acc. unfold token_round. by repeat case_match.
Qed.

(** C33: a batch of objects comes out as it went in, within limits that the code sets.  Take
    at most 10,000 objects ([MaxChildren]), each of at most 1,000 fields ([MaxFields]) and
    nested less than 32 deep ([MaxDepth]), whose strings are UTF-8 and whose number literals
    are JSON's and fit a float64, in a payload of at most 10 MiB ([MaxPayloadBytes]).
    Printed without white space as one array, of which the nesting is at most 32 in all, or as a single object, or,
    two objects or more, one to a line where every line is shorter than 64 KiB
    ([MaxScanTokenSize]; a longer line is refused, [long_line_refused]), they give a record per object, in
    order and numbered from 0, whose fields are the object's members and whose raw payload
    is the object's text. *)
Theorem json_batch_roundtrip (l : list obj) :
  Forall (λ o, good o = true) l → Z.of_nat (length l) ≤ MaxChildren →
  (depth (JArr (JObj <$> l)) ≤ MaxDepth → slen (array_text l) ≤ MaxPayloadBytes →
   JSONDecoder_Decode (array_text l) = Ok (imap (array_record (length l)) l))
  ∧ ((2 ≤ length l)%nat → Forall (λ o, slen (print (JObj o)) < MaxScanTokenSize) l → slen (lines_text l) ≤ MaxPayloadBytes →
     JSONDecoder_Decode (lines_text l) = Ok (imap ndjson_record l))
  ∧ (∀ o, l = [o] → slen (print (JObj o)) ≤ MaxPayloadBytes →
     JSONDecoder_Decode (print (JObj o)) = Ok [json_record 0 "json" ∅ (Some (fields_of o)) (print (JObj o))]).
Proof.
  intros Hl Hn. split_and!.
  - intros Hd Hs. assert (well_formed (JArr (JObj <$> l)) = true) as Hw.
    { apply well_formed_array, Forall_fmap. eapply Forall_impl; [exact Hl|]. intros o (Hw & _)%good_spec. done. }
    unfold array_text in *. rewrite (decode_framed "["); [|apply print_array_framed|done|done|by apply validate_print].
    change ("[" =b "[") with true. cbn iota. unfold decode_array. rewrite Unmarshal_raws_print; [|done|unfold MaxDepth, maxNestingDepth in *; lia].
    cbn [wrap_err mbind res_bind]. rewrite !length_fmap. rewrite (proj2 (Z.ltb_ge _ _)) by done.
    by apply (array_records_good (length l) 0).
  - intros H2 Hshort Hs. destruct l as [|o [|p l]]; [simpl in H2; lia..|].
    rewrite (decode_framed "{"); [|apply lines_framed|done|done|by apply validate_lines].
    change ("{" =b "[") with false. cbn iota. unfold decode_object.
    destruct (Unmarshal_lines o p l) as [e ->]; [by apply Forall_cons in Hl as [? _]|]. unfold decode_lines.
    assert (Contains (lines_text (o :: p :: l)) (chr LF) = true) as ->.
    { rewrite lines_text_cons. apply Contains_spec. by eexists _, _. }
    unfold lines_text. rewrite Split_Join_chr.
    + rewrite (ndjson_records_good 0); [done| |simpl in *; lia]. rewrite Forall_forall in *. intros x Hx. split; [by apply Hl|by apply Hshort].
    + done.
    + apply Forall_fmap. eapply Forall_impl; [exact Hl|]. intros x (Hw & _)%good_spec. by apply print_one_line.
  - intros o -> Hs. apply Forall_cons in Hl as [Ho _]. pose proof (good_spec o Ho) as (Hw & Hd & _ & Hm).
    rewrite (decode_framed "{"); [|apply print_object_framed|done|done|apply validate_print; [done|lia]].
    change ("{" =b "[") with false. cbn iota. unfold decode_object. rewrite Unmarshal_good by done. by rewrite (proj2 (Z.ltb_ge _ _)).
Qed.

Definition sample_objects : list obj :=
  [[("src", JStr "10.0.0.1"); ("port", JNum "443")];
   [("msg", JStr (chr QUOTE +:+ "a" +:+ chr LF)); ("tags", JArr [JNull; JBool true; JObj []])]].

Lemma json_batch_roundtrip_witness :
  JSONDecoder_Decode (array_text sample_objects) = Ok (imap (array_record 2) sample_objects)
  ∧ JSONDecoder_Decode (lines_text sample_objects) = Ok (imap ndjson_record sample_objects).
Proof.
  destruct (json_batch_roundtrip sample_objects) as (Ha & Hl & _).
  - repeat constructor; vm_compute; reflexivity.
  - vm_compute. discriminate.
  - split; [apply Ha|apply Hl].
    + vm_compute. discriminate.
    + vm_compute. discriminate.
    + simpl. lia.
    + repeat constructor; vm_compute; reflexivity.
    + vm_compute. discriminate.
Defined.

(** ** The limits *)

Lemma ndjson_records_length i lines recs :
  ndjson_records i lines = Ok recs → 0 ≤ i ≤ MaxChildren → i + Z.of_nat (length recs) ≤ MaxChildren.
Proof.
  revert i recs. induction lines as [|s lines IH]; intros i recs; cbn [ndjson_records]; [intros [= <-]; simpl; lia|].
  case_match; [done|]. destruct (Z.leb_spec MaxChildren i); [done|]. case_match; [apply IH|].
  intros (m & _ & H')%res_bind_ok. case_match; [done|]. apply res_bind_ok in H' as (rest & Hr & [= <-]). intros Hi.
  apply IH in Hr; [|lia]. cbn [length]. lia.
Qed.

(** C34: what the JSON decoder accepts is within its limits: at most [MaxChildren] records
    from at most [MaxPayloadBytes] bytes, each with at most [MaxFields] fields, and no field
    is nested so deep that the record exceeds [MaxDepth] levels, in whichever framing the
    record came. *)
Theorem json_decode_bounded (raw : string) (recs : list DecodedRecord) :
  JSONDecoder_Decode raw = Ok recs →
  slen raw ≤ MaxPayloadBytes ∧ Z.of_nat (length recs) ≤ MaxChildren
  ∧ Forall (λ r, map_len (Fields r) ≤ MaxFields ∧ bounded_fields (Fields r)) recs.
Proof.
  intros (Hs & Hp & Hc)%JSONDecoder_cases. split; [done|].
  destruct Hc as [(l & Hl & Hn & Hr)%decode_array_cases|[(m & Hm & Hlen & ->)|Hr]%decode_object_cases].
  - pose proof (array_records_bounded _ _ _ _ Hr (Unmarshal_raws_passes _ _ Hl Hp)) as Hb.
    apply array_records_spec in Hr as [_ Hf]. rewrite <- (Forall2_length _ _ _ Hf). split; [done|].
    apply Forall_and. split; [|done]. clear -Hf. induction Hf as [|x r l recs (_ & _ & H) _ IH]; by constructor.
  - split; [done|]. apply Forall_singleton. split; [done|]. destruct Hp as [st Hst]. rewrite <- (app_nil_r_str (TrimSpace raw)) in Hst.
    by destruct (Unmarshal_bounded _ _ _ _ Hm Hst).
  - destruct Hp as [st Hst]. rewrite <- (Join_Split (TrimSpace raw) (chr LF)) in Hst.
    pose proof (ndjson_records_bounded _ _ _ _ Hr Hst) as Hb. split; [apply ndjson_records_length in Hr; [lia|by vm_compute]|].
    apply ndjson_records_spec in Hr as [_ Hf]. apply Forall_and. split; [|done].
    clear -Hf. induction Hf as [|x r l recs (_ & _ & H) _ IH]; by constructor.
Qed.

Lemma json_decode_bounded_witness :
  let raw := "{" +:+ chr QUOTE +:+ "a" +:+ chr QUOTE +:+ ":[1]}" in
  let r := json_record 0 "json" ∅ (Some {["a" := VList [VFloat (f64_of_Z 1)]]}) raw in
  JSONDecoder_Decode raw = Ok [r] ∧ map_len (Fields r) ≤ MaxFields.
Proof.
  intros raw r. assert (JSONDecoder_Decode raw = Ok [r]) as H by (vm_compute; reflexivity). split; [exact H|].
  pose proof (json_decode_bounded raw [r] H) as (_ & _ & Hf). apply Forall_cons in Hf as [[Hr _] _]. exact Hr.
Defined.

(** A null in an array is a record without a map. *)
Example null_item_is_nil :
  match JSONDecoder_Decode "[null, {}]" with Ok recs => map Fields recs | _ => [] end = [None; Some ∅].
Proof. vm_compute. reflexivity. Qed.

(** A long line is refused in a stream of lines, although it is accepted alone. *)
Lemma long_line_refused o s :
  MaxScanTokenSize ≤ slen s → ndjson_records 0 [s; o] = Err (Errorf "NDJSON scanner error: %w" [AErr ErrTooLong]).
Proof. intros H. cbn [ndjson_records]. by rewrite (proj2 (Z.leb_le _ _)). Qed.
