(* ===== verification/Xml.v ===== *)
(** * [internal/decode/xml.go]: XML documents

    The tokens are those of [encoding/xml] in its strict mode, which knows no entities but
    the predefined ones: [XmlEnv] gives those of a text and the error, if any, that ends
    them.  The document is built on a stack of open elements; the Go nodes are linked into
    their parent when they open, here when they close, and at the end of the tokens those
    still open are closed ([root_of]), which comes to the same tree.  The records of a batch
    share one map of headers, whose later changes ([wrapInnerRecords]) are the same for each. *)

From S2P Require Import Prelude GoStrings GoNum Model Decoder.

Record xname := { Space : string; Local : string }.

Inductive xml_token :=
| XStart (name : xname) (attrs : list (xname * string))
| XEnd (name : xname)
| XChar (data : string)
| XDirective (text : string)
| XOther.                                    (* comments and processing instructions *)

(** The tokens of a text, and the error that follows them ([None]: [io.EOF]). *)
Class XmlEnv := { xml_tokens : string → list xml_token * option error }.

(** ** Text *)

(** [strings.ToUpper], of ASCII letters and of the two runes whose upper case is one. *)
Definition upper_byte (c : ascii) : ascii := if (97 <=? bz c) && (bz c <=? 122) then zb (bz c - 32) else c.
Definition upper_rune (r : rune) : string :=
  if r.1 =? 305 then "I" else if r.1 =? 383 then "S" else match r.2 with String c "" => chr (upper_byte c) | b => b end.
Definition ToUpper (s : string) : string := String.concat "" (upper_rune <$> runes s).

Definition BOM : string := String (zb 239) (String (zb 187) (chr (zb 191))).
Definition stripBOM (b : string) : string := TrimPrefix b BOM.

(** ** Detection *)

Definition is_letter (c : ascii) : bool := ((97 <=? bz c) && (bz c <=? 122)) || ((65 <=? bz c) && (bz c <=? 90)).

Definition root_confidence (trimmed : string) : confidence :=
  match IndexByte trimmed ">" with
  | Some endTag =>
      if (1 <? endTag)%nat then
        match GoStrings.Fields (str_take (endTag - 1) (str_drop 1 trimmed)) with
        | String c _ :: _ => if is_letter c then (if HasSuffix trimmed ">" then 90 else 60) else 0
        | _ => 0
        end
      else 0
  | None => 0
  end.

Definition XMLDecoder_Detect (raw : string) : confidence :=
  match TrimSpace (stripBOM raw) with
  | "" => 0
  | String c rest as trimmed =>
      if HasPrefix trimmed "<?xml" then 95
      else if (c =b "<"%char) && negb (HasPrefix trimmed "<?") && negb (HasPrefix trimmed "<!--") then
        if match rest with String d _ => is_digit d | "" => false end then 0 else root_confidence trimmed
      else 0
  end.

(** ** The tree *)

Inductive xmlNode := Node { nd_Name : xname; nd_Attrs : gmap string string; nd_Text : string; nd_Children : list xmlNode }.

Section node_ind'.
Context (P : xmlNode → Prop) (Pnode : ∀ n a t l, Forall P l → P (Node n a t l)).
Fixpoint xmlNode_ind' (x : xmlNode) : P x :=
  match x with
  | Node n a t l => Pnode n a t l ((fix go l : Forall P l :=
      match l with [] => Forall_nil_2 P | y :: l' => Forall_cons_2 P y l' (xmlNode_ind' y) (go l') end) l)
  end.
End node_ind'.

Definition attr_key (n : xname) : string := if Space n <>s "" then "@" +:+ Space n +:+ ":" +:+ Local n else "@" +:+ Local n.
Definition attr_map (attrs : list (xname * string)) : gmap string string :=
  foldl (λ m a, <[attr_key a.1 := a.2]> m) ∅ attrs.

Definition add_child (n c : xmlNode) : xmlNode := Node (nd_Name n) (nd_Attrs n) (nd_Text n) (nd_Children n ++ [c]).
Definition add_text (n : xmlNode) (s : string) : xmlNode := Node (nd_Name n) (nd_Attrs n) (nd_Text n +:+ s) (nd_Children n).

(** [rootNode], where it is closed, and the open elements, innermost first. *)
Record xml_state := { xs_root : option xmlNode; xs_stack : list xmlNode }.

Definition close_top (s : xml_state) : xml_state :=
  match xs_stack s with
  | [] => s
  | n :: [] => {| xs_root := Some n; xs_stack := [] |}
  | n :: p :: stk => {| xs_root := xs_root s; xs_stack := add_child p n :: stk |}
  end.

Definition doctype_error : error :=
  errors_New "security violation: XML DOCTYPE and ENTITY directives are forbidden in log inputs".
Definition forbidden (t : string) : bool := Contains (ToUpper t) "DOCTYPE" || Contains (ToUpper t) "ENTITY".

Definition xml_step (s : xml_state) (t : xml_token) : res xml_state :=
  match t with
  | XDirective text => if forbidden text then Err doctype_error else Ok s
  | XStart name attrs =>
      match xs_root s, xs_stack s with
      | Some _, [] => Err (errors_New "multiple top-level XML elements are not allowed")
      | _, stk =>
          if MaxDepth <=? Z.of_nat (length stk) then Err (Errorf "xml depth limit exceeded: depth > %d" [AInt MaxDepth])
          else Ok {| xs_root := xs_root s; xs_stack := Node name (attr_map attrs) "" [] :: stk |}
      end
  | XChar data =>
      match xs_stack s with
      | n :: stk => if TrimSpace data <>s "" then Ok {| xs_root := xs_root s; xs_stack := add_text n data :: stk |} else Ok s
      | [] => Ok s
      end
  | XEnd name =>
      match xs_stack s with
      | [] => Err (Errorf "unexpected closing tag </%s>" [AStr (Local name)])
      | _ => Ok (close_top s)
      end
  | XOther => Ok s
  end.

Definition max_tokens : Z := 50000.
Definition token_limit : error := errors_New "token limit exceeded: XML contains more than 50,000 tokens".

(** The loop over the tokens; [count] of them have been asked for. *)
Fixpoint xml_loop (count : Z) (tokens : list xml_token) (last : option error) (s : xml_state) : res xml_state :=
  if max_tokens <? count + 1 then Err token_limit
  else
    match tokens with
    | [] => match last with None => Ok s | Some e => Err (Errorf "xml syntax error: %w" [AErr e]) end
    | t :: tokens' => s' ← xml_step s t; xml_loop (count + 1) tokens' last s'
    end.

Fixpoint close_all (n : xmlNode) (stk : list xmlNode) : xmlNode :=
  match stk with [] => n | p :: stk' => close_all (add_child p n) stk' end.
Definition root_of (s : xml_state) : option xmlNode :=
  match xs_stack s with [] => xs_root s | n :: stk => Some (close_all n stk) end.

(** ** The records *)

Definition isCollectionRoot (n : xmlNode) : bool :=
  match nd_Children n with
  | [] => false
  | c0 :: _ =>
      let local := ToLower (Local (nd_Name n)) in
      HasSuffix local "s" || HasSuffix local "list" || HasSuffix local "batch"
      || forallb (λ c, Local (nd_Name c) =s Local (nd_Name c0)) (nd_Children n)
  end.

(** The children of one element name as one value. *)
Definition group (vals : list value) : value := match vals with [v] => v | _ => VList vals end.
Definition grouped (vals : list (string * value)) : fields :=
  list_to_map ((λ name, (name, group (snd <$> List.filter (λ v, v.1 =s name) vals))) <$> remove_dups (fst <$> vals)).

Fixpoint nodeToMap (n : xmlNode) : fields :=
  match n with
  | Node name attrs text children =>
      let vals := map (λ c, (Local (nd_Name c),
                             match nd_Children c, decide (nd_Attrs c = ∅) with
                             | [], left _ => VStr (TrimSpace (nd_Text c))
                             | _, _ => VMap (nodeToMap c)
                             end)) children in
      let base := text_values attrs in
      grouped vals ∪ (if TrimSpace text <>s "" then <["#text" := VStr (TrimSpace text)]> base else base)
  end.

Definition xml_headers (root : xmlNode) : fields :=
  let h : fields := {["xml_root_local" := VStr (Local (nd_Name root))]} in
  text_values (nd_Attrs root) ∪
  (if Space (nd_Name root) <>s "" then <["xml_root_namespace" := VStr (Space (nd_Name root))]> h else h).

Definition xml_record (i : Z) (headers flds : fields) (raw : string) : DecodedRecord :=
  {| dr_RawID := ""; RecordOrdinal := i; Format := "xml"; Headers := Some headers; Fields := Some flds; RawPayload := raw |}.

(** [childFields], with the root's headers where it has no such key *)
Definition child_fields (headers : fields) (c : xmlNode) : fields := nodeToMap c ∪ headers.

Definition xml_records (root : xmlNode) (raw : string) : res (list DecodedRecord) :=
  let headers := xml_headers root in
  if (match nd_Children root with [] => false | _ => true end) && isCollectionRoot root then
    if MaxChildren <? Z.of_nat (length (nd_Children root))
    then Err (Errorf "batch child count exceeded maximum %d" [AInt MaxChildren])
    else Ok (imap (λ i c, xml_record (Z.of_nat i) headers (child_fields headers c) raw) (nd_Children root))
  else Ok [xml_record 0 headers (nodeToMap root) raw].

Section xml.
Context `{XmlEnv}.

Definition XMLDecoder_Decode (raw : string) : res (list DecodedRecord) :=
  if MaxPayloadBytes <? slen raw then
    Err (Errorf "payload size %d exceeds maximum allowed %d bytes" [AInt (slen raw); AInt MaxPayloadBytes])
  else
    let trimmed := TrimSpace (stripBOM raw) in
    if slen trimmed =? 0 then Err (errors_New "empty XML payload")
    else
      let '(tokens, last) := xml_tokens trimmed in
      s ← xml_loop 0 tokens last {| xs_root := None; xs_stack := [] |};
      match root_of s with
      | None => Err (errors_New "no root XML element found")
      | Some root => xml_records root raw
      end.

Definition XMLDecoder : Decoder :=
  {| Name := "xml"; Detect := XMLDecoder_Detect; Decode := XMLDecoder_Decode |}.
End xml.

(** ** What an accepted document is *)

(** The longest chain of elements. *)
Fixpoint height (n : xmlNode) : Z :=
  match n with Node _ _ _ children => 1 + foldr Z.max 0 (map height children) end.

Lemma height_eq n : height n = 1 + foldr Z.max 0 (height <$> nd_Children n).
Proof. by destruct n. Qed.

Lemma height_pos n : 1 ≤ height n.
Proof. rewrite height_eq. generalize (height <$> nd_Children n). intros l. assert (0 ≤ foldr Z.max 0 l) by (induction l; simpl; lia). lia. Qed.

Lemma child_height n c : c ∈ nd_Children n → height c + 1 ≤ height n.
Proof.
  rewrite (height_eq n). intros Hc%(list_elem_of_fmap_2 height). revert Hc. generalize (height <$> nd_Children n). intros zs Hc.
  assert (height c ≤ foldr Z.max 0 zs) by (induction Hc; simpl; lia). lia.
Qed.

Lemma height_add_child p n : height (add_child p n) = Z.max (height p) (1 + height n).
Proof.
  rewrite !height_eq. unfold add_child. cbn [nd_Children]. pose proof (height_pos n). rewrite height_eq in H at 1. rewrite <- (height_eq n) in *.
  rewrite fmap_app. cbn [fmap list_fmap]. generalize (height <$> nd_Children p). intros l. pose proof (height_pos n).
  induction l as [|x l IH]; simpl; lia.
Qed.

(** Nothing built so far is higher than the bound. *)
Fixpoint stack_bounded (stk : list xmlNode) : Prop :=
  match stk with
  | [] => True
  | n :: stk' => height n + Z.of_nat (length stk') ≤ MaxDepth ∧ stack_bounded stk'
  end.

Definition xml_bounded (s : xml_state) : Prop :=
  stack_bounded (xs_stack s) ∧ match xs_root s with Some n => height n ≤ MaxDepth | None => True end.

Lemma close_top_bounded s : xml_bounded s → xml_bounded (close_top s).
Proof.
  unfold xml_bounded, close_top. destruct (xs_stack s) as [|n [|p stk]] eqn:E;
    [by rewrite E|intros [[Hn _] _]; cbn in *; split; [done|lia]|].
  intros [(Hn & Hp & Hs) Hr]. cbn [xs_stack xs_root stack_bounded length] in *. rewrite height_add_child. split; [|done]. split; [lia|done].
Qed.

Lemma xml_step_bounded s t s' : xml_step s t = Ok s' → xml_bounded s → xml_bounded s'.
Proof.
  destruct t as [name attrs|name|data|text|]; cbn [xml_step].
  - intros H [Hs Hr]. assert (s' = {| xs_root := xs_root s; xs_stack := Node name (attr_map attrs) "" [] :: xs_stack s |}
      ∧ Z.of_nat (length (xs_stack s)) < MaxDepth) as [-> Hlt].
    { destruct (xs_root s), (xs_stack s); try done; (case_match eqn:El; [done|]; apply Z.leb_gt in El; injection H as <-; done). }
    split; [|done]. cbn [xs_stack stack_bounded]. split; [simpl; lia|done].
  - intros H Hb. assert (s' = close_top s) as -> by (destruct (xs_stack s); [done|by injection H]). by apply close_top_bounded.
  - intros H [Hs Hr]. destruct (xs_stack s) as [|n stk] eqn:E; [injection H as <-; by split; rewrite ?E|].
    destruct (TrimSpace data <>s ""); injection H as <-; [|by split; rewrite ?E]. split; [|done]. cbn [xs_stack stack_bounded] in *.
    rewrite height_eq. cbn [nd_Children add_text]. by rewrite <- height_eq.
  - by case_match; intros [= <-].
  - by intros [= <-].
Qed.

Lemma close_all_bounded n stk : height n + Z.of_nat (length stk) ≤ MaxDepth → stack_bounded stk → height (close_all n stk) ≤ MaxDepth.
Proof.
  revert n. induction stk as [|p stk IH]; intros n Hn Hs; [simpl in *; lia|]. cbn [close_all stack_bounded length] in *. destruct Hs as [Hp Hs].
  apply IH; [|done]. rewrite height_add_child. lia.
Qed.

Lemma root_of_bounded s root : xml_bounded s → root_of s = Some root → height root ≤ MaxDepth.
Proof.
  unfold root_of, xml_bounded. destruct (xs_stack s) as [|n stk]; [by intros [_ Hr] E; rewrite E in Hr|].
  intros [[Hn Hs] _] [= <-]. by apply close_all_bounded.
Qed.

Lemma xml_loop_spec count tokens last s s' :
  xml_loop count tokens last s = Ok s' →
  count + Z.of_nat (length tokens) < max_tokens ∧ last = None
  ∧ Forall (λ t, match t with XDirective text => forbidden text = false | _ => True end) tokens
  ∧ (xml_bounded s → xml_bounded s').
Proof.
  revert count s. induction tokens as [|t tokens IH]; intros count s; cbn [xml_loop];
    (destruct (Z.ltb_spec max_tokens (count + 1)); [done|]).
  - destruct last; [done|]. intros [= <-]. split_and!; [simpl; lia|done|done|done].
  - intros (s1 & H1 & H2)%res_bind_ok. destruct (IH _ _ H2) as (Hn & Hl & Hf & Hb). cbn [length]. split_and!; [lia|done| |].
    + constructor; [|done]. destruct t; try done. cbn [xml_step] in H1. by destruct (forbidden text).
    + intros Hs. by eapply Hb, xml_step_bounded.
Qed.

(** *** Values *)

Lemma shallow_weaken n m v : (n ≤ m)%nat → shallow n v → shallow m v.
Proof.
  revert m v. induction n as [|n IH]; intros m v Hnm Hv; destruct m as [|m]; try lia; try done; destruct v; try done; cbn [shallow] in *.
  - by eapply map_Forall_impl; [exact Hv|]; intros k x Hx; apply (IH m); [lia|].
  - by eapply Forall_impl; [exact Hv|]; intros x Hx; apply (IH m); [lia|].
Qed.

Lemma group_shallow n vals : Forall (shallow n) vals → shallow (S n) (group vals).
Proof.
  intros Hv. destruct vals as [|v [|w vals]]; [done| |done]. apply Forall_cons in Hv as [Hv _]. by apply (shallow_weaken n); [lia|].
Qed.

Lemma grouped_shallow n vals : Forall (λ v, shallow n v.2) vals → map_Forall (λ _, shallow (S n)) (grouped vals).
Proof.
  intros Hv k v Hk. unfold grouped in Hk. apply elem_of_list_to_map_2 in Hk. apply list_elem_of_fmap in Hk as (name & [= -> ->] & _).
  apply group_shallow, Forall_fmap. apply Forall_forall. intros x Hx. apply list_elem_of_In, filter_In in Hx as [Hx%list_elem_of_In _].
  rewrite Forall_forall in Hv. by apply Hv.
Qed.

Lemma text_values_shallow n m : map_Forall (λ _, shallow n) (text_values m).
Proof. intros k v Hv. unfold text_values in Hv. apply lookup_fmap_Some in Hv as (s & <- & _). by destruct n. Qed.

Lemma union_shallow n (a b : fields) :
  map_Forall (λ _, shallow n) a → map_Forall (λ _, shallow n) b → map_Forall (λ _, shallow n) (a ∪ b).
Proof. intros Ha Hb k v [Hv|[_ Hv]]%lookup_union_Some_raw; [by apply (Ha k)|by apply (Hb k)]. Qed.

(** An element of height [h] is a map of [2 * h - 1] levels, as siblings of one name are a list. *)
Lemma nodeToMap_shallow x h : height x ≤ Z.of_nat (S h) → map_Forall (λ _, shallow (2 * h)) (nodeToMap x).
Proof.
  revert h. induction x as [name attrs text l IH] using xmlNode_ind'; intros h Hh. cbn [nodeToMap].
  apply union_shallow.
  - destruct l as [|c l]; [done|]. destruct h as [|h].
    { exfalso. rewrite height_eq in Hh. cbn [nd_Children fmap list_fmap foldr] in Hh. pose proof (height_pos c). lia. }
    replace (2 * S h)%nat with (S (S (2 * h))) by lia. apply grouped_shallow. apply Forall_forall. intros v Hv.
    apply list_elem_of_In, in_map_iff in Hv as (y & <- & Hy%list_elem_of_In). cbn [snd]. 
    assert (height y ≤ Z.of_nat (S h)) as Hle by (pose proof (child_height (Node name attrs text (c :: l)) y Hy); lia).
    rewrite Forall_forall in IH. specialize (IH y Hy h Hle). destruct (nd_Children y), (decide (nd_Attrs y = ∅)); by try exact IH.
  - case_match; [|apply text_values_shallow]. apply map_Forall_insert_2; [by destruct h|apply text_values_shallow].
Qed.

(** ** The decoder's interface *)

Section interface.
Context `{XmlEnv}.

Lemma xml_records_ok root raw recs :
  xml_records root raw = Ok recs →
  ordinals recs = seqZ 0 (Z.of_nat (length recs)) ∧ Forall (λ r, non_nil r = true) recs ∧ Z.of_nat (length recs) ≤ MaxChildren.
Proof.
  unfold xml_records. case_match.
  - destruct (Z.ltb_spec MaxChildren (Z.of_nat (length (nd_Children root)))); [done|]. intros [= <-].
    assert (∀ h l k, ordinals (imap (λ i c, xml_record (Z.of_nat (k + i)) h (child_fields h c) raw) l) = seqZ (Z.of_nat k) (Z.of_nat (length l))
                   ∧ Forall (λ r, non_nil r = true) (imap (λ i c, xml_record (Z.of_nat (k + i)) h (child_fields h c) raw) l)) as Hl.
    { intros h l. induction l as [|c l IH]; intros k; [done|]. cbn [imap]. destruct (IH (S k)) as [Ho Hn].
      assert (imap ((λ i c, xml_record (Z.of_nat (k + i)) h (child_fields h c) raw) ∘ S) l
              = imap (λ i c, xml_record (Z.of_nat (S k + i)) h (child_fields h c) raw) l) as ->.
      { apply imap_ext. intros i x _. unfold compose. by replace (k + S i)%nat with (S k + i)%nat by lia. }
      split; [|by constructor]. unfold ordinals in *. rewrite fmap_cons, Ho. cbn [RecordOrdinal xml_record length].
      rewrite (seqZ_cons (Z.of_nat k)) by lia. f_equal; [lia|]. f_equal; lia. }
    destruct (Hl (xml_headers root) (nd_Children root) O) as [Ho Hn]. rewrite length_imap. split_and!; [exact Ho|exact Hn|done].
  - intros [= <-]. split_and!; [done|by repeat constructor|by vm_compute].
Qed.

Lemma XMLDecoder_cases raw recs :
  XMLDecoder_Decode raw = Ok recs →
  slen raw ≤ MaxPayloadBytes
  ∧ ∃ s root, xml_loop 0 (xml_tokens (TrimSpace (stripBOM raw))).1 (xml_tokens (TrimSpace (stripBOM raw))).2
                {| xs_root := None; xs_stack := [] |} = Ok s
              ∧ root_of s = Some root ∧ xml_records root raw = Ok recs.
Proof.
  unfold XMLDecoder_Decode. destruct (Z.ltb_spec MaxPayloadBytes (slen raw)); [done|]. case_match; [done|]. split; [done|].
  destruct (xml_tokens _) as [tokens last]. revert H2. intros (s & Hs & Hr)%res_bind_ok. exists s.
  destruct (root_of s) as [root|]; [|done]. by exists root.
Qed.

#[export] Instance XMLDecoder_lawful : LawfulDecoder XMLDecoder.
Proof.
  split.
  - intros raw. cbn [Detect XMLDecoder]. unfold XMLDecoder_Detect, root_confidence. repeat case_match; lia.
  - by intros raw recs [? _]%XMLDecoder_cases.
  - by intros raw recs (_ & s & root & _ & _ & (? & _)%xml_records_ok)%XMLDecoder_cases.
Qed.

#[export] Instance XMLDecoder_non_nil : NonNilDecoder XMLDecoder.
Proof. by intros raw recs (_ & s & root & _ & _ & (_ & ? & _)%xml_records_ok)%XMLDecoder_cases. Qed.

#[export] Instance XMLDecoder_total : TotalDecoder XMLDecoder.
Proof.
  intros raw. cbn [Decode XMLDecoder]. unfold XMLDecoder_Decode. case_match; [done|]. case_match; [done|].
  destruct (xml_tokens _) as [tokens last]. apply res_bind_no_panic.
  - generalize 0 {| xs_root := None; xs_stack := [] |}. induction tokens as [|t tokens IH]; intros count s; cbn [xml_loop];
      (case_match; [done|]); [by case_match|]. apply res_bind_no_panic; [|intros s' _; apply IH].
    destruct t; cbn [xml_step]; by repeat case_match.
  - intros s _. case_match; [|done]. unfold xml_records. by repeat case_match.
Qed.
End interface.

(** ** What is accepted *)

Lemma shallow_map n m : map_Forall (λ _, shallow n) m → shallow (S n) (VMap m).
Proof. intros H. exact H. Qed.

Lemma record_shallow m : map_Forall (λ _, shallow 62) m → shallow (2 * Z.to_nat MaxDepth - 1) (VMap m).
Proof. replace (2 * Z.to_nat MaxDepth - 1)%nat with (S 62) by reflexivity. apply shallow_map. Qed.

Lemma xml_records_shallow root raw recs :
  xml_records root raw = Ok recs → height root ≤ MaxDepth →
  Forall (λ r, match Fields r with Some m => shallow (2 * Z.to_nat MaxDepth - 1) (VMap m) | None => False end) recs.
Proof.
  intros Hr Hh. assert (∀ x, height x ≤ MaxDepth → map_Forall (λ _, shallow 62) (nodeToMap x)) as Hx.
  { intros x Hx. apply (nodeToMap_shallow x 31). exact Hx. }
  assert (map_Forall (λ _, shallow 62) (xml_headers root)) as Hheaders.
  { unfold xml_headers. apply union_shallow; [apply text_values_shallow|]. case_match.
    - apply map_Forall_insert_2; [done|]. by apply map_Forall_singleton.
    - by apply map_Forall_singleton. }
  unfold xml_records in Hr. case_match.
  - case_match; [done|]. injection Hr as <-. apply Forall_forall. intros r Hr. apply list_elem_of_lookup in Hr as [i Hi].
    rewrite list_lookup_imap in Hi. apply fmap_Some in Hi as (c & Hc & ->). cbn [Fields xml_record].
    apply record_shallow, union_shallow; [|done]. apply Hx. apply list_elem_of_lookup_2, child_height in Hc. lia.
  - injection Hr as <-. apply Forall_singleton. cbn [Fields xml_record]. by apply record_shallow, Hx.
Qed.

(** C36: what the XML decoder accepts.  A document whose tokens hold a DOCTYPE or ENTITY
    directive, in whatever case, is refused, and so is one with a syntax error, with too
    many tokens, with elements nested deeper than [MaxDepth] or with more than [MaxChildren]
    records; the fields of a record are nested at most twice that deep, less one. *)
Theorem xml_decode_safe (env : XmlEnv) (raw : string) (recs : list DecodedRecord) :
  XMLDecoder_Decode raw = Ok recs →
  let '(tokens, last) := xml_tokens (TrimSpace (stripBOM raw)) in
  last = None ∧ Z.of_nat (length tokens) < max_tokens
  ∧ (∀ text, XDirective text ∈ tokens → Contains (ToUpper text) "DOCTYPE" = false ∧ Contains (ToUpper text) "ENTITY" = false)
  ∧ (∃ root, xml_records root raw = Ok recs ∧ height root ≤ MaxDepth)
  ∧ Z.of_nat (length recs) ≤ MaxChildren
  ∧ Forall (λ r, match Fields r with Some m => shallow (2 * Z.to_nat MaxDepth - 1) (VMap m) | None => False end) recs.
Proof.
  intros (_ & s & root & Hs & Hroot & Hr)%XMLDecoder_cases. destruct (xml_tokens _) as [tokens last]. cbn [fst snd] in Hs.
  destruct (xml_loop_spec _ _ _ _ _ Hs) as (Hn & Hl & Hf & Hb).
  assert (height root ≤ MaxDepth) as Hh by (eapply root_of_bounded; [by apply Hb|done]). split_and!; [done|lia| |by exists root| |].
  - intros text Ht. rewrite Forall_forall in Hf. apply Hf in Ht. unfold forbidden in Ht. by apply orb_false_iff.
  - by apply xml_records_ok in Hr as (_ & _ & ?).
  - by apply xml_records_shallow in Hr.
Qed.

(** ** The tree of a document *)

(** An element: the text before each child, and after the last. *)
Inductive elem := Elem (name : xname) (attrs : list (xname * string)) (kids : list (string * elem)) (rest : string).

Section elem_ind'.
Context (P : elem → Prop) (Pelem : ∀ n a l t, Forall (P ∘ snd) l → P (Elem n a l t)).
Fixpoint elem_ind' (x : elem) : P x :=
  match x with
  | Elem n a l t => Pelem n a l t ((fix go l : Forall (P ∘ snd) l :=
      match l with [] => Forall_nil_2 _ | (s, y) :: l' => Forall_cons_2 (P ∘ snd) (s, y) l' (elem_ind' y) (go l') end) l)
  end.
End elem_ind'.

Fixpoint elem_tokens (x : elem) : list xml_token :=
  match x with
  | Elem n a kids t => XStart n a :: concat (map (λ k, XChar k.1 :: elem_tokens k.2) kids) ++ [XChar t; XEnd n]
  end.

(** The text kept of a piece of text: all of it, or nothing where it is blank. *)
Definition kept (s : string) : string := if TrimSpace s <>s "" then s else "".

Fixpoint node_of (x : elem) : xmlNode :=
  match x with
  | Elem n a kids t => Node n (attr_map a) (String.concat "" (map (λ k, kept k.1) kids) +:+ kept t) (map (λ k, node_of k.2) kids)
  end.

Fixpoint xml_steps (s : xml_state) (ts : list xml_token) : res xml_state :=
  match ts with [] => Ok s | t :: ts' => s' ← xml_step s t; xml_steps s' ts' end.

(** The state once an element has closed. *)
Definition complete (s : xml_state) (n : xmlNode) : xml_state :=
  match xs_stack s with
  | [] => {| xs_root := Some n; xs_stack := [] |}
  | p :: stk => {| xs_root := xs_root s; xs_stack := add_child p n :: stk |}
  end.

Definition open_state (s : xml_state) : Prop := match xs_root s, xs_stack s with Some _, [] => False | _, _ => True end.

Definition builds (x : elem) : Prop :=
  ∀ s ts, open_state s → Z.of_nat (length (xs_stack s)) + height (node_of x) ≤ MaxDepth →
  xml_steps s (elem_tokens x ++ ts) = xml_steps (complete s (node_of x)) ts.

Lemma xml_steps_app s ts ts' : xml_steps s (ts ++ ts') = (s' ← xml_steps s ts; xml_steps s' ts').
Proof.
  revert s. induction ts as [|t ts IH]; intros s; [done|]. cbn [app xml_steps].
  destruct (xml_step s t) as [s1| |]; [|done..]. cbn [mbind res_bind]. apply IH.
Qed.

Lemma char_step s n stk data :
  xs_stack s = n :: stk → xml_step s (XChar data) = Ok {| xs_root := xs_root s; xs_stack := add_text n (kept data) :: stk |}.
Proof.
  intros E. cbn [xml_step]. rewrite E. unfold kept. destruct (TrimSpace data <>s ""); [done|]. f_equal.
  destruct s as [r st]. cbn in *. subst st. unfold add_text. rewrite app_nil_r_str. by destruct n.
Qed.

(** The children of an open element, one after the other. *)
Lemma kids_steps r n a text nodes stk kids ts :
  Forall (builds ∘ snd) kids →
  Forall (λ k, Z.of_nat (S (length stk)) + height (node_of k.2) ≤ MaxDepth) kids →
  xml_steps {| xs_root := r; xs_stack := Node n a text nodes :: stk |} (concat (map (λ k, XChar k.1 :: elem_tokens k.2) kids) ++ ts)
  = xml_steps {| xs_root := r; xs_stack := Node n a (text +:+ String.concat "" (map (λ k, kept k.1) kids))
                                              (nodes ++ map (λ k, node_of k.2) kids) :: stk |} ts.
Proof.
  intros Hb Hh. revert text nodes. induction kids as [|[s x] kids IH]; intros text nodes.
  - cbn [map concat app String.concat]. by rewrite app_nil_r_str, app_nil_r.
  - apply Forall_cons in Hb as [Hx Hb]. apply Forall_cons in Hh as [Hd Hh]. unfold compose in Hx. cbn [fst snd] in *.
    cbn [map concat fst snd]. rewrite <- !app_comm_cons, <- app_assoc. cbn [xml_steps].
    erewrite char_step by reflexivity. cbn [mbind res_bind xs_root]. rewrite Hx; [|by destruct r|cbn [xs_stack length]; lia].
    unfold complete. cbn [xs_stack xs_root]. unfold add_child, add_text. cbn [nd_Name nd_Attrs nd_Text nd_Children].
    rewrite IH by done. rewrite concat_cons_str, app_assoc_str, <- app_assoc. done.
Qed.

Lemma elem_builds x : builds x.
Proof.
  induction x as [n a kids t IH] using elem_ind'. intros s ts Ho Hd. cbn [elem_tokens node_of] in *.
  rewrite <- app_comm_cons, <- app_assoc. cbn [xml_steps].
  set (stk := xs_stack s) in *.
  assert (∀ c, c ∈ map (λ k, node_of k.2) kids → Z.of_nat (S (length stk)) + height c ≤ MaxDepth) as Hkids.
  { intros c Hc. match type of Hd with _ + height ?N ≤ _ => pose proof (child_height N c Hc) end. lia. }
  assert (Z.of_nat (length stk) < MaxDepth) as Hlt.
  { match type of Hd with _ + height ?N ≤ _ => pose proof (height_pos N) end. lia. }
  assert (xml_step s (XStart n a) = Ok {| xs_root := xs_root s; xs_stack := Node n (attr_map a) "" [] :: stk |}) as ->.
  { cbn [xml_step]. unfold open_state in Ho. fold stk in Ho |- *. apply Z.leb_gt in Hlt. destruct (xs_root s), stk; by rewrite ?Hlt. }
  cbn [mbind res_bind]. rewrite kids_steps; [|done|].
  2: { apply Forall_forall. intros k Hk. apply Hkids. apply list_elem_of_In, in_map_iff. exists k. split; [done|]. by apply list_elem_of_In. }
  cbn [app xml_steps]. erewrite char_step by reflexivity. cbn [mbind res_bind xs_root].
  cbn [xml_step xs_stack close_top mbind res_bind]. unfold add_text. cbn [nd_Name nd_Attrs nd_Text nd_Children].
  unfold complete, close_top. cbn [xs_stack xs_root]. change (xs_stack s) with stk. by destruct stk.
Qed.

Lemma xml_loop_steps count ts s :
  count + Z.of_nat (length ts) < max_tokens → xml_loop count ts None s = xml_steps s ts.
Proof.
  revert count s. induction ts as [|t ts IH]; intros count s Hn; cbn [xml_loop length xml_steps] in *;
    rewrite (proj2 (Z.ltb_ge _ _)) by lia; [done|].
  destruct (xml_step s t); [|done..]. cbn [mbind res_bind]. apply IH. lia.
Qed.

(** A document is decoded into the tree its tokens describe.  An element, with its
    attributes, its children and the text around them, no higher than [MaxDepth] and of
    fewer than [max_tokens] tokens, comes out as that element's node: one record of the
    node's fields, or, where the root is a collection, one record per child. *)
Theorem xml_tree_decoded (env : XmlEnv) (raw : string) (x : elem) :
  xml_tokens (TrimSpace (stripBOM raw)) = (elem_tokens x, None) →
  TrimSpace (stripBOM raw) ≠ "" → slen raw ≤ MaxPayloadBytes →
  Z.of_nat (length (elem_tokens x)) < max_tokens → height (node_of x) ≤ MaxDepth →
  XMLDecoder_Decode raw = xml_records (node_of x) raw.
Proof.
  intros Ht Hne Hs Hn Hh. unfold XMLDecoder_Decode. rewrite (proj2 (Z.ltb_ge _ _)) by done.
  assert ((slen (TrimSpace (stripBOM raw)) =? 0) = false) as -> by (destruct (TrimSpace (stripBOM raw)); [done|by unfold slen]).
  rewrite Ht, xml_loop_steps by lia. rewrite <- (app_nil_r (elem_tokens x)), elem_builds; [done|done|cbn; lia].
Qed.

(** A collection of two events, and its tokens. *)
Definition nm (s : string) : xname := {| Space := ""; Local := s |}.
Definition sample_elem : elem :=
  Elem (nm "events") [(nm "v", "1")]
    [(chr LF, Elem (nm "event") [] [("", Elem (nm "src") [] [] "10.0.0.1")] ""); (" ", Elem (nm "event") [] [] "x ")] "".
Definition sample_xml_env : XmlEnv := {| xml_tokens _ := (elem_tokens sample_elem, None) |}.

Lemma xml_tree_decoded_witness :
  @XMLDecoder_Decode sample_xml_env "<events/>"
  = Ok [xml_record 0 {["xml_root_local" := VStr "events"; "@v" := VStr "1"]}
          {["src" := VStr "10.0.0.1"; "xml_root_local" := VStr "events"; "@v" := VStr "1"]} "<events/>";
        xml_record 1 {["xml_root_local" := VStr "events"; "@v" := VStr "1"]}
          {["#text" := VStr "x"; "xml_root_local" := VStr "events"; "@v" := VStr "1"]} "<events/>"].
Proof.
  rewrite (xml_tree_decoded sample_xml_env "<events/>" sample_elem).
  - vm_compute. reflexivity.
  - reflexivity.
  - vm_compute. discriminate.
  - vm_compute. discriminate.
  - vm_compute. reflexivity.
  - vm_compute. discriminate.
Defined.

Lemma xml_decode_safe_witness :
  ∃ recs, @XMLDecoder_Decode sample_xml_env "<events/>" = Ok recs ∧ Z.of_nat (length recs) ≤ MaxChildren.
Proof.
  eexists. assert (@XMLDecoder_Decode sample_xml_env "<events/>" = Ok _) as H by (vm_compute; reflexivity). split; [exact H|].
  apply (xml_decode_safe sample_xml_env "<events/>" _ H).
Defined.

(** A document of exactly 50,000 tokens is refused: the end of the text is counted too. *)
Lemma exactly_max_tokens ts : Z.of_nat (length ts) = max_tokens → ∀ s s', xml_loop 0 ts None s ≠ Ok s'.
Proof. intros Hn s s' H. apply xml_loop_spec in H as [Hlt _]. lia. Qed.
