(* ===== verification/Registry.v ===== *)
(** * [internal/decode/detect.go]: the registry of decoders and format detection *)

From S2P Require Import Prelude GoStrings Model Decoder Cef Leef Syslog Text.
From Stdlib Require Import Sorting.Sorted.

Definition ErrAmbiguousFormat : string :=
  "ambiguous format detection: multiple decoders matched with equal top confidence".

Record CandidateScore := { c_Decoder : Decoder; c_Confidence : confidence }.

Definition c_Name (c : CandidateScore) : string := Name (c_Decoder c).

(** A registry is the list of registered decoders, in order of registration. *)
Definition Registry := list Decoder.
Definition NewRegistry : Registry := [].
Definition Register (r : Registry) (d : Decoder) : Registry := r ++ [d].

(** [a < b] on strings *)
Definition str_ltb (a b : string) : bool :=
  match String.compare a b with Lt => true | _ => false end.

(** The [less] function handed to [sort.SliceStable]. *)
Definition candidate_less (ci cj : CandidateScore) : bool :=
  if negb (c_Confidence ci =? c_Confidence cj) then c_Confidence cj <? c_Confidence ci
  else if (c_Name ci =s "text") && (c_Name cj <>s "text") then false
  else if (c_Name cj =s "text") && (c_Name ci <>s "text") then true
  else if c_Name ci =s "syslog" then true
  else if c_Name cj =s "syslog" then false
  else str_ltb (c_Name ci) (c_Name cj).

(** [sort.SliceStable] on at most 20 elements is this insertion sort: each element
    moves left past its greater predecessors.  [acc] is the sorted prefix, last
    element first. *)
Fixpoint insert_back {A} (less : A → A → bool) (x : A) (acc : list A) : list A :=
  match acc with
  | y :: acc' => if less x y then y :: insert_back less x acc' else x :: acc
  | [] => [x]
  end.

Definition SliceStable {A} (less : A → A → bool) (l : list A) : list A :=
  reverse (foldl (λ acc x, insert_back less x acc) [] l).

Definition candidates_of (r : Registry) (raw : string) : list CandidateScore :=
  List.filter (λ c, 50 <=? c_Confidence c)
    ((λ d, {| c_Decoder := d; c_Confidence := Detect d raw |}) <$> r).

Definition DetectRanked (r : Registry) (raw : string) : list CandidateScore :=
  SliceStable candidate_less (candidates_of r raw).

Definition Registry_Detect (r : Registry) (raw : string) : option (Decoder * confidence) :=
  match DetectRanked r raw with
  | [] => None
  | c :: _ => Some (c_Decoder c, c_Confidence c)
  end.

Definition true_ambiguity (candidates : list CandidateScore) : bool :=
  match candidates with
  | c0 :: c1 :: _ =>
      (c_Confidence c0 =? c_Confidence c1)
      && ((c_Name c0 <>s "text") && (c_Name c1 <>s "text") && (c_Name c0 <>s "syslog"))
  | _ => false
  end.

(** The decoder (nil when none was chosen) is returned next to the result. *)
Definition DetectAndDecode (r : Registry) (raw : string) : option Decoder * res (list DecodedRecord) :=
  match DetectRanked r raw with
  | [] => (None, Err (errors_New "no decoder recognized raw byte format (confidence below 0.50)"))
  | best :: rest =>
      if true_ambiguity (best :: rest) then
        (None, Err (Errorf "%w: candidates %s and %s both scored %0.2f"
                      [AErr (errors_New ErrAmbiguousFormat); AStr (c_Name best);
                       AStr (default "" (c_Name <$> head rest)); AInt (c_Confidence best)]))
      else
        (Some (c_Decoder best),
         wrap_err (λ e, Errorf "%s decoder failed: %w" [AStr (c_Name best); AErr e])
           (Decode (c_Decoder best) raw))
  end.

Section default.
Context (jsonDec xmlDec csvDec : Decoder).

Definition DefaultRegistry : Registry :=
  foldl Register NewRegistry
    [SyslogDecoder jsonDec xmlDec; jsonDec; xmlDec; csvDec; CEFDecoder; LEEFDecoder; TextDecoder].
End default.

(** ** The insertion sort *)

Section sort.
Context {A : Type} (less : A → A → bool) (R : A → A → Prop).
Context (less_true : ∀ x y, less x y = true → R x y).
Context (less_false : ∀ x y, less x y = false → R y x).
Context `{!Transitive R}.

Lemma insert_back_perm x acc : insert_back less x acc ≡ₚ x :: acc.
Proof using Type.
  induction acc as [|y acc IH]; simpl; [done|]. destruct (less x y); [|done].
  rewrite IH. apply Permutation_swap.
Qed.

(** [acc] is sorted from its last element to its first. *)
Lemma insert_back_sorted x acc :
  StronglySorted (flip R) acc → StronglySorted (flip R) (insert_back less x acc).
Proof using All.
  induction acc as [|y acc IH]; simpl; [repeat constructor|]. intros Hs.
  apply StronglySorted_inv in Hs as [Hs Hy]. destruct (less x y) eqn:E.
  - constructor; [by apply IH|]. rewrite insert_back_perm. constructor; [|done].
    by apply less_true.
  - constructor; [by constructor|]. apply less_false in E. constructor; [done|].
    eapply Forall_impl; [exact Hy|]. intros z Hz. unfold flip in *. by etrans.
Qed.

Lemma foldl_insert_back l acc :
  StronglySorted (flip R) acc →
  StronglySorted (flip R) (foldl (λ acc x, insert_back less x acc) acc l)
  ∧ foldl (λ acc x, insert_back less x acc) acc l ≡ₚ acc ++ l.
Proof using All.
  revert acc. induction l as [|x l IH]; intros acc Hs; simpl; [by rewrite app_nil_r|].
  destruct (IH (insert_back less x acc)) as [H1 H2]; [by apply insert_back_sorted|].
  split; [done|]. rewrite H2, insert_back_perm. apply Permutation_middle.
Qed.

Lemma StronglySorted_snoc (S : A → A → Prop) l x :
  StronglySorted S l → Forall (λ y, S y x) l → StronglySorted S (l ++ [x]).
Proof using Type.
  induction 1 as [|y l Hs IH Hy]; simpl; [repeat constructor|]. intros [Hyx Hl]%Forall_cons.
  constructor; [by apply IH|]. apply Forall_app. split; [done|by repeat constructor].
Qed.

Lemma StronglySorted_reverse l : StronglySorted (flip R) l → StronglySorted R (reverse l).
Proof using Type.
  induction 1 as [|x l Hs IH Hx]; [constructor|]. rewrite reverse_cons.
  apply StronglySorted_snoc; [done|]. by rewrite reverse_Permutation.
Qed.

Lemma SliceStable_sorted l : StronglySorted R (SliceStable less l) ∧ SliceStable less l ≡ₚ l.
Proof using All.
  destruct (foldl_insert_back l []) as [H1 H2]; [constructor|]. unfold SliceStable. split.
  - by apply StronglySorted_reverse.
  - by rewrite reverse_Permutation.
Qed.
End sort.

(** ** The ranking order *)

(** Syslog first, text last, the structured formats between them. *)
Definition name_rank (n : string) : Z := if n =s "syslog" then 0 else if n =s "text" then 2 else 1.

Definition ranked (a b : CandidateScore) : Prop :=
  c_Confidence b < c_Confidence a
  ∨ (c_Confidence a = c_Confidence b ∧ name_rank (c_Name a) ≤ name_rank (c_Name b)).

#[export] Instance ranked_trans : Transitive ranked.
Proof. intros a b c. unfold ranked. lia. Qed.

Ltac rank_cases := unfold candidate_less, ranked, name_rank;
  repeat match goal with |- context [?a =s ?b] => destruct (String.eqb_spec a b) end;
  cbn [negb andb]; repeat case_match; intros; try done; try lia; congruence.

Lemma candidate_less_true x y : candidate_less x y = true → ranked x y.
Proof. rank_cases. Qed.

Lemma candidate_less_false x y : candidate_less x y = false → ranked y x.
Proof. rank_cases. Qed.

Lemma DetectRanked_sorted r raw :
  StronglySorted ranked (DetectRanked r raw) ∧ DetectRanked r raw ≡ₚ candidates_of r raw.
Proof.
  apply SliceStable_sorted; [apply candidate_less_true|apply candidate_less_false|apply _].
Qed.

Lemma elem_of_candidates r raw c :
  c ∈ candidates_of r raw ↔
  c_Decoder c ∈ r ∧ c_Confidence c = Detect (c_Decoder c) raw ∧ 50 ≤ c_Confidence c.
Proof.
  unfold candidates_of. rewrite list_elem_of_In, filter_In, <- list_elem_of_In, list_elem_of_fmap.
  rewrite Z.leb_le. split.
  - intros [(d & -> & Hd) Hc]. by split_and!.
  - intros (Hd & Hc & H). split; [|done]. exists (c_Decoder c). split; [|done].
    rewrite <- Hc. by destruct c.
Qed.

(** What is decoded was decoded by a registered decoder, which numbers its records. *)
Lemma DetectAndDecode_from r raw o recs :
  DetectAndDecode r raw = (o, Ok recs) → ∃ d, d ∈ r ∧ o = Some d ∧ Decode d raw = Ok recs.
Proof.
  unfold DetectAndDecode. destruct (DetectRanked_sorted r raw) as [_ Hp].
  destruct (DetectRanked r raw) as [|best rest]; [done|]. destruct (true_ambiguity _); [done|].
  intros [= <- Hd]. exists (c_Decoder best).
  assert (best ∈ candidates_of r raw) as (Hr & _ & _)%elem_of_candidates by (rewrite <- Hp; left).
  split_and!; [done..|]. destruct (Decode (c_Decoder best) raw); by simplify_eq/=.
Qed.

Lemma DetectAndDecode_ordinals r raw o recs :
  Forall LawfulDecoder r → DetectAndDecode r raw = (o, Ok recs) →
  ordinals recs = seqZ 0 (Z.of_nat (length recs)).
Proof.
  intros Hl (d & Hd & _ & Hdec)%DetectAndDecode_from. rewrite Forall_forall in Hl.
  by apply (@decode_ordinals d (Hl d Hd) raw).
Qed.

(** ** Properties *)

(** The ranking lists exactly the registered decoders that score at least 0.50, in
    decreasing confidence, with syslog before and text after the other decoders
    of the same confidence. *)
Theorem DetectRanked_spec (r : Registry) (raw : string) :
  StronglySorted ranked (DetectRanked r raw)
  ∧ (∀ c, c ∈ DetectRanked r raw ↔
       c_Decoder c ∈ r ∧ c_Confidence c = Detect (c_Decoder c) raw ∧ 50 ≤ c_Confidence c).
Proof.
  destruct (DetectRanked_sorted r raw) as [Hs Hp]. split; [done|].
  intros c. rewrite Hp. apply elem_of_candidates.
Qed.

(** When a decoder is chosen it is registered, no registered decoder scores higher,
    and, unless it is the syslog envelope, every other candidate of the same
    confidence is the text fallback; the outcome is that decoder's. *)
Theorem DetectAndDecode_winner (r : Registry) (raw : string) (d : Decoder) (x : res (list DecodedRecord)) :
  DetectAndDecode r raw = (Some d, x) →
  d ∈ r ∧ 50 ≤ Detect d raw
  ∧ (∀ d', d' ∈ r → Detect d' raw ≤ Detect d raw)
  ∧ (Name d ≠ "syslog" → ∃ rest, candidates_of r raw ≡ₚ {| c_Decoder := d; c_Confidence := Detect d raw |} :: rest
       ∧ ∀ c', c' ∈ rest → c_Confidence c' = Detect d raw → c_Name c' = "text")
  ∧ (∀ recs, x = Ok recs → Decode d raw = Ok recs).
Proof.
  unfold DetectAndDecode. destruct (DetectRanked_sorted r raw) as [Hs Hp].
  destruct (DetectRanked r raw) as [|best rest]; [done|].
  destruct (true_ambiguity (best :: rest)) eqn:Ha; [done|]. intros [= <- <-].
  apply StronglySorted_inv in Hs as [Hs Hb]. rewrite Forall_forall in Hb.
  assert (best ∈ candidates_of r raw) as Hbest by (rewrite <- Hp; left).
  apply elem_of_candidates in Hbest as (Hr & Hc & H50). split_and!; [done|lia| | |].
  - intros d' Hd'. destruct (decide (50 ≤ Detect d' raw)); [|lia].
    assert ({| c_Decoder := d'; c_Confidence := Detect d' raw |} ∈ best :: rest) as Hin.
    { rewrite Hp. by apply elem_of_candidates. }
    apply elem_of_cons in Hin as [<-|Hin]; [simpl in *; lia|].
    apply Hb in Hin. unfold ranked in Hin. simpl in Hin. lia.
  - intros Hsys. exists rest. split.
    { rewrite <- Hp. rewrite <- Hc. by destruct best. }
    intros c' Hc' Heq. pose proof (Hb c' Hc') as Hrk. destruct rest as [|c1 rest]; [by inversion Hc'|].
    apply StronglySorted_inv in Hs as [_ Hs1]. rewrite Forall_forall in Hs1.
    unfold ranked in Hrk. assert (c_Confidence best = c_Confidence c' ∧ name_rank (c_Name best) ≤ name_rank (c_Name c')) as [Hce Hnr] by lia.
    assert (ranked c1 c' ∨ c1 = c') as Hc1.
    { apply elem_of_cons in Hc' as [->|Hc']; [by right|left; by apply Hs1]. }
    assert (ranked best c1) as Hb1 by (apply Hb; left).
    simpl in Ha. assert (c_Confidence best = c_Confidence c1) as Hc01.
    { unfold ranked in *. destruct Hc1 as [Hc1|<-]; lia. }
    rewrite (proj2 (Z.eqb_eq _ _) Hc01) in Ha. simpl in Ha.
    unfold ranked, name_rank in *. unfold c_Name in *.
    repeat match goal with
    | H : context [?a =s ?b] |- _ => destruct (String.eqb_spec a b)
    end; simplify_eq/=; try done; destruct Hc1 as [Hc1|<-]; try done; lia.
  - intros recs. by destruct (Decode (c_Decoder best) raw); intros [= ->].
Qed.

Lemma registry_example :
  (DetectAndDecode [CEFDecoder; TextDecoder] "CEF:0|a|b|c|d|e|5|k=v").1 = Some CEFDecoder.
Proof.
  assert (Detect CEFDecoder "CEF:0|a|b|c|d|e|5|k=v" = 99) as H1 by (vm_compute; reflexivity).
  assert (Detect TextDecoder "CEF:0|a|b|c|d|e|5|k=v" = 51) as H2 by (vm_compute; reflexivity).
  unfold DetectAndDecode, DetectRanked, candidates_of. rewrite !fmap_cons, fmap_nil, H1, H2. reflexivity.
Qed.

Lemma DetectAndDecode_winner_witness :
  CEFDecoder ∈ [CEFDecoder; TextDecoder] ∧ 50 ≤ Detect CEFDecoder "CEF:0|a|b|c|d|e|5|k=v".
Proof.
  pose proof (DetectAndDecode_winner [CEFDecoder; TextDecoder] "CEF:0|a|b|c|d|e|5|k=v" CEFDecoder
    (DetectAndDecode [CEFDecoder; TextDecoder] "CEF:0|a|b|c|d|e|5|k=v").2) as H.
  rewrite <- registry_example in H at 1. rewrite <- surjective_pairing in H.
  destruct (H eq_refl) as (H1 & H2 & _). exact (conj H1 H2).
Defined.
