(* ===== verification/Decoders.v ===== *)
(** * The registry of the running program: every decoder in place *)

From S2P Require Import Prelude GoStrings Model GoJson Decoder Cef Leef Syslog Text Registry Csv Json JsonDepth Xml.

Section registry.
Context `{XmlEnv}.

(** [DefaultRegistry()] *)
Definition default_registry : Registry := DefaultRegistry JSONDecoder XMLDecoder CSVDecoder.

(** What the pipeline asks of its registry. *)
Lemma default_registry_lawful : Forall LawfulDecoder default_registry.
Proof. do 7 (constructor; [apply _|]). constructor. Qed.

Lemma nil_fields_null s : Unmarshal_map s = Ok None → parse s = Ok JNull.
Proof.
  unfold Unmarshal_map. intros (j & Hj & Hm)%res_bind_ok. destruct j as [| | | | |ms]; try done. by destruct (value_of (JObj ms)) as [[]|].
Qed.

(** Every record of the JSON decoder has headers, and the fields that its text denotes. *)
Lemma json_records_unmarshal raw recs :
  JSONDecoder_Decode raw = Ok recs → Forall (λ r, Headers r ≠ None ∧ Unmarshal_map (RawPayload r) = Ok (Fields r)) recs.
Proof.
  intros (_ & _ & Hc)%JSONDecoder_cases.
  destruct Hc as [(l & _ & _ & Hr)%decode_array_cases|[(m & Hm & _ & ->)|Hr]%decode_object_cases].
  - revert Hr. generalize (Z.of_nat (length l)) 0. intros total i. revert i recs.
    induction l as [|x l IH]; intros i recs; cbn [array_records]; [intros [= <-]; constructor|].
    intros (m & Hm%wrap_err_ok & H')%res_bind_ok. case_match; [done|]. apply res_bind_ok in H' as (rest & Hr & [= <-]).
    constructor; [done|]. by eapply IH.
  - by constructor.
  - revert Hr. generalize 0. generalize (Split (TrimSpace raw) (chr LF)). intros l. revert recs.
    induction l as [|x l IH]; intros recs i; cbn [ndjson_records]; [intros [= <-]; constructor|].
    do 2 (case_match; [done|]). case_match; [apply IH|]. intros (m & Hm%wrap_err_ok & H')%res_bind_ok. case_match; [done|].
    apply res_bind_ok in H' as (rest & Hr & [= <-]). constructor; [done|]. by eapply IH.
Qed.

(** It has fields unless its text is [null]. *)
Lemma json_nil_record raw recs :
  JSONDecoder_Decode raw = Ok recs → ¬ Forall (λ r, non_nil r = true) recs → ∃ r, r ∈ recs ∧ parse (RawPayload r) = Ok JNull.
Proof.
  intros Hf%json_records_unmarshal Hn.
  apply not_Forall_Exists in Hn; [|intros r; apply _]. apply Exists_exists in Hn as (r & Hr & Hnil). exists r. split; [done|].
  rewrite Forall_forall in Hf. destruct (Hf r Hr) as [Hh Hu]. apply nil_fields_null. rewrite Hu. f_equal.
  cbn beta in Hnil. unfold non_nil in Hnil. cbn in Hnil. destruct (Headers r), (Fields r); try done. all: by destruct Hnil, Hh.
Qed.

(** A syslog message whose body the JSON decoder splits into records, one of which is [null]. *)
Definition carries_null (raw : string) : Prop :=
  ∃ variant headers body recs r,
    layered JSONDecoder XMLDecoder raw variant headers body JSONDecoder
    ∧ JSONDecoder_Decode (TrimSpace body) = Ok recs ∧ r ∈ recs ∧ parse (RawPayload r) = Ok JNull.

Lemma json_null_record raw recs r :
  JSONDecoder_Decode raw = Ok recs → r ∈ recs → parse (RawPayload r) = Ok JNull → ¬ Forall (λ r, non_nil r = true) recs.
Proof.
  intros Hrecs Hin Hnull. rewrite Forall_forall. intros Hall. specialize (Hall r Hin).
  pose proof (json_records_unmarshal raw recs Hrecs) as Hu. rewrite Forall_forall in Hu. destruct (Hu r Hin) as [_ Hr].
  unfold Unmarshal_map in Hr. rewrite Hnull in Hr. injection Hr as Hr. unfold non_nil in Hall. rewrite <- Hr in Hall.
  by destruct (Headers r).
Qed.

(** C32: the one crash of the decoders.  With every decoder of the program registered, a
    payload panics the process if and only if the syslog decoder is chosen for it and it carries a
    null: it passes the decoder's checks, its body (the part after the header that the decoder
    parses) is one that the decoder hands to the JSON decoder, and that decoder splits the body into records of which one
    is the JSON [null]. *)
Theorem decode_panics_only_on_null (raw : string) (d : option Decoder) :
  (∃ p, DetectAndDecode default_registry raw = (d, Panic p))
  ↔ (DetectAndDecode default_registry raw).1 = d ∧ d = Some (SyslogDecoder JSONDecoder XMLDecoder) ∧ carries_null raw.
Proof.
  unfold DetectAndDecode. destruct (DetectRanked_sorted default_registry raw) as [_ Hp].
  destruct (DetectRanked default_registry raw) as [|best rest]; [split; [by intros [? ?]|by intros (<- & ? & _)]|].
  case_match; [split; [by intros [? ?]|by intros (<- & ? & _)]|]. cbn [fst]. split.
  - intros (p & [= <- Hd]). split; [done|].
    assert (best ∈ candidates_of default_registry raw) as Hb by (rewrite <- Hp; left).
    apply elem_of_candidates in Hb as (Hr & _ & _).
    assert (Decode (c_Decoder best) raw = Panic p) as E by (destruct (Decode (c_Decoder best) raw); [done|done|by injection Hd as ->]).
    assert (∀ dec, TotalDecoder dec → c_Decoder best = dec → False) as Htot.
    { intros dec Ht Heq. pose proof (Ht raw) as Hn. by rewrite <- Heq, E in Hn. }
    unfold default_registry, DefaultRegistry, Register, NewRegistry in Hr. cbn [foldl app] in Hr.
    repeat (apply elem_of_cons in Hr as [Hr|Hr]; [|try by apply elem_of_nil in Hr]);
      try (exfalso; eapply Htot; [|exact Hr]; apply _).
    split; [by rewrite Hr|]. rewrite Hr in E. cbn [Decode SyslogDecoder] in E.
    apply SyslogDecoder_panic in E as (v & h & body & dec & recs & Hl & Hrec & Hn); [|apply _..].
    assert (dec = JSONDecoder) as ->.
    { assert (NonNilDecoder dec → False) as Hnn by (intros Hnn; destruct Hn; by eapply Hnn).
      destruct Hl as (_ & _ & _ & Hi). revert Hi. unfold inner_decoder.
      repeat case_match; intros [= <-]; try done; exfalso; apply Hnn, _. }
    destruct (json_nil_record _ recs Hrec Hn) as (r & Hin & Hnull). by exists v, h, body, recs, r.
  - intros (Hd & Hs & v & h & body & recs & r & Hl & Hrec & Hin & Hnull). rewrite Hs in Hd. injection Hd as Hd.
    destruct (SyslogDecoder_panics JSONDecoder XMLDecoder raw v h body JSONDecoder recs Hl Hrec) as [p E].
    { by eapply json_null_record. }
    exists p. rewrite Hd, Hs. cbn [Decode SyslogDecoder]. by rewrite E.
Qed.
End registry.

(** A syslog message that does. *)
Definition null_message : string := "<34>1 2026-09-20T10:15:01Z h a - - - [null]".
Definition no_xml : XmlEnv := {| xml_tokens _ := ([], None) |}.

Lemma null_message_panics :
  DetectAndDecode (@default_registry no_xml) null_message
  = (Some (SyslogDecoder JSONDecoder (@XMLDecoder no_xml)), Panic "assignment to entry in nil map").
Proof.
  assert (Decode (SyslogDecoder JSONDecoder (@XMLDecoder no_xml)) null_message = Panic "assignment to entry in nil map") as Hd
    by (vm_compute; reflexivity).
  assert (Detect (SyslogDecoder JSONDecoder (@XMLDecoder no_xml)) null_message = 98) as H1 by (vm_compute; reflexivity).
  assert (Detect JSONDecoder null_message = 0) as H2 by (vm_compute; reflexivity).
  assert (Detect (@XMLDecoder no_xml) null_message = 0) as H3 by (vm_compute; reflexivity).
  assert (Detect CSVDecoder null_message = 0) as H4 by (vm_compute; reflexivity).
  assert (Detect CEFDecoder null_message = 0) as H5 by (vm_compute; reflexivity).
  assert (Detect LEEFDecoder null_message = 0) as H6 by (vm_compute; reflexivity).
  assert (Detect TextDecoder null_message = 51) as H7 by (vm_compute; reflexivity).
  unfold DetectAndDecode, DetectRanked, candidates_of, default_registry, DefaultRegistry, Register, NewRegistry. cbn [foldl app].
  rewrite !fmap_cons, fmap_nil, H1, H2, H3, H4, H5, H6, H7.
  cbn -[SyslogDecoder]. rewrite Hd. reflexivity.
Qed.

Lemma decode_panics_only_on_null_witness :
  (∃ p, DetectAndDecode (@default_registry no_xml) null_message = (Some (SyslogDecoder JSONDecoder (@XMLDecoder no_xml)), Panic p))
  ∧ @carries_null no_xml null_message.
Proof.
  assert (∃ p, DetectAndDecode (@default_registry no_xml) null_message = (Some (SyslogDecoder JSONDecoder (@XMLDecoder no_xml)), Panic p)) as Hp
    by (eexists; exact null_message_panics).
  split; [exact Hp|]. apply (@decode_panics_only_on_null no_xml null_message) in Hp. apply Hp.
Defined.
