(* ===== verification/Ocsf.v ===== *)
(** * [internal/ocsf/schema.go]: the pinned OCSF 1.3.0 contract *)

From S2P Require Import Prelude.

Definition Version : string := "1.3.0".

Definition targets : gmap string string := list_to_map
  [("time", "number"); ("category_name", "string"); ("class_name", "string"); ("message", "string");
   ("action", "string"); ("activity_name", "string"); ("status", "string"); ("severity_id", "number");
   ("src_endpoint.ip", "string"); ("src_endpoint.port", "number");
   ("dst_endpoint.ip", "string"); ("dst_endpoint.port", "number");
   ("actor.user.name", "string"); ("actor.user.uid", "string"); ("device.hostname", "string");
   ("finding_info.title", "string"); ("http_request.http_method", "string");
   ("http_request.url.path", "string"); ("http_request.user_agent", "string");
   ("http_request.version", "string"); ("http_response.status_code", "number");
   ("service.name", "string"); ("traffic.bytes_in", "number"); ("traffic.bytes_out", "number");
   ("dst_endpoint.hostname", "string"); ("transaction.id", "string");
   ("transaction.amount", "number"); ("transaction.currency", "string")].

(** source category -> (category_name, class_name) *)
Definition taxonomy : gmap string (string * string) := list_to_map
  [("network_device", ("Network Activity", "Network Activity"));
   ("server", ("Application Activity", "HTTP Activity"));
   ("os", ("Authentication", "Authentication"));
   ("endpoint", ("Findings", "Security Finding"));
   ("application", ("Application Activity", "Application Activity"));
   ("database", ("System Activity", "Database Activity"));
   ("cloud", ("Cloud Activity", "API Activity"));
   ("container", ("System Activity", "Container Lifecycle"));
   ("iam", ("Identity & Access Management", "Account Change"));
   ("iot", ("Device Activity", "Device Status"));
   ("other", ("Other Activity", "Base Event"))].

Definition TargetAllowed (path : string) : bool :=
  match targets !! path with Some _ => true | None => false end.

Definition ValidateTaxonomy (source category class : string) : res unit :=
  match taxonomy !! source with
  | None => Err (Errorf "unsupported source category %q" [AStr source])
  | Some (want_cat, want_class) =>
      if (category <>s want_cat) || (class <>s want_class) then
        Err (Errorf "OCSF 1.3.0 taxonomy mismatch for %s: want %q/%q, got %q/%q"
               [AStr source; AStr want_cat; AStr want_class; AStr category; AStr class])
      else Ok ()
  end.

Definition FieldType (path : string) : string := default "" (targets !! path).
