(* ===== verification/Pack.v ===== *)
(** * [internal/packs/pack.go]: parser packs, their validation and record matching

    The YAML decoder ([gopkg.in/yaml.v3]) is not part of the repository: a pack is
    the value it produces.  The regular expression a pack declares is compiled by
    [regexp.Compile], the parameter [Compile]. *)

From S2P Require Import Prelude GoStrings GoNum GoRegexp Model Decoder Ocsf.

Definition KnownSourceCategories : list string :=
  ["network_device"; "server"; "os"; "endpoint"; "application"; "database"; "cloud"; "container";
   "iam"; "iot"; "other"].

Definition KnownFormats : list string := ["syslog"; "json"; "csv"; "cef"; "xml"; "leef"; "text"; "*"].

Definition known (l : list string) (s : string) : bool := existsb (String.eqb s) l.

Record FieldRule := { From : string; Type_ : string; Required : bool; Layout : string }.

Record MatchRule := { mContains : string; mRegex : string; mFieldEquals : gmap string string }.

Record XMLDecodeOptions := {
  RecordPath : string; AttributePrefix : string; TextKey : string;
  NamespaceAliases : gmap string string }.

Record CSVDecodeOptions := { Delimiter : string; HasHeader : bool }.

Record DecodeOptions := { oXML : option XMLDecodeOptions; oCSV : option CSVDecodeOptions }.

Record PackMetadata := { mName : string; mVersion : string; Description : string; Author : string }.

Record PackSpec := {
  sSourceCategory : string; sFormat : string; sMatch : MatchRule; sDecode : option DecodeOptions;
  sFields : gmap string FieldRule; sMap : gmap string string;
  PreserveUnmapped : bool; Fixtures : list string }.

Record ParserPack := {
  APIVersion : string; Kind : string; Metadata : PackMetadata; Spec : PackSpec;
  compiledRegex : option (string → bool) }.

(** [[a-z0-9][a-z0-9-]*], anchored *)
Definition lower_alnum (r : Z) : bool := cls_range "a" "z" r || cls_digit r.
Definition packNameRegex : re :=
  RSeqs [RBol; RChr lower_alnum; RStar (RChr (λ r, lower_alnum r || cls_lit "-" r)); REol].

(** Semantic versions: an optional v, three numbers without leading zeros, optional
    pre-release and build identifiers. *)
Definition rx_num : re := RAlt (RLit "0") (RSeq (RChr (cls_range "1" "9")) (RStar (RChr cls_digit))).
Definition cls_ident (r : Z) : bool := cls_alnum r || cls_lit "-" r.
Definition cls_ident_nondigit (r : Z) : bool := cls_ident r && negb (cls_digit r).
Definition rx_prerelease : re :=
  RAlt (RLit "0") (RAlt (RSeq (RChr (cls_range "1" "9")) (RStar (RChr cls_digit)))
    (RSeqs [RStar (RChr cls_digit); RChr cls_ident_nondigit; RStar (RChr cls_ident)])).
Definition semverRegex : re :=
  RSeqs [RBol; ROpt (RLit "v"); RGroup 1 rx_num; RLit "."; RGroup 2 rx_num; RLit "."; RGroup 3 rx_num;
    ROpt (RSeq (RLit "-") (RGroup 4 (RSeq rx_prerelease (RStar (RSeq (RLit ".") rx_prerelease)))));
    ROpt (RSeq (RLit "+") (RGroup 5 (RSeq (RPlus (RChr cls_ident))
            (RStar (RSeq (RLit ".") (RPlus (RChr cls_ident)))))));
    REol].

Definition known_types : list string := ["ip"; "integer"; "float"; "timestamp"; "string"; "boolean"].

(** ** LookupNested, LookupField *)

Fixpoint traverse (current : value) (parts : list string) : option value :=
  match parts with
  | [] => Some current
  | part :: parts' =>
      match current with
      | VMap node => val ← node !! part; traverse val parts'
      | VList node =>
          index ← Atoi part;
          if (index <? 0) || (Z.of_nat (length node) <=? index) then None
          else val ← node !! Z.to_nat index; traverse val parts'
      | _ => None
      end
  end.

Definition LookupNested (m : gomap) (path : string) : option value :=
  match m with
  | None => None
  | Some f =>
      if path =s "" then None
      else match f !! path with
           | Some v => Some v
           | None => traverse (VMap f) (Split path ".")
           end
  end.

(** The first lookup that succeeds. *)
Definition or_else {A} (o : option A) (alt : option A) : option A :=
  match o with Some _ => o | None => alt end.

Definition LookupField (rec : DecodedRecord) (key : string) : option value :=
  let trimmed := TrimPrefix key "payload." in
  or_else (LookupNested (Fields rec) key)
    (or_else (LookupNested (Fields rec) trimmed)
       (or_else (LookupNested (Headers rec) key) (LookupNested (Headers rec) trimmed))).

(** ** formatMatches *)

Definition formatMatches (packFormat recFormat : string) : bool :=
  if packFormat =s recFormat then true
  else if packFormat =s "syslog" then HasPrefix recFormat "syslog"
  else if packFormat =s "text" then HasPrefix recFormat "text"
  else if packFormat =s "json" then HasPrefix recFormat "json" || (recFormat =s "ndjson")
  else if packFormat =s "csv" then HasPrefix recFormat "csv"
  else if packFormat =s "cef" then HasPrefix recFormat "cef"
  else if packFormat =s "xml" then HasPrefix recFormat "xml"
  else if packFormat =s "leef" then HasPrefix recFormat "leef"
  else false.

(** The range loop over a map, stopping at the first error: in some order. *)
Definition range_check {K V} `{Countable K} (check : K → V → res unit) (m : gmap K V) : res unit :=
  foldr (λ kv r, _ ← check kv.1 kv.2; r) (Ok ()) (map_to_list m).

Lemma range_check_ok {K V} `{Countable K} (check : K → V → res unit) (m : gmap K V) :
  range_check check m = Ok () ↔ map_Forall (λ k v, check k v = Ok ()) m.
Proof.
  unfold range_check. rewrite map_Forall_to_list. unfold uncurry.
  induction (map_to_list m) as [|[k v] l IH]; simpl; [split; auto|].
  rewrite Forall_cons, <- IH. destruct (check k v) as [[]| |]; simpl; naive_solver.
Qed.

Lemma known_elem l s : known l s = true → s ∈ l.
Proof.
  unfold known. intros (x & Hx & ->%String.eqb_eq)%existsb_exists. by apply list_elem_of_In.
Qed.

Section pack.
(** [regexp.Compile] of a user pattern and the [MatchString] of what it compiles to. *)
Context (Compile : string → res (string → bool)).
(** The [%v] text of a [float64]. *)
Context (fmt_float : f64 → string).

(** *** Validate *)

Definition check_field (name : string) (f : FieldRule) : res unit :=
  if From f =s "" then Err (Errorf "field %q missing 'from' path" [AStr name])
  else if known known_types (Type_ f) then Ok ()
  else Err (Errorf "field %q has unsupported type %q" [AStr name; AStr (Type_ f)]).

Definition check_map (flds : gmap string FieldRule) (src dst : string) : res unit :=
  if negb (HasPrefix dst "event.") then
    Err (Errorf "spec.map target %q must start with 'event.'" [AStr dst])
  else if negb (TargetAllowed (TrimPrefix dst "event.")) then
    Err (Errorf "spec.map target %q is not governed by pinned OCSF %s" [AStr dst; AStr Version])
  else match flds !! src with
       | None => Err (Errorf "spec.map source %q is not defined in spec.fields" [AStr src])
       | Some _ => Ok ()
       end.

Definition hasMatch (m : MatchRule) : bool :=
  (mContains m <>s "") || (mRegex m <>s "") || negb (bool_decide (mFieldEquals m = ∅)).

Definition compile_match (p : ParserPack) : res ParserPack :=
  let rx := mRegex (sMatch (Spec p)) in
  if rx =s "" then Ok p
  else re ← wrap_err (λ e, Errorf "invalid match.regex: %w" [AErr e]) (Compile rx);
       Ok {| APIVersion := APIVersion p; Kind := Kind p; Metadata := Metadata p; Spec := Spec p;
             compiledRegex := Some re |}.

(** [Validate] returns the pack with its compiled regular expression. *)
Definition Validate (p : ParserPack) : res ParserPack :=
  if APIVersion p <>s "worm.io/v1" then
    Err (Errorf "unsupported apiVersion %q (expected worm.io/v1)" [AStr (APIVersion p)])
  else if Kind p <>s "LogSource" then
    Err (Errorf "unsupported kind %q (expected LogSource)" [AStr (Kind p)])
  else if mName (Metadata p) =s "" then Err (errors_New "metadata.name is required")
  else if negb (MatchString packNameRegex (mName (Metadata p))) then
    Err (Errorf "invalid metadata.name %q: must match ^[a-z0-9][a-z0-9-]*$" [AStr (mName (Metadata p))])
  else if mVersion (Metadata p) =s "" then Err (errors_New "metadata.version is required")
  else if negb (MatchString semverRegex (mVersion (Metadata p))) then
    Err (Errorf "invalid metadata.version %q: must be valid semver (e.g. 1.0.0)" [AStr (mVersion (Metadata p))])
  else if negb (known KnownSourceCategories (sSourceCategory (Spec p))) then
    Err (Errorf "unknown sourceCategory: %q" [AStr (sSourceCategory (Spec p))])
  else if negb (known KnownFormats (sFormat (Spec p))) then
    Err (Errorf "unknown format: %q" [AStr (sFormat (Spec p))])
  else if negb (hasMatch (sMatch (Spec p))) then
    Err (errors_New "spec.match must declare at least one of: contains, regex, or fieldEquals")
  else
    p' ← compile_match p;
    _ ← range_check check_field (sFields (Spec p));
    _ ← range_check (check_map (sFields (Spec p))) (sMap (Spec p));
    Ok p'.

(** *** Matches *)

Definition sprint := sprint_v fmt_float.

Definition format_check (p : ParserPack) (rec : DecodedRecord) : bool :=
  let f := sFormat (Spec p) in
  (f =s "") || (f =s "*") || formatMatches f (Format rec).

Definition contains_check (p : ParserPack) (rec : DecodedRecord) : bool :=
  let needle := mContains (sMatch (Spec p)) in
  if needle =s "" then true
  else Contains (RawPayload rec) needle
       || existsb (λ kv, Contains (sprint kv.2) needle) (map_to_list (entries (Fields rec))).

Definition equals_check (p : ParserPack) (rec : DecodedRecord) : bool :=
  forallb (λ kv, match LookupField rec kv.1 with
                 | Some actualVal => sprint actualVal =s kv.2
                 | None => false
                 end) (map_to_list (mFieldEquals (sMatch (Spec p)))).

Definition regex_check (p : ParserPack) (rec : DecodedRecord) : bool :=
  match compiledRegex p with
  | None => true
  | Some matches =>
      let targetText := match field rec "message" with
                        | Some (VStr msg) => if msg <>s "" then msg else RawPayload rec
                        | _ => RawPayload rec
                        end in
      matches targetText
  end.

Definition Matches (p : ParserPack) (rec : DecodedRecord) : bool :=
  if negb (format_check p rec) then false
  else if negb (contains_check p rec) then false
  else if negb (equals_check p rec) then false
  else if negb (regex_check p rec) then false
  else true.

(** *** Lemmas *)

Lemma compile_match_spec p p' : compile_match p = Ok p' → Spec p' = Spec p ∧ Metadata p' = Metadata p.
Proof. unfold compile_match. case_match; intros; res_inv; done. Qed.

(** What a validated pack satisfies. *)
Record valid_pack (p : ParserPack) : Prop := {
  vp_category : sSourceCategory (Spec p) ∈ KnownSourceCategories;
  vp_format : sFormat (Spec p) ∈ KnownFormats;
  vp_match : hasMatch (sMatch (Spec p)) = true;
  vp_types k f : sFields (Spec p) !! k = Some f → From f ≠ "" ∧ Type_ f ∈ known_types;
  vp_targets src dst : sMap (Spec p) !! src = Some dst →
    (∃ path, dst = "event." +:+ path ∧ TargetAllowed path = true) ∧ is_Some (sFields (Spec p) !! src);
}.

End pack.

(** Validation changes nothing but the compiled expression. *)
Lemma Validate_same (Compile : string → res (string → bool)) (p p' : ParserPack) :
  Validate Compile p = Ok p' → Spec p' = Spec p ∧ Metadata p' = Metadata p.
Proof.
  unfold Validate. repeat (case_match; [done|]).
  intros (q & Hq & (u & _ & (u' & _ & [= ->])%res_bind_ok)%res_bind_ok)%res_bind_ok.
  by apply compile_match_spec in Hq.
Qed.

(** ** Properties *)

(** C31: a pack that passes [Validate] has a known category and format, at least one
    match criterion, typed fields, and only maps declared fields to governed
    OCSF targets; validation changes nothing but the compiled expression. *)
Theorem Validate_sound (Compile : string → res (string → bool)) (p p' : ParserPack) :
  Validate Compile p = Ok p' → Spec p' = Spec p ∧ Metadata p' = Metadata p ∧ valid_pack p'.
Proof.
  unfold Validate. repeat (case_match; [done|]).
  intros (q & Hq & (u & Hf & (u' & Hm & [= ->])%res_bind_ok)%res_bind_ok)%res_bind_ok.
  destruct u, u'. apply compile_match_spec in Hq as [Hs Hmd]. split_and!; [done..|].
  apply range_check_ok in Hf, Hm. split; rewrite Hs.
  - by apply known_elem, negb_false_iff.
  - by apply known_elem, negb_false_iff.
  - by apply negb_false_iff.
  - intros k f Hk. apply Hf in Hk. unfold check_field in Hk.
    destruct (String.eqb_spec (From f) ""); [done|].
    destruct (known known_types (Type_ f)) eqn:Hkn; [|done]. split; [done|by apply known_elem].
  - intros src dst Hk. apply Hm in Hk. unfold check_map in Hk.
    destruct (HasPrefix dst "event.") eqn:Hp; [|done].
    destruct (TargetAllowed _) eqn:Ht; [|done]. apply HasPrefix_spec in Hp as [path ->].
    rewrite TrimPrefix_app in Ht. simpl in Hk. split; [by exists path|].
    destruct (sFields (Spec p) !! src); [by eexists|done].
Qed.

(** A small pack, for the concrete instances of the theorems. *)
Definition sample_pack : ParserPack := {|
  APIVersion := "worm.io/v1"; Kind := "LogSource";
  Metadata := {| mName := "edge-fw"; mVersion := "1.2.0"; Description := ""; Author := "" |};
  Spec := {|
    sSourceCategory := "network_device"; sFormat := "cef";
    sMatch := {| mContains := "EdgeFW"; mRegex := ""; mFieldEquals := ∅ |}; sDecode := None;
    sFields := {[ "src" := {| From := "payload.src"; Type_ := "ip"; Required := true; Layout := "" |};
                  "spt" := {| From := "spt"; Type_ := "integer"; Required := false; Layout := "" |} ]};
    sMap := {[ "src" := "event.src_endpoint.ip"; "spt" := "event.src_endpoint.port" ]};
    PreserveUnmapped := true; Fixtures := [] |};
  compiledRegex := None |}.

Definition sample_record : DecodedRecord :=
  single_record "cef" ∅ {[ "src" := VStr "10.0.0.1"; "spt" := VStr "443"; "act" := VStr "deny" ]} "EdgeFW".

Lemma sample_pack_valid : valid_pack sample_pack.
Proof.
  split; [by vm_compute; repeat constructor..| |].
  - intros k f. simpl. intros [[<- <-]|[_ [<- <-]%lookup_singleton_Some]]%lookup_insert_Some;
      (split; [done|by vm_compute; repeat constructor]).
  - intros src dst. simpl. intros [[<- <-]|[_ [<- <-]%lookup_singleton_Some]]%lookup_insert_Some.
    + split; [by exists "src_endpoint.ip"|by eexists].
    + split; [by exists "src_endpoint.port"|by eexists].
Qed.

Lemma Validate_sound_witness :
  Spec sample_pack = Spec sample_pack ∧ Metadata sample_pack = Metadata sample_pack ∧ valid_pack sample_pack.
Proof. apply (Validate_sound (λ rx, Ok (λ s, Contains s rx)) sample_pack sample_pack). reflexivity. Defined.
