(* ===== verification/Snapshot.v ===== *)
(** * [internal/packs/snapshot.go]: immutable snapshots of parser packs and matching *)

From S2P Require Import Prelude GoStrings GoNum Model Decoder Pack.

Definition ErrNoMatch : string := "no matching parser pack found (unknown_source)".
Definition ErrAmbiguousMatch : string := "multiple parser packs matched (ambiguous_source)".

Record Snapshot := {
  snap_version : string; snap_digest : string;
  snap_packs : gmap string ParserPack; snap_ordered : list ParserPack }.

Definition pack_name (p : ParserPack) : string := mName (Metadata p).

Section snapshot.
(** SHA-256 of a text, in hexadecimal, and the [%v] text of floats. *)
Context (sha256_hex : string → string) (fmt_float : f64 → string).

(** The line of a pack in the digested text. *)
Definition digest_line (p : ParserPack) : string :=
  "pack:" +:+ mName (Metadata p) +:+ ":" +:+ mVersion (Metadata p) +:+ ":"
  +:+ sSourceCategory (Spec p) +:+ ":" +:+ sFormat (Spec p) +:+ chr LF.

(** A slice of pointers: [None] is a nil pack. *)
Fixpoint snapshot_loop (packs : list (option ParserPack)) (packMap : gmap string ParserPack)
    (ordered : list ParserPack) (hashed : string)
    : res (gmap string ParserPack * list ParserPack * string) :=
  match packs with
  | [] => Ok (packMap, ordered, hashed)
  | None :: _ => Err (errors_New "cannot create snapshot with nil parser pack")
  | Some p :: packs' =>
      match packMap !! pack_name p with
      | Some _ => Err (Errorf "duplicate parser pack name %q in snapshot" [AStr (pack_name p)])
      | None => snapshot_loop packs' (<[pack_name p := p]> packMap) (ordered ++ [p])
                  (hashed +:+ digest_line p)
      end
  end.

Definition NewSnapshot (version : string) (packs : list (option ParserPack)) : res Snapshot :=
  '(packMap, ordered, hashed) ← snapshot_loop packs ∅ [] ("version:" +:+ version +:+ chr LF);
  Ok {| snap_version := version; snap_digest := sha256_hex hashed;
        snap_packs := packMap; snap_ordered := ordered |}.

Definition Snapshot_Match (s : Snapshot) (decoded : DecodedRecord) : res ParserPack :=
  match List.filter (λ p, Matches fmt_float p decoded) (snap_ordered s) with
  | [] => Err (errors_New ErrNoMatch)
  | [p] => Ok p
  | matched => Err (Errorf "%w: %v" (AErr (errors_New ErrAmbiguousMatch)
                                    :: map (λ p, AStr (pack_name p)) matched))
  end.

Definition GetPack (s : Snapshot) (name : string) : option ParserPack := snap_packs s !! name.
Definition ListPacks (s : Snapshot) : list ParserPack := snap_ordered s.
End snapshot.

(** The map and the list of a snapshot hold the same packs, each name once. *)
Record coherent (packMap : gmap string ParserPack) (ordered : list ParserPack) : Prop := {
  coh_nodup : NoDup (pack_name <$> ordered);
  coh_lookup name p : packMap !! name = Some p ↔ p ∈ ordered ∧ pack_name p = name;
}.

Lemma coherent_snoc m l p :
  coherent m l → m !! pack_name p = None → coherent (<[pack_name p := p]> m) (l ++ [p]).
Proof.
  intros [Hnd Hl] Hf. split.
  - rewrite fmap_app. apply NoDup_app. split_and!; [done| |apply NoDup_singleton].
    intros n (q & -> & Hq)%list_elem_of_fmap ?%list_elem_of_singleton.
    assert (m !! pack_name q = Some q) as Hm by (by apply Hl). congruence.
  - intros name q. rewrite elem_of_app, list_elem_of_singleton.
    destruct (decide (pack_name p = name)) as [<-|Hne].
    + rewrite lookup_insert_eq. split; [intros [= <-]; auto|].
      intros [[Hq| ->] Hn]; [|done]. assert (m !! pack_name p = Some q) by (by apply Hl). congruence.
    + rewrite lookup_insert_ne, Hl by done. split; [naive_solver|].
      intros [[Hq| ->] Hn]; [done|congruence].
Qed.

Lemma snapshot_loop_spec packs m l h m' l' h' :
  coherent m l → snapshot_loop packs m l h = Ok (m', l', h') →
  coherent m' l' ∧ (Some <$> l') = (Some <$> l) ++ packs.
Proof.
  revert m l h. induction packs as [|[p|] packs IH]; intros m l h Hc; simpl; [|..|done].
  - intros [= <- <- <-]. by rewrite app_nil_r.
  - destruct (m !! pack_name p) eqn:E; [done|]. intros H.
    apply IH in H as [H1 H2]; [|by apply coherent_snoc]. split; [done|].
    rewrite H2, fmap_app. simpl. by rewrite <- app_assoc.
Qed.

Lemma snapshot_loop_dup packs m l h e :
  coherent m l → snapshot_loop packs m l h = Err e →
  None ∈ packs ∨ ¬ NoDup (pack_name <$> (l ++ omap id packs)).
Proof.
  revert m l h. induction packs as [|[p|] packs IH]; intros m l h Hc; simpl; [done| |by left; left].
  destruct (m !! pack_name p) as [q|] eqn:E.
  - intros _. right. apply Hc in E as [Hq Hn]. rewrite fmap_app, NoDup_app. intros (_ & Hd & _).
    apply (Hd (pack_name q)); [by apply list_elem_of_fmap_2|]. rewrite Hn. left.
  - intros H. apply IH in H as [H|H]; [by left; right| |by apply coherent_snoc].
    right. by rewrite <- app_assoc in H.
Qed.


Lemma wrap_not_sentinel f s t (names : list ParserPack) :
  s ≠ t → errors_is (Errorf f (AErr (errors_New s) :: map (λ p, AStr (pack_name p)) names)) t = false.
Proof.
  intros Hst. cbn [errors_is errors_New existsb].
  destruct (String.eqb_spec s t) as [?|_]; [done|]. induction names; [done|]. done.
Qed.

Lemma coherent_empty : coherent ∅ [].
Proof. split; [constructor|]. intros name p. rewrite lookup_empty. split; [done|]. by intros [?%elem_of_nil _]. Qed.

Lemma NewSnapshot_ok sha256_hex version packs s :
  NewSnapshot sha256_hex version packs = Ok s →
  Some <$> ListPacks s = packs ∧ coherent (snap_packs s) (ListPacks s).
Proof.
  intros ([[m l] h] & Hl & [= <-])%res_bind_ok. apply snapshot_loop_spec in Hl as [Hc He]; [|apply coherent_empty].
  by split.
Qed.

Lemma NewSnapshot_refused sha256_hex version packs :
  (∀ s, NewSnapshot sha256_hex version packs ≠ Ok s) → None ∈ packs ∨ ¬ NoDup (pack_name <$> omap id packs).
Proof.
  unfold NewSnapshot. intros Hno.
  assert (∀ packs m l h q, snapshot_loop packs m l h ≠ Panic q) as Hp.
  { clear. induction packs as [|[p|] packs IH]; intros m l h q; simpl; [done| |done]. by destruct (m !! pack_name p). }
  destruct (snapshot_loop packs _ _ _) as [[[m l] h]|e|q] eqn:E; [by destruct (Hno _ eq_refl)| |by apply Hp in E].
  by apply (snapshot_loop_dup _ ∅ [] _ _ coherent_empty) in E.
Qed.

(** ** Properties *)

(** [NewSnapshot] succeeds exactly when no pack is nil and no two packs share a
    name; the snapshot then lists the packs in order and finds each by its name. *)
Theorem NewSnapshot_spec (sha256_hex : string → string) (version : string) (packs : list (option ParserPack)) :
  (∀ s, NewSnapshot sha256_hex version packs = Ok s →
     Some <$> ListPacks s = packs ∧ NoDup (pack_name <$> ListPacks s)
     ∧ (∀ name p, GetPack s name = Some p ↔ p ∈ ListPacks s ∧ pack_name p = name))
  ∧ (∀ e, NewSnapshot sha256_hex version packs = Err e →
       None ∈ packs ∨ ¬ NoDup (pack_name <$> omap id packs)).
Proof.
  split.
  - intros s Hs. apply NewSnapshot_ok in Hs as [Hp [Hnd Hl]]. by split_and!.
  - intros e He. apply (NewSnapshot_refused sha256_hex version). by rewrite He.
Qed.

(** A record is given to a pack exactly when that pack is the only one of the
    snapshot that matches it; no match and several matches are distinct errors,
    recognisable by [errors.Is]. *)
Theorem Snapshot_Match_spec (fmt_float : f64 → string) (s : Snapshot) (rec : DecodedRecord) :
  (∀ p, Snapshot_Match fmt_float s rec = Ok p ↔
        ∃ l1 l2, snap_ordered s = l1 ++ p :: l2 ∧ Matches fmt_float p rec = true
                 ∧ (∀ q, q ∈ l1 ++ l2 → Matches fmt_float q rec = false))
  ∧ (∀ e, Snapshot_Match fmt_float s rec = Err e →
        (errors_is e ErrNoMatch = true ∧ ∀ q, q ∈ snap_ordered s → Matches fmt_float q rec = false)
        ∨ (errors_is e ErrAmbiguousMatch = true ∧ errors_is e ErrNoMatch = false
           ∧ 2 ≤ count (λ q, Matches fmt_float q rec) (snap_ordered s))).
Proof.
  set (m q := Matches fmt_float q rec). unfold Snapshot_Match. fold m.
  assert (∀ l, List.filter m l = [] ↔ ∀ q, q ∈ l → m q = false) as Hnil.
  { intros l. rewrite <- count_zero. induction l as [|q l IH]; simpl; [done|].
    pose proof (count_nonneg m l). destruct (m q); [split; [done|lia]|]. by rewrite IH. }
  split.
  - intros p. split.
    + intros H. assert (List.filter m (snap_ordered s) = [p]) as Hf.
      { destruct (List.filter m (snap_ordered s)) as [|q [|q' l]]; [done| |done]. by injection H as ->. }
      clear H. induction (snap_ordered s) as [|q l IH]; simpl in *; [done|].
      destruct (m q) eqn:E.
      * injection Hf as -> Hf. exists [], l. split_and!; [done..|]. by apply Hnil.
      * destruct (IH Hf) as (l1 & l2 & -> & Hp & Hall). exists (q :: l1), l2. split_and!; [done..|].
        intros x [->|Hx]%elem_of_cons; auto.
    + intros (l1 & l2 & -> & Hp & Hall). change (m p = true) in Hp.
      rewrite List.filter_app. simpl. rewrite Hp.
      rewrite (proj2 (Hnil l1)), (proj2 (Hnil l2)); [done|..];
        intros q Hq; apply Hall, elem_of_app; auto.
  - intros e. destruct (List.filter m (snap_ordered s)) as [|q [|q' l]] eqn:E; [|done|].
    + intros [= <-]. left. split; [done|]. by apply Hnil.
    + intros [= <-]. right. split_and!; [done|by apply (wrap_not_sentinel "%w: %v" ErrAmbiguousMatch ErrNoMatch (q :: q' :: l))|].
      assert (count m (List.filter m (snap_ordered s)) = count m (snap_ordered s)) as <-.
      { rewrite count_filter. apply count_ext. intros x _. by destruct (m x). }
      assert (∀ x, x ∈ List.filter m (snap_ordered s) → m x = true) as Hm.
      { intros x. rewrite list_elem_of_In, filter_In. by intros []. }
      rewrite E in *. simpl. rewrite (Hm q), (Hm q') by set_solver.
      pose proof (count_nonneg m l). lia.
Qed.
