(* ===== verification/Extract.v ===== *)
(** * [internal/packs/extract.go]: typed extraction of the declared fields *)

From S2P Require Import Prelude GoStrings GoNum GoNet GoTime Model Decoder Pack.

Definition commonTimeLayouts : list string :=
  ["2006-01-02T15:04:05Z07:00"; "2006-01-02T15:04:05.999999999Z07:00"; "2006-01-02T15:04:05-07:00";
   "2006-01-02T15:04:05Z"; "2006-01-02 15:04:05"; "02/Jan/2006:15:04:05 -0700"; "Jan 2 15:04:05";
   "Jan 02 15:04:05"; "Jan  2 15:04:05"].

(** ** The order in which [for k, v := range m] visits a map: some permutation *)

Class MapOrder := {
  map_range {V} : gmap string V → list (string * V);
  map_range_perm {V} (m : gmap string V) : map_range m ≡ₚ map_to_list m;
}.

(** The order of the finite maps of the model, and its reverse: two concrete orders. *)
Definition forward_order : MapOrder.
Proof. refine {| map_range V m := map_to_list m |}. done. Defined.
Definition backward_order : MapOrder.
Proof. refine {| map_range V m := reverse (map_to_list m) |}. intros. apply reverse_Permutation. Defined.

Lemma NoDup_fst_range `{MapOrder} {V} (m : gmap string V) : NoDup (map_range m).*1.
Proof. rewrite map_range_perm. apply NoDup_fst_map_to_list. Qed.

Lemma range_to_map `{MapOrder} {V} (m : gmap string V) : list_to_map (map_range m) = m.
Proof.
  rewrite <- (list_to_map_to_list m) at 2.
  apply list_to_map_proper; [apply NoDup_fst_range|apply map_range_perm].
Qed.

Record extraction := {
  x_extracted : fields; x_consumed : gset string; x_warnings : list error }.

Section extract.
(** The float rendering of [fmt], [time.Parse], and the current year. *)
Context (fmt_float : f64 → string) (time_Parse : string → string → option gtime) (currentYear : Z).
Context `{GoPlatform}.

Definition e3 : f64 := f64_of_Z (10 ^ 3).
Definition e6 : f64 := f64_of_Z (10 ^ 6).
Definition beyond (e : Z) (v : f64) : bool :=
  f64_leb (f64_of_Z (10 ^ e)) v || f64_leb v (f64_of_Z (- 10 ^ e)).

Definition epochMillis (v : f64) : Z :=
  if beyond 17 v then int64_of_f64 (f64_div v e6)
  else if beyond 14 v then int64_of_f64 (f64_div v e3)
  else if beyond 11 v then int64_of_f64 v
  else int64_of_f64 (f64_mul v e3).

Fixpoint first_layout (ls : list string) (s : string) : option gtime :=
  match ls with
  | [] => None
  | l :: ls' => match time_Parse l s with Some t => Some t | None => first_layout ls' s end
  end.

Definition parseTimestamp (s layout : string) : res Z :=
  match Atoi s with
  | Some n => Ok (epochMillis (f64_of_Z n))
  | None =>
  match ParseFloat s with
  | Some n => Ok (epochMillis n)
  | None =>
  match (if layout <>s "" then time_Parse layout s else None) with
  | Some t => Ok (UnixMilli (unix_ns t))
  | None =>
  match first_layout commonTimeLayouts s with
  | Some t =>
      let t := if Year t =? 0 then AddYears t currentYear else t in
      Ok (UnixMilli (unix_ns t))
  | None => Err (Errorf "unable to parse timestamp %q" [AStr s])
  end end end end.

Definition cast_integer (val : value) (s : string) : res value :=
  match val with
  | VInt v | VInt64 v => Ok (VInt64 v)
  | VFloat v => Ok (VInt64 (int64_of_f64 v))
  | _ =>
      match Atoi s with
      | Some i => Ok (VInt64 i)
      | None => match ParseFloat s with
                | Some f => Ok (VInt64 (int64_of_f64 f))
                | None => Err (Errorf "cannot parse integer from %q" [AStr s])
                end
      end
  end.

Definition cast_float (val : value) (s : string) : res value :=
  match val with
  | VFloat v => Ok (VFloat v)
  | VInt v | VInt64 v => Ok (VFloat (f64_of_Z v))
  | _ => match ParseFloat s with
         | Some f => Ok (VFloat f)
         | None => Err (Errorf "cannot parse float from %q" [AStr s])
         end
  end.

Definition cast_boolean (val : value) (s : string) : res value :=
  match val with
  | VBool v => Ok (VBool v)
  | _ => match ParseBool s with
         | Some b => Ok (VBool b)
         | None => Err (Errorf "cannot parse boolean from %q" [AStr s])
         end
  end.

Definition castType (val : value) (targetType layout : string) : res value :=
  let strVal := TrimSpace (sprint_v fmt_float val) in
  if targetType =s "ip" then
    match ParseIP strVal with
    | Some ip => Ok (VStr (IP_String ip))
    | None => Err (Errorf "invalid IP address %q" [AStr strVal])
    end
  else if targetType =s "integer" then cast_integer val strVal
  else if targetType =s "float" then cast_float val strVal
  else if targetType =s "timestamp" then VInt64 <$> parseTimestamp strVal layout
  else if targetType =s "string" then Ok (VStr strVal)
  else if targetType =s "boolean" then cast_boolean val strVal
  else Ok val.

(** ** [ExtractAndConvert] *)

(** The body of the loop over the declared fields. *)
Definition extract_field (rec : DecodedRecord) (acc : extraction) (nr : string * FieldRule)
    : res extraction :=
  let '(fieldName, rule) := nr in
  match LookupField rec (From rule) with
  | None | Some VNil =>
      if Required rule
      then Err (Errorf "required field %q (from %q) is missing" [AStr fieldName; AStr (From rule)])
      else Ok acc
  | Some val =>
      let consumed := {[From rule; TrimPrefix (From rule) "payload."]} ∪ x_consumed acc in
      match castType val (Type_ rule) (Layout rule) with
      | Panic p => Panic p
      | Ok convertedVal =>
          Ok {| x_extracted := <[fieldName := convertedVal]> (x_extracted acc);
                x_consumed := consumed; x_warnings := x_warnings acc |}
      | Err err =>
          if Required rule
          then Err (Errorf "field %q conversion to %s failed: %w"
                      [AStr fieldName; AStr (Type_ rule); AErr err])
          else
            Ok {| x_extracted := <[fieldName := val]> (x_extracted acc);
                  x_consumed := consumed;
                  x_warnings := x_warnings acc ++
                    [Errorf "field %q: conversion to %s failed (%v); preserving original value"
                       [AStr fieldName; AStr (Type_ rule); AVErr err]] |}
      end
  end.

Fixpoint extract_loop (rec : DecodedRecord) (l : list (string * FieldRule)) (acc : extraction)
    : res extraction :=
  match l with
  | [] => Ok acc
  | nr :: l' => acc' ← extract_field rec acc nr; extract_loop rec l' acc'
  end.

Definition no_extraction : extraction :=
  {| x_extracted := ∅; x_consumed := ∅; x_warnings := [] |}.

Definition unmapped_of (pack : ParserPack) (rec : DecodedRecord) (consumed : gset string) : fields :=
  if PreserveUnmapped (Spec pack)
  then filter (λ kv, kv.1 ∉ consumed) (entries (Fields rec))
  else ∅.

Definition ExtractAndConvert `{MapOrder} (pack : ParserPack) (rec : DecodedRecord)
    : res (fields * fields * list error) :=
  x ← extract_loop rec (map_range (sFields (Spec pack))) no_extraction;
  Ok (x_extracted x, unmapped_of pack rec (x_consumed x), x_warnings x).
End extract.

(** ** What a rule gives, read off its own source value *)

Section spec.
Context (fmt_float : f64 → string) (time_Parse : string → string → option gtime) (currentYear : Z).
Context `{GoPlatform}.
Local Abbreviation castType := (castType fmt_float time_Parse currentYear).
Local Abbreviation extract_field := (extract_field fmt_float time_Parse currentYear).
Local Abbreviation extract_loop := (extract_loop fmt_float time_Parse currentYear).

(** The source value of a rule: nil counts as absent. *)
Definition rule_source (rec : DecodedRecord) (rule : FieldRule) : option value :=
  val ← LookupField rec (From rule); if is_nil val then None else Some val.

(** The value stored for a rule: converted, or the original one. *)
Definition rule_value (rec : DecodedRecord) (rule : FieldRule) : option value :=
  val ← rule_source rec rule;
  Some (match castType val (Type_ rule) (Layout rule) with Ok v => v | _ => val end).

(** A rule fails the extraction when it is required and cannot be met. *)
Definition rule_ok (rec : DecodedRecord) (rule : FieldRule) : bool :=
  negb (Required rule)
  || match rule_source rec rule with
     | Some val => is_ok (castType val (Type_ rule) (Layout rule))
     | None => false
     end.

Lemma castType_no_panic val ty layout : no_panic (castType val ty layout).
Proof.
  unfold Extract.castType, cast_integer, cast_float, cast_boolean, parseTimestamp.
  repeat case_match; try done; simplify_eq/=;
    repeat match goal with H : _ <$> ?r = _ |- _ => destruct r eqn:?; simplify_eq/= end;
    repeat case_match; done.
Qed.

Lemma extract_field_spec rec acc name rule :
  if rule_ok rec rule
  then ∃ x, extract_field rec acc (name, rule) = Ok x ∧
         match rule_value rec rule with
         | None => x = acc
         | Some v => x_extracted x = <[name := v]> (x_extracted acc)
                     ∧ x_consumed x = {[From rule; TrimPrefix (From rule) "payload."]} ∪ x_consumed acc
         end
  else ∃ e, extract_field rec acc (name, rule) = Err e.
Proof.
  unfold rule_ok, rule_value, rule_source. cbn [Extract.extract_field].
  destruct (LookupField rec (From rule)) as [val|]; [|destruct (Required rule); simpl; eauto].
  cbn [mbind option_bind]. destruct (is_nil val) eqn:Hnil.
  { destruct val; try done. destruct (Required rule); simpl; eauto. }
  assert (∀ {A} (a b : A), match val with VNil => a | _ => b end = b) as Hc by (by destruct val).
  rewrite Hc. pose proof (castType_no_panic val (Type_ rule) (Layout rule)) as Hnp.
  destruct (castType val (Type_ rule) (Layout rule)) as [v|e|p] eqn:E; [..|done];
    destruct (Required rule); simpl; rewrite ?E; simpl; eauto 10.
Qed.

Lemma extract_field_ok rec acc nr x :
  extract_field rec acc nr = Ok x →
  rule_ok rec nr.2 = true
  ∧ match rule_value rec nr.2 with
    | None => x = acc
    | Some v => x_extracted x = <[nr.1 := v]> (x_extracted acc)
                ∧ x_consumed x = {[From nr.2; TrimPrefix (From nr.2) "payload."]} ∪ x_consumed acc
    end.
Proof.
  destruct nr as [name rule]. cbn [fst snd]. intros He. pose proof (extract_field_spec rec acc name rule) as Hs.
  destruct (rule_ok rec rule); [|destruct Hs; congruence].
  destruct Hs as (x' & Hx & Hm). split; [done|]. by replace x with x' by congruence.
Qed.

Definition values (rec : DecodedRecord) (rules : gmap string FieldRule) : fields :=
  omap (rule_value rec) rules.

Lemma extract_loop_extracted rec l acc x :
  NoDup l.*1 → extract_loop rec l acc = Ok x →
  x_extracted x = values rec (list_to_map l) ∪ x_extracted acc.
Proof.
  revert acc. induction l as [|nr l IH]; intros acc Hnd.
  { simpl. intros [= <-]. unfold values. by rewrite omap_empty, (left_id_L ∅ (∪)). }
  apply NoDup_cons in Hnd as [Hn Hnd]. intros (a & Ha & Hx)%res_bind_ok.
  apply extract_field_ok in Ha as [_ Ha]. rewrite (IH a Hnd Hx). simpl.
  unfold values. apply map_eq. intros i.
  destruct (decide (i = nr.1)) as [->|Hi].
  - rewrite !lookup_union, !lookup_omap, lookup_insert_eq, not_elem_of_list_to_map_1 by done.
    simpl. destruct (rule_value rec nr.2) as [v|].
    + destruct Ha as [-> _]. rewrite lookup_insert_eq. by destruct (x_extracted acc !! nr.1).
    + by subst a.
  - rewrite !lookup_union, !lookup_omap, lookup_insert_ne by done. f_equal.
    destruct (rule_value rec nr.2); [|by subst]. destruct Ha as [-> _]. by rewrite lookup_insert_ne.
Qed.

(** The names a rule marks as consumed. *)
Definition consumes (rule : FieldRule) (k : string) : Prop :=
  k = From rule ∨ k = TrimPrefix (From rule) "payload.".

Lemma extract_loop_consumed rec l acc x k :
  extract_loop rec l acc = Ok x →
  k ∈ x_consumed x ↔ k ∈ x_consumed acc
    ∨ ∃ nr, nr ∈ l ∧ is_Some (rule_value rec nr.2) ∧ consumes nr.2 k.
Proof.
  revert acc. induction l as [|nr l IH]; intros acc.
  { simpl. intros [= <-]. split; [auto|]. intros [?|(nr & ?%elem_of_nil & _)]; done. }
  intros (a & Ha & Hx)%res_bind_ok. apply extract_field_ok in Ha as [_ Ha].
  rewrite (IH a Hx). destruct (rule_value rec nr.2) as [v|] eqn:E.
  - destruct Ha as [_ ->]. rewrite elem_of_union, elem_of_union, !elem_of_singleton.
    setoid_rewrite elem_of_cons. unfold consumes. split.
    + intros [[Hk|?]|(nr' & ? & ? & ?)]; [right; exists nr; rewrite E; eauto 6|eauto|right; eauto 8].
    + intros [?|(nr' & [->|?] & ? & ?)]; eauto 8.
  - subst a. setoid_rewrite elem_of_cons. split; [naive_solver|].
    intros [?|(nr' & [->|?] & [? Hs] & ?)]; [auto|congruence|eauto 8].
Qed.

Lemma extract_loop_outcome rec l acc :
  if forallb (λ nr, rule_ok rec nr.2) l
  then ∃ x, extract_loop rec l acc = Ok x else ∃ e, extract_loop rec l acc = Err e.
Proof.
  revert acc. induction l as [|[name rule] l IH]; intros acc; [by eexists|].
  cbn [forallb Extract.extract_loop snd].
  pose proof (extract_field_spec rec acc name rule) as Hs. destruct (rule_ok rec rule).
  - destruct Hs as (a & -> & _). apply IH.
  - destruct Hs as [e ->]. by exists e.
Qed.

(** ** The types of the values *)

(** The Go type, and for an address the text, that a declared type stands for. *)
Inductive has_type : string → value → Prop :=
| typed_ip s ip : ParseIP s = Some ip → has_type "ip" (VStr (IP_String ip))
| typed_integer z : has_type "integer" (VInt64 z)
| typed_float f : has_type "float" (VFloat f)
| typed_timestamp z : has_type "timestamp" (VInt64 z)
| typed_string s : has_type "string" (VStr s)
| typed_boolean b : has_type "boolean" (VBool b).

Lemma castType_typed val ty layout v : ty ∈ known_types → castType val ty layout = Ok v → has_type ty v.
Proof.
  intros Hty. unfold Extract.castType, known_types in *.
  repeat (apply elem_of_cons in Hty as [->|Hty]); [cbn [String.eqb Ascii.eqb Bool.eqb]..|by apply elem_of_nil in Hty].
  - destruct (ParseIP _) eqn:E; [|done]. intros [= <-]. by eapply typed_ip.
  - unfold cast_integer. repeat case_match; try done; intros [= <-]; constructor.
  - unfold cast_float. repeat case_match; try done; intros [= <-]; constructor.
  - destruct (parseTimestamp _ _ _ _); [|done..]. intros [= <-]. constructor.
  - intros [= <-]. constructor.
  - unfold cast_boolean. repeat case_match; try done; intros [= <-]; constructor.
Qed.

(** The warning for a value that was kept as it was. *)
Definition kept_warning (name : string) (rule : FieldRule) (e : error) : error :=
  Errorf "field %q: conversion to %s failed (%v); preserving original value" [AStr name; AStr (Type_ rule); AVErr e].

Lemma extract_loop_warned rec l acc x :
  extract_loop rec l acc = Ok x →
  (∀ w, w ∈ x_warnings acc → w ∈ x_warnings x)
  ∧ ∀ name rule val e, (name, rule) ∈ l → rule_source rec rule = Some val →
      castType val (Type_ rule) (Layout rule) = Err e → kept_warning name rule e ∈ x_warnings x.
Proof.
  revert acc. induction l as [|[n r] l IH]; intros acc; [intros [= <-]; split; [done|by intros ???? ?%elem_of_nil]|].
  intros (a & Ha & [Hkeep Hw]%IH)%res_bind_ok. unfold Extract.extract_field in Ha.
  assert ((∀ w, w ∈ x_warnings acc → w ∈ x_warnings a)
    ∧ ∀ val e, rule_source rec r = Some val → castType val (Type_ r) (Layout r) = Err e → kept_warning n r e ∈ x_warnings a) as [Hk' Hw'].
  { unfold rule_source. destruct (LookupField rec (From r)) as [val|]; [|destruct (Required r); [done|injection Ha as <-; done]].
    destruct (is_nil val) eqn:En; [destruct val; try done; destruct (Required r); [done|by injection Ha as <-]|].
    replace (match val with VNil => if Required r then _ else _ | _ => _ end) with
      (match castType val (Type_ r) (Layout r) with
       | Panic p => Panic p
       | Ok convertedVal => Ok {| x_extracted := <[n := convertedVal]> (x_extracted acc);
           x_consumed := {[From r; TrimPrefix (From r) "payload."]} ∪ x_consumed acc; x_warnings := x_warnings acc |}
       | Err err => if Required r then Err (Errorf "field %q conversion to %s failed: %w" [AStr n; AStr (Type_ r); AErr err])
                    else Ok {| x_extracted := <[n := val]> (x_extracted acc);
           x_consumed := {[From r; TrimPrefix (From r) "payload."]} ∪ x_consumed acc; x_warnings := x_warnings acc ++ [kept_warning n r err] |}
       end) in Ha by (by destruct val).
    cbn [mbind option_bind]. rewrite En. destruct (castType val (Type_ r) (Layout r)) as [v|e|p] eqn:E; [|destruct (Required r); [done|]|done];
      injection Ha as <-; cbn [x_warnings]; (split; [set_solver|]); intros val' e' [= <-] E'; [congruence|].
    rewrite E in E'. injection E' as <-. set_solver. }
  split; [auto|]. intros name rule val e [[= -> ->]|Hin]%elem_of_cons Hs Hc; [by eapply Hkeep, Hw'|by eapply Hw].
Qed.
End spec.

Lemma LookupField_direct rec k v :
  k ≠ "" → field rec k = Some v → LookupField rec k = Some v.
Proof.
  intros Hk. unfold field, LookupField, LookupNested. destruct (Fields rec) as [f|]; simpl; [|by rewrite lookup_empty].
  destruct (String.eqb_spec k ""); [done|]. by intros ->.
Qed.

(** [ExtractAndConvert] fails exactly when some required rule has no source value or
    an unconvertible one; otherwise each declared field holds its rule's value, and,
    when the pack preserves unmapped fields, the unmapped ones are exactly the
    decoded fields that no rule with a value consumes. *)
Lemma extraction_outcome (fmt_float : f64 → string) (time_Parse : string → string → option gtime)
    (currentYear : Z) (plat : GoPlatform) (ord : MapOrder) (pack : ParserPack) (rec : DecodedRecord) :
  match ExtractAndConvert fmt_float time_Parse currentYear pack rec with
  | Ok (extracted, unmapped, _) =>
      map_Forall (λ _ rule, rule_ok fmt_float time_Parse currentYear rec rule = true) (sFields (Spec pack))
      ∧ extracted = values fmt_float time_Parse currentYear rec (sFields (Spec pack))
      ∧ ∀ k v, unmapped !! k = Some v ↔
          PreserveUnmapped (Spec pack) = true ∧ field rec k = Some v
          ∧ map_Forall (λ _ rule, ¬ (is_Some (rule_value fmt_float time_Parse currentYear rec rule)
                                    ∧ consumes rule k)) (sFields (Spec pack))
  | Err _ => ∃ name rule, sFields (Spec pack) !! name = Some rule
                          ∧ rule_ok fmt_float time_Parse currentYear rec rule = false
  | Panic _ => False
  end.
Proof.
  unfold ExtractAndConvert. set (flds := sFields (Spec pack)).
  pose proof (map_range_perm flds) as Hp.
  assert (∀ nr, nr ∈ map_range flds ↔ flds !! nr.1 = Some nr.2) as Hel.
  { intros [n r]. rewrite Hp. apply elem_of_map_to_list. }
  pose proof (extract_loop_outcome fmt_float time_Parse currentYear rec (map_range flds) no_extraction) as Ho.
  destruct (forallb _ (map_range flds)) eqn:Hall.
  - destruct Ho as [x Hx]. rewrite Hx. simpl. split_and!.
    + intros name rule Hr. rewrite forallb_forall in Hall.
      apply (Hall (name, rule)), list_elem_of_In, Hel. done.
    + rewrite (extract_loop_extracted _ _ _ _ _ _ _ (NoDup_fst_range flds) Hx).
      rewrite (range_to_map flds). simpl. by rewrite (right_id_L ∅ (∪)).
    + intros k v. pose proof (extract_loop_consumed _ _ _ _ _ _ _ k Hx) as Hc.
      unfold unmapped_of. destruct (PreserveUnmapped (Spec pack)); [|rewrite lookup_empty; naive_solver].
      rewrite map_lookup_filter_Some. simpl. rewrite Hc. unfold field. simpl.
      split.
      * intros [Hv Hn]. split_and!; [done..|]. intros name rule Hr Hm.
        apply Hn. right. exists (name, rule). by rewrite Hel.
      * intros (_ & Hv & Hn). split; [done|].
        intros [?%elem_of_empty|([name rule] & Hr%Hel & Hm)]; [done|]. by apply (Hn name rule).
  - destruct Ho as [e ->]. apply forallb_false in Hall as ([name rule] & Hr%Hel & Hk).
    by exists name, rule.
Qed.

(** ** Properties *)

(** The order in which Go visits the declared fields decides neither whether the
    extraction succeeds nor what it extracts and leaves unmapped. *)
Theorem ExtractAndConvert_order_independent (fmt_float : f64 → string)
    (time_Parse : string → string → option gtime) (currentYear : Z) (plat : GoPlatform)
    (o1 o2 : MapOrder) (pack : ParserPack) (rec : DecodedRecord) :
  match ExtractAndConvert (H0 := o1) fmt_float time_Parse currentYear pack rec,
        ExtractAndConvert (H0 := o2) fmt_float time_Parse currentYear pack rec with
  | Ok (e1, u1, _), Ok (e2, u2, _) => e1 = e2 ∧ u1 = u2
  | Err _, Err _ => True
  | _, _ => False
  end.
Proof.
  pose proof (extraction_outcome fmt_float time_Parse currentYear plat o1 pack rec) as H1.
  pose proof (extraction_outcome fmt_float time_Parse currentYear plat o2 pack rec) as H2.
  destruct (ExtractAndConvert (H0 := o1) _ _ _ _ _) as [[[e1 u1] w1]|err1|p1]; [..|done];
    destruct (ExtractAndConvert (H0 := o2) _ _ _ _ _) as [[[e2 u2] w2]|err2|p2]; try done.
  - destruct H1 as (_ & -> & Hu1), H2 as (_ & -> & Hu2). split; [done|].
    apply map_eq. intros k. apply option_eq. intros v. by rewrite Hu1, Hu2.
  - destruct H1 as [Hf _], H2 as (n & r & Hr & Hk). apply Hf in Hr. congruence.
  - destruct H2 as [Hf _], H1 as (n & r & Hr & Hk). apply Hf in Hr. congruence.
Qed.

(** C29: nothing is lost by a successful extraction: a required field holds the
    conversion of its source value, and, when the pack preserves unmapped fields,
    every decoded field is either kept as unmapped, or is the source of a declared
    field, or is shadowed by a declared field that reads ["payload." + k]. *)
Theorem ExtractAndConvert_lossless (fmt_float : f64 → string) (time_Parse : string → string → option gtime)
    (currentYear : Z) (plat : GoPlatform) (ord : MapOrder) (pack : ParserPack) (rec : DecodedRecord)
    (extracted unmapped : fields) (warnings : list error) :
  ExtractAndConvert fmt_float time_Parse currentYear pack rec = Ok (extracted, unmapped, warnings) →
  (∀ name rule, sFields (Spec pack) !! name = Some rule → Required rule = true →
     ∃ val v, LookupField rec (From rule) = Some val ∧ extracted !! name = Some v
              ∧ castType fmt_float time_Parse currentYear val (Type_ rule) (Layout rule) = Ok v)
  ∧ (PreserveUnmapped (Spec pack) = true →
     ∀ k v, k ≠ "" → field rec k = Some v →
       unmapped !! k = Some v
       ∨ ∃ name rule, sFields (Spec pack) !! name = Some rule ∧ is_Some (extracted !! name)
           ∧ (From rule = k ∧ LookupField rec (From rule) = Some v ∨ From rule = "payload." +:+ k)).
Proof.
  intros He. pose proof (extraction_outcome fmt_float time_Parse currentYear plat ord pack rec) as H.
  rewrite He in H. destruct H as (Hok & -> & Hu). unfold values. split.
  - intros name rule Hr Hreq. specialize (Hok name rule Hr). simpl in Hok.
    rewrite lookup_omap, Hr. simpl. unfold rule_ok, rule_value, rule_source in *.
    rewrite Hreq in Hok. simpl in Hok.
    destruct (LookupField rec (From rule)) as [val|]; [|done]. simpl in *.
    destruct (is_nil val); [done|]. simpl in *.
    destruct (castType _ _ _ _ _ _) as [v|e|p] eqn:E; [|done..]. eauto.
  - intros Hp k v Hk Hv. destruct (unmapped !! k) as [v'|] eqn:E.
    { left. apply Hu in E as (_ & Hf & _). congruence. }
    right. destruct (decide (map_Forall (λ _ rule, ¬ (is_Some (rule_value fmt_float time_Parse currentYear rec rule)
                                                ∧ consumes rule k)) (sFields (Spec pack)))) as [Hn|Hn].
    { assert (unmapped !! k = Some v) as ?; [by apply Hu|congruence]. }
    apply map_not_Forall in Hn as (name & rule & Hr & [Hs Hc]%dec_stable); [|apply _].
    exists name, rule. rewrite lookup_omap, Hr. split_and!; [done..|].
    destruct Hc as [->|Hc]; [left; split; [done|by apply LookupField_direct]|].
    destruct (TrimPrefix_cases (From rule) "payload.") as [Ht|Ht]; rewrite <- Hc in Ht; [|by right].
    left. split; [done|]. rewrite Ht. by apply LookupField_direct.
Qed.

(** C40: the types of what is extracted.  With a validated pack, each extracted field comes from
    the source of its rule and has the Go type its rule declares (an [ip] is the canonical
    text of a valid address); the one exception is a field that is not required and could not
    be converted, which keeps its original value and is reported in the warnings. *)
Theorem ExtractAndConvert_typed (fmt_float : f64 → string) (time_Parse : string → string → option gtime)
    (currentYear : Z) (plat : GoPlatform) (ord : MapOrder) (pack : ParserPack) (rec : DecodedRecord)
    (extracted unmapped : fields) (warnings : list error) :
  valid_pack pack →
  ExtractAndConvert fmt_float time_Parse currentYear pack rec = Ok (extracted, unmapped, warnings) →
  ∀ name v, extracted !! name = Some v →
  ∃ rule val, sFields (Spec pack) !! name = Some rule ∧ LookupField rec (From rule) = Some val
    ∧ (castType fmt_float time_Parse currentYear val (Type_ rule) (Layout rule) = Ok v ∧ has_type (Type_ rule) v
       ∨ Required rule = false ∧ v = val
         ∧ ∃ e, castType fmt_float time_Parse currentYear val (Type_ rule) (Layout rule) = Err e ∧ kept_warning name rule e ∈ warnings).
Proof.
  intros Hpack He name v Hv. pose proof (extraction_outcome fmt_float time_Parse currentYear plat ord pack rec) as H.
  rewrite He in H. destruct H as (Hok & -> & _). unfold values in Hv. rewrite lookup_omap in Hv.
  destruct (sFields (Spec pack) !! name) as [rule|] eqn:Er; [|done]. cbn [mbind option_bind] in Hv.
  pose proof (Hok _ _ Er) as Hr. cbn beta in Hr. unfold rule_value in Hv. destruct (rule_source rec rule) as [val|] eqn:Es; [|done]. cbn in Hv.
  assert (LookupField rec (From rule) = Some val) as Hl.
  { unfold rule_source in Es. destruct (LookupField rec (From rule)) as [val'|]; [|done]. cbn in Es. destruct (is_nil val'); [done|]. by injection Es as ->. }
  exists rule, val. split_and!; [done..|]. unfold rule_ok in Hr. rewrite Es in Hr.
  destruct (castType fmt_float time_Parse currentYear val (Type_ rule) (Layout rule)) as [v'|e|p] eqn:E; injection Hv as <-.
  - left. split; [done|]. eapply castType_typed; [|exact E]. by apply (vp_types _ Hpack name).
  - right. destruct (Required rule) eqn:Erq; [done|]. split_and!; [done..|]. exists e. split; [done|].
    unfold ExtractAndConvert in He. apply res_bind_ok in He as (x & Hx & [= _ _ <-]).
    apply extract_loop_warned in Hx as [_ Hw]. apply (Hw name rule val e); [|done..]. rewrite map_range_perm. by apply elem_of_map_to_list.
  - pose proof (castType_no_panic fmt_float time_Parse currentYear val (Type_ rule) (Layout rule)) as Hnp. by rewrite E in Hnp.
Qed.

(** ** Concrete instances *)

Definition no_float_text (f : f64) : string := "".
Definition no_layout (layout s : string) : option gtime := None.

Lemma ExtractAndConvert_lossless_witness :
  ∃ extracted unmapped,
    ExtractAndConvert (H := amd64) (H0 := forward_order) no_float_text no_layout 2026 sample_pack sample_record
      = Ok (extracted, unmapped, [])
    ∧ (∀ k v, k ≠ "" → field sample_record k = Some v →
         unmapped !! k = Some v
         ∨ ∃ name rule, sFields (Spec sample_pack) !! name = Some rule ∧ is_Some (extracted !! name)
             ∧ (From rule = k ∧ LookupField sample_record (From rule) = Some v ∨ From rule = "payload." +:+ k)).
Proof.
  eexists _, _. split; [vm_compute; reflexivity|].
  apply (ExtractAndConvert_lossless no_float_text no_layout 2026 amd64 forward_order sample_pack sample_record _ _ []);
    vm_compute; reflexivity.
Defined.

(** The third case of [ExtractAndConvert_lossless] does occur: a rule reading the field
    "payload.x" also hides the unrelated field "x", whose value is then nowhere. *)
Lemma shadowed_field_dropped :
  let pack := {|
    APIVersion := APIVersion sample_pack; Kind := Kind sample_pack; Metadata := Metadata sample_pack;
    Spec := {| sSourceCategory := "other"; sFormat := "*"; sMatch := sMatch (Spec sample_pack); sDecode := None;
               sFields := {[ "x" := {| From := "payload.x"; Type_ := "string"; Required := true; Layout := "" |} ]};
               sMap := ∅; PreserveUnmapped := true; Fixtures := [] |};
    compiledRegex := None |} in
  let rec := single_record "json" ∅ {[ "payload.x" := VStr "a"; "x" := VStr "b" ]} "" in
  ExtractAndConvert (H := amd64) (H0 := forward_order) no_float_text no_layout 2026 pack rec
  = Ok ({[ "x" := VStr "a" ]}, ∅, []).
Proof. by vm_compute. Qed.

(** A port that is no number is kept as its text, with a warning. *)
Definition odd_record : DecodedRecord := single_record "json" ∅ {[ "port" := VStr "http"; "src" := VStr "10.0.0.1" ]} "".
Definition typed_pack : ParserPack := {|
  APIVersion := APIVersion sample_pack; Kind := Kind sample_pack; Metadata := Metadata sample_pack;
  Spec := {| sSourceCategory := "other"; sFormat := "*"; sMatch := sMatch (Spec sample_pack); sDecode := None;
             sFields := {[ "p" := {| From := "port"; Type_ := "integer"; Required := false; Layout := "" |};
                           "s" := {| From := "src"; Type_ := "ip"; Required := true; Layout := "" |} ]};
             sMap := ∅; PreserveUnmapped := true; Fixtures := [] |};
  compiledRegex := None |}.

Lemma typed_pack_valid : valid_pack typed_pack.
Proof.
  split; [by vm_compute; repeat constructor| | | |].
  - by vm_compute; repeat constructor.
  - reflexivity.
  - intros k f. simpl. intros [[<- <-]|[_ [<- <-]%lookup_singleton_Some]]%lookup_insert_Some; (split; [done|by vm_compute; repeat constructor]).
  - intros src dst. simpl. by rewrite lookup_empty.
Qed.

Lemma ExtractAndConvert_typed_witness :
  ∃ extracted unmapped warnings,
    ExtractAndConvert (H := amd64) (H0 := forward_order) no_float_text no_layout 2026 typed_pack odd_record = Ok (extracted, unmapped, warnings)
    ∧ extracted !! "s" = Some (VStr "10.0.0.1")
    ∧ ∃ rule val, sFields (Spec typed_pack) !! "s" = Some rule ∧ LookupField odd_record (From rule) = Some val
        ∧ (castType (H := amd64) no_float_text no_layout 2026 val (Type_ rule) (Layout rule) = Ok (VStr "10.0.0.1") ∧ has_type (Type_ rule) (VStr "10.0.0.1")
           ∨ Required rule = false ∧ VStr "10.0.0.1" = val
             ∧ ∃ e, castType (H := amd64) no_float_text no_layout 2026 val (Type_ rule) (Layout rule) = Err e ∧ kept_warning "s" rule e ∈ warnings).
Proof.
  eexists _, _, _. split; [vm_compute; reflexivity|]. split; [vm_compute; reflexivity|].
  eapply (ExtractAndConvert_typed no_float_text no_layout 2026 amd64 forward_order typed_pack odd_record);
    [apply typed_pack_valid|vm_compute; reflexivity|vm_compute; reflexivity].
Defined.
