(* ===== verification/Normalize.v ===== *)
(** * [internal/normalize]: mapping to OCSF events, and their validation *)

From S2P Require Import Prelude GoStrings GoNum GoNet GoTime Model Decoder Ocsf Pack Extract.

Record Normalizer := { coreVersion : string; schemaVersion : string; eventSeq : Z }.
Definition NewNormalizer : Normalizer :=
  {| coreVersion := "0.1.0"; schemaVersion := "1.3.0"; eventSeq := 0 |}.

(** [setNestedValue], on the path split at its dots. *)
Fixpoint set_nested (m : fields) (parts : list string) (val : value) : fields :=
  match parts with
  | [] => m
  | [k] => <[k := val]> m
  | k :: rest =>
      let sub := match m !! k with Some (VMap s) => s | _ => ∅ end in
      <[k := VMap (set_nested sub rest val)]> m
  end.
Definition setNestedValue (m : fields) (path : string) (val : value) : fields :=
  set_nested m (Split path ".") val.

(** [if _, exists := event[k]; !exists { event[k] = v }] *)
Definition set_default (k v : string) (event : fields) : fields :=
  match event !! k with Some _ => event | None => <[k := VStr v]> event end.

Definition taxonomy_defaults (category : string) : option (string * string * string) :=
  if category =s "network_device" then Some ("Network Activity", "Network Activity", "Network Activity: Traffic")
  else if category =s "server" then Some ("Application Activity", "HTTP Activity", "HTTP Activity: HTTP Request")
  else if category =s "os" then Some ("Authentication", "Authentication", "Authentication: Logon")
  else if category =s "endpoint" then Some ("Findings", "Security Finding", "Security Finding: Alert")
  else if category =s "application" then
    Some ("Application Activity", "Application Activity", "Application Activity: Generic")
  else if category =s "database" then Some ("System Activity", "Database Activity", "Database Activity: Query")
  else if category =s "cloud" then Some ("Cloud Activity", "API Activity", "Cloud Activity: API Call")
  else if category =s "container" then
    Some ("System Activity", "Container Lifecycle", "Container Activity: Lifecycle")
  else if category =s "iam" then
    Some ("Identity & Access Management", "Account Change", "IAM: Account Modification")
  else if category =s "iot" then Some ("Device Activity", "Device Status", "Device Activity: Status Report")
  else if category =s "other" then Some ("Other Activity", "Base Event", "Other: Generic")
  else None.

Definition enrichTaxonomyDefaults (event : fields) (category : string) : fields :=
  match taxonomy_defaults category with
  | Some (cat, cls, typ) =>
      set_default "type_name" typ (set_default "class_name" cls (set_default "category_name" cat event))
  | None => event
  end.

(** The mapping rules of a pack, in the order Go visits them. *)
Definition map_rule (extracted : fields) (event : fields) (rule : string * string) : fields :=
  match extracted !! rule.1 with
  | None | Some VNil => event
  | Some val => setNestedValue event (TrimPrefix rule.2 "event.") val
  end.

Definition default_time (raw : RawEvent) (now : time) (event : fields) : fields :=
  match event !! "time" with
  | None | Some VNil =>
      <["time" := VInt64 (UnixMilli (if negb (IsZero (re_ReceivedAt raw)) then re_ReceivedAt raw else now))]> event
  | _ => event
  end.

Definition keep_unmapped (pack : ParserPack) (unmapped event : fields) : fields :=
  if PreserveUnmapped (Spec pack) && negb (bool_decide (unmapped = ∅))
  then <["unmapped" := VMap unmapped]> event else event.

Definition ocsf_event `{MapOrder} (raw : RawEvent) (pack : ParserPack) (extracted unmapped : fields)
    (now : time) : fields :=
  enrichTaxonomyDefaults
    (keep_unmapped pack unmapped
       (default_time raw now
          (foldl (map_rule extracted) ∅ (map_range (sMap (Spec pack))))))
    (sSourceCategory (Spec pack)).

(** [v.(string)] of a map entry, when the assertion holds and the text is accepted. *)
Definition text_entry (o : option value) (accept : string → bool) : option string :=
  match o with Some (VStr s) => if accept s then Some s else None | _ => None end.

Definition source_id (raw : RawEvent) (decoded : DecodedRecord) : string :=
  let host s := (s <>s "") && (s <>s "-") in
  let some s := s <>s "" in
  let id :=
    match text_entry (header decoded "syslog_host") host with
    | Some h => h
    | None =>
    match text_entry (field decoded "syslog_host") host with
    | Some h => h
    | None =>
    match text_entry (field decoded "host") some with
    | Some h => h
    | None =>
    match text_entry (field decoded "server") some with
    | Some h => h
    | None => re_SourceIP raw
    end end end end in
  if id =s "" then "unknown" else id.

Definition normalize_step (now : time) : ProcessingStep :=
  {| Stage := "normalize"; Timestamp := now; Result := "ok"; Error := "" |}.

Section normalize.
Context (fmt_float : f64 → string) (time_Parse : string → string → option gtime) (currentYear : Z).
Context `{GoPlatform} `{MapOrder}.

(** [rand4] is the four random bytes, [now] the clock (local time is UTC). *)
Definition Normalize (n : Normalizer) (raw : RawEvent) (decoded : DecodedRecord) (pack : ParserPack)
    (history : list ProcessingStep) (rand4 : string) (now : time)
    : res NormalizedEvent * Normalizer :=
  match ExtractAndConvert fmt_float time_Parse currentYear pack decoded with
  | Err err => (Err (Errorf "field extraction failed: %w" [AErr err]), n)
  | Panic p => (Panic p, n)
  | Ok (extracted, unmapped, warnings) =>
      let seq := (eventSeq n + 1) mod 2 ^ 64 in
      let eventID := "worm-evt-" +:+ Format_date now +:+ "-" +:+ pad 6 seq +:+ "-" +:+ hex_EncodeToString rand4 in
      let envelope := {|
        EventID := eventID; we_RawID := re_RawID raw; we_RawSHA256 := re_RawSHA256 raw;
        we_RawBytes := re_ByteCount raw; we_RecordOrdinal := RecordOrdinal decoded;
        SourceCategory := sSourceCategory (Spec pack); SourceID := source_id raw decoded;
        we_ParserPack := mName (Metadata pack); ParserVersion := mVersion (Metadata pack);
        CoreVersion := coreVersion n; SchemaVersion := schemaVersion n;
        ReceivedTime := re_ReceivedAt raw; we_Status := "normalized"; Warnings := warnings;
        ProcessingHistory := history ++ [normalize_step now] |} in
      (Ok {| Worm := envelope; OCSF := ocsf_event raw pack extracted unmapped now |},
       {| coreVersion := coreVersion n; schemaVersion := schemaVersion n; eventSeq := seq |})
  end.

(** ** [Validator.Validate] *)

Definition validate_ip (name : string) (ep : fields) : res unit :=
  match ep !! "ip" with
  | None | Some VNil => Ok ()
  | Some (VStr s) =>
      match ParseIP s with
      | Some _ => Ok ()
      | None => Err (Errorf "invalid IP address in %s: %v" [AStr name; AStr s])
      end
  | Some v => Err (Errorf "invalid IP address in %s: %v" [AStr name; AStr (sprint_v fmt_float v)])
  end.

Definition port_number (v : value) : option Z :=
  match v with
  | VInt64 p | VInt p => Some p
  | VFloat p => Some (int64_of_f64 p)
  | _ => None
  end.

Definition validate_port (name : string) (ep : fields) : res unit :=
  match ep !! "port" with
  | None | Some VNil => Ok ()
  | Some v =>
      match port_number v with
      | None => Err (Errorf "invalid port type in %s: %T" [AStr name])
      | Some portNum =>
          if (portNum <? 0) || (65535 <? portNum)
          then Err (Errorf "port %d out of valid range (0..65535) in %s" [AInt portNum; AStr name])
          else Ok ()
      end
  end.

Definition validateEndpoint (name : string) (ep : fields) : res unit :=
  _ ← validate_ip name ep; validate_port name ep.

Definition endpoint_of (ocsf : fields) (name : string) : res unit :=
  match ocsf !! name with Some (VMap ep) => validateEndpoint name ep | _ => Ok () end.

(** A mandatory text root field: present, not nil, and not blank when rendered. *)
Definition mandatory_text (ocsf : fields) (key : string) : res string :=
  match ocsf !! key with
  | None | Some VNil => Err (Errorf "missing mandatory OCSF '%s'" [AStr key])
  | Some v =>
      if TrimSpace (sprint_v fmt_float v) =s ""
      then Err (Errorf "missing mandatory OCSF '%s'" [AStr key])
      else Ok (sprint_v fmt_float v)
  end.

Definition validate_time (ocsf : fields) : res unit :=
  let bad := errors_New "invalid OCSF time timestamp (must be > 0)" in
  match ocsf !! "time" with
  | None | Some VNil => Err (errors_New "missing mandatory OCSF 'event.time' timestamp")
  | Some (VInt64 t) | Some (VInt t) => if t <=? 0 then Err bad else Ok ()
  | Some (VFloat t) => if f64_leb t (f64_of_Z 0) then Err bad else Ok ()
  | Some _ => Err (errors_New "invalid OCSF time type (must be numeric epoch ms)")
  end.

Definition validate_severity (ocsf : fields) : res unit :=
  match ocsf !! "severity_id" with
  | Some (VInt64 s) | Some (VInt s) =>
      if (s <? 0) || (10 <? s)
      then Err (Errorf "severity_id %d out of valid bounds (0..10)" [AInt s]) else Ok ()
  | _ => Ok ()
  end.

Definition validate_step (now : time) : ProcessingStep :=
  {| Stage := "validate"; Timestamp := now; Result := "ok"; Error := "" |}.

(** The event with its new audit step; the OCSF dictionary of the model is never nil. *)
Definition Validate (norm : NormalizedEvent) (now : time) : res NormalizedEvent :=
  let w := Worm norm in
  if EventID w =s "" then Err (errors_New "missing mandatory worm.event_id")
  else if we_RawID w =s "" then Err (errors_New "missing mandatory worm.raw_id")
  else if we_RawSHA256 w =s "" then Err (errors_New "missing mandatory worm.raw_sha256")
  else if SchemaVersion w <>s Version then
    Err (Errorf "unsupported OCSF schema version %q; pinned version is %s" [AStr (SchemaVersion w); AStr Version])
  else
    catName ← mandatory_text (OCSF norm) "category_name";
    className ← mandatory_text (OCSF norm) "class_name";
    _ ← ValidateTaxonomy (SourceCategory w) catName className;
    _ ← validate_time (OCSF norm);
    _ ← endpoint_of (OCSF norm) "src_endpoint";
    _ ← endpoint_of (OCSF norm) "dst_endpoint";
    _ ← validate_severity (OCSF norm);
    Ok {| Worm := {|
            EventID := EventID w; we_RawID := we_RawID w; we_RawSHA256 := we_RawSHA256 w;
            we_RawBytes := we_RawBytes w; we_RecordOrdinal := we_RecordOrdinal w;
            SourceCategory := SourceCategory w; SourceID := SourceID w;
            we_ParserPack := we_ParserPack w; ParserVersion := ParserVersion w;
            CoreVersion := CoreVersion w; SchemaVersion := SchemaVersion w;
            ReceivedTime := ReceivedTime w; we_Status := we_Status w; Warnings := Warnings w;
            ProcessingHistory := ProcessingHistory w ++ [validate_step now] |};
          OCSF := OCSF norm |}.
End normalize.

(** ** Reading an OCSF dictionary along a path *)

Fixpoint get_path (m : fields) (parts : list string) : option value :=
  match parts with
  | [] => Some (VMap m)
  | [k] => m !! k
  | k :: rest => match m !! k with Some (VMap s) => get_path s rest | _ => None end
  end.

(** Neither path is a prefix of the other. *)
Fixpoint diverge (ps qs : list string) : bool :=
  match ps, qs with
  | p :: ps', q :: qs' => if p =s q then diverge ps' qs' else true
  | _, _ => false
  end.

Lemma get_path_cons m k r rest :
  get_path m (k :: r :: rest) = match m !! k with Some (VMap s) => get_path s (r :: rest) | _ => None end.
Proof. done. Qed.

Lemma set_nested_cons m k r rest v :
  set_nested m (k :: r :: rest) v =
  <[k := VMap (set_nested (match m !! k with Some (VMap s) => s | _ => ∅ end) (r :: rest) v)]> m.
Proof. done. Qed.

Lemma get_set_same m ps v : ps ≠ [] → get_path (set_nested m ps v) ps = Some v.
Proof.
  revert m. induction ps as [|k [|r rest] IH]; intros m; [done|..]; intros _.
  - apply lookup_insert_eq.
  - rewrite set_nested_cons, get_path_cons, lookup_insert_eq. by apply IH.
Qed.

Lemma get_path_insert_ne m k v q qs : k ≠ q → get_path (<[k := v]> m) (q :: qs) = get_path m (q :: qs).
Proof. intros Hk. destruct qs; simpl; by rewrite lookup_insert_ne. Qed.

Lemma get_path_empty q qs : get_path ∅ (q :: qs) = None.
Proof. destruct qs; simpl; by rewrite lookup_empty. Qed.

Lemma get_set_diverge m ps qs v : diverge ps qs = true → get_path (set_nested m ps v) qs = get_path m qs.
Proof.
  revert m qs. induction ps as [|p ps IH]; intros m [|q qs]; try done. cbn [diverge].
  destruct (String.eqb_spec p q) as [<-|Hne]; intros H.
  - destruct ps as [|p' ps]; [done|]. destruct qs as [|q' qs]; [done|].
    rewrite set_nested_cons, !get_path_cons, lookup_insert_eq, (IH _ _ H).
    destruct (m !! p) as [[]|]; try done; apply get_path_empty.
  - destruct ps; [simpl|rewrite set_nested_cons]; by apply get_path_insert_ne.
Qed.

Definition path_of (target : string) : list string := Split target ".".

Lemma targets_checked :
  forallb (λ a, negb (match path_of a.1 with k :: _ => k =s "unmapped" | [] => true end)
                && forallb (λ b, (a.1 =s b.1) || diverge (path_of a.1) (path_of b.1)) (map_to_list targets))
    (map_to_list targets) = true.
Proof. by vm_compute. Qed.

Lemma forallb_map_to_list {V} (p : string * V → bool) (m : gmap string V) k v :
  forallb p (map_to_list m) = true → m !! k = Some v → p (k, v) = true.
Proof.
  intros H Hk. rewrite forallb_forall in H. by apply H, list_elem_of_In, elem_of_map_to_list.
Qed.

Lemma target_checked a t :
  targets !! a = Some t →
  (∃ q qs, path_of a = q :: qs ∧ q ≠ "unmapped")
  ∧ ∀ b t', targets !! b = Some t' → a ≠ b → diverge (path_of a) (path_of b) = true.
Proof.
  intros Ha. pose proof (forallb_map_to_list _ targets a t targets_checked Ha) as H.
  cbv beta in H. cbn [fst] in H. apply andb_prop in H as [H1 H2]. split.
  - destruct (path_of a) as [|q qs]; [discriminate H1|]. exists q, qs. split; [reflexivity|].
    intros ->. discriminate H1.
  - intros b t' Hb Hne. pose proof (forallb_map_to_list _ targets b t' H2 Hb) as H3.
    cbv beta in H3. cbn [fst] in H3. apply orb_prop in H3 as [H3|H3]; [|exact H3].
    apply String.eqb_eq in H3. contradiction.
Qed.

Lemma target_allowed a : TargetAllowed a = true → ∃ t, targets !! a = Some t.
Proof. unfold TargetAllowed. destruct (targets !! a); [eauto|done]. Qed.

(** The later phases of [ocsf_event] keep what the mapping rules put in place. *)
Lemma set_default_get k w m q qs v :
  get_path m (q :: qs) = Some v → get_path (set_default k w m) (q :: qs) = Some v.
Proof.
  intros Hg. unfold set_default. destruct (m !! k) eqn:E; [done|].
  rewrite get_path_insert_ne; [done|]. intros ->. destruct qs; simpl in Hg; by rewrite E in Hg.
Qed.

Lemma default_time_get raw now m q qs v :
  get_path m (q :: qs) = Some v → v ≠ VNil → get_path (default_time raw now m) (q :: qs) = Some v.
Proof.
  intros Hg Hv. unfold default_time. destruct (decide (q = "time")) as [->|Hq].
  - destruct (m !! "time") as [x|] eqn:E; [|destruct qs; simpl in Hg; by rewrite E in Hg].
    destruct x; try done. destruct qs; simpl in Hg; rewrite E in Hg; by simplify_eq.
  - destruct (m !! "time") as [[]|]; by rewrite ?get_path_insert_ne.
Qed.

Lemma keep_unmapped_get pack un m q qs v :
  q ≠ "unmapped" → get_path m (q :: qs) = Some v → get_path (keep_unmapped pack un m) (q :: qs) = Some v.
Proof. intros Hq Hg. unfold keep_unmapped. destruct (_ && _); [by rewrite get_path_insert_ne|done]. Qed.

Lemma enrich_get cat m q qs v :
  get_path m (q :: qs) = Some v → get_path (enrichTaxonomyDefaults m cat) (q :: qs) = Some v.
Proof.
  intros Hg. unfold enrichTaxonomyDefaults. destruct (taxonomy_defaults cat) as [[[a b] c]|]; [|done].
  by do 3 apply set_default_get.
Qed.

Lemma map_rules_get extracted l event q :
  (∀ r, r ∈ l → diverge (path_of (TrimPrefix r.2 "event.")) q = true) →
  get_path (foldl (map_rule extracted) event l) q = get_path event q.
Proof.
  revert event. induction l as [|r l IH]; intros event Hd; [done|].
  simpl. rewrite IH by (intros; apply Hd; by right).
  unfold map_rule. destruct (extracted !! r.1) as [v|]; [|done].
  destruct v; try done; (apply get_set_diverge, Hd; left).
Qed.

Lemma TargetAllowed_prefix dst src flds pack :
  valid_pack pack → flds = sMap (Spec pack) → flds !! src = Some dst →
  ∃ t, targets !! TrimPrefix dst "event." = Some t.
Proof.
  intros Hv -> Hs. destruct (vp_targets _ Hv src dst Hs) as [(path & -> & Ha) _].
  rewrite TrimPrefix_app. by apply target_allowed.
Qed.

Lemma ocsf_event_maps `{MapOrder} raw pack extracted unmapped now src path v :
  valid_pack pack → sMap (Spec pack) !! src = Some ("event." +:+ path) →
  extracted !! src = Some v → v ≠ VNil →
  (∀ src', sMap (Spec pack) !! src' = Some ("event." +:+ path) → src' = src) →
  get_path (ocsf_event raw pack extracted unmapped now) (path_of path) = Some v.
Proof.
  intros Hv Hs He Hn Hu. set (rules := sMap (Spec pack)) in *.
  destruct (TargetAllowed_prefix _ src rules pack Hv eq_refl Hs) as [t Ht].
  rewrite TrimPrefix_app in Ht. destruct (target_checked path t Ht) as [(q & qs & Hq & Hqu) Hdiv].
  assert ((src, "event." +:+ path) ∈ map_range rules) as Hin.
  { rewrite map_range_perm. by apply elem_of_map_to_list. }
  apply list_elem_of_split in Hin as (l1 & l2 & Hl).
  assert (NoDup (map_range rules).*1) as Hnd by apply NoDup_fst_range.
  unfold ocsf_event. fold rules. rewrite Hl, foldl_app in *. cbn [foldl].
  rewrite Hq. apply enrich_get, keep_unmapped_get, default_time_get; [done| |done]. rewrite <- Hq.
  rewrite map_rules_get.
  - unfold map_rule. cbn [fst snd]. rewrite He, TrimPrefix_app.
    assert (∀ {A} (a b : A), match v with VNil => a | _ => b end = b) as -> by (by destruct v).
    apply get_set_same. fold (path_of path). by rewrite Hq.
  - intros [s d] Hr. cbn [snd].
    assert (s ≠ src) as Hss.
    { intros ->. rewrite fmap_app, fmap_cons in Hnd.
      apply NoDup_app in Hnd as (_ & _ & [Hx _]%NoDup_cons). apply Hx.
      by apply (list_elem_of_fmap_2 fst _ (src, d)). }
    assert (rules !! s = Some d) as Hd.
    { apply elem_of_map_to_list. rewrite <- (map_range_perm rules), Hl.
      apply elem_of_app. right. by right. }
    destruct (TargetAllowed_prefix _ s rules pack Hv eq_refl Hd) as [t' Ht'].
    destruct (target_checked _ _ Ht') as [_ Hdiv']. apply (Hdiv' path t Ht). intros Heq.
    apply Hss, Hu. destruct (vp_targets _ Hv s d Hd) as [(p' & -> & _) _].
    rewrite TrimPrefix_app in Heq. by subst p'.
Qed.

Lemma set_default_other k w m j : k ≠ j → set_default k w m !! j = m !! j.
Proof. intros Hk. unfold set_default. destruct (m !! k); [done|]. by rewrite lookup_insert_ne. Qed.

Lemma set_default_absent k w m : m !! k = None → set_default k w m !! k = Some (VStr w).
Proof. intros Hk. unfold set_default. rewrite Hk. apply lookup_insert_eq. Qed.

Lemma enrich_other cat m j :
  j ≠ "category_name" → j ≠ "class_name" → j ≠ "type_name" → enrichTaxonomyDefaults m cat !! j = m !! j.
Proof.
  intros. unfold enrichTaxonomyDefaults. destruct (taxonomy_defaults cat) as [[[a b] c]|]; [|done].
  by rewrite !set_default_other.
Qed.

(** ** Properties *)

(** C30: normalization keeps what extraction produced: every mapping rule of a valid pack
    whose target no other rule shares puts its extracted value at its OCSF path, and
    the unmapped fields are kept under "unmapped"; no order of Go's map iteration, no
    other rule and no default disturbs them. *)
Theorem Normalize_maps (fmt_float : f64 → string) (time_Parse : string → string → option gtime)
    (currentYear : Z) (plat : GoPlatform) (ord : MapOrder) (n n' : Normalizer) (raw : RawEvent)
    (decoded : DecodedRecord) (pack : ParserPack) (history : list ProcessingStep)
    (rand4 : string) (now : time) (ev : NormalizedEvent) :
  valid_pack pack →
  Normalize fmt_float time_Parse currentYear n raw decoded pack history rand4 now = (Ok ev, n') →
  ∃ extracted unmapped,
    ExtractAndConvert fmt_float time_Parse currentYear pack decoded = Ok (extracted, unmapped, Warnings (Worm ev))
    ∧ (∀ src path v, sMap (Spec pack) !! src = Some ("event." +:+ path) →
         extracted !! src = Some v → v ≠ VNil →
         (∀ src', sMap (Spec pack) !! src' = Some ("event." +:+ path) → src' = src) →
         get_path (OCSF ev) (path_of path) = Some v)
    ∧ (PreserveUnmapped (Spec pack) = true → unmapped ≠ ∅ → OCSF ev !! "unmapped" = Some (VMap unmapped)).
Proof.
  intros Hv. unfold Normalize.
  destruct (ExtractAndConvert _ _ _ _ _) as [[[ex un] ws]|e|p]; [|done..].
  intros [= <- <-]. exists ex, un. cbn [Worm OCSF Warnings]. split_and!; [done|..].
  - intros src path v. by apply ocsf_event_maps.
  - intros Hp Hu. unfold ocsf_event, keep_unmapped. rewrite enrich_other by done.
    rewrite Hp, bool_decide_false by done. cbn [andb negb]. apply lookup_insert_eq.
Qed.

(** the defaults of every source category satisfy the pinned OCSF taxonomy: an event
    whose pack maps neither name has, after enrichment, the category and class that
    [ValidateTaxonomy] wants. *)
Theorem enrichTaxonomyDefaults_valid (fmt_float : f64 → string) (event : fields) (category : string) :
  category ∈ KnownSourceCategories → event !! "category_name" = None → event !! "class_name" = None →
  ∃ cat cls,
    mandatory_text fmt_float (enrichTaxonomyDefaults event category) "category_name" = Ok cat
    ∧ mandatory_text fmt_float (enrichTaxonomyDefaults event category) "class_name" = Ok cls
    ∧ ValidateTaxonomy category cat cls = Ok ().
Proof.
  intros Hk Hcat Hcls.
  assert (∃ cat cls typ, taxonomy_defaults category = Some (cat, cls, typ)
            ∧ TrimSpace cat ≠ "" ∧ TrimSpace cls ≠ "" ∧ ValidateTaxonomy category cat cls = Ok ())
    as (cat & cls & typ & Ht & Hc1 & Hc2 & Hok).
  { repeat apply elem_of_cons in Hk as [->|Hk]; try (do 3 eexists; split_and!; [reflexivity|by vm_compute..]).

    by apply elem_of_nil in Hk. }
  exists cat, cls. unfold mandatory_text, enrichTaxonomyDefaults. rewrite Ht.
  rewrite !(set_default_other "type_name") by done.
  rewrite (set_default_other "class_name" _ _ "category_name") by done.
  rewrite set_default_absent, (set_default_absent "class_name") by (by rewrite ?set_default_other).
  cbn [sprint_v]. destruct (String.eqb_spec (TrimSpace cat) ""), (String.eqb_spec (TrimSpace cls) ""); done.
Qed.

(** [Validate] keeps the identity of an event. *)
Lemma Validate_keeps fmt_float `{GoPlatform} ev now ev' :
  Validate fmt_float ev now = Ok ev' →
  EventID (Worm ev') = EventID (Worm ev) ∧ we_RawID (Worm ev') = we_RawID (Worm ev)
  ∧ we_RecordOrdinal (Worm ev') = we_RecordOrdinal (Worm ev).
Proof.
  unfold Validate. repeat (case_match; [done|]). intros Hv.
  repeat (apply res_bind_ok in Hv as (? & _ & Hv)). injection Hv as <-. done.
Qed.

(** ** What [Validate] accepts *)

Section conforms.
Context (fmt_float : f64 → string) `{GoPlatform}.

Definition present (m : fields) (k : string) (v : value) : Prop := m !! k = Some v ∧ v ≠ VNil.

Record endpoint_ok (ep : fields) : Prop := {
  ep_ip v : present ep "ip" v → ∃ s ip, v = VStr s ∧ ParseIP s = Some ip;
  ep_port v : present ep "port" v → ∃ p, port_number v = Some p ∧ 0 ≤ p ≤ 65535;
}.

Definition time_ok (v : value) : Prop :=
  match v with
  | VInt64 t | VInt t => 0 < t
  | VFloat t => f64_leb t (f64_of_Z 0) = false
  | _ => False
  end.

Definition severity_ok (v : value) : Prop :=
  match v with VInt64 s | VInt s => 0 ≤ s ≤ 10 | _ => True end.

Record conforms (ev : NormalizedEvent) : Prop := {
  cf_ids : EventID (Worm ev) ≠ "" ∧ we_RawID (Worm ev) ≠ "" ∧ we_RawSHA256 (Worm ev) ≠ "";
  cf_schema : SchemaVersion (Worm ev) = Version;
  cf_taxonomy : ∃ cat cls, present (OCSF ev) "category_name" cat ∧ present (OCSF ev) "class_name" cls
    ∧ TrimSpace (sprint_v fmt_float cat) ≠ "" ∧ TrimSpace (sprint_v fmt_float cls) ≠ ""
    ∧ ValidateTaxonomy (SourceCategory (Worm ev)) (sprint_v fmt_float cat) (sprint_v fmt_float cls) = Ok ();
  cf_time : ∃ t, OCSF ev !! "time" = Some t ∧ time_ok t;
  cf_endpoints name ep : name ∈ ["src_endpoint"; "dst_endpoint"] →
    OCSF ev !! name = Some (VMap ep) → endpoint_ok ep;
  cf_severity v : OCSF ev !! "severity_id" = Some v → severity_ok v;
}.

Lemma mandatory_text_ok m k s :
  mandatory_text fmt_float m k = Ok s ↔
  ∃ v, present m k v ∧ TrimSpace (sprint_v fmt_float v) ≠ "" ∧ s = sprint_v fmt_float v.
Proof.
  unfold mandatory_text, present. split.
  - destruct (m !! k) as [v|]; [|done].
    destruct (String.eqb_spec (TrimSpace (sprint_v fmt_float v)) ""); destruct v; try done;
      intros [= <-]; eauto.
  - intros (v & [-> Hn] & Ht & ->).
    destruct (String.eqb_spec (TrimSpace (sprint_v fmt_float v)) ""); [done|]. by destruct v.
Qed.

Lemma validate_time_ok m : validate_time m = Ok () ↔ ∃ t, m !! "time" = Some t ∧ time_ok t.
Proof.
  unfold validate_time, time_ok. split.
  - destruct (m !! "time") as [v|]; [|done]. intros Hv. exists v. split; [done|].
    destruct v; try done; case_match; try done; lia.
  - intros (t & -> & Ht). destruct t; try done; case_match; try done; try lia; congruence.
Qed.

Lemma validate_severity_ok m :
  validate_severity m = Ok () ↔ ∀ v, m !! "severity_id" = Some v → severity_ok v.
Proof.
  unfold validate_severity, severity_ok. destruct (m !! "severity_id") as [v|]; [|naive_solver].
  split.
  - intros Hv ? [= <-]. destruct v; try done; case_match; try done; lia.
  - intros Hv. specialize (Hv v eq_refl). destruct v; try done; case_match; try done; lia.
Qed.

Lemma validateEndpoint_ok name ep : validateEndpoint fmt_float name ep = Ok () ↔ endpoint_ok ep.
Proof.
  unfold validateEndpoint. rewrite res_bind_ok. split.
  - intros ([] & Hi & Hp). split; intros v [Hv Hn].
    + unfold validate_ip in Hi. rewrite Hv in Hi. destruct v; try done.
      destruct (ParseIP s) eqn:E; [eauto|done].
    + unfold validate_port in Hp. rewrite Hv in Hp.
      destruct (port_number v) as [p|] eqn:E; [|by destruct v]. exists p. split; [done|].
      destruct v; try done; case_match; try done; lia.
  - intros [Hi Hp]. exists (). unfold validate_ip, validate_port, present in *. split.
    + destruct (ep !! "ip") as [v|]; [|done]. destruct (is_nil v) eqn:En; [by destruct v|].
      destruct (Hi v) as (s & ip & -> & ->); [split; [done|by intros ->]|]. done.
    + destruct (ep !! "port") as [v|]; [|done]. destruct (is_nil v) eqn:En; [by destruct v|].
      destruct (Hp v) as (p & -> & Hr); [split; [done|by intros ->]|].
      destruct ((p <? 0) || (65535 <? p)) eqn:E; [lia|]. by destruct v.
Qed.

Lemma endpoint_of_ok m name :
  endpoint_of fmt_float m name = Ok () ↔ ∀ ep, m !! name = Some (VMap ep) → endpoint_ok ep.
Proof.
  unfold endpoint_of. destruct (m !! name) as [[]|]; try naive_solver.
  rewrite validateEndpoint_ok. naive_solver.
Qed.

Lemma mandatory_text_no_panic m k : no_panic (mandatory_text fmt_float m k).
Proof. unfold mandatory_text. by repeat case_match. Qed.

Lemma endpoint_of_no_panic m name : no_panic (endpoint_of fmt_float m name).
Proof.
  unfold endpoint_of, validateEndpoint. destruct (m !! name) as [[]|]; try done.
  apply res_bind_no_panic; intros; [unfold validate_ip|unfold validate_port]; by repeat case_match.
Qed.
End conforms.

(** One check of a validator, whose success is characterised by [P]: the checks accept
    when it holds and the rest accepts. *)
Lemma step_spec {A B} (r : res B) (P : B → Prop) (cf : Prop) (k : B → res A) (Q : A → Prop) :
  (∀ b, r = Ok b ↔ P b) → no_panic r → (cf → ∃ b, P b) →
  (∀ b, P b → match k b with Ok a => Q a | Err _ => ¬ cf | Panic _ => False end) →
  match r ≫= k with Ok a => Q a | Err _ => ¬ cf | Panic _ => False end.
Proof.
  intros HP Hn Hcf Hk. destruct r as [b|e|p]; simpl; [by apply Hk, HP| |done].
  intros (b & Hb%HP)%Hcf. done.
Qed.

Lemma unit_spec (r : res unit) (P : Prop) : (r = Ok () ↔ P) → ∀ b, r = Ok b ↔ P.
Proof. by intros H []. Qed.

(** [Validate] accepts exactly the conforming events (mandatory identifiers, pinned
    schema and taxonomy, a positive time, endpoints with a parsable address and a
    port of 16 bits, a severity between 0 and 10), and adds nothing but its audit step. *)
Theorem Validate_spec (fmt_float : f64 → string) (plat : GoPlatform) (ev : NormalizedEvent) (now : time) :
  match Validate fmt_float ev now with
  | Ok ev' => conforms fmt_float ev ∧ OCSF ev' = OCSF ev
              ∧ EventID (Worm ev') = EventID (Worm ev) ∧ we_RawID (Worm ev') = we_RawID (Worm ev)
              ∧ ProcessingHistory (Worm ev') = ProcessingHistory (Worm ev) ++ [validate_step now]
  | Err _ => ¬ conforms fmt_float ev
  | Panic _ => False
  end.
Proof.
  unfold Validate.
  destruct (String.eqb_spec (EventID (Worm ev)) ""); [by intros [(?&?&?) _ _ _ _ _]|].
  destruct (String.eqb_spec (we_RawID (Worm ev)) ""); [by intros [(?&?&?) _ _ _ _ _]|].
  destruct (String.eqb_spec (we_RawSHA256 (Worm ev)) ""); [by intros [(?&?&?) _ _ _ _ _]|].
  destruct (String.eqb_spec (SchemaVersion (Worm ev)) Version); [|by intros [_ ? _ _ _ _]].
  cbn [negb].
  apply (step_spec _ _ _ _ _ (mandatory_text_ok _ _ "category_name") (mandatory_text_no_panic _ _ _)).
  { intros [_ _ (v & _ & Hv & _ & Ht & _) _ _ _]. eauto. }
  intros cat (vc & Hvc & Htc & ->).
  apply (step_spec _ _ _ _ _ (mandatory_text_ok _ _ "class_name") (mandatory_text_no_panic _ _ _)).
  { intros [_ _ (_ & v & _ & Hv & _ & Ht & _) _ _ _]. eauto. }
  intros cls (vl & Hvl & Htl & ->).
  apply (step_spec _ _ _ _ _ (unit_spec _ _ (reflexivity _))).
  { unfold ValidateTaxonomy. by repeat case_match. }
  { intros [_ _ (v & v' & [] & [] & _ & _ & Ht) _ _ _]. destruct Hvc, Hvl. exists (). congruence. }
  intros _ Ht. apply (step_spec _ _ _ _ _ (unit_spec _ _ (validate_time_ok _))).
  { unfold validate_time. by repeat case_match. } { intros []. by exists (). }
  intros _ Htm.
  apply (step_spec _ _ _ _ _ (unit_spec _ _ (endpoint_of_ok _ _ "src_endpoint")) (endpoint_of_no_panic _ _ _)).
  { intros [_ _ _ _ He _]. exists (). intros ep. apply He. by left. }
  intros _ Hs.
  apply (step_spec _ _ _ _ _ (unit_spec _ _ (endpoint_of_ok _ _ "dst_endpoint")) (endpoint_of_no_panic _ _ _)).
  { intros [_ _ _ _ He _]. exists (). intros ep. apply He. right. by left. }
  intros _ Hd. apply (step_spec _ _ _ _ _ (unit_spec _ _ (validate_severity_ok _))).
  { unfold validate_severity. by repeat case_match. } { intros []. by exists (). }
  intros _ Hsev. split; [|done]. split; [done..|by eauto 8|done| |done].
  intros name ep [->|[->|[]%elem_of_nil]%elem_of_cons]%elem_of_cons; auto.
Qed.

(** ** Concrete instances *)

Definition sample_raw : RawEvent := {|
  re_RawID := "raw-1"; re_Duplicate := false; re_RawSHA256 := "ab"; re_ByteCount := 6;
  re_Transport := "http"; re_SourceIP := "10.0.0.9"; re_SourcePort := 514; re_Metadata := no_metadata;
  re_ReceivedAt := 1790000000 * 10 ^ 9; re_Payload := "EdgeFW"; re_Status := StatusAccepted |}.

Definition sample_normalized : res NormalizedEvent * Normalizer :=
  Normalize (H := amd64) (H0 := forward_order) no_float_text no_layout 2026 NewNormalizer sample_raw
    sample_record sample_pack [] "abcd" 1.

Lemma Normalize_maps_witness :
  match sample_normalized with
  | (Ok ev, _) =>
      get_path (OCSF ev) ["src_endpoint"; "ip"] = Some (VStr "10.0.0.1")
      ∧ ∃ extracted unmapped,
          ExtractAndConvert (H := amd64) (H0 := forward_order) no_float_text no_layout 2026 sample_pack sample_record
            = Ok (extracted, unmapped, Warnings (Worm ev))
          ∧ (PreserveUnmapped (Spec sample_pack) = true → unmapped ≠ ∅ →
             OCSF ev !! "unmapped" = Some (VMap unmapped))
  | _ => False
  end.
Proof.
  destruct sample_normalized as [[ev|e|p] n'] eqn:E; [|vm_compute in E; discriminate E..].
  split; [vm_compute in E; injection E as <- <-; vm_compute; reflexivity|].
  destruct (Normalize_maps no_float_text no_layout 2026 amd64 forward_order NewNormalizer n' sample_raw
    sample_record sample_pack [] "abcd" 1 ev sample_pack_valid E) as (ex & un & H1 & _ & H3).
  exists ex, un. split; assumption.
Defined.

Lemma enrichTaxonomyDefaults_valid_witness :
  ∃ cat cls,
    mandatory_text no_float_text (enrichTaxonomyDefaults ∅ "iam") "category_name" = Ok cat
    ∧ mandatory_text no_float_text (enrichTaxonomyDefaults ∅ "iam") "class_name" = Ok cls
    ∧ ValidateTaxonomy "iam" cat cls = Ok ().
Proof.
  apply (enrichTaxonomyDefaults_valid no_float_text ∅ "iam"); [|reflexivity..].
  do 8 right. left.
Defined.

(** The positivity test of a floating-point time lets NaN through. *)
Lemma validate_time_nan : validate_time {[ "time" := VFloat S754_nan ]} = Ok ().
Proof. by vm_compute. Qed.
