(* ===== verification/World.v ===== *)
(** * The state of a running process: the SQLite tables, the environment and a state monad

    The tables are lists of rows in rowid order; a statement of the source is a
    function on them.  Every statement, [BEGIN] and [COMMIT] may fail: the [n]-th call
    to the database of a run fails when [fault n] holds, and then changes nothing.
    Since a stopped process makes no further change, a crash after [k] calls leaves the
    tables of the run in which every call from the [k]-th on fails. *)

From S2P Require Import Prelude GoStrings GoNum GoTime Model Normalize.
From S2P Require Export Monad.

(** ** Tables *)

(** [raw_events]: the columns of a [RawEvent]; [re_Duplicate] is not stored. *)
Abbreviation RawRow := RawEvent.

Record QuarRow := {
  q_id : string; q_raw_id : string; q_ordinal : Z; q_sha : string; q_stage : string;
  q_reason : string; q_error : error; q_preview : string; q_candidates : string;
  q_eligible : bool; q_at : time; q_replayed : option time;
}.

Record NormRow := {
  n_event_id : string; n_raw_id : string; n_ordinal : Z; n_category : string; n_source_id : string;
  n_severity : string; n_activity : string; n_message : string; n_time : Z; n_received : time;
  n_json : string; n_sha : string;
}.

Record OutRow := {
  o_id : Z; o_event_id : string; o_destination : string; o_payload : string; o_attempts : Z;
  o_next_retry : time; o_ack : option time; o_error : option error; o_status : string; o_created : time;
}.

Record Db := {
  raws : list RawRow; quars : list QuarRow; norms : list NormRow;
  outs : list OutRow; out_seq : Z    (* the AUTOINCREMENT counter of the outbox *)
}.

Definition empty_db : Db := {| raws := []; quars := []; norms := []; outs := []; out_seq := 0 |}.

Definition with_raws (db : Db) (r : list RawRow) : Db :=
  {| raws := r; quars := quars db; norms := norms db; outs := outs db; out_seq := out_seq db |}.
Definition with_quars (db : Db) (q : list QuarRow) : Db :=
  {| raws := raws db; quars := q; norms := norms db; outs := outs db; out_seq := out_seq db |}.
Definition with_norms (db : Db) (n : list NormRow) : Db :=
  {| raws := raws db; quars := quars db; norms := n; outs := outs db; out_seq := out_seq db |}.
Definition with_outs (db : Db) (o : list OutRow) (seq : Z) : Db :=
  {| raws := raws db; quars := quars db; norms := norms db; outs := o; out_seq := seq |}.

(** ** The environment: failures, randomness, the clock, and code outside the repository *)

Class Env := {
  fault : nat → bool;                              (* does the n-th database call fail? *)
  rand4 : nat → string;                            (* the n-th draw of 4 random bytes *)
  clock : nat → time;                              (* the n-th reading of the clock *)
  emit_fault : nat → option error;                 (* the n-th delivery to a sink *)
  sha256 : string → string;                        (* SHA-256, in hexadecimal *)
  Marshal : NormalizedEvent → res string;          (* json.Marshal of an event *)
  Unmarshal : string → option NormalizedEvent;     (* json.Unmarshal into an event *)
}.

(** The counters of [Pipeline]. *)
Record Counters := {
  accepted : Z; normalized : Z; quarantined : Z; pending : Z; delivered : Z }.

Record World := {
  w_db : Db;
  w_cnt : Counters;
  w_seq : Z;                                       (* RawStore.counter *)
  w_norm : Normalizer;                             (* Pipeline.normalizer *)
  w_emitted : list (string * NormalizedEvent);     (* deliveries to sinks, with their destination *)
  w_calls : nat; w_rands : nat; w_ticks : nat; w_emits : nat;
}.

Definition set_db (w : World) (db : Db) : World :=
  {| w_db := db; w_cnt := w_cnt w; w_seq := w_seq w; w_norm := w_norm w;
     w_emitted := w_emitted w;
     w_calls := w_calls w; w_rands := w_rands w; w_ticks := w_ticks w; w_emits := w_emits w |}.
Definition set_cnt (w : World) (c : Counters) : World :=
  {| w_db := w_db w; w_cnt := c; w_seq := w_seq w; w_norm := w_norm w;
     w_emitted := w_emitted w;
     w_calls := w_calls w; w_rands := w_rands w; w_ticks := w_ticks w; w_emits := w_emits w |}.

(** ** The monad *)

(** Programs over the world; see Monad.v. *)
Abbreviation M := (Prog World).

Section prims.
Context `{Env}.

Definition disk_error : error := errors_New "database call failed".

(** One call to the database: its count goes up, and it may fail. *)
Definition db_call {A} (f : Db → res A * Db) : M A := λ w,
  let w1 := {| w_db := w_db w; w_cnt := w_cnt w; w_seq := w_seq w; w_norm := w_norm w;
               w_emitted := w_emitted w;
               w_calls := S (w_calls w); w_rands := w_rands w; w_ticks := w_ticks w;
               w_emits := w_emits w |} in
  if fault (w_calls w) then (Err disk_error, w1)
  else match f (w_db w) with
       | (Ok a, db') => (Ok a, set_db w1 db')
       | (r, _) => (r, w1)
       end.

Definition query {A} (f : Db → res A) : M A := db_call (λ db, (f db, db)).
Definition exec (f : Db → res Db) : M unit :=
  db_call (λ db, match f db with
                 | Ok db' => (Ok (), db')
                 | Err e => (Err e, db)
                 | Panic p => (Panic p, db)
                 end).

(** [BeginTx], the statements, [Commit]; any failure rolls the tables back. *)
Definition transaction {A} (body : M A) : M A := λ w,
  match query (λ _, Ok ()) w with
  | (Ok _, w0) =>
      match body w0 with
      | (Ok a, w1) =>
          match query (λ _, Ok ()) w1 with
          | (Ok _, w2) => (Ok a, w2)
          | (Err e, w2) => (Err e, set_db w2 (w_db w))
          | (Panic p, w2) => (Panic p, set_db w2 (w_db w))
          end
      | (r, w1) => (r, set_db w1 (w_db w))
      end
  | (Err e, w0) => (Err e, w0)
  | (Panic p, w0) => (Panic p, w0)
  end.

Definition draw4 : M string := λ w,
  (Ok (rand4 (w_rands w)),
   {| w_db := w_db w; w_cnt := w_cnt w; w_seq := w_seq w; w_norm := w_norm w;
      w_emitted := w_emitted w; w_calls := w_calls w; w_rands := S (w_rands w);
      w_ticks := w_ticks w; w_emits := w_emits w |}).

(** [s.counter.Add(1)] *)
Definition next_seq : M Z := λ w,
  let n := (w_seq w + 1) mod 2 ^ 64 in
  (Ok n,
   {| w_db := w_db w; w_cnt := w_cnt w; w_seq := n; w_norm := w_norm w;
      w_emitted := w_emitted w; w_calls := w_calls w; w_rands := w_rands w;
      w_ticks := w_ticks w; w_emits := w_emits w |}).

(** A step of the normalizer, which owns its sequence number. *)
Definition normalizer_step {A} (f : Normalizer → res A * Normalizer) : M A := λ w,
  let '(r, n) := f (w_norm w) in
  (r,
   {| w_db := w_db w; w_cnt := w_cnt w; w_seq := w_seq w; w_norm := n;
      w_emitted := w_emitted w; w_calls := w_calls w; w_rands := w_rands w;
      w_ticks := w_ticks w; w_emits := w_emits w |}).

Definition Now : M time := λ w,
  (Ok (clock (w_ticks w)),
   {| w_db := w_db w; w_cnt := w_cnt w; w_seq := w_seq w; w_norm := w_norm w;
      w_emitted := w_emitted w; w_calls := w_calls w; w_rands := w_rands w;
      w_ticks := S (w_ticks w); w_emits := w_emits w |}).

(** Delivery to a destination, which may refuse the event. *)
Definition emit (dest : string) (ev : NormalizedEvent) : M unit := λ w,
  let w' log :=
    {| w_db := w_db w; w_cnt := w_cnt w; w_seq := w_seq w; w_norm := w_norm w;
       w_emitted := log; w_calls := w_calls w; w_rands := w_rands w;
       w_ticks := w_ticks w; w_emits := S (w_emits w) |} in
  match emit_fault (w_emits w) with
  | Some e => (Err e, w' (w_emitted w))
  | None => (Ok (), w' (w_emitted w ++ [(dest, ev)]))
  end.

(** The [atomic.Int64] counters. *)
Definition count_add (f : Counters → Counters) : M unit := λ w, (Ok (), set_cnt w (f (w_cnt w))).
End prims.

Definition add_accepted (d : Z) (c : Counters) : Counters :=
  {| accepted := accepted c + d; normalized := normalized c; quarantined := quarantined c;
     pending := pending c; delivered := delivered c |}.
Definition add_normalized (d : Z) (c : Counters) : Counters :=
  {| accepted := accepted c; normalized := normalized c + d; quarantined := quarantined c;
     pending := pending c; delivered := delivered c |}.
Definition add_quarantined (d : Z) (c : Counters) : Counters :=
  {| accepted := accepted c; normalized := normalized c; quarantined := quarantined c + d;
     pending := pending c; delivered := delivered c |}.
Definition add_pending (d : Z) (c : Counters) : Counters :=
  {| accepted := accepted c; normalized := normalized c; quarantined := quarantined c;
     pending := pending c + d; delivered := delivered c |}.
Definition add_delivered (d : Z) (c : Counters) : Counters :=
  {| accepted := accepted c; normalized := normalized c; quarantined := quarantined c;
     pending := pending c; delivered := delivered c + d |}.

(** ** SQL clauses on lists of rows *)

(** [UPDATE ... SET f WHERE p], [DELETE ... WHERE p] *)
Definition update_where {A} (p : A → bool) (f : A → A) (l : list A) : list A :=
  map (λ x, if p x then f x else x) l.
Definition delete_where {A} (p : A → bool) (l : list A) : list A := List.filter (λ x, negb (p x)) l.

(** [LIMIT limit OFFSET offset]: a negative limit is no limit, a negative offset is 0. *)
Definition page {A} (limit offset : Z) (l : list A) : list A :=
  let l' := drop (Z.to_nat offset) l in
  if limit <? 0 then l' else take (Z.to_nat limit) l'.

(** [expr LIKE pattern]: [%] and [_] are wildcards, ASCII letters match either case. *)
Definition fold_case (r : Z) : Z := if (65 <=? r) && (r <=? 90) then r + 32 else r.
Fixpoint like (p : list Z) : list Z → bool :=
  match p with
  | [] => λ s, match s with [] => true | _ => false end
  | c :: p' =>
      if c =? 37 then
        fix go (s : list Z) : bool := like p' s || match s with [] => false | _ :: s' => go s' end
      else λ s, match s with
                | [] => false
                | d :: s' => ((c =? 95) || (fold_case c =? fold_case d)) && like p' s'
                end
  end.
Definition LIKE (text pattern : string) : bool := like (fst <$> runes pattern) (fst <$> runes text).

Example like_ex :
  LIKE "Denied by EdgeFW" "%edge%" = true ∧ LIKE "abc" "%b_" = true ∧ LIKE "abc" "%bc_" = false.
Proof. by vm_compute. Qed.

Lemma page_sublist {A} limit offset (l : list A) : page limit offset l `sublist_of` l.
Proof.
  unfold page. destruct (limit <? 0); [apply sublist_drop|].
  transitivity (drop (Z.to_nat offset) l); [apply sublist_take|apply sublist_drop].
Qed.

Lemma page_elem {A} limit offset (l : list A) x : x ∈ page limit offset l → x ∈ l.
Proof. intros Hx. eapply elem_of_submseteq; [exact Hx|]. apply sublist_submseteq, page_sublist. Qed.

Lemma page_NoDup {A B} (f : A → B) limit offset (l : list A) : NoDup (f <$> l) → NoDup (f <$> page limit offset l).
Proof. intros Hl. eapply sublist_NoDup; [exact Hl|]. apply fmap_sublist, page_sublist. Qed.

(** * Rules for the programs over the world *)

#[local] Open Scope monad_scope.

(** ** The primitives *)

(** The parts of the world that database calls and the clock do not touch. *)
Record same_rest (w w' : World) : Prop := {
  sr_cnt : w_cnt w' = w_cnt w; sr_norm : w_norm w' = w_norm w; sr_emitted : w_emitted w' = w_emitted w;
  sr_seq : w_seq w' = w_seq w; sr_rands : w_rands w' = w_rands w; sr_emits : w_emits w' = w_emits w }.

#[export] Instance same_rest_preorder : PreOrder same_rest.
Proof. split; [by split|]. intros x y z [] []. split; congruence. Qed.

Section prims.
Context `{Env}.

(** A database call either fails without a change, or gives what its function gives. *)
Lemma wp_db_call {A} (f : Db → res A * Db) Q w :
  (∀ e w', same_rest w w' → w_db w' = w_db w → Q (Err e) w') →
  (∀ w', same_rest w w' →
     match f (w_db w) with
     | (Ok a, db') => w_db w' = db' → Q (Ok a) w'
     | (Err e, _) => True
     | (Panic p, _) => w_db w' = w_db w → Q (Panic p) w'
     end) →
  wp (db_call f) Q w.
Proof.
  intros He Hok. unfold wp, db_call. destruct (fault (w_calls w)); [by apply He|].
  destruct (f (w_db w)) as [[a|e|p] db'] eqn:E; [|by apply He|].
  - specialize (Hok (set_db {| w_db := w_db w; w_cnt := w_cnt w; w_seq := w_seq w; w_norm := w_norm w;
               w_emitted := w_emitted w; w_calls := S (w_calls w); w_rands := w_rands w; w_ticks := w_ticks w;
               w_emits := w_emits w |} db')). by apply Hok.
  - specialize (Hok {| w_db := w_db w; w_cnt := w_cnt w; w_seq := w_seq w; w_norm := w_norm w;
               w_emitted := w_emitted w; w_calls := S (w_calls w); w_rands := w_rands w; w_ticks := w_ticks w;
               w_emits := w_emits w |}). by apply Hok.
Qed.

Lemma wp_query {A} (f : Db → res A) Q w :
  (∀ e w', same_rest w w' → w_db w' = w_db w → Q (Err e) w') →
  (∀ w', same_rest w w' → w_db w' = w_db w →
     match f (w_db w) with Err _ => True | r => Q r w' end) →
  wp (query f) Q w.
Proof.
  intros He Hok. unfold query. apply wp_db_call; [done|]. intros w' Hs.
  specialize (Hok w' Hs). destruct (f (w_db w)); auto.
Qed.

Lemma wp_exec (f : Db → res Db) Q w :
  (∀ e w', same_rest w w' → w_db w' = w_db w → Q (Err e) w') →
  (∀ w', same_rest w w' →
     match f (w_db w) with
     | Ok db' => w_db w' = db' → Q (Ok ()) w'
     | Err e => True
     | Panic p => w_db w' = w_db w → Q (Panic p) w'
     end) →
  wp (exec f) Q w.
Proof.
  intros He Hok. unfold exec. apply wp_db_call; [done|]. intros w' Hs.
  specialize (Hok w' Hs). destruct (f (w_db w)); auto.
Qed.

(** A transaction commits what its body did, or leaves the tables as they were. *)
Lemma wp_transaction {A} (body : M A) (Q : res A → World → Prop) w :
  (∀ e w', same_rest w w' → w_db w' = w_db w → Q (Err e) w') →
  (∀ w0, same_rest w w0 → w_db w0 = w_db w →
     wp body (λ r w1,
       match r with
       | Ok a => (∀ w2, same_rest w1 w2 → w_db w2 = w_db w1 → Q (Ok a) w2)
                 ∧ (∀ e w2, same_rest w1 w2 → w_db w2 = w_db w → Q (Err e) w2)
       | r => Q r (set_db w1 (w_db w))
       end) w0) →
  wp (transaction body) Q w.
Proof.
  intros He Hb. unfold wp, transaction.
  assert (wp (query (λ _ : Db, Ok ())) (λ r w', same_rest w w' ∧ w_db w' = w_db w ∧ ∀ p, r ≠ Panic p) w) as H1
    by (apply wp_query; done).
  unfold wp in H1. destruct (query _ w) as [[[]|e|p] w0]; destruct H1 as (Hs & Hd & Hp);
    [|by apply He|by destruct (Hp p)].
  specialize (Hb w0 Hs Hd). unfold wp in Hb. destruct (body w0) as [[a|e|p] w1]; [|done..].
  destruct Hb as [Hok Herr].
  assert (wp (query (λ _ : Db, Ok ())) (λ r w', same_rest w1 w' ∧ w_db w' = w_db w1 ∧ ∀ p, r ≠ Panic p) w1) as H2
    by (apply wp_query; done).
  unfold wp in H2. destruct (query _ w1) as [[[]|e|p] w2]; destruct H2 as (Hs2 & Hd2 & Hp2);
    [by apply Hok| |by destruct (Hp2 p)].
  apply Herr; [|done]. destruct Hs2. by split.
Qed.

Lemma wp_Now Q w : (∀ t w', same_rest w w' → w_db w' = w_db w → Q (Ok t) w') → wp Now Q w.
Proof. intros H1. by apply H1. Qed.

Lemma wp_draw4 (Q : res string → World → Prop) w :
  (∀ w', w_db w' = w_db w → w_cnt w' = w_cnt w → w_emitted w' = w_emitted w → w_norm w' = w_norm w →
         w_rands w' = S (w_rands w) → Q (Ok (rand4 (w_rands w))) w') → wp draw4 Q w.
Proof. intros H1. by apply H1. Qed.
End prims.
