(* ===== verification/RawStore.v ===== *)
(** * [internal/rawstore/store.go]: the durable store of raw, quarantined and normalized records

    Each method is a program of the monad of [World].  Columns that hold an encoding
    (metadata as JSON, instants as RFC 3339 text) hold the encoded value here; where
    the text matters, for ordering, it is computed. *)

From S2P Require Import Prelude GoStrings GoNum GoTime Model Normalize World.

#[local] Open Scope monad_scope.

Section rawstore.
Context (fmt_float : f64 → string) `{GoPlatform} `{Env}.

(** The [NOT FOUND] of [QueryRow(...).Scan]: [sql.ErrNoRows]. *)
Definition query_row {A} (f : Db → option A) : M (option A) := query (λ db, Ok (f db)).

(** ** Raw records *)

Definition same_spool (fileID : string) (offset : Z) (r : RawRow) : bool :=
  (FileID (re_Metadata r) =s fileID) && (FileOffset (re_Metadata r) =? offset).

Definition as_duplicate (e : RawEvent) : RawEvent :=
  {| re_RawID := re_RawID e; re_Duplicate := true; re_RawSHA256 := re_RawSHA256 e;
     re_ByteCount := re_ByteCount e; re_Transport := re_Transport e; re_SourceIP := re_SourceIP e;
     re_SourcePort := re_SourcePort e; re_Metadata := re_Metadata e; re_ReceivedAt := re_ReceivedAt e;
     re_Payload := re_Payload e; re_Status := re_Status e |}.

Definition by_raw_id (rawID : string) (r : RawRow) : bool := re_RawID r =s rawID.

Definition Retrieve (rawID : string) : M RawEvent :=
  r <- try (query_row (λ db, List.find (by_raw_id rawID) (raws db))) ;;
  match r with
  | Ok (Some row) => ret row
  | Ok None => fail (Errorf "raw event not found: %s" [AStr rawID])
  | Err e => fail (Errorf "failed to retrieve raw event %s: %w" [AStr rawID; AErr e])
  | Panic p => mcall (Panic p)
  end.

(** The raw row that an already committed spool position has. *)
Definition spool_replay (rec : IngestedRecord) (shaHex : string) : M (option RawEvent) :=
  let md := ir_Metadata rec in
  if (ir_Transport rec =s "file") && (FileID md <>s "") then
    r <- try (query_row (λ db, List.find (same_spool (FileID md) (FileOffset md)) (raws db))) ;;
    match r with
    | Ok (Some row) =>
        if re_RawSHA256 row <>s shaHex
        then fail (Errorf "file spool identity %s at offset %d was already committed with different bytes"
                     [AStr (FileID md); AInt (FileOffset md)])
        else event <- Retrieve (re_RawID row) ;; ret (Some (as_duplicate event))
    | Ok None => ret None
    | Err e => fail (Errorf "check file spool replay identity: %w" [AErr e])
    | Panic p => mcall (Panic p)
    end
  else ret None.

Definition insert_raw (event : RawEvent) : Db → res Db := λ db,
  if existsb (by_raw_id (re_RawID event)) (raws db)
  then Err (errors_New "UNIQUE constraint failed: raw_events.raw_id")
  else Ok (with_raws db (raws db ++ [event])).

Definition new_raw (rec : IngestedRecord) (receivedAt : time) (shaHex : string) (seq : Z) (r4 : string)
    : RawEvent :=
  {| re_RawID := "worm-raw-" +:+ Format_date receivedAt +:+ "-" +:+ pad 6 seq +:+ "-" +:+ hex_EncodeToString r4;
     re_Duplicate := false; re_RawSHA256 := shaHex; re_ByteCount := slen (ir_RawBytes rec);
     re_Transport := ir_Transport rec; re_SourceIP := ir_SourceIP rec; re_SourcePort := ir_SourcePort rec;
     re_Metadata := ir_Metadata rec; re_ReceivedAt := receivedAt; re_Payload := ir_RawBytes rec;
     re_Status := StatusAccepted |}.

Definition Store (rec : IngestedRecord) : M RawEvent :=
  receivedAt <- (if IsZero (ir_ReceivedAt rec) then Now else ret (ir_ReceivedAt rec)) ;;
  let shaHex := sha256 (ir_RawBytes rec) in
  replay <- spool_replay rec shaHex ;;
  match replay with
  | Some event => ret event
  | None =>
      seq <- next_seq ;;
      r4 <- draw4 ;;
      let event := new_raw rec receivedAt shaHex seq r4 in
      r <- try (exec (insert_raw event)) ;;
      match r with
      | Ok _ => ret event
      | Err e => fail (Errorf "failed to persist raw record %s: %w" [AStr (re_RawID event); AErr e])
      | Panic p => mcall (Panic p)
      end
  end.

(** [(matches, computedHex)] *)
Definition Verify (rawID : string) : M (bool * string) :=
  evt <- Retrieve rawID ;;
  let computedHex := sha256 (re_Payload evt) in
  ret (computedHex =s re_RawSHA256 evt, computedHex).

Definition set_status (status : RawStatus) (r : RawRow) : RawRow :=
  {| re_RawID := re_RawID r; re_Duplicate := re_Duplicate r; re_RawSHA256 := re_RawSHA256 r;
     re_ByteCount := re_ByteCount r; re_Transport := re_Transport r; re_SourceIP := re_SourceIP r;
     re_SourcePort := re_SourcePort r; re_Metadata := re_Metadata r; re_ReceivedAt := re_ReceivedAt r;
     re_Payload := re_Payload r; re_Status := status |}.

Definition update_status (rawID : string) (status : RawStatus) (db : Db) : Db :=
  with_raws db (update_where (by_raw_id rawID) (set_status status) (raws db)).

Definition UpdateStatus (rawID : string) (status : RawStatus) : M unit :=
  n <- db_call (λ db, (Ok (count (by_raw_id rawID) (raws db)), update_status rawID status db)) ;;
  if n =? 0 then fail (Errorf "raw event not found for status update: %s" [AStr rawID]) else ret ().

(** ** Quarantine *)

Definition row_of_entry (e : QuarantineEntry) : QuarRow :=
  {| q_id := qe_QuarantineID e; q_raw_id := qe_RawID e; q_ordinal := qe_RecordOrdinal e;
     q_sha := qe_RawSHA256 e; q_stage := qe_Stage e; q_reason := qe_Reason e;
     q_error := qe_ErrorDetails e; q_preview := qe_RawPreview e;
     q_candidates := Join (qe_CandidatePacks e) ","; q_eligible := qe_ReplayEligible e;
     q_at := qe_QuarantinedAt e; q_replayed := None |}.

Definition entry_of_row (q : QuarRow) : QuarantineEntry :=
  {| qe_QuarantineID := q_id q; qe_RawID := q_raw_id q; qe_RecordOrdinal := q_ordinal q;
     qe_RawSHA256 := q_sha q; qe_Stage := q_stage q; qe_Reason := q_reason q;
     qe_ErrorDetails := q_error q; qe_RawPreview := q_preview q;
     qe_CandidatePacks := if q_candidates q <>s "" then Split (q_candidates q) "," else [];
     qe_ReplayEligible := q_eligible q; qe_QuarantinedAt := q_at q; qe_ReplayedAt := q_replayed q |}.

(** The unique key of [idx_quarantine_child]. *)
Definition child_key (q : QuarRow) : string * Z * string * string :=
  (q_raw_id q, q_ordinal q, q_stage q, q_reason q).
Definition same_child (q q' : QuarRow) : bool := bool_decide (child_key q = child_key q').

(** [DO UPDATE SET] of the upsert. *)
Definition requarantine (new old : QuarRow) : QuarRow :=
  {| q_id := q_id old; q_raw_id := q_raw_id old; q_ordinal := q_ordinal old; q_sha := q_sha old;
     q_stage := q_stage old; q_reason := q_reason old; q_error := q_error new;
     q_preview := q_preview new; q_candidates := q_candidates new; q_eligible := q_eligible new;
     q_at := q_at old; q_replayed := q_replayed old |}.

Definition upsert_quarantine (row : QuarRow) : Db → res Db := λ db,
  if negb (existsb (by_raw_id (q_raw_id row)) (raws db)) then
    Err (errors_New "FOREIGN KEY constraint failed")
  else if existsb (same_child row) (quars db) then
    Ok (with_quars db (update_where (same_child row) (requarantine row) (quars db)))
  else if existsb (λ q, q_id q =s q_id row) (quars db) then
    Err (errors_New "UNIQUE constraint failed: quarantine.quarantine_id")
  else Ok (with_quars db (quars db ++ [row])).

Definition with_quarantine_id (e : QuarantineEntry) (id : string) (at_ : time) : QuarantineEntry :=
  {| qe_QuarantineID := id; qe_RawID := qe_RawID e; qe_RecordOrdinal := qe_RecordOrdinal e;
     qe_RawSHA256 := qe_RawSHA256 e; qe_Stage := qe_Stage e; qe_Reason := qe_Reason e;
     qe_ErrorDetails := qe_ErrorDetails e; qe_RawPreview := qe_RawPreview e;
     qe_CandidatePacks := qe_CandidatePacks e; qe_ReplayEligible := qe_ReplayEligible e;
     qe_QuarantinedAt := at_; qe_ReplayedAt := qe_ReplayedAt e |}.

Definition quarantine (entry : QuarantineEntry) (finalize : bool) : M unit :=
  id <- (if qe_QuarantineID entry =s "" then
           r4 <- draw4 ;; now <- Now ;;
           ret ("worm-quar-" +:+ Format_date now +:+ "-" +:+ hex_EncodeToString r4)
         else ret (qe_QuarantineID entry)) ;;
  at_ <- (if IsZero (qe_QuarantinedAt entry) then Now else ret (qe_QuarantinedAt entry)) ;;
  let entry := with_quarantine_id entry id at_ in
  transaction
    (exec (upsert_quarantine (row_of_entry entry)) ;;;
     (if finalize then exec (λ db, Ok (update_status (qe_RawID entry) StatusQuarantined db)) else ret ())).

Definition Quarantine (entry : QuarantineEntry) : M unit := quarantine entry true.
Definition QuarantineChild (entry : QuarantineEntry) : M unit := quarantine entry false.

(** [ORDER BY quarantined_at]: the order of the stored text. *)
Definition text_le (a b : string) : bool :=
  match String.compare a b with Gt => false | _ => true end.
Definition newest_first (a b : QuarRow) : bool :=
  text_le (Format_RFC3339Nano (q_at b)) (Format_RFC3339Nano (q_at a)).
Definition oldest_first (a b : QuarRow) : bool := newest_first b a.

Definition GetQuarantined (limit offset : Z) : M (list QuarantineEntry) :=
  query (λ db, Ok (map entry_of_row (page limit offset (order_by newest_first (quars db))))).

Definition ListQuarantinePaged (limit offset : Z) : M (list QuarantineEntry * Z) :=
  let limit := if limit <=? 0 then 50 else limit in
  let offset := if offset <? 0 then 0 else offset in
  total <- query (λ db, Ok (Z.of_nat (length (quars db)))) ;;
  entries <- GetQuarantined limit offset ;;
  ret (entries, total).

Definition GetQuarantineByID (qID : string) : M QuarantineEntry :=
  r <- try (query_row (λ db, List.find (λ q, q_id q =s qID) (quars db))) ;;
  match r with
  | Ok (Some q) => ret (entry_of_row q)
  | Ok None => fail (Errorf "quarantine entry not found: %s" [AStr qID])
  | Err e => fail (Errorf "failed to query quarantine entry %s: %w" [AStr qID; AErr e])
  | Panic p => mcall (Panic p)
  end.

Definition set_replayed (at_ : time) (q : QuarRow) : QuarRow :=
  {| q_id := q_id q; q_raw_id := q_raw_id q; q_ordinal := q_ordinal q; q_sha := q_sha q;
     q_stage := q_stage q; q_reason := q_reason q; q_error := q_error q; q_preview := q_preview q;
     q_candidates := q_candidates q; q_eligible := q_eligible q; q_at := q_at q;
     q_replayed := Some at_ |}.

Definition MarkReplayed (qID : string) : M unit :=
  now <- Now ;;
  n <- db_call (λ db, (Ok (count (λ q, q_id q =s qID) (quars db)),
                       with_quars db (update_where (λ q, q_id q =s qID) (set_replayed now) (quars db)))) ;;
  if n =? 0 then fail (Errorf "quarantine entry not found for replay update: %s" [AStr qID]) else ret ().

Definition GetReplayPendingIDs (includeAlreadyReplayed : bool) : M (list string) :=
  query (λ db, Ok (map q_id (order_by oldest_first
    (List.filter (λ q, q_eligible q && (includeAlreadyReplayed || match q_replayed q with None => true | _ => false end))
       (quars db))))).

Definition DeleteQuarantine (qID : string) : M unit :=
  exec (λ db, Ok (with_quars db (delete_where (λ q, q_id q =s qID) (quars db)))).

(** ** Counts *)

Definition CountRaw : M Z := query (λ db, Ok (Z.of_nat (length (raws db)))).
Definition CountNormalized : M Z := query (λ db, Ok (Z.of_nat (length (norms db)))).
Definition CountQuarantine : M Z := query (λ db, Ok (Z.of_nat (length (quars db)))).

Definition RawStatus_eqb (a b : RawStatus) : bool := bool_decide (a = b).
Definition CountRawStatus (status : RawStatus) : M Z :=
  query (λ db, Ok (count (λ r, RawStatus_eqb (re_Status r) status) (raws db))).

Definition norm_of (rawID : string) (n : NormRow) : bool := n_raw_id n =s rawID.
Definition quar_of (rawID : string) (q : QuarRow) : bool := q_raw_id q =s rawID.
Definition norm_child (rawID : string) (ordinal : Z) (n : NormRow) : bool :=
  (n_raw_id n =s rawID) && (n_ordinal n =? ordinal).
Definition quar_child (rawID : string) (ordinal : Z) (q : QuarRow) : bool :=
  (q_raw_id q =s rawID) && (q_ordinal q =? ordinal).

Definition outcome_counts (db : Db) (rawID : string) : Z * Z :=
  (count (norm_of rawID) (norms db), count (quar_of rawID) (quars db)).

Definition ChildOutcomeCounts (rawID : string) : M (Z * Z) := query (λ db, Ok (outcome_counts db rawID)).
Definition CountCompletedChildren (rawID : string) : M Z :=
  query (λ db, let '(n, q) := outcome_counts db rawID in Ok (n + q)).
Definition HasCompletedChild (rawID : string) (ordinal : Z) : M bool :=
  query (λ db, Ok (0 <? count (norm_child rawID ordinal) (norms db)
                        + count (quar_child rawID ordinal) (quars db))).

Definition received_le (a b : RawRow) : bool :=
  text_le (Format_RFC3339Nano (re_ReceivedAt a)) (Format_RFC3339Nano (re_ReceivedAt b)).

Fixpoint retrieve_all (ids : list string) : M (list RawEvent) :=
  match ids with
  | [] => ret []
  | id :: ids' => e <- Retrieve id ;; out <- retrieve_all ids' ;; ret (e :: out)
  end.

Definition ListRawByStatus (status : RawStatus) : M (list RawEvent) :=
  ids <- query (λ db, Ok (map re_RawID (order_by received_le
           (List.filter (λ r, RawStatus_eqb (re_Status r) status) (raws db))))) ;;
  retrieve_all ids.

(** ** Normalized events *)

Definition with_event_id (ev : NormalizedEvent) (id : string) : NormalizedEvent :=
  let w := Worm ev in
  {| Worm := {|
       EventID := id; we_RawID := we_RawID w; we_RawSHA256 := we_RawSHA256 w;
       we_RawBytes := we_RawBytes w; we_RecordOrdinal := we_RecordOrdinal w;
       SourceCategory := SourceCategory w; SourceID := SourceID w; we_ParserPack := we_ParserPack w;
       ParserVersion := ParserVersion w; CoreVersion := CoreVersion w; SchemaVersion := SchemaVersion w;
       ReceivedTime := ReceivedTime w; we_Status := we_Status w; Warnings := Warnings w;
       ProcessingHistory := ProcessingHistory w |};
     OCSF := OCSF ev |}.

Definition event_time (ev : NormalizedEvent) : Z :=
  match OCSF ev !! "time" with
  | Some (VInt64 v) | Some (VInt v) => v
  | Some (VFloat v) => int64_of_f64 v
  | _ => UnixMilli (ReceivedTime (Worm ev))
  end.

Definition text_of (ev : NormalizedEvent) (k : string) : string :=
  match OCSF ev !! k with Some (VStr s) => s | _ => "" end.

Definition severity_of (ev : NormalizedEvent) : string :=
  match OCSF ev !! "severity_id" with
  | None | Some VNil => ""
  | Some v => sprint_v fmt_float v
  end.

Definition norm_row (ev : NormalizedEvent) (data : string) : NormRow :=
  {| n_event_id := EventID (Worm ev); n_raw_id := we_RawID (Worm ev); n_ordinal := we_RecordOrdinal (Worm ev);
     n_category := SourceCategory (Worm ev); n_source_id := SourceID (Worm ev);
     n_severity := severity_of ev; n_activity := text_of ev "activity_name"; n_message := text_of ev "message";
     n_time := event_time ev; n_received := ReceivedTime (Worm ev); n_json := data; n_sha := sha256 data |}.

(** [ON CONFLICT(event_id) DO UPDATE SET ...]: the raw id and the ordinal stay. *)
Definition renormalize (new old : NormRow) : NormRow :=
  {| n_event_id := n_event_id old; n_raw_id := n_raw_id old; n_ordinal := n_ordinal old;
     n_category := n_category new; n_source_id := n_source_id new; n_severity := n_severity new;
     n_activity := n_activity new; n_message := n_message new; n_time := n_time new;
     n_received := n_received new; n_json := n_json new; n_sha := n_sha new |}.

Definition by_event_id (id : string) (n : NormRow) : bool := n_event_id n =s id.

Definition upsert_norm (row : NormRow) : Db → res Db := λ db,
  if negb (existsb (by_raw_id (n_raw_id row)) (raws db)) then
    Err (errors_New "FOREIGN KEY constraint failed")
  else if existsb (by_event_id (n_event_id row)) (norms db) then
    Ok (with_norms db (update_where (by_event_id (n_event_id row)) (renormalize row) (norms db)))
  else Ok (with_norms db (norms db ++ [row])).

Definition same_delivery (eventID dest : string) (o : OutRow) : bool :=
  (o_event_id o =s eventID) && (o_destination o =s dest).

Definition set_payload (data : string) (o : OutRow) : OutRow :=
  if o_status o <>s "delivered" then
    {| o_id := o_id o; o_event_id := o_event_id o; o_destination := o_destination o; o_payload := data;
       o_attempts := o_attempts o; o_next_retry := o_next_retry o; o_ack := o_ack o; o_error := o_error o;
       o_status := o_status o; o_created := o_created o |}
  else o.

Definition new_delivery (id : Z) (eventID dest data : string) (now : time) : OutRow :=
  {| o_id := id; o_event_id := eventID; o_destination := dest; o_payload := data; o_attempts := 0;
     o_next_retry := now; o_ack := None; o_error := None; o_status := "pending"; o_created := now |}.

Definition upsert_delivery (eventID dest data : string) (now : time) : Db → res Db := λ db,
  if existsb (same_delivery eventID dest) (outs db) then
    Ok (with_outs db (update_where (same_delivery eventID dest) (set_payload data) (outs db)) (out_seq db))
  else Ok (with_outs db (outs db ++ [new_delivery (out_seq db + 1) eventID dest data now]) (out_seq db + 1)).

Fixpoint enqueue_all (eventID data : string) (now : time) (destinations : list string) : M unit :=
  match destinations with
  | [] => ret ()
  | dest :: rest => exec (upsert_delivery eventID dest data now) ;;; enqueue_all eventID data now rest
  end.

(** The event is returned: its identifier is the one the child already has, if any. *)
Definition storeNormalizedTx (event : NormalizedEvent) (destinations : list string) : M NormalizedEvent :=
  m <- try (mcall (Marshal event)) ;;
  match m with
  | Err err => fail (Errorf "marshal normalized event: %w" [AErr err])
  | Panic p => mcall (Panic p)
  | Ok data0 =>
      found <- try (query_row (λ db, List.find (norm_child (we_RawID (Worm event)) (we_RecordOrdinal (Worm event)))
                                       (norms db))) ;;
      let event' := match found with
                    | Ok (Some row) => if n_event_id row <>s "" then with_event_id event (n_event_id row) else event
                    | _ => event
                    end in
      let data := match found with
                  | Ok (Some row) => if n_event_id row <>s "" then match Marshal event' with Ok d => d | _ => "" end
                                     else data0
                  | _ => data0
                  end in
      exec (upsert_norm (norm_row event' data)) ;;;
      now <- Now ;;
      enqueue_all (EventID (Worm event')) data now destinations ;;;
      ret event'
  end.

Definition StoreNormalizedWithOutbox (event : NormalizedEvent) (destinations : list string) : M NormalizedEvent :=
  transaction (storeNormalizedTx event destinations).
Definition StoreNormalized (event : NormalizedEvent) : M NormalizedEvent := StoreNormalizedWithOutbox event [].

Definition DeleteNormalizedChild (rawID : string) (ordinal : Z) : M unit :=
  exec (λ db, Ok (with_norms db (delete_where (norm_child rawID ordinal) (norms db)))).

(** The status of a parent, from the numbers of its outcomes. *)
Definition derived_status (nq : Z * Z) : RawStatus :=
  if (nq.1 =? 0) && (0 <? nq.2) then StatusQuarantined
  else if 0 <? nq.2 then StatusPartial
  else StatusNormalized.

Definition resolves (qID rawID : string) (ordinal : Z) (q : QuarRow) : bool :=
  (q_id q =s qID) && (q_raw_id q =s rawID) && (q_ordinal q =? ordinal).

Definition ResolveQuarantineWithOutbox (qID : string) (event : NormalizedEvent) (destinations : list string)
    : M NormalizedEvent :=
  transaction
    (event' <- storeNormalizedTx event destinations ;;
     let rawID := we_RawID (Worm event') in
     let ordinal := we_RecordOrdinal (Worm event') in
     n <- db_call (λ db, (Ok (count (resolves qID rawID ordinal) (quars db)),
                          with_quars db (delete_where (resolves qID rawID ordinal) (quars db)))) ;;
     if negb (n =? 1) then fail (Errorf "quarantine entry %s was not resolved" [AStr qID])
     else
       nq <- ChildOutcomeCounts rawID ;;
       exec (λ db, Ok (update_status rawID (derived_status nq) db)) ;;;
       ret event').

(** ** Listing and verification *)

Definition matches_filter (category severity search : string) (n : NormRow) : bool :=
  ((category =s "") || (category =s "all") || (n_category n =s category))
  && ((severity =s "") || (severity =s "all") || (n_severity n =s severity))
  && ((search =s "")
      || (LIKE (n_message n) ("%" +:+ search +:+ "%") || LIKE (n_source_id n) ("%" +:+ search +:+ "%")
          || LIKE (n_event_id n) ("%" +:+ search +:+ "%"))).

Definition ListNormalized (category severity search : string) (limit offset : Z)
    : M (list NormalizedEvent * Z) :=
  let limit := if limit <=? 0 then 50 else limit in
  let offset := if offset <? 0 then 0 else offset in
  let selected db := List.filter (matches_filter category severity search) (norms db) in
  total <- query (λ db, Ok (Z.of_nat (length (selected db)))) ;;
  rows <- query (λ db, Ok (page limit offset (order_by (λ a b, n_time b <=? n_time a) (selected db)))) ;;
  ret (omap (λ n, Unmarshal (n_json n)) rows, total).

Definition GetNormalizedByID (eventID : string) : M NormalizedEvent :=
  r <- try (query_row (λ db, List.find (by_event_id eventID) (norms db))) ;;
  match r with
  | Ok (Some row) => mcall (of_option (errors_New "failed to unmarshal event json") (Unmarshal (n_json row)))
  | Ok None => fail (Errorf "event not found: %s" [AStr eventID])
  | Err e => fail (Errorf "failed to query event %s: %w" [AStr eventID; AErr e])
  | Panic p => mcall (Panic p)
  end.

(** [json_each(json_extract(event_json, '$.ocsf.unmapped'))] has a row; the column is written by
    [storeNormalizedTx] only, and the attribute by [Normalize], as an object. *)
Definition has_unmapped (n : NormRow) : bool :=
  match Unmarshal (n_json n) with
  | Some ev => match OCSF ev !! "unmapped" with Some (VMap m) => negb (bool_decide (m = ∅)) | _ => false end
  | None => false
  end.
Definition CountUnmapped : M Z := query (λ db, Ok (count has_unmapped (norms db))).

Record SourceCount := { sc_category : string; sc_source_id : string; sc_events : Z; sc_last_seen : string }.

(** [GROUP BY source_category, source_id]: the groups in the order of their columns. *)
Definition source_key (n : NormRow) : string * string := (n_category n, n_source_id n).
Definition key_le (a b : string * string) : bool := if a.1 =s b.1 then str_le a.2 b.2 else str_le a.1 b.1.
(** [MAX(received_time)] compares the texts. *)
Definition text_max (a b : string) : string := if str_le a b then b else a.
Definition source_group (l : list NormRow) (k : string * string) : SourceCount :=
  let rows := List.filter (λ n, bool_decide (source_key n = k)) l in
  {| sc_category := k.1; sc_source_id := k.2; sc_events := Z.of_nat (length rows);
     sc_last_seen := foldr text_max "" (Format_RFC3339Nano ∘ n_received <$> rows) |}.
Definition sources_of (l : list NormRow) : list SourceCount :=
  order_by (λ a b, sc_events b <=? sc_events a) (source_group l <$> order_by key_le (remove_dups (source_key <$> l))).
Definition ListSources : M (list SourceCount) := query (λ db, Ok (sources_of (norms db))).

Definition Ping : M unit := query (λ _, Ok ()).

(** The reasons are kept apart; the code joins their texts with a semicolon. *)
Record VerificationReport := {
  vr_EventID : string; vr_RawID : string; vr_StoredHash : string; vr_ComputedHash : string;
  vr_HashMatches : bool; vr_StoredMessage : string; vr_ExpectedMessage : string;
  vr_MessageMatches : bool; vr_RawValid : bool; vr_Passed : bool;
  vr_Status : string; vr_FailureReason : list error }.

Definition VerifyNormalized (eventID : string) : M VerificationReport :=
  r <- try (query_row (λ db, List.find (by_event_id eventID) (norms db))) ;;
  match r with
  | Ok None => fail (Errorf "normalized event not found: %s" [AStr eventID])
  | Err e => fail (Errorf "query error for event %s: %w" [AStr eventID; AErr e])
  | Panic p => mcall (Panic p)
  | Ok (Some row) =>
      let computedHex := sha256 (n_json row) in
      let hashMatches := (n_sha row <>s "") && (computedHex =s n_sha row) in
      let expectedMsg := match Unmarshal (n_json row) with Some ev => text_of ev "message" | None => "" end in
      let messageMatches := n_message row =s expectedMsg in
      v <- try (Verify (n_raw_id row)) ;;
      let rawValid := match v with Ok (m, _) => m | _ => false end in
      let passed := hashMatches && messageMatches && rawValid in
      ret {| vr_EventID := n_event_id row; vr_RawID := n_raw_id row;
             vr_StoredHash := n_sha row; vr_ComputedHash := computedHex; vr_HashMatches := hashMatches;
             vr_StoredMessage := n_message row; vr_ExpectedMessage := expectedMsg;
             vr_MessageMatches := messageMatches; vr_RawValid := rawValid; vr_Passed := passed;
             vr_Status := if passed then "PASSED" else "TAMPER DETECTED";
             vr_FailureReason :=
               if passed then []
               else (if hashMatches then [] else
                       [errors_New "event_json payload was modified (hash mismatch)"])
                    ++ (if messageMatches then [] else
                          [Errorf "message column (%q) does not match event_json payload (%q)"
                             [AStr (n_message row); AStr expectedMsg]])
                    ++ (if rawValid then [] else
                          [errors_New "parent raw event wire bytes were modified or corrupted"]) |}
  end.

(** ** Schema migration from version 3 to 4 *)

(** [DELETE FROM quarantine WHERE rowid NOT IN (SELECT MIN(rowid) ... GROUP BY raw_id,
    record_ordinal, stage, reason)]: the first row of each group stays. *)
Fixpoint keep_first (seen : list (string * Z * string * string)) (l : list QuarRow) : list QuarRow :=
  match l with
  | [] => []
  | q :: l' =>
      if bool_decide (child_key q ∈ seen) then keep_first seen l'
      else q :: keep_first (child_key q :: seen) l'
  end.
Definition dedup_quarantine (db : Db) : Db := with_quars db (keep_first [] (quars db)).
End rawstore.
