(* ===== verification/StoreSpec.v ===== *)
(** * Specifications of the store's operations: what each leaves in the tables *)

From S2P Require Import Prelude GoStrings GoNum GoTime Model Normalize World RawStore.

#[local] Open Scope monad_scope.

(** ** The outcomes of a child: its normalized rows and its quarantine rows *)

Definition norm_outcomes (db : Db) (i : string) (o : Z) : Z := count (norm_child i o) (norms db).
Definition quar_outcomes (db : Db) (i : string) (o : Z) : Z := count (quar_child i o) (quars db).
Definition outcomes (db : Db) (i : string) (o : Z) : Z := norm_outcomes db i o + quar_outcomes db i o.

Lemma outcomes_nonneg db i o : 0 ≤ norm_outcomes db i o ∧ 0 ≤ quar_outcomes db i o.
Proof. split; apply count_nonneg. Qed.

(** ** Updates of rows *)

Lemma count_update_where {A} (p q : A → bool) (f : A → A) l :
  (∀ x, q x = true → p (f x) = p x) → count p (update_where q f l) = count p l.
Proof.
  intros Hf. unfold update_where. induction l as [|x l IH]; [done|]. cbn [map count]. rewrite IH.
  destruct (q x) eqn:E; [by rewrite Hf|done].
Qed.

Lemma length_update_where {A} (q : A → bool) (f : A → A) l : length (update_where q f l) = length l.
Proof. apply length_map. Qed.

Lemma count_delete_where {A} (p q : A → bool) l :
  count p (delete_where q l) = count (λ x, p x && negb (q x)) l.
Proof. apply count_filter. Qed.

Lemma elem_update_where {A} (q : A → bool) (f : A → A) l y :
  y ∈ update_where q f l ↔ ∃ x, x ∈ l ∧ y = if q x then f x else x.
Proof. unfold update_where. rewrite list_elem_of_fmap. naive_solver. Qed.

Lemma existsb_elem {A} (p : A → bool) l : existsb p l = true ↔ ∃ x, x ∈ l ∧ p x = true.
Proof. rewrite existsb_exists. by setoid_rewrite list_elem_of_In. Qed.

Lemma find_elem {A} (p : A → bool) l x : List.find p l = Some x → x ∈ l ∧ p x = true.
Proof. intros [Hx Hp]%List.find_some. by rewrite list_elem_of_In. Qed.

Lemma find_none_count {A} (p : A → bool) l : List.find p l = None ↔ count p l = 0.
Proof.
  induction l as [|x l IH]; simpl; [done|]. pose proof (count_nonneg p l). destruct (p x); [|done].
  split; [done|lia].
Qed.

Lemma norm_child_eq i o n : norm_child i o n = true ↔ n_raw_id n = i ∧ n_ordinal n = o.
Proof. unfold norm_child. rewrite andb_true_iff, String.eqb_eq, Z.eqb_eq. done. Qed.
Lemma quar_child_eq i o q : quar_child i o q = true ↔ q_raw_id q = i ∧ q_ordinal q = o.
Proof. unfold quar_child. rewrite andb_true_iff, String.eqb_eq, Z.eqb_eq. done. Qed.

(** ** The upserts *)

(** A quarantine row keeps its place in the count of its child, whatever the upsert
    does; a new row adds one, to its own child only. *)
Lemma upsert_quarantine_spec row db db' :
  upsert_quarantine row db = Ok db' →
  raws db' = raws db ∧ norms db' = norms db ∧ outs db' = outs db
  ∧ (∀ i o, quar_outcomes db' i o =
       quar_outcomes db i o
       + if existsb (same_child row) (quars db) then 0 else if quar_child i o row then 1 else 0)
  ∧ Z.of_nat (length (quars db')) ≤ Z.of_nat (length (quars db)) + 1.
Proof.
  unfold upsert_quarantine. destruct (negb _); [done|].
  destruct (existsb (same_child row) (quars db)) eqn:E.
  - intros [= <-]. split_and!; [done..| |].
    + intros i o. unfold quar_outcomes. simpl. rewrite count_update_where; [lia|]. done.
    + simpl. rewrite length_update_where. lia.
  - case_match; [done|]. intros [= <-]. split_and!; [done..| |].
    + intros i o. unfold quar_outcomes. simpl. rewrite count_app. simpl. lia.
    + simpl. rewrite length_app. simpl. lia.
Qed.

Lemma upsert_quarantine_present row db db' :
  upsert_quarantine row db = Ok db' → 0 < quar_outcomes db' (q_raw_id row) (q_ordinal row).
Proof.
  intros H. apply upsert_quarantine_spec in H as (_ & _ & _ & Hq & _). rewrite Hq.
  pose proof (count_nonneg (quar_child (q_raw_id row) (q_ordinal row)) (quars db)) as Hn.
  destruct (existsb (same_child row) (quars db)) eqn:E.
  - apply existsb_elem in E as (q & Hin & Hs). unfold same_child in Hs. apply bool_decide_eq_true in Hs.
    assert (0 < quar_outcomes db (q_raw_id row) (q_ordinal row)); [|lia].
    unfold quar_outcomes. apply count_pos. exists q. split; [done|]. apply quar_child_eq.
    unfold child_key in Hs. by simplify_eq.
  - rewrite (proj2 (quar_child_eq _ _ row)) by done. unfold quar_outcomes. lia.
Qed.

(** A normalized row is added to its child, unless its identifier is already taken. *)
Lemma upsert_norm_spec row db db' :
  upsert_norm row db = Ok db' →
  raws db' = raws db ∧ quars db' = quars db ∧ outs db' = outs db
  ∧ (∀ i o, norm_outcomes db' i o =
       norm_outcomes db i o
       + if existsb (by_event_id (n_event_id row)) (norms db) then 0 else if norm_child i o row then 1 else 0)
  ∧ (∀ n, n ∈ norms db' → n_event_id n = n_event_id row ∨ ∃ n', n' ∈ norms db ∧ n_event_id n' = n_event_id n).
Proof.
  unfold upsert_norm. destruct (negb _); [done|].
  destruct (existsb (by_event_id (n_event_id row)) (norms db)) eqn:E; intros [= <-]; split_and!; try done.
  - intros i o. unfold norm_outcomes. simpl. rewrite count_update_where; [lia|]. done.
  - intros n (x & Hx & ->)%elem_update_where. right. exists x. split; [done|].
    destruct (by_event_id _ x) eqn:Eb; [|done]. done.
  - intros i o. unfold norm_outcomes. simpl. rewrite count_app. simpl. lia.
  - intros n [Hn| ->%list_elem_of_singleton]%elem_of_app; eauto.
Qed.

Lemma upsert_delivery_spec ev dest data now db :
  ∃ db', upsert_delivery ev dest data now db = Ok db'
         ∧ raws db' = raws db ∧ quars db' = quars db ∧ norms db' = norms db.
Proof. unfold upsert_delivery. destruct (existsb _ _); by eexists. Qed.

(** ** Programs *)

(** What the store's programs never touch: counters, deliveries, the normalizer; fresh
    randomness is only consumed. *)
Record frame (w w' : World) : Prop := {
  fr_cnt : w_cnt w' = w_cnt w; fr_emitted : w_emitted w' = w_emitted w; fr_norm : w_norm w' = w_norm w;
  fr_rands : (w_rands w ≤ w_rands w')%nat }.

#[export] Instance frame_preorder : PreOrder frame.
Proof. split; [by split|]. intros x y z [] []. split; [congruence..|lia]. Qed.

Lemma same_rest_frame w w' : same_rest w w' → frame w w'.
Proof. intros []. split; [done..|lia]. Qed.

Section specs.
Context (fmt_float : f64 → string) `{GoPlatform} `{Env}.

(** The row that quarantining an entry writes. *)
Definition row_for (e : QuarantineEntry) (row : QuarRow) : Prop :=
  ∃ id at_, row = row_of_entry (with_quarantine_id e id at_).

Lemma wp_quarantine e fin w :
  wp (quarantine e fin) (λ r w', frame w w' ∧
    match r with
    | Ok _ => ∃ row db1, row_for e row ∧ upsert_quarantine row (w_db w) = Ok db1
              ∧ w_db w' = (if fin then update_status (qe_RawID e) StatusQuarantined db1 else db1)
    | Err _ => w_db w' = w_db w
    | Panic _ => False
    end) w.
Proof.
  unfold quarantine. apply wp_bind.
  assert (∀ Q : res string → World → Prop, (∀ id w', frame w w' → w_db w' = w_db w → Q (Ok id) w') →
    wp (if qe_QuarantineID e =s "" then
          bind draw4 (λ r4, bind Now (λ now, ret ("worm-quar-" +:+ Format_date now +:+ "-" +:+ hex_EncodeToString r4)))
        else ret (qe_QuarantineID e)) Q w) as Hid.
  { intros Q HQ. destruct (_ =s _); [|apply HQ; done]. apply HQ; [split; simpl; [done..|lia]|done]. }
  apply Hid. intros id w1 Hf1 Hd1. apply wp_bind.
  assert (∀ Q : res time → World → Prop, (∀ t w', frame w1 w' → w_db w' = w_db w1 → Q (Ok t) w') →
    wp (if IsZero (qe_QuarantinedAt e) then Now else ret (qe_QuarantinedAt e)) Q w1) as Hat.
  { intros Q HQ. destruct (IsZero _); apply HQ; done. }
  apply Hat. intros at_ w2 Hf2 Hd2. cbv zeta.
  assert (frame w w2) as Hf by (by transitivity w1).
  assert (w_db w2 = w_db w) as Hd by congruence.
  apply wp_transaction.
  { intros err w' Hs Hw. split; [etransitivity; [exact Hf|by apply same_rest_frame]|congruence]. }
  intros w3 Hs3 Hd3. apply wp_bind, wp_exec.
  { intros err w' Hs Hw. split; [|simpl; congruence].
    repeat (etransitivity; [eassumption || (apply same_rest_frame; eassumption)|]). by split. }
  set (row := row_of_entry (with_quarantine_id e id at_)).
  intros w4 Hs4. rewrite Hd3, Hd.
  destruct (upsert_quarantine row (w_db w)) as [db1|err|p] eqn:E; [|done|].
  2: { unfold upsert_quarantine in E. by repeat case_match. }
  intros Hd4. assert (frame w w4) as Hf4.
  { transitivity w2; [done|]. transitivity w3; by apply same_rest_frame. }
  destruct fin.
  - apply wp_exec.
    { intros err w' Hs Hw. split; [|simpl; congruence].
      transitivity w4; [done|]. destruct Hs. split; simpl; [done..|lia]. }
    intros w5 Hs5 Hd5. split.
    + intros w6 Hs6 Hd6. split; [|exists row, db1; split_and!; [by exists id, at_|done|by rewrite Hd6, Hd5, Hd4]].
      transitivity w4; [done|]. transitivity w5; by apply same_rest_frame.
    + intros err w6 Hs6 Hd6. split; [|congruence].
      transitivity w4; [done|]. transitivity w5; by apply same_rest_frame.
  - split.
    + intros w6 Hs6 Hd6. split; [|exists row, db1; split_and!; [by exists id, at_|done|congruence]].
      transitivity w4; [done|by apply same_rest_frame].
    + intros err w6 Hs6 Hd6. split; [|congruence]. transitivity w4; [done|by apply same_rest_frame].
Qed.

Lemma wp_enqueue_all evid data now dests w :
  wp (enqueue_all evid data now dests) (λ r w', frame w w' ∧ raws (w_db w') = raws (w_db w)
    ∧ quars (w_db w') = quars (w_db w) ∧ norms (w_db w') = norms (w_db w) ∧ ∀ p, r ≠ Panic p) w.
Proof.
  revert w. induction dests as [|dest dests IH]; intros w; cbn [enqueue_all]; [done|].
  apply wp_bind, wp_exec.
  - intros e w' Hs ->. split; [by apply same_rest_frame|done].
  - intros w1 Hs1. destruct (upsert_delivery_spec evid dest data now (w_db w)) as (db' & -> & Hr & Hq & Hn).
    intros Hd1. eapply wp_mono; [apply IH|]. cbv beta. rewrite Hd1, Hr, Hq, Hn.
    intros r w' (Hf & ?). split; [|done]. transitivity w1; [by apply same_rest_frame|done].
Qed.

(** What a successful store of an event leaves: its row, under the child's identifier. *)
Record stored (ev ev' : NormalizedEvent) (db db' : Db) : Prop := {
  st_raw : we_RawID (Worm ev') = we_RawID (Worm ev);
  st_ord : we_RecordOrdinal (Worm ev') = we_RecordOrdinal (Worm ev);
  st_id : EventID (Worm ev') = EventID (Worm ev)
          ∨ ∃ row, row ∈ norms db ∧ norm_child (we_RawID (Worm ev)) (we_RecordOrdinal (Worm ev)) row = true
                   ∧ EventID (Worm ev') = n_event_id row;
  st_raws : raws db' = raws db;
  st_quars : quars db' = quars db;
  st_norms : ∃ data db1, upsert_norm (norm_row fmt_float ev' data) db = Ok db1 ∧ norms db' = norms db1;
}.

Lemma wp_storeNormalizedTx ev dests w :
  wp (storeNormalizedTx fmt_float ev dests) (λ r w', frame w w' ∧
    match r with Ok ev' => stored ev ev' (w_db w) (w_db w') | _ => True end) w.
Proof.
  unfold storeNormalizedTx. apply wp_bind, wp_try. unfold mcall, wp at 1.
  destruct (Marshal ev) as [data0|e|p]; [|done..]. apply wp_bind, wp_try. unfold query_row.
  set (child := norm_child (we_RawID (Worm ev)) (we_RecordOrdinal (Worm ev))).
  set (ev_of found := match found with
                      | Ok (Some row) => if n_event_id row <>s "" then with_event_id ev (n_event_id row) else ev
                      | _ => ev end).
  assert (∀ found w1, frame w w1 → w_db w1 = w_db w →
    (∀ row, found = Ok (Some row) → List.find child (norms (w_db w)) = Some row) →
    ∀ data, wp (bind (exec (upsert_norm (norm_row fmt_float (ev_of found) data))) (λ _,
      bind Now (λ now, bind (enqueue_all (EventID (Worm (ev_of found))) data now dests) (λ _, ret (ev_of found)))))
      (λ r w', frame w w' ∧ match r with Ok ev' => stored ev ev' (w_db w) (w_db w') | _ => True end) w1) as Hrest.
  { intros found w1 Hf1 Hd1 Hfound data. apply wp_bind, wp_exec.
    { intros e w' Hs _. split; [|done]. transitivity w1; [done|by apply same_rest_frame]. }
    intros w2 Hs2. rewrite Hd1. destruct (upsert_norm _ (w_db w)) as [db1|e|p] eqn:Eu; [|done|].
    2: { unfold upsert_norm in Eu. by repeat case_match. }
    intros Hd2. apply wp_bind, wp_Now. intros now w3 Hs3 Hd3. apply wp_bind.
    eapply wp_mono; [apply wp_enqueue_all|]. cbv beta. intros r w4 (Hf4 & Hr & Hq & Hn & Hp).
    assert (frame w w4) as Hf.
    { transitivity w1; [done|]. transitivity w2; [by apply same_rest_frame|].
      transitivity w3; [by apply same_rest_frame|done]. }
    destruct r as [[]|e|p]; [|done..]. apply wp_ret. split; [done|].
    rewrite Hd3, Hd2 in Hr, Hq, Hn. destruct (upsert_norm_spec _ _ _ Eu) as (Hur & Huq & _ & _ & _).
    assert (ev_of found = ev ∨ ∃ row, row ∈ norms (w_db w) ∧ child row = true
              ∧ ev_of found = with_event_id ev (n_event_id row)) as Hid.
    { destruct found as [[row|]|e|p]; [|by left..]. simpl. destruct (_ <>s _); [|by left].
      right. exists row. destruct (find_elem _ _ _ (Hfound row eq_refl)). done. }
    split; [..|congruence|congruence|exists data, db1; by rewrite Hn].
    - by destruct Hid as [->|(row & _ & _ & ->)].
    - by destruct Hid as [->|(row & _ & _ & ->)].
    - destruct Hid as [->|(row & Hin & Hc & ->)]; [by left|right; eauto]. }
  apply wp_query.
  - intros e w1 Hs1 Hd1. apply (Hrest (Err e) w1); [by apply same_rest_frame|done|done].
  - intros w1 Hs1 Hd1. apply (Hrest (Ok (List.find child (norms (w_db w)))) w1);
      [by apply same_rest_frame|done|]. by intros row [= ->].
Qed.

Lemma wp_StoreNormalizedWithOutbox ev dests w :
  wp (StoreNormalizedWithOutbox fmt_float ev dests) (λ r w', frame w w' ∧
    match r with Ok ev' => stored ev ev' (w_db w) (w_db w') | _ => w_db w' = w_db w end) w.
Proof.
  apply wp_transaction.
  - intros e w' Hs Hd. split; [by apply same_rest_frame|done].
  - intros w0 Hs0 Hd0. eapply wp_mono; [apply wp_storeNormalizedTx|]. cbv beta. rewrite Hd0.
    intros r w1 [Hf Hst].
    assert (frame w w1) as Hf1 by (transitivity w0; [by apply same_rest_frame|done]).
    destruct r as [ev'|e|p].
    + split.
      * intros w2 Hs2 Hd2. rewrite Hd2. split; [|done]. transitivity w1; [done|by apply same_rest_frame].
      * intros e w2 Hs2 Hd2. split; [|done]. transitivity w1; [done|by apply same_rest_frame].
    + split; [|done]. transitivity w1; [done|by split].
    + split; [|done]. transitivity w1; [done|by split].
Qed.

Lemma wp_UpdateStatus id st w :
  wp (UpdateStatus id st) (λ r w', frame w w'
    ∧ (w_db w' = w_db w ∨ w_db w' = update_status id st (w_db w)) ∧ ∀ p, r ≠ Panic p) w.
Proof.
  unfold UpdateStatus. apply wp_bind, wp_db_call.
  - intros e w' Hs Hd. split; [by apply same_rest_frame|]. by split; [left|].
  - intros w' Hs Hd. destruct (_ =? 0); (split; [by apply same_rest_frame|]; by split; [right|]).
Qed.

Lemma wp_DeleteNormalizedChild i o w :
  wp (DeleteNormalizedChild i o) (λ r w', frame w w' ∧
    match r with
    | Ok _ => w_db w' = with_norms (w_db w) (delete_where (norm_child i o) (norms (w_db w)))
    | Err _ => w_db w' = w_db w
    | Panic _ => False
    end) w.
Proof.
  unfold DeleteNormalizedChild. apply wp_exec.
  - intros e w' Hs Hd. split; [by apply same_rest_frame|done].
  - intros w' Hs Hd. split; [by apply same_rest_frame|done].
Qed.

(** A read of the tables: its value, or an error. *)
Lemma wp_read {A} (f : Db → A) w :
  wp (query (λ db, Ok (f db))) (λ r w', frame w w' ∧ w_db w' = w_db w
    ∧ match r with Ok a => a = f (w_db w) | Err _ => True | Panic _ => False end) w.
Proof.
  apply wp_query.
  - intros e w' Hs Hd. split; [by apply same_rest_frame|done].
  - intros w' Hs Hd. split; [by apply same_rest_frame|done].
Qed.

Lemma wp_HasCompletedChild i o w :
  wp (HasCompletedChild i o) (λ r w', frame w w' ∧ w_db w' = w_db w
    ∧ match r with Ok b => b = (0 <? outcomes (w_db w) i o) | Err _ => True | Panic _ => False end) w.
Proof. apply wp_read. Qed.

Lemma wp_ChildOutcomeCounts i w :
  wp (ChildOutcomeCounts i) (λ r w', frame w w' ∧ w_db w' = w_db w
    ∧ match r with Ok nq => nq = outcome_counts (w_db w) i | Err _ => True | Panic _ => False end) w.
Proof. apply wp_read. Qed.

Lemma wp_CountCompletedChildren i w :
  wp (CountCompletedChildren i) (λ r w', frame w w' ∧ w_db w' = w_db w
    ∧ match r with
      | Ok n => n = (outcome_counts (w_db w) i).1 + (outcome_counts (w_db w) i).2
      | Err _ => True | Panic _ => False end) w.
Proof. apply (wp_read (λ db, (outcome_counts db i).1 + (outcome_counts db i).2)). Qed.

(** The row of a raw identifier. *)
Definition raw_row (db : Db) (i : string) : option RawRow := List.find (by_raw_id i) (raws db).

Lemma raw_row_id db i row : raw_row db i = Some row → re_RawID row = i.
Proof. intros [_ H1%String.eqb_eq]%find_elem. done. Qed.

Lemma wp_Retrieve i w :
  wp (Retrieve i) (λ r w', frame w w' ∧ w_db w' = w_db w
    ∧ match r with Ok row => raw_row (w_db w) i = Some row | Err _ => True | Panic _ => False end) w.
Proof.
  unfold Retrieve. apply wp_bind, wp_try. unfold query_row.
  eapply wp_mono; [apply (wp_read (λ db, List.find (by_raw_id i) (raws db)))|]. cbv beta.
  intros r w1 (Hf & Hd & Hr). destruct r as [o|e|p]; [|done..].
  subst o. unfold raw_row. by destruct (List.find _ _).
Qed.

Lemma wp_spool_replay rec sha w :
  wp (spool_replay rec sha) (λ r w', frame w w' ∧ w_db w' = w_db w
    ∧ match r with
      | Ok (Some e) => (∃ row, row ∈ raws (w_db w) ∧ raw_row (w_db w) (re_RawID e) = Some row
                               ∧ e = as_duplicate row)
                       ∧ ∃ row, row ∈ raws (w_db w) ∧ re_RawSHA256 row = sha
                                ∧ same_spool (FileID (ir_Metadata rec)) (FileOffset (ir_Metadata rec)) row = true
      | Panic _ => False | _ => True end) w.
Proof.
  unfold spool_replay. destruct (_ && _); [|by apply wp_ret].
  apply wp_bind, wp_try. unfold query_row.
  eapply wp_mono; [apply (wp_read (λ db, List.find _ (raws db)))|]. cbv beta.
  intros r w1 (Hf & Hd & Hr). destruct r as [[row|]|e|p]; [|done..].
  destruct (_ <>s _) eqn:Esha; [done|]. apply negb_false_iff, String.eqb_eq in Esha.
  symmetry in Hr. apply find_elem in Hr as [Hin Hsame]. apply wp_bind.
  eapply wp_mono; [apply wp_Retrieve|]. cbv beta. rewrite Hd.
  intros r w2 (Hf2 & Hd2 & Hr2).
  assert (frame w w2) by (by transitivity w1).
  destruct r as [row'|e|p]; [|done..]. apply wp_ret. split_and!; [done..| |by exists row].
  pose proof (raw_row_id _ _ _ Hr2) as Hid. exists row'.
  split_and!; [by apply find_elem in Hr2 as [? _]| |done]. simpl. by rewrite Hid.
Qed.

Lemma find_app_none {A} (p : A → bool) l x :
  existsb p l = false → p x = true → List.find p (l ++ [x]) = Some x.
Proof.
  induction l as [|y l IH]; simpl; [by intros _ ->|]. intros [-> Hl]%orb_false_iff Hx. by apply IH.
Qed.

(** The row is the record's: its own bytes, or the row that its spool position already has
    for the same hash. *)
Definition row_of_record (rec : IngestedRecord) (row : RawRow) : Prop :=
  re_RawSHA256 row = sha256 (ir_RawBytes rec) ∧
  (re_Payload row = ir_RawBytes rec ∧ re_Metadata row = ir_Metadata rec
   ∨ same_spool (FileID (ir_Metadata rec)) (FileOffset (ir_Metadata rec)) row = true).
Definition committed (rec : IngestedRecord) (db : Db) : Prop := ∃ row, row ∈ raws db ∧ row_of_record rec row.

(** [Store] appends the row of the record, or finds the spooled record again. *)
Lemma wp_Store_committed rec w :
  wp (Store rec) (λ r w', (w_rands w ≤ w_rands w')%nat ∧ w_cnt w' = w_cnt w ∧ w_emitted w' = w_emitted w ∧
    (match r with
    | Ok raw =>
        if re_Duplicate raw
        then w_db w' = w_db w ∧ ∃ row, raw_row (w_db w) (re_RawID raw) = Some row ∧ raw = as_duplicate row
        else w_db w' = with_raws (w_db w) (raws (w_db w) ++ [raw])
             ∧ raw_row (w_db w) (re_RawID raw) = None ∧ raw_row (w_db w') (re_RawID raw) = Some raw
             ∧ re_Status raw = StatusAccepted ∧ re_Payload raw = ir_RawBytes rec
             ∧ re_RawSHA256 raw = sha256 (ir_RawBytes rec)
    | Err _ => w_db w' = w_db w
    | Panic _ => False
    end) ∧ ((∃ raw, r = Ok raw) → committed rec (w_db w'))) w.
Proof.
  unfold Store. apply wp_bind.
  assert (∀ Q : res time → World → Prop, (∀ t w', frame w w' → w_db w' = w_db w → Q (Ok t) w') →
    wp (if IsZero (ir_ReceivedAt rec) then Now else ret (ir_ReceivedAt rec)) Q w) as Hat.
  { intros Q HQ. destruct (IsZero _); apply HQ; done. }
  apply Hat. intros t w1 [Hc1 He1 _ Hr1] Hd1. cbv zeta. apply wp_bind.
  eapply wp_mono; [apply wp_spool_replay|]. cbv beta. rewrite Hd1.
  intros r w2 ([Hc2 He2 _ Hr2] & Hd2 & Hr). destruct r as [[e|]|e|p]; [..|done].
  - destruct Hr as [(row & _ & Hrow & ->) (row0 & Hin0 & Hsha & Hsame)]. apply wp_ret.
    split_and!; [lia|congruence|congruence|simpl; split; [done|by exists row]|]. intros _. exists row0.
    rewrite Hd2. split; [done|]. split; [done|by right].
  - apply wp_bind. unfold next_seq, wp at 1. apply wp_bind, wp_draw4.
    intros w4 Hd4 Hc4 He4 _ Hr4. simpl in Hd4, Hc4, He4, Hr4. cbv zeta.
    set (raw := new_raw _ _ _ _ _). apply wp_bind, wp_try.
    apply wp_exec.
    + intros e w5 [Hc5 _ He5 _ Hr5 _] Hd5. apply wp_fail. split_and!; [lia|congruence..|]. by intros [? ?].
    + intros w5 [Hc5 _ He5 _ Hr5 _]. unfold insert_raw. rewrite Hd4, Hd2.
      destruct (existsb (by_raw_id (re_RawID raw)) (raws (w_db w))) eqn:Ex; [done|].
      intros Hd5. apply wp_ret. split_and!; [lia|congruence..| |].
      2: { intros _. exists raw. rewrite Hd5. split; [apply elem_of_app; right; by apply list_elem_of_here|]. split; [done|by left]. }
      simpl. split_and!; [done| |..]; try done.
      * unfold raw_row. apply find_none_count, count_zero. intros x Hx.
        apply not_true_iff_false. intros Hb. apply not_true_iff_false in Ex.
        apply Ex, existsb_elem. eauto.
      * rewrite Hd5. unfold raw_row. simpl. apply find_app_none; [done|]. apply String.eqb_refl.
  - split_and!; [lia|congruence..|]. by intros [? ?].
Qed.
Lemma wp_Store rec w :
  wp (Store rec) (λ r w', (w_rands w ≤ w_rands w')%nat ∧ w_cnt w' = w_cnt w ∧ w_emitted w' = w_emitted w ∧
    match r with
    | Ok raw =>
        if re_Duplicate raw
        then w_db w' = w_db w ∧ ∃ row, raw_row (w_db w) (re_RawID raw) = Some row ∧ raw = as_duplicate row
        else w_db w' = with_raws (w_db w) (raws (w_db w) ++ [raw])
             ∧ raw_row (w_db w) (re_RawID raw) = None ∧ raw_row (w_db w') (re_RawID raw) = Some raw
             ∧ re_Status raw = StatusAccepted ∧ re_Payload raw = ir_RawBytes rec
             ∧ re_RawSHA256 raw = sha256 (ir_RawBytes rec)
    | Err _ => w_db w' = w_db w
    | Panic _ => False
    end) w.
Proof. eapply wp_mono; [apply wp_Store_committed|]. cbv beta. intros r w' (? & ? & ? & ? & _). done. Qed.
End specs.
