(* ===== verification/Outbox.v ===== *)
(** * [internal/outbox/outbox.go]: the durable delivery queue *)

From S2P Require Import Prelude GoStrings GoNum Model World.

#[local] Open Scope monad_scope.

(** An [Entry] is a row of the table. *)
Abbreviation Entry := OutRow.

Definition by_id (id : Z) (o : OutRow) : bool := o_id o =? id.
Definition has_status (s : string) (o : OutRow) : bool := o_status o =s s.
Definition of_event (id : string) (o : OutRow) : bool := o_event_id o =s id.

Definition mark_delivered (now : time) (o : OutRow) : OutRow :=
  {| o_id := o_id o; o_event_id := o_event_id o; o_destination := o_destination o;
     o_payload := o_payload o; o_attempts := o_attempts o; o_next_retry := o_next_retry o;
     o_ack := Some now; o_error := None; o_status := "delivered"; o_created := o_created o |}.

Definition mark_failed (nextRetry : time) (details : error) (maxAttempts : Z) (o : OutRow) : OutRow :=
  {| o_id := o_id o; o_event_id := o_event_id o; o_destination := o_destination o;
     o_payload := o_payload o; o_attempts := o_attempts o + 1; o_next_retry := nextRetry;
     o_ack := o_ack o; o_error := Some details;
     o_status := if (0 <? maxAttempts) && (maxAttempts <=? o_attempts o + 1) then "failed" else "pending";
     o_created := o_created o |}.

(** The distinct events of a list of rows. *)
Definition distinct_events (l : list OutRow) : list string := remove_dups (map o_event_id l).

(** [GROUP BY event_id HAVING COUNT = SUM(delivered)] *)
Definition all_delivered (l : list OutRow) (id : string) : bool :=
  count (of_event id) l =? count (λ o, of_event id o && has_status "delivered" o) l.
Definition some_status (s : string) (l : list OutRow) (id : string) : bool :=
  existsb (λ o, of_event id o && has_status s o) l.

Definition count_delivered (l : list OutRow) : Z := count (all_delivered l) (distinct_events l).
Definition count_pending (l : list OutRow) : Z :=
  Z.of_nat (length (distinct_events (List.filter (has_status "pending") l))).
Definition count_failed (l : list OutRow) : Z :=
  Z.of_nat (length (distinct_events
    (List.filter (λ o, has_status "failed" o && negb (some_status "pending" l (o_event_id o))) l))).

Section outbox.
Context `{Env}.

Definition Enqueue (eventID destination payload : string) : M Z :=
  now <- Now ;;
  db_call (λ db,
    if existsb (λ o, of_event eventID o && (o_destination o =s destination)) (outs db)
    then (Err (errors_New "UNIQUE constraint failed: outbox.event_id, outbox.destination"), db)
    else
      let id := out_seq db + 1 in
      (Ok id, with_outs db (outs db ++
         [{| o_id := id; o_event_id := eventID; o_destination := destination; o_payload := payload;
             o_attempts := 0; o_next_retry := now; o_ack := None; o_error := None;
             o_status := "pending"; o_created := now |}]) id)).

Definition due (now : time) (o : OutRow) : bool := has_status "pending" o && (o_next_retry o <=? now).

Definition FetchPending (limit : Z) : M (list Entry) :=
  let limit := if limit <=? 0 then 100 else limit in
  now <- Now ;;
  query (λ db, Ok (page limit 0 (order_by (λ a b, o_id a <=? o_id b) (List.filter (due now) (outs db))))).

Definition MarkDelivered (id : Z) : M unit :=
  now <- Now ;;
  exec (λ db, Ok (with_outs db (update_where (by_id id) (mark_delivered now) (outs db)) (out_seq db))).

Definition MarkFailed (id : Z) (errDetails : error) (backoff : Z) (maxAttempts : Z) : M unit :=
  now <- Now ;;
  exec (λ db, Ok (with_outs db
    (update_where (by_id id) (mark_failed (now + backoff) errDetails maxAttempts) (outs db)) (out_seq db))).

Definition CountByStatus (status : string) : M Z := query (λ db, Ok (count (has_status status) (outs db))).
Definition CountDistinctDelivered : M Z := query (λ db, Ok (count_delivered (outs db))).
Definition CountDistinctPending : M Z := query (λ db, Ok (count_pending (outs db))).
Definition CountDistinctFailed : M Z := query (λ db, Ok (count_failed (outs db))).
End outbox.

(** ** The three counts partition the events *)

Definition status_ok (o : OutRow) : bool := existsb (String.eqb (o_status o)) ["pending"; "delivered"; "failed"].

Lemma elem_distinct l id : id ∈ distinct_events l ↔ ∃ o, o ∈ l ∧ of_event id o = true.
Proof.
  unfold distinct_events, of_event. rewrite elem_of_remove_dups, list_elem_of_fmap.
  split; intros (o & H1 & H2); exists o; [subst; by rewrite String.eqb_refl|].
  apply String.eqb_eq in H2. by subst.
Qed.

Lemma some_status_spec s l id :
  some_status s l id = true ↔ ∃ o, o ∈ l ∧ of_event id o = true ∧ has_status s o = true.
Proof.
  unfold some_status. rewrite existsb_exists. setoid_rewrite <- list_elem_of_In.
  setoid_rewrite andb_true_iff. done.
Qed.

(** Counting the distinct events of a filtered table is counting, among the distinct
    events of the table, those with a row that passes the filter. *)
Lemma count_distinct_filter (p : OutRow → bool) l :
  Z.of_nat (length (distinct_events (List.filter p l)))
  = count (λ id, existsb (λ o, of_event id o && p o) l) (distinct_events l).
Proof.
  set (q := λ id, existsb _ l).
  assert (distinct_events (List.filter p l) ≡ₚ List.filter q (distinct_events l)) as Hp.
  { apply NoDup_Permutation; [apply NoDup_remove_dups|apply NoDup_filter_bool, NoDup_remove_dups|].
    intros id. rewrite elem_distinct, list_elem_of_In, filter_In, <- list_elem_of_In, elem_distinct.
    unfold q. rewrite existsb_exists. setoid_rewrite <- list_elem_of_In. setoid_rewrite andb_true_iff.
    setoid_rewrite list_elem_of_In. setoid_rewrite filter_In. naive_solver. }
  rewrite (Permutation_length Hp), <- count_true, count_filter. done.
Qed.

Lemma count_three {A} (p q r : A → bool) (l : list A) :
  (∀ x, x ∈ l → (if p x then 1 else 0) + (if q x then 1 else 0) + (if r x then 1 else 0) = 1) →
  count p l + count q l + count r l = Z.of_nat (length l).
Proof.
  induction l as [|x l IH]; intros H; cbn [count length]; [done|].
  pose proof (H x (list_elem_of_here _ _)). specialize (IH (λ y Hy, H y (list_elem_of_further _ _ _ Hy))). lia.
Qed.

Lemma count_all_impl {A} (p q : A → bool) (l : list A) :
  count p l = count (λ x, p x && q x) l ↔ ∀ x, x ∈ l → p x = true → q x = true.
Proof.
  induction l as [|x l IH]; cbn [count]; [split; [by intros _ ? ?%elem_of_nil|done]|].
  assert (count (λ x, p x && q x) l ≤ count p l).
  { clear. induction l as [|x l IH]; cbn [count]; [done|]. destruct (p x), (q x); simpl; lia. }
  setoid_rewrite elem_of_cons. destruct (p x) eqn:Ep, (q x) eqn:Eq; cbn [andb]; split.
  - intros Hc y [->|Hy]; [done|]. apply IH; [lia|done].
  - intros Hall. rewrite (proj2 IH); [done|]. auto.
  - lia.
  - intros Hall. specialize (Hall x (or_introl eq_refl) Ep). congruence.
  - intros Hc y [->|Hy]; [done|]. apply IH; [lia|done].
  - intros Hall. rewrite (proj2 IH); [done|]. auto.
  - intros Hc y [->|Hy]; [congruence|]. apply IH; [lia|done].
  - intros Hall. rewrite (proj2 IH); [done|]. auto.
Qed.

(** When every row is pending, delivered or failed, each event of the outbox is
    counted exactly once as delivered, pending or failed. *)
Theorem outbox_counts_partition (l : list OutRow) :
  Forall (λ o, status_ok o = true) l →
  count_delivered l + count_pending l + count_failed l = Z.of_nat (length (distinct_events l)).
Proof.
  intros Hst. unfold count_delivered, count_pending, count_failed. rewrite !count_distinct_filter.
  apply count_three. intros id Hid%elem_distinct. fold (some_status "pending" l id).
  replace (existsb _ l) with (some_status "failed" l id && negb (some_status "pending" l id)).
  2: { apply eq_true_iff_eq. rewrite andb_true_iff, negb_true_iff, some_status_spec, existsb_exists.
       setoid_rewrite <- list_elem_of_In. setoid_rewrite andb_true_iff. setoid_rewrite andb_true_iff.
       split.
       - intros [(o & Ho & He & Hf) Hn]. exists o. split_and!; [done..|].
         apply String.eqb_eq in He. by rewrite He, Hn.
       - intros (o & Ho & He & Hf & Hn). split; [eauto|].
         apply String.eqb_eq in He. rewrite He in Hn. by apply negb_true_iff. }
  assert (all_delivered l id = negb (some_status "pending" l id) && negb (some_status "failed" l id)) as ->.
  { apply eq_true_iff_eq. unfold all_delivered. rewrite Z.eqb_eq, count_all_impl.
    rewrite andb_true_iff, !negb_true_iff, <- !not_true_iff_false, !some_status_spec. split.
    - intros Hall. split; intros (o & Ho & He & Hs); specialize (Hall o Ho He);
        apply String.eqb_eq in Hall, Hs; congruence.
    - intros [Hp Hf] o Ho He. rewrite Forall_forall in Hst. specialize (Hst o Ho).
      unfold has_status. apply existsb_exists in Hst as (s & Hs & Heq). apply String.eqb_eq in Heq. subst s.
      destruct Hs as [Hs|[Hs|[Hs|[]]]]; rewrite <- Hs; [|done|];
        [destruct Hp|destruct Hf]; exists o; unfold has_status; by rewrite <- Hs. }
  by destruct (some_status "pending" l id), (some_status "failed" l id).
Qed.

Lemma outbox_counts_partition_witness :
  let row id ev dest st := {| o_id := id; o_event_id := ev; o_destination := dest; o_payload := ""; o_attempts := 0;
    o_next_retry := 0; o_ack := None; o_error := None; o_status := st; o_created := 0 |} in
  let l := [row 1 "e1" "a" "delivered"; row 2 "e1" "b" "pending"; row 3 "e2" "a" "delivered";
            row 4 "e3" "a" "failed"; row 5 "e3" "b" "delivered"] in
  count_delivered l + count_pending l + count_failed l = Z.of_nat (length (distinct_events l))
  ∧ count_delivered l = 1 ∧ count_pending l = 1 ∧ count_failed l = 1.
Proof.
  split; [|by vm_compute]. apply outbox_counts_partition. repeat constructor.
Defined.
