(* ===== verification/Pipeline.v ===== *)
(** * [internal/pipeline/pipeline.go]: from a received record to its stored outcomes

    A record is processed by one goroutine at a time; its database calls are atomic.
    The raw store is present: without one the Go program dereferences a nil pointer. *)

From S2P Require Import Prelude GoStrings GoNum GoTime Model Decoder Registry Pack Snapshot Extract Normalize.
From S2P Require Import World RawStore Outbox.

#[local] Open Scope monad_scope.

(** ** [safePreview] *)

Definition safePreview (b : string) (maxLen : Z) : string :=
  let maxLen := if maxLen <=? 0 then 256 else maxLen in
  if b =s "" then ""
  else if utf8_Valid b then
    let rs := runes b in
    unrunes (if maxLen <? Z.of_nat (length rs) then take (Z.to_nat maxLen) rs else rs)
  else
    let limit := maxLen / 2 in
    let limit := if slen b <? limit then slen b else limit in
    "hex:" +:+ hex_EncodeToString (str_take (Z.to_nat limit) b).

(** What [New] and [SetPackManager] attach to the pipeline: [cfg_snapshot] is the active
    snapshot of the pack manager, if any, [cfg_durable] the destination names of a sink
    with durable delivery. *)
Record Config := {
  cfg_registry : Registry;
  cfg_snapshot : option Snapshot;
  cfg_durable : option (list string);
}.

Definition step_of (stage result : string) (now : time) : ProcessingStep :=
  {| Stage := stage; Timestamp := now; Result := result; Error := "" |}.

Section pipeline.
Context (fmt_float : f64 → string) (time_Parse : string → string → option gtime) (currentYear : Z).
Context `{GoPlatform} `{MapOrder} `{Env} (cfg : Config).

Definition stamp (stage result : string) : M ProcessingStep :=
  now <- Now ;; ret (step_of stage result now).

(** [_ = p.store.UpdateStatus(...)]: an error is ignored. *)
Definition update_status_ignored (rawID : string) (status : RawStatus) : M unit :=
  _ <- try (UpdateStatus rawID status) ;; ret ().

(** *** persistQuarantine *)

Definition persistQuarantine (entry : QuarantineEntry) : M bool :=
  r <- try (QuarantineChild entry) ;;
  match r with
  | Ok _ =>
      count_add (add_quarantined 1) ;;;
      count_add (add_pending (-1)) ;;;
      ret true
  | _ => ret false
  end.

Definition quarantine_entry (raw : RawEvent) (ordinal : Z) (stage reason : string) (err : error)
    (preview : string) (eligible : bool) (now : time) : QuarantineEntry :=
  {| qe_QuarantineID := ""; qe_RawID := re_RawID raw; qe_RecordOrdinal := ordinal;
     qe_RawSHA256 := re_RawSHA256 raw; qe_Stage := stage; qe_Reason := reason;
     qe_ErrorDetails := err; qe_RawPreview := preview; qe_CandidatePacks := [];
     qe_ReplayEligible := eligible; qe_QuarantinedAt := now; qe_ReplayedAt := None |}.

(** The failure of a whole payload: quarantined, then its status is set. *)
Definition quarantine_payload (raw : RawEvent) (stage reason : string) (err : error) (eligible : bool)
    : M unit :=
  now <- Now ;;
  ok <- persistQuarantine (quarantine_entry raw 0 stage reason err (safePreview (re_Payload raw) 256) eligible now) ;;
  update_status_ignored (re_RawID raw) (if negb ok then StatusAccepted else StatusQuarantined).

(** The failure of one child: the result says whether the child stays unresolved. *)
Definition quarantine_child (raw : RawEvent) (decRec : DecodedRecord) (stage reason : string) (err : error)
    : M bool :=
  now <- Now ;;
  ok <- persistQuarantine (quarantine_entry raw (RecordOrdinal decRec) stage reason err
                             (safePreview (RawPayload decRec) 256) true now) ;;
  ret (negb ok).

(** *** Stages of a child *)

Definition with_default (k : string) (v : value) (m : fields) : fields :=
  match m !! k with Some _ => m | None => <[k := v]> m end.

(** The pass-through used when no pack snapshot is active. *)
Definition generic_event (raw : RawEvent) (decRec : DecodedRecord) (history : list ProcessingStep)
    (r4 : string) (now : time) : NormalizedEvent :=
  {| Worm := {|
       EventID := "worm-evt-" +:+ Format_date now +:+ "-" +:+ hex_EncodeToString r4;
       we_RawID := re_RawID raw; we_RawSHA256 := re_RawSHA256 raw; we_RawBytes := re_ByteCount raw;
       we_RecordOrdinal := RecordOrdinal decRec; SourceCategory := "other"; SourceID := re_SourceIP raw;
       we_ParserPack := "generic-core"; ParserVersion := "0.1.0"; CoreVersion := "0.1.0";
       SchemaVersion := "1.3.0"; ReceivedTime := re_ReceivedAt raw; we_Status := "normalized";
       Warnings := [errors_New "unclassified generic pass-through"]; ProcessingHistory := history |};
     OCSF := with_default "class_name" (VStr "Base Event")
               (with_default "category_name" (VStr "Other Activity")
                  (with_default "time" (VInt64 (UnixMilli (re_ReceivedAt raw))) (entries (Fields decRec)))) |}.

Definition unclassified_text (decRec : DecodedRecord) : bool :=
  (Format decRec =s "text") && (Z.of_nat (size (entries (Fields decRec))) <=? 1).

(** Stages 3 to 5: match a pack, normalize.  [inr] is a failure: stage, reason, error. *)
Definition normalize_child (raw : RawEvent) (decRec : DecodedRecord) (history : list ProcessingStep)
    : M (NormalizedEvent + string * string * error) :=
  match cfg_snapshot cfg with
  | Some snap =>
      match Snapshot_Match fmt_float snap decRec with
      | Panic p => mcall (Panic p)
      | Err matchErr =>
          ret (inr ("parser_match",
                    if errors_is matchErr ErrAmbiguousMatch then "ambiguous_source" else "unknown_source",
                    matchErr))
      | Ok pack =>
          step <- stamp "parser_match" (mName (Metadata pack) +:+ "@" +:+ mVersion (Metadata pack)) ;;
          r4 <- draw4 ;;
          now <- Now ;;
          r <- try (normalizer_step (λ n, Normalize fmt_float time_Parse currentYear n raw decRec pack
                                            (history ++ [step]) r4 now)) ;;
          match r with
          | Ok ev => ret (inl ev)
          | Err normErr => ret (inr ("normalize", "schema_error", normErr))
          | Panic p => mcall (Panic p)
          end
      end
  | None =>
      if unclassified_text decRec then
        ret (inr ("parser_match", "unknown_source",
                  errors_New "unclassified text requires a matching parser pack"))
      else
        r4 <- draw4 ;; now <- Now ;;
        ret (inl (generic_event raw decRec history r4 now))
  end.

Definition count_normalized : M bool :=
  count_add (add_normalized 1) ;;; count_add (add_pending (-1)) ;;; ret false.

(** The event is stored with its delivery intents; a sink without durable delivery
    is handed the event at once. *)
Definition store_child (raw : RawEvent) (decRec : DecodedRecord) (ev : NormalizedEvent) : M bool :=
  r <- try (StoreNormalizedWithOutbox fmt_float ev (default [] (cfg_durable cfg))) ;;
  match r with
  | Panic p => mcall (Panic p)
  | Err storeErr => quarantine_child raw decRec "storage" "store_error" storeErr
  | Ok ev' =>
      match cfg_durable cfg with
      | Some _ => count_normalized
      | None =>
          s <- try (emit "" ev') ;;
          match s with
          | Ok _ => count_add (add_delivered 1) ;;; count_normalized
          | Err emitErr =>
              d <- try (DeleteNormalizedChild (re_RawID raw) (RecordOrdinal decRec)) ;;
              match d with
              | Ok _ => quarantine_child raw decRec "output" "sink_error" emitErr
              | _ => ret true
              end
          | Panic p => mcall (Panic p)
          end
      end
  end.

Definition fresh_child (raw : RawEvent) (history : list ProcessingStep) (decRec : DecodedRecord) : M bool :=
  step <- stamp "decode" (Format decRec) ;;
  n <- normalize_child raw decRec (history ++ [step]) ;;
  match n with
  | inr (stage, reason, err) => quarantine_child raw decRec stage reason err
  | inl ev =>
      now <- Now ;;
      match Validate fmt_float ev now with
      | Ok ev' => store_child raw decRec ev'
      | Err valErr => quarantine_child raw decRec "validate" "schema_error" valErr
      | Panic p => mcall (Panic p)
      end
  end.

(** One iteration of the loop over the children. *)
Definition process_child (raw : RawEvent) (recovering : bool) (history : list ProcessingStep)
    (decRec : DecodedRecord) : M bool :=
  if recovering then
    c <- try (HasCompletedChild (re_RawID raw) (RecordOrdinal decRec)) ;;
    match c with
    | Ok true => ret false
    | Ok false => fresh_child raw history decRec
    | _ => ret true
    end
  else fresh_child raw history decRec.

Fixpoint process_children (raw : RawEvent) (recovering : bool) (history : list ProcessingStep)
    (recs : list DecodedRecord) : M bool :=
  match recs with
  | [] => ret false
  | decRec :: recs' =>
      u <- process_child raw recovering history decRec ;;
      us <- process_children raw recovering history recs' ;;
      ret (u || us)
  end.

(** The status of the parent, once every child was visited. *)
Definition finish_parent (raw : RawEvent) (unresolved : bool) : M unit :=
  if unresolved then update_status_ignored (re_RawID raw) StatusAccepted
  else
    c <- try (ChildOutcomeCounts (re_RawID raw)) ;;
    match c with
    | Ok nq => update_status_ignored (re_RawID raw) (derived_status nq)
    | _ => update_status_ignored (re_RawID raw) StatusAccepted
    end.

(** *** processRecord *)

Definition commit (rec : IngestedRecord) : M RawEvent :=
  if ir_ExistingRawID rec <>s "" then Retrieve (ir_ExistingRawID rec) else Store rec.

Definition refuse : M unit := count_add (add_accepted (-1)) ;;; count_add (add_pending (-1)).

Definition add_both (delta : Z) : M unit :=
  count_add (add_accepted delta) ;;; count_add (add_pending delta).

(** The counters follow the expansion of a batch.  [Some false] goes on, [Some true]
    is an empty batch to quarantine, [None] stops. *)
Definition account_children (raw : RawEvent) (recovering : bool) (numChildren : Z) : M (option bool) :=
  if recovering then
    c <- try (CountCompletedChildren (re_RawID raw)) ;;
    match c with
    | Ok completed =>
        (if 0 <? numChildren then add_both (numChildren - completed - 1) else ret ()) ;;;
        ret (Some false)
    | _ => update_status_ignored (re_RawID raw) StatusAccepted ;;; ret None
    end
  else if 1 <? numChildren then add_both (numChildren - 1) ;;; ret (Some false)
  else ret (Some (numChildren =? 0)).

Definition finalized (s : RawStatus) : bool :=
  match s with StatusNormalized | StatusQuarantined | StatusPartial => true | _ => false end.

(** Stages 2 to 6, for a durable raw row. *)
Definition process_raw (raw : RawEvent) (recovering : bool) (history : list ProcessingStep) : M unit :=
  match DetectAndDecode (cfg_registry cfg) (re_Payload raw) with
  | (_, Panic p) => mcall (Panic p)
  | (dec, Err err) =>
      quarantine_payload raw (match dec with None => "format_detect" | Some _ => "decode" end)
        "parse_error" err true
  | (dec, Ok recs) =>
      step <- stamp "format_detect" (match dec with Some d => Name d | None => "" end) ;;
      go <- account_children raw recovering (Z.of_nat (length recs)) ;;
      match go with
      | None => ret ()
      | Some true =>
          quarantine_payload raw "decode" "empty_payload"
            (errors_New "payload produced zero child records") false
      | Some false =>
          u <- process_children raw recovering (history ++ [step]) recs ;;
          finish_parent raw u
      end
  end.

(** What follows the raw commit, and its acknowledgement. *)
Definition after_commit (rec : IngestedRecord) (r : res RawEvent) : M unit :=
  match r with
  | Panic p => mcall (Panic p)
  | Err _ => refuse
  | Ok raw =>
      if re_Duplicate raw && finalized (re_Status raw) then refuse
      else
        let existing := ir_ExistingRawID rec <>s "" in
        step <- stamp "raw_commit" (if existing then "recovered" else "ok") ;;
        process_raw raw (existing || re_Duplicate raw) [step]
  end.

Definition processRecord (rec : IngestedRecord) : M unit := r <- try (commit rec) ;; after_commit rec r.

Definition SubmitSync (rec : IngestedRecord) : M unit :=
  count_add (add_accepted 1) ;;; count_add (add_pending 1) ;;; processRecord rec.

(** *** New and Start: the counters of a new process, and the records it resumes *)

Definition or_zero (r : res Z) : Z := match r with Ok n => n | _ => 0 end.

Definition New : M unit :=
  normCount <- try CountNormalized ;;
  quarCount <- try CountQuarantine ;;
  pendingCount <- try (CountRawStatus StatusAccepted) ;;
  let n := or_zero normCount in
  let q := or_zero quarCount in
  let p := or_zero pendingCount in
  d <- (match cfg_durable cfg with
        | Some _ => c <- try CountDistinctDelivered ;; ret (or_zero c)
        | None => ret n
        end) ;;
  count_add (λ _, {| accepted := n + q + p; normalized := n; quarantined := q; pending := p; delivered := d |}).

Definition existing_record (rawID : string) : IngestedRecord :=
  {| ir_Transport := ""; ir_SourceIP := ""; ir_SourcePort := 0; ir_RawBytes := "";
     ir_ReceivedAt := zero_time; ir_Metadata := no_metadata; ir_ExistingRawID := rawID |}.

Fixpoint process_all (recs : list IngestedRecord) : M unit :=
  match recs with
  | [] => ret ()
  | rec :: recs' => processRecord rec ;;; process_all recs'
  end.

(** The records a restarted process submits to its own workers. *)
Definition Start : M unit :=
  l <- try (ListRawByStatus StatusAccepted) ;;
  match l with
  | Ok raws => process_all (map (λ r, existing_record (re_RawID r)) raws)
  | _ => ret ()
  end.

(** *** Delivery *)

Definition second : Z := 10 ^ 9.
Definition hour : Z := 3600 * second.
Definition backoff_of (attempts : Z) : Z := Z.shiftl second (Z.min attempts 6).

Definition deliver_entry (entry : Entry) : M unit :=
  match Unmarshal (o_payload entry) with
  | None => _ <- try (MarkFailed (o_id entry) (errors_New "invalid event payload") hour 1) ;; ret ()
  | Some event =>
      r <- try (emit (o_destination entry) event) ;;
      match r with
      | Ok _ =>
          d <- try (MarkDelivered (o_id entry)) ;;
          match d with Ok _ => count_add (add_delivered 1) | _ => ret () end
      | Err err => _ <- try (MarkFailed (o_id entry) err (backoff_of (o_attempts entry)) 0) ;; ret ()
      | Panic p => mcall (Panic p)
      end
  end.

Fixpoint deliver_entries (l : list Entry) : M unit :=
  match l with
  | [] => ret ()
  | entry :: l' => deliver_entry entry ;;; deliver_entries l'
  end.

Definition deliverPending : M unit :=
  r <- try (FetchPending 100) ;;
  match r with Ok l => deliver_entries l | _ => ret () end.

(** *** Replay *)

Definition pick_child (recs : list DecodedRecord) (ordinal : Z) : option DecodedRecord :=
  match List.find (λ r, RecordOrdinal r =? ordinal) recs with
  | Some r => Some r
  | None => head recs
  end.

Definition wrap {A} (f : error → error) (m : M A) : M A :=
  r <- try m ;;
  match r with Ok a => ret a | Err e => fail (f e) | Panic p => mcall (Panic p) end.

Definition no_snapshot : error := errors_New "no active parser pack snapshot available for replay".

(** The event that a quarantined child gives today. *)
Definition replay_event (entry : QuarantineEntry) (raw : RawEvent) : M NormalizedEvent :=
  match DetectAndDecode (cfg_registry cfg) (re_Payload raw) with
  | (_, Panic p) => mcall (Panic p)
  | (_, Err err) => fail (Errorf "replay decode failed: %w" [AErr err])
  | (dec, Ok recs) =>
      match pick_child recs (qe_RecordOrdinal entry) with
      | None => fail (errors_New "no decoded records produced upon replay")
      | Some decRec =>
          match cfg_snapshot cfg with
          | None => fail no_snapshot
          | Some snap =>
              pack <- mcall (wrap_err (λ e, Errorf "replay pack match failed: %w" [AErr e])
                               (Snapshot_Match fmt_float snap decRec)) ;;
              s2 <- stamp "format_detect" (match dec with Some d => Name d | None => "" end) ;;
              s3 <- stamp "decode" (Format decRec) ;;
              s4 <- stamp "parser_match" (mName (Metadata pack) +:+ "@" +:+ mVersion (Metadata pack)) ;;
              r4 <- draw4 ;;
              now <- Now ;;
              norm <- wrap (λ e, Errorf "replay normalization failed: %w" [AErr e])
                (normalizer_step (λ n, Normalize fmt_float time_Parse currentYear n raw decRec pack
                   [step_of "raw_commit" "ok" (re_ReceivedAt raw); s2; s3; s4] r4 now)) ;;
              now' <- Now ;;
              mcall (wrap_err (λ e, Errorf "replay validation failed: %w" [AErr e])
                       (Validate fmt_float norm now'))
          end
      end
  end.

(** [if p.quarantined.Load() > 0 { p.quarantined.Add(-1) }], [p.normalized.Add(1)] *)
Definition resolve_counters (c : Counters) : Counters :=
  add_normalized 1 (if 0 <? quarantined c then add_quarantined (-1) c else c).

Definition Replay (qID : string) : M NormalizedEvent :=
  entry <- wrap (λ e, Errorf "failed to retrieve quarantine entry %s: %w" [AStr qID; AErr e])
             (GetQuarantineByID qID) ;;
  raw <- wrap (λ e, Errorf "failed to retrieve raw event %s: %w" [AStr (qe_RawID entry); AErr e])
           (Retrieve (qe_RawID entry)) ;;
  v <- try (Verify (qe_RawID entry)) ;;
  match v with
  | Ok (true, _) =>
      norm <- replay_event entry raw ;;
      norm' <- wrap (λ e, Errorf "failed to commit replay result: %w" [AErr e])
                 (ResolveQuarantineWithOutbox fmt_float qID norm (default [] (cfg_durable cfg))) ;;
      count_add resolve_counters ;;;
      match cfg_durable cfg with
      | Some _ => ret norm'
      | None => emit "" norm' ;;; count_add (add_delivered 1) ;;; ret norm'
      end
  | Panic p => mcall (Panic p)
  | _ => fail (Errorf "cryptographic integrity check failed for raw event %s" [AStr (qe_RawID entry)])
  end.

(** *** Stats *)

Definition Stats : M LossAccountingStats :=
  n <- try CountNormalized ;;
  q <- try CountQuarantine ;;
  d <- (match cfg_durable cfg with
        | Some _ =>
            d <- try CountDistinctDelivered ;;
            dp <- try CountDistinctPending ;;
            df <- try CountDistinctFailed ;;
            count_add (λ c, add_delivered (or_zero d - delivered c) c) ;;;
            ret (Some (or_zero d), or_zero dp, or_zero df)
        | None => ret (None, 0, 0)
        end) ;;
  λ w, let c := w_cnt w in
       let '(del, dp, df) := d in
       (Ok {| Accepted := accepted c; Normalized := or_zero n; Quarantined := or_zero q;
              Pending := pending c; Delivered := default (delivered c) del;
              DeliveryPending := dp; DeliveryFailed := df |}, w).

(** *** The queue of the pipeline: Submit, the workers, Stop *)

Record PState := { ps_world : World; ps_inbound : list IngestedRecord; ps_closed : bool }.

(** [cfg.BufferSize], with its default. *)
Definition buffer_size (n : Z) : Z := if n <=? 0 then 1000 else n.

(** [Submit] never waits: a full buffer is refused.  The send and the two counter
    updates are one step here; between them Go may show a transient imbalance. *)
Definition Submit (size : Z) (rec : IngestedRecord) (p : PState) : res PState :=
  if ps_closed p then Err (errors_New "pipeline is closed")
  else if buffer_size size <=? Z.of_nat (length (ps_inbound p)) then
    Err (errors_New "pipeline buffer full (backpressure limit reached)")
  else
    let w := ps_world p in
    Ok {| ps_world := set_cnt w (add_pending 1 (add_accepted 1 (w_cnt w)));
          ps_inbound := ps_inbound p ++ [rec]; ps_closed := false |}.

Definition Stop (p : PState) : PState :=
  {| ps_world := ps_world p; ps_inbound := ps_inbound p; ps_closed := true |}.

Definition at_world (p : PState) (w : World) : PState :=
  {| ps_world := w; ps_inbound := ps_inbound p; ps_closed := ps_closed p |}.

(** The steps of a running pipeline. *)
Inductive pstep (size : Z) : PState → PState → Prop :=
| step_submit rec p p' : Submit size rec p = Ok p' → pstep size p p'
| step_submit_sync rec p :
    ps_closed p = false → pstep size p (at_world p (SubmitSync rec (ps_world p)).2)
| step_work rec rest p :
    ps_inbound p = rec :: rest →
    pstep size p {| ps_world := (processRecord rec (ps_world p)).2; ps_inbound := rest; ps_closed := ps_closed p |}
| step_deliver p names :
    cfg_durable cfg = Some names → pstep size p (at_world p (deliverPending (ps_world p)).2)
| step_replay qID p : pstep size p (at_world p (Replay qID (ps_world p)).2)
| step_stats p : pstep size p (at_world p (Stats (ps_world p)).2)
| step_stop p : pstep size p (Stop p).

(** The state of a new process: [New] has counted, and [Start] queues the accepted
    records again. *)
Definition started (w : World) (resumed : list RawEvent) : PState :=
  {| ps_world := w; ps_inbound := map (λ r, existing_record (re_RawID r)) resumed; ps_closed := false |}.
End pipeline.
