(* ===== verification/Samples.v ===== *)
(** * A concrete environment and pipeline, for the instances of the theorems *)

From S2P Require Import Prelude GoStrings GoNum GoTime Model Decoder Text Extract Normalize.
From S2P Require Import World RawStore Pipeline.

(** An environment given by the database calls that fail; its draws are suffix-free. *)
Fixpoint as_and_b (k : nat) : string := match k with O => "b" | S k' => as_and_b k' +:+ "a" end.

Definition sample_env (f : nat → bool) (e : nat → option error) : Env := {|
  fault := f; rand4 := as_and_b; clock k := (1790000000 + Z.of_nat k) * 10 ^ 9; emit_fault := e;
  sha256 s := "sha256:" +:+ s; Marshal ev := Ok (EventID (Worm ev)); Unmarshal s := None |}.

Lemma hex_app s t : hex_EncodeToString (s +:+ t) = hex_EncodeToString s +:+ hex_EncodeToString t.
Proof. induction s as [|c s IH]; [done|]. cbn [String.append hex_EncodeToString]. by rewrite IH. Qed.

Lemma snoc_str_inj s t c d : s +:+ chr c = t +:+ chr d → s = t ∧ c = d.
Proof.
  intros He. apply (f_equal bytes_of) in He. rewrite !bytes_of_app in He.
  apply app_inj_tail in He as [He Hc]. split; [|done].
  by rewrite <- (of_bytes_of s), <- (of_bytes_of t), He.
Qed.

Lemma suffix_snoc id s t c d :
  HasSuffix id (s +:+ chr c) = true → HasSuffix id (t +:+ chr d) = true →
  c = d ∧ ∃ id', HasSuffix id' s = true ∧ HasSuffix id' t = true.
Proof.
  intros (u & ->)%HasSuffix_spec (v & Hv)%HasSuffix_spec.
  rewrite <- !app_assoc_str in Hv. apply snoc_str_inj in Hv as [Hv Hc]. split; [done|].
  exists (u +:+ s). split; apply HasSuffix_spec; [by exists u|by exists v].
Qed.

Definition sample_world : World := {|
  w_db := empty_db; w_cnt := {| accepted := 0; normalized := 0; quarantined := 0; pending := 0; delivered := 0 |};
  w_seq := 0; w_norm := NewNormalizer; w_emitted := []; w_calls := 0; w_rands := 0; w_ticks := 0; w_emits := 0 |}.

Definition sample_cfg : Config := {|
  cfg_registry := [TextDecoder]; cfg_snapshot := None; cfg_durable := None |}.

Definition sample_input : IngestedRecord := {|
  ir_Transport := "http"; ir_SourceIP := "10.0.0.9"; ir_SourcePort := 4000; ir_RawBytes := "hello";
  ir_ReceivedAt := 1790000000 * 10 ^ 9; ir_Metadata := no_metadata; ir_ExistingRawID := "" |}.

(** No failure, and a database that dies after the raw commit. *)
Definition calm : Env := sample_env (λ _, false) (λ _, None).
Definition dying : Env := sample_env (λ k, (0 <? k)%nat) (λ _, None).

(** An event, its delivery rows (one due, one delivered before, one whose payload is no
    event), and an environment that can read the event back. *)
Definition sample_event : NormalizedEvent := {|
  Worm := {| EventID := "worm-evt-1"; we_RawID := "raw-1"; we_RawSHA256 := "ab"; we_RawBytes := 5;
             we_RecordOrdinal := 0; SourceCategory := "other"; SourceID := "10.0.0.9";
             we_ParserPack := "generic-core"; ParserVersion := "0.1.0"; CoreVersion := "0.1.0";
             SchemaVersion := "1.3.0"; ReceivedTime := 0; we_Status := "normalized"; Warnings := [];
             ProcessingHistory := [] |};
  OCSF := ∅ |}.

Definition sample_out (id : Z) (payload status : string) : OutRow := {|
  o_id := id; o_event_id := "worm-evt-1"; o_destination := "file"; o_payload := payload; o_attempts := 0;
  o_next_retry := 0; o_ack := None; o_error := None; o_status := status; o_created := 0 |}.

Definition outbox_env : Env := {|
  fault := λ _, false; rand4 := as_and_b; clock k := (1790000000 + Z.of_nat k) * 10 ^ 9;
  emit_fault := λ _, None; sha256 s := "sha256:" +:+ s; Marshal ev := Ok (EventID (Worm ev));
  Unmarshal s := if s =s "worm-evt-1" then Some sample_event else None |}.

Definition outbox_world : World := set_db sample_world
  (with_outs empty_db [sample_out 1 "worm-evt-1" "pending"; sample_out 2 "worm-evt-1" "delivered";
                       sample_out 3 "?" "pending"] 3).

(** An event known by its identifier. *)
Definition event_with (id : string) : NormalizedEvent := {|
  Worm := {| EventID := id; we_RawID := ""; we_RawSHA256 := ""; we_RawBytes := 0; we_RecordOrdinal := 0;
             SourceCategory := ""; SourceID := ""; we_ParserPack := ""; ParserVersion := ""; CoreVersion := "";
             SchemaVersion := ""; ReceivedTime := 0; we_Status := ""; Warnings := []; ProcessingHistory := [] |};
  OCSF := ∅ |}.
