(* ===== verification/Delivery.v ===== *)
(** * Delivery from the outbox: what a pass of [deliverPending] does to each row *)

From S2P Require Import Prelude GoStrings GoNum GoTime Model Normalize World RawStore StoreSpec Outbox Pipeline Samples.

#[local] Open Scope monad_scope.

Abbreviation delivery_log := (list (string * NormalizedEvent)).

Section delivery.
Context `{Env}.

(** The life of a row in one pass, against the log of the deliveries made so far.  A
    delivered or failed row never moves; a pending one is delivered only after its
    sink accepted its event, fails for good only when its payload is no event, and is
    otherwise tried again later. *)
Inductive delivery_step (log : delivery_log) (o : OutRow) : OutRow → Prop :=
| ds_same : delivery_step log o o
| ds_delivered now ev :
    has_status "pending" o = true → Unmarshal (o_payload o) = Some ev → (o_destination o, ev) ∈ log →
    delivery_step log o (mark_delivered now o)
| ds_retry now e ev :
    has_status "pending" o = true → Unmarshal (o_payload o) = Some ev →
    delivery_step log o (mark_failed (now + backoff_of (o_attempts o)) e 0 o)
| ds_failed now e :
    has_status "pending" o = true → Unmarshal (o_payload o) = None →
    delivery_step log o (mark_failed (now + hour) e 1 o).

Lemma delivery_step_mono log log' o o' :
  log ⊆ log' → delivery_step log o o' → delivery_step log' o o'.
Proof. intros Hl []; econstructor; eauto. Qed.

(** What a pass does to the rows with identifiers [ids]; the others do not move. *)
Definition moves (ids : list Z) (log : delivery_log) (o o' : OutRow) : Prop :=
  o_id o' = o_id o ∧ delivery_step log o o' ∧ (o_id o ∉ ids → o' = o).

Definition pass (ids : list Z) (w w' : World) : Prop :=
  Forall2 (moves ids (w_emitted w')) (outs (w_db w)) (outs (w_db w')) ∧ w_emitted w ⊆ w_emitted w'.

Lemma pass_same ids w w' : outs (w_db w') = outs (w_db w) → w_emitted w ⊆ w_emitted w' → pass ids w w'.
Proof.
  intros Ho He. split; [|done]. rewrite Ho. apply Forall_Forall2_diag, Forall_forall. intros o _.
  split_and!; [done|constructor|done].
Qed.

(** Rows that the first part handled are left alone by the second. *)
Lemma pass_trans i ids w w1 w2 : i ∉ ids → pass [i] w w1 → pass ids w1 w2 → pass (i :: ids) w w2.
Proof.
  intros Hi [HA E1] [HB E2]. split; [|set_solver]. eapply Forall2_trans; [|exact HA|exact HB].
  intros x y z (Hid1 & Hs1 & Hn1) (Hid2 & Hs2 & Hn2). split_and!.
  - congruence.
  - destruct (decide (o_id x = i)) as [Hx|Hx].
    + rewrite Hn2 by congruence. by apply (delivery_step_mono (w_emitted w1)).
    + rewrite Hn1 in Hs2 by set_solver. done.
  - intros Hx. rewrite Hn2, Hn1 by set_solver. done.
Qed.

Lemma pass_update i f e w w' :
  NoDup (o_id <$> outs (w_db w)) → e ∈ outs (w_db w) → o_id e = i → o_id (f e) = i →
  delivery_step (w_emitted w') e (f e) →
  outs (w_db w') = update_where (by_id i) f (outs (w_db w)) → w_emitted w ⊆ w_emitted w' →
  pass [i] w w'.
Proof.
  intros Hnd He Hi Hfi Hstep Ho Hem. split; [|done]. rewrite Ho. unfold update_where.
  change (map ?g) with (fmap (M := list) g). apply Forall2_fmap_r, Forall_Forall2_diag, Forall_forall.
  intros o Hin. unfold compose, moves, by_id. cbv beta. destruct (Z.eqb_spec (o_id o) i) as [Hoi|Hoi].
  - assert (o = e) as -> by (apply (NoDup_fmap_inj o_id (outs (w_db w))); [done..|congruence]).
    split_and!; [congruence|done|set_solver].
  - split_and!; [done|constructor|done].
Qed.

(** A mark is made, or the call failed and nothing changed. *)
Lemma wp_MarkFailed i err b m w :
  wp (MarkFailed i err b m) (λ r w', w_emitted w' = w_emitted w ∧
    (outs (w_db w') = outs (w_db w)
     ∨ ∃ now, outs (w_db w') = update_where (by_id i) (mark_failed (now + b) err m) (outs (w_db w)))) w.
Proof.
  unfold MarkFailed. apply wp_bind, wp_Now. intros now w1 [] Hd1. apply wp_exec.
  - intros e w2 [] Hd2. split; [congruence|left; congruence].
  - intros w2 [] Hd2. split; [congruence|right]. exists now. by rewrite Hd2, Hd1.
Qed.

Lemma wp_MarkDelivered i w :
  wp (MarkDelivered i) (λ r w', w_emitted w' = w_emitted w ∧
    (outs (w_db w') = outs (w_db w)
     ∨ ∃ now, outs (w_db w') = update_where (by_id i) (mark_delivered now) (outs (w_db w)))) w.
Proof.
  unfold MarkDelivered. apply wp_bind, wp_Now. intros now w1 [] Hd1. apply wp_exec.
  - intros e w2 [] Hd2. split; [congruence|left; congruence].
  - intros w2 [] Hd2. split; [congruence|right]. exists now. by rewrite Hd2, Hd1.
Qed.

Lemma wp_emit_log dest ev w :
  wp (emit dest ev) (λ r w', w_db w' = w_db w ∧
    match r with
    | Ok _ => w_emitted w' = w_emitted w ++ [(dest, ev)]
    | Err _ => w_emitted w' = w_emitted w
    | Panic _ => False
    end) w.
Proof. unfold wp, emit. by destruct (emit_fault _). Qed.

Lemma wp_deliver_entry e w :
  NoDup (o_id <$> outs (w_db w)) → e ∈ outs (w_db w) → has_status "pending" e = true →
  wp (deliver_entry e) (λ _ w', pass [o_id e] w w') w.
Proof.
  intros Hnd He Hp. unfold deliver_entry. destruct (Unmarshal (o_payload e)) as [ev|] eqn:Eu.
  - apply wp_bind, wp_try. eapply wp_mono; [apply wp_emit_log|]. cbv beta. intros r w1 [Hd1 Hem1].
    destruct r as [[]|err|p]; [| |done].
    + assert (w_emitted w ⊆ w_emitted w1 ∧ (o_destination e, ev) ∈ w_emitted w1) as [Hsub Hlog]
        by (rewrite Hem1; set_solver).
      apply wp_bind, wp_try. eapply wp_mono; [apply wp_MarkDelivered|]. cbv beta. rewrite Hd1.
      intros r w2 [Hem2 Ho2]. rewrite <- Hem2 in Hsub, Hlog.
      assert (∀ w3, w_db w3 = w_db w2 → w_emitted w3 = w_emitted w2 → pass [o_id e] w w3) as Hpass.
      { intros w3 Hd3 He3. rewrite <- He3 in Hsub, Hlog. destruct Ho2 as [Ho2|[now Ho2]].
        - apply pass_same; [by rewrite Hd3|done].
        - apply (pass_update _ (mark_delivered now) e); try done; [|by rewrite Hd3].
          by apply (ds_delivered _ _ now ev). }
      destruct r as [[]|err|p]; by apply Hpass.
    + apply wp_bind, wp_try. eapply wp_mono; [apply wp_MarkFailed|]. cbv beta. rewrite Hd1.
      intros r w2 [Hem2 Ho2]. rewrite Hem1 in Hem2.
      assert (pass [o_id e] w w2) as Hpass.
      { destruct Ho2 as [Ho2|[now Ho2]]; [apply pass_same; [done|by rewrite Hem2]|].
        apply (pass_update _ (mark_failed (now + backoff_of (o_attempts e)) err 0) e); try done;
          [by apply (ds_retry _ _ now err ev)|by rewrite Hem2]. }
      destruct r as [[]|err'|p]; done.
  - apply wp_bind, wp_try. eapply wp_mono; [apply wp_MarkFailed|]. cbv beta. intros r w2 [Hem2 Ho2].
    assert (pass [o_id e] w w2) as Hpass.
    { destruct Ho2 as [Ho2|[now Ho2]]; [apply pass_same; [done|by rewrite Hem2]|].
      apply (pass_update _ (mark_failed (now + hour) (errors_New "invalid event payload") 1) e); try done;
        [by apply ds_failed|by rewrite Hem2]. }
    destruct r as [[]|err'|p]; done.
Qed.

Lemma pass_ids ids w w' : pass ids w w' → o_id <$> outs (w_db w') = o_id <$> outs (w_db w).
Proof.
  intros [HF _]. induction HF as [|x y l k (Hid & _ & _) _ IH]; [done|]. rewrite !fmap_cons. by f_equal.
Qed.

Lemma pass_elem ids w w' e : pass ids w w' → e ∈ outs (w_db w) → o_id e ∉ ids → e ∈ outs (w_db w').
Proof.
  intros [HF _] [k Hk]%list_elem_of_lookup Hn. destruct (Forall2_lookup_l _ _ _ _ _ HF Hk) as (y & Hy & _ & _ & Hs).
  rewrite (Hs Hn) in Hy. by eapply list_elem_of_lookup_2.
Qed.

Lemma wp_deliver_entries l w :
  NoDup (o_id <$> outs (w_db w)) → NoDup (o_id <$> l) →
  (∀ e, e ∈ l → e ∈ outs (w_db w) ∧ has_status "pending" e = true) →
  wp (deliver_entries l) (λ _ w', pass (o_id <$> l) w w') w.
Proof.
  revert w. induction l as [|e l IH]; intros w Hnd Hl Hin; [by apply pass_same|].
  rewrite fmap_cons in Hl. apply NoDup_cons in Hl as [He Hl]. cbn [deliver_entries]. apply wp_bind.
  destruct (Hin e (list_elem_of_here _ _)) as [Heo Hep].
  eapply wp_mono; [by apply wp_deliver_entry|]. cbv beta. intros r w1 Hp1.
  assert (pass (o_id <$> e :: l) w w1) as Hp1'.
  { destruct Hp1 as [HF Hem]. split; [|done]. eapply Forall2_impl; [exact HF|].
    intros x y (? & ? & Hs). split_and!; [done..|]. intros Hx. apply Hs. set_solver. }
  destruct r as [[]|err|p]; [|done..].
  eapply wp_mono; [apply IH|].
  - by rewrite (pass_ids _ _ _ Hp1).
  - done.
  - intros e' He'. destruct (Hin e') as [Ho' Hp']; [by right|]. split; [|done].
    apply (pass_elem _ _ _ _ Hp1 Ho'). intros Heq%list_elem_of_singleton. apply He.
    rewrite <- Heq. by apply list_elem_of_fmap_2.
  - cbv beta. intros r w2 Hp2. rewrite fmap_cons. by apply (pass_trans _ _ _ w1).
Qed.
End delivery.

(** ** Properties *)

(** C6: a delivery pass only marks a row delivered after its destination accepted its
    event, never moves a delivered or failed row, and gives up only on a payload that
    is no event: any other pending row stays pending, to be tried again; whatever
    fails. *)
Theorem deliverPending_safe (env : Env) (w : World) :
  NoDup (o_id <$> outs (w_db w)) →
  Forall2 (λ o o', o_id o' = o_id o ∧ delivery_step (w_emitted (deliverPending w).2) o o')
    (outs (w_db w)) (outs (w_db (deliverPending w).2))
  ∧ w_emitted w ⊆ w_emitted (deliverPending w).2.
Proof.
  intros Hnd. assert (∀ ids w', pass ids w w' →
    Forall2 (λ o o', o_id o' = o_id o ∧ delivery_step (w_emitted w') o o') (outs (w_db w)) (outs (w_db w'))
    ∧ w_emitted w ⊆ w_emitted w') as Hpass.
  { intros ids w' [HF Hem]. split; [|done]. eapply Forall2_impl; [exact HF|]. by intros x y (? & ? & _). }
  assert (wp deliverPending (λ _ w', ∃ ids, pass ids w w') w) as Hwp.
  2: { unfold wp in Hwp. destruct (deliverPending w) as [r w']. destruct Hwp as [ids Hp]. by apply (Hpass ids). }
  unfold deliverPending, FetchPending. apply wp_bind, wp_try, wp_bind, wp_Now. intros now w1 [_ _ He1 _ _ _] Hd1.
  eapply wp_mono; [apply (wp_read (λ db, page _ _ (order_by _ (List.filter (due now) (outs db)))))|].
  cbv beta. intros r w2 ([_ He2 _ _] & Hd2 & Hr). rewrite Hd1 in *.
  destruct r as [l|e|p]; [|exists []; apply pass_same; [congruence|by rewrite He2, He1]|done].
  set (due_rows := List.filter (due now) (outs (w_db w))) in *.
  assert (∀ e, e ∈ l → e ∈ due_rows) as Hsub.
  { intros e He. rewrite Hr in He. apply page_elem in He. by rewrite order_by_perm in He. }
  assert (NoDup (o_id <$> l)) as Hndl.
  { rewrite Hr. apply page_NoDup. rewrite (order_by_perm _ due_rows).
    by apply (NoDup_fmap_filter o_id (due now)). }
  eapply wp_mono; [apply wp_deliver_entries|]; rewrite ?Hd2; try done.
  - intros e He%Hsub. unfold due_rows in He. rewrite list_elem_of_In, filter_In in He.
    destruct He as [Hin Hdue]. rewrite list_elem_of_In. split; [done|]. by apply andb_prop in Hdue as [? _].
  - cbv beta. intros _ w3 [HF Hem]. exists (o_id <$> l). rewrite Hd2, He2, He1 in *. by split.
Qed.

Lemma deliverPending_safe_witness :
  NoDup (o_id <$> outs (w_db outbox_world))
  ∧ (o_status <$> outs (w_db (@deliverPending outbox_env outbox_world).2))
    = ["delivered"; "delivered"; "failed"]
  ∧ Forall2 (λ o o', o_id o' = o_id o
      ∧ @delivery_step outbox_env (w_emitted (@deliverPending outbox_env outbox_world).2) o o')
      (outs (w_db outbox_world)) (outs (w_db (@deliverPending outbox_env outbox_world).2)).
Proof.
  assert (NoDup (o_id <$> outs (w_db outbox_world))) as Hnd by (vm_compute; repeat constructor; set_solver).
  split; [exact Hnd|]. split; [vm_compute; reflexivity|].
  exact (proj1 (@deliverPending_safe outbox_env outbox_world Hnd)).
Defined.

(** the retry delay doubles from one second and never exceeds 64 seconds. *)
Theorem backoff_bounds (attempts : Z) :
  0 ≤ attempts →
  second ≤ backoff_of attempts ≤ 64 * second
  ∧ (attempts < 6 → backoff_of (attempts + 1) = 2 * backoff_of attempts)
  ∧ (6 ≤ attempts → backoff_of attempts = 64 * second).
Proof.
  intros Ha. unfold backoff_of. rewrite !Z.shiftl_mul_pow2 by lia.
  assert (1 ≤ 2 ^ Z.min attempts 6 ≤ 64) as Hb.
  { split; [apply Z.lt_pred_le, Z.pow_pos_nonneg; lia|].
    change 64 with (2 ^ 6). apply Z.pow_le_mono_r; lia. }
  assert (0 < second) by done. split_and!; [nia|nia| |].
  - intros Hlt. rewrite !Z.min_l by lia. rewrite Z.pow_add_r by lia. lia.
  - intros Hge. rewrite Z.min_r by lia. change (2 ^ 6) with 64. lia.
Qed.

Lemma backoff_bounds_witness : second ≤ backoff_of 3 ≤ 64 * second ∧ backoff_of 3 = 8 * second.
Proof. split; [apply backoff_bounds; lia|vm_compute; reflexivity]. Defined.
