(* ===== verification/Accounting.v ===== *)
(** * Loss accounting: the counters of the pipeline

    [Stats] reports accepted, normalized, quarantined and pending; the program's
    contract ([LossAccountingStats.VerifyInvariant]) is that the first is the sum of
    the others.  Here: every operation of the pipeline keeps that equation, for every
    schedule of failures. *)

From S2P Require Import Prelude GoStrings GoNum GoTime Model Decoder Registry Pack Snapshot Extract Normalize.
From S2P Require Import World RawStore Outbox Pipeline.

(** ** The store and the queue leave the counters alone *)

Definition same_cnt (w w' : World) : Prop := w_cnt w' = w_cnt w.
#[export] Instance same_cnt_preorder : PreOrder same_cnt.
Proof. split; [done|]. intros x y z. unfold same_cnt. congruence. Qed.

Definition balance (c : Counters) : Z := accepted c - normalized c - quarantined c - pending c.
Definition same_balance (w w' : World) : Prop := balance (w_cnt w') = balance (w_cnt w).
#[export] Instance same_balance_preorder : PreOrder same_balance.
Proof. split; [done|]. intros x y z. unfold same_balance. congruence. Qed.

Lemma same_cnt_balance w w' : same_cnt w w' → same_balance w w'.
Proof. unfold same_cnt, same_balance. by intros ->. Qed.

Section same_cnt.
Context `{Env}.

Lemma cnt_db_call {A} (f : Db → res A * Db) : keeps same_cnt (db_call f).
Proof.
  intros w. unfold db_call, same_cnt. destruct (fault _); [done|]. by destruct (f (w_db w)) as [[] ?].
Qed.
Lemma cnt_query {A} (f : Db → res A) : keeps same_cnt (query f).
Proof. apply cnt_db_call. Qed.
Lemma cnt_query_row {A} (f : Db → option A) : keeps same_cnt (query_row f).
Proof. apply cnt_db_call. Qed.
Lemma cnt_exec f : keeps same_cnt (exec f).
Proof. apply cnt_db_call. Qed.
Lemma cnt_transaction {A} (body : M A) : keeps same_cnt body → keeps same_cnt (transaction body).
Proof.
  intros Hb w. unfold transaction.
  pose proof (cnt_query (λ _ : Db, Ok ()) w) as H1. destruct (query _ w) as [[[]|e|p] w0]; [|done..].
  specialize (Hb w0). destruct (body w0) as [[a|e|p] w1]; unfold same_cnt in *; simpl in *; [|congruence..].
  pose proof (cnt_query (λ _ : Db, Ok ()) w1) as H2. destruct (query _ w1) as [[[]|e|p] w2];
    unfold same_cnt in *; simpl in *; congruence.
Qed.
Lemma cnt_Now : keeps same_cnt Now. Proof. done. Qed.
Lemma cnt_draw4 : keeps same_cnt draw4. Proof. done. Qed.
Lemma cnt_next_seq : keeps same_cnt next_seq. Proof. done. Qed.
Lemma cnt_emit d ev : keeps same_cnt (emit d ev).
Proof. intros w. unfold emit, same_cnt. by destruct (emit_fault _). Qed.
Lemma cnt_normalizer_step {A} (f : Normalizer → res A * Normalizer) : keeps same_cnt (normalizer_step f).
Proof. intros w. unfold normalizer_step, same_cnt. by destruct (f (w_norm w)). Qed.
End same_cnt.
#[export] Hint Resolve cnt_db_call cnt_query cnt_query_row cnt_exec cnt_Now cnt_draw4 cnt_next_seq cnt_emit
  cnt_normalizer_step : worm.

Section store_cnt.
Context (fmt_float : f64 → string) `{GoPlatform} `{Env}.

Lemma cnt_Retrieve id : keeps same_cnt (Retrieve id).
Proof. unfold Retrieve. keeps_tac. Qed.
Lemma cnt_spool_replay rec sha : keeps same_cnt (spool_replay rec sha).
Proof. unfold spool_replay. keeps_tac. apply cnt_Retrieve. Qed.
Lemma cnt_Store rec : keeps same_cnt (Store rec).
Proof. unfold Store. keeps_tac; apply cnt_spool_replay. Qed.
Lemma cnt_Verify id : keeps same_cnt (Verify id).
Proof. unfold Verify. keeps_tac. apply cnt_Retrieve. Qed.
Lemma cnt_UpdateStatus id st : keeps same_cnt (UpdateStatus id st).
Proof. unfold UpdateStatus. keeps_tac. Qed.
Lemma cnt_QuarantineChild e : keeps same_cnt (QuarantineChild e).
Proof. unfold QuarantineChild, quarantine. keeps_tac; apply cnt_transaction; keeps_tac. Qed.
Lemma cnt_GetQuarantineByID id : keeps same_cnt (GetQuarantineByID id).
Proof. unfold GetQuarantineByID. keeps_tac. Qed.
Lemma cnt_enqueue_all id data now dests : keeps same_cnt (enqueue_all id data now dests).
Proof. induction dests; cbn [enqueue_all]; keeps_tac; done. Qed.
Lemma cnt_storeNormalizedTx ev dests : keeps same_cnt (storeNormalizedTx fmt_float ev dests).
Proof. unfold storeNormalizedTx. keeps_tac; apply cnt_enqueue_all. Qed.
Lemma cnt_StoreNormalizedWithOutbox ev dests : keeps same_cnt (StoreNormalizedWithOutbox fmt_float ev dests).
Proof. apply cnt_transaction, cnt_storeNormalizedTx. Qed.
Lemma cnt_DeleteNormalizedChild id o : keeps same_cnt (DeleteNormalizedChild id o).
Proof. unfold DeleteNormalizedChild. keeps_tac. Qed.
Lemma cnt_HasCompletedChild id o : keeps same_cnt (HasCompletedChild id o).
Proof. unfold HasCompletedChild. keeps_tac. Qed.
Lemma cnt_CountCompletedChildren id : keeps same_cnt (CountCompletedChildren id).
Proof. unfold CountCompletedChildren. keeps_tac. Qed.
Lemma cnt_ChildOutcomeCounts id : keeps same_cnt (ChildOutcomeCounts id).
Proof. unfold ChildOutcomeCounts. keeps_tac. Qed.
Lemma cnt_ResolveQuarantine id ev dests : keeps same_cnt (ResolveQuarantineWithOutbox fmt_float id ev dests).
Proof.
  unfold ResolveQuarantineWithOutbox. apply cnt_transaction.
  keeps_tac; first [apply cnt_storeNormalizedTx|apply cnt_ChildOutcomeCounts].
Qed.
Lemma cnt_retrieve_all ids : keeps same_cnt (retrieve_all ids).
Proof. induction ids; cbn [retrieve_all]; keeps_tac; first [apply cnt_Retrieve|done]. Qed.
Lemma cnt_ListRawByStatus st : keeps same_cnt (ListRawByStatus st).
Proof. unfold ListRawByStatus. keeps_tac. apply cnt_retrieve_all. Qed.
Lemma cnt_FetchPending n : keeps same_cnt (FetchPending n).
Proof. unfold FetchPending. keeps_tac. Qed.
Lemma cnt_MarkDelivered id : keeps same_cnt (MarkDelivered id).
Proof. unfold MarkDelivered. keeps_tac. Qed.
Lemma cnt_MarkFailed id e b m : keeps same_cnt (MarkFailed id e b m).
Proof. unfold MarkFailed. keeps_tac. Qed.
End store_cnt.
#[export] Hint Resolve cnt_Retrieve cnt_Store cnt_Verify cnt_UpdateStatus cnt_QuarantineChild cnt_GetQuarantineByID
  cnt_StoreNormalizedWithOutbox cnt_DeleteNormalizedChild cnt_HasCompletedChild cnt_CountCompletedChildren
  cnt_ChildOutcomeCounts cnt_ResolveQuarantine cnt_ListRawByStatus cnt_FetchPending cnt_MarkDelivered cnt_MarkFailed : worm.

(** ** What every run of the pipeline keeps

    A preorder on worlds that the primitive operations keep is kept by the whole
    pipeline, replay apart: one proof for every such relation. *)

Class PipelineKept `{GoPlatform} `{Env} (fmt_float : f64 → string) (R : World → World → Prop) := {
  pk_pre :: PreOrder R;
  pk_query {A} (f : Db → res A) : keeps R (query f);
  pk_Now : keeps R Now;
  pk_draw4 : keeps R draw4;
  pk_normalizer {A} (f : Normalizer → res A * Normalizer) : keeps R (normalizer_step f);
  pk_emit d ev : keeps R (emit d ev);
  pk_Store rec : keeps R (Store rec);
  pk_UpdateStatus i st : keeps R (UpdateStatus i st);
  pk_StoreNormalized ev dests : keeps R (StoreNormalizedWithOutbox fmt_float ev dests);
  pk_Delete i o : keeps R (DeleteNormalizedChild i o);
  pk_MarkDelivered i : keeps R (MarkDelivered i);
  pk_MarkFailed i e b m : keeps R (MarkFailed i e b m);
  pk_persistQuarantine e : keeps R (persistQuarantine e);
  pk_count_normalized : keeps R count_normalized;
  pk_add_both d : keeps R (add_both d);
  pk_delivered (f : Counters → Z) : keeps R (count_add (λ c, add_delivered (f c) c));
}.
#[export] Hint Resolve pk_query pk_Now pk_draw4 pk_normalizer pk_emit pk_Store pk_UpdateStatus pk_StoreNormalized
  pk_Delete pk_MarkDelivered pk_MarkFailed pk_persistQuarantine pk_count_normalized pk_add_both pk_delivered : worm.

Section kept.
Context (fmt_float : f64 → string) (time_Parse : string → string → option gtime) (currentYear : Z).
Context `{GoPlatform} `{MapOrder} `{Env} (cfg : Config).
Context (R : World → World → Prop) `{!PipelineKept fmt_float R}.

Lemma pk_query_row {A} (f : Db → option A) : keeps R (query_row f).
Proof using All. apply pk_query. Qed.
Lemma pk_delivered_const d : keeps R (count_add (add_delivered d)).
Proof using All. apply (pk_delivered (λ _, d)). Qed.
Hint Resolve pk_query_row pk_delivered_const : worm.
Lemma pk_Retrieve i : keeps R (Retrieve i).
Proof using All. unfold Retrieve. keeps_tac. Qed.
Lemma pk_reads i o : keeps R (HasCompletedChild i o) ∧ keeps R (CountCompletedChildren i)
  ∧ keeps R (ChildOutcomeCounts i).
Proof using All. split_and!; apply pk_query. Qed.
Lemma pk_counts : keeps R CountNormalized ∧ keeps R CountQuarantine ∧ keeps R CountDistinctDelivered
  ∧ keeps R CountDistinctPending ∧ keeps R CountDistinctFailed.
Proof using All. split_and!; apply pk_query. Qed.
Hint Resolve pk_Retrieve : worm.
Hint Extern 1 (keeps _ (HasCompletedChild _ _)) => apply pk_reads : worm.
Hint Extern 1 (keeps _ (CountCompletedChildren _)) => apply (pk_reads _ 0) : worm.
Hint Extern 1 (keeps _ (ChildOutcomeCounts _)) => apply (pk_reads _ 0) : worm.
Hint Extern 1 (keeps _ CountNormalized) => apply pk_counts : worm.
Hint Extern 1 (keeps _ CountQuarantine) => apply pk_counts : worm.
Hint Extern 1 (keeps _ CountDistinctDelivered) => apply pk_counts : worm.
Hint Extern 1 (keeps _ CountDistinctPending) => apply pk_counts : worm.
Hint Extern 1 (keeps _ CountDistinctFailed) => apply pk_counts : worm.

Lemma pk_stamp s r : keeps R (stamp s r).
Proof using All. unfold stamp. keeps_tac. Qed.
Lemma pk_update_ignored i st : keeps R (update_status_ignored i st).
Proof using All. unfold update_status_ignored. keeps_tac. Qed.
Lemma pk_refuse : keeps R refuse.
Proof using All. apply (pk_add_both (-1)). Qed.
Hint Resolve pk_stamp pk_update_ignored pk_refuse : worm.

Lemma pk_quarantine_payload raw st re er el : keeps R (quarantine_payload raw st re er el).
Proof using All. unfold quarantine_payload. keeps_tac. Qed.
Lemma pk_quarantine_child raw d st re er : keeps R (quarantine_child raw d st re er).
Proof using All. unfold quarantine_child. keeps_tac. Qed.
Lemma pk_normalize_child raw d h : keeps R (normalize_child fmt_float time_Parse currentYear cfg raw d h).
Proof using All. unfold normalize_child. keeps_tac. Qed.
Lemma pk_store_child raw d ev :
  (∀ st re er, keeps R (quarantine_child raw d st re er)) → keeps R (store_child fmt_float cfg raw d ev).
Proof using All. intros Hq. unfold store_child. keeps_tac. Qed.
Hint Resolve pk_quarantine_payload pk_quarantine_child pk_normalize_child pk_store_child : worm.

Lemma pk_process_child raw r h d :
  keeps R (process_child fmt_float time_Parse currentYear cfg raw r h d).
Proof using All. unfold process_child, fresh_child. keeps_tac. Qed.
Lemma pk_process_children raw r h l :
  keeps R (process_children fmt_float time_Parse currentYear cfg raw r h l).
Proof using All.
  induction l; cbn [process_children]; keeps_tac; first [done|apply pk_process_child].
Qed.
Lemma pk_finish_parent raw u : keeps R (finish_parent raw u).
Proof using All. unfold finish_parent. keeps_tac. Qed.
Lemma pk_account_children raw r n : keeps R (account_children raw r n).
Proof using All. unfold account_children. keeps_tac. Qed.
Hint Resolve pk_process_children pk_finish_parent pk_account_children : worm.

Lemma pk_after_commit rec r : keeps R (after_commit fmt_float time_Parse currentYear cfg rec r).
Proof using All. unfold after_commit, process_raw. keeps_tac. Qed.
Hint Resolve pk_after_commit : worm.
Lemma pk_commit rec : keeps R (commit rec).
Proof using All. unfold commit. keeps_tac. Qed.
Hint Resolve pk_commit : worm.
Lemma pk_processRecord rec : keeps R (processRecord fmt_float time_Parse currentYear cfg rec).
Proof using All. unfold processRecord. keeps_tac. Qed.
Lemma pk_process_all l : keeps R (process_all fmt_float time_Parse currentYear cfg l).
Proof using All. induction l; cbn [process_all]; keeps_tac; first [done|apply pk_processRecord]. Qed.
Lemma pk_deliver_entries l : keeps R (deliver_entries l).
Proof using All. induction l; cbn [deliver_entries]; [keeps_tac|]. unfold deliver_entry. keeps_tac; done. Qed.
Lemma pk_deliverPending : keeps R deliverPending.
Proof using All. unfold deliverPending, FetchPending. keeps_tac; apply pk_deliver_entries. Qed.
Lemma pk_wrap {A} f (m : M A) : keeps R m → keeps R (wrap f m).
Proof using All. intros Hm. unfold wrap. keeps_tac; done. Qed.
Lemma pk_Verify i : keeps R (Verify i).
Proof using All. unfold Verify. keeps_tac. Qed.
Lemma pk_GetQuarantineByID i : keeps R (GetQuarantineByID i).
Proof using All. unfold GetQuarantineByID. keeps_tac. Qed.
Lemma pk_replay_event e raw : keeps R (replay_event fmt_float time_Parse currentYear cfg e raw).
Proof using All. unfold replay_event. keeps_tac; apply pk_wrap; keeps_tac. Qed.
Lemma pk_Stats : keeps R (Stats cfg).
Proof using All.
  unfold Stats. keeps_tac. intros w. destruct a1 as [[? ?] ?]. reflexivity.
Qed.
End kept.

(** ** The balance of the counters is kept *)

Lemma cnt_to_balance {A} (m : M A) : keeps same_cnt m → keeps same_balance m.
Proof. apply keeps_mono. intros w w'. apply same_cnt_balance. Qed.

(** Two updates of the counters that cancel out, then the rest. *)
Lemma balance_pair {A} (f g : Counters → Counters) (m : M A) :
  (∀ c, balance (g (f c)) = balance c) → keeps same_balance m →
  keeps same_balance (bind (count_add f) (λ _, bind (count_add g) (λ _, m))).
Proof.
  intros Hfg Hm w. unfold same_balance, bind. simpl.
  etransitivity; [apply Hm|]. simpl. apply Hfg.
Qed.

Ltac solve_balance := intros; match goal with c : Counters |- _ => destruct c end; unfold balance; simpl; lia.

#[export] Instance balance_kept `{GoPlatform} `{Env} fmt_float : PipelineKept fmt_float same_balance.
Proof.
  split; intros; first [apply _|apply cnt_to_balance; solve [eauto with worm]|idtac].
  - unfold persistQuarantine. apply keeps_bind; [apply _|apply keeps_try, cnt_to_balance; eauto with worm|].
    intros [|?|?]; [|keeps_tac..]. apply balance_pair; [solve_balance|keeps_tac].
  - apply balance_pair; [solve_balance|keeps_tac].
  - intros w. unfold same_balance. simpl. destruct (w_cnt w). unfold balance. simpl. lia.
  - intros w. unfold same_balance. simpl. destruct (w_cnt w). unfold balance. simpl. lia.
Qed.
