(* ===== verification/Lifecycle.v ===== *)
(** * The accounting equation over the life of a pipeline

    accepted = counted outcomes + pending holds after any sequence of steps, for every
    schedule of failures.  [Replay] only takes one from the quarantine counter when that
    is positive, so the invariant also says that the counter is at least the number of
    quarantine rows.  The report of [Stats] takes the outcomes from the database: it
    balances if and only if every counted outcome is stored. *)

From S2P Require Import Prelude GoStrings GoNum GoTime Model Decoder Registry Pack Snapshot Extract Normalize.
From S2P Require Import World RawStore StoreSpec Outbox Pipeline Accounting Samples.

#[local] Open Scope monad_scope.

(** How far the quarantine counter is above the number of rows; it never decreases. *)
Definition slack (w : World) : Z := quarantined (w_cnt w) - Z.of_nat (length (quars (w_db w))).
Definition slack_le (w w' : World) : Prop := slack w ≤ slack w'.
#[export] Instance slack_le_preorder : PreOrder slack_le.
Proof. split; [intros x; unfold slack_le; lia|]. intros x y z. unfold slack_le. lia. Qed.

Lemma slack_same w w' :
  w_cnt w' = w_cnt w → quars (w_db w') = quars (w_db w) → slack_le w w'.
Proof. unfold slack_le, slack. intros -> ->. lia. Qed.

Section slack.
Context (fmt_float : f64 → string) `{GoPlatform} `{Env}.

Lemma sl_query {A} (f : Db → res A) : keeps slack_le (query f).
Proof.
  apply keeps_wp. intros w. apply wp_query.
  - intros e w' [] Hd. apply slack_same; congruence.
  - intros w' [] Hd. destruct (f (w_db w)); try done; apply slack_same; congruence.
Qed.
Lemma sl_query_row {A} (f : Db → option A) : keeps slack_le (query_row f).
Proof. apply sl_query. Qed.
Lemma sl_exec f :
  (∀ db db', f db = Ok db' → quars db' = quars db) → keeps slack_le (exec f).
Proof.
  intros Hf. apply keeps_wp. intros w. apply wp_exec.
  - intros e w' [] Hd. apply slack_same; congruence.
  - intros w' []. destruct (f (w_db w)) eqn:E; [|done|]; intros Hd; apply slack_same; [congruence| |congruence..].
    rewrite Hd. by apply Hf.
Qed.
Lemma sl_Now : keeps slack_le Now.
Proof. intros w. by apply slack_same. Qed.
Lemma sl_draw4 : keeps slack_le draw4.
Proof. intros w. by apply slack_same. Qed.
Lemma sl_normalizer_step {A} (f : Normalizer → res A * Normalizer) : keeps slack_le (normalizer_step f).
Proof. intros w. unfold normalizer_step. destruct (f (w_norm w)). by apply slack_same. Qed.
Lemma sl_emit d ev : keeps slack_le (emit d ev).
Proof. intros w. unfold emit. destruct (emit_fault _); by apply slack_same. Qed.
Lemma sl_Retrieve i : keeps slack_le (Retrieve i).
Proof.
  apply keeps_wp. intros w. eapply wp_mono; [apply wp_Retrieve|]. cbv beta.
  intros r w' ([] & Hd & _). apply slack_same; congruence.
Qed.
Lemma sl_Store rec : keeps slack_le (Store rec).
Proof.
  apply keeps_wp. intros w. eapply wp_mono; [apply wp_Store|]. cbv beta.
  intros r w' (_ & Hc & _ & Hr). apply slack_same; [done|].
  destruct r as [raw|e|p]; [destruct (re_Duplicate raw)|..]; [destruct Hr as [-> _]..| |done]; [done..|by rewrite Hr].
Qed.
Lemma sl_UpdateStatus i st : keeps slack_le (UpdateStatus i st).
Proof.
  apply keeps_wp. intros w. eapply wp_mono; [apply wp_UpdateStatus|]. cbv beta.
  intros r w' ([] & [Hd|Hd] & _); apply slack_same; by rewrite ?Hd.
Qed.
Lemma sl_StoreNormalized ev dests : keeps slack_le (StoreNormalizedWithOutbox fmt_float ev dests).
Proof.
  apply keeps_wp. intros w. eapply wp_mono; [apply wp_StoreNormalizedWithOutbox|]. cbv beta.
  intros r w' ([] & Hr). apply slack_same; [done|]. destruct r; [by destruct Hr|by rewrite Hr..].
Qed.
Lemma sl_Delete i o : keeps slack_le (DeleteNormalizedChild i o).
Proof. unfold DeleteNormalizedChild. apply sl_exec. by intros db db' [= <-]. Qed.
Lemma sl_MarkDelivered i : keeps slack_le (MarkDelivered i).
Proof.
  unfold MarkDelivered. apply keeps_bind; [apply _|apply sl_Now|]. intros t. apply sl_exec. by intros db db' [= <-].
Qed.
Lemma sl_MarkFailed i e b m : keeps slack_le (MarkFailed i e b m).
Proof.
  unfold MarkFailed. apply keeps_bind; [apply _|apply sl_Now|]. intros t. apply sl_exec. by intros db db' [= <-].
Qed.
End slack.

#[export] Instance slack_kept `{GoPlatform} `{Env} fmt_float : PipelineKept fmt_float slack_le.
Proof.
  split; intros; eauto using sl_query, sl_Now, sl_draw4, sl_normalizer_step, sl_emit, sl_Store,
    sl_UpdateStatus, sl_StoreNormalized, sl_Delete, sl_MarkDelivered, sl_MarkFailed.
  - apply _.
  - apply keeps_wp. intros w. unfold persistQuarantine. apply wp_bind, wp_try.
    eapply wp_mono; [apply wp_quarantine|]. cbv beta. intros r w' ([Hc _ _ _] & Hr).
    destruct r as [[]|err|p]; [|apply wp_ret, slack_same; [done|by rewrite Hr]|done].
    destruct Hr as (row & db1 & _ & Hu & Hd). simpl in Hd.
    apply upsert_quarantine_spec in Hu as (_ & _ & _ & _ & Hlen).
    unfold wp, slack_le, slack. simpl. rewrite Hd, Hc. lia.
  - intros w. by unfold slack_le, slack.
  - intros w. unfold slack_le, slack. simpl. destruct (w_cnt w). simpl. lia.
  - intros w. unfold slack_le, slack. simpl. destruct (w_cnt w). simpl. lia.
Qed.

(** ** The invariant *)

Definition accounted (w : World) : Prop := balance (w_cnt w) = 0 ∧ 0 ≤ slack w.
Definition keeps_accounted (w w' : World) : Prop := accounted w → accounted w'.
#[export] Instance keeps_accounted_preorder : PreOrder keeps_accounted.
Proof. split; [intros x|intros x y z]; unfold keeps_accounted; auto. Qed.

Lemma keeps_accounted_intro {A} (m : M A) :
  keeps same_balance m → keeps slack_le m → keeps keeps_accounted m.
Proof.
  intros Hb Hs w [H1 H2]. specialize (Hb w). specialize (Hs w).
  unfold same_balance, slack_le in *. split; [congruence|lia].
Qed.

Lemma delete_one {A} (p : A → bool) (l : list A) :
  Z.of_nat (length (delete_where p l)) = Z.of_nat (length l) - count p l.
Proof.
  rewrite <- !count_true, count_delete_where. induction l as [|x l IH]; cbn [count]; [done|].
  rewrite IH. destruct (p x); simpl; lia.
Qed.

Section lifecycle.
Context (fmt_float : f64 → string) (time_Parse : string → string → option gtime) (currentYear : Z).
Context `{GoPlatform} `{MapOrder} `{Env} (cfg : Config).

(** What storing an event writes: a row under its identifier, and a row in the outbox for each
    destination. *)
Definition queued (id dest : string) (db : Db) : Prop := existsb (same_delivery id dest) (outs db) = true.
Record written (ev : NormalizedEvent) (dests : list string) (db : Db) : Prop := {
  wr_norm : existsb (by_event_id (EventID (Worm ev))) (norms db) = true;
  wr_outs dest : dest ∈ dests → queued (EventID (Worm ev)) dest db }.

Lemma upsert_norm_written row db db' : upsert_norm row db = Ok db' → existsb (by_event_id (n_event_id row)) (norms db') = true.
Proof.
  unfold upsert_norm. destruct (negb _); [done|]. destruct (existsb _ (norms db)) eqn:E; intros [= <-]; cbn [norms with_norms].
  - apply existsb_elem in E as (x & Hx & Hp). apply existsb_elem. exists (renormalize row x). split; [|done].
    apply elem_update_where. exists x. by rewrite Hp.
  - apply existsb_elem. exists row. split; [apply elem_of_app; right; by left|]. apply String.eqb_refl.
Qed.

Lemma upsert_delivery_queued ev dest data now db db' : upsert_delivery ev dest data now db = Ok db' →
  norms db' = norms db ∧ queued ev dest db' ∧ ∀ dest', queued ev dest' db → queued ev dest' db'.
Proof.
  unfold upsert_delivery, queued. destruct (existsb _ _) eqn:E; intros [= <-]; (split; [done|]); cbn [outs with_outs].
  - assert (∀ d, existsb (same_delivery ev d) (outs db) = true →
      existsb (same_delivery ev d) (update_where (same_delivery ev dest) (set_payload data) (outs db)) = true) as Hk.
    { intros d (x & Hx & Hp)%existsb_elem. apply existsb_elem. eexists. split; [apply elem_update_where; exists x; by split|].
      destruct (same_delivery ev dest x); [|done]. unfold set_payload. by destruct (_ <>s _). }
    split; [by apply Hk|exact Hk].
  - split.
    + apply existsb_elem. eexists. split; [apply elem_of_app; right; by left|]. unfold same_delivery. cbn. by rewrite !String.eqb_refl.
    + intros d (x & Hx & Hp)%existsb_elem. apply existsb_elem. exists x. split; [apply elem_of_app; by left|done].
Qed.

Lemma wp_enqueue_queued id data now dests w :
  wp (enqueue_all id data now dests) (λ r w', is_ok r = true → norms (w_db w') = norms (w_db w)
    ∧ ∀ dest, dest ∈ dests ∨ queued id dest (w_db w) → queued id dest (w_db w')) w.
Proof.
  revert w. induction dests as [|dest dests IH]; intros w; cbn [enqueue_all].
  { apply wp_ret. intros _. split; [done|]. by intros d [Hd%elem_of_nil|Hd]. }
  apply wp_bind, wp_exec; [done|]. intros w1 _. destruct (upsert_delivery _ _ _ _ _) as [db'|e|p] eqn:E; [|done|done].
  apply upsert_delivery_queued in E as (Hn & Hd & Hk). intros Hw. eapply wp_mono; [apply IH|]. cbv beta. rewrite Hw, <- Hn.
  intros r w2 Hr Hok. destruct (Hr Hok) as [Hn2 Hq]. split; [done|].
  intros d [[->|Hd']%elem_of_cons|Hd']; apply Hq; auto.
Qed.

Lemma wp_written ev dests w :
  wp (storeNormalizedTx fmt_float ev dests) (λ r w', match r with Ok ev' => written ev' dests (w_db w') | _ => True end) w.
Proof.
  unfold storeNormalizedTx. apply wp_bind, wp_try, wp_mcall. destruct (Marshal ev) as [data0|e|p]; [|done..].
  assert (∀ ev' data w1, wp (exec (upsert_norm (norm_row fmt_float ev' data)) ;;; now <- Now ;;
    enqueue_all (EventID (Worm ev')) data now dests ;;; ret ev')
    (λ r w', match r with Ok ev' => written ev' dests (w_db w') | _ => True end) w1) as Hrest.
  { intros ev' data w1. apply wp_bind, wp_exec; [done|]. intros w2 _. destruct (upsert_norm _ _) as [db'|e|p] eqn:E; [|done|done].
    intros Hd2. apply upsert_norm_written in E. apply wp_bind, wp_Now. intros now w3 _ Hd3. apply wp_bind.
    eapply wp_mono; [apply wp_enqueue_queued|]. intros [[]|e|p] w4 Hw; [|done..]. destruct (Hw eq_refl) as [Hn Hq]. apply wp_ret.
    split; [by rewrite Hn, Hd3, Hd2|]. intros dest Hdest. apply Hq. by left. }
  apply wp_bind, wp_try. unfold query_row. apply wp_query; intros; apply Hrest.
Qed.

(** What resolving a quarantine row does: the one row of that entry and that child leaves the
    quarantine, and its event is written; the raw row keeps all but its status. *)
Record resolved (qID : string) (ev : NormalizedEvent) (dests : list string) (db db' : Db) : Prop := {
  rv_one : count (resolves qID (we_RawID (Worm ev)) (we_RecordOrdinal (Worm ev))) (quars db) = 1;
  rv_quars : quars db' = delete_where (resolves qID (we_RawID (Worm ev)) (we_RecordOrdinal (Worm ev))) (quars db);
  rv_raws : ∃ status, raws db' = update_where (by_raw_id (we_RawID (Worm ev))) (set_status status) (raws db);
  rv_written : written ev dests db' }.

Lemma resolved_length qID ev dests db db' :
  resolved qID ev dests db db' → Z.of_nat (length (quars db')) = Z.of_nat (length (quars db)) - 1.
Proof. intros [Hone Hq _ _]. by rewrite Hq, delete_one, Hone. Qed.

(** A resolved quarantine row leaves the table; a failure leaves everything. *)
Lemma wp_ResolveQuarantine qID ev dests w :
  wp (ResolveQuarantineWithOutbox fmt_float qID ev dests) (λ r w', frame w w' ∧
    match r with
    | Ok ev' => resolved qID ev' dests (w_db w) (w_db w')
    | _ => w_db w' = w_db w
    end) w.
Proof.
  unfold ResolveQuarantineWithOutbox. apply wp_transaction.
  { intros e w' Hs Hd. split; [by apply same_rest_frame|done]. }
  intros w0 Hs0 Hd0. apply wp_bind. eapply wp_mono; [apply (wp_and _ _ _ _ (wp_storeNormalizedTx fmt_float ev dests w0) (wp_written ev dests w0))|]. cbv beta.
  intros r w1 [[Hf1 Hst] Hwr].
  assert (frame w w1) as Hf by (transitivity w0; [by apply same_rest_frame|done]).
  assert (∀ w2, same_rest w1 w2 → frame w w2) as Hf2 by (intros; transitivity w1; [done|by apply same_rest_frame]).
  assert (∀ (r : res NormalizedEvent) w2 , frame w w2 → match r with Ok _ => False | _ => True end →
     frame w (set_db w2 (w_db w)) ∧ w_db (set_db w2 (w_db w)) = w_db w) as Hback.
  { intros _ w2 [] _. by split. }
  destruct r as [ev'|e|p]; [|by apply (Hback (Err e))|by apply (Hback (Panic p))].
  destruct Hst as [_ _ _ Hr Hq _]. rewrite Hd0 in Hr, Hq. cbv zeta. apply wp_bind, wp_db_call.
  { intros e w2 Hs2 _. apply (Hback (Err e)); [by apply Hf2|done]. }
  intros w2 Hs2 Hd2. set (p := resolves _ _ _) in *.
  destruct (count p (quars (w_db w1)) =? 1) eqn:Ec; simpl.
  2: { apply wp_fail. apply (Hback (Err disk_error)); [by apply Hf2|done]. }
  apply Z.eqb_eq in Ec. apply wp_bind. eapply wp_mono; [apply wp_ChildOutcomeCounts|]. cbv beta.
  intros r w3 (Hf3 & Hd3 & _).
  assert (frame w w3) as Hfr3 by (transitivity w2; [by apply Hf2|done]).
  destruct r as [nq|e|q]; [|by apply (Hback (Err e))|by apply (Hback (Panic q))].
  apply wp_bind, wp_exec.
  { intros e w4 Hs4 _. apply (Hback (Err e)); [transitivity w3; [done|by apply same_rest_frame]|done]. }
  intros w4 Hs4 Hd4. apply wp_ret.
  assert (frame w w4) as Hfr4 by (transitivity w3; [done|by apply same_rest_frame]). split.
  - intros w5 Hs5 Hd5. split; [transitivity w4; [done|by apply same_rest_frame]|].
    rewrite Hd5, Hd4, Hd3, Hd2. destruct Hwr as [Hwn Hwo]. rewrite Hq in Ec.
    split; cbn; [done|by rewrite Hq|eexists; by rewrite Hr|by split].
  - intros e w5 Hs5 Hd5. split; [transitivity w4; [done|by apply same_rest_frame]|done].
Qed.


#[local] Instance accounted_kept : PipelineKept fmt_float keeps_accounted.
Proof.
  pose proof (balance_kept fmt_float) as []. pose proof (slack_kept fmt_float) as [].
  split; intros; first [apply _|apply keeps_accounted_intro; auto].
Qed.

Lemma resolve_counters_accounted w w' :
  accounted w → frame w w' →
  Z.of_nat (length (quars (w_db w'))) = Z.of_nat (length (quars (w_db w))) - 1 →
  accounted (set_cnt w' (resolve_counters (w_cnt w'))).
Proof.
  intros [Hb Hs] [Hc _ _ _] Hlen. unfold accounted, slack in *. simpl. rewrite Hc, Hlen.
  unfold resolve_counters. destruct (Z.ltb_spec 0 (quarantined (w_cnt w))); [|lia].
  unfold balance in *. simpl. lia.
Qed.

Lemma acc_Replay qID : keeps keeps_accounted (Replay fmt_float time_Parse currentYear cfg qID).
Proof.
  unfold Replay. apply keeps_bind; [apply _|apply (pk_wrap fmt_float time_Parse currentYear cfg keeps_accounted)|intros entry].
  { apply (pk_GetQuarantineByID fmt_float time_Parse currentYear cfg keeps_accounted). }
  apply keeps_bind; [apply _|apply (pk_wrap fmt_float time_Parse currentYear cfg keeps_accounted)|intros raw].
  { apply (pk_Retrieve fmt_float time_Parse currentYear cfg keeps_accounted). }
  apply keeps_bind; [apply _|apply keeps_try, (pk_Verify fmt_float time_Parse currentYear cfg keeps_accounted)|intros v].
  destruct v as [[[] ?]|e|p]; [|apply keeps_fail; apply _|apply keeps_fail; apply _|apply keeps_mcall; apply _].
  apply keeps_bind; [apply _|apply pk_replay_event; apply _|intros norm].
  apply keeps_wp. intros w. apply wp_bind. unfold wrap. apply wp_bind, wp_try.
  eapply wp_mono; [apply wp_ResolveQuarantine|]. cbv beta. intros r w1 [Hf Hr].
  assert (w_db w1 = w_db w → w_cnt w1 = w_cnt w → keeps_accounted w w1) as Hsame.
  { intros Hd Hc. unfold keeps_accounted, accounted, slack. by rewrite Hd, Hc. }
  assert (∀ {B} (m : M B) w0 (r : res B) w2, m w0 = (r, w2) → keeps keeps_accounted m →
    (accounted w → accounted w0) → keeps_accounted w w2) as Hthen.
  { intros B m w0 r0 w2 Hm Hk Ha Hw. specialize (Hk w0). rewrite Hm in Hk. by apply Hk, Ha. }
  destruct Hf as [Hc He Hn Hrd]. destruct r as [norm'|err|p]; [|by apply Hsame|by apply Hsame].
  apply wp_ret, wp_bind. unfold count_add at 1, wp at 1.
  set (w2 := set_cnt w1 _).
  assert (accounted w → accounted w2) as Ha.
  { intros Hw. apply (resolve_counters_accounted w); [done|by split|by eapply resolved_length]. }
  destruct (cfg_durable cfg); [exact Ha|].
  assert (keeps keeps_accounted (bind (emit "" norm') (λ _, bind (count_add (add_delivered 1)) (λ _, ret norm')))) as Hk.
  { apply keeps_bind; [apply _|apply (pk_emit (PipelineKept := accounted_kept))|intros _].
    apply keeps_bind; [apply _|apply (pk_delivered_const fmt_float time_Parse currentYear cfg keeps_accounted)|].
    intros _. apply keeps_ret; apply _. }
  unfold wp. destruct (bind _ _ w2) as [r3 w3] eqn:E3. by apply (Hthen _ _ _ _ _ E3).
Qed.

Lemma acc_Submit w :
  keeps_accounted w (set_cnt w (add_pending 1 (add_accepted 1 (w_cnt w)))).
Proof.
  unfold keeps_accounted, accounted, slack, balance. simpl. destruct (w_cnt w); simpl. lia.
Qed.

Lemma acc_step size p p' :
  pstep fmt_float time_Parse currentYear cfg size p p' →
  keeps_accounted (ps_world p) (ps_world p').
Proof.
  destruct 1 as [rec p p' Hsub|rec p Hc|rec rest p Hq|p names Hd|qID p|p|p]; simpl.
  - unfold Submit in Hsub. destruct (ps_closed p); [done|]. case_match; [done|].
    injection Hsub as <-. apply acc_Submit.
  - etransitivity; [apply (acc_Submit (ps_world p))|].
    apply (pk_processRecord fmt_float time_Parse currentYear cfg keeps_accounted).
  - apply (pk_processRecord fmt_float time_Parse currentYear cfg keeps_accounted).
  - apply (pk_deliverPending fmt_float time_Parse currentYear cfg keeps_accounted).
  - apply acc_Replay.
  - apply (pk_Stats fmt_float time_Parse currentYear cfg keeps_accounted).
  - done.
Qed.

(** A report whose reads work: the rows of the two tables, and the counters for the rest. *)
Lemma Stats_report w :
  (∀ k, (w_calls w ≤ k)%nat → fault k = false) →
  ∃ report, (Stats cfg w).1 = Ok report ∧ Accepted report = accepted (w_cnt w)
    ∧ Normalized report = Z.of_nat (length (norms (w_db w))) ∧ Quarantined report = Z.of_nat (length (quars (w_db w)))
    ∧ Pending report = pending (w_cnt w).
Proof.
  intros Hok. unfold Stats, CountNormalized, CountQuarantine, CountDistinctDelivered, CountDistinctPending, CountDistinctFailed.
  unfold bind, try, query, db_call. destruct (cfg_durable cfg); repeat (cbn [w_calls w_db set_db fst]; rewrite Hok by (cbn; lia));
    cbn [fst]; eexists; (split; [reflexivity|]); done.
Qed.

(** [New] sets the counters from what it can read; the equation holds even when its
    reads fail, and the rows are covered when the quarantine count was read. *)
Lemma New_accounted w :
  fault (S (w_calls w)) = false →
  (New cfg w).1 = Ok () ∧ accounted (New cfg w).2.
Proof.
  intros Hq. unfold New, CountNormalized, CountQuarantine, CountRawStatus, CountDistinctDelivered.
  unfold bind, try, query, db_call, count_add. cbn [w_calls w_db].
  destruct (fault (w_calls w)); cbn [w_calls w_db set_db]; rewrite Hq; cbn [w_calls w_db set_db];
    destruct (fault (S (S (w_calls w)))); cbn [w_calls w_db set_db];
    (destruct (cfg_durable cfg); [cbn [w_calls w_db set_db]; destruct (fault (S (S (S (w_calls w)))))|]);
    (split; [done|]); unfold accounted, balance, slack; simpl; lia.
Qed.
End lifecycle.

(** ** Properties *)

(** C5: loss accounting.  From the counters of a [New] that could read the quarantine, after any
    sequence of submissions, processed records, deliveries, replays and reports, whatever
    failed in it: a report of [Stats] whose own reads work is off the accounting equation by
    exactly the outcomes that were counted and are not stored, accepted - (normalized + quarantined + pending) =
    counted - stored; so its audit, [VerifyInvariant], passes if and only if the rows of the two tables of
    outcomes are as many as the outcomes counted. *)
Theorem accounting_audit (fmt_float : f64 → string) (time_Parse : string → string → option gtime)
    (currentYear : Z) (plat : GoPlatform) (ord : MapOrder) (env : Env) (cfg : Config) (size : Z)
    (w : World) (resumed : list RawEvent) (p : PState) :
  fault (S (w_calls w)) = false →
  rtc (pstep fmt_float time_Parse currentYear cfg size) (started (New cfg w).2 resumed) p →
  (∀ k, (w_calls (ps_world p) ≤ k)%nat → fault k = false) →
  ∃ report, (Stats cfg (ps_world p)).1 = Ok report
    ∧ Normalized report = Z.of_nat (length (norms (w_db (ps_world p))))
    ∧ Quarantined report = Z.of_nat (length (quars (w_db (ps_world p))))
    ∧ Accepted report - (Normalized report + Quarantined report + Pending report)
      = normalized (w_cnt (ps_world p)) + quarantined (w_cnt (ps_world p)) - (Normalized report + Quarantined report)
    ∧ (VerifyInvariant report = true
       ↔ Normalized report + Quarantined report = normalized (w_cnt (ps_world p)) + quarantined (w_cnt (ps_world p))).
Proof.
  intros Hq Hsteps Hok. assert (accounted (ps_world p)) as [Hb _].
  { destruct (New_accounted cfg w Hq) as [_ Ha]. clear Hok. remember (started (New cfg w).2 resumed) as p0 eqn:Hp0.
    assert (accounted (ps_world p0)) as Ha0 by (by subst p0). clear Hp0 Ha.
    induction Hsteps as [|p0 p1 p2 Hstep _ IH]; [done|]. apply IH. by apply (acc_step _ _ _ _ _ _ _ Hstep). }
  destruct (Stats_report cfg (ps_world p) Hok) as (report & Hr & Ha & Hn & Hqr & Hp). exists report.
  rewrite VerifyInvariant_spec, Ha, Hp. unfold balance in Hb. split_and!; [done..|lia|lia].
Qed.

(** ** A concrete instance *)

(** A new process that has accepted one record. *)
Definition sample_start : PState := started (@New calm sample_cfg sample_world).2 [].
Definition sample_accepted : PState :=
  at_world sample_start (@SubmitSync no_float_text no_layout 2026 amd64 forward_order calm sample_cfg sample_input (ps_world sample_start)).2.

Lemma accounting_audit_witness :
  ∃ report, (@Stats calm sample_cfg (ps_world sample_accepted)).1 = Ok report ∧ Quarantined report = 1 ∧ VerifyInvariant report = true.
Proof.
  destruct (accounting_audit no_float_text no_layout 2026 amd64 forward_order calm sample_cfg 0 sample_world [] sample_accepted)
    as (report & Hr & Hn & Hq & _ & Hv).
  - reflexivity.
  - apply rtc_once. apply step_submit_sync. reflexivity.
  - reflexivity.
  - exists report. split; [exact Hr|]. split; [|apply Hv; rewrite Hn]; rewrite Hq; vm_compute; reflexivity.
Defined.
