(* ===== verification/NoLoss.v ===== *)
(** * No record is lost: the outcomes of the children of a raw record

    For every schedule of database and delivery failures, hence for a crash at any
    point, a raw record that was stored either stays [accepted], so that a restarted
    process resumes it, or each of its children has a normalized or a quarantine row. *)

From S2P Require Import Prelude GoStrings GoNum GoTime Model Decoder Registry Pack Snapshot Extract Normalize.
From S2P Require Import Text World RawStore StoreSpec Outbox Pipeline Samples.

#[local] Open Scope monad_scope.

(** ** Fresh identifiers

    Event identifiers end with random bytes in hexadecimal.  The theorems assume that
    no identifier ends with two different draws, which for draws of four bytes says
    that they do not repeat, and that draws to come do not hit identifiers already
    stored.  Only the draws of the run matter: those that a run does not reach may be
    chosen to satisfy the assumption. *)

Section fresh.
Context `{Env}.

Definition id_at (k : nat) (id : string) : Prop := HasSuffix id (hex_EncodeToString (rand4 k)) = true.

Definition distinct_draws : Prop := ∀ j k id, id_at j id → id_at k id → j = k.

Definition fresh (w : World) : Prop :=
  ∀ n k, n ∈ norms (w_db w) → (w_rands w ≤ k)%nat → ¬ id_at k (n_event_id n).

Lemma fresh_weaken w w' :
  norms (w_db w') = norms (w_db w) → (w_rands w ≤ w_rands w')%nat → fresh w → fresh w'.
Proof. intros Hn Hr Hf n k Hin Hk. rewrite Hn in Hin. apply Hf; [done|lia]. Qed.

(** An identifier drawn after [w] is not in its tables. *)
Lemma fresh_id w k id :
  fresh w → (w_rands w ≤ k)%nat → id_at k id → existsb (by_event_id id) (norms (w_db w)) = false.
Proof.
  intros Hf Hk Hid. apply not_true_iff_false. intros (n & Hn & He)%existsb_elem.
  apply String.eqb_eq in He. apply (Hf n k Hn Hk). by rewrite He.
Qed.
End fresh.

(** ** What processing one child may change *)

Record child_rel (i : string) (o : Z) (w w' : World) : Prop := {
  cr_raws : raws (w_db w') = raws (w_db w);
  cr_norm i' o' : (i', o') ≠ (i, o) → norm_outcomes (w_db w') i' o' = norm_outcomes (w_db w) i' o';
  cr_quar i' o' : (i', o') ≠ (i, o) → quar_outcomes (w_db w') i' o' = quar_outcomes (w_db w) i' o';
  cr_rands : (w_rands w ≤ w_rands w')%nat }.

#[export] Instance child_rel_preorder i o : PreOrder (child_rel i o).
Proof.
  split; [intros x; by split|]. intros x y z [R1 N1 Q1 L1] [R2 N2 Q2 L2].
  split; [congruence|..|lia]; intros i' o' Hne; [by rewrite N2, N1|by rewrite Q2, Q1].
Qed.

Lemma child_rel_same i o w w' : w_db w' = w_db w → (w_rands w ≤ w_rands w')%nat → child_rel i o w w'.
Proof. intros Hd Hr. split; [by rewrite Hd|..|done]; by rewrite Hd. Qed.

Lemma child_rel_frame i o w w' : frame w w' → w_db w' = w_db w → child_rel i o w w'.
Proof. intros [] Hd. by apply child_rel_same. Qed.

Lemma norm_child_ne i o i' o' n :
  (i', o') ≠ (i, o) → n_raw_id n = i → n_ordinal n = o → norm_child i' o' n = false.
Proof. intros Hne <- <-. apply not_true_iff_false. intros [<- <-]%norm_child_eq. by destruct Hne. Qed.
Lemma quar_child_ne i o i' o' q :
  (i', o') ≠ (i, o) → q_raw_id q = i → q_ordinal q = o → quar_child i' o' q = false.
Proof. intros Hne <- <-. apply not_true_iff_false. intros [<- <-]%quar_child_eq. by destruct Hne. Qed.

Lemma elem_delete_where {A} (q : A → bool) (l : list A) x : x ∈ delete_where q l ↔ x ∈ l ∧ q x = false.
Proof. unfold delete_where. rewrite !list_elem_of_In, filter_In, negb_true_iff. done. Qed.

Lemma delete_child_own db i o :
  norm_outcomes (with_norms db (delete_where (norm_child i o) (norms db))) i o = 0.
Proof. apply count_zero. by intros n [_ ?]%elem_delete_where. Qed.

Lemma delete_child_other db i o i' o' :
  (i', o') ≠ (i, o) →
  norm_outcomes (with_norms db (delete_where (norm_child i o) (norms db))) i' o' = norm_outcomes db i' o'.
Proof.
  intros Hne. unfold norm_outcomes. simpl. rewrite count_delete_where. apply count_ext. intros n _.
  destruct (norm_child i o n) eqn:E; [|by rewrite andb_true_r].
  apply norm_child_eq in E as [Hi Ho]. by rewrite (norm_child_ne i o i' o').
Qed.

Section noloss.
Context (fmt_float : f64 → string) (time_Parse : string → string → option gtime) (currentYear : Z).
Context `{GoPlatform} `{MapOrder} `{Env} (cfg : Config).

(** Quarantining: the child has an outcome, or nothing changed. *)
Lemma wp_persistQuarantine e w :
  let i := qe_RawID e in let o := qe_RecordOrdinal e in
  wp (persistQuarantine e) (λ r w', child_rel i o w w' ∧ norms (w_db w') = norms (w_db w)
    ∧ quar_outcomes (w_db w') i o ≤ quar_outcomes (w_db w) i o + 1
    ∧ ∃ b, r = Ok b ∧ (b = true → 0 < quar_outcomes (w_db w') i o)) w.
Proof.
  intros i o. unfold persistQuarantine. apply wp_bind, wp_try.
  eapply wp_mono; [apply wp_quarantine|]. cbv beta. intros [[]|err|p] w1 [Hf Hdb]; [..|done].
  - destruct Hdb as (row & db1 & (id & at_ & Hrow) & Hu & Hd1).
    assert (q_raw_id row = i ∧ q_ordinal row = o) as [Hi Ho] by (by subst row).
    simpl in Hd1. subst db1. unfold wp. simpl.
    pose proof (upsert_quarantine_present _ _ _ Hu) as Hpos. rewrite Hi, Ho in Hpos.
    apply upsert_quarantine_spec in Hu as (Hr & Hn & _ & Hq & _).
    split_and!; [|done| |by exists true].
    + split; simpl; [done|by intros; unfold norm_outcomes; rewrite Hn| |by destruct Hf].
      intros i' o' Hne. rewrite Hq, (quar_child_ne i o) by done. case_match; lia.
    + rewrite Hq. repeat case_match; lia.
  - apply wp_ret. rewrite Hdb. split_and!; [by apply child_rel_frame|done|lia|by exists false].
Qed.

(** Quarantining under a key that has a row adds none. *)
Definition entry_key (e : QuarantineEntry) : string * Z * string * string :=
  (qe_RawID e, qe_RecordOrdinal e, qe_Stage e, qe_Reason e).

Lemma upsert_quarantine_keys row db db' :
  upsert_quarantine row db = Ok db' →
  child_key <$> quars db' =
    (child_key <$> quars db) ++ if existsb (same_child row) (quars db) then [] else [child_key row].
Proof.
  unfold upsert_quarantine. destruct (negb _); [done|]. destruct (existsb (same_child row) (quars db)).
  - intros [= <-]. simpl. rewrite app_nil_r. induction (quars db) as [|q l IH]; [done|].
    cbn [update_where map fmap list_fmap]. f_equal; [by destruct (same_child row q)|exact IH].
  - case_match; [done|]. intros [= <-]. simpl. by rewrite fmap_app.
Qed.

Lemma wp_persistQuarantine_keys e w :
  wp (persistQuarantine e) (λ _ w',
    child_key <$> quars (w_db w') = child_key <$> quars (w_db w)
    ∨ (child_key <$> quars (w_db w') = (child_key <$> quars (w_db w)) ++ [entry_key e]
       ∧ entry_key e ∉ child_key <$> quars (w_db w))) w.
Proof.
  unfold persistQuarantine. apply wp_bind, wp_try.
  eapply wp_mono; [apply wp_quarantine|]. cbv beta. intros [[]|err|p] w1 [_ Hdb]; [| |done].
  - destruct Hdb as (row & db1 & (id & at_ & Hrow) & Hu & Hd1). simpl in Hd1. subst db1. unfold wp. simpl.
    apply upsert_quarantine_keys in Hu. rewrite Hu.
    assert (child_key row = entry_key e) as Hk by (by subst row).
    destruct (existsb _ _) eqn:E; [left; by rewrite app_nil_r|right]. rewrite Hk. split; [done|].
    intros (q & Hq & Hin)%list_elem_of_fmap. apply not_true_iff_false in E. apply E, existsb_elem.
    exists q. split; [done|]. apply bool_decide_eq_true. congruence.
  - apply wp_ret. left. by rewrite Hdb.
Qed.

Lemma wp_quarantine_child raw d st re er w :
  let i := re_RawID raw in let o := RecordOrdinal d in
  wp (quarantine_child raw d st re er) (λ r w', child_rel i o w w' ∧ norms (w_db w') = norms (w_db w)
    ∧ quar_outcomes (w_db w') i o ≤ quar_outcomes (w_db w) i o + 1
    ∧ (r = Ok false → 0 < quar_outcomes (w_db w') i o)) w.
Proof.
  intros i o. unfold quarantine_child. apply wp_bind, wp_Now. intros t w1 Hs1 Hd1. apply wp_bind.
  eapply wp_mono; [apply wp_persistQuarantine|]. cbv beta zeta. simpl. rewrite Hd1.
  intros r w2 (Hc & Hn & Hq & b & -> & Hb). apply wp_ret. split_and!; [|done..|].
  - transitivity w1; [|done]. apply child_rel_frame; [by apply same_rest_frame|done].
  - intros [= Hneg]. apply Hb. by destruct b.
Qed.

(** A normalized event belongs to its child, and bears a fresh identifier. *)
Definition event_of (raw : RawEvent) (d : DecodedRecord) (w w' : World) (ev : NormalizedEvent) : Prop :=
  we_RawID (Worm ev) = re_RawID raw ∧ we_RecordOrdinal (Worm ev) = RecordOrdinal d
  ∧ ∃ k, (w_rands w ≤ k < w_rands w')%nat ∧ id_at k (EventID (Worm ev)).

Lemma id_at_hex k : id_at k (hex_EncodeToString (rand4 k)).
Proof. apply HasSuffix_spec. by exists "". Qed.
Lemma id_at_app k s t : id_at k t → id_at k (s +:+ t).
Proof.
  intros (u & ->)%HasSuffix_spec. apply HasSuffix_spec. exists (s +:+ u). by rewrite app_assoc_str.
Qed.

Lemma id_at_cons k c t : id_at k t → id_at k (String c t).
Proof. apply (id_at_app k (chr c)). Qed.

Lemma wp_normalize_child raw d h w :
  wp (normalize_child fmt_float time_Parse currentYear cfg raw d h) (λ r w', w_db w' = w_db w
    ∧ (w_rands w ≤ w_rands w')%nat
    ∧ match r with Ok (inl ev) => event_of raw d w w' ev | _ => True end) w.
Proof.
  unfold normalize_child. destruct (cfg_snapshot cfg) as [snap|].
  - destruct (Snapshot_Match _ snap d) as [pack|e|p]; [|by apply wp_ret|by apply wp_mcall].
    apply wp_bind, wp_bind, wp_Now. intros t w1 [] Hd1. apply wp_ret, wp_bind, wp_draw4.
    intros w2 Hd2 _ _ _ Hr2. apply wp_bind, wp_Now. intros now w3 [] Hd3.
    apply wp_bind, wp_try. unfold normalizer_step, wp.
    unfold Normalize. destruct (ExtractAndConvert _ _ _ pack d) as [[[ex un] ws]|e|p]; simpl;
      (split; [congruence|split; [lia|]]); try done.
    split_and!; [done..|]. exists (w_rands w1). split; [simpl; lia|].
    cbn [EventID Worm]. repeat first [apply id_at_hex|apply id_at_cons|apply id_at_app].
  - destruct (unclassified_text d); [by apply wp_ret|].
    apply wp_bind, wp_draw4. intros w1 Hd1 _ _ _ Hr1. apply wp_bind, wp_Now. intros now w2 [] Hd2.
    apply wp_ret. split; [congruence|split; [lia|]]. split_and!; [done..|].
    exists (w_rands w). split; [lia|]. unfold generic_event. cbn [EventID Worm].
    repeat first [apply id_at_hex|apply id_at_cons|apply id_at_app].
Qed.

(** Emission touches neither the tables nor the randomness. *)
Lemma wp_emit dest ev w :
  wp (emit dest ev) (λ r w', w_db w' = w_db w ∧ w_rands w' = w_rands w ∧ ∀ p, r ≠ Panic p) w.
Proof. unfold wp, emit. by destruct (emit_fault _). Qed.

(** The postcondition of the processing of a child. *)
Definition child_post (i : string) (o : Z) (w : World) (r : res bool) (w' : World) : Prop :=
  child_rel i o w w' ∧ fresh w'
  ∧ (outcomes (w_db w) i o = 0 → outcomes (w_db w') i o ≤ 1)
  ∧ (r = Ok false → 0 < outcomes (w_db w') i o).

Lemma child_post_same i o w w' r :
  fresh w → w_db w' = w_db w → (w_rands w ≤ w_rands w')%nat → r ≠ Ok false → child_post i o w r w'.
Proof.
  intros Hf Hd Hr Hne. split_and!; [by apply child_rel_same|by apply (fresh_weaken w); rewrite ?Hd|rewrite Hd; lia|done].
Qed.

Lemma child_post_trans i o w w1 r w2 :
  child_rel i o w w1 → w_db w1 = w_db w → child_post i o w1 r w2 → child_post i o w r w2.
Proof. intros Hc Hd (Hc2 & ?). rewrite Hd in *. split; [by transitivity w1|done]. Qed.

Lemma quarantine_child_post raw d st re er w :
  fresh w →
  wp (quarantine_child raw d st re er) (child_post (re_RawID raw) (RecordOrdinal d) w) w.
Proof.
  intros Hf. eapply wp_mono; [apply wp_quarantine_child|]. cbv beta zeta.
  intros r w' (Hc & Hn & Hq & Hok). split_and!; [done| | |].
  - apply (fresh_weaken w); [done|by destruct Hc|done].
  - unfold outcomes, norm_outcomes at 2. rewrite Hn. fold (norm_outcomes (w_db w) (re_RawID raw) (RecordOrdinal d)).
    pose proof (outcomes_nonneg (w_db w) (re_RawID raw) (RecordOrdinal d)). lia.
  - intros Hr. specialize (Hok Hr). pose proof (outcomes_nonneg (w_db w') (re_RawID raw) (RecordOrdinal d)).
    unfold outcomes. lia.
Qed.

(** A stored event gives its child a normalized row, and one only. *)
Lemma stored_outcome i o ev ev' w w1 k :
  distinct_draws → fresh w → frame w w1 → stored fmt_float ev ev' (w_db w) (w_db w1) →
  we_RawID (Worm ev) = i → we_RecordOrdinal (Worm ev) = o →
  (k < w_rands w)%nat → id_at k (EventID (Worm ev)) →
  existsb (by_event_id (EventID (Worm ev))) (norms (w_db w)) = false →
  child_rel i o w w1 ∧ fresh w1 ∧ quar_outcomes (w_db w1) i o = quar_outcomes (w_db w) i o
  ∧ 0 < norm_outcomes (w_db w1) i o
  ∧ (norm_outcomes (w_db w) i o = 0 → norm_outcomes (w_db w1) i o ≤ 1).
Proof.
  intros Hdd Hf Hfr [Hsr Hso Hid Hraws Hq (data & db1 & Hu & Hn)] Hi Ho Hk Hidk Hnew.
  destruct (upsert_norm_spec _ _ _ Hu) as (_ & _ & _ & Hcount & Helem). cbn [n_event_id norm_row] in Hcount, Helem.
  assert (∀ i' o', norm_outcomes (w_db w1) i' o' = norm_outcomes db1 i' o') as Hw1.
  { intros. unfold norm_outcomes. by rewrite Hn. }
  assert (quar_outcomes (w_db w1) i o = quar_outcomes (w_db w) i o) as Hqo.
  { unfold quar_outcomes. by rewrite Hq. }
  assert (norm_child i o (norm_row fmt_float ev' data) = true) as Hown.
  { apply norm_child_eq. cbn. split; congruence. }
  rewrite Hw1, Hcount, Hown. pose proof (outcomes_nonneg (w_db w) i o).
  set (taken := existsb (by_event_id (EventID (Worm ev'))) (norms (w_db w))) in *.
  split_and!; [| |done| |].
  - destruct Hfr. split; [done|..|done]; intros i' o' Hne; [|unfold quar_outcomes; by rewrite Hq].
    rewrite Hw1, Hcount, (norm_child_ne i o i' o' _ Hne) by (cbn; congruence). destruct taken; lia.
  - destruct Hfr as [_ _ _ Hr]. intros n j Hin Hj Hat. rewrite Hn in Hin.
    assert (¬ id_at j (EventID (Worm ev'))) as Hnot.
    { destruct Hid as [->|(row & Hrow & _ & ->)]; [|apply Hf; [done|lia]].
      intros Hjk. assert (j = k) by (by apply (Hdd j k _ Hjk)). lia. }
    destruct (Helem n Hin) as [He|(n' & Hin' & He)]; [congruence|].
    apply (Hf n' j Hin'); [lia|congruence].
  - destruct Hid as [Heq|(row & Hrow & Hc & _)].
    + unfold taken. rewrite Heq, Hnew. lia.
    + assert (0 < norm_outcomes (w_db w) i o); [|destruct taken; lia].
      apply count_pos. exists row. split; [done|]. by rewrite <- Hi, <- Ho.
  - intros Hz. destruct taken; lia.
Qed.

Lemma store_child_post raw d ev w k :
  distinct_draws → fresh w →
  we_RawID (Worm ev) = re_RawID raw → we_RecordOrdinal (Worm ev) = RecordOrdinal d →
  (k < w_rands w)%nat → id_at k (EventID (Worm ev)) →
  existsb (by_event_id (EventID (Worm ev))) (norms (w_db w)) = false →
  wp (store_child fmt_float cfg raw d ev) (child_post (re_RawID raw) (RecordOrdinal d) w) w.
Proof.
  intros Hdd Hf Hi Ho Hk Hidk Hnew. set (i := re_RawID raw) in *. set (o := RecordOrdinal d) in *.
  unfold store_child. apply wp_bind, wp_try. eapply wp_mono; [apply wp_StoreNormalizedWithOutbox|].
  cbv beta. intros r w1 [Hfr Hst]. destruct r as [ev'|e|p].
  2: { assert (fresh w1) as Hf1 by (apply (fresh_weaken w); [by rewrite Hst|by destruct Hfr|done]).
       eapply wp_mono; [by apply quarantine_child_post|]. intros r w2. fold i o.
       apply child_post_trans; [by apply child_rel_frame|done]. }
  2: { apply wp_mcall. destruct Hfr. by apply child_post_same. }
  destruct (stored_outcome i o ev ev' w w1 k) as (Hc & Hf1 & Hq & Hpos & Hone); [done..|].
  pose proof (outcomes_nonneg (w_db w) i o) as Hnn. pose proof (outcomes_nonneg (w_db w1) i o) as Hnn1.
  assert (∀ w2 r, w_db w2 = w_db w1 → (w_rands w1 ≤ w_rands w2)%nat → child_post i o w r w2) as Hdone.
  { intros w2 r Hd2 Hr2. split_and!.
    - transitivity w1; [done|by apply child_rel_same].
    - by apply (fresh_weaken w1); rewrite ?Hd2.
    - rewrite Hd2. unfold outcomes. rewrite Hq. lia.
    - rewrite Hd2. unfold outcomes. lia. }
  destruct (cfg_durable cfg) as [names|]; [by apply Hdone|].
  apply wp_bind, wp_try. eapply wp_mono; [apply wp_emit|]. cbv beta. intros s w2 (Hd2 & Hr2 & Hp).
  destruct s as [[]|emitErr|p]; [apply Hdone; simpl; [done|lia]| |by destruct (Hp p)].
  apply wp_bind, wp_try. eapply wp_mono; [apply wp_DeleteNormalizedChild|]. cbv beta. fold i o.
  intros del w3 [Hf3 Hd3].
  assert (w_rands w1 ≤ w_rands w3)%nat as Hr3 by (destruct Hf3; lia).
  destruct del as [[]|e|p]; [|apply wp_ret, Hdone; [congruence|done]|done].
  assert (child_rel i o w1 w3 ∧ norm_outcomes (w_db w3) i o = 0
          ∧ quar_outcomes (w_db w3) i o = quar_outcomes (w_db w) i o ∧ fresh w3) as (Hc3 & Hn3 & Hq3 & Hf3').
  { rewrite Hd2 in Hd3. rewrite <- Hq. split_and!.
    - split; [by rewrite Hd3|..|done]; intros i' o' Hne; rewrite Hd3; [|done].
      apply delete_child_other. by intros [= <- <-].
    - rewrite Hd3. apply delete_child_own.
    - by rewrite Hd3.
    - intros n j Hn Hj. apply Hf1; [|lia]. rewrite Hd3 in Hn. by apply elem_delete_where in Hn as [? _]. }
  eapply wp_mono; [by apply quarantine_child_post|]. intros r w4 (Hc4 & Hf4 & Hle & Hok). fold i o in Hc4, Hle, Hok.
  split_and!; [|done| |done].
  - transitivity w3; [by transitivity w1|done].
  - intros Hz. apply Hle. unfold outcomes in *. rewrite Hn3, Hq3. lia.
Qed.

Lemma fresh_child_post raw h d w :
  distinct_draws → fresh w →
  wp (fresh_child fmt_float time_Parse currentYear cfg raw h d) (child_post (re_RawID raw) (RecordOrdinal d) w) w.
Proof.
  intros Hdd Hf. unfold fresh_child. apply wp_bind, wp_bind, wp_Now. intros t w1 Hs1 Hd1. apply wp_ret.
  assert (w_rands w1 = w_rands w) as Hr1 by (by destruct Hs1).
  assert (fresh w1) as Hf1 by (apply (fresh_weaken w); [by rewrite Hd1|lia|done]).
  apply wp_bind. eapply wp_mono; [apply wp_normalize_child|]. cbv beta.
  intros r w2 (Hd2 & Hr2 & Hev).
  assert (w_db w2 = w_db w) as Hd by congruence.
  assert (fresh w2) as Hf2 by (apply (fresh_weaken w); [by rewrite Hd|lia|done]).
  assert (∀ st re er w3, w_db w3 = w_db w → (w_rands w ≤ w_rands w3)%nat → fresh w3 →
    wp (quarantine_child raw d st re er) (child_post (re_RawID raw) (RecordOrdinal d) w) w3) as Hquar.
  { intros st re er w3 Hd3 Hr3 Hf3. eapply wp_mono; [by apply quarantine_child_post|].
    intros r' w4. apply child_post_trans; [|done]. apply child_rel_same; [done|lia]. }
  destruct r as [[ev|[[st re] er]]|e|p]; [|apply Hquar; [done|lia|done]|apply child_post_same; [done..|lia|done]|
                                            apply child_post_same; [done..|lia|done]].
  destruct Hev as (Hi & Ho & k & Hk & Hid).
  assert (existsb (by_event_id (EventID (Worm ev))) (norms (w_db w)) = false) as Hnew.
  { apply (fresh_id w k); [done|lia|done]. }
  apply wp_bind, wp_Now. intros now w3 Hs3 Hd3.
  assert (w_rands w3 = w_rands w2) as Hr3 by (by destruct Hs3).
  assert (w_db w3 = w_db w) as Hd' by congruence.
  assert (fresh w3) as Hf3 by (apply (fresh_weaken w); [by rewrite Hd'|lia|done]).
  destruct (Validate fmt_float ev now) as [ev'|valErr|p] eqn:Ev.
  - apply Validate_keeps in Ev as (He & Hi' & Ho').
    eapply wp_mono; [apply (store_child_post raw d ev' w3 k)|]; [done|done|congruence|congruence|lia|congruence| |].
    + by rewrite He, Hd'.
    + intros r' w4. apply child_post_trans; [|done]. apply child_rel_same; [done|lia].
  - apply Hquar; [done|lia|done].
  - apply child_post_same; [done..|lia|done].
Qed.

Lemma process_child_post raw recovering h d w :
  distinct_draws → fresh w →
  (recovering = false → outcomes (w_db w) (re_RawID raw) (RecordOrdinal d) = 0) →
  wp (process_child fmt_float time_Parse currentYear cfg raw recovering h d)
     (λ r w', child_rel (re_RawID raw) (RecordOrdinal d) w w' ∧ fresh w'
        ∧ (outcomes (w_db w) (re_RawID raw) (RecordOrdinal d) ≤ 1 →
           outcomes (w_db w') (re_RawID raw) (RecordOrdinal d) ≤ 1)
        ∧ (r = Ok false → 0 < outcomes (w_db w') (re_RawID raw) (RecordOrdinal d))) w.
Proof.
  intros Hdd Hf Hz. set (i := re_RawID raw) in *. set (o := RecordOrdinal d) in *.
  pose proof (outcomes_nonneg (w_db w) i o) as Hnn. unfold process_child. destruct recovering.
  2: { eapply wp_mono; [by apply fresh_child_post|]. intros r w' (Hc & Hf' & Hone & Hok).
       split_and!; [done..| |done]. auto. }
  apply wp_bind, wp_try. eapply wp_mono; [apply wp_HasCompletedChild|]. cbv beta. fold i o.
  intros r w1 (Hfr & Hd & Hr).
  assert (child_rel i o w w1) as Hc by (by apply child_rel_frame).
  assert (fresh w1) as Hf1 by (apply (fresh_weaken w); [by rewrite Hd|by destruct Hfr|done]).
  destruct r as [[]|e|p]; [| | |done].
  - apply wp_ret. split_and!; [done..|by rewrite Hd|rewrite Hd; lia].
  - eapply wp_mono; [by apply fresh_child_post|]. intros r w' (Hc' & Hf' & Hone & Hok).
    fold i o in Hc', Hone, Hok. rewrite Hd in Hone. split_and!; [by transitivity w1|done| |done].
    intros _. apply Hone. unfold outcomes in *. lia.
  - apply wp_ret. split_and!; [done..|by rewrite Hd|done].
Qed.

(** The same for a list of children, whose ordinals are distinct. *)
Lemma process_children_post raw recovering h l w :
  distinct_draws → fresh w → NoDup (RecordOrdinal <$> l) →
  (recovering = false → ∀ d, d ∈ l → outcomes (w_db w) (re_RawID raw) (RecordOrdinal d) = 0) →
  wp (process_children fmt_float time_Parse currentYear cfg raw recovering h l)
     (λ r w', raws (w_db w') = raws (w_db w)
        ∧ (∀ i o, (i = re_RawID raw → o ∉ RecordOrdinal <$> l) → outcomes (w_db w') i o = outcomes (w_db w) i o)
        ∧ (∀ d, d ∈ l → outcomes (w_db w) (re_RawID raw) (RecordOrdinal d) ≤ 1 →
           outcomes (w_db w') (re_RawID raw) (RecordOrdinal d) ≤ 1)
        ∧ (r = Ok false → ∀ d, d ∈ l → 0 < outcomes (w_db w') (re_RawID raw) (RecordOrdinal d))) w.
Proof.
  intros Hdd. set (i := re_RawID raw). revert w. induction l as [|d l IH]; intros w Hf Hnd Hz.
  { apply wp_ret. split_and!; [done..|by intros ? ?%elem_of_nil|by intros _ ? ?%elem_of_nil]. }
  rewrite fmap_cons in Hnd. apply NoDup_cons in Hnd as [Hd Hnd]. cbn [process_children].
  apply wp_bind. eapply wp_mono; [apply process_child_post; [done..|]|].
  { intros Hrec. apply (Hz Hrec). left. }
  cbv beta. fold i. intros r w1 ([Hr1 Hn1 Hq1 _] & Hf1 & Hone & Hok).
  assert (∀ i' o', (i', o') ≠ (i, RecordOrdinal d) → outcomes (w_db w1) i' o' = outcomes (w_db w) i' o') as Hsame.
  { intros i' o' Hne. unfold outcomes. by rewrite Hn1, Hq1. }
  assert (∀ d', d' ∈ l → (i, RecordOrdinal d') ≠ (i, RecordOrdinal d)) as Hne.
  { intros d' Hd' [= He]. apply Hd. rewrite <- He. by apply list_elem_of_fmap_2. }
  assert (∀ i' o', (i' = i → o' ∉ RecordOrdinal <$> d :: l) → (i', o') ≠ (i, RecordOrdinal d)) as Hout.
  { intros i' o' Hn [= -> ->]. apply (Hn eq_refl). left. }
  assert (∀ i' o', (i' = i → o' ∉ RecordOrdinal <$> d :: l) → (i' = i → o' ∉ RecordOrdinal <$> l)) as Htl.
  { intros i' o' Hn Hi Ho. apply (Hn Hi). by right. }
  assert (∀ w2 r2, raws (w_db w2) = raws (w_db w1) →
    (∀ i' o', (i' = i → o' ∉ RecordOrdinal <$> l) → outcomes (w_db w2) i' o' = outcomes (w_db w1) i' o') →
    (∀ d', d' ∈ l → outcomes (w_db w1) i (RecordOrdinal d') ≤ 1 → outcomes (w_db w2) i (RecordOrdinal d') ≤ 1) →
    (r2 = Ok false → r = Ok false ∧ ∀ d', d' ∈ l → 0 < outcomes (w_db w2) i (RecordOrdinal d')) →
    raws (w_db w2) = raws (w_db w)
    ∧ (∀ i' o', (i' = i → o' ∉ RecordOrdinal <$> d :: l) → outcomes (w_db w2) i' o' = outcomes (w_db w) i' o')
    ∧ (∀ d', d' ∈ d :: l → outcomes (w_db w) i (RecordOrdinal d') ≤ 1 → outcomes (w_db w2) i (RecordOrdinal d') ≤ 1)
    ∧ (r2 = @Ok bool false → ∀ d', d' ∈ d :: l → 0 < outcomes (w_db w2) i (RecordOrdinal d'))) as Hall.
  { intros w2 r2 Hr2 Ho2 H12 Hok2. split_and!.
    - congruence.
    - intros i' o' Hn. rewrite Ho2 by (by apply Htl). by apply Hsame, Hout.
    - intros d' [->|Hd']%elem_of_cons Hle; [rewrite Ho2; [by apply Hone|by intros _]|].
      apply H12; [done|]. by rewrite Hsame by (by apply Hne).
    - intros Hr d' [->|Hd']%elem_of_cons; destruct (Hok2 Hr) as [Hrf Hpos]; [|by apply Hpos].
      rewrite Ho2; [by apply Hok|by intros _]. }
  destruct r as [u|e|p]; [|by apply Hall..].
  apply wp_bind. eapply wp_mono; [apply IH; [done..|]|].
  { intros Hrec d' Hd'. rewrite Hsame by (by apply Hne). apply (Hz Hrec). by right. }
  cbv beta. intros r2 w2 (Hr2 & Ho2 & H12 & Hok2).
  destruct r2 as [us|e|p]; [|by apply Hall..]. apply wp_ret, Hall; [done..|].
  intros [= Hu]. destruct u, us; try done. split; [done|by apply Hok2].
Qed.

(** ** The parent *)

Lemma find_update_status i st l :
  List.find (by_raw_id i) (update_where (by_raw_id i) (set_status st) l)
  = set_status st <$> List.find (by_raw_id i) l.
Proof.
  induction l as [|x l IH]; [done|]. cbn [update_where map List.find].
  destruct (by_raw_id i x) eqn:E; [|by rewrite E].
  assert (by_raw_id i (set_status st x) = true) as -> by done. done.
Qed.

Lemma raw_row_update i st db : raw_row (update_status i st db) i = set_status st <$> raw_row db i.
Proof. apply find_update_status. Qed.

Lemma set_status_twice st st' r : set_status st (set_status st' r) = set_status st r.
Proof. done. Qed.

Lemma outcomes_update_status i st db i' o : outcomes (update_status i st db) i' o = outcomes db i' o.
Proof. done. Qed.

Lemma wp_update_ignored i st w :
  wp (update_status_ignored i st) (λ r w', w_db w' = w_db w ∨ w_db w' = update_status i st (w_db w)) w.
Proof.
  unfold update_status_ignored. apply wp_bind, wp_try. eapply wp_mono; [apply wp_UpdateStatus|].
  cbv beta. intros r w' (_ & Hd & Hp). destruct r as [a|e|p]; [apply wp_ret, Hd..|by destruct (Hp p)].
Qed.

(** The raw record is kept: still accepted, or with every listed child settled. *)
Definition kept (i : string) (row : RawRow) (ordinals : list Z) (w' : World) : Prop :=
  ∃ st, raw_row (w_db w') i = Some (set_status st row)
        ∧ (st = StatusAccepted ∨ ∀ o, o ∈ ordinals → 0 < outcomes (w_db w') i o).

Lemma kept_same i row os w w' :
  raws (w_db w') = raws (w_db w) → raw_row (w_db w) i = Some row → re_Status row = StatusAccepted →
  kept i row os w'.
Proof.
  intros Hr Hrow Hst. exists StatusAccepted. unfold raw_row in *. rewrite Hr, Hrow.
  split; [|by left]. destruct row. simpl in Hst. by subst.
Qed.

Lemma wp_update_kept i row os st w :
  raw_row (w_db w) i = Some row → re_Status row = StatusAccepted →
  (st = StatusAccepted ∨ ∀ o, o ∈ os → 0 < outcomes (w_db w) i o) →
  wp (update_status_ignored i st) (λ _ w', kept i row os w') w.
Proof.
  intros Hrow Hst Hok. eapply wp_mono; [apply wp_update_ignored|]. cbv beta. intros r w' [Hd|Hd].
  - apply (kept_same _ _ _ w); [by rewrite Hd|done..].
  - exists st. rewrite Hd, raw_row_update, Hrow. split; [done|].
    destruct Hok as [->|Hok]; [by left|right]. done.
Qed.

Lemma wp_quarantine_payload_kept raw row st re er el w :
  raw_row (w_db w) (re_RawID raw) = Some row → re_Status row = StatusAccepted →
  wp (quarantine_payload raw st re er el) (λ _ w', kept (re_RawID raw) row [0] w') w.
Proof.
  intros Hrow Hst. unfold quarantine_payload. apply wp_bind, wp_Now. intros t w1 _ Hd1.
  apply wp_bind. eapply wp_mono; [apply wp_persistQuarantine|]. cbv beta zeta. simpl.
  intros r w2 ([Hr _ _ _] & _ & _ & b & -> & Hb).
  assert (raw_row (w_db w2) (re_RawID raw) = Some row) as Hrow2.
  { unfold raw_row in *. by rewrite Hr, Hd1. }
  apply wp_update_kept; [done..|]. destruct b; [right|by left].
  intros o ->%list_elem_of_singleton. specialize (Hb eq_refl).
  pose proof (outcomes_nonneg (w_db w2) (re_RawID raw) 0). unfold outcomes. lia.
Qed.

Lemma wp_finish_parent_kept raw row u os w :
  raw_row (w_db w) (re_RawID raw) = Some row → re_Status row = StatusAccepted →
  (u = false → ∀ o, o ∈ os → 0 < outcomes (w_db w) (re_RawID raw) o) →
  wp (finish_parent raw u) (λ _ w', kept (re_RawID raw) row os w') w.
Proof.
  intros Hrow Hst Hu. unfold finish_parent. destruct u; [apply wp_update_kept; auto|].
  apply wp_bind, wp_try. eapply wp_mono; [apply wp_ChildOutcomeCounts|]. cbv beta.
  intros r w1 (_ & Hd & Hr). specialize (Hu eq_refl). rewrite <- Hd in Hrow, Hu.
  destruct r as [nq|e|p]; [apply wp_update_kept; auto..|done].
Qed.

(** Finishing the parent leaves the outcomes alone. *)
Lemma wp_finish_parent_outcomes raw u (P : Z → Z → Prop) i w :
  (∀ o, P o (outcomes (w_db w) i o)) →
  wp (finish_parent raw u) (λ _ w', ∀ o, P o (outcomes (w_db w') i o)) w.
Proof.
  intros HP. assert (∀ st w1, w_db w1 = w_db w →
    wp (update_status_ignored (re_RawID raw) st) (λ _ w', ∀ o, P o (outcomes (w_db w') i o)) w1) as Hup.
  { intros st w1 Hd1. eapply wp_mono; [apply wp_update_ignored|]. cbv beta. rewrite Hd1.
    intros r w2 [->| ->]; [done|]. intros o. rewrite outcomes_update_status. done. }
  unfold finish_parent. destruct u; [by apply Hup|]. apply wp_bind, wp_try.
  eapply wp_mono; [apply wp_ChildOutcomeCounts|]. cbv beta. intros r w1 (_ & Hd & Hr).
  destruct r as [nq|e|p]; [by apply Hup..|done].
Qed.

Lemma wp_account_children raw recovering n w :
  wp (account_children raw recovering n) (λ r w', (w_rands w ≤ w_rands w')%nat ∧
    match r with
    | Ok (Some b) => w_db w' = w_db w ∧ (b = true → recovering = false ∧ n = 0)
                     ∧ (recovering = false → n = 0 → b = true)
    | Ok None => w_db w' = w_db w ∨ w_db w' = update_status (re_RawID raw) StatusAccepted (w_db w)
    | _ => False
    end) w.
Proof.
  unfold account_children. destruct recovering.
  - apply wp_bind, wp_try. eapply wp_mono; [apply wp_CountCompletedChildren|]. cbv beta.
    intros r w1 ([_ _ _ Hr1] & Hd & Hr). destruct r as [c|e|p]; [| |done].
    + destruct (0 <? n); unfold wp; simpl; (split; [done|]); by split_and!.
    + apply wp_bind. unfold update_status_ignored. apply wp_bind, wp_try.
      eapply wp_mono; [apply wp_UpdateStatus|]. cbv beta. rewrite Hd.
      intros r w2 ([_ _ _ Hr2] & Hd2 & Hp). destruct r as [a|e'|p]; [..|by destruct (Hp p)];
        apply wp_ret, wp_ret; (split; [lia|done]).
  - destruct (1 <? n) eqn:E.
    + unfold wp. simpl. split; [done|]. split_and!; [done..|]. intros _ ->. done.
    + apply wp_ret. split; [done|]. split; [done|]. destruct (Z.eqb_spec n 0); naive_solver.
Qed.

(** The children a payload has; one, of ordinal 0, when it cannot be decoded. *)
Definition expected_ordinals (payload : string) : list Z :=
  match DetectAndDecode (cfg_registry cfg) payload with
  | (_, Ok ((_ :: _) as recs)) => RecordOrdinal <$> recs
  | _ => [0]
  end.

Definition decoded (payload : string) : list DecodedRecord :=
  match DetectAndDecode (cfg_registry cfg) payload with (_, Ok recs) => recs | _ => [] end.

Lemma process_raw_kept raw row recovering h w :
  distinct_draws → fresh w →
  raw_row (w_db w) (re_RawID raw) = Some row → re_Status row = StatusAccepted →
  NoDup (RecordOrdinal <$> decoded (re_Payload raw)) →
  (recovering = true → decoded (re_Payload raw) ≠ []
     ∨ ¬ ∃ d, DetectAndDecode (cfg_registry cfg) (re_Payload raw) = (d, Ok [])) →
  (recovering = false → ∀ o, outcomes (w_db w) (re_RawID raw) o = 0) →
  wp (process_raw fmt_float time_Parse currentYear cfg raw recovering h)
     (λ _ w', kept (re_RawID raw) row (expected_ordinals (re_Payload raw)) w') w.
Proof.
  intros Hdd Hf Hrow Hst Hnd Hne Hz. unfold process_raw, expected_ordinals, decoded in *.
  destruct (DetectAndDecode _ _) as [dec [recs|err|p]] eqn:Ed.
  2: by apply wp_quarantine_payload_kept.
  2: { apply wp_mcall. by apply (kept_same _ _ _ w). }
  set (os := match recs with [] => [0] | _ => RecordOrdinal <$> recs end).
  apply wp_bind, wp_bind, wp_Now. intros t w1 [_ _ _ _ Hr1 _] Hd1. apply wp_ret.
  apply wp_bind. eapply wp_mono; [apply wp_account_children|]. cbv beta. rewrite Hd1.
  intros r w2 [Hr2 Hd2]. destruct r as [[[]|]|e|p]; [..|done|done].
  - destruct Hd2 as (Hd2 & Hb & _). destruct (Hb eq_refl) as [_ Hlen].
    assert (recs = []) as -> by (destruct recs; [done|simpl in Hlen; lia]).
    apply wp_quarantine_payload_kept; [by rewrite Hd2|done].
  - destruct Hd2 as (Hd2 & _ & Hb).
    assert (recs ≠ []) as Hrecs.
    { intros ->. destruct recovering; [|by specialize (Hb eq_refl eq_refl)].
      destruct (Hne eq_refl) as [?|Hno]; [done|]. apply Hno. by exists dec. }
    assert (os = RecordOrdinal <$> recs) as -> by (unfold os; by destruct recs).
    apply wp_bind. eapply wp_mono; [apply process_children_post; [done| |done|]|].
    + apply (fresh_weaken w); [by rewrite Hd2|lia|done].
    + intros Hrec d _. rewrite Hd2. by apply Hz.
    + cbv beta. intros r w3 (Hr3 & _ & _ & Hok). rewrite Hd2 in Hr3.
      destruct r as [u|e|p]; [|by apply (kept_same _ _ _ w)..].
      apply wp_finish_parent_kept; [unfold raw_row in *; by rewrite Hr3|done|].
      intros -> o (d & -> & Hd)%list_elem_of_fmap. by apply Hok.
  - apply wp_ret. destruct Hd2 as [Hd2|Hd2]; [apply (kept_same _ _ _ w); [by rewrite Hd2|done..]|].
    exists StatusAccepted. rewrite Hd2, raw_row_update, Hrow. split; [done|by left].
Qed.

(** Decoders number the children of a payload. *)
Lemma decoded_NoDup payload :
  Forall LawfulDecoder (cfg_registry cfg) → NoDup (RecordOrdinal <$> decoded payload).
Proof.
  intros Hl. unfold decoded. destruct (DetectAndDecode _ _) as [o [recs|e|p]] eqn:E; [|constructor..].
  apply DetectAndDecode_ordinals in E; [|done]. unfold ordinals in E. rewrite E. apply NoDup_seqZ.
Qed.

(** [FOREIGN KEY (raw_id)]: outcomes belong to stored raw records. *)
Definition foreign_keys (db : Db) : Prop := ∀ i o, raw_row db i = None → outcomes db i o = 0.

Lemma processRecord_new_kept rec w raw w1 :
  distinct_draws → fresh w → Forall LawfulDecoder (cfg_registry cfg) → foreign_keys (w_db w) →
  ir_ExistingRawID rec = "" → Store rec w = (Ok raw, w1) → re_Duplicate raw = false →
  wp (processRecord fmt_float time_Parse currentYear cfg rec)
     (λ _ w', kept (re_RawID raw) raw (expected_ordinals (re_Payload raw)) w') w.
Proof.
  intros Hdd Hf Hl Hfk Hnew Hst Hdup. unfold processRecord, after_commit. apply wp_bind, wp_try.
  unfold commit. rewrite Hnew. simpl.
  pose proof (wp_elim _ _ _ _ _ (wp_Store rec w) Hst) as (Hr & _ & _ & Hraw). cbv beta in Hraw.
  rewrite Hdup in Hraw. destruct Hraw as (Hd & Hnone & Hrow & Hacc & _).
  eapply wp_run; [exact Hst|]. cbv beta iota. rewrite Hdup. simpl.
  apply wp_bind, wp_bind, wp_Now. intros t w2 [_ _ _ _ Hr2 _] Hd2. apply wp_ret.
  eapply wp_mono; [apply (process_raw_kept raw raw)|done]; try done.
  - apply (fresh_weaken w); [by rewrite Hd2, Hd|lia|done].
  - by rewrite Hd2.
  - by apply decoded_NoDup.
  - intros _ o. rewrite Hd2, Hd. change (outcomes (w_db w) (re_RawID raw) o = 0). by apply Hfk.
Qed.

Lemma processRecord_existing_kept i w row :
  distinct_draws → fresh w → Forall LawfulDecoder (cfg_registry cfg) →
  i ≠ "" → raw_row (w_db w) i = Some row → re_Status row = StatusAccepted →
  (∀ d, DetectAndDecode (cfg_registry cfg) (re_Payload row) ≠ (d, Ok [])) →
  wp (processRecord fmt_float time_Parse currentYear cfg (existing_record i))
     (λ _ w', kept i row (expected_ordinals (re_Payload row)) w') w.
Proof.
  intros Hdd Hf Hl Hi Hrow Hst Hne. unfold processRecord, after_commit. apply wp_bind, wp_try.
  unfold commit, existing_record. cbn [ir_ExistingRawID]. rewrite (proj2 (String.eqb_neq i "")) by exact Hi. simpl.
  eapply wp_mono; [apply wp_Retrieve|]. cbv beta. intros r w1 ([_ _ _ Hr1] & Hd1 & Hr).
  assert (fresh w1) as Hf1 by (apply (fresh_weaken w); [by rewrite Hd1|done|done]).
  rewrite <- Hd1 in Hrow. destruct r as [row'|e|p]; [|by apply (kept_same _ _ _ w1)|done].
  assert (row' = row) as -> by congruence.
  pose proof (raw_row_id _ _ _ Hrow) as Hid.
  destruct (re_Duplicate row && finalized (re_Status row)) eqn:Ef.
  { rewrite Hst, andb_false_r in Ef. done. }
  apply wp_bind, wp_bind, wp_Now. intros t w2 [_ _ _ _ Hr2 _] Hd2. apply wp_ret.
  eapply wp_mono; [apply (process_raw_kept row row)|]; rewrite ?Hid, ?Hd2; try done.
  - apply (fresh_weaken w1); [by rewrite Hd2|lia|done].
  - by apply decoded_NoDup.
  - intros _. right. intros [d Hd]. by destruct (Hne d).
Qed.

(** One outcome per child, never two.  A record that was begun has the rows that the
    decoders of the program give it: those of a payload that they refuse are at ordinal
    0, under the stage and the reason of the refusal, and it has no event. *)
Definition refusal_stage (dec : option Decoder) : string :=
  match dec with None => "format_detect" | Some _ => "decode" end.

Definition settled_once (raw : RawEvent) (db : Db) : Prop :=
  let i := re_RawID raw in
  (∀ o, outcomes db i o ≤ 1)
  ∧ match DetectAndDecode (cfg_registry cfg) (re_Payload raw) with
    | (dec, Err _) =>
        (∀ o, norm_outcomes db i o = 0)
        ∧ ∀ q, q ∈ quars db → q_raw_id q = i → child_key q = (i, 0, refusal_stage dec, "parse_error")
    | _ => True
    end.

Lemma settled_once_fresh raw db : (∀ o, outcomes db (re_RawID raw) o = 0) → settled_once raw db.
Proof.
  intros Hz. split; [intros o; rewrite Hz; lia|]. destruct (DetectAndDecode _ _) as [dec [recs|err|p]]; [done| |done].
  split.
  - intros o. specialize (Hz o). pose proof (outcomes_nonneg db (re_RawID raw) o). unfold outcomes in Hz. lia.
  - intros q Hq Hi. specialize (Hz (q_ordinal q)). pose proof (outcomes_nonneg db (re_RawID raw) (q_ordinal q)).
    assert (0 < quar_outcomes db (re_RawID raw) (q_ordinal q)); [|unfold outcomes in Hz; lia].
    apply count_pos. exists q. split; [done|]. by apply quar_child_eq.
Qed.

Lemma settled_once_rows raw db db' :
  norms db' = norms db → quars db' = quars db → settled_once raw db → settled_once raw db'.
Proof. unfold settled_once, outcomes, norm_outcomes, quar_outcomes. by intros -> ->. Qed.

Lemma elem_keys k (l : list QuarRow) : k ∈ child_key <$> l ↔ ∃ q, q ∈ l ∧ child_key q = k.
Proof. rewrite list_elem_of_fmap. naive_solver. Qed.

(** The number of rows of a child depends on the keys alone. *)
Lemma quar_outcomes_keys db i o :
  quar_outcomes db i o = count (λ k, (k.1.1.1 =s i) && (k.1.1.2 =? o)) (child_key <$> quars db).
Proof.
  unfold quar_outcomes. induction (quars db) as [|q l IH]; [done|].
  cbn [count fmap list_fmap]. by rewrite IH.
Qed.

Lemma wp_refuse_payload_once raw dec err st el w :
  settled_once raw (w_db w) → DetectAndDecode (cfg_registry cfg) (re_Payload raw) = (dec, Err err) →
  st = refusal_stage dec →
  wp (quarantine_payload raw st "parse_error" err el) (λ _ w', settled_once raw (w_db w')) w.
Proof.
  intros [Hle Hk] Ed ->. rewrite Ed in Hk. destruct Hk as [Hn Hk]. unfold quarantine_payload.
  apply wp_bind, wp_Now. intros t w1 _ Hd1. rewrite <- Hd1 in Hle, Hn, Hk.
  apply wp_bind. eapply wp_mono; [apply wp_and; [apply wp_persistQuarantine|apply wp_persistQuarantine_keys]|].
  cbv beta zeta. intros r w2 [([_ Hcn _ _] & Hnorms & _ & b & -> & _) Hkeys].
  assert (settled_once raw (w_db w2)) as Hs2.
  { assert (∀ o, norm_outcomes (w_db w2) (re_RawID raw) o = 0) as Hn2.
    { intros o. unfold norm_outcomes. rewrite Hnorms. apply Hn. }
    unfold settled_once. rewrite Ed. cbv zeta. split_and!; [|done|].
    - intros o. specialize (Hle o). unfold outcomes in *. rewrite Hn, quar_outcomes_keys in Hle.
      rewrite Hn2, quar_outcomes_keys.
      destruct Hkeys as [-> |[-> Hnew]]; [exact Hle|]. rewrite count_app.
      destruct (decide (o = 0)) as [->|Hne].
      + rewrite (proj2 (count_zero _ (child_key <$> quars (w_db w1)))); [by cbn; destruct (_ =s _)|].
        intros k (q & Hq & <-)%elem_keys. apply not_true_iff_false.
        intros [Hc%String.eqb_eq _]%andb_true_iff. apply Hnew, elem_keys. exists q. split; [done|]. by apply Hk.
      + assert (count (λ k, (k.1.1.1 =s re_RawID raw) && (k.1.1.2 =? o))
                  [entry_key (quarantine_entry raw 0 (refusal_stage dec) "parse_error" err
                                (safePreview (re_Payload raw) 256) el t)] = 0) as Hone.
        { cbn [count entry_key quarantine_entry qe_RawID qe_RecordOrdinal fst snd].
          rewrite (proj2 (Z.eqb_neq 0 o)) by congruence. by rewrite andb_false_r. }
        rewrite Hone, Z.add_0_r. exact Hle.
    - intros q Hq Hi. assert (child_key q ∈ child_key <$> quars (w_db w2)) as Hin by (by apply list_elem_of_fmap_2).
      destruct Hkeys as [He|[He _]]; rewrite He in Hin; [|apply elem_of_app in Hin as [Hin|Hin]].
      + apply elem_keys in Hin as (q' & Hq' & Hk'). rewrite <- Hk'. apply Hk; [done|].
        unfold child_key in Hk'. congruence.
      + apply elem_keys in Hin as (q' & Hq' & Hk'). rewrite <- Hk'. apply Hk; [done|].
        unfold child_key in Hk'. congruence.
      + by apply list_elem_of_singleton in Hin. }
  eapply wp_mono; [apply wp_update_ignored|]. cbv beta. intros r w4 [->| ->]; [done|].
  by apply (settled_once_rows raw (w_db w2)).
Qed.

(** An empty payload has no outcome before, when it is quarantined as such. *)
Lemma wp_empty_payload_once raw st re er el w :
  (∀ o, outcomes (w_db w) (re_RawID raw) o = 0) →
  wp (quarantine_payload raw st re er el) (λ _ w', ∀ o, outcomes (w_db w') (re_RawID raw) o ≤ 1) w.
Proof.
  intros Hz. set (i := re_RawID raw) in *. unfold quarantine_payload. apply wp_bind, wp_Now. intros t w2 _ Hd2.
  apply wp_bind. eapply wp_mono; [apply wp_persistQuarantine|]. cbv beta zeta. simpl. fold i.
  intros r w3 ([_ Hn Hq _] & Hn0 & Hq0 & b & -> & _).
  assert (∀ o, outcomes (w_db w3) i o ≤ 1) as H3.
  { intros o. specialize (Hz o). rewrite <- Hd2 in Hz.
    pose proof (outcomes_nonneg (w_db w2) i o). unfold outcomes in *.
    assert (norm_outcomes (w_db w3) i o = norm_outcomes (w_db w2) i o) as -> by (unfold norm_outcomes; by rewrite Hn0).
    destruct (decide (o = 0)) as [->|Ho]; [lia|]. rewrite Hq by (by intros [= ->]). lia. }
  eapply wp_mono; [apply wp_update_ignored|]. cbv beta. intros r w4 [->| ->]; [done|].
  intros o. rewrite outcomes_update_status. done.
Qed.

Lemma process_raw_once raw recovering h w :
  distinct_draws → fresh w → NoDup (RecordOrdinal <$> decoded (re_Payload raw)) →
  settled_once raw (w_db w) →
  (recovering = false → ∀ o, outcomes (w_db w) (re_RawID raw) o = 0) →
  wp (process_raw fmt_float time_Parse currentYear cfg raw recovering h)
     (λ _ w', settled_once raw (w_db w')) w.
Proof.
  intros Hdd Hf Hnd Hso Hz. pose proof Hso as [Hle1 _].
  unfold process_raw, decoded in *. destruct (DetectAndDecode _ _) as [dec [recs|err|p]] eqn:Ed.
  2: by eapply wp_refuse_payload_once.
  2: by apply wp_mcall.
  assert (∀ db, (∀ o, outcomes db (re_RawID raw) o ≤ 1) → settled_once raw db) as Hdone.
  { intros db Hdb. unfold settled_once. by rewrite Ed. }
  apply wp_bind, wp_bind, wp_Now. intros t w1 [_ _ _ _ Hr1 _] Hd1. apply wp_ret.
  apply wp_bind. eapply wp_mono; [apply wp_account_children|]. cbv beta. rewrite Hd1.
  intros r w2 [Hr2 Hd2]. destruct r as [[[]|]|e|p]; [..|done|done].
  - destruct Hd2 as (Hd2 & Hb & _). destruct (Hb eq_refl) as [Hrec _].
    eapply wp_mono; [apply wp_empty_payload_once; rewrite Hd2; by apply Hz|]. cbv beta. auto.
  - destruct Hd2 as (Hd2 & _ & _).
    apply wp_bind. eapply wp_mono; [apply process_children_post; [done| |done|]|].
    + apply (fresh_weaken w); [by rewrite Hd2|lia|done].
    + intros Hrec d _. rewrite Hd2. by apply Hz.
    + cbv beta. rewrite Hd2. intros r w3 (_ & Hsame & Hone & _).
      assert (∀ o, outcomes (w_db w3) (re_RawID raw) o ≤ 1) as H3.
      { intros o. destruct (decide (o ∈ RecordOrdinal <$> recs)) as [(d & -> & Hd)%list_elem_of_fmap|Ho];
          [by apply Hone|by rewrite Hsame]. }
      destruct r as [u|e|p]; [|by apply Hdone..].
      eapply wp_mono; [by apply (wp_finish_parent_outcomes raw u (λ _ n, n ≤ 1))|]. cbv beta. auto.
  - apply wp_ret, Hdone. by destruct Hd2 as [->| ->].
Qed.

(** What a finished child is: nothing is stored or delivered again. *)
Definition same_outcomes (w w' : World) : Prop :=
  norms (w_db w') = norms (w_db w) ∧ quars (w_db w') = quars (w_db w) ∧ outs (w_db w') = outs (w_db w)
  ∧ w_emitted w' = w_emitted w.

Lemma wp_update_ignored_outcomes i st w :
  wp (update_status_ignored i st) (λ _ w', same_outcomes w w') w.
Proof.
  unfold update_status_ignored. apply wp_bind, wp_try. eapply wp_mono; [apply wp_UpdateStatus|].
  cbv beta. intros r w' ([_ He _ _] & Hd & Hp).
  assert (same_outcomes w w') as Hs by (by destruct Hd as [Hd|Hd]; split_and!; rewrite ?Hd).
  destruct r as [a|e|p]; [by apply wp_ret..|by destruct (Hp p)].
Qed.

Lemma recover_children_noop raw h l w :
  (∀ d, d ∈ l → 0 < outcomes (w_db w) (re_RawID raw) (RecordOrdinal d)) →
  wp (process_children fmt_float time_Parse currentYear cfg raw true h l)
     (λ r w', w_db w' = w_db w ∧ w_emitted w' = w_emitted w) w.
Proof.
  revert w. induction l as [|d l IH]; intros w Hpos; [by apply wp_ret|].
  cbn [process_children process_child]. apply wp_bind, wp_bind, wp_try.
  eapply wp_mono; [apply wp_HasCompletedChild|]. cbv beta. intros r w1 ([_ He _ _] & Hd & Hr).
  assert (∀ u : bool, wp (bind (process_children fmt_float time_Parse currentYear cfg raw true h l)
    (λ us, ret (u || us))) (λ r w', w_db w' = w_db w ∧ w_emitted w' = w_emitted w) w1) as Hrest.
  { intros u. apply wp_bind. eapply wp_mono; [apply IH|].
    - intros d' Hd'. rewrite Hd. apply Hpos. by right.
    - cbv beta. intros r' w2 [Hd2 He2]. destruct r'; [apply wp_ret|..]; split; congruence. }
  destruct r as [b|e|p]; [|apply wp_ret; apply Hrest|done].
  specialize (Hpos d (list_elem_of_here _ _)). rewrite <- Z.ltb_lt in Hpos. rewrite Hpos in Hr. subst b.
  apply wp_ret, Hrest.
Qed.
End noloss.

(** ** Properties *)

(** C1: no silent loss.  Whatever database calls and deliveries fail, and wherever the
    process stops, the raw row that [Store] acknowledged for a new record keeps its
    columns, and either is still accepted, for a restart to resume, or every child of
    the payload has a normalized or quarantine row (a payload that does not decode, or
    has no children, has one child, of ordinal 0). *)
Theorem processRecord_no_silent_loss (fmt_float : f64 → string) (time_Parse : string → string → option gtime)
    (currentYear : Z) (plat : GoPlatform) (ord : MapOrder) (env : Env) (cfg : Config)
    (rec : IngestedRecord) (w w1 : World) (raw : RawEvent) :
  distinct_draws → fresh w → Forall LawfulDecoder (cfg_registry cfg) → foreign_keys (w_db w) →
  ir_ExistingRawID rec = "" → Store rec w = (Ok raw, w1) → re_Duplicate raw = false →
  kept (re_RawID raw) raw (expected_ordinals cfg (re_Payload raw))
    (processRecord fmt_float time_Parse currentYear cfg rec w).2.
Proof.
  intros Hdd Hf Hl Hfk Hnew Hst Hdup.
  pose proof (processRecord_new_kept fmt_float time_Parse currentYear cfg rec w raw w1
                Hdd Hf Hl Hfk Hnew Hst Hdup) as H.
  unfold wp in H. by destruct (processRecord _ _ _ _ _ _).
Qed.

(** C2: the same for a record that a restarted process resumes: after any further run,
    with any failures, it is still accepted or all its children are settled; the
    payloads excluded are those that decode to no record at all. *)
Theorem recovery_no_silent_loss (fmt_float : f64 → string) (time_Parse : string → string → option gtime)
    (currentYear : Z) (plat : GoPlatform) (ord : MapOrder) (env : Env) (cfg : Config)
    (i : string) (w : World) (row : RawRow) :
  distinct_draws → fresh w → Forall LawfulDecoder (cfg_registry cfg) →
  i ≠ "" → raw_row (w_db w) i = Some row → re_Status row = StatusAccepted →
  (∀ d, DetectAndDecode (cfg_registry cfg) (re_Payload row) ≠ (d, Ok [])) →
  kept i row (expected_ordinals cfg (re_Payload row))
    (processRecord fmt_float time_Parse currentYear cfg (existing_record i) w).2.
Proof.
  intros Hdd Hf Hl Hi Hrow Hst Hne.
  pose proof (processRecord_existing_kept fmt_float time_Parse currentYear cfg i w row
                Hdd Hf Hl Hi Hrow Hst Hne) as H.
  unfold wp in H. by destruct (processRecord _ _ _ _ _ _).
Qed.

(** C3: no child is counted twice.  Take a raw record, fresh (no child has an outcome) or
    resumed after a crash, that is settled once: each child has at most one outcome, and
    if the decoders refuse the payload, its only rows are of that refusal.  Processing
    it, whatever fails and whether or not it decodes, leaves it settled once.  The
    decoders are those that the rows were made with: a program that restarts with other
    decoders is outside this theorem (see [refused_twice]). *)
Theorem process_raw_exactly_once (fmt_float : f64 → string) (time_Parse : string → string → option gtime)
    (currentYear : Z) (plat : GoPlatform) (ord : MapOrder) (env : Env) (cfg : Config)
    (raw : RawEvent) (recovering : bool) (history : list ProcessingStep) (w : World) :
  distinct_draws → fresh w → Forall LawfulDecoder (cfg_registry cfg) →
  (if recovering then settled_once cfg raw (w_db w) else ∀ o, outcomes (w_db w) (re_RawID raw) o = 0) →
  settled_once cfg raw (w_db (process_raw fmt_float time_Parse currentYear cfg raw recovering history w).2).
Proof.
  intros Hdd Hf Hl Hso.
  assert (settled_once cfg raw (w_db w)) as H1 by (destruct recovering; [done|by apply settled_once_fresh]).
  pose proof (process_raw_once fmt_float time_Parse currentYear cfg raw recovering history w
                Hdd Hf (decoded_NoDup cfg _ Hl) H1) as H.
  unfold wp in H. destruct (process_raw _ _ _ _ _ _ _ _). apply H. by intros ->.
Qed.

(** C4: recovery is idempotent: resuming a record all of whose children have an outcome
    stores, quarantines, queues and delivers nothing, whatever fails. *)
Theorem recovery_idempotent (fmt_float : f64 → string) (time_Parse : string → string → option gtime)
    (currentYear : Z) (plat : GoPlatform) (ord : MapOrder) (env : Env) (cfg : Config)
    (raw : RawEvent) (history : list ProcessingStep) (w : World) (d : option Decoder) (recs : list DecodedRecord) :
  DetectAndDecode (cfg_registry cfg) (re_Payload raw) = (d, Ok recs) →
  (∀ r, r ∈ recs → 0 < outcomes (w_db w) (re_RawID raw) (RecordOrdinal r)) →
  same_outcomes w (process_raw fmt_float time_Parse currentYear cfg raw true history w).2.
Proof.
  intros Hdec Hpos.
  assert (wp (process_raw fmt_float time_Parse currentYear cfg raw true history) (λ _ w', same_outcomes w w') w) as H;
    [|unfold wp in H; by destruct (process_raw _ _ _ _ _ _ _ _)].
  assert (∀ w1 w2, w_db w1 = w_db w → w_emitted w1 = w_emitted w → same_outcomes w1 w2 → same_outcomes w w2) as Htr.
  { intros w1 w2 Hd1 He1. unfold same_outcomes. by rewrite Hd1, He1. }
  unfold process_raw. rewrite Hdec.
  apply wp_bind, wp_bind, wp_Now. intros t w1 [_ _ He1 _ _ _] Hd1. apply wp_ret. apply wp_bind.
  unfold account_children. apply wp_bind, wp_try. eapply wp_mono; [apply wp_CountCompletedChildren|]. cbv beta.
  intros r w2 ([_ He2 _ _] & Hd2 & Hr). destruct r as [c|e|p]; [| |done].
  - assert (∀ w3, w_db w3 = w_db w2 → w_emitted w3 = w_emitted w2 →
      wp (bind (process_children fmt_float time_Parse currentYear cfg raw true
                  (history ++ [step_of "format_detect" (match d with Some d => Name d | None => "" end) t]) recs)
               (finish_parent raw)) (λ _ w', same_outcomes w w') w3) as Hrest.
    { intros w3 Hd3 He3. apply wp_bind. eapply wp_mono; [apply recover_children_noop|].
      - rewrite Hd3, Hd2, Hd1. done.
      - cbv beta. intros r w4 [Hd4 He4].
        assert (same_outcomes w w4) as Hs4 by (apply (Htr w4); [congruence..|done]).
        destruct r as [u|e|p]; [|done..]. unfold finish_parent.
        assert (∀ st w5, w_db w5 = w_db w4 → w_emitted w5 = w_emitted w4 →
          wp (update_status_ignored (re_RawID raw) st) (λ _ w', same_outcomes w w') w5) as Hup.
        { intros st w5 Hd5 He5. eapply wp_mono; [apply wp_update_ignored_outcomes|]. cbv beta.
          intros _ w6. apply Htr; congruence. }
        destruct u; [by apply Hup|]. apply wp_bind, wp_try. eapply wp_mono; [apply wp_ChildOutcomeCounts|].
        cbv beta. intros r w5 ([_ He5 _ _] & Hd5 & Hr5). destruct r; [by apply Hup..|done]. }
    destruct (0 <? _); by apply Hrest.
  - apply wp_bind. eapply wp_mono; [apply wp_update_ignored_outcomes|]. cbv beta.
    intros r w3 Hs. assert (same_outcomes w w3) by (apply (Htr w2); [congruence..|done]).
    destruct r as [[]|e'|p]; [by apply wp_ret, wp_ret|done..].
Qed.

(** ** Concrete instances *)

Lemma sample_distinct f e : @distinct_draws (sample_env f e).
Proof.
  assert (∀ n, hex_EncodeToString (as_and_b (S n)) = (hex_EncodeToString (as_and_b n) +:+ chr "6") +:+ chr "1") as HS.
  { intros n. cbn [as_and_b]. rewrite hex_app. by rewrite app_assoc_str. }
  intros j. induction j as [|j IH]; intros [|k] id Hj Hk; [done|..]; unfold id_at in *; cbn [rand4 sample_env] in *.
  - rewrite HS in Hk. change (hex_EncodeToString (as_and_b 0)) with (chr "6" +:+ chr "2") in Hj.
    by destruct (suffix_snoc _ _ _ _ _ Hj Hk) as [? _].
  - rewrite HS in Hj. change (hex_EncodeToString (as_and_b 0)) with (chr "6" +:+ chr "2") in Hk.
    by destruct (suffix_snoc _ _ _ _ _ Hj Hk) as [? _].
  - rewrite HS in Hj, Hk. destruct (suffix_snoc _ _ _ _ _ Hj Hk) as (_ & id1 & Hj1 & Hk1).
    destruct (suffix_snoc _ _ _ _ _ Hj1 Hk1) as (_ & id2 & Hj2 & Hk2). f_equal. by apply (IH k id2).
Qed.

Lemma fresh_empty (env : Env) w : norms (w_db w) = [] → fresh w.
Proof. intros Hn n k Hin. rewrite Hn in Hin. by apply elem_of_nil in Hin. Qed.

Lemma sample_lawful : Forall LawfulDecoder (cfg_registry sample_cfg).
Proof. repeat constructor; apply TextDecoder_lawful. Qed.

Lemma processRecord_no_silent_loss_witness :
  match @Store dying sample_input sample_world with
  | (Ok raw, _) =>
      kept (re_RawID raw) raw (expected_ordinals sample_cfg (re_Payload raw))
        (@processRecord no_float_text no_layout 2026 amd64 forward_order dying sample_cfg
           sample_input sample_world).2
  | _ => False
  end.
Proof.
  destruct (@Store dying sample_input sample_world) as [[raw|e|p] w1] eqn:E;
    [|vm_compute in E; discriminate E..].
  apply (processRecord_no_silent_loss no_float_text no_layout 2026 amd64 forward_order dying sample_cfg
           sample_input sample_world w1 raw).
  - apply sample_distinct.
  - apply fresh_empty. reflexivity.
  - apply sample_lawful.
  - intros i o _. reflexivity.
  - reflexivity.
  - exact E.
  - vm_compute in E. injection E as <- <-. reflexivity.
Defined.

(** The world after a crash between the raw commit and the first outcome. *)
Definition crashed : World :=
  (@processRecord no_float_text no_layout 2026 amd64 forward_order dying sample_cfg sample_input sample_world).2.

Lemma crashed_facts :
  norms (w_db crashed) = [] ∧ quars (w_db crashed) = []
  ∧ match raws (w_db crashed) with
    | [row] => re_Status row = StatusAccepted ∧ re_RawID row ≠ "" ∧ re_Payload row = "hello"
               ∧ raw_row (w_db crashed) (re_RawID row) = Some row
    | _ => False
    end.
Proof. by vm_compute. Qed.

Lemma decode_hello : ∃ d recs, DetectAndDecode (cfg_registry sample_cfg) "hello" = (Some d, Ok recs)
  ∧ recs ≠ [] ∧ RecordOrdinal <$> recs = [0].
Proof.
  assert (Detect TextDecoder "hello" = 51) as Hd by (vm_compute; reflexivity).
  assert (∃ recs, Decode TextDecoder "hello" = Ok recs ∧ recs ≠ [] ∧ RecordOrdinal <$> recs = [0])
    as (recs & Hr & Hne).
  { eexists. split; [vm_compute; reflexivity|split; [discriminate|reflexivity]]. }
  exists TextDecoder, recs.
  unfold DetectAndDecode, DetectRanked, candidates_of. cbn [cfg_registry sample_cfg].
  rewrite fmap_cons, fmap_nil, Hd. split; [|exact Hne].
  transitivity (Some TextDecoder, wrap_err (λ e, Errorf "%s decoder failed: %w" [AStr (Name TextDecoder); AErr e])
                                    (Decode TextDecoder "hello")); [reflexivity|by rewrite Hr].
Qed.

Lemma recovery_no_silent_loss_witness :
  match raws (w_db crashed) with
  | [row] =>
      kept (re_RawID row) row (expected_ordinals sample_cfg (re_Payload row))
        (@processRecord no_float_text no_layout 2026 amd64 forward_order calm sample_cfg
           (existing_record (re_RawID row)) crashed).2
  | _ => False
  end.
Proof.
  destruct crashed_facts as (Hn & Hq & Hr). destruct (raws (w_db crashed)) as [|row [|]]; [done| |done].
  destruct Hr as (Hst & Hid & Hp & Hrow).
  apply (recovery_no_silent_loss no_float_text no_layout 2026 amd64 forward_order calm sample_cfg).
  - apply sample_distinct.
  - apply fresh_empty, Hn.
  - apply sample_lawful.
  - exact Hid.
  - exact Hrow.
  - exact Hst.
  - rewrite Hp. intros d Hd. destruct decode_hello as (d' & recs & He & Hne & _). congruence.
Defined.

Lemma process_raw_exactly_once_witness :
  match raws (w_db crashed) with
  | [row] =>
      settled_once sample_cfg row
        (w_db (@process_raw no_float_text no_layout 2026 amd64 forward_order calm sample_cfg row true [] crashed).2)
  | _ => False
  end.
Proof.
  destruct crashed_facts as (Hn & Hq & Hr). destruct (raws (w_db crashed)) as [|row [|]]; [done| |done].
  destruct Hr as (Hst & Hid & Hp & Hrow).
  apply (process_raw_exactly_once no_float_text no_layout 2026 amd64 forward_order calm sample_cfg).
  - apply sample_distinct.
  - apply fresh_empty, Hn.
  - apply sample_lawful.
  - apply settled_once_fresh. intros o. unfold outcomes, norm_outcomes, quar_outcomes. by rewrite Hn, Hq.
Defined.

(** The world after the restart has resumed the record. *)
Definition recovered : World :=
  match raws (w_db crashed) with
  | row :: _ => (@processRecord no_float_text no_layout 2026 amd64 forward_order calm sample_cfg
                   (existing_record (re_RawID row)) crashed).2
  | [] => crashed
  end.

Lemma recovered_facts :
  match raws (w_db recovered) with
  | [row] => re_Status row = StatusQuarantined ∧ re_Payload row = "hello"
             ∧ outcomes (w_db recovered) (re_RawID row) 0 = 1
  | _ => False
  end.
Proof. by vm_compute. Qed.

Lemma recovery_idempotent_witness :
  match raws (w_db recovered) with
  | [row] => same_outcomes recovered
      (@process_raw no_float_text no_layout 2026 amd64 forward_order dying sample_cfg row true [] recovered).2
  | _ => False
  end.
Proof.
  pose proof recovered_facts as Hr. destruct (raws (w_db recovered)) as [|row [|]]; [done| |done].
  destruct Hr as (_ & Hp & Ho). destruct decode_hello as (d & recs & He & _ & Hord).
  apply (recovery_idempotent no_float_text no_layout 2026 amd64 forward_order dying sample_cfg row [] recovered
           (Some d) recs).
  - rewrite Hp. exact He.
  - intros r Hin. assert (RecordOrdinal r ∈ [0]) as ->%list_elem_of_singleton.
    { rewrite <- Hord. by apply list_elem_of_fmap_2. }
    rewrite Ho. reflexivity.
Defined.

(** A process that stops between the outcome of the child and the status of the row, and
    a restart whose decoders refuse the payload: the child then has two outcomes, as the
    branch for refused payloads does not look for one. *)
Definition half_done : World :=
  (@processRecord no_float_text no_layout 2026 amd64 forward_order
     (sample_env (λ k, (4 <=? k)%nat) (λ _, None)) sample_cfg sample_input sample_world).2.

Definition no_decoders : Config := {| cfg_registry := []; cfg_snapshot := None; cfg_durable := None |}.

Example refused_twice :
  match raws (w_db half_done) with
  | [row] =>
      re_Status row = StatusAccepted ∧ outcomes (w_db half_done) (re_RawID row) 0 = 1
      ∧ outcomes (w_db (@processRecord no_float_text no_layout 2026 amd64 forward_order calm no_decoders
                          (existing_record (re_RawID row)) half_done).2) (re_RawID row) 0 = 2
  | _ => False
  end.
Proof. by vm_compute. Qed.
