(* ===== verification/Disk.v ===== *)
(** * The parser-pack directory on disk, and the operations on files the pack store uses

    [internal/packs] keeps its state in one directory of pack files and, under
    [.marketplace], in three JSON files.  Every call to the operating system may
    fail: the [n]-th call of a run works, is refused (an error, no effect), or has its
    effect and still reports an error, as [fs_fault n] says.  A process that stops makes
    no further change, so a crash is an environment in which every later call is
    refused ([fail_stop]). *)

From S2P Require Import Prelude GoStrings Model.
From S2P Require Export Monad.

#[local] Open Scope monad_scope.

(** ** Files *)

(** A directory (empty or not) and a symbolic link, with the bytes it leads to, can stand
    where a file is expected. *)
Inductive entry :=
| EFile (content : string)
| EDir (is_empty : bool)
| ELink (target : option string).

(** The two managed directories: [dir] itself, and [dir/.marketplace]. *)
Inductive place := Packs | Meta.
#[export] Instance place_eq_dec : EqDecision place.
Proof. solve_decision. Defined.

Definition path : Type := place * string.

Record Disk := {
  d_packs : gmap string entry; d_meta : gmap string entry;
  d_root_link : bool; d_meta_link : bool;     (* is the directory itself a symbolic link? *)
}.

Definition dir_of (pl : place) (d : Disk) : gmap string entry :=
  match pl with Packs => d_packs d | Meta => d_meta d end.
Definition with_dir (pl : place) (f : gmap string entry → gmap string entry) (d : Disk) : Disk :=
  match pl with
  | Packs => {| d_packs := f (d_packs d); d_meta := d_meta d;
                d_root_link := d_root_link d; d_meta_link := d_meta_link d |}
  | Meta => {| d_packs := d_packs d; d_meta := f (d_meta d);
               d_root_link := d_root_link d; d_meta_link := d_meta_link d |}
  end.

Definition at_path (p : path) (d : Disk) : option entry := dir_of p.1 d !! p.2.
Definition put (p : path) (e : entry) (d : Disk) : Disk := with_dir p.1 <[p.2 := e]> d.
Definition del (p : path) (d : Disk) : Disk := with_dir p.1 (delete p.2) d.

(** ** The process: its disk, its own data, and what the environment decides *)

Inductive outcome := Works | Refused | Reported.

Class FsEnv := {
  fs_fault : nat → outcome;
  fs_clock : nat → time;
  (* [os.CreateTemp] replaces the star by a number and makes a new file *)
  temp_suffix : gmap string entry → string;
  temp_digits (m : gmap string entry) : all_bytes is_digit (temp_suffix m) = true;
  temp_fresh (m : gmap string entry) : m !! (".worm-tmp-" +:+ temp_suffix m) = None;
}.

Record Host (X : Type) := {
  h_disk : Disk; h_own : X; h_calls : nat; h_ticks : nat;
}.
#[global] Arguments h_disk {X}. #[global] Arguments h_own {X}.
#[global] Arguments h_calls {X}. #[global] Arguments h_ticks {X}.

Section fs.
Context `{FsEnv} {X : Type}.

Definition ErrNotExist : string := "file does not exist".
Definition IsNotExist (e : error) : bool := errors_is e ErrNotExist.
Definition os_error : error := errors_New "operation on a file failed".

Definition on_disk (h : Host X) (d : Disk) : Host X :=
  {| h_disk := d; h_own := h_own h; h_calls := S (h_calls h); h_ticks := h_ticks h |}.

(** One system call. *)
Definition fs_call {A} (f : Disk → res A * Disk) : Prog (Host X) A := λ h,
  match fs_fault (h_calls h) with
  | Works => let '(r, d) := f (h_disk h) in (r, on_disk h d)
  | Refused => (Err os_error, on_disk h (h_disk h))
  | Reported => (Err os_error, on_disk h (f (h_disk h)).2)
  end.

(** A call that changes nothing here: [MkdirAll], [Chmod], [Sync], [Close]. *)
Definition fs_nop : Prog (Host X) unit := fs_call (λ d, (Ok (), d)).

Definition ReadFile (p : path) : Prog (Host X) string := fs_call (λ d,
  (match at_path p d with
   | Some (EFile c) | Some (ELink (Some c)) => Ok c
   | Some (EDir _) => Err (errors_New "is a directory")
   | Some (ELink None) | None => Err (errors_New ErrNotExist)
   end, d)).

Definition os_Remove (p : path) : Prog (Host X) unit := fs_call (λ d,
  match at_path p d with
  | None => (Err (errors_New ErrNotExist), d)
  | Some (EDir false) => (Err (errors_New "directory not empty"), d)
  | Some _ => (Ok (), del p d)
  end).

Definition CreateTemp (pl : place) : Prog (Host X) path := fs_call (λ d,
  let tmp := (pl, ".worm-tmp-" +:+ temp_suffix (dir_of pl d)) in (Ok tmp, put tmp (EFile "") d)).

(** [os.WriteFile] and [File.Write] of all the bytes; a link is followed. *)
Definition write_at (p : path) (data : string) : Prog (Host X) unit := fs_call (λ d,
  match at_path p d with
  | Some (EDir _) => (Err (errors_New "is a directory"), d)
  | Some (ELink _) => (Ok (), put p (ELink (Some data)) d)
  | _ => (Ok (), put p (EFile data) d)
  end).

Definition os_Rename (src dst : path) : Prog (Host X) unit := fs_call (λ d,
  match at_path src d, at_path dst d with
  | None, _ => (Err (errors_New ErrNotExist), d)
  | Some _, Some (EDir _) => (Err (errors_New "file exists"), d)
  | Some e, _ => (Ok (), put dst e (del src d))
  end).

Definition fs_Now : Prog (Host X) time := λ h,
  (Ok (fs_clock (h_ticks h)),
   {| h_disk := h_disk h; h_own := h_own h; h_calls := h_calls h; h_ticks := S (h_ticks h) |}).

Definition own : Prog (Host X) X := λ h, (Ok (h_own h), h).
Definition set_own (x : X) : Prog (Host X) unit := λ h,
  (Ok (), {| h_disk := h_disk h; h_own := x; h_calls := h_calls h; h_ticks := h_ticks h |}).

(** ** [filesystem.go]

    [RejectSymlinks root target] looks at the root and at each part of the path below
    it; the roots and targets the code uses are [dir] or [dir/.marketplace] and one
    name below it. *)

Definition is_link (o : option entry) : bool := match o with Some (ELink _) => true | _ => false end.

Definition reject_links (root target : bool) : res unit :=
  if root then Err (errors_New "managed root cannot be a symlink")
  else if target then Err (errors_New "managed path cannot contain symlinks")
  else Ok ().

Definition root_is_link (pl : place) (d : Disk) : bool :=
  match pl with Packs => d_root_link d | Meta => d_meta_link d end.

(** [RejectSymlinks(filepath.Dir(path), path)]; for a pack file also [RejectSymlinks(dir, path)]. *)
Definition RejectSymlinks (p : path) : Prog (Host X) unit := fs_call (λ d,
  (reject_links (root_is_link p.1 d) (is_link (at_path p d)), d)).
(** [RejectSymlinks(dir, filepath.Join(dir, ".marketplace"))] *)
Definition RejectSymlinks_meta : Prog (Host X) unit := fs_call (λ d,
  (reject_links (d_root_link d) (d_meta_link d), d)).

(** ** [atomic_replace_unix.go], [sync_directory_unix.go], [durable_remove_unix.go] *)

Definition syncDirectory : Prog (Host X) unit := fs_nop ;;; fs_nop.

Definition atomicReplace (src dst : path) : Prog (Host X) unit := os_Rename src dst ;;; syncDirectory.

Definition durableRemove (p : path) : Prog (Host X) unit :=
  r <- try (os_Remove p) ;;
  match r with
  | Err e => if IsNotExist e then syncDirectory else fail e
  | _ => syncDirectory
  end.

(** ** [atomicWrite] of [manager.go]: a temporary file, then a rename *)

Definition atomicWrite (p : path) (data : string) : Prog (Host X) unit :=
  RejectSymlinks p ;;;
  fs_nop ;;;                                    (* MkdirAll *)
  tmp <- CreateTemp p.1 ;;
  r <- try (w <- try (fs_nop ;;; write_at tmp data ;;; fs_nop) ;;    (* Chmod, Write, Sync *)
            c <- try fs_nop ;;                                       (* Close *)
            mcall w ;;; mcall c ;;; atomicReplace tmp p) ;;
  _ <- try (os_Remove tmp) ;;                   (* deferred *)
  mcall r.
End fs.
