(* ===== verification/DiskSpec.v ===== *)
(** * Specifications of the file operations: atomic up to temporary files, fail-stop up to a crash

    Two disks are equivalent when they differ at most in temporary files: a crash in the
    middle of [atomicWrite] leaves one behind, which nothing ever reads. *)

From S2P Require Import Prelude GoStrings Model.
From S2P Require Export Monad Disk.

#[local] Open Scope monad_scope.

(** ** Equivalence of disks *)

Definition is_temp (name : string) : bool :=
  HasPrefix name ".worm-tmp-" && all_bytes is_digit (TrimPrefix name ".worm-tmp-").

Record same_disk (d d' : Disk) : Prop := {
  sd_root : d_root_link d = d_root_link d';
  sd_meta : d_meta_link d = d_meta_link d';
  sd_files pl n : is_temp n = false → dir_of pl d !! n = dir_of pl d' !! n;
}.
#[export] Instance disk_equiv : Equiv Disk := same_disk.

#[export] Instance disk_equivalence : Equivalence (≡@{Disk}).
Proof.
  split.
  - by intros d.
  - intros d d' [Hr Hm Hf]. split; [done..|]. intros pl n Hn. by rewrite Hf.
  - intros d1 d2 d3 [Hr Hm Hf] [Hr' Hm' Hf']. split; [congruence..|]. intros pl n Hn. by rewrite Hf, Hf'.
Qed.

Lemma dir_put pl p e d : dir_of pl (put p e d) = if decide (pl = p.1) then <[p.2 := e]> (dir_of pl d) else dir_of pl d.
Proof. destruct p as [[] n], pl; done. Qed.
Lemma dir_del pl p d : dir_of pl (del p d) = if decide (pl = p.1) then delete p.2 (dir_of pl d) else dir_of pl d.
Proof. destruct p as [[] n], pl; done. Qed.
Lemma links_put p e d : d_root_link (put p e d) = d_root_link d ∧ d_meta_link (put p e d) = d_meta_link d.
Proof. by destruct p as [[] n]. Qed.
Lemma links_del p d : d_root_link (del p d) = d_root_link d ∧ d_meta_link (del p d) = d_meta_link d.
Proof. by destruct p as [[] n]. Qed.

Lemma at_put p e d : at_path p (put p e d) = Some e.
Proof. unfold at_path. rewrite dir_put, decide_True by done. apply lookup_insert_eq. Qed.
Lemma at_put_ne p q e d : p ≠ q → at_path p (put q e d) = at_path p d.
Proof.
  unfold at_path. intros Hpq. rewrite dir_put. case_decide as Hd; [|done].
  apply lookup_insert_ne. destruct p, q; simpl in *; congruence.
Qed.
Lemma at_del p d : at_path p (del p d) = None.
Proof. unfold at_path. rewrite dir_del, decide_True by done. apply lookup_delete_eq. Qed.
Lemma at_del_ne p q d : p ≠ q → at_path p (del q d) = at_path p d.
Proof.
  unfold at_path. intros Hpq. rewrite dir_del. case_decide as Hd; [|done].
  apply lookup_delete_ne. destruct p, q; simpl in *; congruence.
Qed.

(** Disks are determined by what is at each path that is not temporary. *)
Lemma disk_ext d d' :
  d_root_link d = d_root_link d' → d_meta_link d = d_meta_link d' →
  (∀ p, is_temp p.2 = false → at_path p d = at_path p d') → d ≡ d'.
Proof. intros Hr Hm Hp. split; [done..|]. intros pl n Hn. by apply (Hp (pl, n)). Qed.

Lemma at_equiv p d d' : d ≡ d' → is_temp p.2 = false → at_path p d = at_path p d'.
Proof. intros [_ _ Hf] Hn. by apply Hf. Qed.

#[export] Instance put_proper p e : Proper ((≡) ==> (≡)) (put p e).
Proof.
  intros d d' Hd. destruct (links_put p e d), (links_put p e d'). destruct Hd as [Hr Hm Hf].
  apply disk_ext; [congruence..|]. intros q Hq. destruct (decide (q = p)) as [->|Hne]; [by rewrite !at_put|].
  rewrite !at_put_ne by done. by apply Hf.
Qed.
#[export] Instance del_proper p : Proper ((≡) ==> (≡)) (del p).
Proof.
  intros d d' Hd. destruct (links_del p d), (links_del p d'). destruct Hd as [Hr Hm Hf].
  apply disk_ext; [congruence..|]. intros q Hq. destruct (decide (q = p)) as [->|Hne]; [by rewrite !at_del|].
  rewrite !at_del_ne by done. by apply Hf.
Qed.

Lemma put_temp p e d : is_temp p.2 = true → put p e d ≡ d.
Proof.
  intros Ht. destruct (links_put p e d). apply disk_ext; [done..|]. intros q Hq. apply at_put_ne. congruence.
Qed.
Lemma del_temp p d : is_temp p.2 = true → del p d ≡ d.
Proof.
  intros Ht. destruct (links_del p d). apply disk_ext; [done..|]. intros q Hq. apply at_del_ne. congruence.
Qed.

(** Both directories are real ones, and a path holds a file or nothing. *)
Definition no_links (d : Disk) : Prop := d_root_link d = false ∧ d_meta_link d = false.
Definition plain (p : path) (d : Disk) : Prop :=
  match at_path p d with None | Some (EFile _) => True | _ => False end.

Lemma no_links_equiv d d' : d ≡ d' → no_links d → no_links d'.
Proof. intros [Hr Hm _] [? ?]. split; congruence. Qed.
Lemma no_links_put p e d : no_links d → no_links (put p e d).
Proof. unfold no_links. destruct (links_put p e d) as [-> ->]. done. Qed.
Lemma no_links_del p d : no_links d → no_links (del p d).
Proof. unfold no_links. destruct (links_del p d) as [-> ->]. done. Qed.
Lemma plain_equiv p d d' : d ≡ d' → is_temp p.2 = false → plain p d → plain p d'.
Proof. unfold plain. intros Hd Hp. by rewrite (at_equiv _ _ _ Hd). Qed.

(** ** Failures *)

Section failures.
Context `{FsEnv} {X : Type}.
Implicit Types (h : Host X).

(** After its first failure the process makes no further change: it crashed. *)
Definition fail_stop : Prop := ∀ k, fs_fault k ≠ Works → ∀ j, (k < j)%nat → fs_fault j = Refused.
Definition no_failure : Prop := ∀ k, fs_fault k = Works.
Definition dead h : Prop := ∀ j, (h_calls h ≤ j)%nat → fs_fault j = Refused.

(** What every run respects: a dead process changes nothing. *)
Record advance h h' : Prop := {
  ad_own : h_own h' = h_own h;
  ad_dead : dead h → dead h' ∧ h_disk h' = h_disk h;
}.
#[export] Instance advance_preorder : PreOrder advance.
Proof.
  split; [by split|]. intros x y z [Ho Hd] [Ho' Hd']. split; [congruence|].
  intros [Hy Hyd]%Hd. destruct (Hd' Hy). split; [done|congruence].
Qed.

(** The condition under which an error means that the process crashed. *)
Definition crashed_by {A} (r : res A) h : Prop :=
  match r with
  | Ok _ => True
  | Err _ => (fail_stop → dead h) ∧ (no_failure → False)
  | Panic _ => False
  end.

Lemma advance_call {A} (f : Disk → res A * Disk) : keeps advance (fs_call (X := X) f).
Proof.
  intros h. unfold fs_call. destruct (fs_fault (h_calls h)) eqn:Ef.
  - destruct (f (h_disk h)) as [r d]. split; [done|]. intros Hd. specialize (Hd (h_calls h) (le_n _)). congruence.
  - split; [done|]. intros Hd. split; [|done]. intros j Hj. apply Hd. simpl in Hj. lia.
  - split; [done|]. intros Hd. specialize (Hd (h_calls h) (le_n _)). congruence.
Qed.
#[local] Hint Resolve advance_call : worm.

Lemma wp_fs_call {A} (f : Disk → res A * Disk) Q h :
  Q (f (h_disk h)).1 (on_disk h (f (h_disk h)).2) →
  (∀ d, d = h_disk h ∨ d = (f (h_disk h)).2 → crashed_by (Err (A := A) os_error) (on_disk h d) →
        Q (Err os_error) (on_disk h d)) →
  wp (fs_call f) Q h.
Proof.
  intros Hok He. unfold wp, fs_call. destruct (fs_fault (h_calls h)) eqn:Ef.
  - destruct (f (h_disk h)) as [r d]. done.
  - apply He; [by left|]. split.
    + intros Hfs j Hj. apply (Hfs (h_calls h)); [congruence|done].
    + intros Hn. specialize (Hn (h_calls h)). congruence.
  - apply He; [by right|]. split.
    + intros Hfs j Hj. apply (Hfs (h_calls h)); [congruence|done].
    + intros Hn. specialize (Hn (h_calls h)). congruence.
Qed.

Lemma wp_nop (Q : res unit → Host X → Prop) h :
  (∀ r h', crashed_by r h' → h_disk h' = h_disk h → advance h h' → Q r h') → wp fs_nop Q h.
Proof.
  intros HQ. unfold fs_nop. apply (wp_keeps advance); [eauto with worm|].
  apply wp_fs_call; [intros; by apply HQ|]. intros d [-> | ->] Hc Ha; by apply HQ.
Qed.
End failures.
#[export] Hint Resolve advance_call : worm.

(** ** The operations *)

Section operations.
Context `{FsEnv} {X : Type}.
Implicit Types (h : Host X).

Lemma advance_syncDirectory : keeps advance (syncDirectory (X := X)).
Proof. unfold syncDirectory, fs_nop. keeps_tac. Qed.
Lemma advance_durableRemove p : keeps advance (durableRemove (X := X) p).
Proof. unfold durableRemove, syncDirectory, fs_nop, os_Remove. keeps_tac. Qed.
Lemma advance_atomicWrite p data : keeps advance (atomicWrite (X := X) p data).
Proof.
  unfold atomicWrite, atomicReplace, syncDirectory, fs_nop, write_at, os_Rename, os_Remove, CreateTemp, RejectSymlinks.
  keeps_tac.
Qed.

(** After a run of [m] the disk is [before] or [after]; it is [after] when the run
    succeeded, and it failed only by a failure of the environment. *)
Definition all_or_nothing {A} (before after : Disk) h (r : res A) h' : Prop :=
  advance h h' ∧ crashed_by r h'
  ∧ match r with Ok _ => h_disk h' ≡ after | _ => h_disk h' ≡ before ∨ h_disk h' ≡ after end.

Lemma wp_syncDirectory Q h :
  (∀ r h', crashed_by r h' → h_disk h' = h_disk h → advance h h' → Q r h') → wp syncDirectory Q h.
Proof.
  intros HQ. unfold syncDirectory. apply wp_bind, wp_nop. intros r h1 Hc1 Hd1 Ha1.
  destruct r as [[]|e|p]; [|by apply HQ..]. apply wp_nop. intros r h2 Hc2 Hd2 Ha2.
  apply HQ; [done|congruence|by transitivity h1].
Qed.

Lemma wp_os_Remove p Q h :
  plain p (h_disk h) →
  (∀ r h', advance h h' →
     match r with
     | Ok _ => h_disk h' ≡ del p (h_disk h)
     | Err e => (IsNotExist e = true ∧ at_path p (h_disk h) = None ∧ h_disk h' ≡ del p (h_disk h)) ∨
                (IsNotExist e = false ∧ crashed_by r h' ∧ (h_disk h' ≡ h_disk h ∨ h_disk h' ≡ del p (h_disk h)))
     | Panic _ => False
     end → Q r h') →
  wp (os_Remove p) Q h.
Proof.
  intros Hp HQ. unfold os_Remove. apply (wp_keeps advance); [eauto with worm|].
  apply wp_fs_call; unfold plain in Hp; destruct (at_path p (h_disk h)) as [[c|b|t]|] eqn:E; try done.
  - intros Ha. by apply HQ.
  - intros Ha. apply HQ; [done|]. left. split; [done|]. split; [done|]. cbn [on_disk h_disk fst snd].
    destruct (links_del p (h_disk h)) as [Hr Hm].
    symmetry. apply disk_ext; [done..|]. intros q _. destruct (decide (q = p)) as [->|Hne]; [by rewrite at_del|by apply at_del_ne].
  - intros d Hd Hc Ha. apply HQ; [done|]. right. split; [done|]. split; [done|]. cbn [on_disk h_disk fst snd] in *.
    destruct Hd as [-> | ->]; [by left|by right].
  - intros d Hd Hc Ha. apply HQ; [done|]. right. split; [done|]. split; [done|]. left.
    cbn [on_disk h_disk fst snd] in *. by destruct Hd as [-> | ->].
Qed.

Lemma wp_ReadFile p Q h :
  plain p (h_disk h) →
  (∀ r h', advance h h' → h_disk h' = h_disk h →
     match r with
     | Ok c => at_path p (h_disk h) = Some (EFile c)
     | Err e => (IsNotExist e = true ∧ at_path p (h_disk h) = None) ∨ (IsNotExist e = false ∧ crashed_by r h')
     | Panic _ => False
     end → Q r h') →
  wp (ReadFile p) Q h.
Proof.
  intros Hp HQ. unfold ReadFile. apply (wp_keeps advance); [eauto with worm|].
  unfold plain in Hp. apply wp_fs_call; cbn [fst snd].
  - intros Ha. apply HQ; [done..|]. destruct (at_path p (h_disk h)) as [[c|b|t]|]; try done. by left.
  - intros d Hd Hc Ha. apply HQ; [done| |]; [by destruct Hd as [-> | ->]|by right].
Qed.

Lemma wp_durableRemove p h :
  plain p (h_disk h) → wp (durableRemove p) (all_or_nothing (h_disk h) (del p (h_disk h)) h) h.
Proof.
  intros Hp. unfold durableRemove. apply wp_bind, wp_try, wp_os_Remove; [done|]. intros r h1 Ha1 Hr.
  assert (h_disk h1 ≡ del p (h_disk h) → wp syncDirectory (all_or_nothing (h_disk h) (del p (h_disk h)) h) h1) as Hs.
  { intros Hd. apply wp_syncDirectory. intros r2 h2 Hc2 Hd2 Ha2.
    split; [by transitivity h1|]. split; [done|]. rewrite Hd2. destruct r2; auto. }
  destruct r as [[]|e|q]; [by apply Hs| |done].
  destruct Hr as [(He & _ & Hd)|(He & Hc & Hd)]; rewrite He; [by apply Hs|]. apply wp_fail. done.
Qed.
End operations.
#[export] Hint Resolve advance_syncDirectory advance_durableRemove advance_atomicWrite : worm.

(** ** [atomicWrite]: the target keeps its content or has the new one, whatever fails *)

Section atomic_write.
Context `{FsEnv} {X : Type}.
Implicit Types (h : Host X).

Lemma is_temp_suffix m : is_temp (".worm-tmp-" +:+ temp_suffix m) = true.
Proof. unfold is_temp. rewrite TrimPrefix_app, temp_digits, andb_true_r. apply HasPrefix_spec. eauto. Qed.

Lemma wp_CreateTemp pl Q h :
  (∀ r h', advance h h' → crashed_by r h' → h_disk h' ≡ h_disk h →
     (∀ tmp, r = Ok tmp → is_temp tmp.2 = true ∧ at_path tmp (h_disk h') = Some (EFile "")) → Q r h') →
  wp (CreateTemp pl) Q h.
Proof.
  intros HQ. unfold CreateTemp. apply (wp_keeps advance); [eauto with worm|].
  set (tmp := (pl, ".worm-tmp-" +:+ temp_suffix (dir_of pl (h_disk h)))).
  assert (is_temp tmp.2 = true) as Ht by apply is_temp_suffix.
  apply wp_fs_call; cbn [fst snd]; fold tmp.
  - intros Ha. apply HQ; [done..| |].
    + by apply put_temp.
    + intros t [= <-]. split; [done|apply at_put].
  - intros d Hd Hc Ha. apply HQ; [done..| |done]. destruct Hd as [-> | ->]; [done|by apply put_temp].
Qed.

Lemma wp_write_temp tmp c data Q h :
  is_temp tmp.2 = true → at_path tmp (h_disk h) = Some (EFile c) →
  (∀ r h', advance h h' → crashed_by r h' → h_disk h' ≡ h_disk h →
     (r = Ok () → at_path tmp (h_disk h') = Some (EFile data)) → Q r h') →
  wp (write_at tmp data) Q h.
Proof.
  intros Ht Hc HQ. unfold write_at. apply (wp_keeps advance); [eauto with worm|].
  apply wp_fs_call; rewrite Hc; cbn [fst snd].
  - intros Ha. apply HQ; [done..|by apply put_temp|]. intros _. apply at_put.
  - intros d Hd Hcr Ha. apply HQ; [done..| |done]. destruct Hd as [-> | ->]; [done|by apply put_temp].
Qed.

Lemma wp_fill_temp tmp data Q h :
  is_temp tmp.2 = true → at_path tmp (h_disk h) = Some (EFile "") →
  (∀ r h', advance h h' → crashed_by r h' → h_disk h' ≡ h_disk h →
     (r = Ok () → at_path tmp (h_disk h') = Some (EFile data)) → Q r h') →
  wp (fs_nop ;;; write_at tmp data ;;; fs_nop) Q h.
Proof.
  intros Ht Hc HQ. apply wp_bind, wp_nop. intros r h1 Hc1 Hd1 Ha1.
  destruct r as [[]|e|q]; [|by apply HQ; rewrite ?Hd1..].
  apply wp_bind, (wp_write_temp tmp ""); [done|by rewrite Hd1|]. intros r h2 Ha2 Hc2 Hd2 Hw.
  assert (advance h h2) by by transitivity h1. rewrite Hd1 in Hd2.
  destruct r as [[]|e|q]; [|by apply HQ..].
  apply wp_nop. intros r h3 Hc3 Hd3 Ha3. apply HQ; [by transitivity h2|done|by rewrite Hd3|].
  intros _. rewrite Hd3. by apply Hw.
Qed.

Lemma wp_atomicReplace tmp p data h :
  is_temp tmp.2 = true → is_temp p.2 = false → at_path tmp (h_disk h) = Some (EFile data) → plain p (h_disk h) →
  wp (atomicReplace tmp p) (all_or_nothing (h_disk h) (put p (EFile data) (h_disk h)) h) h.
Proof.
  intros Ht Hp Htmp Hpl. unfold atomicReplace. apply wp_bind. unfold os_Rename.
  apply (wp_keeps advance); [eauto with worm|].
  assert (put p (EFile data) (del tmp (h_disk h)) ≡ put p (EFile data) (h_disk h)) as Heq
    by (f_equiv; by apply del_temp).
  apply wp_fs_call; rewrite Htmp; unfold plain in Hpl;
    destruct (at_path p (h_disk h)) as [[c|b|t]|] eqn:E; try done; cbn [fst snd].
  1,2: intros Ha; apply wp_syncDirectory; intros r h2 Hc2 Hd2 Ha2; split; [by etransitivity|]; split; [done|];
    rewrite Hd2; cbn [on_disk h_disk]; destruct r; auto.
  1,2: intros d Hd Hc Ha; split; [done|]; split; [done|]; cbn [on_disk h_disk]; destruct Hd as [-> | ->]; auto.
Qed.

Lemma crashed_by_advance {A} (r : res A) h h' : advance h h' → crashed_by r h → crashed_by r h'.
Proof.
  intros [_ Hd]. destruct r; [done| |done]. intros [Hc Hn]. split; [|done]. intros Hfs. by apply Hd, Hc.
Qed.

Lemma all_or_nothing_refused {A} (d0 d1 : Disk) h (r : res A) h' :
  advance h h' → crashed_by r h' → h_disk h' ≡ d0 → (∀ a, r ≠ Ok a) → all_or_nothing d0 d1 h r h'.
Proof. intros Ha Hc Hd Hr. split; [done|]. split; [done|]. destruct r; [by destruct (Hr a)|by left..]. Qed.

Lemma wp_replace_temp tmp p data h :
  is_temp tmp.2 = true → is_temp p.2 = false → at_path tmp (h_disk h) = Some (EFile "") → plain p (h_disk h) →
  wp (w <- try (fs_nop ;;; write_at tmp data ;;; fs_nop) ;;
      c <- try fs_nop ;;
      mcall w ;;; mcall c ;;; atomicReplace tmp p)
    (all_or_nothing (h_disk h) (put p (EFile data) (h_disk h)) h) h.
Proof.
  intros Ht Hp Hc Hpl. set (d0 := h_disk h) in *. set (d1 := put p (EFile data) d0).
  apply wp_bind, wp_try, wp_fill_temp; [done..|]. intros w h1 Ha1 Hc1 Hd1 Hw.
  assert (∀ (r2 : res unit) h2, crashed_by r2 h2 → h_disk h2 = h_disk h1 → advance h1 h2 →
    wp (mcall w ;;; mcall r2 ;;; atomicReplace tmp p) (all_or_nothing d0 d1 h) h2) as Hrest.
  { intros r2 h2 Hc2 Hd2 Ha2. assert (advance h h2) as Ha by by transitivity h1.
    rewrite <- Hd2 in *. apply wp_bind, wp_mcall. pose proof (crashed_by_advance w h1 h2 Ha2 Hc1).
    destruct w as [[]|e|q]; [|by apply all_or_nothing_refused..].
    apply wp_bind, wp_mcall. destruct r2 as [[]|e|q]; [|by apply all_or_nothing_refused..].
    eapply wp_mono; [apply wp_atomicReplace|]; [done|done|by apply Hw|by apply (plain_equiv p d0)|].
    intros r3 h3 (Ha3 & Hc3 & Hd3). split; [by transitivity h2|]. split; [done|].
    unfold d1, d0. destruct r3; rewrite <- Hd1; done. }
  destruct w as [[]|e|q]; [| |done]; apply wp_bind, wp_try, wp_nop; intros [[]|e2|q2] h2 Hc2 Hd2 Ha2;
    try done; by apply Hrest.
Qed.

Lemma wp_remove_temp tmp Q h :
  is_temp tmp.2 = true →
  (∀ r h', advance h h' → h_disk h' ≡ h_disk h → no_panic r → Q r h') → wp (os_Remove tmp) Q h.
Proof.
  intros Ht HQ. unfold os_Remove. apply (wp_keeps advance); [eauto with worm|].
  apply wp_fs_call; destruct (at_path tmp (h_disk h)) as [[c|[]|t]|] eqn:E; cbn [fst snd].
  1-5: intros Ha; apply HQ; [done| |done]; try done; by apply del_temp.
  all: intros d Hd Hc Ha; apply HQ; [done| |done]; destruct Hd as [-> | ->]; try done; by apply del_temp.
Qed.

(** A write of a managed file is atomic: whatever call fails, and wherever the process
    stops, the file has its old content or exactly the new bytes, nothing else but a
    temporary file changes, and success means that the new bytes are there. *)
Lemma wp_atomicWrite p data h :
  is_temp p.2 = false → no_links (h_disk h) → plain p (h_disk h) →
  wp (atomicWrite p data) (all_or_nothing (h_disk h) (put p (EFile data) (h_disk h)) h) h.
Proof.
  intros Hp Hl Hpl. set (d0 := h_disk h) in *. set (d1 := put p (EFile data) d0).
  unfold atomicWrite. apply wp_bind. apply (wp_keeps advance); [unfold RejectSymlinks; eauto with worm|].
  unfold RejectSymlinks. apply wp_fs_call; cbn [fst snd].
  2: { intros d Hd Hc Ha. apply all_or_nothing_refused; [done..| |done]. by destruct Hd as [-> | ->]. }
  fold d0. assert (reject_links (root_is_link p.1 d0) (is_link (at_path p d0)) = Ok ()) as ->.
  { unfold plain in Hpl. destruct Hl as [Hl1 Hl2], p as [[] n]; simpl; rewrite ?Hl1, ?Hl2;
      destruct (at_path _ d0) as [[]|]; done. }
  intros Ha1. apply wp_bind, wp_nop. intros r h2 Hc2 Hd2 Ha2. change (h_disk h2 = d0) in Hd2.
  assert (advance h h2) as Ha by (etransitivity; eassumption).
  destruct r as [[]|e|q]; [|by apply all_or_nothing_refused; rewrite ?Hd2..].
  apply wp_bind, wp_CreateTemp. intros r h3 Ha3 Hc3 Hd3 Htmp. rewrite Hd2 in Hd3.
  assert (advance h h3) as Ha' by by transitivity h2.
  destruct r as [tmp|e|q]; [|by apply all_or_nothing_refused..]. destruct (Htmp tmp eq_refl) as [Ht Hte].
  apply wp_bind, wp_try. eapply wp_mono; [apply (wp_replace_temp tmp p data h3)|]; try done.
  { by apply (plain_equiv p d0). }
  intros r h4 (Ha4 & Hc4 & Hd4).
  assert (wp (_ <- try (os_Remove tmp) ;; mcall r) (all_or_nothing d0 d1 h) h4) as Hrest; [|by destruct r].
  apply wp_bind, wp_try, wp_remove_temp; [done|]. intros r5 h5 Ha5 Hd5 Hp5.
  assert (wp (mcall r) (all_or_nothing d0 d1 h) h5) as Hend; [|by destruct r5].
  apply wp_mcall. split; [by transitivity h3; [|transitivity h4]|]. split; [by apply (crashed_by_advance r h4)|].
  unfold d1. destruct r; rewrite Hd5, <- Hd3; done.
Qed.
End atomic_write.
