(* ===== verification/PackStore.v ===== *)
(** * [internal/packs/manager.go], [manifest.go]: installing, removing and rolling back packs

    A mutation of the pack directory is a journaled transaction: a record of the state
    before is written to [transaction.json], the pack file is changed, the whole
    directory is validated, the record is rewritten as committed with what remains to
    be done, the rollback record and the manifest are written, and the journal is
    removed.  [RecoverTransactions] undoes or finishes whatever a stopped process left.

    The two mutexes of [SnapshotManager] make every operation atomic with respect to the
    others, so operations are programs run one after the other. *)

From S2P Require Import Prelude GoStrings GoNum GoIO GoTime Model Decoder Pack Snapshot.
From S2P Require Export Monad Disk.

#[local] Open Scope monad_scope.

(** ** Records kept on disk; a nil or empty slice of bytes is the empty string *)

Record rollbackRecord := {
  rr_Filename : string; rr_Existed : bool; rr_Content : string; rr_Name : string; rr_Manifest : string;
}.
Definition no_record : rollbackRecord :=
  {| rr_Filename := ""; rr_Existed := false; rr_Content := ""; rr_Name := ""; rr_Manifest := "" |}.

Record transactionRecord := {
  tr_Before : rollbackRecord; tr_Undo : rollbackRecord; tr_PriorUndo : string;
  tr_PriorManifest : string; tr_NextManifest : string; tr_Committed : bool;
}.

Record PackFileExpectation := { Exists : bool; Digest : string }.

Record PackInstall := {
  pi_Name : string; pi_Filename : string; pi_Version : string; pi_Digest : string;
  pi_Origin : string; pi_Pinned : bool;
}.
Record PackRevision := {
  pr_Filename : string; pr_Existed : bool; pr_Content : string; pr_Previous : option PackInstall;
}.
(** The code replaces a nil map by an empty one before it looks at it. *)
Record PackManifest := {
  pm_Version : Z; Entries : gmap string PackInstall; History : gmap string (list PackRevision);
}.
Definition EmptyManifest : PackManifest := {| pm_Version := 1; Entries := ∅; History := ∅ |}.
Definition zero_manifest : PackManifest := {| pm_Version := 0; Entries := ∅; History := ∅ |}.

(** The state of a [SnapshotManager]; [m_addedFile] and [m_backupFile] are file names, or empty. *)
Record Manager := {
  m_active : option Snapshot; m_previous : option Snapshot; m_packsDir : string;
  m_backupFile : string; m_backupContent : option string; m_addedFile : string;
}.

(** ** Code outside the repository *)

Class PackCodec := {
  yaml_Decode : string → res ParserPack;                    (* strict YAML into a pack *)
  regexp_Compile : string → res (string → bool);
  sha256_hex : string → string;
  (* encoding/json *)
  Marshal_rollback : rollbackRecord → res string;
  Unmarshal_rollback : string → option rollbackRecord;
  Marshal_transaction : transactionRecord → res string;
  Unmarshal_transaction : string → option transactionRecord;
  MarshalIndent_manifest : PackManifest → res string;
  Unmarshal_manifest : PackManifest → string → option PackManifest;   (* into a given value *)
}.

Definition has_separator (s : string) : bool := Contains s "/" || Contains s "\".
Definition is_yaml (name : string) : bool :=
  let ext := ToLower (filepath_Ext name) in (ext =s ".yaml") || (ext =s ".yml").

Definition rollbackPath : path := (Meta, "rollback.json").
Definition transactionPath : path := (Meta, "transaction.json").
Definition manifestPath : path := (Meta, "manifest.json").
Definition pack_path (filename : string) : path := (Packs, filename).

Section packstore.
Context `{FsEnv} `{PackCodec}.

Abbreviation P := (Prog (Host Manager)).

Definition wrap_p {A} (f : error → error) (m : P A) : P A :=
  r <- try m ;; match r with Err e => fail (f e) | r => mcall r end.

(** [pack.go]: [LoadPack] *)
Definition LoadPack (content : string) : res ParserPack :=
  pack ← wrap_err (λ e, Errorf "yaml decode error: %w" [AErr e]) (yaml_Decode content);
  wrap_err (λ e, Errorf "pack validation failed: %w" [AErr e]) (Validate regexp_Compile pack).

Definition digestBytes (data : string) : string := sha256_hex data.
Definition encodeManifest (m : PackManifest) : res string := MarshalIndent_manifest m.

(** ** Records on disk *)

Definition writeRecord (p : path) (record : rollbackRecord) : P unit :=
  data <- mcall (Marshal_rollback record) ;; fs_nop ;;; atomicWrite p data.
Definition writeRollback (record : rollbackRecord) : P unit := writeRecord rollbackPath record.
Definition writeTransactionRecord (record : transactionRecord) : P unit :=
  data <- mcall (Marshal_transaction record) ;; atomicWrite transactionPath data.

(** A missing file reads as no bytes. *)
Definition read_or_empty (p : path) : P string :=
  r <- try (ReadFile p) ;;
  match r with Err e => if IsNotExist e then ret "" else fail e | r => mcall r end.
Definition readUndo : P string := read_or_empty rollbackPath.

Definition remove_if_exists (p : path) : P unit :=
  r <- try (os_Remove p) ;;
  match r with Err e => if IsNotExist e then ret () else fail e | r => mcall r end.

Definition restore_bytes (p : path) (data : string) : P unit :=
  if data =s "" then remove_if_exists p else atomicWrite p data.
Definition restoreUndo (data : string) : P unit := restore_bytes rollbackPath data.
Definition restoreManifest (data : string) : P unit := restore_bytes manifestPath data.

Definition validateRecord (record : rollbackRecord) : res unit :=
  let f := rr_Filename record in
  if (f =s "") || (filepath_Base f <>s f) || has_separator f || Contains f ".." then
    Err (errors_New "unsafe pack transaction filename")
  else if negb (is_yaml f) then
    Err (errors_New "pack transaction filename must end in .yaml or .yml")
  else Ok ().

Definition restoreRecord (record : rollbackRecord) : P unit :=
  mcall (validateRecord record) ;;;
  let target := pack_path (rr_Filename record) in
  RejectSymlinks target ;;;
  if rr_Existed record then atomicWrite target (rr_Content record) else durableRemove target.

(** ** [RecoverTransactions] *)

Definition roll_forward (record : transactionRecord) : P unit :=
  writeRollback (tr_Undo record) ;;;
  if tr_NextManifest record <>s "" then restoreManifest (tr_NextManifest record) else ret ().

Definition roll_back (record : transactionRecord) : P unit :=
  restoreRecord (tr_Before record) ;;;
  restoreUndo (tr_PriorUndo record) ;;;
  restoreManifest (tr_PriorManifest record).

Definition RecoverTransactions : P unit :=
  RejectSymlinks_meta ;;;
  r <- try (ReadFile transactionPath) ;;
  match r with
  | Err e => if IsNotExist e then ret () else fail e
  | Panic p => mcall (Panic p)
  | Ok data =>
      match Unmarshal_transaction data with
      | None => fail (errors_New "invalid pack recovery record")
      | Some record =>
          mcall (validateRecord (tr_Before record)) ;;;
          wrap_p (λ e, Errorf "recover parser pack transaction: %w" [AErr e])
            (if tr_Committed record then roll_forward record else roll_back record) ;;;
          os_Remove transactionPath
      end
  end.

(** ** [LoadDir] *)

Definition ReadDir : P (list (string * entry)) := fs_call (λ d,
  (Ok (order_by (λ a b, str_le a.1 b.1) (map_to_list (d_packs d))), d)).

Fixpoint pack_files (entries : list (string * entry)) : res (list string) :=
  match entries with
  | [] => Ok []
  | (_, EDir _) :: l => pack_files l
  | (name, e) :: l =>
      if is_yaml name then
        match e with
        | ELink _ => Err (Errorf "parser pack %s must not be a symlink" [AStr name])
        | _ => files ← pack_files l; Ok (name :: files)
        end
      else pack_files l
  end.

Fixpoint load_packs (files : list string) : P (list ParserPack) :=
  match files with
  | [] => ret []
  | file :: l =>
      content <- wrap_p (λ e, Errorf "failed to open %s: %w" [AStr file; AErr e]) (ReadFile (pack_path file)) ;;
      pack <- mcall (wrap_err (λ e, Errorf "error loading pack from %s: %w" [AStr file; AErr e])
                       (LoadPack content)) ;;
      loaded <- load_packs l ;;
      ret (pack :: loaded)
  end.

Definition LoadDir : P Snapshot :=
  entries <- wrap_p (λ e, Errorf "failed to read parser packs directory: %w" [AErr e]) ReadDir ;;
  files <- mcall (pack_files entries) ;;
  loadedPacks <- load_packs (order_by str_le files) ;;
  now <- fs_Now ;;
  mcall (NewSnapshot sha256_hex ("snap-" +:+ Itoa now) (Some <$> loadedPacks)).

(** ** The manifest *)

Definition ReadManifest : P PackManifest :=
  r <- try (ReadFile manifestPath) ;;
  match r with
  | Err e => if IsNotExist e then ret EmptyManifest else fail e
  | Panic p => mcall (Panic p)
  | Ok b =>
      match Unmarshal_manifest zero_manifest b with
      | None => fail (errors_New "invalid parser pack manifest")
      | Some m => if negb (pm_Version m =? 1)
                  then fail (errors_New "unsupported parser pack manifest version") else ret m
      end
  end.

Definition WriteManifest (m : PackManifest) : P unit :=
  b <- mcall (encodeManifest m) ;; atomicWrite manifestPath b.

Definition prior_manifest (prior : string) : res PackManifest :=
  if prior =s "" then Ok EmptyManifest
  else of_option (errors_New "read pack manifest") (Unmarshal_manifest EmptyManifest prior).

Definition with_entries (e : gmap string PackInstall) (m : PackManifest) : PackManifest :=
  {| pm_Version := pm_Version m; Entries := e; History := History m |}.
(** [m.History[name] = append(m.History[name], rev)] *)
Definition push_revision (name : string) (rev : PackRevision) (m : PackManifest) : PackManifest :=
  {| pm_Version := pm_Version m; Entries := Entries m;
     History := <[name := default [] (History m !! name) ++ [rev]]> (History m) |}.

Definition apply_revision (m : PackManifest) (name filename : string) (before : rollbackRecord) : res PackRevision :=
  if rr_Existed before then
    old ← LoadPack (rr_Content before);
    if pack_name old <>s name then
      Err (errors_New "refuse to replace a file whose pack identity differs from the requested pack")
    else Ok {| pr_Filename := filename; pr_Existed := true; pr_Content := rr_Content before;
               pr_Previous := Entries m !! name |}
  else if TrimSuffix filename (filepath_Ext filename) <>s name then
    Err (errors_New "new pack filename must match pack metadata name")
  else Ok {| pr_Filename := filename; pr_Existed := false; pr_Content := ""; pr_Previous := None |}.

Definition nextManifestForApply (prior name filename content origin : string) (pinned : bool)
    (before : rollbackRecord) : res string :=
  m ← prior_manifest prior;
  rev ← apply_revision m name filename before;
  pack ← LoadPack content;
  let entry := {| pi_Name := name; pi_Filename := filename; pi_Version := mVersion (Metadata pack);
                  pi_Digest := digestBytes content; pi_Origin := origin; pi_Pinned := pinned |} in
  encodeManifest (with_entries (<[name := entry]> (Entries m)) (push_revision name rev m)).

Definition nextManifestForRemove (prior name : string) (before : rollbackRecord) : res string :=
  m ← prior_manifest prior;
  let rev := {| pr_Filename := rr_Filename before; pr_Existed := true; pr_Content := rr_Content before;
                pr_Previous := Entries m !! name |} in
  encodeManifest (with_entries (delete name (Entries m)) (push_revision name rev m)).

(** ** Transactions *)

Record begun := {
  b_filename : string; b_before : rollbackRecord; b_priorUndo : string; b_priorManifest : string }.

Definition packs_dir : P string := m <- own ;; ret (m_packsDir m).
Definition not_configured : error := errors_New "packsDir not configured on SnapshotManager".

(** The file has changed since the caller looked at it. *)
Definition unexpected (expected : option PackFileExpectation) (exists_ : bool) (content : string) : bool :=
  match expected with
  | None => false
  | Some e => negb (Bool.eqb (Exists e) exists_) || (exists_ && (Digest e <>s digestBytes content))
  end.

(** The rest of [beginFileTransaction], once the file was read. *)
Definition begin_read (filename : string) (expected : option PackFileExpectation) (exists_ : bool)
    (content : string) : P begun :=
  if unexpected expected exists_ content then fail (errors_New "pack changed since the operation began")
  else
    priorUndo <- readUndo ;;
    priorManifest <- read_or_empty manifestPath ;;
    ret {| b_filename := filename;
           b_before := {| rr_Filename := filename; rr_Existed := exists_; rr_Content := content;
                          rr_Name := ""; rr_Manifest := "" |};
           b_priorUndo := priorUndo; b_priorManifest := priorManifest |}.

Definition beginFileTransaction (filename : string) (expected : option PackFileExpectation) : P begun :=
  dir <- packs_dir ;;
  if dir =s "" then fail not_configured
  else if has_separator filename || Contains filename ".." || (filename =s "") then
    fail (errors_New "invalid pack filename")
  else if negb (is_yaml filename) then fail (errors_New "pack filename must end in .yaml or .yml")
  else
    RecoverTransactions ;;;
    RejectSymlinks (pack_path filename) ;;;
    r <- try (ReadFile (pack_path filename)) ;;
    match r with
    | Ok content => begin_read filename expected true content
    | Err e => if IsNotExist e then begin_read filename expected false "" else fail e
    | Panic p => mcall (Panic p)
    end.

(** What [beginFileTransaction] finds on a disk. *)
Definition bytes_at (p : path) (d : Disk) : string :=
  match at_path p d with Some (EFile c) => c | _ => "" end.
Definition observed (filename : string) (d : Disk) : begun :=
  {| b_filename := filename;
     b_before := {| rr_Filename := filename;
                    rr_Existed := match at_path (pack_path filename) d with Some _ => true | None => false end;
                    rr_Content := bytes_at (pack_path filename) d; rr_Name := ""; rr_Manifest := "" |};
     b_priorUndo := bytes_at rollbackPath d; b_priorManifest := bytes_at manifestPath d |}.

Definition started_record (b : begun) : transactionRecord :=
  {| tr_Before := b_before b; tr_Undo := no_record; tr_PriorUndo := b_priorUndo b;
     tr_PriorManifest := b_priorManifest b; tr_NextManifest := ""; tr_Committed := false |}.
Definition committed_record (b : begun) (undo : rollbackRecord) (next : string) : transactionRecord :=
  {| tr_Before := b_before b; tr_Undo := undo; tr_PriorUndo := b_priorUndo b;
     tr_PriorManifest := b_priorManifest b; tr_NextManifest := next; tr_Committed := true |}.
Definition undo_record (b : begun) (name : string) : rollbackRecord :=
  {| rr_Filename := b_filename b; rr_Existed := rr_Existed (b_before b); rr_Content := rr_Content (b_before b);
     rr_Name := name; rr_Manifest := b_priorManifest b |}.

(** [return nil, m.abortTransaction(pending, cause)] *)
Definition abortTransaction {A} (pending : transactionRecord) (cause : error) : P A :=
  let step fmt m k :=
    r <- try m ;; match r with Err err => fail (Errorf fmt [AVErr cause; AErr err]) | Panic p => mcall (Panic p) | Ok _ => k end in
  step "%v; restore failed: %w" (restoreRecord (tr_Before pending))
    (step "%v; restore prior rollback state failed: %w" (restoreUndo (tr_PriorUndo pending))
      (step "%v; restore prior manifest failed: %w" (restoreManifest (tr_PriorManifest pending))
        (step "%v; transaction cleanup failed: %w" (remove_if_exists transactionPath) (fail cause)))).

(** [if err = m(); err != nil { return nil, m.abortTransaction(pending, wrap(err)) }] *)
Definition or_abort {A} (pending : transactionRecord) (wrap : error → error) (m : P A) : P A :=
  r <- try m ;; match r with Err e => abortTransaction pending (wrap e) | r => mcall r end.

Definition errf (fmt : string) (e : error) : error := Errorf fmt [AErr e].

(** [_ = os.Remove(transactionPath(dir))] *)
Definition cleanup : P unit := _ <- try (os_Remove transactionPath) ;; ret ().

Definition activate (newSnap : Snapshot) (target content : string) (existed : bool) : P Snapshot :=
  m <- own ;;
  set_own {| m_active := Some newSnap; m_previous := m_active m; m_packsDir := m_packsDir m;
             m_backupFile := target; m_backupContent := if existed then Some content else None;
             m_addedFile := "" |} ;;;
  ret newSnap.

(** ** Operations of [SnapshotManager] *)

Definition NewSnapshotManager (initial : option Snapshot) : Manager :=
  {| m_active := initial; m_previous := None; m_packsDir := ""; m_backupFile := "";
     m_backupContent := None; m_addedFile := "" |}.

Definition SetPacksDir (dir : string) : P unit :=
  m <- own ;;
  set_own {| m_active := m_active m; m_previous := m_previous m; m_packsDir := dir;
             m_backupFile := m_backupFile m; m_backupContent := m_backupContent m;
             m_addedFile := m_addedFile m |}.

Definition Active : P (option Snapshot) := m <- own ;; ret (m_active m).

Definition Activate (newSnap : option Snapshot) : P unit :=
  match newSnap with
  | None => fail (errors_New "cannot activate nil snapshot")
  | Some _ =>
      m <- own ;;
      set_own {| m_active := newSnap; m_previous := m_active m; m_packsDir := m_packsDir m;
                 m_backupFile := m_backupFile m; m_backupContent := m_backupContent m;
                 m_addedFile := m_addedFile m |}
  end.

(** From the commit of the journal to its removal; [wrap] is what the caller makes of an error. *)
Definition commit_transaction (wrap : string → error → error) (b : begun) (undo : rollbackRecord)
    (next : string) : P unit :=
  let before := started_record b in
  or_abort before (wrap "commit pack transaction: %w")
    (writeTransactionRecord (committed_record b undo next)) ;;;
  or_abort before (wrap "persist rollback state: %w") (writeRollback undo) ;;;
  or_abort before (wrap "persist pack manifest: %w") (restoreManifest next) ;;;
  cleanup.

Definition ApplyPackFileWithState (filename content : string) (expected : option PackFileExpectation)
    (origin : string) (pinned : bool) : P Snapshot :=
  pack <- mcall (wrap_err (errf "pack validation failed: %w") (LoadPack content)) ;;
  dir <- packs_dir ;;
  if dir =s "" then fail not_configured
  else
    b <- beginFileTransaction filename expected ;;
    wrap_p (errf "persist pack transaction: %w") (writeTransactionRecord (started_record b)) ;;;
    or_abort (started_record b) (errf "stage pack: %w") (atomicWrite (pack_path filename) content) ;;;
    newSnap <- or_abort (started_record b) (errf "validate proposed pack set: %w") LoadDir ;;
    nextManifest <- or_abort (started_record b) (λ e, e)
      (mcall (nextManifestForApply (b_priorManifest b) (pack_name pack) filename content origin pinned (b_before b))) ;;
    commit_transaction errf b (undo_record b (pack_name pack)) nextManifest ;;;
    activate newSnap filename (rr_Content (b_before b)) (rr_Existed (b_before b)).

Definition ApplyPackFileExpected (filename content : string) (expected : option PackFileExpectation) : P Snapshot :=
  ApplyPackFileWithState filename content expected "custom" false.
Definition ApplyPackFile (filename content : string) : P Snapshot :=
  ApplyPackFileWithState filename content None "custom" false.

Definition RemovePackFileExpected (filename : string) (expected : option PackFileExpectation) : P Snapshot :=
  if has_separator filename || Contains filename ".." || (filename =s "") then
    fail (errors_New "invalid pack filename")
  else
    dir <- packs_dir ;;
    if dir =s "" then fail not_configured
    else
      b <- beginFileTransaction filename expected ;;
      if negb (rr_Existed (b_before b)) then fail (errors_New ErrNotExist)
      else
        pack <- mcall (wrap_err (errf "refuse to remove invalid pack file: %w")
                         (LoadPack (rr_Content (b_before b)))) ;;
        nextManifest <- mcall (nextManifestForRemove (b_priorManifest b) (pack_name pack) (b_before b)) ;;
        wrap_p (errf "persist pack transaction: %w") (writeTransactionRecord (started_record b)) ;;;
        or_abort (started_record b) (λ e, e) (durableRemove (pack_path filename)) ;;;
        newSnap <- or_abort (started_record b) (errf "validate proposed pack set: %w") LoadDir ;;
        commit_transaction (λ _ e, e) b (undo_record b (pack_name pack)) nextManifest ;;;
        activate newSnap filename (rr_Content (b_before b)) true.

Definition RemovePackFile (filename : string) : P Snapshot := RemovePackFileExpected filename None.

(** The rollback of a journaled change, itself journaled. *)
Definition rollback_files (record : rollbackRecord) : P unit :=
  mcall (validateRecord record) ;;;
  b <- beginFileTransaction (rr_Filename record) None ;;
  let pending := started_record b in
  writeTransactionRecord pending ;;;
  or_abort pending (λ e, e) (restoreRecord record) ;;;
  or_abort pending (λ e, e) (restoreManifest (rr_Manifest record)) ;;;
  snap <- or_abort pending (errf "rollback would create an invalid pack set: %w") LoadDir ;;
  nextManifest <- or_abort pending (λ e, e) (read_or_empty manifestPath) ;;
  let undo := undo_record b (rr_Name record) in
  or_abort pending (λ e, e) (writeTransactionRecord (committed_record b undo nextManifest)) ;;;
  or_abort pending (λ e, e) (writeRollback undo) ;;;
  remove_if_exists transactionPath ;;;
  m <- own ;;
  set_own {| m_active := Some snap; m_previous := None; m_packsDir := m_packsDir m;
             m_backupFile := m_backupFile m; m_backupContent := m_backupContent m;
             m_addedFile := m_addedFile m |}.

(** Without a record on disk: the previous snapshot of this process. *)
Definition rollback_memory : P unit :=
  m <- own ;;
  match m_previous m with
  | None => fail (errors_New "no previous parser pack state available to rollback")
  | Some _ =>
      (if m_addedFile m <>s "" then
         remove_if_exists (pack_path (m_addedFile m)) ;;;
         set_own {| m_active := m_active m; m_previous := m_previous m; m_packsDir := m_packsDir m;
                    m_backupFile := m_backupFile m; m_backupContent := m_backupContent m; m_addedFile := "" |}
       else ret ()) ;;;
      m <- own ;;
      (match m_backupContent m with
       | Some c =>
           if m_backupFile m <>s "" then
             write_at (pack_path (m_backupFile m)) c ;;;
             set_own {| m_active := m_active m; m_previous := m_previous m; m_packsDir := m_packsDir m;
                        m_backupFile := ""; m_backupContent := None; m_addedFile := m_addedFile m |}
           else ret ()
       | None => ret ()
       end) ;;;
      m <- own ;;
      set_own {| m_active := m_previous m; m_previous := None; m_packsDir := m_packsDir m;
                 m_backupFile := m_backupFile m; m_backupContent := m_backupContent m;
                 m_addedFile := m_addedFile m |}
  end.

Definition rollback_record (override : option rollbackRecord) : P rollbackRecord :=
  match override with
  | Some r => ret r
  | None =>
      r <- try (ReadFile rollbackPath) ;;
      match r with
      | Ok data => mcall (of_option (errors_New "invalid pack rollback record") (Unmarshal_rollback data))
      | Err _ => ret no_record
      | Panic p => mcall (Panic p)
      end
  end.

Definition rollbackWithRecord (override : option rollbackRecord) : P unit :=
  dir <- packs_dir ;;
  if dir =s "" then rollback_memory
  else
    RecoverTransactions ;;;
    record <- rollback_record override ;;
    if rr_Filename record <>s "" then rollback_files record else rollback_memory.

Definition Rollback : P unit := rollbackWithRecord None.

(** The last revision of a pack and the manifest without it. *)
Definition pop_revision (name : string) (m : PackManifest) : option (PackRevision * PackManifest) :=
  match History m !! name with
  | None | Some [] => None
  | Some (r :: l) =>
      let rev := List.last (r :: l) r in
      let popped := {| pm_Version := pm_Version m; Entries := Entries m;
                       History := <[name := removelast (r :: l)]> (History m) |} in
      Some (rev, match pr_Previous rev with
                 | Some prev => with_entries (<[name := prev]> (Entries m)) popped
                 | None => with_entries (delete name (Entries m)) popped
                 end)
  end.

Definition RollbackPack (name : string) : P unit :=
  manifest <- ReadManifest ;;
  match pop_revision name manifest with
  | None => fail (Errorf "no previous state for pack %q" [AStr name])
  | Some (revision, manifest') =>
      if pr_Filename revision =s "" then fail (errors_New "invalid pack history filename")
      else
        next <- mcall (encodeManifest manifest') ;;
        rollbackWithRecord (Some {| rr_Filename := pr_Filename revision; rr_Existed := pr_Existed revision;
                                    rr_Content := pr_Content revision; rr_Name := name; rr_Manifest := next |})
  end.
End packstore.
