(* ===== verification/PackJournal.v ===== *)
(** * The journal of the pack store: what an interrupted transaction leaves, and its recovery

    A transaction takes the disk from [d0] to [d1].  At any point in between, the disk is
    in one of the states of [journal]; [RecoverTransactions] takes each of them to [d0]
    or to [d1], and, when it is itself interrupted, to another of them. *)

From S2P Require Import Prelude GoStrings GoNum GoIO GoTime Model Decoder Pack Snapshot.
From S2P Require Export Monad Disk DiskSpec PackStore.

#[local] Open Scope monad_scope.

(** ** What is at a path, and disks that agree except at some paths *)

Definition set_path (p : path) (o : option entry) (d : Disk) : Disk :=
  match o with Some e => put p e d | None => del p d end.

Definition file_of (data : string) : option entry := if data =s "" then None else Some (EFile data).
Definition file_if (existed : bool) (content : string) : option entry :=
  if existed then Some (EFile content) else None.

Lemma at_set p o d : at_path p (set_path p o d) = o.
Proof. destruct o; simpl; [apply at_put|apply at_del]. Qed.
Lemma at_set_ne p q o d : p ≠ q → at_path p (set_path q o d) = at_path p d.
Proof. destruct o; simpl; [apply at_put_ne|apply at_del_ne]. Qed.
Lemma no_links_set p o d : no_links d → no_links (set_path p o d).
Proof. destruct o; simpl; [apply no_links_put|apply no_links_del]. Qed.
#[export] Instance set_path_proper p o : Proper ((≡) ==> (≡)) (set_path p o).
Proof. destruct o; simpl; apply _. Qed.

Record agree (l : list path) (d d' : Disk) : Prop := {
  ag_root : d_root_link d = d_root_link d';
  ag_meta : d_meta_link d = d_meta_link d';
  ag_files p : is_temp p.2 = false → p ∉ l → at_path p d = at_path p d';
}.

Lemma agree_nil d d' : agree [] d d' ↔ d ≡ d'.
Proof.
  split; intros [Hr Hm Hf].
  - apply disk_ext; [done..|]. intros p Hp. apply Hf; [done|]. apply not_elem_of_nil.
  - split; [done..|]. intros p Hp _. by apply Hf.
Qed.

Lemma agree_equiv l d1 d2 d : d1 ≡ d2 → agree l d2 d → agree l d1 d.
Proof.
  intros [Hr Hm Hf] [Hr' Hm' Hf']. split; [congruence..|]. intros p Hp Hl. rewrite <- Hf' by done. by apply Hf.
Qed.

Lemma agree_symm l d d' : agree l d d' → agree l d' d.
Proof. intros [Hr Hm Hf]. split; [done..|]. intros p Hp Hn. by rewrite Hf. Qed.

Lemma agree_weaken l l' d d' : l ⊆ l' → agree l d d' → agree l' d d'.
Proof. intros Hl [Hr Hm Hf]. split; [done..|]. intros p Hp Hn. apply Hf; [done|]. intros Hin. by apply Hn, Hl. Qed.

(** Writing at a path leaves the agreement elsewhere; writing what the other disk holds extends it. *)
Lemma agree_touch l p o d d' : p ∈ l → agree l d d' → agree l (set_path p o d) d'.
Proof.
  intros Hp [Hr Hm Hf]. split.
  - rewrite <- Hr. destruct o; simpl; [apply links_put|apply links_del].
  - rewrite <- Hm. destruct o; simpl; [apply links_put|apply links_del].
  - intros q Hq Hn. rewrite at_set_ne; [by apply Hf|]. intros ->. done.
Qed.

Lemma agree_set l p o d d' : o = at_path p d' → agree (p :: l) d d' → agree l (set_path p o d) d'.
Proof.
  intros -> Ha. apply (agree_touch _ p (at_path p d')) in Ha as [Hr Hm Hf]; [|by left].
  split; [done..|]. intros q Hq Hn. destruct (decide (q = p)) as [->|Hne]; [by rewrite at_set|].
  apply Hf; [done|]. intros [->|?]%elem_of_cons; done.
Qed.

(** The same write on both sides. *)
Lemma agree_both l p o d d' : agree l d d' → agree l (set_path p o d) (set_path p o d').
Proof.
  intros Ha. apply agree_set; [by rewrite at_set|]. apply agree_symm.
  apply agree_touch; [by left|]. apply agree_symm. eapply agree_weaken; [|done]. set_solver.
Qed.

Definition plain_entry (o : option entry) : Prop := match o with None | Some (EFile _) => True | _ => False end.
Lemma plain_set p q o d : plain_entry o → plain q d → plain q (set_path p o d).
Proof.
  unfold plain. intros Ho Hq. destruct (decide (q = p)) as [->|Hne]; [by rewrite at_set|by rewrite at_set_ne].
Qed.
Lemma plain_file_of s : plain_entry (file_of s).
Proof. unfold file_of. by destruct (s =s ""). Qed.
Lemma plain_file_if b s : plain_entry (file_if b s).
Proof. by destruct b. Qed.

(** ** The laws of the encodings *)

Definition utf8_record (r : rollbackRecord) : bool := utf8_Valid (rr_Filename r) && utf8_Valid (rr_Name r).

(** [encoding/json] reads back what it wrote when the strings are valid UTF-8 (bytes are
    written in base 64), and never writes nothing; YAML strings are valid UTF-8. *)
Class CodecLaws `{PackCodec} := {
  rollback_written r : utf8_record r = true →
    ∃ s, Marshal_rollback r = Ok s ∧ s ≠ "" ∧ Unmarshal_rollback s = Some r;
  transaction_written r : utf8_record (tr_Before r) = true → utf8_record (tr_Undo r) = true →
    ∃ s, Marshal_transaction r = Ok s ∧ s ≠ "" ∧ Unmarshal_transaction s = Some r;
  manifest_written m s : MarshalIndent_manifest m = Ok s → s ≠ "";
  yaml_names content pack : yaml_Decode content = Ok pack → utf8_Valid (mName (Metadata pack)) = true;
}.

(** A temporary file is no pack file. *)
Lemma temp_not_yaml name : is_temp name = true → is_yaml name = false.
Proof.
  unfold is_temp. rewrite andb_true_iff. intros [[t ->]%HasPrefix_spec Ht]. rewrite TrimPrefix_app in Ht.
  assert (∀ s cur, all_bytes is_digit s = true → ext_from s cur = cur) as Hext.
  { clear. induction s as [|c s IH]; intros cur; [done|]. simpl. intros [Hc Hs]%andb_prop.
    destruct (Ascii.eqb_spec c ".") as [->|_]; [done|]. destruct (Ascii.eqb_spec c "/") as [->|_]; [done|]. by apply IH. }
  unfold is_yaml, filepath_Ext. simpl. rewrite Hext by done.
  unfold ToLower. rewrite !runes_ascii by done. rewrite !fmap_cons, !concat_cons_str. done.
Qed.

(** ** The writes of a transaction, each all or nothing *)

Section writes.
Context `{FsEnv} `{PackCodec} `{!CodecLaws}.
Abbreviation Hst := (Host Manager).
Implicit Types (h : Hst) (d : Disk).

Lemma aon_proper {A} (d0 d1 d1' : Disk) h (r : res A) h' :
  d1 ≡ d1' → all_or_nothing d0 d1 h r h' → all_or_nothing d0 d1' h r h'.
Proof. intros Hd (Ha & Hc & Hr). split; [done|]. split; [done|]. destruct r; by rewrite <- Hd. Qed.

Lemma wp_remove_if_exists p h :
  plain p (h_disk h) →
  wp (remove_if_exists p) (all_or_nothing (h_disk h) (del p (h_disk h)) h) h.
Proof.
  intros Hp. unfold remove_if_exists. apply wp_bind, wp_try, wp_os_Remove; [done|]. intros r h1 Ha Hr.
  destruct r as [[]|e|q]; [done| |done].
  destruct Hr as [(He & _ & Hd)|(He & Hc & Hd)]; rewrite He; done.
Qed.

Lemma wp_restore_bytes p s h :
  is_temp p.2 = false → no_links (h_disk h) → plain p (h_disk h) →
  wp (restore_bytes p s) (all_or_nothing (h_disk h) (set_path p (file_of s) (h_disk h)) h) h.
Proof.
  intros Ht Hl Hp. unfold restore_bytes, file_of. destruct (s =s "").
  - by apply wp_remove_if_exists.
  - by apply wp_atomicWrite.
Qed.

Lemma wp_RejectSymlinks p Q h :
  no_links (h_disk h) → plain p (h_disk h) →
  (∀ r h', advance h h' → crashed_by r h' → h_disk h' = h_disk h → Q r h') → wp (RejectSymlinks p) Q h.
Proof.
  intros [Hl1 Hl2] Hp HQ. unfold RejectSymlinks. apply (wp_keeps advance); [eauto with worm|].
  apply wp_fs_call; cbn [fst snd].
  - assert (reject_links (root_is_link p.1 (h_disk h)) (is_link (at_path p (h_disk h))) = Ok ()) as ->.
    { unfold plain in Hp. destruct p as [[] n]; simpl; rewrite ?Hl1, ?Hl2;
        destruct (at_path _ (h_disk h)) as [[]|]; done. }
    intros Ha. by apply HQ.
  - intros d Hd Hc Ha. apply HQ; [done..|]. by destruct Hd as [-> | ->].
Qed.

Lemma wp_RejectSymlinks_meta Q h :
  no_links (h_disk h) →
  (∀ r h', advance h h' → crashed_by r h' → h_disk h' = h_disk h → Q r h') → wp RejectSymlinks_meta Q h.
Proof.
  intros [Hl1 Hl2] HQ. unfold RejectSymlinks_meta. apply (wp_keeps advance); [eauto with worm|].
  apply wp_fs_call; cbn [fst snd].
  - unfold reject_links. rewrite Hl1, Hl2. intros Ha. by apply HQ.
  - intros d Hd Hc Ha. apply HQ; [done..|]. by destruct Hd as [-> | ->].
Qed.

Lemma validateRecord_yaml r : validateRecord r = Ok () → is_yaml (rr_Filename r) = true.
Proof. unfold validateRecord. case_match; [done|]. destruct (is_yaml _); done. Qed.

Lemma yaml_not_temp f : is_yaml f = true → is_temp f = false.
Proof. intros Hf. destruct (is_temp f) eqn:E; [|done]. by rewrite temp_not_yaml in Hf. Qed.

Lemma wp_restoreRecord f r h :
  rr_Filename r = f → validateRecord r = Ok () → no_links (h_disk h) → plain (pack_path f) (h_disk h) →
  wp (restoreRecord r)
    (all_or_nothing (h_disk h) (set_path (pack_path f) (file_if (rr_Existed r) (rr_Content r)) (h_disk h)) h) h.
Proof.
  intros <- Hv Hl Hp. unfold restoreRecord. apply wp_bind, wp_mcall. rewrite Hv.
  apply wp_bind, wp_RejectSymlinks; [done..|]. intros rr h1 Ha Hc Hd.
  destruct rr as [[]|e|q]; [|by apply all_or_nothing_refused; rewrite ?Hd..]. rewrite <- Hd in *.
  assert (∀ d1, wp (if rr_Existed r then atomicWrite (pack_path (rr_Filename r)) (rr_Content r)
                    else durableRemove (pack_path (rr_Filename r))) (all_or_nothing (h_disk h1) d1 h1) h1 →
    wp (if rr_Existed r then atomicWrite (pack_path (rr_Filename r)) (rr_Content r)
        else durableRemove (pack_path (rr_Filename r))) (all_or_nothing (h_disk h1) d1 h) h1) as Hgo.
  { intros d1 Hw. eapply wp_mono; [exact Hw|]. intros r2 h2 (Ha2 & Hc2 & Hd2). split; [by transitivity h1|done]. }
  apply Hgo. apply validateRecord_yaml, yaml_not_temp in Hv. destruct (rr_Existed r); simpl.
  - by apply wp_atomicWrite.
  - by apply wp_durableRemove.
Qed.

Lemma validateRecord_plain r :
  has_separator (rr_Filename r) = false → Contains (rr_Filename r) ".." = false → rr_Filename r ≠ "" →
  is_yaml (rr_Filename r) = true → validateRecord r = Ok ().
Proof.
  intros Hs Hd Hne Hy. unfold validateRecord. pose proof Hs as [Hs' _]%orb_false_iff.
  rewrite Hs, Hd, Hy, filepath_Base_plain by done.
  rewrite String.eqb_refl. by destruct (String.eqb_spec (rr_Filename r) "").
Qed.

(** A missing file reads as nothing. *)
Lemma wp_read_or_empty p h :
  plain p (h_disk h) →
  wp (read_or_empty p) (λ x h', advance h h' ∧ h_disk h' = h_disk h
      ∧ match x with
        | Ok s => at_path p (h_disk h) ≠ Some (EFile "") → at_path p (h_disk h) = file_of s
        | Err _ => crashed_by x h'
        | Panic _ => False
        end) h.
Proof.
  intros Hp. unfold read_or_empty. apply wp_bind, wp_try, wp_ReadFile; [done|]. intros x h1 Ha Hd Hx.
  destruct x as [c|e|q]; [| |done].
  - apply wp_mcall. split; [done|]. split; [done|]. rewrite Hx. intros Hne. unfold file_of.
    destruct (String.eqb_spec c "") as [->|]; [done|]. done.
  - destruct Hx as [[He Hn]|[He Hc]]; rewrite He; [|by apply wp_fail].
    apply wp_ret. split; [done|]. split; [done|]. by rewrite Hn.
Qed.

(** Without a journal, recovery only looks. *)
Lemma wp_Recover_none h :
  no_links (h_disk h) → at_path transactionPath (h_disk h) = None →
  wp RecoverTransactions (λ x h', advance h h' ∧ crashed_by x h' ∧ h_disk h' = h_disk h) h.
Proof.
  intros Hl Hn. unfold RecoverTransactions. apply wp_bind, wp_RejectSymlinks_meta; [done|].
  intros x h1 Ha1 Hc1 Hd1. destruct x as [[]|e|q]; [|done..]. rewrite <- Hd1 in *.
  apply wp_bind, wp_try, wp_ReadFile; [unfold plain; by rewrite Hn|]. intros x h2 Ha2 Hd2 Hx.
  assert (advance h h2) by by transitivity h1.
  destruct x as [c|e|q]; [congruence| |done].
  destruct Hx as [[He _]|[He Hc]]; rewrite He; [by apply wp_ret|]. by apply wp_fail.
Qed.

Lemma wp_writeTransactionRecord r s h :
  Marshal_transaction r = Ok s → no_links (h_disk h) → plain transactionPath (h_disk h) →
  wp (writeTransactionRecord r)
    (all_or_nothing (h_disk h) (set_path transactionPath (Some (EFile s)) (h_disk h)) h) h.
Proof.
  intros Hm Hl Hp. unfold writeTransactionRecord. apply wp_bind, wp_mcall. rewrite Hm. by apply wp_atomicWrite.
Qed.

Lemma wp_writeRollback r s h :
  Marshal_rollback r = Ok s → no_links (h_disk h) → plain rollbackPath (h_disk h) →
  wp (writeRollback r)
    (all_or_nothing (h_disk h) (set_path rollbackPath (Some (EFile s)) (h_disk h)) h) h.
Proof.
  intros Hm Hl Hp. unfold writeRollback, writeRecord. apply wp_bind, wp_mcall. rewrite Hm.
  apply wp_bind, wp_nop. intros r1 h1 Hc Hd Ha.
  destruct r1 as [[]|e|q]; [|by apply all_or_nothing_refused; rewrite ?Hd..]. rewrite <- Hd in *.
  eapply wp_mono; [by apply wp_atomicWrite|]. intros r2 h2 (Ha2 & Hc2 & Hd2). split; [by transitivity h1|done].
Qed.
End writes.

(** ** The states of a transaction on the file [f], from [d0] to [d1] *)

Section journal.
Context `{FsEnv} `{PackCodec} `{!CodecLaws} (f : string) (d0 d1 : Disk).
Abbreviation Hst := (Host Manager).
Implicit Types (h : Hst) (d : Disk) (r : transactionRecord).

Definition tidy d : Prop :=
  no_links d ∧ plain (pack_path f) d ∧ plain rollbackPath d ∧ plain manifestPath d ∧ plain transactionPath d.

Definition txn_at d r : Prop :=
  ∃ s, at_path transactionPath d = Some (EFile s) ∧ Unmarshal_transaction s = Some r.

(** The journal holds [r], and the disk differs from [dt] at most at the paths [l] and the journal. *)
Record stage (dt : Disk) r (l : list path) d : Prop := {
  st_tidy : tidy d; st_txn : txn_at d r; st_agree : agree (l ++ [transactionPath]) d dt }.

Definition touched : list path := [pack_path f; rollbackPath; manifestPath].
Definition unfinished r : list path := rollbackPath :: if tr_NextManifest r =s "" then [] else [manifestPath].

(** [r] says how to go back to [d0]; how to finish and reach [d1]. *)
Record undoes r : Prop := {
  un_committed : tr_Committed r = false;
  un_valid : validateRecord (tr_Before r) = Ok ();
  un_file : rr_Filename (tr_Before r) = f;
  un_content : at_path (pack_path f) d0 = file_if (rr_Existed (tr_Before r)) (rr_Content (tr_Before r));
  un_undo : at_path rollbackPath d0 = file_of (tr_PriorUndo r);
  un_manifest : at_path manifestPath d0 = file_of (tr_PriorManifest r);
}.
Record finishes r : Prop := {
  fi_committed : tr_Committed r = true;
  fi_valid : validateRecord (tr_Before r) = Ok ();
  fi_undo : ∃ s, Marshal_rollback (tr_Undo r) = Ok s ∧ at_path rollbackPath d1 = Some (EFile s);
  fi_manifest : tr_NextManifest r ≠ "" → at_path manifestPath d1 = file_of (tr_NextManifest r);
}.

Inductive journal d : Prop :=
| j_before : tidy d → d ≡ d0 → journal d
| j_undo r : undoes r → stage d0 r touched d → journal d
| j_redo r : finishes r → stage d1 r (unfinished r) d → journal d
| j_after : tidy d → d ≡ d1 → journal d.

Context (Hf : is_yaml f = true).

Lemma f_not_temp : is_temp f = false.
Proof. by apply yaml_not_temp. Qed.

Lemma tidy_equiv d d' : d ≡ d' → tidy d → tidy d'.
Proof.
  pose proof f_not_temp as Ht. intros Hd (Hl & H1' & H2' & H3' & H4').
  split; [by apply (no_links_equiv d)|]. split_and!; by apply (plain_equiv _ d).
Qed.
Lemma tidy_set p o d : plain_entry o → tidy d → tidy (set_path p o d).
Proof.
  intros Ho (Hl & H1' & H2' & H3' & H4'). split; [by apply no_links_set|]. split_and!; by apply plain_set.
Qed.

Lemma txn_equiv d d' r : d ≡ d' → txn_at d r → txn_at d' r.
Proof. intros Hd (s & Hs & Hu). exists s. split; [|done]. by rewrite <- (at_equiv _ _ _ Hd). Qed.

Lemma stage_equiv dt r l d d' : d ≡ d' → stage dt r l d → stage dt r l d'.
Proof.
  intros Hd [Ht Hx Ha]. split; [by apply (tidy_equiv d)|by apply (txn_equiv d)|by apply (agree_equiv _ d' d)].
Qed.
Lemma stage_weaken dt r l l' d : l ⊆ l' → stage dt r l d → stage dt r l' d.
Proof.
  intros Hl [Ht Hx Ha]. split; [done..|]. eapply agree_weaken; [|done].
  intros p. rewrite !elem_of_app. naive_solver.
Qed.

(** Writing at a path of the list what the target holds there. *)
Lemma stage_set dt r p l o d :
  p ≠ transactionPath → plain_entry o → o = at_path p dt → stage dt r (p :: l) d → stage dt r l (set_path p o d).
Proof.
  intros Hp Ho Heq [Ht (s & Hs & Hu) Ha]. split; [by apply tidy_set| |by apply agree_set].
  exists s. split; [|done]. by rewrite at_set_ne.
Qed.

Lemma stage_done dt r d :
  at_path transactionPath dt = None → stage dt r [] d → del transactionPath d ≡ dt.
Proof.
  intros Hn [_ _ Ha]. apply agree_nil. simpl in Ha. by apply (agree_set [] transactionPath None).
Qed.

(** A repair takes the list of paths that may differ from [l] to [l'], or, when it fails,
    leaves it within [l]. *)
Definition repair (dt : Disk) r (l l' : list path) h (x : res unit) h' : Prop :=
  advance h h' ∧ crashed_by x h'
  ∧ match x with Ok _ => stage dt r l' (h_disk h') | _ => stage dt r l (h_disk h') end.

Lemma wp_repair dt r p l o (m : Prog Hst unit) h :
  wp m (all_or_nothing (h_disk h) (set_path p o (h_disk h)) h) h →
  p ≠ transactionPath → plain_entry o → o = at_path p dt → stage dt r (p :: l) (h_disk h) →
  wp m (repair dt r (p :: l) l h) h.
Proof.
  intros Hm Hp Ho Heq Hst. eapply wp_mono; [exact Hm|]. intros x h' (Ha & Hc & Hd).
  pose proof (stage_set _ _ _ _ _ _ Hp Ho Heq Hst) as Hs.
  assert (stage dt r l (set_path p o (h_disk h)) → stage dt r (p :: l) (set_path p o (h_disk h))) as Hw
    by (apply stage_weaken; set_solver).
  split; [done|]. split; [done|].
  destruct x; [by eapply stage_equiv|..]; (destruct Hd as [Hd|Hd]; [by eapply stage_equiv|]);
    (eapply stage_equiv; [by symmetry|]; by apply Hw).
Qed.

Lemma wp_repair_bind dt r l l' l'' (m k : Prog Hst unit) h :
  l' ⊆ l → wp m (repair dt r l l' h) h →
  (∀ h', stage dt r l' (h_disk h') → wp k (repair dt r l' l'' h') h') →
  wp (m ;;; k) (repair dt r l l'' h) h.
Proof.
  intros Hl Hm Hk. apply wp_bind. eapply wp_mono; [exact Hm|]. intros x h1 (Ha & Hc & Hs).
  destruct x as [[]|e|q]; [|done..]. eapply wp_mono; [by apply Hk|]. intros y h2 (Ha2 & Hc2 & Hs2).
  split; [by transitivity h1|]. split; [done|]. destruct y; [done|..]; by eapply stage_weaken.
Qed.

Lemma wp_wrap_p {A} f' (m : Prog Hst A) (Q : res A → Hst → Prop) h :
  wp m (λ x h', match x with Err e => Q (Err (f' e)) h' | x => Q x h' end) h → wp (wrap_p f' m) Q h.
Proof. intros Hm. unfold wrap_p. apply wp_bind, wp_try. eapply wp_mono; [exact Hm|]. by intros [a|e|q] h'. Qed.

Lemma wp_roll_back r h :
  undoes r → stage d0 r touched (h_disk h) → wp (roll_back r) (repair d0 r touched [] h) h.
Proof.
  intros [_ Hv Hn Hc Hu Hm] Hs. unfold roll_back, touched in *.
  assert (∀ l d, stage d0 r l d → tidy d) as Htidy by by intros l d [].
  apply (wp_repair_bind _ _ _ [rollbackPath; manifestPath]); [set_solver| |].
  - destruct (Htidy _ _ Hs) as (Hl & Hp & _).
    apply wp_repair with (o := file_if (rr_Existed (tr_Before r)) (rr_Content (tr_Before r)));
      [by apply wp_restoreRecord|done|apply plain_file_if|done|done].
  - intros h1 Hs1. apply (wp_repair_bind _ _ _ [manifestPath]); [set_solver| |].
    + destruct (Htidy _ _ Hs1) as (Hl & _ & Hp & _).
      apply wp_repair with (o := file_of (tr_PriorUndo r));
        [by apply wp_restore_bytes|done|apply plain_file_of|done|done].
    + intros h2 Hs2. destruct (Htidy _ _ Hs2) as (Hl & _ & _ & Hp & _).
      apply wp_repair with (o := file_of (tr_PriorManifest r));
        [by apply wp_restore_bytes|done|apply plain_file_of|done|done].
Qed.

Lemma wp_roll_forward r h :
  finishes r → stage d1 r (unfinished r) (h_disk h) → wp (roll_forward r) (repair d1 r (unfinished r) [] h) h.
Proof.
  intros [_ _ (s & Hs & Hu) Hm] Hst. unfold roll_forward, unfinished in *.
  assert (∀ l d, stage d1 r l d → tidy d) as Htidy by by intros l d [].
  eapply wp_repair_bind with (l' := if tr_NextManifest r =s "" then [] else [manifestPath]); [set_solver| |].
  - destruct (Htidy _ _ Hst) as (Hl & _ & Hp & _).
    apply wp_repair with (o := Some (EFile s)); [by apply wp_writeRollback|done..].
  - intros h1 Hs1. destruct (String.eqb_spec (tr_NextManifest r) "") as [He|Hne]; simpl in *; [by apply wp_ret|].
    destruct (Htidy _ _ Hs1) as (Hl & _ & _ & Hp & _).
    apply wp_repair with (o := file_of (tr_NextManifest r));
      [by apply wp_restore_bytes|done|apply plain_file_of|by rewrite Hm|done].
Qed.

(** The journal is removed last. *)
Lemma wp_remove_journal dt r h :
  at_path transactionPath dt = None → stage dt r [] (h_disk h) →
  wp (os_Remove transactionPath)
    (λ x h', advance h h' ∧ crashed_by x h'
             ∧ match x with Ok _ => tidy (h_disk h') ∧ h_disk h' ≡ dt
                       | _ => stage dt r [] (h_disk h') ∨ (tidy (h_disk h') ∧ h_disk h' ≡ dt) end) h.
Proof.
  intros Hn Hs. pose proof (stage_done _ _ _ Hn Hs) as Hdel. pose proof Hs as [Ht (s & Hat & _) _].
  assert (∀ d, d ≡ del transactionPath (h_disk h) → tidy d ∧ d ≡ dt) as Hend.
  { intros d Hd. split; [|by rewrite Hd]. eapply tidy_equiv; [by symmetry|]. by apply (tidy_set _ None). }
  apply wp_os_Remove; [apply Ht|]. intros x h' Ha Hx. split; [done|].
  destruct x as [[]|e|q]; [by split; [|apply Hend]| |done].
  destruct Hx as [(_ & Hno & _)|(_ & Hc & Hd)]; [congruence|]. split; [done|].
  destruct Hd as [Hd|Hd]; [left; by eapply stage_equiv|right; by apply Hend].
Qed.

Hypothesis (Hd0 : at_path transactionPath d0 = None) (Hd1 : at_path transactionPath d1 = None).

(** Recovery ends at [d0] or [d1], and when it fails, it leaves a state to recover from. *)
Lemma wp_RecoverTransactions h :
  journal (h_disk h) →
  wp RecoverTransactions
    (λ x h', advance h h' ∧ crashed_by x h'
             ∧ match x with
               | Ok _ => tidy (h_disk h') ∧ (h_disk h' ≡ d0 ∨ h_disk h' ≡ d1)
               | _ => journal (h_disk h')
               end) h.
Proof.
  intros Hj. assert (tidy (h_disk h)) as Htidy by (destruct Hj as [|r ? []|r ? []|]; done).
  unfold RecoverTransactions. apply wp_bind, wp_RejectSymlinks_meta; [apply Htidy|].
  intros x h1 Ha1 Hc1 Hd. destruct x as [[]|e|q]; [|by rewrite Hd|done]. rewrite <- Hd in *.
  apply wp_bind, wp_try, wp_ReadFile; [apply Htidy|]. intros x h2 Ha2 Hd2 Hx. rewrite <- Hd2 in *.
  assert (advance h h2) as Ha by by transitivity h1.
  destruct x as [data|e|q]; [| |done].
  2: { destruct Hx as [[He Hn]|[He Hc]]; rewrite He; [|by apply wp_fail].
       apply wp_ret. split; [done|]. split; [done|]. split; [done|].
       destruct Hj as [|r ? [_ (s & Hs & _) _]|r ? [_ (s & Hs & _) _]|]; [by left|congruence..|by right]. }
  assert (∀ dt, dt = d0 ∨ dt = d1 → h_disk h2 ≡ dt → at_path transactionPath (h_disk h2) = None) as Hcl.
  { intros dt Hdt He. rewrite (at_equiv _ _ _ He) by done. by destruct Hdt as [-> | ->]. }
  destruct Hj as [Hj1 Hj2|r Hu Hs|r Hu Hs|Hj1 Hj2];
    [rewrite (Hcl d0) in Hx; naive_solver| | |rewrite (Hcl d1) in Hx; naive_solver].
  all: pose proof Hs as [_ (s & Hat & Hdec) _]; assert (s = data) as -> by congruence; rewrite Hdec.
  1: pose proof Hu as [Hcm Hv _ _ _ _].
  2: pose proof Hu as [Hcm Hv _ _].
  all: apply wp_bind, wp_mcall; rewrite Hv, Hcm; apply wp_bind, wp_wrap_p.
  - eapply wp_mono; [by apply wp_roll_back|]. intros x h3 (Ha3 & Hc3 & Hs3).
    assert (advance h h3) as Ha' by by transitivity h2.
    destruct x as [[]|e|q]; [|split; [done|]; split; [done|]; by eapply j_undo|done].
    eapply wp_mono; [by apply (wp_remove_journal d0)|]. intros y h4 (Ha4 & Hc4 & Hs4).
    split; [by transitivity h3|]. split; [done|]. destruct y as [[]|e|q]; [destruct Hs4; auto| |done].
    destruct Hs4 as [Hs4|[? ?]]; [|by apply j_before]. apply (j_undo _ r); [done|].
    eapply stage_weaken; [|done]. apply list_subseteq_nil.
  - eapply wp_mono; [by apply wp_roll_forward|]. intros x h3 (Ha3 & Hc3 & Hs3).
    assert (advance h h3) as Ha' by by transitivity h2.
    destruct x as [[]|e|q]; [|split; [done|]; split; [done|]; by eapply j_redo|done].
    eapply wp_mono; [by apply (wp_remove_journal d1)|]. intros y h4 (Ha4 & Hc4 & Hs4).
    split; [by transitivity h3|]. split; [done|]. destruct y as [[]|e|q]; [destruct Hs4; auto| |done].
    destruct Hs4 as [Hs4|[? ?]]; [|by apply j_after]. apply (j_redo _ r); [done|].
    eapply stage_weaken; [|done]. apply list_subseteq_nil.
Qed.
End journal.
