(* ===== verification/PackCrash.v ===== *)
(** * Crash safety of the pack store

    Installing, removing and rolling back a pack each take the directory from its state
    [d0] to a new one.  If the process stops at any point, what it leaves is recovered
    to one of the two, however often the recovery is itself interrupted; if the
    operation fails without a crash, the directory is as before. *)

From S2P Require Import Prelude GoStrings GoNum GoIO GoTime Model Decoder Pack Snapshot.
From S2P Require Export Monad Disk DiskSpec PackStore PackJournal.

#[local] Open Scope monad_scope.

(** ** Programs that only read *)

Section reads.
Context `{FsEnv} `{PackCodec}.
Abbreviation Hst := (Host Manager).

Definition reads (h h' : Hst) : Prop := advance h h' ∧ h_disk h' = h_disk h.
#[export] Instance reads_preorder : PreOrder reads.
Proof. split; [by split|]. intros x y z [? ?] [? ?]. split; [by transitivity y|congruence]. Qed.

Lemma reads_call {A} (f : Disk → res A) : keeps reads (fs_call (λ d, (f d, d))).
Proof.
  intros h. split; [apply advance_call|]. unfold fs_call. by destruct (fs_fault (h_calls h)).
Qed.
Lemma reads_Now : keeps reads fs_Now.
Proof. intros h. split; [|done]. split; [done|]. intros Hd. by split. Qed.
#[local] Hint Resolve reads_call reads_Now : worm.

Lemma reads_load_packs files : keeps reads (load_packs files).
Proof. induction files as [|f l IH]; unfold load_packs, wrap_p, ReadFile in *; keeps_tac. Qed.
#[local] Hint Resolve reads_load_packs : worm.
Lemma reads_LoadDir : keeps reads LoadDir.
Proof. unfold LoadDir, wrap_p, ReadDir. keeps_tac. Qed.
Lemma reads_read_or_empty p : keeps reads (read_or_empty p).
Proof. unfold read_or_empty, ReadFile. keeps_tac. Qed.

Lemma advance_remove_if_exists p : keeps advance (remove_if_exists p).
Proof. unfold remove_if_exists, os_Remove. keeps_tac. Qed.
#[local] Hint Resolve advance_remove_if_exists : worm.
Lemma advance_restore_bytes p s : keeps advance (restore_bytes p s).
Proof. unfold restore_bytes. keeps_tac. Qed.
Lemma advance_restoreRecord r : keeps advance (restoreRecord r).
Proof. unfold restoreRecord, RejectSymlinks. keeps_tac. Qed.
#[local] Hint Resolve advance_restore_bytes advance_restoreRecord : worm.
Lemma advance_abort {A} r e : keeps advance (abortTransaction (A := A) r e).
Proof. unfold abortTransaction, restoreUndo, restoreManifest. keeps_tac. Qed.
Lemma advance_or_abort {A} r w (m : Prog Hst A) : keeps advance m → keeps advance (or_abort r w m).
Proof. intros Hm. unfold or_abort. pose proof (@advance_abort A). keeps_tac. Qed.
End reads.
#[export] Hint Resolve reads_call reads_Now reads_LoadDir reads_read_or_empty advance_abort advance_or_abort : worm.

(** ** Safe disks, and operations that either succeed or go back *)

Section safe.
Context `{FsEnv} `{PackCodec} `{!CodecLaws}.
Context (f : string) (d0 : Disk) (New : Disk → Prop).
Context (Hf : is_yaml f = true) (Hd0 : at_path transactionPath d0 = None).
Context (Hfs : fail_stop).
Abbreviation Hst := (Host Manager).
Implicit Types (h : Hst).

(** A disk that is recovered to [d0] or to a disk of [New]. *)
Definition safe (d : Disk) : Prop :=
  ∃ d1, (d1 = d0 ∨ New d1) ∧ at_path transactionPath d1 = None ∧ journal f d0 d1 d.

(** The end of an operation that did not succeed: the process stopped on the way, or the
    directory is as before. *)
Definition gave_up {A} (h : Hst) (x : res A) h' : Prop :=
  advance h h' ∧ safe (h_disk h')
  ∧ match x with Err _ => dead h' ∨ h_disk h' ≡ d0 | _ => True end.

(** [m] reaches [Q], or gives up. *)
Definition tries {A} (m : Prog Hst A) (Q : A → Hst → Prop) h : Prop :=
  wp m (λ x h', match x with Ok a => advance h h' ∧ Q a h' | _ => gave_up h x h' end) h.

Lemma gave_up_trans {A B} h h1 h' (x : res A) (y : res B) :
  advance h h1 → gave_up h1 x h' →
  match x, y with Ok _, _ | _, Ok _ => False | Panic _, Err _ => False | _, _ => True end → gave_up h y h'.
Proof.
  intros Ha (Ha' & Hs & Hx) Hxy. split; [by transitivity h1|]. split; [done|]. by destruct x, y.
Qed.

Lemma tries_bind {A B} (m : Prog Hst A) (k : A → Prog Hst B) Q h :
  tries m (λ a h1, tries (k a) Q h1) h → tries (bind m k) Q h.
Proof.
  intros Hm. apply wp_bind. eapply wp_mono; [exact Hm|]. intros [a|e|q] h1 Hx; [|done..].
  destruct Hx as [Ha Hk]. eapply wp_mono; [exact Hk|]. intros [b|e|q] h2 Hy.
  - destruct Hy. split; [by transitivity h1|done].
  - by eapply gave_up_trans.
  - by eapply gave_up_trans.
Qed.

(** [m] ends as [Q] says, or gives up; unlike [tries], it may change the manager at the end. *)
Definition attempts {A} (m : Prog Hst A) (Q : A → Hst → Prop) h : Prop :=
  wp m (λ x h', match x with Ok a => Q a h' | _ => gave_up h x h' end) h.

Lemma attempts_bind {A B} (m : Prog Hst A) (k : A → Prog Hst B) Q h :
  tries m (λ a h1, attempts (k a) Q h1) h → attempts (bind m k) Q h.
Proof.
  intros Hm. apply wp_bind. eapply wp_mono; [exact Hm|]. intros [a|e|q] h1 Hx; [|done..].
  destruct Hx as [Ha Hk]. eapply wp_mono; [exact Hk|]. intros [b|e|q] h2 Hy; [done|..]; by eapply gave_up_trans.
Qed.

Lemma tries_mono {A} (m : Prog Hst A) (Q Q' : A → Hst → Prop) h :
  tries m Q h → (∀ a h', advance h h' → Q a h' → Q' a h') → tries m Q' h.
Proof. intros Hm Hq. eapply wp_mono; [exact Hm|]. intros [a|e|q] h'; naive_solver. Qed.

Lemma tries_ret {A} (a : A) (Q : A → Hst → Prop) h : Q a h → tries (ret a) Q h.
Proof. by split. Qed.

(** A program that only reads, and cannot panic unless the disk may be left as it is. *)
Lemma tries_reads {A} (m : Prog Hst A) (Q : A → Hst → Prop) h :
  keeps reads m → safe (h_disk h) → h_disk h ≡ d0 → (∀ a h', reads h h' → Q a h') → tries m Q h.
Proof.
  intros Hr Hs Hd HQ. apply (wp_keeps reads); [done|]. unfold wp. destruct (m h) as [x h'].
  intros Hrd. pose proof Hrd as [Ha He]. destruct x as [a|e|q]; [by auto|..]; split_and!; rewrite ?He; auto.
Qed.

(** *** Aborting *)

Section abort.
Context (r : transactionRecord) (Hr : undoes f d0 r).

Lemma safe_undo d : stage f d0 r (touched f) d → safe d.
Proof. intros Hs. exists d0. split; [by left|]. split; [done|]. by apply (j_undo _ _ _ _ r). Qed.

Lemma gave_up_undo {A} h (e : error) h' :
  advance h h' → (fail_stop → dead h') → stage f d0 r (touched f) (h_disk h') → gave_up h (Err (A := A) e) h'.
Proof. intros Ha Hd Hs. split; [done|]. split; [by apply safe_undo|]. left. by apply Hd. Qed.

(** One step of [abortTransaction]. *)
Lemma wp_abort_step {A} fmt cause (m : Prog Hst unit) (k : Prog Hst A) l l' h :
  l ⊆ touched f → wp m (repair f d0 r l l' h) h →
  (∀ h1, advance h h1 → stage f d0 r l' (h_disk h1) → wp k (λ x h', is_ok x = false ∧ gave_up h1 x h') h1) →
  wp (x <- try m ;;
      match x with
      | Err err => fail (Errorf fmt [AVErr cause; AErr err])
      | Panic p => mcall (Panic p)
      | Ok _ => k
      end) (λ x h', is_ok x = false ∧ gave_up h x h') h.
Proof.
  intros Hl Hm Hk. apply wp_bind, wp_try. eapply wp_mono; [exact Hm|].
  intros [[]|e|q] h1 (Ha & Hc & Hs); [| |done].
  - eapply wp_mono; [by apply Hk|]. intros [a|e|q] h2 [Hx Hg]; [done|..]; (split; [done|]); by eapply gave_up_trans.
  - split; [done|]. apply gave_up_undo; [done|by destruct Hc|]. by eapply stage_weaken.
Qed.

Lemma wp_abortTransaction {A} cause h :
  stage f d0 r (touched f) (h_disk h) →
  wp (abortTransaction (A := A) r cause) (λ x h', is_ok x = false ∧ gave_up h x h') h.
Proof.
  intros Hst. pose proof Hr as [_ Hv Hn Hc Hu Hm]. unfold abortTransaction.
  assert (∀ l d, stage f d0 r l d → tidy f d) as Htidy by by intros l d [].
  apply (wp_abort_step _ _ _ _ (touched f) [rollbackPath; manifestPath]); [done| |].
  { destruct (Htidy _ _ Hst) as (Hl & Hp & _).
    apply wp_repair with (o := file_if (rr_Existed (tr_Before r)) (rr_Content (tr_Before r)));
      [done|by apply wp_restoreRecord|done|apply plain_file_if|done|done]. }
  intros h1 Ha1 Hs1. apply (wp_abort_step _ _ _ _ [rollbackPath; manifestPath] [manifestPath]); [set_solver| |].
  { destruct (Htidy _ _ Hs1) as (Hl & _ & Hp & _). apply wp_repair with (o := file_of (tr_PriorUndo r));
      [done|by apply wp_restore_bytes|done|apply plain_file_of|done|done]. }
  intros h2 Ha2 Hs2. apply (wp_abort_step _ _ _ _ [manifestPath] []); [set_solver| |].
  { destruct (Htidy _ _ Hs2) as (Hl & _ & _ & Hp & _). apply wp_repair with (o := file_of (tr_PriorManifest r));
      [done|by apply wp_restore_bytes|done|apply plain_file_of|done|done]. }
  intros h3 Ha3 Hs3. apply wp_bind, wp_try.
  eapply wp_mono; [apply wp_remove_if_exists; apply Hs3|]. intros x h4 (Ha4 & Hc4 & Hd4).
  assert (h_disk h4 ≡ del transactionPath (h_disk h3) → tidy f (h_disk h4) ∧ h_disk h4 ≡ d0) as Hend.
  { intros Hd. split; [|by rewrite Hd; apply (stage_done f d0 r)].
    eapply tidy_equiv; [done|by symmetry|]. by apply (tidy_set _ _ None), Hs3. }
  assert (∀ d, tidy f d → d ≡ d0 → safe d) as Hsafe.
  { intros d Ht Hd. exists d0. split; [by left|]. split; [done|]. by apply j_before. }
  destruct x as [[]|e|q]; [| |done]; apply wp_fail; (split; [done|]).
  - destruct (Hend Hd4). split; [done|]. split; [by apply Hsafe|]. by right.
  - destruct Hd4 as [Hd4|Hd4].
    + apply gave_up_undo; [done|by destruct Hc4|]. eapply stage_equiv; [done|by symmetry|].
      eapply stage_weaken; [|done]. apply list_subseteq_nil.
    + destruct (Hend Hd4). split; [done|]. split; [by apply Hsafe|]. by right.
Qed.

Lemma abort_never_ok {A} r' cause h : is_ok (abortTransaction (A := A) r' cause h).1 = false.
Proof.
  assert (wp (abortTransaction (A := A) r' cause) (λ x _, is_ok x = false) h) as Hw;
    [|unfold wp in Hw; by destruct (abortTransaction r' cause h)].
  unfold abortTransaction. apply wp_bind, wp_try.
  assert (∀ {B} (m : Prog Hst B) (Q : res B → Hst → Prop) h', (∀ x h', Q x h') → wp m Q h') as Hany.
  { intros B m Q h' HQ. unfold wp. by destruct (m h'). }
  repeat (apply Hany; intros [[]|?|?] ?; [|done..]; apply wp_bind, wp_try).
  apply Hany. by intros [[]|?|?].
Qed.

(** An operation of the transaction that fails aborts it. *)
Lemma tries_or_abort {A} w (m : Prog Hst A) Q h :
  wp m (λ x h1, advance h h1 ∧
          match x with
          | Ok a => Q a h1
          | Err _ => stage f d0 r (touched f) (h_disk h1) ∨ (dead h1 ∧ safe (h_disk h1))
          | Panic _ => safe (h_disk h1)
          end) h →
  tries (or_abort r w m) Q h.
Proof.
  intros Hm. unfold or_abort. apply wp_bind, wp_try. eapply wp_mono; [exact Hm|].
  intros [a|e|q] h1 [Ha Hx]; [done| |done]. destruct Hx as [Hs|[Hd Hs]].
  - eapply wp_mono; [by apply wp_abortTransaction|]. intros x h2 [Hx Hg]. destruct x; [done|..]; by eapply gave_up_trans.
  - pose proof (abort_never_ok (A := A) r (w e) h1) as Hno. apply (wp_keeps advance); [eauto with worm|].
    unfold wp. destruct (abortTransaction r (w e) h1) as [x h2]. intros Ha2. simpl in Hno.
    destruct (ad_dead _ _ Ha2 Hd) as [Hd2 He2].
    destruct x; [done|..]; (split; [by transitivity h1|]); rewrite He2; auto.
Qed.

Lemma tries_or_abort_reads {A} w (m : Prog Hst A) Q h :
  keeps reads m → stage f d0 r (touched f) (h_disk h) → (∀ a h', m h = (Ok a, h') → reads h h' → Q a h') →
  tries (or_abort r w m) Q h.
Proof.
  intros Hr' Hs HQ. apply tries_or_abort. apply (wp_keeps reads); [done|]. unfold wp.
  destruct (m h) as [[a|e|q] h'] eqn:E; intros Hrd; pose proof Hrd as [Ha He]; (split; [done|]).
  - by apply HQ.
  - left. by rewrite He.
  - rewrite He. by apply safe_undo.
Qed.
End abort.

(** *** Before the journal is written, nothing has changed *)

Context (Hready : tidy f d0).

Lemma safe_d0 d : tidy f d → d ≡ d0 → safe d.
Proof. intros Ht Hd. exists d0. split; [by left|]. split; [done|]. by apply j_before. Qed.

Lemma tries_still {A} (m : Prog Hst A) Q h :
  h_disk h = d0 →
  wp m (λ x h', advance h h' ∧ h_disk h' = d0 ∧ match x with Ok a => Q a h' | _ => True end) h → tries m Q h.
Proof.
  intros Hh Hm. eapply wp_mono; [exact Hm|]. intros x h' (Ha & Hd & Hx).
  assert (∀ x : res A, gave_up h x h') as Hg.
  { intros y. split; [done|]. split; [apply safe_d0; by rewrite Hd|]. destruct y; [done| |done]. right. by rewrite Hd. }
  destruct x; [done|apply Hg..].
Qed.

Lemma attempts_fail {A} e Q h : h_disk h = d0 → attempts (@fail Hst A e) Q h.
Proof.
  intros Hh. split; [done|]. split; [apply safe_d0; by rewrite Hh|]. right. by rewrite Hh.
Qed.

Lemma tries_mcall {A} (x : res A) Q h : h_disk h = d0 → (∀ a, x = Ok a → Q a h) → tries (mcall x) Q h.
Proof.
  intros Hh HQ. apply tries_still; [done|]. apply wp_mcall. split; [done|]. split; [done|]. destruct x; auto.
Qed.

Lemma tries_fail {A} e Q h : h_disk h = d0 → tries (@fail Hst A e) Q h.
Proof. intros Hh. apply tries_still; [done|]. by apply wp_fail. Qed.

(** What [beginFileTransaction] saw describes the directory, so its record undoes the change. *)
Definition begun_ok (b : begun) : Prop :=
  b = observed f d0 ∧ undoes f d0 (started_record b).

Context (Hundo : at_path rollbackPath d0 ≠ Some (EFile "")) (Hman : at_path manifestPath d0 ≠ Some (EFile "")).

Lemma tries_begin_read expected ex c h :
  h_disk h = d0 → at_path (pack_path f) d0 = file_if ex c → (ex = false → c = "") →
  has_separator f = false → Contains f ".." = false → f ≠ "" →
  tries (begin_read f expected ex c) (λ b h', h_disk h' = d0 ∧ begun_ok b) h.
Proof.
  intros Hh Hc Hc' Hs Hd Hne. unfold begin_read. destruct (unexpected expected ex c); [by apply tries_fail|].
  destruct Hready as (Hl & Hp & Hpu & Hpm & Hpt).
  apply tries_bind, tries_still; [done|]. eapply wp_mono; [apply wp_read_or_empty; by rewrite Hh|].
  rewrite Hh. intros x h1 (Ha1 & Hd1 & Hx1). split; [done|]. split; [done|]. destruct x as [u|e|q]; [|done..].
  apply tries_bind, tries_still; [done|]. eapply wp_mono; [apply wp_read_or_empty; by rewrite Hd1|].
  rewrite Hd1. intros x h2 (Ha2 & Hd2 & Hx2). split; [done|]. split; [done|]. destruct x as [m|e|q]; [|done..].
  specialize (Hx1 Hundo). specialize (Hx2 Hman).
  apply tries_ret. split; [done|]. split; [|split; [done|by apply validateRecord_plain|done..]].
  unfold observed, bytes_at. rewrite Hc, Hx1, Hx2. unfold file_of.
  destruct (String.eqb_spec u "") as [->|], (String.eqb_spec m "") as [->|], ex; try done; by rewrite Hc'.
Qed.

Lemma tries_begin expected h :
  h_disk h = d0 → tries (beginFileTransaction f expected) (λ b h', h_disk h' = d0 ∧ begun_ok b) h.
Proof.
  intros Hh. apply tries_bind, tries_still; [done|]. apply wp_ret. split; [done|]. split; [done|].
  set (dir := m_packsDir (h_own h)). destruct (dir =s ""); [by apply tries_fail|].
  destruct (has_separator f) eqn:Es; [by apply tries_fail|].
  destruct (Contains f "..") eqn:Ed; [by apply tries_fail|].
  destruct (String.eqb_spec f "") as [|Hne]; [by apply tries_fail|]. rewrite Hf. simpl orb. simpl negb. cbv iota.
  pose proof Hready as (Hl & Hp & Hpu & Hpm & Hpt).
  apply tries_bind, tries_still; [done|]. eapply wp_mono; [apply wp_Recover_none; by rewrite Hh|].
  rewrite Hh. intros x h1 (Ha1 & _ & Hd1). split; [done|]. split; [done|]. destruct x as [[]|e|q]; [|done..].
  apply tries_bind, tries_still; [done|]. apply wp_RejectSymlinks; rewrite ?Hd1; [done..|].
  intros x h2 Ha2 _ Hd2. split; [done|]. split; [done|]. destruct x as [[]|e|q]; [|done..].
  apply tries_bind, tries_still; [done|]. apply wp_try, wp_ReadFile; rewrite ?Hd2; [done|].
  intros x h3 Ha3 Hd3 Hx. destruct x as [c|e|q]; [| |done]; (split; [done|]; split; [done|]).
  - by apply tries_begin_read.
  - destruct Hx as [[He Hn]|[He Hc]]; rewrite He; [|by apply tries_fail]. by apply tries_begin_read.
Qed.

(** *** From the journal to its commit *)

(** The pack file is changed as [dA] says; the journal still undoes it. *)
Definition midway (b : begun) (dA d : Disk) : Prop :=
  stage f d0 (started_record b) (touched f) d ∧ agree [transactionPath] d dA.

Lemma begun_written b :
  utf8_Valid f = true → begun_ok b →
  ∃ s, Marshal_transaction (started_record b) = Ok s ∧ s ≠ "" ∧ Unmarshal_transaction s = Some (started_record b).
Proof.
  intros Hu (-> & _). apply transaction_written; [|done]. unfold utf8_record. simpl. by rewrite Hu.
Qed.

Lemma tries_wrap_p {A} w (m : Prog Hst A) Q h : tries m Q h → tries (wrap_p w m) Q h.
Proof. intros Hm. apply wp_wrap_p. eapply wp_mono; [exact Hm|]. by intros [a|e|q] h1. Qed.

Lemma tries_write_journal b h :
  utf8_Valid f = true → begun_ok b → h_disk h = d0 →
  tries (writeTransactionRecord (started_record b)) (λ _ h', midway b d0 (h_disk h')) h.
Proof.
  intros Hu Hb Hh. destruct (begun_written b Hu Hb) as (s & Hs & _ & Hdec). destruct Hb as (_ & Hun).
  pose proof Hready as (Hl & _ & _ & _ & Hpt).
  assert (∀ d, d ≡ set_path transactionPath (Some (EFile s)) d0 → midway b d0 d) as Hmid.
  { intros d Hd. assert (agree [transactionPath] d d0) as Ha.
    { eapply agree_equiv; [done|]. apply agree_touch; [by left|]. apply (agree_weaken []); [apply list_subseteq_nil|by apply agree_nil]. }
    split; [|done]. split.
    - eapply tidy_equiv; [done|by symmetry|]. by apply tidy_set.
    - exists s. split; [|done]. by rewrite (at_equiv _ _ _ Hd), at_set.
    - eapply agree_weaken; [|done]. set_solver. }
  eapply wp_mono; [apply (wp_writeTransactionRecord _ s); by rewrite ?Hh|].
  rewrite Hh. intros [[]|e|q] h1 (Ha & Hc & Hd); [| |done].
  - split; [done|]. by apply Hmid.
  - destruct Hc as [Hc _]. assert (safe (h_disk h1)) as Hsf; [|split; [done|]; split; [done|]; left; by apply Hc].
    destruct Hd as [Hd|Hd].
    + apply safe_d0; [|done]. by eapply tidy_equiv.
    + apply (safe_undo _ Hun). by apply Hmid.
Qed.

(** One write of the file, before the commit. *)
Lemma tries_change b dA p o w (m : Prog Hst unit) h :
  begun_ok b → midway b dA (h_disk h) → p ∈ touched f → plain_entry o →
  wp m (all_or_nothing (h_disk h) (set_path p o (h_disk h)) h) h →
  tries (or_abort (started_record b) w m) (λ _ h', midway b (set_path p o dA) (h_disk h')) h.
Proof.
  intros (_ & Hun) [Hst Hag] Hp Ho Hm. apply tries_or_abort; [done|].
  assert (p ≠ transactionPath) as Hpt by (intros ->; unfold touched in Hp; set_solver).
  assert (∀ d, d ≡ set_path p o (h_disk h) → stage f d0 (started_record b) (touched f) d) as Hs.
  { intros d Hd. destruct Hst as [Ht (s & Hat & Hdec) Ha]. split.
    - eapply tidy_equiv; [done|by symmetry|]. by apply tidy_set.
    - exists s. split; [|done]. rewrite (at_equiv _ _ _ Hd) by done. by rewrite at_set_ne.
    - eapply agree_equiv; [done|]. apply agree_touch; [set_solver|done]. }
  eapply wp_mono; [exact Hm|]. intros [[]|e|q] h1 (Ha & Hc & Hd); [| |done]; (split; [done|]).
  - split; [by apply Hs|]. eapply agree_equiv; [done|]. by apply agree_both.
  - left. destruct Hd as [Hd|Hd]; [|by apply Hs]. eapply stage_equiv; [done|by symmetry|done].
Qed.

(** *** The commit of the journal, and after *)

Lemma agree_trans l l' a b c : agree l a b → agree l' b c → agree (l' ++ l) a c.
Proof.
  intros [Hr Hm Hfl] [Hr' Hm' Hfl']. split; [congruence..|]. intros p Hp Hn.
  rewrite elem_of_app in Hn. rewrite Hfl by naive_solver. apply Hfl'; naive_solver.
Qed.

Section commit.
Context (b : begun) (r : transactionRecord) (d1 : Disk).
Context (Hb : begun_ok b) (Hnew : New d1) (Hd1 : at_path transactionPath d1 = None) (Hr : finishes d1 r).

Lemma safe_redo l d : l ⊆ unfinished r → stage f d1 r l d → safe d.
Proof.
  intros Hl Hs. exists d1. split; [by right|]. split; [done|]. apply (j_redo _ _ _ _ r); [done|].
  by eapply stage_weaken.
Qed.

Lemma tries_commit_record dA l s w h :
  l ⊆ unfinished r → midway b dA (h_disk h) → agree l dA d1 →
  Marshal_transaction r = Ok s → Unmarshal_transaction s = Some r →
  tries (or_abort (started_record b) w (writeTransactionRecord r))
    (λ _ h', stage f d1 r l (h_disk h')) h.
Proof.
  intros Hsub [Hst Hag] Had Hs Hdec. destruct Hb as [_ Hun]. pose proof (st_tidy _ _ _ _ _ Hst) as Ht.
  assert (∀ d, d ≡ set_path transactionPath (Some (EFile s)) (h_disk h) → stage f d1 r l d) as Hnext.
  { intros d Hd. split.
    - eapply tidy_equiv; [done|by symmetry|]. by apply tidy_set.
    - exists s. split; [|done]. by rewrite (at_equiv _ _ _ Hd), at_set.
    - eapply agree_equiv; [done|]. apply agree_touch; [set_solver|]. by apply (agree_trans [transactionPath] l _ dA). }
  apply tries_or_abort; [done|]. destruct Ht as (Hl & _ & _ & _ & Hpt).
  eapply wp_mono; [by apply (wp_writeTransactionRecord r s)|].
  intros [[]|e|q] h1 (Ha & Hc & Hd); [| |done]; (split; [done|]).
  - by apply Hnext.
  - destruct Hd as [Hd|Hd].
    + left. eapply stage_equiv; [done|by symmetry|done].
    + right. split; [by apply Hc|]. eapply safe_redo; [exact Hsub|]. by apply Hnext.
Qed.

Lemma tries_redo l l' w (m : Prog Hst unit) h :
  l ⊆ unfinished r → wp m (repair f d1 r l l' h) h →
  tries (or_abort (started_record b) w m) (λ _ h', stage f d1 r l' (h_disk h')) h.
Proof.
  intros Hl Hm. destruct Hb as [_ Hun]. apply tries_or_abort; [done|]. eapply wp_mono; [exact Hm|].
  intros [[]|e|q] h1 (Ha & Hc & Hs); [done| |done]. split; [done|]. right.
  split; [by apply Hc|]. by eapply safe_redo.
Qed.

(** The new state is complete; the journal may still be there. *)
Definition complete (d : Disk) : Prop := stage f d1 r [] d ∨ (tidy f d ∧ d ≡ d1).

Lemma complete_safe d : complete d → safe d.
Proof.
  intros [Hs|[Ht Hd]]; [eapply safe_redo; [|done]; apply list_subseteq_nil|].
  exists d1. split; [by right|]. split; [done|]. by apply j_after.
Qed.

Lemma tries_remove_journal h :
  stage f d1 r [] (h_disk h) →
  tries (remove_if_exists transactionPath) (λ _ h', complete (h_disk h') ∧ (no_failure → h_disk h' ≡ d1)) h.
Proof.
  intros Hs. pose proof (stage_done f d1 r _ Hd1 Hs) as Hdel. pose proof (st_tidy _ _ _ _ _ Hs) as Ht.
  assert (∀ d, d ≡ del transactionPath (h_disk h) → complete d) as Hend.
  { intros d Hd. right. split; [|by rewrite Hd]. eapply tidy_equiv; [done|by symmetry|]. by apply (tidy_set _ _ None). }
  eapply wp_mono; [apply wp_remove_if_exists, Ht|]. intros [[]|e|q] h1 (Ha & Hc & Hd); [| |done].
  - split; [done|]. split; [by apply Hend|]. intros _. by rewrite Hd.
  - split; [done|]. split; [|left; by apply Hc]. apply complete_safe.
    destruct Hd as [Hd|Hd]; [left; eapply stage_equiv; [done|by symmetry|done]|by apply Hend].
Qed.

Lemma tries_cleanup h :
  stage f d1 r [] (h_disk h) →
  tries cleanup (λ _ h', complete (h_disk h') ∧ (no_failure → h_disk h' ≡ d1)) h.
Proof.
  intros Hs. unfold cleanup. apply wp_bind, wp_try.
  eapply wp_mono; [by apply (wp_remove_journal f Hf d1 r)|].
  intros x h1 (Ha & Hc & Hd). assert (complete (h_disk h1) ∧ (no_failure → h_disk h1 ≡ d1)) as Hcm.
  { destruct x as [[]|e|q]; [split; [by right|]; intros _; apply Hd| |done].
    split; [by destruct Hd; [left|right]|]. intros Hn. by destruct (proj2 Hc Hn). }
  destruct x; [by apply wp_ret|by apply wp_ret|done].
Qed.
End commit.

(** [commit_transaction]: from the changed file to the complete new state. *)
Lemma tries_commit_transaction wr b undo next s dA d1 h :
  utf8_Valid f = true → begun_ok b → midway b dA (h_disk h) → at_path transactionPath dA = None →
  utf8_record undo = true → Marshal_rollback undo = Ok s → next ≠ "" →
  d1 = set_path manifestPath (file_of next) (set_path rollbackPath (Some (EFile s)) dA) → New d1 →
  tries (commit_transaction wr b undo next)
    (λ _ h', complete (committed_record b undo next) d1 (h_disk h') ∧ (no_failure → h_disk h' ≡ d1)) h.
Proof.
  intros Hu Hb Hmid HdA Huu Hs Hne Hd1 Hnew. set (r := committed_record b undo next).
  assert (finishes d1 r) as Hfin.
  { destruct Hb as [_ [_ Hv _ _ _ _]]. split; [done|done| |].
    - exists s. split; [done|]. by rewrite Hd1, at_set_ne, at_set.
    - intros _. by rewrite Hd1, at_set. }
  assert (at_path transactionPath d1 = None) as Ht1 by by rewrite Hd1, !at_set_ne.
  assert (unfinished r = [rollbackPath; manifestPath]) as Hul.
  { unfold unfinished. simpl. by destruct (String.eqb_spec next ""). }
  destruct (transaction_written r) as (st & Hst & _ & Hdec); [|done|].
  { destruct Hb as [-> _]. unfold utf8_record. simpl. by rewrite Hu. }
  unfold commit_transaction. apply tries_bind.
  eapply tries_mono; [eapply (tries_commit_record b r d1 Hb Hnew Ht1 Hfin dA (unfinished r) st); [done|done| |done..]|].
  { rewrite Hul, Hd1. apply agree_symm. apply agree_touch; [set_solver|]. apply agree_touch; [set_solver|].
    apply (agree_weaken []); [apply list_subseteq_nil|by apply agree_nil]. }
  intros [] h1 _ Hs1. rewrite Hul in Hs1. apply tries_bind.
  eapply tries_mono; [apply (tries_redo b r d1 Hb Hnew Ht1 Hfin [rollbackPath; manifestPath] [manifestPath]);
    [by rewrite Hul|]|].
  { pose proof (st_tidy _ _ _ _ _ Hs1) as (Hl & _ & Hp & _). apply wp_repair with (o := Some (EFile s));
      [done|by apply wp_writeRollback|done|done|by rewrite Hd1, at_set_ne, at_set|done]. }
  intros [] h2 _ Hs2. apply tries_bind.
  eapply tries_mono; [apply (tries_redo b r d1 Hb Hnew Ht1 Hfin [manifestPath] []); [rewrite Hul; set_solver|]|].
  { pose proof (st_tidy _ _ _ _ _ Hs2) as (Hl & _ & _ & Hp & _). apply wp_repair with (o := file_of next);
      [done|by apply wp_restore_bytes|done|apply plain_file_of|by rewrite Hd1, at_set|done]. }
  intros [] h3 _ Hs3. by apply tries_cleanup.
Qed.
End safe.
