(* ===== verification/PackOps.v ===== *)
(** * The operations of the pack store: what they do to the directory, and their crash safety

    [installed], [removed] and [rolled_back] say, as functions of the disk alone, what an
    operation makes of it; the operations are shown to do that or nothing. *)

From stdpp Require Import sorting.
From S2P Require Import Prelude GoStrings GoNum GoIO GoTime Model Decoder Pack Snapshot.
From S2P Require Export Monad Disk DiskSpec PackStore PackJournal PackCrash.

#[local] Open Scope monad_scope.

Section spec.
Context `{PackCodec}.

(** The file becomes [o], the rollback record [undo], the manifest [next]. *)
Definition changed (f : string) (o : option entry) (undo : rollbackRecord) (next : string) (d : Disk) : res Disk :=
  s ← Marshal_rollback undo;
  Ok (set_path manifestPath (file_of next)
        (set_path rollbackPath (Some (EFile s)) (set_path (pack_path f) o d))).

Definition installed (f content origin : string) (pinned : bool) (d : Disk) : res Disk :=
  let b := observed f d in
  pack ← LoadPack content;
  next ← nextManifestForApply (b_priorManifest b) (pack_name pack) f content origin pinned (b_before b);
  changed f (Some (EFile content)) (undo_record b (pack_name pack)) next d.

Definition removed (f : string) (d : Disk) : res Disk :=
  let b := observed f d in
  pack ← LoadPack (rr_Content (b_before b));
  next ← nextManifestForRemove (b_priorManifest b) (pack_name pack) (b_before b);
  changed f None (undo_record b (pack_name pack)) next d.

(** The file and the manifest become those of the record; the change can be undone again. *)
Definition rolled_back (rec : rollbackRecord) (d : Disk) : res Disk :=
  let f := rr_Filename rec in
  s ← Marshal_rollback (undo_record (observed f d) (rr_Name rec));
  Ok (set_path rollbackPath (Some (EFile s))
        (set_path manifestPath (file_of (rr_Manifest rec))
           (set_path (pack_path f) (file_if (rr_Existed rec) (rr_Content rec)) d))).

(** The packs of a directory, in the order of their file names. *)
Definition read_entry (d : Disk) (file : string) : res ParserPack :=
  match at_path (pack_path file) d with
  | Some (EFile c) | Some (ELink (Some c)) => LoadPack c
  | _ => Err (errors_New ErrNotExist)
  end.
Definition dir_packs (d : Disk) : res (list ParserPack) :=
  files ← pack_files (order_by (λ a b, str_le a.1 b.1) (map_to_list (d_packs d)));
  mapM (read_entry d) (order_by str_le files).

(** A directory in which a transaction on the file [f] can start. *)
Record ready (f : string) (d : Disk) : Prop := {
  rd_yaml : is_yaml f = true;
  rd_utf8 : utf8_Valid f = true;
  rd_tidy : tidy f d;
  rd_journal : at_path transactionPath d = None;
  rd_undo : at_path rollbackPath d ≠ Some (EFile "");
  rd_manifest : at_path manifestPath d ≠ Some (EFile "");
}.
End spec.

Section ops.
Context `{FsEnv} `{PackCodec} `{!CodecLaws} (Hfs : fail_stop).
Abbreviation Hst := (Host Manager).
Implicit Types (h : Hst).

Lemma LoadPack_utf8 content pack : LoadPack content = Ok pack → utf8_Valid (pack_name pack) = true.
Proof.
  intros (p & Hy & Hv)%res_bind_ok. destruct (yaml_Decode content) as [p'|e|q] eqn:Ey; simplify_eq/=.
  destruct (Validate regexp_Compile p) as [p'|e|q] eqn:Ev; simplify_eq/=.
  apply Validate_same in Ev as [_ Hm]. unfold pack_name. rewrite Hm. by eapply yaml_names.
Qed.

Lemma MarshalIndent_ok prior name f content origin pinned before next :
  nextManifestForApply prior name f content origin pinned before = Ok next → next ≠ "".
Proof. intros (m & _ & (r & _ & (p & _ & Hm)%res_bind_ok)%res_bind_ok)%res_bind_ok. by eapply manifest_written. Qed.
Lemma MarshalIndent_remove_ok prior name before next :
  nextManifestForRemove prior name before = Ok next → next ≠ "".
Proof. intros (m & _ & Hm)%res_bind_ok. by eapply manifest_written. Qed.

(** ** Loading the directory *)

Lemma pack_files_yaml l : pack_files l = pack_files (List.filter (λ kv, is_yaml kv.1) l).
Proof.
  induction l as [|[n e] l IH]; [done|]. simpl. destruct (is_yaml n) eqn:Ey; simpl.
  - rewrite ?Ey. destruct e; by rewrite <- ?IH.
  - destruct e; by rewrite <- ?IH.
Qed.

Lemma pack_files_names l files : pack_files l = Ok files → ∀ n, n ∈ files → is_yaml n = true.
Proof.
  revert files. induction l as [|[n e] l IH]; intros files; simpl; [by intros [= <-] ? ?%elem_of_nil|].
  destruct e; [|by apply IH|]; (destruct (is_yaml n) eqn:Ey; [|by apply IH]); [|done].
  intros (fs & Hfl & [= <-])%res_bind_ok m [->|Hm]%elem_of_cons; [done|]. by eapply IH.
Qed.

Definition entry_le (a b : string * entry) : bool := str_le a.1 b.1.

(** Sorting is determined by the entries. *)
Lemma sorted_yaml_entries (m m' : gmap string entry) :
  (∀ n, is_yaml n = true → m !! n = m' !! n) →
  List.filter (λ kv, is_yaml kv.1) (order_by entry_le (map_to_list m))
  = List.filter (λ kv, is_yaml kv.1) (order_by entry_le (map_to_list m')).
Proof.
  intros Hm. set (srt x := List.filter (λ kv : string * entry, is_yaml kv.1) (order_by entry_le (map_to_list x))).
  assert (∀ x n e, (n, e) ∈ srt x ↔ x !! n = Some e ∧ is_yaml n = true) as Hin.
  { intros x n e. unfold srt. rewrite list_elem_of_In, filter_In, <- list_elem_of_In, order_by_perm, elem_of_map_to_list. done. }
  assert (∀ x, NoDup (srt x)) as Hnd.
  { intros x. apply NoDup_filter_bool. rewrite order_by_perm. apply NoDup_map_to_list. }
  assert (∀ x, StronglySorted (λ a b, entry_le a b = true) (srt x)) as Hsrt.
  { intros x. assert (StronglySorted (λ a b, entry_le a b = true) (order_by entry_le (map_to_list x))) as Hs.
    { apply order_by_sorted; unfold entry_le; [intros; apply str_le_total|intros ???; apply str_le_trans]. }
    unfold srt. induction Hs as [|y l Hs IH Hy]; simpl; [constructor|]. destruct (is_yaml y.1); [|done].
    constructor; [done|]. rewrite Forall_forall in *. intros z Hz. apply Hy.
    rewrite list_elem_of_In, filter_In, <- list_elem_of_In in Hz. tauto. }
  change (srt m = srt m'). apply (StronglySorted_unique_strong (λ a b, entry_le a b = true)); [|apply Hsrt..|].
  - intros [n e] [n' e'] [H1' Hy1]%Hin [H2' Hy2]%Hin Hle1 Hle2. unfold entry_le in *. simpl in *.
    assert (n = n') as -> by by apply str_le_antisym. rewrite Hm in H1' by done. congruence.
  - apply NoDup_Permutation; [apply Hnd..|]. intros [n e].
    change ((n, e) ∈ srt m ↔ (n, e) ∈ srt m'). rewrite !Hin. split; intros [Hl Hy]; (split; [|done]).
    + by rewrite <- Hm.
    + by rewrite Hm.
Qed.

Lemma dir_packs_agree l d d' : (∀ p, p ∈ l → p.1 = Meta) → agree l d d' → dir_packs d = dir_packs d'.
Proof.
  intros Hl [_ _ Ha]. assert (∀ n, is_yaml n = true → d_packs d !! n = d_packs d' !! n) as Hm.
  { intros n Hn. apply (Ha (Packs, n)); [by apply yaml_not_temp|]. intros Hin. by apply Hl in Hin. }
  unfold dir_packs. fold entry_le. rewrite (pack_files_yaml (order_by entry_le (map_to_list (d_packs d)))),
    (pack_files_yaml (order_by entry_le (map_to_list (d_packs d')))), (sorted_yaml_entries _ _ Hm).
  destruct (pack_files _) as [files|e|q] eqn:Ef; [|done..]. simpl.
  assert (∀ fs, (∀ n, n ∈ fs → is_yaml n = true) → mapM (read_entry d) fs = mapM (read_entry d') fs) as Hmap.
  { induction fs as [|n fs IH]; intros Hns; [done|]. simpl.
    assert (read_entry d n = read_entry d' n) as ->.
    { unfold read_entry, at_path, pack_path. simpl. rewrite Hm; [done|]. apply Hns. by left. }
    rewrite IH; [done|]. intros m Hn'. apply Hns. by right. }
  apply Hmap. intros n Hn'. rewrite order_by_perm in Hn'. by eapply pack_files_names.
Qed.

Lemma wp_load_packs files h :
  wp (load_packs files) (λ x h', h_disk h' = h_disk h
    ∧ match x with
      | Ok packs => mapM (read_entry (h_disk h)) files = Ok packs
      | _ => no_failure → ∀ packs, mapM (read_entry (h_disk h)) files ≠ Ok packs
      end) h.
Proof.
  revert h. induction files as [|n l IH]; intros h; [by apply wp_ret|]. cbn [load_packs mapM].
  apply wp_bind, wp_wrap_p. unfold ReadFile. apply wp_fs_call; cbn [fst snd].
  2: { intros d Hd [_ Hc]. split; [by destruct Hd as [-> | ->]|]. intros Hn. by destruct (Hc Hn). }
  assert (∀ c, read_entry (h_disk h) n = LoadPack c →
    wp (pack <- mcall (wrap_err (λ e, Errorf "error loading pack from %s: %w" [AStr n; AErr e]) (LoadPack c)) ;;
        loaded <- load_packs l ;; ret (pack :: loaded))
      (λ x h', h_disk h' = h_disk h ∧ match x with
        | Ok packs => (p ← read_entry (h_disk h) n; k ← mapM (read_entry (h_disk h)) l; mret (p :: k)) = Ok packs
        | _ => no_failure → ∀ packs,
            (p ← read_entry (h_disk h) n; k ← mapM (read_entry (h_disk h)) l; mret (p :: k)) ≠ Ok packs
        end) (on_disk h (h_disk h))) as Hload.
  { intros c ->. apply wp_bind, wp_mcall. destruct (LoadPack c) as [p|e|q]; simpl; [|done..].
    apply wp_bind. eapply wp_mono; [apply IH|]. intros [ps|e|q] h1 [Hd Hx]; cbn [on_disk h_disk] in *.
    2,3: split; [done|]; intros Hn packs (ps & Hps & _)%res_bind_ok; by apply (Hx Hn ps).
    apply wp_ret. split; [done|]. by rewrite Hx. }
  destruct (at_path (pack_path n) (h_disk h)) as [[c|b|[c|]]|] eqn:E.
  1,3: apply Hload; unfold read_entry; by rewrite E.
  all: split; [done|]; intros _ packs; unfold read_entry; by rewrite E.
Qed.

Lemma wp_fs_Now Q h : (∀ t h', Q (Ok t) h') → wp fs_Now Q h.
Proof. intros HQ. apply HQ. Qed.

(** A loaded snapshot holds exactly the packs of the directory. *)
Lemma wp_LoadDir h :
  wp LoadDir (λ x h', match x with
    | Ok snap => dir_packs (h_disk h) = Ok (ListPacks snap)
    | _ => no_failure → ∀ packs, dir_packs (h_disk h) = Ok packs → ¬ NoDup (pack_name <$> packs)
    end) h.
Proof.
  unfold LoadDir. apply wp_bind, wp_wrap_p. unfold ReadDir. apply wp_fs_call; cbn [fst snd].
  2: { intros d Hd [_ Hc] Hn. by destruct (Hc Hn). }
  unfold dir_packs. apply wp_bind, wp_mcall.
  destruct (pack_files _) as [files|e|q]; simpl; [|done..].
  apply wp_bind. eapply wp_mono; [apply wp_load_packs|]. intros [packs|e|q] h1 [Hd Hx]; cbn [on_disk h_disk] in *.
  2,3: intros Hn ps Hps; by destruct (Hx Hn ps).
  rewrite Hx. apply wp_bind, wp_fs_Now. intros now h2. apply wp_mcall.
  set (sn := NewSnapshot _ _ _).
  assert ((∀ s, sn ≠ Ok s) → ¬ NoDup (pack_name <$> packs)) as Hdup.
  { intros Hno. apply NewSnapshot_refused in Hno as [Hin|Hno].
    - by apply list_elem_of_fmap in Hin as (? & ? & _).
    - assert (omap id (Some <$> packs) = packs) as He by (clear; induction packs as [|x l IH]; [done|]; simpl; f_equal; exact IH). by rewrite He in Hno. }
  destruct sn as [s|e|q] eqn:E; subst sn; [|intros _ ps [= <-]; by apply Hdup..].
  apply NewSnapshot_ok in E as [E _]. f_equal. by apply (inj (fmap Some)).
Qed.

(** ** The operations *)

(** What a successful operation leaves: the new disk, up to a journal that says how to
    finish, and a manager whose active snapshot holds the packs of that disk. *)
Definition succeeded (f : string) (New : Disk → Prop) (m : Snapshot → Manager) (snap : Snapshot) h' : Prop :=
  ∃ r d1, New d1 ∧ at_path transactionPath d1 = None ∧ finishes d1 r ∧ complete f r d1 (h_disk h')
          ∧ (no_failure → h_disk h' ≡ d1) ∧ dir_packs d1 = Ok (ListPacks snap) ∧ h_own h' = m snap.

Definition activated (f : string) (before : Disk) (m : Manager) (snap : Snapshot) : Manager :=
  {| m_active := Some snap; m_previous := m_active m; m_packsDir := m_packsDir m; m_backupFile := f;
     m_backupContent := match at_path (pack_path f) before with Some _ => Some (bytes_at (pack_path f) before) | None => None end;
     m_addedFile := "" |}.

Section change.
Context (f : string) (d0 : Disk) (Hready : ready f d0) (New : Disk → Prop).

Lemma dir_packs_set p o d : p.1 = Meta → dir_packs (set_path p o d) = dir_packs d.
Proof.
  intros Hp. apply (dir_packs_agree [p]); [by intros q ->%list_elem_of_singleton|].
  apply agree_touch; [by left|]. apply (agree_weaken []); [apply list_subseteq_nil|by apply agree_nil].
Qed.

(** The common part of installing and removing: the journal, the change of the file,
    the validation of the directory, and the commit. *)
Lemma attempts_change (m : Prog Hst unit) (o : option entry) wj wf wl (cont : Snapshot → Prog Hst Snapshot)
    (Q : Snapshot → Hst → Prop) b h :
  begun_ok f d0 b → h_disk h = d0 → plain_entry o →
  (∀ h1, no_links (h_disk h1) → plain (pack_path f) (h_disk h1) →
         wp m (all_or_nothing (h_disk h1) (set_path (pack_path f) o (h_disk h1)) h1) h1) →
  (∀ snap h3, advance h h3 → midway f d0 b (set_path (pack_path f) o d0) (h_disk h3) →
     dir_packs (set_path (pack_path f) o d0) = Ok (ListPacks snap) → attempts f d0 New (cont snap) Q h3) →
  attempts f d0 New
    (wrap_p wj (writeTransactionRecord (started_record b)) ;;;
     or_abort (started_record b) wf m ;;;
     snap <- or_abort (started_record b) wl LoadDir ;;
     cont snap) Q h.
Proof.
  pose proof Hready as [Hy Hu Ht Hj Hru Hrm]. intros Hb Hh Ho Hm Hk.
  apply attempts_bind. eapply tries_mono; [apply tries_wrap_p; by apply tries_write_journal|]. intros [] h1 Ha1 Hmid1.
  apply attempts_bind. eapply tries_mono; [apply tries_change with (p := pack_path f) (o := o); try done|].
  { by left. }
  { apply Hm; apply (st_tidy _ _ _ _ _ (proj1 Hmid1)). }
  intros [] h2 Ha2 Hmid2. pose proof Hb as [_ Hun].
  apply attempts_bind, tries_or_abort_reads; [done..|apply reads_LoadDir|apply Hmid2|].
  intros snap h3 Hrun [Ha3 Hd3]. apply Hk.
  - by transitivity h2; [transitivity h1|].
  - by rewrite Hd3.
  - pose proof (wp_elim _ _ _ _ _ (wp_LoadDir h2) Hrun) as Hl. cbv beta in Hl. rewrite <- Hl. symmetry.
    apply (dir_packs_agree [transactionPath]); [by intros q ->%list_elem_of_singleton|]. apply Hmid2.
Qed.

(** From the validated directory to the activation of its snapshot. *)
Lemma attempts_commit wc next o name b ex snap s h h0 :
  begun_ok f d0 b → plain_entry o → utf8_Valid name = true →
  midway f d0 b (set_path (pack_path f) o d0) (h_disk h) →
  dir_packs (set_path (pack_path f) o d0) = Ok (ListPacks snap) →
  Marshal_rollback (undo_record b name) = Ok s → next ≠ "" → h_own h = h_own h0 → ex = rr_Existed (b_before b) →
  New (set_path manifestPath (file_of next) (set_path rollbackPath (Some (EFile s)) (set_path (pack_path f) o d0))) →
  attempts f d0 New
    (commit_transaction wc b (undo_record b name) next ;;;
     activate snap f (rr_Content (b_before b)) ex)
    (succeeded f New (activated f d0 (h_own h0))) h.
Proof.
  intros Hb Ho Hn Hmid Hdp Hs Hne Hown -> HN. pose proof Hready as [Hy Hu Ht Hj Hru Hrm]. pose proof Hb as [Hobs Hun].
  apply attempts_bind.
  assert (at_path transactionPath (set_path (pack_path f) o d0) = None) as HdA by by rewrite at_set_ne.
  eapply tries_mono; [eapply (tries_commit_transaction f d0 New); try done|].
  { rewrite Hobs. unfold utf8_record. simpl. by rewrite Hu, Hn. }
  intros [] h2 Ha2 [Hc2 Hnf2]. cbv beta in *. unfold activate. apply wp_bind.
  set (d1 := set_path manifestPath _ _) in *.
  exists (committed_record b (undo_record b name) next), d1. split; [done|]. split; [by unfold d1; rewrite !at_set_ne|].
  split; [|split; [done|]; split; [done|]; split].
  - split; [done|apply Hun| |].
    + exists s. split; [done|]. unfold d1. by rewrite at_set_ne, at_set.
    + intros _. unfold d1. by rewrite at_set.
  - unfold d1. by rewrite 2!dir_packs_set.
  - simpl. rewrite Hobs, (ad_own _ _ Ha2), Hown. unfold activated. simpl. by destruct (at_path (pack_path f) d0).
Qed.
End change.

Lemma attempts_Apply f content expected origin pinned h :
  ready f (h_disk h) →
  attempts f (h_disk h) (λ d1, installed f content origin pinned (h_disk h) = Ok d1)
    (ApplyPackFileWithState f content expected origin pinned)
    (succeeded f (λ d1, installed f content origin pinned (h_disk h) = Ok d1) (activated f (h_disk h) (h_own h))) h.
Proof.
  intros Hr. pose proof Hr as [Hy Hu Ht Hj Hru Hrm]. unfold ApplyPackFileWithState.
  apply attempts_bind, tries_mcall; [done..|]. intros pack Hp.
  assert (LoadPack content = Ok pack) as Hl by by destruct (LoadPack content); simplify_eq/=.
  apply attempts_bind, tries_still; [done..|]. apply wp_ret. split; [done|]. split; [done|].
  destruct (_ =s ""); [by apply attempts_fail|].
  apply attempts_bind. eapply tries_mono; [by apply tries_begin|]. intros b h1 Ha1 [Hd1 Hb].
  apply (attempts_change f (h_disk h) Hr _ (atomicWrite (pack_path f) content) (Some (EFile content))); [done..| |].
  { intros h2 Hl2 Hp2. apply wp_atomicWrite; [by apply yaml_not_temp|done..]. }
  intros snap h3 Ha3 Hmid Hdp. pose proof Hb as [Hobs Hun].
  destruct (rollback_written (undo_record b (pack_name pack))) as (s & Hs & _).
  { rewrite Hobs. unfold utf8_record. simpl. by rewrite Hu, (LoadPack_utf8 _ _ Hl). }
  apply attempts_bind, tries_or_abort_reads; [done..|apply keeps_mcall, _|apply Hmid|].
  intros next h4 Hx [Ha4 Hd4]. injection Hx as Hx _.
  eapply (attempts_commit f (h_disk h) Hr) with (o := Some (EFile content)) (s := s); try done.
  { by eapply LoadPack_utf8. }
  { by rewrite Hd4. }
  { by eapply MarshalIndent_ok. }
  { by rewrite (ad_own _ _ Ha4), (ad_own _ _ Ha3), (ad_own _ _ Ha1). }
  unfold installed, changed. rewrite <- Hobs, Hl. simpl. rewrite Hx. simpl. by rewrite Hs.
Qed.

Lemma attempts_Remove f expected h :
  ready f (h_disk h) →
  attempts f (h_disk h) (λ d1, removed f (h_disk h) = Ok d1)
    (RemovePackFileExpected f expected)
    (succeeded f (λ d1, removed f (h_disk h) = Ok d1) (activated f (h_disk h) (h_own h))) h.
Proof.
  intros Hr. pose proof Hr as [Hy Hu Ht Hj Hru Hrm]. unfold RemovePackFileExpected.
  destruct (_ || _); [by apply attempts_fail|].
  apply attempts_bind, tries_still; [done..|]. apply wp_ret. split; [done|]. split; [done|].
  destruct (_ =s ""); [by apply attempts_fail|].
  apply attempts_bind. eapply tries_mono; [by apply tries_begin|]. intros b h1 Ha1 [Hd1 Hb].
  pose proof Hb as [Hobs Hun]. destruct (rr_Existed (b_before b)) eqn:Hex; [|by apply attempts_fail]. simpl negb. cbv iota.
  apply attempts_bind, tries_mcall; [done..|]. intros pack Hp.
  assert (LoadPack (rr_Content (b_before b)) = Ok pack) as Hl by by destruct (LoadPack _); simplify_eq/=.
  apply attempts_bind, tries_mcall; [done..|]. intros next Hn.
  apply (attempts_change f (h_disk h) Hr _ (durableRemove (pack_path f)) None); [done..| |].
  { intros h2 Hl2 Hp2. by apply wp_durableRemove. }
  intros snap h3 Ha3 Hmid Hdp.
  destruct (rollback_written (undo_record b (pack_name pack))) as (s & Hs & _).
  { rewrite Hobs. unfold utf8_record. simpl. by rewrite Hu, (LoadPack_utf8 _ _ Hl). }
  eapply (attempts_commit f (h_disk h) Hr) with (o := None) (s := s); try done.
  { by eapply LoadPack_utf8. }
  { by eapply MarshalIndent_remove_ok. }
  { by rewrite (ad_own _ _ Ha3), (ad_own _ _ Ha1). }
  unfold removed, changed. rewrite <- Hobs, Hl. simpl. rewrite Hn. simpl. by rewrite Hs.
Qed.

Definition rolled (m : Manager) (snap : Snapshot) : Manager :=
  {| m_active := Some snap; m_previous := None; m_packsDir := m_packsDir m; m_backupFile := m_backupFile m;
     m_backupContent := m_backupContent m; m_addedFile := m_addedFile m |}.

(** The end of a rollback: the commit of the journal, the rollback record, the activation. *)
Lemma attempts_rollback_commit f d0 rec b next snap s dA h h0 :
  let undo := undo_record b (rr_Name rec) in
  let d1 := set_path rollbackPath (Some (EFile s)) dA in
  ready f d0 → begun_ok f d0 b → utf8_Valid (rr_Name rec) = true → Marshal_rollback undo = Ok s →
  rolled_back rec d0 = Ok d1 → at_path transactionPath dA = None → at_path manifestPath dA = file_of next →
  midway f d0 b dA (h_disk h) → dir_packs dA = Ok (ListPacks snap) → h_own h = h_own h0 →
  attempts f d0 (λ d, rolled_back rec d0 = Ok d)
    (or_abort (started_record b) (λ e, e) (writeTransactionRecord (committed_record b undo next)) ;;;
     or_abort (started_record b) (λ e, e) (writeRollback undo) ;;;
     remove_if_exists transactionPath ;;;
     m <- own ;;
     set_own {| m_active := Some snap; m_previous := None; m_packsDir := m_packsDir m;
                m_backupFile := m_backupFile m; m_backupContent := m_backupContent m;
                m_addedFile := m_addedFile m |})
    (λ _ h', ∃ snap, succeeded f (λ d, rolled_back rec d0 = Ok d) (rolled (h_own h0)) snap h') h.
Proof.
  intros undo d1 Hr Hb Hun Hs HNew HtA Hnext Hmid Hdp Hown. pose proof Hr as [Hy Hu Ht Hj Hru Hrm].
  pose proof Hb as [Hobs Hundo]. set (r := committed_record b undo next).
  assert (at_path transactionPath d1 = None) as Ht1 by (unfold d1; by rewrite at_set_ne).
  assert (finishes d1 r) as Hfin.
  { split; [done|apply Hundo| |].
    - exists s. split; [done|]. unfold d1. by rewrite at_set.
    - intros _. unfold d1. by rewrite at_set_ne. }
  destruct (transaction_written r) as (st & Hst & _ & Hdec).
  { unfold r, utf8_record. rewrite Hobs. simpl. by rewrite Hu. }
  { unfold r, undo, utf8_record. rewrite Hobs. simpl. by rewrite Hu, Hun. }
  assert ([rollbackPath] ⊆ unfinished r) as Hsub by (unfold unfinished; set_solver).
  apply attempts_bind. eapply tries_mono; [eapply (tries_commit_record f d0) with (b := b) (dA := dA); try done|].
  { apply agree_symm, agree_touch; [by left|]. apply (agree_weaken []); [apply list_subseteq_nil|by apply agree_nil]. }
  intros [] h7 Ha7 Hs7. apply attempts_bind.
  eapply tries_mono; [apply (tries_redo f d0) with (b := b) (l := [rollbackPath]) (l' := []) (r := r) (d1 := d1); try done|].
  { pose proof (st_tidy _ _ _ _ _ Hs7) as (Hl & _ & Hp & _). apply wp_repair with (o := Some (EFile s));
      [done|by apply wp_writeRollback|done|done|by unfold d1; rewrite at_set|done]. }
  intros [] h8 Ha8 Hs8. apply attempts_bind.
  eapply tries_mono; [apply (tries_remove_journal f d0) with (r := r) (d1 := d1); try done|].
  intros [] h9 Ha9 [Hc9 Hnf9]. apply wp_bind. exists snap, r, d1.
  split; [done|]. split; [done|]. split; [done|]. split; [done|]. split; [done|]. split.
  - unfold d1. by rewrite dir_packs_set.
  - unfold rolled, set_own. simpl. by rewrite (ad_own _ _ Ha9), (ad_own _ _ Ha8), (ad_own _ _ Ha7), Hown.
Qed.

Lemma attempts_rollback_files f rec h h0 :
  rr_Filename rec = f → utf8_Valid (rr_Name rec) = true → ready f (h_disk h) → h_own h = h_own h0 →
  attempts f (h_disk h) (λ d1, rolled_back rec (h_disk h) = Ok d1) (rollback_files rec)
    (λ _ h', ∃ snap, succeeded f (λ d1, rolled_back rec (h_disk h) = Ok d1) (rolled (h_own h0)) snap h') h.
Proof.
  intros Hf Hun Hr Hown. pose proof Hr as [Hy Hu Ht Hj Hru Hrm]. set (d0 := h_disk h) in *.
  unfold rollback_files. rewrite Hf. apply attempts_bind, tries_mcall; [done..|]. intros [] Hv.
  apply attempts_bind. eapply tries_mono; [by apply tries_begin|]. intros b h1 Ha1 [Hd1 Hb].
  pose proof Hb as [Hobs Hundo].
  destruct (rollback_written (undo_record b (rr_Name rec))) as (s & Hs & _).
  { rewrite Hobs. unfold utf8_record. simpl. by rewrite Hu, Hun. }
  set (dF := set_path (pack_path f) (file_if (rr_Existed rec) (rr_Content rec)) d0).
  set (dA := set_path manifestPath (file_of (rr_Manifest rec)) dF).
  set (d1 := set_path rollbackPath (Some (EFile s)) dA).
  assert (rolled_back rec d0 = Ok d1) as HNew.
  { unfold rolled_back. rewrite Hf, <- Hobs, Hs. done. }
  apply attempts_bind. eapply tries_mono; [by apply tries_write_journal|]. intros [] h2 Ha2 Hmid2.
  apply attempts_bind. eapply tries_mono; [apply (tries_change f d0) with (p := pack_path f)
    (o := file_if (rr_Existed rec) (rr_Content rec)); try done|].
  { by left. }
  { apply plain_file_if. }
  { by apply wp_restoreRecord; [..|apply (st_tidy _ _ _ _ _ (proj1 Hmid2))|apply (st_tidy _ _ _ _ _ (proj1 Hmid2))]. }
  intros [] h3 Ha3 Hmid3. fold dF in Hmid3.
  apply attempts_bind. eapply tries_mono; [apply (tries_change f d0) with (p := manifestPath)
    (o := file_of (rr_Manifest rec)); try done|].
  { unfold touched. set_solver. }
  { apply plain_file_of. }
  { by apply wp_restore_bytes; [..|apply (st_tidy _ _ _ _ _ (proj1 Hmid3))|apply (st_tidy _ _ _ _ _ (proj1 Hmid3))]. }
  intros [] h4 Ha4 Hmid4. fold dA in Hmid4.
  apply attempts_bind, tries_or_abort_reads; [done..|apply reads_LoadDir|apply Hmid4|].
  intros snap h5 Hrun [Ha5 Hd5].
  assert (dir_packs dA = Ok (ListPacks snap)) as Hdp.
  { pose proof (wp_elim _ _ _ _ _ (wp_LoadDir h4) Hrun) as Hl. cbv beta in Hl. rewrite <- Hl. symmetry.
    apply (dir_packs_agree [transactionPath]); [by intros q ->%list_elem_of_singleton|]. apply Hmid4. }
  rewrite <- Hd5 in Hmid4.
  apply attempts_bind, tries_or_abort_reads; [done..|apply reads_read_or_empty|apply Hmid4|].
  intros next h6 Hrun6 [Ha6 Hd6].
  assert (file_of next = at_path manifestPath dA) as Hnext.
  { pose proof Hmid4 as [Hst Hag].
    assert (at_path manifestPath (h_disk h5) = at_path manifestPath dA) as Hm.
    { apply (ag_files _ _ _ Hag); [done|]. set_solver. }
    pose proof (wp_elim _ _ _ _ _ (wp_read_or_empty manifestPath h5 ltac:(apply Hst)) Hrun6) as (_ & _ & Hl).
    rewrite Hm in Hl. symmetry. apply Hl. unfold dA. rewrite at_set. unfold file_of.
    by destruct (String.eqb_spec (rr_Manifest rec) ""); [|intros [= ?]]. }
  rewrite <- Hd6 in Hmid4. eapply attempts_rollback_commit; try done; [by unfold dA, dF; rewrite !at_set_ne|].
  by rewrite (ad_own _ _ Ha6), (ad_own _ _ Ha5), (ad_own _ _ Ha4), (ad_own _ _ Ha3), (ad_own _ _ Ha2), (ad_own _ _ Ha1).
Qed.
End ops.
