(* ===== verification/PackLive.v ===== *)
(** * Without failures, the operations of the pack store succeed *)

From S2P Require Import Prelude GoStrings GoNum GoIO GoTime Model Decoder Pack Snapshot.
From S2P Require Export Monad Disk DiskSpec PackStore PackJournal PackCrash PackOps.

#[local] Open Scope monad_scope.

Section live.
Context `{FsEnv} `{PackCodec} `{!CodecLaws} (Hnf : no_failure).
Abbreviation Hst := (Host Manager).
Implicit Types (h : Hst).

(** [m] returns a value, and [Q] holds of it. *)
Definition succeeds {A} (m : Prog Hst A) (Q : A → Hst → Prop) h : Prop :=
  wp m (λ x h', match x with Ok a => advance h h' ∧ Q a h' | _ => False end) h.

Lemma succeeds_bind {A B} (m : Prog Hst A) (k : A → Prog Hst B) Q h :
  succeeds m (λ a h1, succeeds (k a) Q h1) h → succeeds (bind m k) Q h.
Proof.
  intros Hm. apply wp_bind. eapply wp_mono; [exact Hm|]. intros [a|e|q] h1 Hx; [|done..].
  destruct Hx as [Ha Hk]. eapply wp_mono; [exact Hk|]. intros [b|e|q] h2; [|done..].
  intros [Ha2 HQ]. split; [by transitivity h1|done].
Qed.

(** [m] returns a value, and may change the data of the process. *)
Definition returns {A} (m : Prog Hst A) h : Prop := wp m (λ x _, is_ok x = true) h.

Lemma returns_then {A B} (m : Prog Hst A) (k : A → Prog Hst B) h :
  succeeds m (λ a h1, returns (k a) h1) h → returns (bind m k) h.
Proof. intros Hm. apply wp_bind. eapply wp_mono; [exact Hm|]. by intros [a|e|q] h1 Hx; [destruct Hx|..]. Qed.

Lemma succeeds_mono {A} (m : Prog Hst A) (Q Q' : A → Hst → Prop) h :
  succeeds m Q h → (∀ a h', advance h h' → Q a h' → Q' a h') → succeeds m Q' h.
Proof. intros Hm HQ. eapply wp_mono; [exact Hm|]. intros [a|e|q] h1; naive_solver. Qed.

Lemma succeeds_try {A} (m : Prog Hst A) Q h : succeeds m (λ a h1, Q (Ok a) h1) h → succeeds (try m) Q h.
Proof. intros Hm. apply wp_try. eapply wp_mono; [exact Hm|]. by intros [a|e|q] h1. Qed.

Lemma succeeds_ret {A} (a : A) (Q : A → Hst → Prop) h : Q a h → succeeds (ret a) Q h.
Proof. by split. Qed.
Lemma succeeds_mcall {A} (x : res A) a (Q : A → Hst → Prop) h : x = Ok a → Q a h → succeeds (mcall x) Q h.
Proof. by intros ->. Qed.

Lemma succeeds_wrap_p {A} w (m : Prog Hst A) Q h : succeeds m Q h → succeeds (wrap_p w m) Q h.
Proof. intros Hm. apply wp_wrap_p. eapply wp_mono; [exact Hm|]. by intros [a|e|q] h1. Qed.
Lemma succeeds_or_abort {A} r w (m : Prog Hst A) Q h : succeeds m Q h → succeeds (or_abort r w m) Q h.
Proof.
  intros Hm. apply wp_bind, wp_try. eapply wp_mono; [exact Hm|]. by intros [a|e|q] h1.
Qed.

Lemma succeeds_crash {A} (m : Prog Hst A) (Q : A → Hst → Prop) h :
  wp m (λ x h', advance h h' ∧ match x with Ok a => Q a h' | _ => crashed_by x h' end) h → succeeds m Q h.
Proof.
  intros Hm. eapply wp_mono; [exact Hm|]. intros [a|e|q] h1 [Ha Hx]; [done| |done]. by destruct Hx as [_ []].
Qed.

Lemma succeeds_aon (m : Prog Hst unit) d1 h :
  wp m (all_or_nothing (h_disk h) d1 h) h → succeeds m (λ _ h', h_disk h' ≡ d1) h.
Proof.
  intros Hm. apply succeeds_crash. eapply wp_mono; [exact Hm|]. intros [a|e|q] h1 (Ha & Hc & Hd); done.
Qed.

Lemma succeeds_LoadDir packs h :
  dir_packs (h_disk h) = Ok packs → NoDup (pack_name <$> packs) →
  succeeds LoadDir (λ snap h', h_disk h' = h_disk h ∧ ListPacks snap = packs) h.
Proof.
  intros Hp Hnd. apply (wp_keeps reads); [apply reads_LoadDir|]. eapply wp_mono; [apply wp_LoadDir|].
  intros [snap|e|q] h1 Hx [Ha Hd]; [|by apply (Hx Hnf packs)..]. split; [done|]. split; [done|].
  rewrite Hp in Hx. by injection Hx.
Qed.

Lemma succeeds_read_or_empty p h :
  plain p (h_disk h) → at_path p (h_disk h) ≠ Some (EFile "") →
  succeeds (read_or_empty p) (λ s h', h_disk h' = h_disk h ∧ at_path p (h_disk h) = file_of s) h.
Proof.
  intros Hp Hne. apply succeeds_crash. eapply wp_mono; [by apply wp_read_or_empty|].
  intros [s|e|q] h1 (Ha & Hd & Hx); split; try done. split; [done|]. by apply Hx.
Qed.

(** A file name that a transaction accepts. *)
Definition good_name (f : string) : bool :=
  negb (has_separator f) && negb (Contains f "..") && negb (f =s "") && is_yaml f.

Lemma succeeds_begin f expected h :
  m_packsDir (h_own h) ≠ "" → good_name f = true → ready f (h_disk h) →
  unexpected expected (rr_Existed (b_before (observed f (h_disk h)))) (rr_Content (b_before (observed f (h_disk h)))) = false →
  succeeds (beginFileTransaction f expected) (λ b h', h_disk h' = h_disk h ∧ begun_ok f (h_disk h) b) h.
Proof.
  intros Hdir Hg Hr Hexp. pose proof Hr as [Hy Hu Ht Hj Hru Hrm]. pose proof Ht as (Hl & Hp & Hpu & Hpm & Hpt).
  unfold good_name in Hg. rewrite !andb_true_iff, !negb_true_iff in Hg. destruct Hg as [[[Hs Hd] Hne] _].
  apply succeeds_bind, succeeds_ret. destruct (String.eqb_spec (m_packsDir (h_own h)) "") as [|_]; [done|].
  rewrite Hs, Hd, Hne, Hy. simpl orb. simpl negb. cbv iota.
  set (d0 := h_disk h) in *.
  apply succeeds_bind, succeeds_crash. eapply wp_mono; [by apply wp_Recover_none|].
  intros [[]|e|q] h1 (Ha1 & Hc1 & Hd1); [|done..]. split; [done|]. change (h_disk h1 = d0) in Hd1.
  apply succeeds_bind, succeeds_crash, wp_RejectSymlinks; rewrite ?Hd1; [done..|].
  intros [[]|e|q] h2 Ha2 Hc2 Hd2; [|done..]. split; [done|].
  assert (∀ ex c h3, h_disk h3 = d0 → at_path (pack_path f) d0 = file_if ex c → (ex = false → c = "") →
    succeeds (begin_read f expected ex c) (λ b h', h_disk h' = d0 ∧ begun_ok f d0 b) h3) as Hread.
  { intros ex c h3 Hd3 Hat Hc. unfold begin_read.
    assert (unexpected expected ex c = false) as ->.
    { rewrite <- Hexp. unfold observed, bytes_at. simpl. rewrite Hat. destruct ex; [done|]. by rewrite Hc. }
    apply succeeds_bind. eapply succeeds_mono; [apply succeeds_read_or_empty; by rewrite Hd3|].
    intros u h4 _ [Hd4 Hx4]. rewrite Hd3 in *.
    apply succeeds_bind. eapply succeeds_mono; [apply succeeds_read_or_empty; by rewrite Hd4|].
    intros m h5 _ [Hd5 Hx5]. rewrite Hd4 in *. apply succeeds_ret. split; [done|]. split.
    - unfold observed, bytes_at. rewrite Hat, Hx4, Hx5. unfold file_of.
      destruct (String.eqb_spec u "") as [->|], (String.eqb_spec m "") as [->|], ex; try done; by rewrite Hc.
    - split; [done|apply validateRecord_plain; try done; by destruct (String.eqb_spec f "")|done..]. }
  apply succeeds_bind, wp_try, wp_ReadFile; rewrite ?Hd2; [done|].
  intros x h3 Ha3 Hd3 Hx. destruct x as [c|e|q]; [| |done]; (split; [done|]).
  - by apply Hread.
  - destruct Hx as [[He Hn]|[_ [_ Hc]]]; [|by destruct Hc]. rewrite He. by apply Hread.
Qed.

(** ** The writes, on a disk known up to temporary files *)

Section writes.
Context (f : string) (Hy : is_yaml f = true).

Lemma succeeds_set p o (m : Prog Hst unit) d h :
  h_disk h ≡ d → tidy f d →
  (tidy f (h_disk h) → wp m (all_or_nothing (h_disk h) (set_path p o (h_disk h)) h) h) →
  succeeds m (λ _ h', h_disk h' ≡ set_path p o d) h.
Proof.
  intros Hd Ht Hm. eapply succeeds_mono; [apply succeeds_aon, Hm|].
  - eapply tidy_equiv; [done|by symmetry|done].
  - intros [] h' _ Hd'. by rewrite Hd', Hd.
Qed.

Lemma succeeds_write_journal r s d h :
  Marshal_transaction r = Ok s → h_disk h ≡ d → tidy f d →
  succeeds (writeTransactionRecord r) (λ _ h', h_disk h' ≡ set_path transactionPath (Some (EFile s)) d) h.
Proof.
  intros Hs Hd Ht. apply succeeds_set; [done..|]. intros (Hl & _ & _ & _ & Hp). by apply wp_writeTransactionRecord.
Qed.
Lemma succeeds_writeRollback r s d h :
  Marshal_rollback r = Ok s → h_disk h ≡ d → tidy f d →
  succeeds (writeRollback r) (λ _ h', h_disk h' ≡ set_path rollbackPath (Some (EFile s)) d) h.
Proof.
  intros Hs Hd Ht. apply succeeds_set; [done..|]. intros (Hl & _ & Hp & _). by apply wp_writeRollback.
Qed.
Lemma succeeds_restoreManifest data d h :
  h_disk h ≡ d → tidy f d →
  succeeds (restoreManifest data) (λ _ h', h_disk h' ≡ set_path manifestPath (file_of data) d) h.
Proof.
  intros Hd Ht. apply succeeds_set; [done..|]. intros (Hl & _ & _ & Hp & _). by apply wp_restore_bytes.
Qed.
Lemma succeeds_remove_journal d h :
  h_disk h ≡ d → tidy f d →
  succeeds (remove_if_exists transactionPath) (λ _ h', h_disk h' ≡ del transactionPath d) h.
Proof.
  intros Hd Ht. apply (succeeds_set _ None); [done..|]. intros (Hl & _ & _ & _ & Hp). by apply wp_remove_if_exists.
Qed.
Lemma succeeds_cleanup d h :
  h_disk h ≡ d → tidy f d → succeeds cleanup (λ _ _, True) h.
Proof.
  intros Hd Ht. apply wp_bind, wp_try, wp_os_Remove; [by eapply (tidy_equiv f Hy) in Ht; [apply Ht|symmetry]|].
  intros x h1 Ha Hx. by destruct x; [apply wp_ret|apply wp_ret|].
Qed.

Lemma succeeds_commit wr b undo next s st d h :
  Marshal_transaction (committed_record b undo next) = Ok st → Marshal_rollback undo = Ok s →
  h_disk h ≡ d → tidy f d → succeeds (commit_transaction wr b undo next) (λ _ _, True) h.
Proof.
  intros Hst Hs Hd Ht. apply succeeds_bind, succeeds_or_abort.
  eapply succeeds_mono; [by eapply succeeds_write_journal|]. intros [] h1 _ Hd1. cbv beta in Hd1.
  apply succeeds_bind, succeeds_or_abort. apply (tidy_set f transactionPath (Some (EFile st))) in Ht; [|done].
  eapply succeeds_mono; [by eapply succeeds_writeRollback|]. intros [] h2 _ Hd2. cbv beta in Hd2.
  apply succeeds_bind, succeeds_or_abort. apply (tidy_set f rollbackPath (Some (EFile s))) in Ht; [|done].
  eapply succeeds_mono; [by eapply succeeds_restoreManifest|]. intros [] h3 _ Hd3. cbv beta in Hd3.
  apply (tidy_set f manifestPath (file_of next)) in Ht; [|apply plain_file_of]. by eapply succeeds_cleanup.
Qed.
End writes.

(** ** The operations *)

(** [beginFileTransaction] accepts the file, unchanged since the caller looked at it. *)
Record accepted (f : string) (expected : option PackFileExpectation) h : Prop := {
  ac_ready : ready f (h_disk h);
  ac_dir : m_packsDir (h_own h) ≠ "";
  ac_name : good_name f = true;
  ac_expected :
    unexpected expected (rr_Existed (b_before (observed f (h_disk h)))) (rr_Content (b_before (observed f (h_disk h)))) = false;
}.

(** A directory that loads: its packs have different names. *)
Definition loads (d : Disk) : Prop := ∃ packs, dir_packs d = Ok packs ∧ NoDup (pack_name <$> packs).

Lemma loads_agree l d d' : (∀ p, p ∈ l → p.1 = Meta) → agree l d d' → loads d → loads d'.
Proof. intros Hl Ha (packs & Hp & Hn). exists packs. by rewrite <- (dir_packs_agree l d d'). Qed.
Lemma loads_equiv d d' : d ≡ d' → loads d → loads d'.
Proof. intros Hd. apply (loads_agree []); [by intros p ?%elem_of_nil|]. by apply agree_nil. Qed.
Lemma loads_set p o d : p.1 = Meta → loads d ↔ loads (set_path p o d).
Proof.
  intros Hp. assert (agree [p] (set_path p o d) d) as Ha.
  { apply agree_touch; [by left|]. apply (agree_weaken []); [apply list_subseteq_nil|by apply agree_nil]. }
  assert (∀ q, q ∈ [p] → q.1 = Meta) by by intros q ->%list_elem_of_singleton.
  split; apply (loads_agree [p]); try done. by apply agree_symm.
Qed.

Lemma succeeds_load d h :
  h_disk h ≡ d → loads d → succeeds LoadDir (λ _ h', h_disk h' ≡ d) h.
Proof.
  intros Hd (packs & Hp & Hn)%(loads_equiv d (h_disk h)); [|by symmetry].
  eapply succeeds_mono; [by apply succeeds_LoadDir|]. by intros snap h' _ [-> _].
Qed.

Lemma begun_codecs f name b d :
  utf8_Valid f = true → utf8_Valid name = true → b = observed f d →
  (∃ s, Marshal_transaction (started_record b) = Ok s) ∧
  (∃ s, Marshal_rollback (undo_record b name) = Ok s) ∧
  ∀ next, ∃ s, Marshal_transaction (committed_record b (undo_record b name) next) = Ok s.
Proof.
  intros Hu Hn ->. split_and!.
  - destruct (transaction_written (started_record (observed f d))) as (s & Hs & _); [|done|by exists s].
    unfold utf8_record. simpl. by rewrite Hu.
  - destruct (rollback_written (undo_record (observed f d) name)) as (s & Hs & _); [|by exists s].
    unfold utf8_record. simpl. by rewrite Hu, Hn.
  - intros next. destruct (transaction_written (committed_record (observed f d) (undo_record (observed f d) name) next))
      as (s & Hs & _); [| |by exists s]; unfold utf8_record; simpl; by rewrite Hu, ?Hn.
Qed.

Lemma installed_inv f content origin pinned d d1 :
  installed f content origin pinned d = Ok d1 →
  ∃ pack next s, LoadPack content = Ok pack
    ∧ nextManifestForApply (b_priorManifest (observed f d)) (pack_name pack) f content origin pinned (b_before (observed f d)) = Ok next
    ∧ Marshal_rollback (undo_record (observed f d) (pack_name pack)) = Ok s
    ∧ d1 = set_path manifestPath (file_of next)
             (set_path rollbackPath (Some (EFile s)) (set_path (pack_path f) (Some (EFile content)) d)).
Proof.
  intros (pack & Hp & (next & Hn & (s & Hs & Hd)%res_bind_ok)%res_bind_ok)%res_bind_ok. exists pack, next, s.
  split_and!; [done..|]. congruence.
Qed.

Lemma live_Apply f content expected origin pinned d1 h :
  accepted f expected h → installed f content origin pinned (h_disk h) = Ok d1 → loads d1 →
  returns (ApplyPackFileWithState f content expected origin pinned) h.
Proof.
  intros [Hr Hdir Hg He] (pack & next & s & Hp & Hn & Hs & ->)%installed_inv Hl.
  pose proof Hr as [Hy Hu Ht Hj Hru Hrm]. set (d0 := h_disk h) in *.
  apply (loads_set manifestPath (file_of next)), (loads_set rollbackPath (Some (EFile s))) in Hl; [|done..].
  unfold ApplyPackFileWithState. apply returns_then. eapply succeeds_mcall; [by rewrite Hp|].
  apply returns_then, succeeds_ret. destruct (String.eqb_spec (m_packsDir (h_own h)) ""); [done|].
  apply returns_then. eapply succeeds_mono; [by apply succeeds_begin|]. intros b h1 _ [Hd1 [-> _]].
  set (b := observed f d0) in *.
  destruct (begun_codecs f (pack_name pack) b d0 Hu (LoadPack_utf8 _ _ Hp) eq_refl) as ((s1 & Hs1) & _ & Hs2).
  destruct (Hs2 next) as [s2 Hs2']. clear Hs2.
  apply returns_then, succeeds_wrap_p.
  eapply succeeds_mono; [eapply (succeeds_write_journal f Hy _ s1 d0); [done|by rewrite Hd1|done]|].
  intros [] h2 _ Hd2. cbv beta in Hd2. apply (tidy_set f transactionPath (Some (EFile s1))) in Ht; [|done].
  apply returns_then, succeeds_or_abort. eapply succeeds_mono; [eapply (succeeds_set f Hy (pack_path f) (Some (EFile content)))|];
    [done|done|intros (Hl2 & Hp2 & _); apply wp_atomicWrite; [by apply yaml_not_temp|done..]|].
  intros [] h3 _ Hd3. cbv beta in Hd3. apply (tidy_set f (pack_path f) (Some (EFile content))) in Ht; [|done].
  apply returns_then, succeeds_or_abort. eapply succeeds_mono; [apply succeeds_load; [exact Hd3|]|].
  { eapply (loads_agree [transactionPath]), Hl; [by intros q ->%list_elem_of_singleton|]. apply agree_symm.
    apply (agree_both _ (pack_path f) (Some (EFile content)) _ d0), (agree_touch _ _ (Some (EFile s1))); [by left|].
    apply (agree_weaken []); [apply list_subseteq_nil|by apply agree_nil]. }
  intros snap h4 _ Hd4. cbv beta in Hd4. apply returns_then, succeeds_or_abort. eapply succeeds_mcall; [done|].
  apply returns_then. eapply succeeds_mono; [eapply (succeeds_commit f Hy); done|].
  done.
Qed.

Lemma succeeds_read_manifest data d h :
  h_disk h ≡ set_path manifestPath (file_of data) d →
  succeeds (read_or_empty manifestPath) (λ _ h', h_disk h' ≡ set_path manifestPath (file_of data) d) h.
Proof.
  intros Hd. assert (at_path manifestPath (h_disk h) = file_of data) as Hat by by rewrite (at_equiv _ _ _ Hd), ?at_set.
  eapply succeeds_mono; [apply succeeds_read_or_empty|].
  - unfold plain. rewrite Hat. apply plain_file_of.
  - rewrite Hat. unfold file_of. by destruct (String.eqb_spec data ""); [|intros [= ?]].
  - by intros s h' _ [-> _].
Qed.

Lemma live_rollback_files rec d1 h :
  accepted (rr_Filename rec) None h → utf8_Valid (rr_Name rec) = true →
  rolled_back rec (h_disk h) = Ok d1 → loads d1 → returns (rollback_files rec) h.
Proof.
  intros [Hr Hdir Hg He] Hun Hi Hl. pose proof Hr as [Hy Hu Ht Hj Hru Hrm]. unfold rolled_back in Hi.
  set (f := rr_Filename rec) in *. set (d0 := h_disk h) in *. set (o := file_if (rr_Existed rec) (rr_Content rec)) in *.
  assert (plain_entry o) as Ho by apply plain_file_if.
  apply res_bind_ok in Hi as (s & Hs & [= <-]). apply (loads_set rollbackPath (Some (EFile s))) in Hl; [|done].
  assert (validateRecord rec = Ok ()) as Hv.
  { unfold good_name in Hg. rewrite !andb_true_iff, !negb_true_iff in Hg. destruct Hg as [[[Hg1 Hg2] Hg3] _].
    apply validateRecord_plain; try done. by apply String.eqb_neq. }
  unfold rollback_files. apply returns_then. eapply succeeds_mcall; [done|].
  apply returns_then. eapply succeeds_mono; [by apply succeeds_begin|]. intros b h1 _ [Hd1 [-> _]].
  set (b := observed f d0) in *.
  destruct (begun_codecs f (rr_Name rec) b d0 Hu Hun eq_refl) as ((s1 & Hs1) & _ & Hs2).
  apply returns_then. eapply succeeds_mono; [eapply (succeeds_write_journal f Hy _ s1 d0); [done|by rewrite Hd1|done]|].
  intros [] h2 _ Hd2. cbv beta in Hd2. apply (tidy_set f transactionPath (Some (EFile s1))) in Ht; [|done].
  apply returns_then, succeeds_or_abort. eapply succeeds_mono; [eapply (succeeds_set f Hy (pack_path f) o);
    [done|done|intros (Hl2 & Hp2 & _); by apply wp_restoreRecord]|].
  intros [] h3 _ Hd3. cbv beta in Hd3. apply (tidy_set f (pack_path f) o) in Ht; [|done].
  apply returns_then, succeeds_or_abort. eapply succeeds_mono; [by eapply (succeeds_restoreManifest f Hy)|].
  intros [] h4 _ Hd4. cbv beta in Hd4. apply (tidy_set f manifestPath (file_of (rr_Manifest rec))) in Ht; [|apply plain_file_of].
  apply returns_then, succeeds_or_abort. eapply succeeds_mono; [apply succeeds_load; [exact Hd4|]|].
  { eapply (loads_agree [transactionPath]), Hl; [by intros q ->%list_elem_of_singleton|]. apply agree_symm.
    apply (agree_both _ manifestPath _ _ (set_path (pack_path f) o d0)), (agree_both _ (pack_path f) o _ d0),
      (agree_touch _ _ (Some (EFile s1))); [by left|].
    apply (agree_weaken []); [apply list_subseteq_nil|by apply agree_nil]. }
  intros snap h5 _ Hd5. cbv beta in Hd5.
  apply returns_then, succeeds_or_abort. eapply succeeds_mono; [by apply succeeds_read_manifest|].
  intros next h6 _ Hd6. cbv beta in Hd6. destruct (Hs2 next) as [s2 Hs2']. clear Hs2.
  apply returns_then, succeeds_or_abort. eapply succeeds_mono; [by eapply (succeeds_write_journal f Hy _ s2)|].
  intros [] h7 _ Hd7. cbv beta in Hd7. apply (tidy_set f transactionPath (Some (EFile s2))) in Ht; [|done].
  apply returns_then, succeeds_or_abort. eapply succeeds_mono; [by eapply (succeeds_writeRollback f Hy)|].
  intros [] h8 _ Hd8. cbv beta in Hd8. apply (tidy_set f rollbackPath (Some (EFile s))) in Ht; [|done].
  apply returns_then. eapply succeeds_mono; [by eapply (succeeds_remove_journal f Hy)|]. done.
Qed.

(** ** Rolling back an installation *)

Lemma ready_equiv f d d' : d ≡ d' → ready f d → ready f d'.
Proof.
  intros Hd [Hy Hu Ht Hj Hru Hrm]. split; try done; [by eapply tidy_equiv|..]; by rewrite <- (at_equiv _ _ _ Hd).
Qed.

Lemma installed_ready f content origin pinned d d1 :
  ready f d → installed f content origin pinned d = Ok d1 → ready f d1.
Proof.
  intros [Hy Hu Ht Hj Hru Hrm] (pack & next & s & Hp & Hn & Hs & ->)%installed_inv.
  assert (s ≠ "") as Hs0.
  { destruct (rollback_written (undo_record (observed f d) (pack_name pack))) as (s' & Hs' & Hne & _); [|congruence].
    unfold utf8_record. simpl. by rewrite Hu, (LoadPack_utf8 _ _ Hp). }
  split; [done..| | | |].
  - by repeat (apply tidy_set; [done||apply plain_file_of|]).
  - by rewrite !at_set_ne.
  - rewrite at_set_ne, at_set by done. congruence.
  - rewrite at_set. apply MarshalIndent_ok in Hn. unfold file_of. destruct (String.eqb_spec next ""); congruence.
Qed.

Lemma bytes_file_of p d : plain p d → at_path p d ≠ Some (EFile "") → file_of (bytes_at p d) = at_path p d.
Proof.
  unfold plain, bytes_at, file_of. destruct (at_path p d) as [[c| |]|]; try done. intros _ Hne.
  by destruct (String.eqb_spec c "") as [->|].
Qed.

(** The rollback record of an installation describes the directory before it. *)
Lemma rolled_back_installed f content origin pinned d d1 :
  ready f d → installed f content origin pinned d = Ok d1 →
  ∃ rec s d2, rr_Filename rec = f ∧ utf8_Valid (rr_Name rec) = true
    ∧ at_path rollbackPath d1 = Some (EFile s) ∧ Unmarshal_rollback s = Some rec
    ∧ rolled_back rec d1 = Ok d2 ∧ agree [rollbackPath] d2 d.
Proof.
  intros Hr (pack & next & s & Hp & Hn & Hs & Hd1)%installed_inv. pose proof Hr as [Hy Hu Ht Hj Hru Hrm].
  set (rec := undo_record (observed f d) (pack_name pack)) in *.
  assert (utf8_record rec = true) as Hutf by (unfold utf8_record; simpl; by rewrite Hu, (LoadPack_utf8 _ _ Hp)).
  destruct (rollback_written rec Hutf) as (s' & Hs' & _ & Hdec). assert (s' = s) as -> by congruence.
  destruct (rollback_written (undo_record (observed f d1) (pack_name pack))) as (s2 & Hs2 & _).
  { unfold utf8_record. simpl. by rewrite Hu, (LoadPack_utf8 _ _ Hp). }
  exists rec, s. eexists. split; [done|]. split; [by apply (LoadPack_utf8 _ _ Hp)|].
  split; [by rewrite Hd1, at_set_ne, at_set|]. split; [done|]. split.
  { unfold rolled_back. simpl rr_Filename. simpl rr_Name. rewrite Hs2. done. }
  apply agree_touch; [by left|]. destruct Ht as (_ & Hpf & Hpr & Hpm & _). apply agree_set; [by apply bytes_file_of|].
  apply agree_set.
  { simpl. unfold bytes_at. unfold plain in Hpf. by destruct (at_path (pack_path f) d) as [[]|]. }
  rewrite Hd1. repeat (apply agree_touch; [set_solver|]). apply (agree_weaken []); [apply list_subseteq_nil|by apply agree_nil].
Qed.

Lemma succeeds_rollback_record s rec h :
  at_path rollbackPath (h_disk h) = Some (EFile s) → Unmarshal_rollback s = Some rec →
  succeeds (rollback_record None) (λ r h', r = rec ∧ h_disk h' = h_disk h) h.
Proof.
  intros Hs Hdec. apply succeeds_bind, wp_try, wp_ReadFile; [unfold plain; by rewrite Hs|].
  intros [c|e|q] h1 Ha Hd Hx; [|by destruct Hx as [[_ Hx]|[_ [_ []]]]; congruence|done].
  split; [done|]. rewrite Hs in Hx. injection Hx as ->. eapply succeeds_mcall; [by rewrite Hdec|done].
Qed.

Lemma observed_equiv f d d' : is_yaml f = true → d ≡ d' → observed f d = observed f d'.
Proof.
  intros Hy Hd. unfold observed, bytes_at.
  by rewrite !(at_equiv _ _ _ Hd) by (done || by apply yaml_not_temp).
Qed.

Lemma rolled_back_equiv rec d d' d2 :
  is_yaml (rr_Filename rec) = true → d ≡ d' → rolled_back rec d = Ok d2 → ∃ d2', rolled_back rec d' = Ok d2' ∧ d2 ≡ d2'.
Proof.
  intros Hy Hd. unfold rolled_back. rewrite (observed_equiv _ _ _ Hy Hd). intros (s & Hs & [= <-])%res_bind_ok.
  rewrite Hs. eexists. split; [done|]. by rewrite Hd.
Qed.

Lemma no_failure_fail_stop : fail_stop.
Proof. intros k Hk. by destruct (Hk (Hnf k)). Qed.

(** With a rollback record on disk, [Rollback] rolls its file back. *)
Lemma live_Rollback s rec d2 h :
  at_path rollbackPath (h_disk h) = Some (EFile s) → Unmarshal_rollback s = Some rec →
  accepted (rr_Filename rec) None h → utf8_Valid (rr_Name rec) = true →
  rolled_back rec (h_disk h) = Ok d2 → loads d2 →
  wp Rollback (λ x h', is_ok x = true ∧ h_disk h' ≡ d2
    ∧ ∃ snap, m_active (h_own h') = Some snap ∧ dir_packs d2 = Ok (ListPacks snap)) h.
Proof.
  intros Hs Hdec Hacc Hun Hrb Hl. pose proof Hacc as [Hr Hdir Hg _]. pose proof Hr as [Hy Hu Ht Hj Hru Hrm].
  pose proof Ht as (Hlk & _). unfold Rollback, rollbackWithRecord. apply wp_bind, wp_bind, wp_ret.
  destruct (String.eqb_spec (m_packsDir (h_own h)) ""); [done|].
  apply wp_bind. eapply wp_mono; [by apply wp_Recover_none|]. intros [[]|e|q] h1 (Ha1 & Hc1 & Hd1); [|by destruct Hc1 as [_ []]|done].
  apply wp_bind. eapply wp_mono; [apply (succeeds_rollback_record s rec); [by rewrite Hd1|done]|].
  intros [r|e|q] h2; [|done..]. intros [Ha2 [-> Hd2]].
  assert (rr_Filename rec <>s "" = true) as ->.
  { unfold good_name in Hg. rewrite !andb_true_iff in Hg. tauto. }
  assert (h_disk h2 = h_disk h) as Hd by congruence.
  assert (h_own h2 = h_own h) as Ho by by rewrite (ad_own _ _ Ha2), (ad_own _ _ Ha1).
  assert (accepted (rr_Filename rec) None h2) as Hacc2.
  { destruct Hacc as [? ? ? ?]. by split; rewrite ?Hd, ?Ho. }
  rewrite <- Hd in Hrb, Hr.
  pose proof (live_rollback_files rec d2 h2 Hacc2 Hun Hrb Hl) as Hret.
  pose proof (attempts_rollback_files no_failure_fail_stop _ rec h2 h2 eq_refl Hun Hr eq_refl) as Hat.
  unfold returns, attempts, wp in *. destruct (rollback_files rec h2) as [[[]|e|q] h3]; [|done..].
  destruct Hat as (snap & rr & d & HN & _ & _ & _ & He & Hp & Hown). rewrite Hrb in HN. injection HN as ->.
  split; [done|]. split; [by apply He|]. exists snap. by rewrite Hown.
Qed.
End live.
