(* ===== verification/PackSamples.v ===== *)
(** * A concrete pack store, for the instances of the theorems

    Records are written as lists of terminated fields, manifests in binary through a
    numbering of them; a pack file is the name and the version of a pack. *)

From stdpp Require Import strings countable.
From S2P Require Import Prelude GoStrings GoNum GoIO GoTime Model Decoder Pack Snapshot.
From S2P Require Export Monad Disk DiskSpec PackStore PackJournal PackCrash PackOps PackLive.

#[local] Open Scope monad_scope.

(** ** Fields *)

Fixpoint enc_field (s : string) : string :=
  match s with "" => ";" | String c s' => String "x" (String c (enc_field s')) end.
Definition enc_fields (l : list string) : string := foldr (λ s t, enc_field s +:+ t) "." l.

Fixpoint dec_fields (cur : string) (s : string) : list string :=
  match s with
  | String ";" s' => cur :: dec_fields "" s'
  | String "x" (String c s') => dec_fields (cur +:+ chr c) s'
  | _ => []
  end.

Lemma dec_enc_field s cur t : dec_fields cur (enc_field s +:+ t) = (cur +:+ s) :: dec_fields "" t.
Proof.
  revert cur. induction s as [|c s IH]; intros cur; cbn [enc_field String.append].
  - cbn [dec_fields]. by rewrite app_nil_r_str.
  - cbn [dec_fields]. by rewrite IH, app_assoc_str.
Qed.
Lemma dec_enc_fields l : dec_fields "" (enc_fields l) = l.
Proof. induction l as [|s l IH]; [done|]. simpl. by rewrite dec_enc_field, IH. Qed.

Definition enc_bool (b : bool) : string := if b then "1" else "0".
Lemma dec_enc_bool b : (enc_bool b =s "1") = b.
Proof. by destruct b. Qed.

Definition rollback_fields (r : rollbackRecord) : list string :=
  [rr_Filename r; enc_bool (rr_Existed r); rr_Content r; rr_Name r; rr_Manifest r].
Definition transaction_fields (r : transactionRecord) : list string :=
  rollback_fields (tr_Before r) ++ rollback_fields (tr_Undo r)
  ++ [tr_PriorUndo r; tr_PriorManifest r; tr_NextManifest r; enc_bool (tr_Committed r)].

Definition rollback_of (l : list string) : option (rollbackRecord * list string) :=
  match l with
  | f :: e :: c :: n :: m :: l' =>
      Some ({| rr_Filename := f; rr_Existed := e =s "1"; rr_Content := c; rr_Name := n; rr_Manifest := m |}, l')
  | _ => None
  end.
Definition transaction_of (l : list string) : option transactionRecord :=
  match rollback_of l with
  | Some (before, l) =>
      match rollback_of l with
      | Some (undo, [u; m; n; c]) =>
          Some {| tr_Before := before; tr_Undo := undo; tr_PriorUndo := u; tr_PriorManifest := m;
                  tr_NextManifest := n; tr_Committed := c =s "1" |}
      | _ => None
      end
  | None => None
  end.

Lemma rollback_fields_of r l : rollback_of (rollback_fields r ++ l) = Some (r, l).
Proof. destruct r as [f e c n m]. simpl. by rewrite dec_enc_bool. Qed.
Lemma transaction_fields_of r : transaction_of (transaction_fields r) = Some r.
Proof.
  unfold transaction_of, transaction_fields. rewrite !rollback_fields_of. destruct r. simpl. by rewrite dec_enc_bool.
Qed.

(** ** Manifests *)

#[local] Instance install_eq_dec : EqDecision PackInstall. Proof. solve_decision. Defined.
#[local] Instance revision_eq_dec : EqDecision PackRevision. Proof. solve_decision. Defined.
#[local] Instance manifest_eq_dec : EqDecision PackManifest. Proof. solve_decision. Defined.
#[local] Instance install_countable : Countable PackInstall.
Proof.
  refine (inj_countable' (λ i, (pi_Name i, pi_Filename i, pi_Version i, pi_Digest i, pi_Origin i, pi_Pinned i))
    (λ '(n, f, v, d, o, p), {| pi_Name := n; pi_Filename := f; pi_Version := v; pi_Digest := d; pi_Origin := o;
                               pi_Pinned := p |}) _). by intros [].
Defined.
#[local] Instance revision_countable : Countable PackRevision.
Proof.
  refine (inj_countable' (λ r, (pr_Filename r, pr_Existed r, pr_Content r, pr_Previous r))
    (λ '(f, e, c, p), {| pr_Filename := f; pr_Existed := e; pr_Content := c; pr_Previous := p |}) _). by intros [].
Defined.
#[local] Instance manifest_countable : Countable PackManifest.
Proof.
  refine (inj_countable' (λ m, (pm_Version m, Entries m, History m))
    (λ '(v, e, h), {| pm_Version := v; Entries := e; History := h |}) _). by intros [].
Defined.

Fixpoint bits (p : positive) : string :=
  match p with xH => "1" | xO q => String "0" (bits q) | xI q => String "2" (bits q) end.
Fixpoint of_bits (s : string) : option positive :=
  match s with
  | "1" => Some 1%positive
  | String "0" s' => xO <$> of_bits s'
  | String "2" s' => xI <$> of_bits s'
  | _ => None
  end.
Lemma of_bits_bits p : of_bits (bits p) = Some p.
Proof. induction p as [p IH|p IH|]; simpl; rewrite ?IH; [by destruct (bits p)..|done]. Qed.

(** ** The codec *)

Definition sample_pack (name version : string) : ParserPack := {|
  APIVersion := "worm.io/v1"; Kind := "LogSource";
  Metadata := {| mName := name; mVersion := version; Description := ""; Author := "" |};
  Spec := {| sSourceCategory := "other"; sFormat := "*";
             sMatch := {| mContains := name; mRegex := ""; mFieldEquals := ∅ |};
             sDecode := None; sFields := ∅; sMap := ∅; PreserveUnmapped := true; Fixtures := [] |};
  compiledRegex := None |}.

Definition sample_yaml (content : string) : res ParserPack :=
  match Split content "@" with
  | [name; version] => if utf8_Valid name then Ok (sample_pack name version) else Err (errors_New "invalid UTF-8")
  | _ => Err (errors_New "not a pack")
  end.

#[export] Instance sample_codec : PackCodec := {|
  yaml_Decode := sample_yaml;
  regexp_Compile := λ _, Err (errors_New "no expressions");
  sha256_hex := λ s, "sha256:" +:+ s;
  Marshal_rollback := λ r, Ok (enc_fields (rollback_fields r));
  Unmarshal_rollback := λ s, fst <$> rollback_of (dec_fields "" s);
  Marshal_transaction := λ r, Ok (enc_fields (transaction_fields r));
  Unmarshal_transaction := λ s, transaction_of (dec_fields "" s);
  MarshalIndent_manifest := λ m, Ok (bits (encode m));
  Unmarshal_manifest := λ _ s, p ← of_bits s; decode p |}.

Lemma enc_fields_nonempty s l : enc_fields (s :: l) ≠ "".
Proof. by destruct s. Qed.

#[export] Instance sample_laws : CodecLaws.
Proof.
  split.
  - intros r _. eexists. split; [done|]. split; [apply enc_fields_nonempty|]. cbn -[enc_fields dec_fields].
    rewrite dec_enc_fields. pose proof (rollback_fields_of r []) as E. rewrite app_nil_r in E. by rewrite E.
  - intros r _ _. eexists. split; [done|]. split; [apply enc_fields_nonempty|]. cbn -[enc_fields dec_fields transaction_of].
    rewrite dec_enc_fields. apply transaction_fields_of.
  - intros m s [= <-]. by destruct (encode m).
  - intros content pack. simpl. unfold sample_yaml. destruct (Split content "@") as [|n [|v [|]]]; try done.
    destruct (utf8_Valid n) eqn:E; [|done]. by intros [= <-].
Qed.

(** ** File systems, and a directory with one pack *)

(** The temporary name is a digit longer than every name of the directory. *)
Definition longer (m : gmap string entry) : string :=
  of_bytes (replicate (S (foldr Nat.max 0%nat (String.length <$> (map_to_list m).*1))) "0"%char).

Lemma max_list_le l n : n ∈ l → (n ≤ foldr Nat.max 0%nat l)%nat.
Proof. induction l as [|k l IH]; [by intros ?%elem_of_nil|]. intros [->|Hn%IH]%elem_of_cons; simpl; lia. Qed.

Lemma length_of_bytes l : String.length (of_bytes l) = length l.
Proof. induction l as [|c l IH]; [done|]. simpl. by rewrite IH. Qed.

Lemma longer_digits m : all_bytes is_digit (longer m) = true.
Proof. unfold longer. induction (S _) as [|n IH]; [done|]. by simpl. Qed.
Lemma longer_fresh m : m !! (".worm-tmp-" +:+ longer m) = None.
Proof.
  apply eq_None_not_Some. intros [e He]. apply elem_of_map_to_list in He.
  assert (String.length (".worm-tmp-" +:+ longer m) ∈ String.length <$> (map_to_list m).*1) as Hle%max_list_le
    by by apply list_elem_of_fmap_2, (list_elem_of_fmap_2 fst _ _ He).
  unfold longer in Hle at 1. simpl in Hle. rewrite length_of_bytes, length_replicate in Hle. lia.
Qed.

Definition sample_fs (fault : nat → outcome) : FsEnv := {|
  fs_fault := fault; fs_clock n := Z.of_nat n; temp_suffix := longer;
  temp_digits := longer_digits; temp_fresh := longer_fresh |}.

Definition working : FsEnv := sample_fs (λ _, Works).
(** The process stops in the middle of its [n]-th call. *)
Definition stops_at (n : nat) : FsEnv :=
  sample_fs (λ k, if (k <? n)%nat then Works else if (k =? n)%nat then Reported else Refused).

Lemma working_no_failure : @no_failure working.
Proof. by intros k. Qed.
Lemma stops_fail_stop n : @fail_stop (stops_at n).
Proof.
  intros k Hk j Hj. simpl in *. destruct (Nat.ltb_spec k n); [done|].
  destruct (Nat.ltb_spec j n); [lia|]. destruct (Nat.eqb_spec j n); [lia|done].
Qed.

Definition sample_disk : Disk := {|
  d_packs := {["one.yaml" := EFile "one@1.0.0"]}; d_meta := ∅; d_root_link := false; d_meta_link := false |}.
Definition sample_host : Host Manager := {|
  h_disk := sample_disk;
  h_own := {| m_active := None; m_previous := None; m_packsDir := "packs"; m_backupFile := "";
              m_backupContent := None; m_addedFile := "" |};
  h_calls := 0; h_ticks := 0 |}.

Lemma sample_ready f : is_yaml f = true → utf8_Valid f = true → ready f sample_disk.
Proof.
  intros Hy Hu. split; try done. split; [done|]. split_and!; try done.
  unfold plain, at_path, pack_path, sample_disk. simpl.
  destruct (decide (f = "one.yaml")) as [->|]; [done|]. by rewrite lookup_singleton_ne.
Qed.
