(* ===== verification/PackSafety.v ===== *)
(** * The pack store survives crashes: theorems, and a concrete store *)

From S2P Require Import Prelude GoStrings GoNum GoIO GoTime Model Decoder Pack Snapshot.
From S2P Require Export Monad Disk DiskSpec PackStore PackJournal PackCrash PackOps PackLive PackSamples.

#[local] Open Scope monad_scope.

(** A restart that runs the recovery, and may itself stop at any point. *)
Definition restart `{PackCodec} (d d' : Disk) : Prop :=
  ∃ (env : FsEnv) (h : Host Manager), fail_stop ∧ h_disk h = d ∧ h_disk (RecoverTransactions h).2 = d'.

(** Wherever it is restarted from, and however often the recovery is interrupted, a
    recovery that is not interrupted ends in one of the disks of [P]. *)
Definition recovers_to `{PackCodec} (d : Disk) (P : Disk → Prop) : Prop :=
  ∀ d' (env : FsEnv) (h : Host Manager), rtc restart d d' → no_failure → h_disk h = d' →
    ∃ h', RecoverTransactions h = (Ok (), h') ∧ P (h_disk h').

Section safety.
Context `{PackCodec} `{!CodecLaws} (f : string) (d0 : Disk) (New : Disk → Prop).
Context (Hready : ready f d0).

Lemma safe_restart d d' : safe f d0 New d → restart d d' → safe f d0 New d'.
Proof.
  intros (d1 & Hd1 & Ht & Hj) (env & h & Hfs & <- & <-). pose proof (rd_yaml _ _ Hready) as Hy.
  pose proof (wp_RecoverTransactions f d0 d1 Hy (rd_journal _ _ Hready) Ht h Hj) as Hw.
  unfold wp in Hw. destruct (RecoverTransactions h) as [x h']. destruct Hw as (_ & _ & Hx).
  exists d1. split; [done|]. split; [done|]. simpl.
  destruct x; [destruct Hx as [? [?|?]]; [by apply j_before|by apply j_after]|done..].
Qed.

Lemma safe_recovers d : safe f d0 New d → recovers_to d (λ d', d' ≡ d0 ∨ ∃ d1, New d1 ∧ d' ≡ d1).
Proof.
  intros Hs d' env h Hsteps Hn <-. assert (safe f d0 New (h_disk h)) as (d1 & Hd1 & Ht & Hj).
  { remember (h_disk h) as dh eqn:E. clear E. revert Hs. induction Hsteps; [done|]. intros Hs. by eapply IHHsteps, safe_restart. }
  pose proof (wp_RecoverTransactions f d0 d1 (rd_yaml _ _ Hready) (rd_journal _ _ Hready) Ht h Hj) as Hw.
  unfold wp in Hw. destruct (RecoverTransactions h) as [x h'] eqn:E. destruct Hw as (_ & Hc & Hx).
  destruct x as [[]|e|q]; [|by destruct Hc as [_ []]|done]. exists h'. split; [done|].
  destruct Hx as [_ [Hx|Hx]]; [by left|]. destruct Hd1 as [->|Hd1]; [by left|right; eauto].
Qed.

(** What an operation that [attempts] a change promises. *)
Lemma attempts_recovers `{FsEnv} {A} (m : Prog (Host Manager) A) mgr h :
  attempts f d0 New m (λ _ h', ∃ snap, succeeded f New mgr snap h') h →
  recovers_to (h_disk (m h).2) (λ d', d' ≡ d0 ∨ ∃ d1, New d1 ∧ d' ≡ d1).
Proof.
  intros Ha. apply safe_recovers. unfold attempts, wp in Ha. destruct (m h) as [x h']. simpl.
  destruct x as [a|e|q]; [|by destruct Ha as (_ & Hs & _)..].
  destruct Ha as (snap & r & d1 & HN & Ht & Hf & Hc & _).
  by apply (complete_safe f d0 New r d1).
Qed.
End safety.

Lemma no_failure_alive `{FsEnv} (Hnf : no_failure) (h : Host Manager) : ¬ dead h.
Proof. intros Hd. specialize (Hd (h_calls h) (le_n _)). rewrite Hnf in Hd. done. Qed.

(** ** Properties *)

(** C7: installing a pack is atomic: wherever the process stops during the installation,
    and however often the recovery is interrupted as well, the recovery that completes
    leaves the directory either as it was, or with the pack installed, its rollback
    record and its manifest entry written; and no journal. *)
Theorem ApplyPackFile_crash_atomic (env : FsEnv) (codec : PackCodec) (f content origin : string) (pinned : bool)
    (expected : option PackFileExpectation) (h : Host Manager) :
  CodecLaws → fail_stop → ready f (h_disk h) →
  recovers_to (h_disk (ApplyPackFileWithState f content expected origin pinned h).2)
    (λ d, d ≡ h_disk h ∨ ∃ d1, installed f content origin pinned (h_disk h) = Ok d1 ∧ d ≡ d1).
Proof.
  intros Hlaws Hfs Hr. eapply attempts_recovers; [done|]. eapply wp_mono; [by apply attempts_Apply|].
  intros [snap|e|q] h' Hx; [by exists snap|done..].
Qed.

(** Removing a pack is atomic in the same sense. *)
Theorem RemovePackFile_crash_atomic (env : FsEnv) (codec : PackCodec) (f : string)
    (expected : option PackFileExpectation) (h : Host Manager) :
  CodecLaws → fail_stop → ready f (h_disk h) →
  recovers_to (h_disk (RemovePackFileExpected f expected h).2)
    (λ d, d ≡ h_disk h ∨ ∃ d1, removed f (h_disk h) = Ok d1 ∧ d ≡ d1).
Proof.
  intros Hlaws Hfs Hr. eapply attempts_recovers; [done|]. eapply wp_mono; [by apply attempts_Remove|].
  intros [snap|e|q] h' Hx; [by exists snap|done..].
Qed.

(** Rolling back a change is atomic in the same sense. *)
Theorem rollback_crash_atomic (env : FsEnv) (codec : PackCodec) (rec : rollbackRecord) (h : Host Manager) :
  CodecLaws → fail_stop → utf8_Valid (rr_Name rec) = true → ready (rr_Filename rec) (h_disk h) →
  recovers_to (h_disk (rollback_files rec h).2)
    (λ d, d ≡ h_disk h ∨ ∃ d1, rolled_back rec (h_disk h) = Ok d1 ∧ d ≡ d1).
Proof.
  intros Hlaws Hfs Hn Hr. eapply attempts_recovers; [done|].
  by apply (attempts_rollback_files Hfs (rr_Filename rec) rec h h).
Qed.

(** C8: without failures an installation does all it promises, or nothing: on success the
    directory is the installed one and the active snapshot holds exactly its packs,
    the previous one being kept for a rollback; on an error (an invalid pack, a
    conflict, a directory that would not load) disk and snapshots are as before; a panic
    of the YAML decoder changes no snapshot. *)
Theorem ApplyPackFile_all_or_nothing (env : FsEnv) (codec : PackCodec) (f content origin : string) (pinned : bool)
    (expected : option PackFileExpectation) (h h' : Host Manager) (x : res Snapshot) :
  CodecLaws → no_failure → ready f (h_disk h) →
  ApplyPackFileWithState f content expected origin pinned h = (x, h') →
  match x with
  | Ok snap => ∃ d1, installed f content origin pinned (h_disk h) = Ok d1 ∧ h_disk h' ≡ d1
                 ∧ dir_packs d1 = Ok (ListPacks snap) ∧ m_active (h_own h') = Some snap
                 ∧ m_previous (h_own h') = m_active (h_own h)
  | Err _ => h_disk h' ≡ h_disk h ∧ h_own h' = h_own h
  | Panic _ => h_own h' = h_own h
  end.
Proof.
  intros Hlaws Hnf Hr Hrun. pose proof (no_failure_fail_stop Hnf) as Hfs.
  pose proof (wp_elim _ _ _ _ _ (attempts_Apply Hfs f content expected origin pinned h Hr) Hrun) as Ha.
  destruct x as [snap|e|q]; [| |by destruct Ha as ([] & _)].
  - destruct Ha as (r & d1 & HN & _ & _ & _ & Hd & Hp & Ho). exists d1. rewrite Ho. split_and!; auto.
  - destruct Ha as (Ha & _ & Hx). split; [|apply Ha]. destruct Hx as [Hx|Hx]; [by apply no_failure_alive in Hx|done].
Qed.

(** C9: an installation succeeds whenever it can: with a configured directory, an acceptable
    and unchanged file name, a pack that validates, and a directory that loads with it,
    and without failures of the file system, a snapshot is returned. *)
Theorem ApplyPackFile_succeeds (env : FsEnv) (codec : PackCodec) (f content origin : string) (pinned : bool)
    (expected : option PackFileExpectation) (h : Host Manager) (d1 : Disk) :
  CodecLaws → no_failure → accepted f expected h →
  installed f content origin pinned (h_disk h) = Ok d1 → loads d1 →
  ∃ snap h', ApplyPackFileWithState f content expected origin pinned h = (Ok snap, h').
Proof.
  intros Hlaws Hnf Hacc Hi Hl. pose proof (live_Apply Hnf f content expected origin pinned d1 h Hacc Hi Hl) as Hret.
  unfold returns, wp in Hret. destruct (ApplyPackFileWithState _ _ _ _ _ h) as [[snap|e|q] h']; [by exists snap, h'|done..].
Qed.

(** C10: a rollback undoes an installation: it succeeds, the packs directory and the
    manifest are again what they were (only the rollback record differs, so that the
    rollback can be undone in turn), and the active snapshot holds the packs of the
    directory before the installation. *)
Theorem Rollback_undoes_ApplyPackFile (env : FsEnv) (codec : PackCodec) (f content origin : string) (pinned : bool)
    (expected : option PackFileExpectation) (h h1 : Host Manager) (snap : Snapshot) :
  CodecLaws → no_failure → accepted f expected h → loads (h_disk h) →
  ApplyPackFileWithState f content expected origin pinned h = (Ok snap, h1) →
  ∃ h2 old, Rollback h1 = (Ok (), h2) ∧ agree [rollbackPath] (h_disk h2) (h_disk h)
    ∧ m_active (h_own h2) = Some old ∧ dir_packs (h_disk h) = Ok (ListPacks old).
Proof.
  intros Hlaws Hnf [Hr Hdir Hg _] Hl Hrun. pose proof (no_failure_fail_stop Hnf) as Hfs. pose proof (rd_yaml _ _ Hr) as Hy.
  pose proof (wp_elim _ _ _ _ _ (attempts_Apply Hfs f content expected origin pinned h Hr) Hrun)
    as (r & d1 & HN & _ & _ & _ & Hd & _ & Hown). specialize (Hd Hnf). symmetry in Hd.
  destruct (rolled_back_installed Hnf f content origin pinned _ _ Hr HN) as (rec & s & d2 & Hf & Hun & Hat & Hdec & Hrb & Hag).
  rewrite <- Hf in Hy. destruct (rolled_back_equiv rec d1 (h_disk h1) d2 Hy Hd Hrb) as (d2' & Hrb' & He).
  rewrite (at_equiv _ _ _ Hd) in Hat by done. symmetry in He. apply (agree_equiv _ _ _ _ He) in Hag.
  assert (∀ p, p ∈ [rollbackPath] → p.1 = Meta) as Hmeta by by intros p ->%list_elem_of_singleton.
  assert (accepted (rr_Filename rec) None h1) as Hacc.
  { rewrite Hf. split; [|by rewrite Hown|done..]. eapply ready_equiv; [done|]. by eapply installed_ready. }
  pose proof (live_Rollback Hnf s rec d2' h1 Hat Hdec Hacc Hun Hrb'
    (loads_agree _ _ _ Hmeta (agree_symm _ _ _ Hag) Hl)) as Hw.
  unfold wp in Hw. destruct (Rollback h1) as [[[]|e|q] h2]; [|by destruct Hw..].
  destruct Hw as (_ & Hd2 & old & Hact & Hpk). exists h2, old.
  split; [done|]. split; [by eapply agree_equiv|]. split; [done|]. by rewrite <- (dir_packs_agree _ _ _ Hmeta Hag).
Qed.

(** ** Instances *)

(** The directory of [sample_host] with the pack two installed as well. *)
Definition install_two (env : FsEnv) : res Snapshot * Host Manager :=
  ApplyPackFileWithState "two.yaml" "two@2.0.0" None "custom" false sample_host.

Lemma sample_accepted : accepted "two.yaml" None sample_host.
Proof. by split; [apply sample_ready|..]. Qed.
Lemma sample_loads : loads sample_disk.
Proof. exists [sample_pack "one" "1.0.0"]. by split; [vm_compute|apply NoDup_singleton]. Qed.

(** Stopped after the change of the file, with the journal on disk. *)
Lemma ApplyPackFile_crash_atomic_witness :
  at_path (pack_path "two.yaml") (h_disk (install_two (stops_at 35)).2) = Some (EFile "two@2.0.0")
  ∧ at_path manifestPath (h_disk (install_two (stops_at 35)).2) = None
  ∧ recovers_to (h_disk (install_two (stops_at 35)).2)
      (λ d, d ≡ sample_disk ∨ ∃ d1, installed "two.yaml" "two@2.0.0" "custom" false sample_disk = Ok d1 ∧ d ≡ d1).
Proof.
  split; [by vm_compute|]. split; [by vm_compute|].
  apply (ApplyPackFile_crash_atomic (stops_at 35) sample_codec "two.yaml" "two@2.0.0" "custom" false None sample_host
    sample_laws (stops_fail_stop 35)). by apply sample_ready.
Defined.

Lemma RemovePackFile_crash_atomic_witness :
  let d := h_disk (@RemovePackFileExpected (stops_at 30) sample_codec "one.yaml" None sample_host).2 in
  at_path (pack_path "one.yaml") d = None
  ∧ recovers_to d (λ d, d ≡ sample_disk ∨ ∃ d1, removed "one.yaml" sample_disk = Ok d1 ∧ d ≡ d1).
Proof.
  split; [by vm_compute|].
  apply (RemovePackFile_crash_atomic (stops_at 30) sample_codec "one.yaml" None sample_host sample_laws (stops_fail_stop 30)).
  by apply sample_ready.
Defined.

Definition sample_record : rollbackRecord :=
  {| rr_Filename := "one.yaml"; rr_Existed := true; rr_Content := "one@0.9.0"; rr_Name := "one"; rr_Manifest := "" |}.

Lemma rollback_crash_atomic_witness :
  let d := h_disk (@rollback_files (stops_at 35) sample_codec sample_record sample_host).2 in
  at_path (pack_path "one.yaml") d = Some (EFile "one@0.9.0") ∧ at_path rollbackPath d = None
  ∧ recovers_to d (λ d, d ≡ sample_disk ∨ ∃ d1, rolled_back sample_record sample_disk = Ok d1 ∧ d ≡ d1).
Proof.
  split; [by vm_compute|]. split; [by vm_compute|].
  apply (rollback_crash_atomic (stops_at 35) sample_codec sample_record sample_host sample_laws (stops_fail_stop 35));
    [done|by apply sample_ready].
Defined.

Lemma ApplyPackFile_all_or_nothing_witness :
  is_ok (install_two working).1 = true
  ∧ match (install_two working).1 with
    | Ok snap => ∃ d1, installed "two.yaml" "two@2.0.0" "custom" false sample_disk = Ok d1
        ∧ h_disk (install_two working).2 ≡ d1 ∧ dir_packs d1 = Ok (ListPacks snap)
        ∧ m_active (h_own (install_two working).2) = Some snap ∧ m_previous (h_own (install_two working).2) = None
    | Err _ => h_disk (install_two working).2 ≡ sample_disk ∧ h_own (install_two working).2 = h_own sample_host
    | Panic _ => h_own (install_two working).2 = h_own sample_host
    end.
Proof.
  split; [by vm_compute|].
  apply (ApplyPackFile_all_or_nothing working sample_codec "two.yaml" "two@2.0.0" "custom" false None sample_host
    (install_two working).2 (install_two working).1 sample_laws working_no_failure);
    [by apply sample_ready|apply surjective_pairing].
Defined.

(** The installed directory, by computation. *)
Definition two_installed : Disk :=
  match installed "two.yaml" "two@2.0.0" "custom" false sample_disk with Ok d => d | _ => sample_disk end.
Lemma two_installed_ok : installed "two.yaml" "two@2.0.0" "custom" false sample_disk = Ok two_installed.
Proof.
  assert (is_ok (installed "two.yaml" "two@2.0.0" "custom" false sample_disk) = true) as E by (vm_compute; reflexivity).
  unfold two_installed. destruct (installed _ _ _ _ _); [reflexivity|discriminate E..].
Qed.
Lemma two_installed_loads : loads two_installed.
Proof.
  exists [sample_pack "one" "1.0.0"; sample_pack "two" "2.0.0"]. split; [by vm_compute|].
  apply (bool_decide_unpack _). by vm_compute.
Qed.

Lemma ApplyPackFile_succeeds_witness : ∃ snap h', install_two working = (Ok snap, h').
Proof.
  apply (ApplyPackFile_succeeds working sample_codec "two.yaml" "two@2.0.0" "custom" false None sample_host two_installed
    sample_laws working_no_failure sample_accepted two_installed_ok two_installed_loads).
Defined.

Lemma Rollback_undoes_ApplyPackFile_witness :
  is_ok (install_two working).1 = true
  ∧ match install_two working with
    | (Ok snap, h1) =>
        ∃ h2 old, @Rollback working sample_codec h1 = (Ok (), h2) ∧ agree [rollbackPath] (h_disk h2) sample_disk
          ∧ m_active (h_own h2) = Some old ∧ dir_packs sample_disk = Ok (ListPacks old)
    | _ => True
    end.
Proof.
  split; [by vm_compute|]. destruct (install_two working) as [[snap|e|p] h1] eqn:E; [|exact I..].
  apply (Rollback_undoes_ApplyPackFile working sample_codec "two.yaml" "two@2.0.0" "custom" false None sample_host h1 snap
    sample_laws working_no_failure sample_accepted sample_loads E).
Defined.

(** When the rollback record cannot be written after the commit of the journal, the
    installation restores the old file while the journal still says committed; if the
    process stops there, recovery finishes the installation without its file. *)
Definition two_failures : FsEnv :=
  sample_fs (λ k, if (k =? 47)%nat then Refused else if (k <? 55)%nat then Works else Refused).

Lemma abort_after_commit_mixes :
  let d := h_disk (@RecoverTransactions working sample_codec (install_two two_failures).2).2 in
  at_path (pack_path "two.yaml") d = None ∧ at_path transactionPath d = None ∧ bytes_at manifestPath d <>s "" = true.
Proof. by vm_compute. Qed.
