(* ===== verification/Ingest.v ===== *)
(** * [internal/ingest]: what the adapters share

    An adapter reads records from its transport and sends them on a channel whose other
    end is the pipeline; where delivery must be durable it waits for the acknowledgement
    of each record before it goes on.  The pipeline is a [Receiver] here: what it
    promises about an acknowledged record is the class [DurableReceiver], against which
    the adapters are proved, and which the second part shows of the real one.

    A cancelled context is never seen as live again; a [select] between a channel that is
    ready and a cancelled context may take either branch. *)

From S2P Require Import Prelude GoStrings GoNum GoIO GoTime Model.
From S2P Require Export Monad.
From S2P Require Import Decoder Registry Pack Snapshot Extract Normalize World RawStore StoreSpec Outbox Pipeline Accounting.

#[local] Open Scope monad_scope.

Class IngestEnv := {
  ctx_done : nat → bool;                           (* is the context cancelled at this instant? *)
  prefers_done : nat → bool;                       (* does a select then notice it? *)
  ctx_monotone i j : (i ≤ j)%nat → ctx_done i = true → ctx_done j = true;
  in_clock : nat → time;
}.

(** The pipeline: it takes a record and acknowledges it, or refuses it with an error. *)
Class Receiver (W : Type) := receive : IngestedRecord → W → res unit * W.

(** What the pipeline promises: an acknowledged record is durable, and stays so. *)
Class DurableReceiver (W : Type) `{Receiver W} := {
  durable : IngestedRecord → W → Prop;
  receive_durable rec w w' : receive rec w = (Ok (), w') → durable rec w';
  receive_keeps rec w x : durable x w → durable x (receive rec w).2;
}.

Record Feed (W X : Type) := {
  fd_sink : W;                          (* the pipeline *)
  fd_own : X;                           (* the adapter's own state *)
  fd_sent : list IngestedRecord;        (* the records sent so far *)
  fd_tick : nat;
}.
#[global] Arguments fd_sink {W X}. #[global] Arguments fd_own {W X}.
#[global] Arguments fd_sent {W X}. #[global] Arguments fd_tick {W X}.

Definition ctx_canceled : error := errors_New "context canceled".

Section port.
Context `{IngestEnv} `{Receiver W} {X : Type}.

Abbreviation P := (Prog (Feed W X)).

Definition tick : P nat := λ w,
  (Ok (fd_tick w), {| fd_sink := fd_sink w; fd_own := fd_own w; fd_sent := fd_sent w; fd_tick := S (fd_tick w) |}).
Definition feed_own : P X := λ w, (Ok (fd_own w), w).
Definition set_feed_own (x : X) : P unit := λ w,
  (Ok (), {| fd_sink := fd_sink w; fd_own := x; fd_sent := fd_sent w; fd_tick := fd_tick w |}).
Definition feed_Now : P time := t <- tick ;; ret (in_clock t).

(** [select { case <-ctx.Done(): return; default: }] *)
Definition poll_ctx : P bool := t <- tick ;; ret (ctx_done t).
(** [case <-ctx.Done()] beside a channel that is ready. *)
Definition select_ctx : P bool := t <- tick ;; ret (ctx_done t && prefers_done t).

(** The record goes through the channel; the result is its acknowledgement. *)
Definition deliver (rec : IngestedRecord) : P (res unit) := λ w,
  let '(r, s) := receive rec (fd_sink w) in
  let w' := {| fd_sink := s; fd_own := fd_own w; fd_sent := fd_sent w ++ [rec]; fd_tick := fd_tick w |} in
  match r with Panic p => (Panic p, w') | r => (Ok r, w') end.

(** Send, then wait for the acknowledgement; [wrap] is the caller's error for a refusal. *)
Definition submit (wrap : error → error) (rec : IngestedRecord) : P unit :=
  c <- select_ctx ;;
  if c then fail ctx_canceled
  else
    ack <- deliver rec ;;
    c <- select_ctx ;;
    if c then fail ctx_canceled else mcall (wrap_err wrap ack).

(** Send only. *)
Definition post (rec : IngestedRecord) : P unit :=
  c <- select_ctx ;;
  if c then fail ctx_canceled else _ <- deliver rec ;; ret ().
End port.

(** ** What every run of an adapter keeps *)

Section grows.
Context `{IngestEnv} {W : Type} `{DurableReceiver W} {X : Type}.
Implicit Types (h : Feed W X).

(** Durable records stay durable, sent ones are only added to. *)
Record grows h h' : Prop := {
  gr_durable x : durable x (fd_sink h) → durable x (fd_sink h');
  gr_sent : fd_sent h `prefix_of` fd_sent h';
}.
#[export] Instance grows_preorder : PreOrder grows.
Proof.
  split; [by split|]. intros x y z [Hd Hs] [Hd' Hs']. split; [auto|by transitivity (fd_sent y)].
Qed.

(** ... and the adapter's own state is not touched. *)
Definition sends h h' : Prop := grows h h' ∧ fd_own h' = fd_own h.
#[export] Instance sends_preorder : PreOrder sends.
Proof.
  split; [by split|]. intros x y z [Hg Ho] [Hg' Ho']. split; [by transitivity y|congruence].
Qed.

Lemma sends_tick : keeps sends tick.
Proof. intros h. by split; [split|]. Qed.
Lemma sends_own : keeps sends feed_own.
Proof. intros h. by split. Qed.
Lemma sends_deliver rec : keeps sends (deliver rec).
Proof.
  intros h. unfold deliver. pose proof (receive_keeps rec (fd_sink h)) as Hk.
  destruct (receive rec (fd_sink h)) as [[[]|e|p] s]; (split; [split|]; [apply Hk|by apply prefix_app_r|done]).
Qed.
Lemma grows_set_own x : keeps grows (set_feed_own x).
Proof. intros h. by split. Qed.
Lemma grows_sends {A} (m : Prog (Feed W X) A) : keeps sends m → keeps grows m.
Proof. apply keeps_mono. by intros h h' [? _]. Qed.
End grows.
#[export] Hint Resolve sends_tick sends_own sends_deliver grows_set_own : worm.

Section port_lemmas.
Context `{IngestEnv} {W : Type} `{DurableReceiver W} {X : Type}.
Implicit Types (h : Feed W X).

Lemma sends_Now : keeps sends (feed_Now (X := X)).
Proof. unfold feed_Now. keeps_tac. Qed.
Lemma sends_poll_ctx : keeps sends (poll_ctx (X := X)).
Proof. unfold poll_ctx. keeps_tac. Qed.
Lemma sends_select_ctx : keeps sends (select_ctx (X := X)).
Proof. unfold select_ctx. keeps_tac. Qed.
#[local] Hint Resolve sends_Now sends_poll_ctx sends_select_ctx : worm.
Lemma sends_submit f rec : keeps sends (submit (X := X) f rec).
Proof. unfold submit. keeps_tac. Qed.
Lemma sends_post rec : keeps sends (post (X := X) rec).
Proof. unfold post. keeps_tac. Qed.

(** A record is sent at most once, and acknowledged only when durable. *)
Lemma wp_submit f rec h :
  wp (submit f rec) (λ r h', sends h h' ∧
    (fd_sent h' = fd_sent h ∧ r = Err ctx_canceled ∨ fd_sent h' = fd_sent h ++ [rec])
    ∧ (r = Ok () → fd_sent h' = fd_sent h ++ [rec] ∧ durable rec (fd_sink h'))) h.
Proof.
  apply (wp_keeps sends); [apply sends_submit|]. unfold submit, select_ctx.
  apply wp_bind, wp_bind. change (wp tick ?Q h) with (Q (Ok (fd_tick h)) (tick h).2). cbv beta iota.
  apply wp_ret. destruct (ctx_done _ && _).
  { apply wp_fail. intros Hs. split; [done|]. split; [by left|done]. }
  apply wp_bind. unfold deliver at 1. unfold wp at 1. cbn [fd_sink tick fst snd].
  destruct (receive rec (fd_sink h)) as [r s] eqn:E. cbn [fd_own fd_sent fd_tick].
  destruct r as [[]|e|p]; [| |intros Hs; split; [done|]; split; [by right|done]].
  - apply wp_bind, wp_bind. cbv beta. unfold wp. cbn. destruct (ctx_done _ && _); cbn.
    + intros Hs. split; [done|]. split; [by right|done].
    + intros Hs. split; [done|]. split; [by right|]. intros _. split; [done|]. by apply (receive_durable rec (fd_sink h)).
  - apply wp_bind, wp_bind. cbv beta. unfold wp. cbn. destruct (ctx_done _ && _); cbn;
      (intros Hs; split; [done|]; split; [by right|done]).
Qed.

Lemma wp_poll_ctx Q h : (∀ c h', sends h h' → fd_sent h' = fd_sent h → Q (Ok c) h') → wp poll_ctx Q h.
Proof.
  intros HQ. apply (wp_keeps sends); [apply sends_poll_ctx|]. unfold poll_ctx. apply wp_bind.
  unfold wp. cbn. intros Hs. by apply HQ.
Qed.
Lemma wp_feed_Now Q h : (∀ t h', sends h h' → fd_sent h' = fd_sent h → Q (Ok t) h') → wp feed_Now Q h.
Proof.
  intros HQ. apply (wp_keeps sends); [apply sends_Now|]. unfold feed_Now. apply wp_bind.
  unfold wp. cbn. intros Hs. by apply HQ.
Qed.
End port_lemmas.
#[export] Hint Resolve sends_Now sends_poll_ctx sends_select_ctx sends_submit sends_post : worm.

(** ** Concrete ones *)

(** A pipeline that keeps every record it is given. *)
Definition keeping : Receiver (list IngestedRecord) := λ rec w, (Ok (), w ++ [rec]).
#[refine] Definition keeping_durable : @DurableReceiver (list IngestedRecord) keeping :=
  {| durable rec w := rec ∈ w |}.
Proof.
  - intros rec w w' [= <-]. apply elem_of_app. right. by apply list_elem_of_here.
  - intros rec w x Hx. apply elem_of_app. by left.
Defined.

#[refine] Definition live_context : IngestEnv := {| ctx_done _ := false; prefers_done _ := false; in_clock t := Z.of_nat t |}.
Proof. done. Defined.

(** * The pipeline behind the adapters

    [ConnectIngest], [SubmitWait] and the workers as a [Receiver]: the record is counted,
    its raw row is stored, the outcome of that is its acknowledgement, and the record is
    processed.  The adapters' promise is met: an acknowledged record has a raw row, which
    no later run of the pipeline removes or alters but for its status. *)


(** ** Raw rows are kept *)

Definition raws_kept (w w' : World) : Prop :=
  ∀ row, row ∈ raws (w_db w) → ∃ st, set_status st row ∈ raws (w_db w').
Lemma set_status_id row : set_status (re_Status row) row = row.
Proof. by destruct row. Qed.
#[export] Instance raws_kept_preorder : PreOrder raws_kept.
Proof.
  split; [intros w row Hr; exists (re_Status row); by rewrite set_status_id|].
  intros x y z Hxy Hyz row Hr. destruct (Hxy row Hr) as [st Hy]. destruct (Hyz _ Hy) as [st' Hz]. by exists st'.
Qed.

Lemma raws_same w w' : raws (w_db w') = raws (w_db w) → raws_kept w w'.
Proof. intros E row Hr. exists (re_Status row). by rewrite set_status_id, E. Qed.

Lemma row_of_set_status `{Env} rec st row : row_of_record rec row → row_of_record rec (set_status st row).
Proof. done. Qed.
Lemma committed_kept `{Env} rec w w' : raws_kept w w' → committed rec (w_db w) → committed rec (w_db w').
Proof. intros Hk (row & Hr & Hrec). destruct (Hk row Hr) as [st Hst]. by exists (set_status st row). Qed.

Lemma raws_kept_update i st w w' : w_db w' = update_status i st (w_db w) → raws_kept w w'.
Proof.
  intros Hd row Hr. rewrite Hd. cbn. destruct (by_raw_id i row) eqn:E.
  - exists st. apply elem_update_where. exists row. by rewrite E.
  - exists (re_Status row). rewrite set_status_id. apply elem_update_where. exists row. by rewrite E.
Qed.

Section kept.
Context (fmt_float : f64 → string) `{GoPlatform} `{Env}.

Lemma rk_query {A} (f : Db → res A) : keeps raws_kept (query f).
Proof.
  apply keeps_wp. intros w. apply wp_query; [intros e w' _ Hd; by apply raws_same; rewrite Hd|].
  intros w' _ Hd. destruct (f (w_db w)); try done; by apply raws_same; rewrite Hd.
Qed.
Lemma rk_exec f : (∀ db db', f db = Ok db' → raws db' = raws db) → keeps raws_kept (exec f).
Proof.
  intros Hf. apply keeps_wp. intros w. apply wp_exec; [intros e w' _ Hd; by apply raws_same; rewrite Hd|].
  intros w' _. destruct (f (w_db w)) eqn:E; [|done|]; intros Hd; apply raws_same; rewrite Hd; [by apply Hf|done].
Qed.

#[export] Instance raws_pipeline_kept : PipelineKept fmt_float raws_kept.
Proof.
  split; [apply _|intros A f; apply rk_query|intros w; by apply raws_same|intros w; by apply raws_same|..].
  - intros A f w. unfold normalizer_step. destruct (f (w_norm w)). by apply raws_same.
  - intros d ev w. unfold emit. destruct (emit_fault _); by apply raws_same.
  - intros rec. apply keeps_wp. intros w. eapply wp_mono; [apply wp_Store|]. cbv beta. intros r w' (_ & _ & _ & Hr).
    destruct r as [raw|e|p]; [|by apply raws_same; rewrite Hr|done].
    destruct (re_Duplicate raw); destruct Hr as [Hd _]; [by apply raws_same; rewrite Hd|].
    intros row Hrow. exists (re_Status row). rewrite set_status_id, Hd. cbn. apply elem_of_app. by left.
  - intros i st. apply keeps_wp. intros w. eapply wp_mono; [apply wp_UpdateStatus|]. cbv beta.
    intros r w' (_ & [Hd|Hd] & _); [by apply raws_same; rewrite Hd|by apply (raws_kept_update i st)].
  - intros ev dests. apply keeps_wp. intros w. eapply wp_mono; [apply wp_StoreNormalizedWithOutbox|]. cbv beta.
    intros r w' (_ & Hr). apply raws_same. destruct r; [apply Hr|by rewrite Hr..].
  - intros i o. apply rk_exec. by intros db db' [= <-].
  - intros i. unfold MarkDelivered. apply keeps_bind; [apply _|intros w; by apply raws_same|]. intros t. apply rk_exec.
    by intros db db' [= <-].
  - intros i e b m. unfold MarkFailed. apply keeps_bind; [apply _|intros w; by apply raws_same|]. intros t. apply rk_exec.
    by intros db db' [= <-].
  - intros e. apply keeps_wp. intros w. unfold persistQuarantine. apply wp_bind, wp_try.
    eapply wp_mono; [apply wp_quarantine|]. cbv beta. intros r w' (_ & Hr).
    assert (raws_kept w w') as Hk.
    { apply raws_same. destruct r as [[]|err|p]; [|by rewrite Hr|done]. destruct Hr as (row & db1 & _ & Hu & ->).
      by apply upsert_quarantine_spec in Hu as [Hu _]. }
    by destruct r.
  - intros w. by apply raws_same.
  - intros d w. by apply raws_same.
  - intros f w. by apply raws_same.
Qed.
End kept.

(** ** The receiver *)

Section receiver.
Context (fmt_float : f64 → string) (time_Parse : string → string → option gtime) (currentYear : Z).
Context `{GoPlatform} `{MapOrder} `{Env} (cfg : Config).

(** [SubmitWait] counts the record, a worker takes it. *)
Definition accept (rec : IngestedRecord) : M (res unit) :=
  count_add (add_accepted 1) ;;; count_add (add_pending 1) ;;;
  r <- try (commit rec) ;;
  _ <- try (after_commit fmt_float time_Parse currentYear cfg rec r) ;;
  ret (match r with Ok _ => Ok () | Err e => Err e | Panic p => Panic p end).

Definition pipeline_receiver : Receiver World := λ rec w,
  match accept rec w with (Ok ack, w') => (ack, w') | (Err e, w') => (Err e, w') | (Panic p, w') => (Panic p, w') end.

Lemma rk_accept rec : keeps raws_kept (accept rec).
Proof.
  unfold accept. apply keeps_bind; [apply _|intros w; by apply raws_same|]. intros _.
  apply keeps_bind; [apply _|intros w; by apply raws_same|]. intros _.
  apply keeps_bind; [apply _|apply keeps_try; by apply (pk_commit fmt_float time_Parse currentYear cfg), _|]. intros r.
  apply keeps_bind; [apply _|apply keeps_try; by apply pk_after_commit, _|]. intros r'. by apply keeps_ret, _.
Qed.

(** A new record is acknowledged only when its raw row is in the table. *)
Lemma wp_accept rec w :
  ir_ExistingRawID rec = "" → wp (accept rec) (λ r w', r = Ok (Ok ()) → committed rec (w_db w')) w.
Proof.
  intros Hnew. unfold accept. apply wp_bind. change (wp (count_add ?f) ?Q w) with (Q (Ok ()) (count_add f w).2). cbv beta iota.
  apply wp_bind. change (wp (count_add ?f) ?Q ?x) with (Q (Ok ()) (count_add f x).2). cbv beta iota.
  apply wp_bind, wp_try. unfold commit. rewrite Hnew. cbn [negb String.eqb].
  eapply wp_mono; [apply wp_Store_committed|]. cbv beta. intros r w1 (_ & _ & _ & Hr & Hc).
  assert (∀ r', wp (bind (try (after_commit fmt_float time_Parse currentYear cfg rec r')) (λ _, ret match r' with
      Ok _ => Ok () | Err e => Err e | Panic p => Panic p end)) (λ r2 w2, r2 = Ok match r' with
      Ok _ => Ok () | Err e => Err e | Panic p => Panic p end → raws_kept w1 w2) w1) as Hrest.
  { intros r'. apply wp_bind, wp_try. eapply wp_mono; [apply keeps_wp; apply pk_after_commit, _|]. cbv beta.
    intros [] w2 Hk; [by apply wp_ret|by apply wp_ret|done]. }
  destruct r as [raw|e|p]; [|..|done].
  - eapply wp_mono; [apply (Hrest (Ok raw))|]. cbv beta. intros r2 w2 Hk ->. eapply committed_kept; [by apply Hk|].
    apply Hc. by exists raw.
  - apply wp_bind, wp_try. unfold wp at 1. by destruct (after_commit _ _ _ _ _ _ _) as [[] ?].
Qed.

Definition record_durable (rec : IngestedRecord) (w : World) : Prop :=
  ir_ExistingRawID rec = "" → committed rec (w_db w).

#[refine] Definition pipeline_durable : @DurableReceiver World pipeline_receiver := {| durable := record_durable |}.
Proof.
  - intros rec w w' E Hnew. pose proof (wp_accept rec w Hnew) as Hwp. unfold pipeline_receiver, receive in E.
    unfold wp in Hwp. destruct (accept rec w) as [[ack|e|p] w1]; simplify_eq. by apply Hwp.
  - intros rec w x Hx Hnew. pose proof (rk_accept rec w) as Hk. unfold receive, pipeline_receiver.
    destruct (accept rec w) as [[ack|e|p] w1]; cbn in *; by apply (committed_kept _ w), Hx.
Defined.
End receiver.
