(* ===== verification/Framing.v ===== *)
(** * [internal/ingest/syslog.go], [syslog_tls.go]: framing of syslog streams

    A stream is cut into messages by RFC 6587: octet counting when it continues with a
    digit from 1 to 9, lines otherwise.  A connection is the text it still delivers;
    both listeners cut it in the same way and differ in what they wait for. *)

From S2P Require Import Prelude GoStrings GoNum GoIO GoTime Model.
From S2P Require Export Monad Ingest.

#[local] Open Scope monad_scope.

Definition maxSyslogFrameBytes : Z := 10 * 1024 * 1024.

(** How a bounded read ends: with the delimiter, with the text, or with [errFrameTooLarge]. *)
Inductive frame_end := Complete | Torn | TooLarge.

(** The loop of [readBoundedFrame] over the slices of a 4096-byte buffer. *)
Fixpoint bounded_loop (fuel : nat) (delimiter : ascii) (max : Z) (frame s : string) : string * string * frame_end :=
  match fuel with
  | O => (frame, s, Torn)
  | S fuel' =>
      let '(part, rest, e) := ReadSlice default_size delimiter s in
      if max <? slen frame + slen part then ("", rest, TooLarge)
      else match e with
           | Found => (frame +:+ part, rest, Complete)
           | Ended => (frame +:+ part, rest, Torn)
           | BufferFull => bounded_loop fuel' delimiter max (frame +:+ part) rest
           end
  end.
Definition readBoundedFrame (delimiter : ascii) (max : Z) (s : string) : string * string * frame_end :=
  bounded_loop (S (String.length s)) delimiter max "" s.

(** What a pass of the loop over a connection does: it closes it, goes on, or has a message
    to send, the last one or not. *)
Inductive step := Close | Skip (rest : string) | Frame (payload rest : string) (last : bool).

Definition is_crlf (c : ascii) : bool := (c =b CR) || (c =b LF).
Definition octet_lead (c : ascii) : bool := (49 <=? bz c) && (bz c <=? 57).

(** RFC 6587 octet counting: [<MSG-LEN> <MSG>] *)
Definition octet_frame (s : string) : step :=
  match readBoundedFrame " " 16 s with
  | (lenStr, rest, Complete) =>
      match Atoi (TrimSpace lenStr) with
      | None => Close
      | Some msgLen =>
          if (msgLen <=? 0) || (maxSyslogFrameBytes <? msgLen) then Close
          else if slen rest <? msgLen then Close                 (* io.ReadFull *)
          else Frame (str_take (Z.to_nat msgLen) rest) (str_drop (Z.to_nat msgLen) rest) false
      end
  | _ => Close
  end.

(** Non-transparent framing: a line *)
Definition line_frame (s : string) : step :=
  match readBoundedFrame LF (maxSyslogFrameBytes + 2) s with
  | (_, _, TooLarge) => Close
  | (line, rest, e) =>
      let ended := match e with Torn => true | _ => false end in
      if ended && (line =s "") then Close
      else
        let payload := TrimRightBytes is_crlf line in
        if maxSyslogFrameBytes <? slen payload then Close
        else if payload =s "" then (if ended then Close else Skip rest)
        else Frame payload rest ended
  end.

Definition next_frame (s : string) : step :=
  match s with
  | "" => Close                                                  (* Peek *)
  | String c _ => if octet_lead c then octet_frame s else line_frame s
  end.

(** The messages of a stream. *)
Definition frame_round (s : string) (acc : list string) : res (string * list string) :=
  match next_frame s with
  | Close => Ok ("", acc)
  | Skip rest => Ok (rest, acc)
  | Frame payload rest last => Ok (if last then "" else rest, acc ++ [payload])
  end.
Definition frames (s : string) : res (list string) := scan frame_round s [].

(** ** The listeners *)

Section listeners.
Context `{IngestEnv} `{Receiver W} {X : Type}.
Context (transport remoteHost listener : string) (remotePort : Z).
Abbreviation P := (Prog (Feed W X)).

Definition syslog_record (payload : string) (now : time) : IngestedRecord :=
  {| ir_Transport := transport; ir_SourceIP := remoteHost; ir_SourcePort := remotePort; ir_RawBytes := payload;
     ir_ReceivedAt := now;
     ir_Metadata := {| ConnectionID := ""; Listener := listener; RequestID := ""; FilePath := ""; FileID := "";
                       FileOffset := 0; ObjectKey := ""; Watermark := ""; KafkaTopic := ""; KafkaPartition := 0;
                       KafkaOffset := 0; KafkaKey := "" |};
     ir_ExistingRawID := "" |}.

(** The TCP listener only sends. *)
Definition tcp_emit (payload : string) : P unit := now <- feed_Now ;; post (syslog_record payload now).
(** The TLS listener waits for the acknowledgement, whose error it does not look at. *)
Definition tls_emit (payload : string) : P unit :=
  now <- feed_Now ;;
  c <- select_ctx ;;
  if c then fail ctx_canceled
  else
    _ <- deliver (syslog_record payload now) ;;
    c <- select_ctx ;;
    if c then fail ctx_canceled else ret ().

Fixpoint conn_loop (fuel : nat) (emit : string → P unit) (s : string) : P unit :=
  match fuel with
  | O => ret ()
  | S fuel' =>
      c <- poll_ctx ;;
      if c then ret ()
      else match next_frame s with
           | Close => ret ()
           | Skip rest => conn_loop fuel' emit rest
           | Frame payload rest last =>
               r <- try (emit payload) ;;
               match r with
               | Err _ => ret ()
               | Panic p => mcall (Panic p)
               | Ok _ => if last then ret () else conn_loop fuel' emit rest
               end
           end
  end.

Definition handleTCPConn (s : string) : P unit := conn_loop (S (String.length s)) tcp_emit s.
Definition handleConn (s : string) : P unit := conn_loop (S (String.length s)) tls_emit s.

(** A UDP datagram is a record of its own; an empty one is skipped. *)
Definition udp_datagram (payload : string) : P unit :=
  if payload =s "" then ret () else now <- feed_Now ;; post (syslog_record payload now).
End listeners.

(** ** The buffer does not show *)

(** [readBoundedFrame] as a search of the whole text. *)
Definition bounded_spec (delimiter : ascii) (max : Z) (s : string) : string * string * frame_end :=
  match IndexByte s delimiter with
  | Some i => if max <? Z.of_nat i + 1 then ("", "", TooLarge) else (str_take (i + 1) s, str_drop (i + 1) s, Complete)
  | None => if max <? slen s then ("", "", TooLarge) else (s, "", Torn)
  end.

(** The rest is only looked at when the frame was read. *)
Definition same_read (a b : string * string * frame_end) : Prop :=
  match a, b with
  | (_, _, TooLarge), (_, _, TooLarge) => True
  | (l, r, Complete), (l', r', Complete) | (l, r, Torn), (l', r', Torn) => l = l' ∧ r = r'
  | _, _ => False
  end.

Lemma IndexByte_drop n s c i :
  IndexByte s c = Some i → (n ≤ i)%nat → IndexByte (str_drop n s) c = Some (i - n)%nat.
Proof.
  revert s i. induction n as [|n IH]; intros s i Hi Hn; [by rewrite drop_0_str, Nat.sub_0_r|].
  destruct s as [|d s]; [done|]. cbn [IndexByte str_drop] in *.
  destruct (d =b c); [injection Hi; lia|].
  destruct (IndexByte s c) as [j|] eqn:E; [|done]. injection Hi as <-.
  by rewrite (IH s j E) by lia.
Qed.
Lemma IndexByte_drop_None n s c : IndexByte s c = None → IndexByte (str_drop n s) c = None.
Proof.
  rewrite !IndexByte_None. intros Hs. rewrite <- (take_drop_str n s), all_bytes_app in Hs.
  by apply andb_prop in Hs as [_ ?].
Qed.

Lemma str_take_add n m s : str_take n s +:+ str_take m (str_drop n s) = str_take (n + m) s.
Proof.
  revert s. induction n as [|n IH]; intros s; [by rewrite drop_0_str|]. destruct s as [|c s]; simpl; [by destruct m|].
  by rewrite IH.
Qed.
Lemma str_drop_add n m s : str_drop m (str_drop n s) = str_drop (n + m) s.
Proof.
  revert s. induction n as [|n IH]; intros s; [by rewrite drop_0_str|]. destruct s as [|c s]; simpl; [by destruct m|].
  apply IH.
Qed.
Lemma slen_take n s : (n ≤ String.length s)%nat → slen (str_take n s) = Z.of_nat n.
Proof. intros Hn. unfold slen. rewrite length_take_str. lia. Qed.
Lemma bounded_loop_spec fuel delimiter max frame s :
  (String.length s < fuel)%nat →
  same_read (bounded_loop fuel delimiter max frame s)
    (match IndexByte s delimiter with
     | Some i => if max <? slen frame + (Z.of_nat i + 1) then ("", "", TooLarge)
                 else (frame +:+ str_take (i + 1) s, str_drop (i + 1) s, Complete)
     | None => if max <? slen frame + slen s then ("", "", TooLarge) else (frame +:+ s, "", Torn)
     end).
Proof.
  revert frame s. induction fuel as [|fuel IH]; intros frame s Hf; [lia|]. cbn [bounded_loop].
  assert (∀ n, slen (str_take n s) ≤ slen s ∧ ((n ≤ String.length s)%nat → slen (str_take n s) = Z.of_nat n)) as Htk.
  { intros n. unfold slen. rewrite length_take_str. lia. }
  unfold ReadSlice. destruct (IndexByte s delimiter) as [i|] eqn:Ei.
  - pose proof (IndexByte_bound _ _ _ Ei) as Hb. destruct (Z.ltb_spec (Z.of_nat i) default_size) as [Hs|Hs].
    + rewrite (proj2 (Htk (i + 1)%nat)) by lia. replace (Z.of_nat (i + 1)) with (Z.of_nat i + 1) by lia.
      by destruct (max <? _).
    + set (k := Z.to_nat default_size). assert (0 < k ≤ i)%nat as Hk by (unfold k, default_size in *; lia).
      rewrite (proj2 (Htk k)) by lia. destruct (Z.ltb_spec max (slen frame + Z.of_nat k)) as [Hm|Hm].
      * assert (max <? slen frame + (Z.of_nat i + 1) = true) as -> by (apply Z.ltb_lt; lia). done.
      * specialize (IH (frame +:+ str_take k s) (str_drop k s)). rewrite length_drop_str in IH.
        rewrite (IndexByte_drop k s delimiter i Ei) in IH by lia.
        assert (slen (frame +:+ str_take k s) = slen frame + Z.of_nat k) as Hl.
        { unfold slen. rewrite length_app_str, length_take_str. lia. }
        rewrite Hl, str_drop_add, app_assoc_str, str_take_add in IH.
        replace (slen frame + Z.of_nat k + (Z.of_nat (i - k) + 1)) with (slen frame + (Z.of_nat i + 1)) in IH by lia.
        replace (k + (i - k + 1))%nat with (i + 1)%nat in IH by lia. apply IH. lia.
  - destruct (Z.ltb_spec (slen s) default_size) as [Hs|Hs].
    + by destruct (max <? _).
    + set (k := Z.to_nat default_size). assert (0 < k ≤ String.length s)%nat as Hk by (unfold k, default_size, slen in *; lia).
      rewrite (proj2 (Htk k)) by lia. destruct (Z.ltb_spec max (slen frame + Z.of_nat k)) as [Hm|Hm].
      * assert (max <? slen frame + slen s = true) as -> by (apply Z.ltb_lt; unfold slen in *; lia). done.
      * specialize (IH (frame +:+ str_take k s) (str_drop k s)). rewrite length_drop_str in IH.
        rewrite (IndexByte_drop_None k s delimiter Ei) in IH.
        assert (slen (frame +:+ str_take k s) + slen (str_drop k s) = slen frame + slen s) as Hl.
        { unfold slen. rewrite length_app_str, length_take_str, length_drop_str. lia. }
        rewrite Hl, app_assoc_str, take_drop_str in IH. apply IH. lia.
Qed.

Lemma readBoundedFrame_spec delimiter max s :
  same_read (readBoundedFrame delimiter max s) (bounded_spec delimiter max s).
Proof. apply (bounded_loop_spec _ delimiter max "" s). lia. Qed.

(** ** A pass, by the reference read *)

Lemma octet_frame_eq s :
  octet_frame s =
  match bounded_spec " " 16 s with
  | (lenStr, rest, Complete) =>
      match Atoi (TrimSpace lenStr) with
      | None => Close
      | Some n => if (n <=? 0) || (maxSyslogFrameBytes <? n) then Close
                  else if slen rest <? n then Close
                  else Frame (str_take (Z.to_nat n) rest) (str_drop (Z.to_nat n) rest) false
      end
  | _ => Close
  end.
Proof.
  unfold octet_frame. pose proof (readBoundedFrame_spec " " 16 s) as Hs.
  destruct (readBoundedFrame " " 16 s) as [[l r] []], (bounded_spec " " 16 s) as [[l' r'] []]; simpl in Hs; try done.
  by destruct Hs as [-> ->].
Qed.

Lemma line_frame_eq s :
  line_frame s =
  match bounded_spec LF (maxSyslogFrameBytes + 2) s with
  | (_, _, TooLarge) => Close
  | (line, rest, e) =>
      let ended := match e with Torn => true | _ => false end in
      if ended && (line =s "") then Close
      else
        let payload := TrimRightBytes is_crlf line in
        if maxSyslogFrameBytes <? slen payload then Close
        else if payload =s "" then (if ended then Close else Skip rest)
        else Frame payload rest ended
  end.
Proof.
  unfold line_frame. pose proof (readBoundedFrame_spec LF (maxSyslogFrameBytes + 2) s) as Hs.
  destruct (readBoundedFrame _ _ s) as [[l r] []], (bounded_spec _ _ s) as [[l' r'] []]; simpl in Hs; try done;
    by destruct Hs as [-> ->].
Qed.

Lemma bounded_spec_shorter delimiter max s :
  s ≠ "" → let '(_, rest, _) := bounded_spec delimiter max s in (String.length rest < String.length s)%nat.
Proof.
  intros Hs. unfold bounded_spec. assert (0 < String.length s)%nat by (destruct s; simpl; [done|lia]).
  destruct (IndexByte s delimiter) as [i|]; (destruct (_ <? _); [simpl; lia|]); [|simpl; lia].
  rewrite length_drop_str. lia.
Qed.

(** A message is neither empty nor longer than the bound, and the stream gets shorter. *)
Lemma next_frame_spec s :
  match next_frame s with
  | Close => True
  | Skip rest => (String.length rest < String.length s)%nat
  | Frame payload rest _ => (String.length rest < String.length s)%nat ∧ 1 ≤ slen payload ≤ maxSyslogFrameBytes
  end.
Proof.
  destruct s as [|c s']; [done|]. cbn [next_frame]. remember (String c s') as s eqn:Es.
  assert (s ≠ "") as Hne0 by by rewrite Es. destruct (octet_lead c).
  - rewrite octet_frame_eq. pose proof (bounded_spec_shorter " " 16 s Hne0) as Hr.
    destruct (bounded_spec _ _ _) as [[l r] []]; [|done..]. destruct (Atoi _) as [n|]; [|done].
    destruct (Z.leb_spec n 0); [done|]. destruct (Z.ltb_spec maxSyslogFrameBytes n); [done|]. simpl.
    destruct (Z.ltb_spec (slen r) n); [done|]. unfold slen in *. rewrite length_drop_str, length_take_str. lia.
  - rewrite line_frame_eq. pose proof (bounded_spec_shorter LF (maxSyslogFrameBytes + 2) s Hne0) as Hr.
    destruct (bounded_spec _ _ _) as [[l r] []]; [| |done]; simpl.
    2: destruct (l =s ""); [done|].
    all: destruct (Z.ltb_spec maxSyslogFrameBytes (slen (TrimRightBytes is_crlf l))); [done|].
    all: destruct (String.eqb_spec (TrimRightBytes is_crlf l) "") as [|Hne]; [done|].
    all: split; [done|]; split; [|done]; unfold slen; destruct (TrimRightBytes is_crlf l); simpl; [done|lia].
Qed.

#[export] Instance frame_consuming : Consuming frame_round.
Proof.
  intros s a s' a' Hs. unfold frame_round. pose proof (next_frame_spec s) as Hn.
  assert (0 < String.length s)%nat by (destruct s; simpl; [done|lia]).
  destruct (next_frame s) as [|rest|p rest []]; intros [= <- <-]; simpl; lia.
Qed.

(** ** Streams of well-formed messages *)

Inductive framing := Octets | Lines.
Definition frame_text (m : framing * string) : string :=
  match m.1 with
  | Octets => Itoa (slen m.2) +:+ (" " +:+ m.2)
  | Lines => m.2 +:+ chr LF
  end.
(** A message that its framing can carry; a line must not look like an octet count. *)
Definition carried (m : framing * string) : bool :=
  (1 <=? slen m.2) && (slen m.2 <=? maxSyslogFrameBytes) &&
  match m.1 with
  | Octets => true
  | Lines => all_bytes (λ c, c <>b LF) m.2
             && negb (match m.2 with String c _ => octet_lead c | "" => true end)
             && negb (match str_last m.2 with Some c => c =b CR | None => true end)
  end.

Lemma digit_rune c : is_digit c = true → bz c < 128 ∧ IsSpaceRune (bz c) = false.
Proof. unfold is_digit, IsSpaceRune. intros H. apply andb_prop in H as [H1 H2]. split; [lia|]. by rewrite !orb_false_iff; split_and!; lia. Qed.

Lemma runes_digits s : all_bytes is_digit s = true → Forall (λ r, IsSpaceRune r.1 = false) (runes s).
Proof.
  induction s as [|c s IH]; simpl; [constructor|]. intros [Hc Hs]%andb_prop. apply digit_rune in Hc as [Hc Hsp].
  rewrite runes_ascii by done. constructor; [done|by apply IH].
Qed.

Lemma TrimSpace_digits s : all_bytes is_digit s = true → TrimSpace (s +:+ " ") = s.
Proof.
  intros Hs. unfold TrimSpace. rewrite runes_app_ascii.
  2: { eapply all_bytes_impl; [|exact Hs]. intros c Hc. apply Z.ltb_lt. by apply digit_rune. }
  change (runes " ") with [(32, " ")]. pose proof (runes_digits s Hs) as Hr.
  destruct (runes s) as [|r rs] eqn:E.
  { assert (s = "") as ->; [|done]. rewrite <- (unrunes_runes s), E. done. }
  inversion_clear Hr as [|? ? Hr1 Hr2]. change ((r :: rs) ++ [(32, " ")]) with (r :: (rs ++ [(32, " ")])).
  rewrite drop_while_none by done. change (r :: rs ++ [(32, " ")]) with ((r :: rs) ++ [(32, " ")]).
  rewrite drop_while_end_snoc by done.
  assert (Forall (λ r, IsSpaceRune r.1 = false) (r :: rs)) as Hall by by constructor.
  assert (runes s ≠ []) as E0 by by rewrite E. rewrite <- E in *. clear E.
  destruct (exists_last (l := runes s)) as (l & x & El); [done|].
  rewrite El, Forall_app, Forall_singleton in Hall. destruct Hall as [_ Hx].
  rewrite El, drop_while_end_app by done. transitivity (unrunes (runes s)); [by rewrite El|apply unrunes_runes].
Qed.

Lemma bytes_last s : str_last s = last (bytes_of s).
Proof.
  unfold str_last, str_get. induction s as [|c s IH]; [done|]. destruct s as [|d s]; [done|].
  cbn [String.length Nat.pred bytes_of] in *. exact IH.
Qed.

Lemma TrimRight_line p :
  p ≠ "" → all_bytes (λ c, c <>b LF) p = true → (∀ c, str_last p = Some c → c ≠ CR) →
  TrimRightBytes is_crlf (p +:+ chr LF) = p.
Proof.
  intros Hp Hl Hcr. unfold TrimRightBytes. rewrite bytes_of_app. cbn [chr bytes_of].
  rewrite drop_while_end_snoc by done. rewrite bytes_last in Hcr.
  destruct (exists_last (l := bytes_of p)) as (l & x & E).
  { intros E. apply (f_equal of_bytes) in E. rewrite of_bytes_of in E. done. }
  rewrite E, last_snoc in Hcr. rewrite E, drop_while_end_app, <- E; [apply of_bytes_of|].
  unfold is_crlf. apply orb_false_iff. split.
  - destruct (Ascii.eqb_spec x CR); [by destruct (Hcr x eq_refl)|done].
  - rewrite <- (of_bytes_of p), E in Hl. clear -Hl. induction l as [|y l IH]; simpl in *.
    + rewrite andb_true_r in Hl. by destruct (Ascii.eqb_spec x LF).
    + apply andb_prop in Hl as [_ Hl]. by apply IH.
Qed.

Lemma next_frame_octets p t :
  carried (Octets, p) = true → next_frame (frame_text (Octets, p) +:+ t) = Frame p t false.
Proof.
  unfold carried, frame_text. simpl. rewrite andb_true_r. intros [H1 H2]%andb_prop.
  apply Z.leb_le in H1, H2. destruct (Itoa_lead (slen p)) as (c & d & E & Hc); [lia|].
  rewrite app_assoc_str, E. cbn [String.append next_frame].
  assert (octet_lead c = true) as -> by (unfold octet_lead; lia). rewrite octet_frame_eq.
  change (String c (d +:+ String " " (p +:+ t))) with (String c d +:+ String " " (p +:+ t)). rewrite <- E.
  pose proof (Itoa_digits (slen p) ltac:(lia)) as Hd.
  assert (String.length (Itoa (slen p)) ≤ 8)%nat as Hlen.
  { apply (Itoa_length 8). unfold maxSyslogFrameBytes in H2. change (10 ^ Z.of_nat 8) with 100000000. lia. }
  unfold bounded_spec. rewrite IndexByte_app.
  2: { eapply all_bytes_impl; [|exact Hd]. intros x Hx. by destruct (Ascii.eqb_spec x " ") as [->|]. }
  assert (16 <? Z.of_nat (String.length (Itoa (slen p))) + 1 = false) as -> by (apply Z.ltb_ge; lia).
  rewrite drop_app_chr. rewrite take_app_chr. change (chr " ") with " ". rewrite TrimSpace_digits by done. rewrite Atoi_Itoa.
  2: { unfold in_int64, MinInt64, MaxInt64, maxSyslogFrameBytes in *. lia. }
  assert ((slen p <=? 0) || (maxSyslogFrameBytes <? slen p) = false) as -> by lia.
  assert (slen (p +:+ t) <? slen p = false) as ->.
  { apply Z.ltb_ge. unfold slen. rewrite length_app_str. lia. }
  unfold slen at 1 2. by rewrite !Nat2Z.id, take_app_str, drop_app_str.
Qed.

Lemma next_frame_lines p t :
  carried (Lines, p) = true → next_frame (frame_text (Lines, p) +:+ t) = Frame p t false.
Proof.
  unfold carried, frame_text. simpl. rewrite !andb_true_iff, !negb_true_iff. intros [[H1 H2] [[Hl Hlead] Hcr]].
  apply Z.leb_le in H1, H2. rewrite app_assoc_str. destruct p as [|c p'] eqn:Ep; [done|].
  cbn [String.append next_frame]. rewrite Hlead, line_frame_eq.
  change (String c (p' +:+ (chr LF +:+ t))) with (String c p' +:+ String LF t). rewrite <- Ep in *.
  unfold bounded_spec. rewrite IndexByte_app by done.
  assert (maxSyslogFrameBytes + 2 <? Z.of_nat (String.length p) + 1 = false) as -> by (apply Z.ltb_ge; unfold slen in *; lia).
  rewrite drop_app_chr. rewrite take_app_chr. cbn [andb]. rewrite TrimRight_line; [|by rewrite Ep|done|].
  2: { intros x Hx ->. rewrite Hx in Hcr. done. }
  assert (maxSyslogFrameBytes <? slen p = false) as -> by by apply Z.ltb_ge. by rewrite Ep.
Qed.

Lemma next_frame_text m t : carried m = true → next_frame (frame_text m +:+ t) = Frame m.2 t false.
Proof. destruct m as [[] p]; [apply next_frame_octets|apply next_frame_lines]. Qed.

(** ** All the messages of a stream *)

Lemma scan_frames s acc :
  scan frame_round s acc =
  match next_frame s with
  | Close => Ok acc
  | Skip rest => scan frame_round rest acc
  | Frame p rest last => if last then Ok (acc ++ [p]) else scan frame_round rest (acc ++ [p])
  end.
Proof.
  rewrite (scan_unfold frame_round). destruct (String.eqb_spec s "") as [->|Hs]; [done|].
  assert (frame_round s acc = match next_frame s with
    | Close => Ok ("", acc) | Skip rest => Ok (rest, acc)
    | Frame payload rest last => Ok (if last then "" else rest, acc ++ [payload]) end) as E by done.
  destruct s as [|c s']; [done|]. rewrite E. by destruct (next_frame _) as [|rest|p rest []].
Qed.

Lemma frames_acc s : ∃ l, ∀ acc, scan frame_round s acc = Ok (acc ++ l).
Proof.
  remember (String.length s) as n eqn:En. revert s En. induction (lt_wf n) as [n _ IH]. intros s ->.
  pose proof (next_frame_spec s) as Hn. destruct (next_frame s) as [|rest|p rest last] eqn:E.
  - exists []. intros acc. by rewrite scan_frames, E, app_nil_r.
  - destruct (IH _ Hn rest eq_refl) as [l Hl]. exists l. intros acc. by rewrite scan_frames, E.
  - destruct last; [exists [p]; intros acc; by rewrite scan_frames, E|].
    destruct (IH _ (proj1 Hn) rest eq_refl) as [l Hl]. exists (p :: l). intros acc.
    rewrite scan_frames, E, Hl. by rewrite <- app_assoc.
Qed.

(** The list that [frames] computes. *)
Definition messages (s : string) : list string := match frames s with Ok l => l | _ => [] end.

Lemma frames_messages s : frames s = Ok (messages s).
Proof. unfold messages, frames. by destruct (frames_acc s) as [l ->]. Qed.

Lemma messages_eq s :
  messages s = match next_frame s with
               | Close => []
               | Skip rest => messages rest
               | Frame p rest last => p :: if last then [] else messages rest
               end.
Proof.
  unfold messages at 1, frames. rewrite scan_frames. destruct (next_frame s) as [|rest|p rest last]; [done|done|].
  destruct last; [done|]. destruct (frames_acc rest) as [l Hl]. rewrite Hl. unfold messages, frames. by rewrite Hl.
Qed.

Lemma messages_texts l t : forallb carried l = true → messages (String.concat "" (frame_text <$> l) +:+ t) = l.*2 ++ messages t.
Proof.
  induction l as [|m l IH]; [done|]. simpl forallb. intros [Hm Hl]%andb_prop. rewrite fmap_cons, concat_cons_str, app_assoc_str.
  rewrite messages_eq, next_frame_text by done. simpl. by rewrite IH.
Qed.

Lemma messages_bound s : Forall (λ p, 1 ≤ slen p ≤ maxSyslogFrameBytes) (messages s).
Proof.
  remember (String.length s) as n eqn:En. revert s En. induction (lt_wf n) as [n _ IH]. intros s ->.
  rewrite messages_eq. pose proof (next_frame_spec s) as Hn. destruct (next_frame s) as [|rest|p rest []]; [constructor| | |].
  - by eapply IH.
  - constructor; [apply Hn|constructor].
  - constructor; [apply Hn|]. destruct Hn as [Hn _]. by eapply IH.
Qed.

(** ** What a listener sends *)

Section sending.
Context `{IngestEnv} {W : Type} `{Receiver W} {X : Type}.
Implicit Types (h : Feed W X).

(** The context stays alive and the pipeline does not panic. *)
Definition undisturbed : Prop :=
  (∀ i, ctx_done i = false) ∧ ∀ rec (w : W), no_panic (receive rec w).1.

Definition payloads h : list string := ir_RawBytes <$> fd_sent h.

(** [emit p] sends the message [p] once, or nothing when it fails. *)
Definition emits (emit : string → Prog (Feed W X) unit) : Prop := ∀ p h,
  wp (emit p) (λ r h', payloads h' = payloads h ++ [p] ∧ (undisturbed → r = Ok ())
                       ∨ payloads h' = payloads h ∧ r ≠ Ok () ∧ ¬ undisturbed) h.

Lemma wp_select_ctx Q h :
  (∀ c h', payloads h' = payloads h → (undisturbed → c = false) → Q (Ok c) h') → wp select_ctx Q h.
Proof.
  intros HQ. unfold select_ctx, wp. cbn. apply HQ; [done|]. intros [Hc _]. by rewrite Hc.
Qed.

Lemma wp_deliver rec Q h :
  (∀ r h', payloads h' = payloads h ++ [ir_RawBytes rec] → (undisturbed → no_panic r) →
     Q (match r with Panic p => Panic p | _ => Ok r end) h') → wp (deliver rec) Q h.
Proof.
  intros HQ. unfold wp, deliver. pose proof (λ Hu : undisturbed, proj2 Hu rec (fd_sink h)) as Hn.
  destruct (receive rec (fd_sink h)) as [[[]|e|p] s].
  - apply (HQ (Ok ())); [|done]. unfold payloads. simpl. by rewrite fmap_app.
  - apply (HQ (Err e)); [|done]. unfold payloads. simpl. by rewrite fmap_app.
  - apply (HQ (Panic p)); [|by intros Hu; apply Hn in Hu]. unfold payloads. simpl. by rewrite fmap_app.
Qed.

Context (transport remoteHost listener : string) (remotePort : Z).

Lemma wp_Now_payloads Q h : (∀ t h', payloads h' = payloads h → Q (Ok t) h') → wp feed_Now Q h.
Proof. intros HQ. by apply HQ. Qed.

Lemma emits_tcp : emits (tcp_emit transport remoteHost listener remotePort).
Proof.
  intros p h. unfold tcp_emit, post. apply wp_bind, wp_Now_payloads. intros t h1 Hp1.
  apply wp_bind, wp_select_ctx. intros c h2 Hp2 Hc. destruct c.
  - apply wp_fail. right. split; [congruence|]. split; [done|]. by intros Hu%Hc.
  - apply wp_bind, wp_deliver. intros r h3 Hp3 Hr. rewrite Hp2, Hp1 in Hp3. destruct r as [[]|e|q].
    + apply wp_ret. by left.
    + apply wp_ret. by left.
    + left. split; [done|]. by intros Hu%Hr.
Qed.

Lemma emits_tls : emits (tls_emit transport remoteHost listener remotePort).
Proof.
  intros p h. unfold tls_emit. apply wp_bind, wp_Now_payloads. intros t h1 Hp1.
  apply wp_bind, wp_select_ctx. intros c h2 Hp2 Hc. destruct c.
  - apply wp_fail. right. split; [congruence|]. split; [done|]. by intros Hu%Hc.
  - apply wp_bind, wp_deliver. intros r h3 Hp3 Hr. rewrite Hp2, Hp1 in Hp3.
    assert (∀ x : res unit, r = x → no_panic x → wp (c <- select_ctx ;; if c then fail ctx_canceled else ret ())
      (λ r h', payloads h' = payloads h ++ [p] ∧ (undisturbed → r = Ok ())
               ∨ payloads h' = payloads h ∧ r ≠ Ok () ∧ ¬ undisturbed) h3) as Hack.
    { intros x _ _. apply wp_bind, wp_select_ctx. intros c h4 Hp4 Hc4. destruct c; [apply wp_fail|apply wp_ret]; left.
      - split; [by rewrite Hp4, Hp3|]. by intros Hu%Hc4.
      - split; [by rewrite Hp4, Hp3|done]. }
    destruct r as [[]|e|q]; [by eapply Hack|by eapply Hack|]. left. split; [done|]. by intros Hu%Hr.
Qed.

Lemma wp_conn_loop emit fuel s h :
  emits emit → (String.length s < fuel)%nat →
  wp (conn_loop fuel emit s) (λ r h', (∃ l, payloads h' = payloads h ++ l ∧ l `prefix_of` messages s)
                                     ∧ (undisturbed → r = Ok () ∧ payloads h' = payloads h ++ messages s)) h.
Proof.
  intros Hem. revert s h. induction fuel as [|fuel IH]; intros s h Hf; [lia|]. cbn [conn_loop].
  apply wp_bind. unfold poll_ctx, wp at 1. cbn -[payloads messages].
  set (h1 := Build_Feed _ _ _ _ _ _). assert (payloads h1 = payloads h) as Hp0 by done.
  assert (∀ h', payloads h' = payloads h → ∃ l, payloads h' = payloads h ++ l ∧ l `prefix_of` messages s) as Hnil.
  { intros h' Hh'. exists []. rewrite app_nil_r. split; [done|apply prefix_nil]. }
  destruct (ctx_done _) eqn:Ec; [split; [by apply Hnil|]; intros [Hc _]; congruence|].
  rewrite messages_eq in *. pose proof (next_frame_spec s) as Hn.
  destruct (next_frame s) as [|rest|p rest last].
  - apply wp_ret. split; [by apply Hnil|]. by rewrite app_nil_r.
  - eapply wp_mono; [apply IH; lia|]. cbv beta. rewrite Hp0. done.
  - apply wp_bind, wp_try. eapply wp_mono; [apply (Hem p h1)|]. intros r h2 [[Hp2 Hr]|(Hp2 & Hr & Hd)].
    + assert (∀ h', payloads h' = payloads h2 → ∃ l, payloads h' = payloads h ++ l ∧
        l `prefix_of` p :: (if last then [] else messages rest)) as Hone.
      { intros h' ->. exists [p]. rewrite Hp2, Hp0. split; [done|]. apply prefix_cons, prefix_nil. }
      destruct r as [[]|e|q]; [|apply wp_ret; split; [by apply Hone|by intros Hu%Hr]|split; [by apply Hone|by intros Hu%Hr]].
      destruct last; [apply wp_ret; split; [by apply Hone|]; intros _; by rewrite Hp2, Hp0|].
      eapply wp_mono; [apply IH; lia|]. cbv beta. intros r h3 [(l & Hl & Hpre) Hall]. rewrite Hp2, Hp0 in *. split.
      * exists (p :: l). rewrite Hl, <- app_assoc. split; [done|by apply prefix_cons].
      * intros Hu. destruct (Hall Hu) as [-> ->]. by rewrite <- app_assoc.
    + destruct r as [[]|e|q]; [done|apply wp_ret|]; (split; [apply Hnil; congruence|done]).
Qed.
End sending.

(** ** Properties *)

(** A stream of messages is cut into exactly these messages, whichever framing each
    has, as long as a line does not start with a digit from 1 to 9 (nor end with a
    carriage return), and no message is empty or longer than 10 MiB. *)
Theorem frames_roundtrip (l : list (framing * string)) :
  forallb carried l = true → frames (String.concat "" (frame_text <$> l)) = Ok l.*2.
Proof.
  intros Hl. rewrite frames_messages. f_equal. pose proof (messages_texts l "" Hl) as Hm.
  rewrite app_nil_r_str in Hm. rewrite Hm. apply app_nil_r.
Qed.

(** C28: whatever a peer sends, a connection handler of either listener (TCP, which only
    sends, and TLS, which waits for acknowledgements) terminates, submits the messages of
    the stream in order, each once, none empty or longer than 10 MiB; and all of them
    unless the context is cancelled or the process panics. *)
Theorem handleConn_sends_messages (env : IngestEnv) (W : Type) (R : Receiver W) (X : Type)
    (transport remoteHost listener : string) (remotePort : Z) (tls : bool) (stream : string) (h : Feed W X) :
  let run := if tls then handleConn transport remoteHost listener remotePort stream
             else handleTCPConn transport remoteHost listener remotePort stream in
  ∃ l, payloads (run h).2 = payloads h ++ l ∧ l `prefix_of` messages stream
       ∧ Forall (λ p, 1 ≤ slen p ≤ maxSyslogFrameBytes) l
       ∧ (undisturbed (W := W) → (run h).1 = Ok () ∧ l = messages stream).
Proof.
  intros run. assert (∃ emit, emits (W := W) (X := X) emit ∧ run = conn_loop (S (String.length stream)) emit stream)
    as (emit & Hem & ->).
  { destruct tls; eexists; (split; [|done]); [apply emits_tls|apply emits_tcp]. }
  pose proof (wp_conn_loop emit (S (String.length stream)) stream h Hem ltac:(lia)) as Hw. unfold wp in Hw.
  destruct (conn_loop _ emit stream h) as [r h']. destruct Hw as [(l & Hl & Hpre) Hall]. exists l. split; [done|].
  split; [done|]. split.
  - destruct Hpre as [k Hk]. pose proof (messages_bound stream) as Hb. rewrite Hk, Forall_app in Hb. apply Hb.
  - intros Hu. destruct (Hall Hu) as [-> Hm]. split; [done|]. simpl in Hl. rewrite Hl in Hm. by apply app_inv_head in Hm.
Qed.

Lemma frames_roundtrip_witness :
  frames ("5 hello<13>boot\n" +:+ chr LF +:+ "3 abc") = Ok ["hello"; "<13>boot\n"; "abc"].
Proof.
  apply (frames_roundtrip [(Octets, "hello"); (Lines, "<13>boot\n"); (Octets, "abc")]). reflexivity.
Defined.

(** A line that starts with a digit is taken for an octet count, and ends the connection. *)
Lemma dated_line_closes : frames ("2026-05-01 up" +:+ chr LF +:+ "<13>boot" +:+ chr LF) = Ok [].
Proof. by vm_compute. Qed.
