(* ===== verification/FileIngest.v ===== *)
(** * [internal/ingest/file.go]: spool files and the directory watcher

    A file of the spool is sent record by record, each one acknowledged before the next,
    and moves from the inbox through [processing] to [processed], or to [failed].  The
    environment says which calls on files fail, and where reading stops with an error. *)

From S2P Require Import Prelude GoStrings GoNum GoIO GoTime Model.
From S2P Require Export Monad Ingest.

#[local] Open Scope monad_scope.

Record File := { fl_content : string; fl_mod : time }.
Inductive fnode := FFile (f : File) | FDirectory.

Class SpoolEnv := {
  fs_fails : nat → bool;                           (* a call on a file or a directory fails *)
  read_stops : nat → option Z;                     (* reading the file fails after that many bytes *)
}.
Class HostNames := {
  Abs : string → string;                           (* filepath.Abs; it may fail as any other call *)
  sha256_text : string → string;                   (* SHA-256, in hexadecimal *)
}.

Definition io_error : error := errors_New "input/output error".

(** ** The slices of [ReadSlice('\n')] with a buffer of 1 MiB and a byte *)

Definition line_buffer : Z := 1024 * 1024 + 1.

(** Why there is no further slice: the end of the file, a line that does not fit the
    buffer, or a failed read. *)
Inductive slice_end := EOF | LineTooLong | ReadFailed.

Fixpoint slices_from (fuel : nat) (tail : slice_end) (s : string) : list (string * option slice_end) :=
  match fuel with
  | O => []
  | S fuel' =>
      let '(part, rest, e) := ReadSlice line_buffer LF s in
      match e with
      | Found => (part, None) :: slices_from fuel' tail rest
      | BufferFull => [(part, Some LineTooLong)]
      | Ended => [(part, Some tail)]
      end
  end.
Definition slices (tail : slice_end) (s : string) : list (string * option slice_end) :=
  slices_from (S (String.length s)) tail s.

Definition line_crlf (c : ascii) : bool := (c =b CR) || (c =b LF).
Definition line_of (rawLine : string) : string := TrimRightBytes line_crlf rawLine.

Section file.
Context `{IngestEnv} `{SpoolEnv} `{HostNames} `{Receiver W} {X : Type}.
Abbreviation P := (Prog (Feed W X)).

(** A call on a file or a directory. *)
Definition wrap_io (f : error → error) : P unit := t <- tick ;; if fs_fails t then fail (f io_error) else ret ().
Definition fs_op : P unit := wrap_io (λ e, e).

Definition file_record (filePath absPath fileID payload : string) (offset : Z) (now : time) : IngestedRecord :=
  {| ir_Transport := "file"; ir_SourceIP := filepath_Base filePath; ir_SourcePort := 0; ir_RawBytes := payload;
     ir_ReceivedAt := now;
     ir_Metadata := {| ConnectionID := ""; Listener := ""; RequestID := ""; FilePath := absPath; FileID := fileID;
                       FileOffset := offset; ObjectKey := ""; Watermark := ""; KafkaTopic := "";
                       KafkaPartition := 0; KafkaOffset := 0; KafkaKey := "" |};
     ir_ExistingRawID := "" |}.

Definition identity (absPath : string) (f : File) : string :=
  sha256_text (absPath +:+ chr "000" +:+ Itoa (slen (fl_content f)) +:+ chr "000" +:+ Itoa (fl_mod f)).

Definition whole_file (filePath : string) : bool :=
  let ext := ToLower (filepath_Ext filePath) in (ext =s ".csv") || (ext =s ".json") || (ext =s ".xml").

Definition ingest_whole (filePath absPath fileID : string) (f : File) : P unit :=
  wrap_io (λ e, Errorf "failed to read file %s: %w" [AStr filePath; AErr e]) ;;;
  let data := fl_content f in
  if data =s "" then ret ()
  else
    now <- feed_Now ;;
    submit (λ e, Errorf "downstream raw commit failed for %s: %w" [AStr filePath; AErr e])
      (file_record filePath absPath fileID data 0 now).

Fixpoint ingest_slices (filePath absPath fileID : string) (offset : Z) (l : list (string * option slice_end)) : P unit :=
  match l with
  | [] => ret ()
  | (_, Some LineTooLong) :: _ =>
      fail (Errorf "line exceeds 1 MiB limit in %s at offset %d" [AStr filePath; AInt offset])
  | (rawLine, e) :: l' =>
      c <- poll_ctx ;;
      if c then fail ctx_canceled
      else
        let line := line_of rawLine in
        (if line =s "" then ret ()
         else
           now <- feed_Now ;;
           submit (λ e, Errorf "downstream raw commit failed for line in %s: %w" [AStr filePath; AErr e])
             (file_record filePath absPath fileID line offset now)) ;;;
        match e with
        | Some EOF => ret ()
        | Some _ => fail (Errorf "read %s at offset %d: %w" [AStr filePath; AInt offset; AErr io_error])
        | None => ingest_slices filePath absPath fileID (offset + slen rawLine) l'
        end
  end.

Definition IngestFile (filePath : string) (node : option fnode) : P unit :=
  wrap_io (λ e, Errorf "stat failed for %s: %w" [AStr filePath; AErr e]) ;;;
  match node with
  | None => fail (Errorf "stat failed for %s: %w" [AStr filePath; AErr (errors_New "file does not exist")])
  | Some FDirectory => fail (Errorf "target is a directory, not a file: %s" [AStr filePath])
  | Some (FFile f) =>
      wrap_io (λ e, Errorf "resolve file path %s: %w" [AStr filePath; AErr e]) ;;;
      let absPath := Abs filePath in
      let fileID := identity absPath f in
      if whole_file filePath then ingest_whole filePath absPath fileID f
      else
        wrap_io (λ e, Errorf "failed to open file %s: %w" [AStr filePath; AErr e]) ;;;
        t <- tick ;;
        ingest_slices filePath absPath fileID 0
          match read_stops t with
          | Some k => if k <? slen (fl_content f) then slices ReadFailed (str_take (Z.to_nat k) (fl_content f))
                      else slices EOF (fl_content f)
          | None => slices EOF (fl_content f)
          end
  end.
End file.

(** ** The watcher *)

(** The watched directory, and the three directories of its files. *)
Record Inbox := {
  bx_inbox : gmap string fnode; bx_processing : gmap string fnode;
  bx_processed : gmap string fnode; bx_failed : gmap string fnode;
}.

(** [os.Rename] replaces a file of the same name; it refuses to replace a directory. *)
Definition move (name : string) (src dst : gmap string fnode) : option (gmap string fnode * gmap string fnode) :=
  match src !! name, dst !! name with
  | None, _ | _, Some FDirectory => None
  | Some f, _ => Some (delete name src, <[name := f]> dst)
  end.

Definition skipped (name : string) : bool := HasPrefix name "." || HasSuffix name ".tmp".

Section watcher.
Context `{IngestEnv} `{SpoolEnv} `{HostNames} `{Receiver W} (inboxDir : string).
Abbreviation P := (Prog (Feed W Inbox)).

Definition procPath (name : string) : string := inboxDir +:+ "/processing/" +:+ name.

Definition rename_with (f : Inbox → option Inbox) : P unit :=
  fs_op ;;;
  b <- feed_own ;;
  match f b with Some b' => set_feed_own b' | None => fail io_error end.
Definition to_processing (name : string) : P unit := rename_with (λ b,
  match move name (bx_inbox b) (bx_processing b) with
  | Some (s, d) => Some {| bx_inbox := s; bx_processing := d; bx_processed := bx_processed b; bx_failed := bx_failed b |}
  | None => None
  end).
Definition to_processed (name : string) : P unit := rename_with (λ b,
  match move name (bx_processing b) (bx_processed b) with
  | Some (s, d) => Some {| bx_inbox := bx_inbox b; bx_processing := s; bx_processed := d; bx_failed := bx_failed b |}
  | None => None
  end).
Definition to_failed (name : string) : P unit := rename_with (λ b,
  match move name (bx_processing b) (bx_failed b) with
  | Some (s, d) => Some {| bx_inbox := bx_inbox b; bx_processing := s; bx_processed := bx_processed b; bx_failed := d |}
  | None => None
  end).

(** [_ = os.Rename(...)] *)
Definition ignored (m : P unit) : P unit := _ <- try m ;; ret ().

Definition processFile (name : string) : P unit :=
  b <- feed_own ;;
  r <- try (IngestFile (procPath name) (bx_processing b !! name)) ;;
  match r with
  | Err _ => c <- poll_ctx ;; if c then ret () else ignored (to_failed name)
  | Panic p => mcall (Panic p)
  | Ok _ => ignored (to_processed name)
  end.

Fixpoint scan_inbox (entries : list (string * fnode)) : P unit :=
  match entries with
  | [] => ret ()
  | (_, FDirectory) :: l => scan_inbox l
  | (name, _) :: l =>
      (if skipped name then ret ()
       else
         r <- try (to_processing name) ;;
         match r with Err _ => ret () | Panic p => mcall (Panic p) | Ok _ => processFile name end) ;;;
      scan_inbox l
  end.

Definition by_name (m : gmap string fnode) : list (string * fnode) :=
  order_by (λ a b, str_le a.1 b.1) (map_to_list m).

Definition scanInbox : P unit :=
  r <- try fs_op ;;                                (* os.ReadDir *)
  match r with
  | Err _ => ret ()
  | Panic p => mcall (Panic p)
  | Ok _ => b <- feed_own ;; scan_inbox (by_name (bx_inbox b))
  end.

Fixpoint scan_processing (entries : list (string * fnode)) : P unit :=
  match entries with
  | [] => ret ()
  | (_, FDirectory) :: l => scan_processing l
  | (name, _) :: l =>
      if skipped name then scan_processing l
      else
        processFile name ;;;
        c <- poll_ctx ;;
        if c then ret () else scan_processing l
  end.

Definition scanProcessing : P unit :=
  r <- try fs_op ;;
  match r with
  | Err _ => ret ()
  | Panic p => mcall (Panic p)
  | Ok _ => b <- feed_own ;; scan_processing (by_name (bx_processing b))
  end.

(** The ticks of [Start]'s loop; a cancelled context ends it. *)
Fixpoint ticks (n : nat) : P unit :=
  match n with
  | O => ret ()
  | S n' => c <- select_ctx ;; if c then fail ctx_canceled else scanInbox ;;; ticks n'
  end.
Definition FileWatcher_Start (n : nat) : P unit :=
  fs_op ;;; fs_op ;;; fs_op ;;; fs_op ;;;          (* MkdirAll *)
  scanProcessing ;;; scanInbox ;;; ticks n.
End watcher.

(** ** The records of a file, in terms of its content alone *)

(** The non-empty lines of a text cut at line feeds, with the offsets of their first bytes. *)
Fixpoint numbered (offset : Z) (pieces : list string) : list (Z * string) :=
  match pieces with
  | [] => []
  | p :: ps => (if line_of p =s "" then [] else [(offset, line_of p)]) ++ numbered (offset + slen p + 1) ps
  end.
Definition file_lines (content : string) : list (Z * string) := numbered 0 (Split content (chr LF)).

Definition file_parts (filePath content : string) : list (Z * string) :=
  if whole_file filePath then (if content =s "" then [] else [(0, content)]) else file_lines content.

Lemma line_of_lf p : line_of (p +:+ chr LF) = line_of p.
Proof. unfold line_of, TrimRightBytes. rewrite bytes_of_app. cbn [chr bytes_of]. by rewrite drop_while_end_snoc. Qed.

Lemma take_index s c i : IndexByte s c = Some i → str_take (i + 1) s = str_take i s +:+ chr c.
Proof.
  intros Hi. pose proof (IndexByte_Some _ _ _ Hi) as [Hs _].
  assert (String.length (str_take i s) = i) as Hl.
  { rewrite length_take_str. apply (f_equal String.length) in Hs. rewrite length_app_str, length_take_str in Hs.
    simpl in Hs. lia. }
  rewrite Hs at 1. rewrite <- Hl at 1. by rewrite take_app_chr.
Qed.

Section file_proofs.
Context `{IngestEnv} `{SpoolEnv} `{HostNames} {W : Type} `{DurableReceiver W} {X : Type}.
Implicit Types (h : Feed W X).

Lemma sends_wrap_io f : keeps sends (wrap_io (W := W) (X := X) f).
Proof. unfold wrap_io. keeps_tac. Qed.
#[local] Hint Resolve sends_wrap_io : worm.

(** The records [recs] are the parts [l] of the file. *)
Definition parts_of (filePath absPath fileID : string) (l : list (Z * string)) (recs : list IngestedRecord) : Prop :=
  Forall2 (λ k rec, ∃ now, rec = file_record filePath absPath fileID k.2 k.1 now) l recs.

(** A run has sent some first parts of [all], and is [Ok] only when all are durable. *)
Definition sent_parts (filePath absPath fileID : string) (all : list (Z * string)) h (r : res unit) h' : Prop :=
  ∃ l recs, fd_sent h' = fd_sent h ++ recs ∧ parts_of filePath absPath fileID l recs ∧ l `prefix_of` all
    ∧ (r = Ok () → l = all ∧ Forall (λ rec, durable rec (fd_sink h')) recs).

Context (filePath absPath fileID : string).

Lemma sent_nothing all h (r : res unit) h' :
  fd_sent h' = fd_sent h → (r = Ok () → all = []) → sent_parts filePath absPath fileID all h r h'.
Proof.
  intros Hs Hr. exists [], []. split; [by rewrite app_nil_r|]. split; [constructor|]. split; [apply prefix_nil|].
  intros Hok. split; [by rewrite Hr|constructor].
Qed.

(** One record. *)
Lemma wp_submit_part f offset p h :
  wp (now <- feed_Now ;; submit f (file_record filePath absPath fileID p offset now))
    (λ r h', sends h h' ∧ sent_parts filePath absPath fileID [(offset, p)] h r h') h.
Proof.
  apply wp_bind, wp_feed_Now. intros now h1 Hs1 Hse1. eapply wp_mono; [apply wp_submit|].
  intros r h2 (Hs2 & Hsent & Hok). split; [by transitivity h1|]. rewrite Hse1 in *.
  destruct Hsent as [[Hsent ->]|Hsent]; [by apply sent_nothing|].
  exists [(offset, p)], [file_record filePath absPath fileID p offset now]. split; [done|].
  split; [repeat constructor; by eexists|]. split; [done|]. intros Hr. split; [done|]. repeat constructor. by apply Hok.
Qed.

Lemma sent_parts_app l1 l2 h h1 r2 h2 :
  sends h1 h2 → sent_parts filePath absPath fileID l1 h (Ok ()) h1 → sent_parts filePath absPath fileID l2 h1 r2 h2 →
  sent_parts filePath absPath fileID (l1 ++ l2) h r2 h2.
Proof.
  intros [[Hd _] _] (k1 & recs1 & He1 & Hp1 & _ & Hok1) (k2 & recs2 & He2 & Hp2 & Hpre & Hok2).
  destruct (Hok1 eq_refl) as [-> Hdur]. exists (l1 ++ k2), (recs1 ++ recs2). rewrite He2, He1, app_assoc. split; [done|].
  split; [by apply Forall2_app|]. split; [by apply prefix_app|]. intros Hr. destruct (Hok2 Hr) as [-> Hdur2].
  split; [done|]. apply Forall_app. split; [|done]. eapply Forall_impl; [exact Hdur|]. intros x. apply Hd.
Qed.

Lemma sent_parts_stop l1 l2 h r h1 :
  r ≠ Ok () → sent_parts filePath absPath fileID l1 h r h1 → sent_parts filePath absPath fileID (l1 ++ l2) h r h1.
Proof.
  intros Hr (k & recs & He & Hp & Hpre & _). exists k, recs. split; [done|]. split; [done|].
  destruct Hpre as [z ->]. split; [|done]. exists (z ++ l2). by rewrite app_assoc.
Qed.

(** The line of a slice, sent unless it is empty. *)
Lemma wp_line f offset line h :
  wp (if line =s "" then ret () else now <- feed_Now ;; submit f (file_record filePath absPath fileID line offset now))
    (λ r h', sends h h' ∧ sent_parts filePath absPath fileID (if line =s "" then [] else [(offset, line)]) h r h') h.
Proof.
  destruct (line =s ""); [|apply wp_submit_part]. apply wp_ret. split; [done|]. by apply sent_nothing.
Qed.

Lemma wp_ingest_slices fuel tail s offset h :
  (String.length s < fuel)%nat →
  wp (ingest_slices filePath absPath fileID offset (slices_from fuel tail s))
    (λ r h', sends h h' ∧ sent_parts filePath absPath fileID (numbered offset (Split s (chr LF))) h r h'
             ∧ (r = Ok () → tail = EOF)) h.
Proof.
  revert s offset h. induction fuel as [|fuel IH]; intros s offset h Hf; [lia|]. cbn [slices_from]. unfold ReadSlice.
  rewrite Split_chr. assert (∀ all e h', sends h h' → fd_sent h' = fd_sent h →
    sends h h' ∧ sent_parts filePath absPath fileID all h (Err e) h' ∧ (Err e = Ok () → tail = EOF)) as Herr.
  { intros all e h' Hs Hse. split; [done|]. split; [by apply sent_nothing|done]. }
  destruct (IndexByte s LF) as [i|] eqn:Ei.
  - destruct (_ <? line_buffer); [|apply wp_fail; by apply Herr]. cbn [ingest_slices].
    pose proof (take_index s LF i Ei) as Ht. pose proof (IndexByte_bound _ _ _ Ei) as Hb.
    apply wp_bind, wp_poll_ctx. intros c h1 Hs1 Hse1. destruct c; [apply wp_fail; by apply Herr|].
    cbn [numbered]. rewrite Ht, line_of_lf. apply wp_bind. eapply wp_mono; [apply wp_line|].
    intros r h2 [Hs2 Hp2]. assert (sends h h2) as Hs12 by by transitivity h1.
    assert (∀ l r h', sent_parts filePath absPath fileID l h1 r h' → sent_parts filePath absPath fileID l h r h') as Hlift
      by (unfold sent_parts; by rewrite Hse1).
    apply Hlift in Hp2. destruct r as [[]|e|q]; [|split; [done|]; split; [by apply sent_parts_stop|done]..].
    eapply wp_mono; [apply IH; rewrite length_drop_str; lia|]. intros r h3 (Hs3 & Hp3 & Hok3).
    split; [by transitivity h2|]. split; [|done]. apply (sent_parts_app _ _ _ h2); [done..|].
    replace (offset + slen (str_take i s) + 1) with (offset + slen (str_take i s +:+ chr LF)); [done|].
    unfold slen. rewrite length_app_str. simpl. lia.
  - destruct (_ <? line_buffer); [|apply wp_fail; by apply Herr].
    cbn [numbered]. rewrite app_nil_r. destruct tail; cbn [ingest_slices].
    + apply wp_bind, wp_poll_ctx. intros c h1 Hs1 Hse1. destruct c; [apply wp_fail; by apply Herr|].
      apply wp_bind. eapply wp_mono; [apply wp_line|]. unfold sent_parts. rewrite Hse1. intros r h2 [Hs2 Hp2].
      assert (sends h h2) by by transitivity h1. destruct r as [[]|e|q]; [apply wp_ret|..]; done.
    + apply wp_fail; by apply Herr.
    + apply wp_bind, wp_poll_ctx. intros c h1 Hs1 Hse1. destruct c; [apply wp_fail; by apply Herr|].
      apply wp_bind. eapply wp_mono; [apply wp_line|]. unfold sent_parts. rewrite Hse1. intros r h2 [Hs2 Hp2].
      assert (sends h h2) by by transitivity h1. destruct r as [[]|e|q]; [apply wp_fail|..]; try done.
      split; [done|]. split; [|done]. destruct Hp2 as (l & recs & He & Hpp & Hpre & _). by exists l, recs.
Qed.


End file_proofs.

(** All parts of the file are durable. *)
Definition ingested `{HostNames} {W : Type} `{DurableReceiver W} (filePath : string) (f : File) (s : W) : Prop :=
  ∃ recs, parts_of filePath (Abs filePath) (identity (Abs filePath) f) (file_parts filePath (fl_content f)) recs
    ∧ Forall (λ rec, durable rec s) recs.

Section ingest_file.
Context `{IngestEnv} `{SpoolEnv} `{HostNames} {W : Type} `{DurableReceiver W} {X : Type}.
Implicit Types (h : Feed W X).

Lemma wp_wrap_io f (Q : res unit → Feed W X → Prop) h :
  (∀ h', sends h h' → fd_sent h' = fd_sent h → Q (Ok ()) h' ∧ Q (Err (f io_error)) h') → wp (wrap_io f) Q h.
Proof.
  intros HQ. apply (wp_keeps sends); [apply sends_wrap_io|]. unfold wrap_io. apply wp_bind. unfold wp.
  cbn [tick fst snd]. destruct (fs_fails _); intros Hs; by apply HQ.
Qed.

(** What a run of [IngestFile] has sent are first parts of a text the file begins with. *)
Lemma wp_IngestFile filePath f h :
  wp (IngestFile filePath (Some (FFile f)))
    (λ r h', sends h h' ∧ ∃ k, sent_parts filePath (Abs filePath) (identity (Abs filePath) f)
        (file_parts filePath (str_take k (fl_content f))) h r h' ∧ (r = Ok () → str_take k (fl_content f) = fl_content f)) h.
Proof.
  assert (∀ h1 e, sends h h1 → fd_sent h1 = fd_sent h → sends h h1 ∧ ∃ k,
    sent_parts filePath (Abs filePath) (identity (Abs filePath) f) (file_parts filePath (str_take k (fl_content f))) h (Err e) h1
    ∧ (Err e = Ok () → str_take k (fl_content f) = fl_content f)) as Herr.
  { intros h1 e Hs Hse. split; [done|]. exists 0%nat. split; [by apply sent_nothing|done]. }
  unfold IngestFile. apply wp_bind, wp_wrap_io. intros h1 Hs1 Hse1. split; [|by apply Herr].
  apply wp_bind, wp_wrap_io. intros h2 Hs2 Hse2.
  assert (sends h h2) as Hs12 by (by transitivity h1). rewrite Hse1 in Hse2. split; [|by apply Herr].
  destruct (whole_file filePath) eqn:Ew.
  - unfold ingest_whole. apply wp_bind, wp_wrap_io. intros h3 Hs3 Hse3. rewrite Hse2 in Hse3.
    assert (sends h h3) as Hs13 by (by transitivity h2). split; [|by apply Herr].
    apply (wp_mono _ (λ r h', sends h h' ∧ sent_parts filePath (Abs filePath) (identity (Abs filePath) f)
             (if fl_content f =s "" then [] else [(0, fl_content f)]) h r h')).
    2: { intros r h' [Hs Hp]. split; [done|]. exists (String.length (fl_content f)). unfold file_parts.
         by rewrite str_take_all, Ew. }
    destruct (fl_content f =s "").
    + apply wp_ret. split; [done|]. by apply sent_nothing.
    + eapply wp_mono; [apply wp_submit_part|]. unfold sent_parts. rewrite Hse3. intros r h4 [Hs4 Hp4].
      split; [by transitivity h3|done].
  - apply wp_bind, wp_wrap_io. intros h3 Hs3 Hse3. rewrite Hse2 in Hse3.
    assert (sends h h3) as Hs13 by (by transitivity h2). split; [|by apply Herr].
    apply wp_bind. change (wp tick ?Q h3) with (Q (Ok (fd_tick h3)) (tick h3).2). cbv beta iota.
    assert (sends h (tick h3).2) as Hs14 by (transitivity h3; [done|by apply sends_tick]).
    assert (∀ k tail, (tail = EOF → str_take k (fl_content f) = fl_content f) →
      wp (ingest_slices filePath (Abs filePath) (identity (Abs filePath) f) 0 (slices tail (str_take k (fl_content f))))
        (λ r h', sends h h' ∧ ∃ k, sent_parts filePath (Abs filePath) (identity (Abs filePath) f)
           (file_parts filePath (str_take k (fl_content f))) h r h' ∧ (r = Ok () → str_take k (fl_content f) = fl_content f))
        (tick h3).2) as Hrun.
    { intros k tail Hk. eapply wp_mono; [apply wp_ingest_slices; lia|]. intros r h4 (Hs4 & Hp4 & Hok).
      split; [by transitivity (tick h3).2|]. exists k. split; [|auto].
      unfold file_parts. rewrite Ew. unfold sent_parts in *. by rewrite <- Hse3. }
    destruct (read_stops _) as [k|]; [destruct (k <? _)|]; [by apply Hrun|..];
      (rewrite <- (str_take_all (fl_content f)) at 1; apply Hrun; intros; apply str_take_all).
Qed.

Lemma sends_ingest_slices filePath absPath fileID l offset :
  keeps sends (ingest_slices (W := W) (X := X) filePath absPath fileID offset l).
Proof.
  revert offset. induction l as [|[raw e] l IH]; intros offset; [apply keeps_ret; typeclasses eauto|].
  destruct e as [[]|]; cbn [ingest_slices]; keeps_tac.
Qed.
#[local] Hint Resolve sends_wrap_io sends_ingest_slices : worm.
Lemma sends_IngestFile filePath node : keeps sends (IngestFile (W := W) (X := X) filePath node).
Proof. unfold IngestFile, ingest_whole. keeps_tac. Qed.

(** [IngestFile] succeeds only on a file, all of whose parts are then durable. *)
Lemma wp_IngestFile_ok filePath node h :
  wp (IngestFile filePath node) (λ r h', sends h h' ∧
    (r = Ok () → ∃ f, node = Some (FFile f) ∧ ingested filePath f (fd_sink h'))) h.
Proof.
  destruct node as [[f|]|].
  - eapply wp_mono; [apply wp_IngestFile|]. intros r h' (Hs & k & (l & recs & _ & Hp & _ & Hok) & Htext).
    split; [done|]. intros Hr. exists f. split; [done|]. destruct (Hok Hr) as [-> Hd]. rewrite (Htext Hr) in Hp. by exists recs.
  - apply (wp_keeps sends); [apply sends_IngestFile|]. apply wp_bind, wp_wrap_io. intros. by split; [apply wp_fail|].
  - apply (wp_keeps sends); [apply sends_IngestFile|]. apply wp_bind, wp_wrap_io. intros. by split; [apply wp_fail|].
Qed.
End ingest_file.
#[export] Hint Resolve sends_wrap_io sends_ingest_slices sends_IngestFile : worm.

(** ** The watcher: no file is lost, and what is in [processed] is durable *)

Record boxes_disjoint (b : Inbox) : Prop := {
  bd_ip : bx_inbox b ##ₘ bx_processing b; bd_id : bx_inbox b ##ₘ bx_processed b; bd_if : bx_inbox b ##ₘ bx_failed b;
  bd_pd : bx_processing b ##ₘ bx_processed b; bd_pf : bx_processing b ##ₘ bx_failed b;
  bd_df : bx_processed b ##ₘ bx_failed b;
}.
Definition all_files (b : Inbox) : gmap string fnode := bx_inbox b ∪ bx_processing b ∪ bx_processed b ∪ bx_failed b.

Lemma move_spec name src dst s d :
  move name src dst = Some (s, d) → ∃ f, src !! name = Some f ∧ s = delete name src ∧ d = <[name := f]> dst.
Proof. unfold move. intros E. exists (default FDirectory (src !! name)). by repeat case_match; simplify_eq/=. Qed.

(** Whether a name is a file of exactly one directory, name by name. *)
Lemma boxes_disjoint_at b : boxes_disjoint b ↔ ∀ n,
  match bx_inbox b !! n, bx_processing b !! n, bx_processed b !! n, bx_failed b !! n with
  | Some _, None, None, None | None, Some _, None, None | None, None, Some _, None | None, None, None, Some _
  | None, None, None, None => True
  | _, _, _, _ => False
  end.
Proof.
  split.
  - intros [H1 H2 H3 H4 H5 H6] n. rewrite !map_disjoint_spec in *. repeat case_match; eauto.
  - intros Hn. split; apply map_disjoint_spec; intros n x y E1 E2; specialize (Hn n); rewrite E1, E2 in Hn;
      repeat case_match; done.
Qed.
Lemma all_files_lookup b n :
  all_files b !! n = match bx_inbox b !! n with
                     | Some f => Some f
                     | None => match bx_processing b !! n with
                               | Some f => Some f
                               | None => match bx_processed b !! n with Some f => Some f | None => bx_failed b !! n end
                               end
                     end.
Proof. unfold all_files. rewrite !lookup_union. by destruct (bx_inbox b !! n), (bx_processing b !! n), (bx_processed b !! n), (bx_failed b !! n). Qed.

(** A rename among the directories: same files, still each in one directory. *)
Definition rearranged (b b' : Inbox) : Prop := boxes_disjoint b → boxes_disjoint b' ∧ all_files b' = all_files b.
#[export] Instance rearranged_preorder : PreOrder rearranged.
Proof. split; [by split|]. intros x y z Hxy Hyz Hx. destruct (Hxy Hx) as [Hy <-]. by apply Hyz. Qed.

Ltac rearranged_tac name :=
  let Hd := fresh "Hd" in let n := fresh "n" in
  intros Hd; rewrite boxes_disjoint_at in *; split; [|apply map_eq]; intros n; rewrite ?all_files_lookup;
  specialize (Hd n); cbn in *; destruct (decide (n = name)) as [->|];
  rewrite ?lookup_insert_eq, ?lookup_delete_eq, ?lookup_insert_ne, ?lookup_delete_ne by done;
  repeat case_match; simplify_eq; done.

Section watcher_proofs.
Context `{HostNames} {W : Type} `{DurableReceiver W} (inboxDir : string).
Implicit Types (h : Feed W Inbox).

Definition processed_durable h : Prop :=
  ∀ name f, bx_processed (fd_own h) !! name = Some (FFile f) → ingested (procPath inboxDir name) f (fd_sink h).

Record watched h h' : Prop := {
  wt_grows : grows h h';
  wt_files : rearranged (fd_own h) (fd_own h');
  wt_durable : processed_durable h → processed_durable h';
}.
#[export] Instance watched_preorder : PreOrder watched.
Proof.
  split; [by split|]. intros x y z [Hg Hf Hd] [Hg' Hf' Hd']. split; [by transitivity y|by transitivity (fd_own y)|auto].
Qed.

Lemma ingested_grows filePath f h h' : grows h h' → ingested filePath f (fd_sink h) → ingested filePath f (fd_sink h').
Proof.
  intros [Hg _] (recs & Hp & Hd). exists recs. split; [done|]. eapply Forall_impl; [exact Hd|]. intros x. apply Hg.
Qed.
Lemma watched_sends h h' : sends h h' → watched h h'.
Proof.
  intros [Hg Ho]. split; [done|by rewrite Ho|]. intros Hd name f. rewrite Ho. intros Hl.
  by apply (ingested_grows _ _ h), Hd.
Qed.
Lemma keeps_watched {A} (m : Prog (Feed W Inbox) A) : keeps sends m → keeps watched m.
Proof. apply keeps_mono. apply watched_sends. Qed.

(** One rename, which the directories [b] leave as [g b]. *)
Lemma wp_rename_with `{SpoolEnv} g Q h :
  (∀ e h', sends h h' → Q (Err e) h') →
  (∀ b' h', g (fd_own h) = Some b' → grows h h' → fd_own h' = b' → Q (Ok ()) h') → wp (rename_with g) Q h.
Proof.
  intros He Hok. unfold rename_with, fs_op. apply wp_bind, wp_wrap_io. intros h1 Hs1 _. split; [|by apply He].
  apply wp_bind. change (wp feed_own ?Q h1) with (Q (Ok (fd_own h1)) h1). cbv beta iota.
  rewrite (proj2 Hs1). destruct (g (fd_own h)) as [b'|] eqn:Eg; [|by apply wp_fail, He].
  apply (wp_run _ _ _ (Ok ()) (set_feed_own b' h1).2); [done|]. apply (Hok b'); [done| |done].
  transitivity h1; [apply Hs1|apply grows_set_own].
Qed.

Lemma keeps_rename `{SpoolEnv} g :
  (∀ b b', g b = Some b' → rearranged b b' ∧ bx_processed b' = bx_processed b) → keeps watched (rename_with (W := W) g).
Proof.
  intros Hg. apply keeps_wp. intros h. apply wp_rename_with.
  - intros _ h' Hs. by apply watched_sends.
  - intros b' h' Eg Hgr Ho. destruct (Hg _ _ Eg) as [Hr Hp]. split; [done|by rewrite Ho|].
    intros Hd name f. rewrite Ho, Hp. intros Hl. by apply (ingested_grows _ _ h), Hd.
Qed.

Lemma watched_to_processing `{SpoolEnv} name : keeps watched (to_processing (W := W) name).
Proof.
  apply keeps_rename. intros b b'. destruct (move _ _ _) as [[s d]|] eqn:Em; [|done]. intros [= <-].
  apply move_spec in Em as (f & Ef & -> & ->). split; [|done]. rearranged_tac name.
Qed.
Lemma watched_to_failed `{SpoolEnv} name : keeps watched (to_failed (W := W) name).
Proof.
  apply keeps_rename. intros b b'. destruct (move _ _ _) as [[s d]|] eqn:Em; [|done]. intros [= <-].
  apply move_spec in Em as (f & Ef & -> & ->). split; [|done]. rearranged_tac name.
Qed.
(** [processed] receives a file only after all of it. *)
Lemma watched_to_processed `{SpoolEnv} name f h :
  bx_processing (fd_own h) !! name = Some (FFile f) → ingested (procPath inboxDir name) f (fd_sink h) →
  wp (to_processed name) (λ _ h', watched h h') h.
Proof.
  intros Hn Hi. apply wp_rename_with; [intros _ h' Hs; by apply watched_sends|].
  intros b' h' Em Hgr Ho. destruct (move _ _ _) as [[s d]|] eqn:E; [|done]. injection Em as <-.
  apply move_spec in E as (f' & Ef & -> & ->). rewrite Hn in Ef. injection Ef as <-. split; [done|rewrite Ho; rearranged_tac name|].
  intros Hd n g. rewrite Ho. cbn. destruct (decide (n = name)) as [->|Hne].
  - rewrite lookup_insert_eq. intros [= <-]. by apply (ingested_grows _ _ h).
  - rewrite lookup_insert_ne by done. intros Hl. by apply (ingested_grows _ _ h), Hd.
Qed.

Context `{IngestEnv} `{SpoolEnv}.

Lemma watched_processFile name : keeps watched (processFile (W := W) inboxDir name).
Proof.
  apply keeps_wp. intros h. unfold processFile.
  apply wp_bind. change (wp feed_own ?Q h) with (Q (Ok (fd_own h)) h). cbv beta iota.
  apply wp_bind, wp_try. eapply wp_mono; [apply wp_IngestFile_ok|]. intros r h1 [Hs Hok].
  assert (watched h h1) as Hw by by apply watched_sends.
  assert (∀ (m : Prog (Feed W Inbox) unit), keeps watched m → wp m (λ _ h', watched h h') h1) as Hrest.
  { intros m Hm. eapply wp_mono; [apply keeps_wp, Hm|]. intros r' h' ?. by transitivity h1. }
  destruct r as [[]|e|q].
  - destruct (Hok eq_refl) as (f & Hn & Hi). unfold ignored. apply wp_bind, wp_try.
    eapply wp_mono; [apply (watched_to_processed name f); [by rewrite (proj2 Hs)|done]|].
    intros r' h' Hw'. destruct r' as [[]|e|q]; [apply wp_ret|apply wp_ret|]; by transitivity h1.
  - apply Hrest. unfold ignored. keeps_tac; eauto using keeps_watched, sends_poll_ctx, watched_to_failed.
  - done.
Qed.
#[local] Hint Resolve watched_processFile watched_to_processing : worm.
#[local] Hint Extern 2 (keeps watched _) => apply keeps_watched : worm.

Lemma sends_wait_ok : keeps sends (fs_op (W := W) (X := Inbox)).
Proof. apply sends_wrap_io. Qed.
#[local] Hint Resolve sends_wait_ok : worm.

Lemma watched_scan_inbox l : keeps watched (scan_inbox (W := W) inboxDir l).
Proof.
  induction l as [|[name node] l IH]; [apply keeps_ret; typeclasses eauto|]. destruct node; cbn [scan_inbox]; keeps_tac.
Qed.
Lemma watched_scan_processing l : keeps watched (scan_processing (W := W) inboxDir l).
Proof.
  induction l as [|[name node] l IH]; [apply keeps_ret; typeclasses eauto|]. destruct node; cbn [scan_processing]; keeps_tac.
Qed.
#[local] Hint Resolve watched_scan_inbox watched_scan_processing : worm.
Lemma watched_ticks n : keeps watched (ticks (W := W) inboxDir n).
Proof.
  induction n as [|n IH]; [apply keeps_ret; typeclasses eauto|]. cbn [ticks]. unfold scanInbox. keeps_tac.
Qed.
#[local] Hint Resolve watched_ticks : worm.
Lemma watched_Start n : keeps watched (FileWatcher_Start (W := W) inboxDir n).
Proof. unfold FileWatcher_Start, scanProcessing, scanInbox. keeps_tac. Qed.
End watcher_proofs.

(** The life of a spool: files are dropped into the inbox, and the watcher runs, each time
    in an environment of its own: it fails, is cancelled and is started again. *)
Inductive spool_event := Dropped (name : string) (f : File) | Watched (env : IngestEnv) (fs : SpoolEnv) (n : nat).

Definition empty_boxes : Inbox := {| bx_inbox := ∅; bx_processing := ∅; bx_processed := ∅; bx_failed := ∅ |}.
Definition drop_file (name : string) (f : File) (b : Inbox) : Inbox :=
  {| bx_inbox := <[name := FFile f]> (bx_inbox b); bx_processing := bx_processing b; bx_processed := bx_processed b;
     bx_failed := bx_failed b |}.

Section spool.
Context `{HostNames} {W : Type} `{DurableReceiver W} (inboxDir : string).

Definition spool_step (h : Feed W Inbox) (e : spool_event) : Feed W Inbox :=
  match e with
  | Dropped name f => (set_feed_own (drop_file name f (fd_own h)) h).2
  | Watched env fs n => (@FileWatcher_Start env fs _ W _ inboxDir n h).2
  end.
Definition spool (s : W) (events : list spool_event) : Feed W Inbox :=
  foldl spool_step {| fd_sink := s; fd_own := empty_boxes; fd_sent := []; fd_tick := 0 |} events.

Definition dropped (events : list spool_event) : list (string * File) :=
  omap (λ e, match e with Dropped name f => Some (name, f) | _ => None end) events.

Lemma spool_durable s events : processed_durable inboxDir (spool s events).
Proof.
  unfold spool. induction events as [|e events IH] using rev_ind.
  { intros name f. cbn. by rewrite lookup_empty. }
  rewrite foldl_snoc. destruct e as [name f|env fs n]; [exact IH|]. by apply watched_Start.
Qed.

Lemma spool_files s events :
  NoDup (dropped events).*1 →
  boxes_disjoint (fd_own (spool s events)) ∧
  ∀ name node, all_files (fd_own (spool s events)) !! name = Some node ↔ ∃ f, node = FFile f ∧ (name, f) ∈ dropped events.
Proof.
  unfold spool. induction events as [|e events IH] using rev_ind; intros Hnd.
  { split; [apply boxes_disjoint_at; intros n; cbn; by rewrite lookup_empty|]. intros name node.
    rewrite all_files_lookup. cbn. rewrite lookup_empty. split; [done|]. intros (f & _ & Hf). by apply not_elem_of_nil in Hf. }
  rewrite foldl_snoc. unfold dropped in Hnd |- *. rewrite omap_app in Hnd |- *. rewrite fmap_app in Hnd.
  apply NoDup_app in Hnd as (Hnd & Hfresh & _). destruct (IH Hnd) as [Hd Hall]. clear IH.
  set (h := foldl spool_step _ events) in *. destruct e as [name f|env fs n]; cbn [spool_step omap list_omap app].
  - assert (all_files (fd_own h) !! name = None) as Hnone.
    { apply eq_None_not_Some. intros [node Hn]. apply Hall in Hn as (g & -> & Hg).
      apply (Hfresh name); [apply list_elem_of_fmap; by exists (name, g)|]. cbn. by apply list_elem_of_here. }
    cbn [set_feed_own snd fd_own drop_file]. rewrite boxes_disjoint_at in Hd. split.
    + apply boxes_disjoint_at. intros n. specialize (Hd n). cbn. destruct (decide (n = name)) as [->|].
      * rewrite lookup_insert_eq. rewrite all_files_lookup in Hnone. repeat case_match; by simplify_eq.
      * by rewrite lookup_insert_ne.
    + intros n node. rewrite all_files_lookup. cbn. destruct (decide (n = name)) as [->|].
      * rewrite lookup_insert_eq. split; [intros [= <-]; exists f; split; [done|]; apply elem_of_app; right; by apply list_elem_of_here|].
        intros (g & -> & [Hg|Hg]%elem_of_app); [|by apply list_elem_of_singleton in Hg as [= ->]].
        exfalso. assert (all_files (fd_own h) !! name = Some (FFile g)) as Hs; [|by rewrite Hnone in Hs].
        apply Hall. by exists g.
      * rewrite lookup_insert_ne by done. specialize (Hall n node). rewrite all_files_lookup in Hall. rewrite Hall.
        setoid_rewrite elem_of_app. setoid_rewrite list_elem_of_singleton. naive_solver.
  - rewrite app_nil_r. destruct (wt_files _ _ _ (watched_Start inboxDir n h) Hd) as [Hd' ->]. done.
Qed.

(** C16: whatever the watcher meets (failing calls, reads that stop, refused records, a
    cancelled context, restarts), a file in [processed] has had every part of it made
    durable: the whole of a CSV, JSON or XML file, each non-empty line of another with its
    offset; and, where no two dropped files have the same name, each dropped file is still,
    unchanged, in exactly one of the four directories. *)
Theorem spool_safe s events :
  processed_durable inboxDir (spool s events)
  ∧ (NoDup (dropped events).*1 →
     boxes_disjoint (fd_own (spool s events))
     ∧ ∀ name node, all_files (fd_own (spool s events)) !! name = Some node ↔
                    ∃ f, node = FFile f ∧ (name, f) ∈ dropped events).
Proof. split; [apply spool_durable|apply spool_files]. Qed.
End spool.

(** ** A concrete spool *)

Definition working_spool : SpoolEnv := {| fs_fails _ := false; read_stops _ := None |}.
(** Reading any file fails after that many bytes. *)
Definition torn_spool (k : Z) : SpoolEnv := {| fs_fails _ := false; read_stops _ := Some k |}.
Definition sample_names : HostNames := {| Abs p := "/srv/" +:+ p; sha256_text s := s |}.

Definition two_lines : File := {| fl_content := "first" +:+ chr LF +:+ "second" +:+ chr LF; fl_mod := 7 |}.

Definition payloads (l : list IngestedRecord) : list (Z * string) := map (λ r, (FileOffset (ir_Metadata r), ir_RawBytes r)) l.

(** A read that fails inside a line has already sent the torn line. *)
Lemma torn_line_sent :
  let run := @IngestFile live_context (torn_spool 9) sample_names _ keeping unit "a.log" (Some (FFile two_lines))
               {| fd_sink := []; fd_own := (); fd_sent := []; fd_tick := 0 |} in
  payloads (fd_sent run.2) = [(0, "first"); (6, "sec")] ∧ file_parts "a.log" (fl_content two_lines) = [(0, "first"); (6, "second")]
  ∧ run.1 ≠ Ok ().
Proof. by vm_compute. Qed.

(** A file dropped, the watcher stopped by a torn read, and the file of a second run. *)
Definition spool_day : list spool_event :=
  [Dropped "a.log" two_lines; Watched live_context working_spool 0;
   Dropped "b.txt" two_lines; Watched live_context (torn_spool 9) 2].

Lemma spool_safe_witness :
  NoDup (dropped spool_day).*1 ∧
  let h := @spool sample_names _ keeping "in" [] spool_day in
  bx_processed (fd_own h) !! "a.log" = Some (FFile two_lines) ∧ bx_failed (fd_own h) !! "b.txt" = Some (FFile two_lines)
  ∧ @processed_durable sample_names _ keeping keeping_durable "in" h
  ∧ (∀ name node, all_files (fd_own h) !! name = Some node ↔ ∃ f, node = FFile f ∧ (name, f) ∈ dropped spool_day).
Proof.
  assert (NoDup (dropped spool_day).*1) as Hnd by (apply (bool_decide_unpack _); vm_compute; exact I).
  split; [exact Hnd|]. cbv zeta. split; [by vm_compute|]. split; [by vm_compute|].
  destruct (@spool_safe sample_names _ keeping keeping_durable "in" [] spool_day) as [Hd Hf].
  split; [exact Hd|]. exact (proj2 (Hf Hnd)).
Defined.
