(* ===== verification/Pull.v ===== *)
(** * [internal/ingest/kafka.go] and [poller.go]: the adapters that pull

    Both move a checkpoint (the offsets committed to the broker; the watermark) after
    their records are acknowledged.  The broker's client and the remote endpoint are the
    environment's; so is the disk under the watermark, whose writes may stop part way. *)

From S2P Require Import Prelude GoStrings GoNum GoTime Model.
From S2P Require Export Monad Ingest.

#[local] Open Scope monad_scope.

(** [defer fin]: whatever [m] ends in, [fin] runs. *)
Definition deferred {S A} (fin : S → S) (m : Prog S A) : Prog S A := λ w, let '(r, w') := m w in (r, fin w').

Lemma wp_deferred {S A} (fin : S → S) (m : Prog S A) Q w : wp m (λ r w', Q r (fin w')) w → wp (deferred fin m) Q w.
Proof. unfold wp, deferred. by destruct (m w). Qed.

Definition map_own {W X} (f : X → X) (h : Feed W X) : Feed W X := (set_feed_own (f (fd_own h)) h).2.

(** ** Kafka *)

Record KafkaConsumerRecord := {
  kr_Topic : string; kr_Partition : Z; kr_Offset : Z; kr_Key : string; kr_Value : string; kr_Timestamp : time }.

Class KafkaConsumerClient := {
  Poll : nat → res (list KafkaConsumerRecord);
  CommitOffset : nat → option error;               (* does the broker refuse this commit? *)
  kafka_closed : nat → bool;                       (* has Stop been called? *)
}.

(** What the broker has been told, and what it has handed out. *)
Record KafkaOwn := { kf_polled : list KafkaConsumerRecord; kf_commits : list (string * Z * Z); kf_allowed : nat }.
Definition kafka_start : KafkaOwn := {| kf_polled := []; kf_commits := []; kf_allowed := 0 |}.

Definition kafka_key (m : KafkaConsumerRecord) : string * Z * Z := (kr_Topic m, kr_Partition m, kr_Offset m).
Definition polled (l : list KafkaConsumerRecord) (x : KafkaOwn) : KafkaOwn :=
  {| kf_polled := kf_polled x ++ l; kf_commits := kf_commits x; kf_allowed := kf_allowed x |}.
Definition committed_offset (m : KafkaConsumerRecord) (x : KafkaOwn) : KafkaOwn :=
  {| kf_polled := kf_polled x; kf_commits := kf_commits x ++ [kafka_key m]; kf_allowed := kf_allowed x |}.
Definition AllowRebalance (x : KafkaOwn) : KafkaOwn :=
  {| kf_polled := kf_polled x; kf_commits := kf_commits x; kf_allowed := S (kf_allowed x) |}.

Definition kafka_record (name : string) (m : KafkaConsumerRecord) (now : time) : IngestedRecord :=
  {| ir_Transport := "kafka_input"; ir_SourceIP := "kafka://" +:+ kr_Topic m; ir_SourcePort := 0;
     ir_RawBytes := kr_Value m; ir_ReceivedAt := now;
     ir_Metadata := {| ConnectionID := name; Listener := ""; RequestID := ""; FilePath := ""; FileID := "";
                       FileOffset := 0; ObjectKey := ""; Watermark := ""; KafkaTopic := kr_Topic m;
                       KafkaPartition := kr_Partition m; KafkaOffset := kr_Offset m; KafkaKey := kr_Key m |};
     ir_ExistingRawID := "" |}.

Section kafka.
Context `{IngestEnv} `{KafkaConsumerClient} `{Receiver W} (name : string).
Abbreviation P := (Prog (Feed W KafkaOwn)).

Definition update_own (f : KafkaOwn → KafkaOwn) : P unit := λ h, (Ok (), map_own f h).

Definition commit_offset (m : KafkaConsumerRecord) : P unit :=
  t <- tick ;;
  match CommitOffset t with
  | Some e => fail (Errorf "commit Kafka offset %s/%d/%d: %w" [AStr (kr_Topic m); AInt (kr_Partition m); AInt (kr_Offset m); AErr e])
  | None => update_own (committed_offset m)
  end.

Fixpoint process_messages (records : list KafkaConsumerRecord) : P unit :=
  match records with
  | [] => ret ()
  | m :: records' =>
      now <- feed_Now ;;
      submit (λ e, Errorf "raw commit failed for Kafka offset %s/%d/%d: %w"
                     [AStr (kr_Topic m); AInt (kr_Partition m); AInt (kr_Offset m); AErr e])
        (kafka_record name m now) ;;;
      commit_offset m ;;;
      process_messages records'
  end.
Definition processBatch (records : list KafkaConsumerRecord) : P unit :=
  deferred (map_own AllowRebalance) (process_messages records).

(** The first [n] rounds of [Start]'s loop. *)
Fixpoint KafkaAdapter_Start (n : nat) : P unit :=
  match n with
  | O => ret ()
  | S n' =>
      c <- poll_ctx ;;
      if c then fail ctx_canceled
      else
        t <- tick ;;
        if kafka_closed t then ret ()
        else
          match Poll t with
          | Panic q => mcall (Panic q)
          | Err _ => c <- poll_ctx ;; if c then fail ctx_canceled else KafkaAdapter_Start n'
          | Ok records =>
              update_own (polled records) ;;;
              (match records with [] => ret () | _ => processBatch records end) ;;;
              KafkaAdapter_Start n'
          end
  end.
End kafka.

(** [MemoryKafkaConsumer], the client the program's own tests use. *)
Record MemoryKafkaConsumer := {
  mk_queue : list KafkaConsumerRecord; mk_committed : gmap (string * Z) Z; mk_allowed : nat; mk_closed : bool }.
Definition Memory_Poll (m : MemoryKafkaConsumer) : list KafkaConsumerRecord * MemoryKafkaConsumer :=
  (mk_queue m, {| mk_queue := []; mk_committed := mk_committed m; mk_allowed := mk_allowed m; mk_closed := mk_closed m |}).
Definition Memory_CommitOffset (topic : string) (partition offset : Z) (m : MemoryKafkaConsumer) : MemoryKafkaConsumer :=
  {| mk_queue := mk_queue m; mk_committed := <[(topic, partition) := offset]> (mk_committed m);
     mk_allowed := mk_allowed m; mk_closed := mk_closed m |}.
Definition Memory_GetCommitted (topic : string) (partition : Z) (m : MemoryKafkaConsumer) : Z :=
  default 0 (mk_committed m !! (topic, partition)).

Section kafka_proofs.
Context `{IngestEnv} `{KafkaConsumerClient} {W : Type} `{DurableReceiver W} (name : string).
Implicit Types (h : Feed W KafkaOwn).

Definition message_durable (s : W) (m : KafkaConsumerRecord) : Prop := ∃ now, durable (kafka_record name m now) s.

(** The messages [done] are durable, and the broker has commits for these alone: for all
    of them, or all but the last. *)
Definition checkpointed h (done : list KafkaConsumerRecord) : Prop :=
  Forall (message_durable (fd_sink h)) done ∧
  (kf_commits (fd_own h) = map kafka_key done ∨ ∃ m d, done = d ++ [m] ∧ kf_commits (fd_own h) = map kafka_key d).

Definition kafka_safe h : Prop := ∃ done rest, kf_polled (fd_own h) = done ++ rest ∧ checkpointed h done.
(** Between batches, everything handed out is durable and committed. *)
Definition kafka_settled h : Prop :=
  Forall (message_durable (fd_sink h)) (kf_polled (fd_own h)) ∧ kf_commits (fd_own h) = map kafka_key (kf_polled (fd_own h)).

Lemma durable_grows h h' l :
  grows h h' → Forall (message_durable (fd_sink h)) l → Forall (message_durable (fd_sink h')) l.
Proof. intros [Hg _] Hl. eapply Forall_impl; [exact Hl|]. intros m [now Hm]. exists now. by apply Hg. Qed.

(** From a state where [done] is settled and [records] are handed out. *)
Lemma wp_process_messages records done h :
  kf_polled (fd_own h) = done ++ records → Forall (message_durable (fd_sink h)) done →
  kf_commits (fd_own h) = map kafka_key done →
  wp (process_messages name records) (λ r h', kafka_safe h' ∧ (r = Ok () → kafka_settled h')) h.
Proof.
  revert done h. induction records as [|m records IH]; intros done h Hp Hd Hc; cbn [process_messages].
  { apply wp_ret. rewrite app_nil_r in Hp. split; [exists done, []; rewrite app_nil_r; split; [done|split; [done|by left]]|].
    intros _. by unfold kafka_settled; rewrite Hp. }
  assert (∀ h1 : Feed W KafkaOwn, sends h h1 → kafka_safe h1) as Hsafe.
  { intros h1 [Hg Ho]. exists done, (m :: records). rewrite Ho. split; [done|]. split; [by apply (durable_grows h)|].
    left. by rewrite Ho. }
  apply wp_bind, wp_feed_Now. intros now h1 Hs1 _.
  apply wp_bind. eapply wp_mono; [apply wp_submit|]. cbv beta. intros r h2 (Hs2 & _ & Hok).
  assert (sends h h2) as Hs by (by transitivity h1). pose proof (Hsafe _ Hs) as Hsafe2.
  destruct r as [[]|e|q]; [|done..]. destruct (Hok eq_refl) as [_ Hdm]. clear Hok.
  apply wp_bind. unfold commit_offset. apply wp_bind.
  change (wp tick ?Q h2) with (Q (Ok (fd_tick h2)) (tick h2).2). cbv beta iota.
  assert (sends h (tick h2).2) as Hst by (transitivity h2; [done|by apply sends_tick]).
  assert (Forall (message_durable (fd_sink h2)) (done ++ [m])) as Hdone.
  { apply Forall_app. split; [apply (durable_grows h); [apply Hs|done]|]. repeat constructor. by exists now. }
  destruct (CommitOffset _) as [e|].
  - apply wp_fail. split; [|done]. exists (done ++ [m]), records. unfold checkpointed. rewrite (proj2 Hst).
    rewrite <- app_assoc. split; [done|]. split; [done|]. right. by exists m, done.
  - apply (wp_run _ _ _ (Ok ()) (map_own (committed_offset m) (tick h2).2)); [done|].
    apply (IH (done ++ [m])); unfold map_own; cbn [set_feed_own snd fd_own fd_sink committed_offset kf_polled kf_commits];
      rewrite ?(proj2 Hst); [by rewrite <- app_assoc|done|]. by rewrite Hc, map_app.
Qed.

Lemma kafka_settled_sends h h' : sends h h' → kafka_settled h → kafka_settled h'.
Proof.
  intros [Hg Ho] [Hd Hc]. split; rewrite Ho; [by apply (durable_grows h)|done].
Qed.
Lemma settled_safe h : kafka_settled h → kafka_safe h.
Proof. intros [Hd Hc]. exists (kf_polled (fd_own h)), []. rewrite app_nil_r. split; [done|]. split; [done|by left]. Qed.

Lemma wp_kafka_Start n h : kafka_settled h → wp (KafkaAdapter_Start name n) (λ _ h', kafka_safe h') h.
Proof.
  revert h. induction n as [|n IH]; intros h Hh; cbn [KafkaAdapter_Start]; [by apply wp_ret, settled_safe|].
  apply wp_bind, wp_poll_ctx. intros c h1 Hs1 _. apply (kafka_settled_sends h h1) in Hh; [|done]. clear Hs1.
  destruct c; [by apply wp_fail, settled_safe|].
  apply wp_bind. change (wp tick ?Q h1) with (Q (Ok (fd_tick h1)) (tick h1).2). cbv beta iota.
  apply (kafka_settled_sends h1 (tick h1).2) in Hh; [|by apply sends_tick]. set (h2 := (tick h1).2) in *.
  destruct (kafka_closed _); [by apply wp_ret, settled_safe|].
  destruct (Poll _) as [records|e|q]; [| |by apply wp_mcall, settled_safe].
  2: { apply wp_bind, wp_poll_ctx. intros c h3 Hs3 _. apply (kafka_settled_sends h2 h3) in Hh; [|done].
       destruct c; [by apply wp_fail, settled_safe|by apply IH]. }
  apply wp_bind. apply (wp_run _ _ _ (Ok ()) (map_own (polled records) h2)); [done|]. apply wp_bind.
  destruct Hh as [Hd Hc]. destruct records as [|m records].
  - apply wp_ret, IH. split; cbn; by rewrite app_nil_r.
  - unfold processBatch. apply wp_deferred.
    eapply wp_mono; [apply (wp_process_messages (m :: records) (kf_polled (fd_own h2))); done|]. cbv beta.
    intros r h3 [Hsafe Hok]. destruct r as [[]|e|q]; [apply IH; by apply Hok|done..].
Qed.
End kafka_proofs.

(** ** The cloud poller *)

Record PollerConfig := {
  pc_Name : string; pc_EndpointURL : string; pc_BatchSize : Z; pc_WatermarkPath : string;
  pc_AuthHeader : string; pc_AuthToken : string }.

(** What a poll of the endpoint comes to. *)
Inductive fetched :=
| BadEndpoint (e : error) | BadRequest (e : error) | NoResponse (e : error)
| Response (status : Z) (batch : res (string * list string)).      (* next_watermark, records *)

Class PollEnv := {
  fetch (query : list (string * string)) (auth : option (string * string)) : nat → fetched;
  disk_fails : nat → bool;                         (* a call on the disk fails *)
  tears : nat → option nat;                        (* a write stops after so many bytes *)
  poller_closed : nat → bool;
}.

(** The watermark in memory, and on disk. *)
Record PollerOwn := { po_watermark : string; po_file : option string }.

Definition cloud_record (cfg : PollerConfig) (since payload : string) (now : time) : IngestedRecord :=
  {| ir_Transport := "cloud_pull"; ir_SourceIP := pc_EndpointURL cfg; ir_SourcePort := 0; ir_RawBytes := payload;
     ir_ReceivedAt := now;
     ir_Metadata := {| ConnectionID := pc_Name cfg; Listener := ""; RequestID := ""; FilePath := ""; FileID := "";
                       FileOffset := 0; ObjectKey := ""; Watermark := since; KafkaTopic := "";
                       KafkaPartition := 0; KafkaOffset := 0; KafkaKey := "" |};
     ir_ExistingRawID := "" |}.

(** The parameters the poll sets in the endpoint's query. *)
Definition poll_query (cfg : PollerConfig) (since : string) : list (string * string) :=
  ("limit", Itoa (pc_BatchSize cfg)) :: if since <>s "" then [("since", since)] else [].
Definition poll_auth (cfg : PollerConfig) : option (string * string) :=
  if (pc_AuthHeader cfg <>s "") && (pc_AuthToken cfg <>s "") then Some (pc_AuthHeader cfg, pc_AuthToken cfg) else None.

Section poller.
Context `{IngestEnv} `{PollEnv} `{Receiver W} (cfg : PollerConfig).
Abbreviation P := (Prog (Feed W PollerOwn)).

Definition remember (wm : string) (x : PollerOwn) : PollerOwn := {| po_watermark := wm; po_file := po_file x |}.
Definition write_file (text : string) (x : PollerOwn) : PollerOwn :=
  {| po_watermark := po_watermark x; po_file := Some text |}.
Definition update (f : PollerOwn → PollerOwn) : P unit := λ h, (Ok (), map_own f h).

(** A missing file leaves the watermark in memory as it is. *)
Definition LoadWatermark : P string :=
  x <- feed_own ;;
  if pc_WatermarkPath cfg =s "" then ret (po_watermark x)
  else
    t <- tick ;;
    if disk_fails t then fail (errors_New "input/output error")
    else match po_file x with None => ret "" | Some data => update (remember data) ;;; ret data end.

(** [os.WriteFile] truncates the file, and writes. *)
Definition SaveWatermark (wm : string) : P unit :=
  update (remember wm) ;;;
  if pc_WatermarkPath cfg =s "" then ret ()
  else
    t <- tick ;;
    if disk_fails t then fail (errors_New "input/output error")
    else match tears t with
         | Some k => update (write_file (str_take k wm)) ;;; fail (errors_New "input/output error")
         | None => update (write_file wm)
         end.

Fixpoint submit_batch (since : string) (records : list string) : P unit :=
  match records with
  | [] => ret ()
  | p :: records' =>
      now <- feed_Now ;;
      submit (λ e, Errorf "raw commit failed for pulled record: %w" [AErr e]) (cloud_record cfg since p now) ;;;
      submit_batch since records'
  end.

Definition pollOnce : P unit :=
  x <- feed_own ;;
  let currentWM := po_watermark x in
  t <- tick ;;
  match fetch (poll_query cfg currentWM) (poll_auth cfg) t with
  | BadEndpoint e => fail (Errorf "parse poll endpoint: %w" [AErr e])
  | BadRequest e => fail (Errorf "failed to construct poll request: %w" [AErr e])
  | NoResponse e => fail (Errorf "poll request error: %w" [AErr e])
  | Response status batch =>
      if negb (status =? 200) then fail (Errorf "poll returned HTTP %d" [AInt status])
      else
        match batch with
        | Panic p => mcall (Panic p)
        | Err e => fail (Errorf "failed to decode poll response: %w" [AErr e])
        | Ok (_, []) => ret ()
        | Ok (next, records) =>
            submit_batch currentWM records ;;;
            if next <>s "" then
              r <- try (SaveWatermark next) ;;
              match r with
              | Err e => fail (Errorf "failed to persist watermark: %w" [AErr e])
              | r => mcall r
              end
            else ret ()
        end
  end.

Definition poll_ignored : P unit := _ <- try pollOnce ;; ret ().

(** The first [n] ticks of [Start]'s loop. *)
Fixpoint poll_ticks (n : nat) : P unit :=
  match n with
  | O => ret ()
  | S n' =>
      c <- select_ctx ;;
      if c then fail ctx_canceled
      else t <- tick ;; if poller_closed t then ret () else poll_ignored ;;; poll_ticks n'
  end.
Definition CloudPoller_Start (n : nat) : P unit := _ <- try LoadWatermark ;; poll_ignored ;;; poll_ticks n.
End poller.

Section poller_proofs.
Context `{IngestEnv} `{PollEnv} {W : Type} `{DurableReceiver W} (cfg : PollerConfig).
Implicit Types (h : Feed W PollerOwn).

(** The endpoint answered [wm] with a batch, every record of which is durable. *)
Definition acked (s : W) (wm : string) : Prop :=
  ∃ since t records, fetch (poll_query cfg since) (poll_auth cfg) t = Response 200 (Ok (wm, records))
    ∧ Forall (λ p, ∃ now, durable (cloud_record cfg since p now) s) records.
(** ... or a write of such a watermark stopped part way. *)
Definition covered (s : W) (text : string) : Prop :=
  ∃ wm, acked s wm ∧ (text = wm ∨ ∃ t k, tears t = Some k ∧ text = str_take k wm).

Record poller_safe h : Prop := {
  ps_memory : po_watermark (fd_own h) = "" ∨ covered (fd_sink h) (po_watermark (fd_own h));
  ps_disk text : po_file (fd_own h) = Some text → covered (fd_sink h) text;
}.

Lemma covered_grows h h' text : grows h h' → covered (fd_sink h) text → covered (fd_sink h') text.
Proof.
  intros [Hg _] (wm & (since & t & records & Hf & Hd) & Hw). exists wm. split; [|done]. exists since, t, records.
  split; [done|]. eapply Forall_impl; [exact Hd|]. intros p [now Hp]. exists now. by apply Hg.
Qed.
Lemma poller_safe_sends h h' : sends h h' → poller_safe h → poller_safe h'.
Proof.
  intros [Hg Ho] [Hm Hd]. split; rewrite Ho; [|intros text Ht; by apply (covered_grows h), Hd].
  destruct Hm as [Hm|Hm]; [by left|right]. by apply (covered_grows h).
Qed.

Definition keeps_poller_safe h h' : Prop := poller_safe h → poller_safe h'.
#[export] Instance keeps_poller_safe_preorder : PreOrder keeps_poller_safe.
Proof. split; [intros x|intros x y z]; unfold keeps_poller_safe; auto. Qed.
Lemma keeps_safe_sends {A} (m : Prog (Feed W PollerOwn) A) : keeps sends m → keeps keeps_poller_safe m.
Proof. apply keeps_mono. intros h h' Hs Hp. by apply (poller_safe_sends h). Qed.

Lemma wp_submit_batch since records h :
  wp (submit_batch cfg since records) (λ r h', sends h h' ∧
    (r = Ok () → Forall (λ p, ∃ now, durable (cloud_record cfg since p now) (fd_sink h')) records)) h.
Proof.
  revert h. induction records as [|p records IH]; intros h; cbn [submit_batch]; [apply wp_ret; by split|].
  apply wp_bind, wp_feed_Now. intros now h1 Hs1 _. apply wp_bind. eapply wp_mono; [apply wp_submit|]. cbv beta.
  intros r h2 (Hs2 & _ & Hok). assert (sends h h2) as Hs by (by transitivity h1).
  destruct r as [[]|e|q]; [|by split..]. destruct (Hok eq_refl) as [_ Hdur].
  eapply wp_mono; [apply IH|]. cbv beta. intros r h3 [Hs3 Hall]. split; [by transitivity h2|]. intros Hr.
  constructor; [|by apply Hall]. exists now. by apply (proj1 Hs3).
Qed.

Lemma wp_SaveWatermark wm h :
  acked (fd_sink h) wm → poller_safe h → wp (SaveWatermark cfg wm) (λ _ h', poller_safe h') h.
Proof.
  intros Ha [Hm Hd]. assert (∀ h' : Feed W PollerOwn, fd_sink h' = fd_sink h → po_watermark (fd_own h') = wm →
    (∀ text, po_file (fd_own h') = Some text → covered (fd_sink h) text) → poller_safe h') as Hsafe.
  { intros h' Hs Hw Hf. split; rewrite Hs; [right; rewrite Hw; exists wm; by split; [|left]|done]. }
  unfold SaveWatermark. apply wp_bind. apply (wp_run _ _ _ (Ok ()) (map_own (remember wm) h)); [done|].
  destruct (_ =s _); [apply wp_ret; by apply Hsafe|].
  apply wp_bind. change (wp tick ?Q ?x) with (Q (Ok (fd_tick x)) (tick x).2). cbv beta iota.
  destruct (disk_fails _); [apply wp_fail; by apply Hsafe|]. destruct (tears _) as [k|] eqn:Et.
  - apply wp_bind. eapply (wp_run _ _ _ (Ok ())); [done|]. apply wp_fail, Hsafe; [done..|]. cbn. intros text [= <-].
    exists wm. split; [done|]. right. by eexists _, k.
  - eapply (wp_run _ _ _ (Ok ())); [done|]. apply Hsafe; [done..|]. cbn. intros text [= <-]. exists wm. by split; [|left].
Qed.

Lemma safe_pollOnce : keeps keeps_poller_safe (pollOnce cfg).
Proof.
  apply keeps_wp. intros h. unfold keeps_poller_safe. unfold pollOnce.
  apply wp_bind. change (wp feed_own ?Q h) with (Q (Ok (fd_own h)) h). cbv beta iota zeta.
  apply wp_bind. change (wp tick ?Q h) with (Q (Ok (fd_tick h)) (tick h).2). cbv beta iota.
  assert (sends h (tick h).2) as Ht by apply sends_tick. set (h1 := (tick h).2) in *.
  pose proof (poller_safe_sends h h1 Ht) as H1'.
  destruct (fetch _ _ _) as [e|e|e|status batch] eqn:Ef; [by apply wp_fail..|].
  destruct (Z.eqb_spec status 200) as [->|Hne]; [|by apply wp_fail]. cbn [negb].
  destruct batch as [[next [|p records]]|e|q]; [by apply wp_ret| |by apply wp_fail|by apply wp_mcall].
  apply wp_bind. eapply wp_mono; [apply wp_submit_batch|]. cbv beta. intros r h2 [Hs2 Hok].
  assert (poller_safe h → poller_safe h2) as H2' by (intros; by apply (poller_safe_sends h1), H1').
  destruct r as [[]|e|q]; [|done..]. destruct (next <>s ""); [|by apply wp_ret].
  apply wp_bind, wp_try. unfold wp at 1.
  pose proof (λ Hs, wp_SaveWatermark next h2 (ex_intro _ _ (ex_intro _ _ (ex_intro _ _ (conj Ef (Hok eq_refl))))) (H2' Hs)) as Hw.
  unfold wp in Hw. destruct (SaveWatermark cfg next h2) as [[[]|e|q] h3]; cbn in *; done.
Qed.

Lemma safe_LoadWatermark : keeps keeps_poller_safe (LoadWatermark cfg).
Proof.
  apply keeps_wp. intros h. unfold LoadWatermark. apply wp_bind.
  change (wp feed_own ?Q h) with (Q (Ok (fd_own h)) h). cbv beta iota.
  destruct (_ =s _); [by apply wp_ret|]. apply wp_bind.
  change (wp tick ?Q h) with (Q (Ok (fd_tick h)) (tick h).2). cbv beta iota.
  assert (sends h (tick h).2) as Ht by apply sends_tick.
  destruct (disk_fails _); [apply wp_fail; intros Hp; by apply (poller_safe_sends h)|].
  destruct (po_file (fd_own h)) as [data|] eqn:Ed; [|apply wp_ret; intros Hp; by apply (poller_safe_sends h)].
  apply wp_bind. eapply (wp_run _ _ _ (Ok ())); [done|]. apply wp_ret. intros [Hm Hd].
  split; cbn; [right; by apply Hd|done].
Qed.
#[local] Hint Resolve safe_pollOnce safe_LoadWatermark : worm.
#[local] Hint Extern 2 (keeps keeps_poller_safe _) => apply keeps_safe_sends : worm.

Lemma safe_poll_ticks n : keeps keeps_poller_safe (poll_ticks cfg n).
Proof.
  induction n as [|n IH]; cbn [poll_ticks]; [apply keeps_ret; typeclasses eauto|]. unfold poll_ignored. keeps_tac.
Qed.
#[local] Hint Resolve safe_poll_ticks : worm.
Lemma safe_CloudPoller_Start n : keeps keeps_poller_safe (CloudPoller_Start cfg n).
Proof. unfold CloudPoller_Start, poll_ignored. keeps_tac. Qed.
End poller_proofs.

(** The life of a poller: it runs, and is started again; the file stays, and what is in
    memory is lost. *)
Definition forget (x : PollerOwn) : PollerOwn := {| po_watermark := ""; po_file := po_file x |}.

Section lives.
Context `{PollEnv} {W : Type} `{DurableReceiver W}.

Definition poller_life (cfg : PollerConfig) (s : W) (runs : list (IngestEnv * nat)) : Feed W PollerOwn :=
  foldl (λ h run, (@CloudPoller_Start run.1 _ W _ cfg run.2 (map_own forget h)).2)
    {| fd_sink := s; fd_own := {| po_watermark := ""; po_file := None |}; fd_sent := []; fd_tick := 0 |} runs.

Lemma poller_life_safe cfg s runs : poller_safe cfg (poller_life cfg s runs).
Proof.
  unfold poller_life. induction runs as [|[env n] runs IH] using rev_ind; [split; [by left|done]|].
  rewrite foldl_snoc. apply (safe_CloudPoller_Start (H := env)). split; [by left|]. apply IH.
Qed.

(** C18: a checkpoint covers only what is durable.  Kafka: of the messages handed out, in
    order, some first ones are durable, and the offsets committed to the broker are
    theirs, in order (or theirs but for the last one's).  Cloud poller, over any runs: the
    watermark on disk came with a batch all of whose records are durable, or is what a
    torn write left of such a watermark; so is the one in memory, unless empty. *)
Theorem pull_checkpoints_durable :
  (∀ (env : IngestEnv) (client : KafkaConsumerClient) name n (s : W),
     let h := (KafkaAdapter_Start name n {| fd_sink := s; fd_own := kafka_start; fd_sent := []; fd_tick := 0 |}).2 in
     ∃ done rest, kf_polled (fd_own h) = done ++ rest ∧ Forall (message_durable name (fd_sink h)) done
       ∧ (kf_commits (fd_own h) = map kafka_key done ∨ ∃ m d, done = d ++ [m] ∧ kf_commits (fd_own h) = map kafka_key d))
  ∧ ∀ cfg s runs, poller_safe cfg (poller_life cfg s runs).
Proof.
  split; [|apply poller_life_safe]. intros env client name n s h.
  pose proof (wp_kafka_Start name n {| fd_sink := s; fd_own := kafka_start; fd_sent := []; fd_tick := 0 |}) as Hw.
  unfold wp in Hw. subst h. destruct (KafkaAdapter_Start _ _ _) as [r h]. apply Hw. by split; [constructor|].
Qed.
End lives.

(** A torn write of the watermark is taken for the watermark by the next run. *)
Definition torn_disk : PollEnv := {|
  fetch query _ _ := match query with
                     | [_] => Response 200 (Ok ("2026-05-17", ["a"]))
                     | _ => NoResponse (errors_New "timeout")
                     end;
  disk_fails _ := false; tears _ := Some 6%nat; poller_closed _ := false |}.
Lemma torn_watermark :
  po_watermark (fd_own (@poller_life torn_disk _ keeping
    {| pc_Name := "c"; pc_EndpointURL := "u"; pc_BatchSize := 10; pc_WatermarkPath := "wm"; pc_AuthHeader := ""; pc_AuthToken := "" |}
    [] [(live_context, 0%nat); (live_context, 0%nat)])) = "2026-0".
Proof. reflexivity. Qed.
