(* ===== verification/Http.v ===== *)
(** * [internal/ingest/http.go]: the HTTP listener

    The handler of one request: it authorizes the key, reads the body up to 16 MiB, cuts
    it into payloads where it is NDJSON, and answers 200 only when each is durable.  The
    response's JSON object is the list of its fields. *)

From S2P Require Import Prelude GoStrings GoNum GoIO GoTime Model.
From S2P Require Export Monad Ingest.

#[local] Open Scope monad_scope.

(** ** [net.SplitHostPort] *)

Fixpoint LastIndexByte (s : string) (c : ascii) : option nat :=
  match s with
  | "" => None
  | String d s' =>
      match LastIndexByte s' c with
      | Some i => Some (S i)
      | None => if d =b c then Some 0%nat else None
      end
  end.
Definition has_byte (c : ascii) (s : string) : bool := match IndexByte s c with Some _ => true | None => false end.

Definition SplitHostPort (hostport : string) : option (string * string) :=
  match LastIndexByte hostport ":" with
  | None => None
  | Some i =>
      let port := str_drop (i + 1) hostport in
      match hostport with
      | String "[" _ =>
          match IndexByte hostport "]" with
          | Some e =>
              if (e + 1 =? i)%nat then
                if has_byte "[" (str_drop 1 hostport) || has_byte "]" (str_drop (e + 1) hostport) then None
                else Some (str_take (e - 1) (str_drop 1 hostport), port)
              else None
          | None => None
          end
      | _ =>
          let host := str_take i hostport in
          if has_byte ":" host || has_byte "[" hostport || has_byte "]" hostport then None else Some (host, port)
      end
  end.

(** [port, _ := strconv.Atoi(s)]: a number out of range is clamped, anything else is 0. *)
Definition Atoi_ignored (s : string) : Z :=
  match Atoi s, s with
  | Some z, _ => z
  | None, String c s' =>
      if c =b "-"%char then match parse_digits s' with Some _ => MinInt64 | None => 0 end
      else match parse_digits (if c =b "+"%char then s' else s) with Some _ => MaxInt64 | None => 0 end
  | None, "" => 0
  end.

(** ** Requests and responses *)

Record Request := {
  rq_Method : string; rq_Path : string; rq_Header : string → string;
  rq_RemoteAddr : string;
  rq_Body : string; rq_BodyErr : option error;     (* the bytes that arrive, and how reading them ends *)
}.

(** Fields of a JSON object; the text of an error is not rendered. *)
Inductive field := FStr (s : string) | FInt (z : Z) | FErr (e : error).
Record Response := { rs_status : Z; rs_fields : list (string * field) }.

Definition max_body : Z := 16 * 1024 * 1024.

(** [io.ReadAll(http.MaxBytesReader(w, r.Body, max))] *)
Definition read_body (r : Request) : res string :=
  if max_body <? slen (rq_Body r) then Err (errors_New "http: request body too large")
  else match rq_BodyErr r with Some e => Err e | None => Ok (rq_Body r) end.

Definition extractRemoteAddr (r : Request) : string * Z :=
  let xff := rq_Header r "X-Forwarded-For" in
  match (if xff <>s "" then Split xff "," else []) with
  | first :: _ => (TrimSpace first, 0)
  | [] =>
      match SplitHostPort (rq_RemoteAddr r) with
      | None => (rq_RemoteAddr r, 0)
      | Some (host, portStr) => (host, Atoi_ignored portStr)
      end
  end.

(** The key of the request is the listener's. *)
Definition authorized (apiKey : string) (r : Request) : bool :=
  (apiKey =s "") ||
  (let key := rq_Header r "X-Worm-Key" in
   let auth := rq_Header r "Authorization" in
   (if key =s "" then if HasPrefix auth "Bearer " then TrimPrefix auth "Bearer " else "" else key) =s apiKey).

Definition isExplicitNDJSON (r : Request) : bool :=
  let cType := ToLower (rq_Header r "Content-Type") in Contains cType "ndjson" || Contains cType "x-ndjson".

Class HttpEnv := {
  request_done : nat → bool;                       (* the client has gone *)
  ack_late : nat → bool;                           (* no acknowledgement within 15 seconds *)
}.

Definition http_record (addr clientIP requestID payload : string) (clientPort : Z) (now : time) : IngestedRecord :=
  {| ir_Transport := "http-post"; ir_SourceIP := clientIP; ir_SourcePort := clientPort; ir_RawBytes := payload;
     ir_ReceivedAt := now;
     ir_Metadata := {| ConnectionID := ""; Listener := addr; RequestID := requestID; FilePath := ""; FileID := "";
                       FileOffset := 0; ObjectKey := ""; Watermark := ""; KafkaTopic := "";
                       KafkaPartition := 0; KafkaOffset := 0; KafkaKey := "" |};
     ir_ExistingRawID := "" |}.

Section http.
Context `{IngestEnv} `{HttpEnv} `{Receiver W} (addr apiKey : string).
Abbreviation P := (Prog (Feed W unit)).

Definition http_json (status : Z) (fields : list (string * field)) : P Response :=
  ret {| rs_status := status; rs_fields := fields |}.
Definition http_error (text : string) (status : Z) : P Response := http_json status [("error", FStr text)].

(** [case <-ctx.Done()], [case <-r.Context().Done()] *)
Definition check_contexts : P unit :=
  c <- select_ctx ;;
  if c then fail ctx_canceled
  else t <- tick ;; if request_done t then fail ctx_canceled else ret ().

Definition submit_payload (clientIP requestID : string) (clientPort : Z) (payload : string) : P unit :=
  now <- feed_Now ;;
  check_contexts ;;;
  ack <- deliver (http_record addr clientIP requestID payload clientPort now) ;;
  t <- tick ;;
  if ack_late t then fail (errors_New "raw durability acknowledgement timed out")
  else check_contexts ;;; mcall ack.

(** The lines of an NDJSON body: how many were accepted, and what refused the next. *)
Fixpoint submit_lines (submit : string → P unit) (lines : list string) (count : Z) : P (Z * option error) :=
  match lines with
  | [] => ret (count, None)
  | line :: lines' =>
      if TrimSpace line =s "" then submit_lines submit lines' count
      else
        r <- try (submit line) ;;
        match r with
        | Ok _ => submit_lines submit lines' (count + 1)
        | Err e => ret (count, Some e)
        | Panic p => mcall (Panic p)
        end
  end.

Definition refused (count : Z) (e : error) (requestID : string) : P Response :=
  http_json 503 [("accepted", FInt count); ("error", FErr e); ("rejected", FInt 1);
                 ("request_id", FStr requestID); ("status", FStr "retry")].
Definition accepted_response (count : Z) (requestID : string) : P Response :=
  http_json 200 [("accepted", FInt count); ("request_id", FStr requestID); ("status", FStr "accepted")].

Definition ingest_handler (r : Request) : P Response :=
  if rq_Method r <>s "POST" then http_error "method not allowed" 405
  else if negb (authorized apiKey r) then http_error "unauthorized" 401
  else
    let '(clientIP, clientPort) := extractRemoteAddr r in
    match read_body r with
    | Panic p => mcall (Panic p)
    | Err e => http_json 400 [("error", FErr (Errorf "failed to read payload: %v" [AVErr e]))]
    | Ok body =>
        if body =s "" then http_error "empty body" 400
        else
          let header := rq_Header r "X-Request-Id" in
          now <- feed_Now ;;
          let requestID := if header =s "" then "worm-http-" +:+ Itoa now else header in
          let submit := submit_payload clientIP requestID clientPort in
          out <- (if isExplicitNDJSON r then submit_lines submit (Split body (chr LF)) 0
                  else
                    x <- try (submit body) ;;
                    match x with
                    | Ok _ => ret (1, None)
                    | Err e => ret (0, Some e)
                    | Panic p => mcall (Panic p)
                    end) ;;
          match out with
          | (count, Some e) => refused count e requestID
          | (count, None) => accepted_response count requestID
          end
    end.
End http.

(** ** What a response says *)

(** The payloads of a body. *)
Definition body_payloads (r : Request) : list string :=
  if isExplicitNDJSON r then filter (λ line, TrimSpace line <>s "" = true) (Split (rq_Body r) (chr LF)) else [rq_Body r].

Section http_proofs.
Context `{IngestEnv} `{HttpEnv} {W : Type} `{DurableReceiver W} (addr apiKey : string).
Implicit Types (h : Feed W unit).

Lemma sends_check_contexts : keeps sends (check_contexts (W := W)).
Proof. unfold check_contexts. keeps_tac. Qed.
#[local] Hint Resolve sends_check_contexts : worm.
Lemma wp_check_contexts (Q : res unit → Feed W unit → Prop) h :
  (∀ h', sends h h' → fd_sent h' = fd_sent h → Q (Ok ()) h' ∧ Q (Err ctx_canceled) h') → wp check_contexts Q h.
Proof.
  intros HQ. unfold check_contexts, select_ctx. unfold wp. cbn. destruct (_ && _); cbn.
  - by apply HQ.
  - destruct (request_done _); cbn; by apply HQ.
Qed.

Section one.
Context (clientIP requestID : string) (clientPort : Z).
Abbreviation send := (submit_payload (W := W) addr clientIP requestID clientPort).
Definition payload_durable (s : W) (p : string) : Prop := ∃ now, durable (http_record addr clientIP requestID p clientPort now) s.
(** The records [recs] carry the payloads [l]. *)
Definition carry (l : list string) (recs : list IngestedRecord) : Prop :=
  Forall2 (λ p rec, ∃ now, rec = http_record addr clientIP requestID p clientPort now) l recs.

Lemma wp_submit_payload p h :
  wp (send p) (λ r h', sends h h' ∧
    ∃ l, fd_sent h' = fd_sent h ++ l ∧ (l = [] ∧ r ≠ Ok () ∨ carry [p] l) ∧ (r = Ok () → payload_durable (fd_sink h') p)) h.
Proof.
  apply (wp_keeps sends). { unfold submit_payload. keeps_tac. }
  unfold submit_payload. apply wp_bind, wp_feed_Now. intros now h1 Hs1 Hse1.
  apply wp_bind, wp_check_contexts. intros h2 Hs2 Hse2. rewrite Hse1 in Hse2. split.
  2: { intros Hs. split; [done|]. exists []. rewrite app_nil_r. split; [done|]. by split; [left|]. }
  apply wp_bind. unfold deliver, wp at 1. destruct (receive _ (fd_sink h2)) as [r s] eqn:Er.
  set (rec := http_record _ _ _ _ _ _) in *.
  set (h3 := Build_Feed _ _ _ _ _ _). assert (fd_sent h3 = fd_sent h ++ [rec]) as Hse3 by (cbn; by rewrite Hse2).
  assert (∀ h' (x : res unit), sends h h' → fd_sent h' = fd_sent h3 → (x = Ok () → durable rec (fd_sink h')) →
    sends h h' ∧ ∃ l, fd_sent h' = fd_sent h ++ l ∧ (l = [] ∧ x ≠ Ok () ∨ carry [p] l) ∧ (x = Ok () → payload_durable (fd_sink h') p)) as Hfin.
  { intros h' x Hs Hse Hd. split; [done|]. exists [rec]. split; [by rewrite Hse|]. split.
    - right. repeat constructor. by exists now.
    - intros Hx. exists now. by apply Hd. }
  assert (∀ q : res unit, q = r → no_panic q → wp (t <- tick ;;
      if ack_late t then fail (errors_New "raw durability acknowledgement timed out") else check_contexts ;;; mcall q)
    (λ r h', sends h h' → sends h h' ∧ ∃ l, fd_sent h' = fd_sent h ++ l ∧ (l = [] ∧ r ≠ Ok () ∨ carry [p] l) ∧
       (r = Ok () → payload_durable (fd_sink h') p)) h3) as Hack.
  { intros q -> _. apply wp_bind. change (wp tick ?Q h3) with (Q (Ok (fd_tick h3)) (tick h3).2). cbv beta iota.
    destruct (ack_late _); [apply wp_fail; intros Hs; by apply Hfin|].
    apply wp_bind, wp_check_contexts. intros h4 Hs4 Hse4. split; [|intros Hs; by apply Hfin].
    apply wp_mcall. intros Hs. apply Hfin; [done|by rewrite Hse4|]. intros ->. apply (proj1 Hs4).
    by apply (receive_durable rec (fd_sink h2)). }
  destruct r as [[]|e|q]; [by apply (Hack (Ok ()))|by apply (Hack (Err e))|]. intros Hs. by apply Hfin.
Qed.

(** Of the payloads, in order: [count] first ones are durable and have been sent; all of
    them, or the next was refused, having been sent or not. *)
Definition submitted (payloads : list string) h h' (count : Z) (refusal : option error) : Prop :=
  ∃ accepted rest recs, payloads = accepted ++ rest ∧ count = Z.of_nat (length accepted)
    ∧ Forall (payload_durable (fd_sink h')) accepted ∧ fd_sent h' = fd_sent h ++ recs
    ∧ match refusal with
      | None => rest = [] ∧ carry accepted recs
      | Some _ => ∃ p rest', rest = p :: rest' ∧ (carry accepted recs ∨ carry (accepted ++ [p]) recs)
      end.

Lemma payloads_durable_grows h h' l :
  grows h h' → Forall (payload_durable (fd_sink h)) l → Forall (payload_durable (fd_sink h')) l.
Proof. intros [Hg _] Hl. eapply Forall_impl; [exact Hl|]. intros p [now Hp]. exists now. by apply Hg. Qed.

Lemma submitted_nil h : submitted [] h h 0 None.
Proof.
  exists [], [], []. split; [done|]. split; [done|]. split; [apply Forall_nil_2|]. split; [by rewrite app_nil_r|].
  split; [done|constructor].
Qed.

(** One payload, then the others. *)
Lemma submitted_cons p payloads h h1 h2 rec count e :
  grows h1 h2 → payload_durable (fd_sink h1) p → carry [p] rec → fd_sent h1 = fd_sent h ++ rec →
  submitted payloads h1 h2 count e → submitted (p :: payloads) h h2 (count + 1) e.
Proof.
  intros Hg Hp Hc Hs (acc & rest & recs & -> & -> & Hd & Hs2 & He). exists (p :: acc), rest, (rec ++ recs).
  split; [done|]. split; [cbn; lia|]. split; [constructor; [|done]; destruct Hp as [now Hp]; exists now; by apply Hg|].
  split; [by rewrite Hs2, Hs, app_assoc|]. destruct e.
  - destruct He as (p' & rest' & -> & Hcs). exists p', rest'. split; [done|].
    destruct Hcs as [Hcs|Hcs]; [left|right]; exact (Forall2_app Hc Hcs).
  - destruct He as [-> Hcs]. split; [done|]. exact (Forall2_app Hc Hcs).
Qed.

Lemma submitted_refused p payloads h h' e recs :
  fd_sent h' = fd_sent h ++ recs → recs = [] ∨ carry [p] recs → submitted (p :: payloads) h h' 0 (Some e).
Proof.
  intros Hs Hr. exists [], (p :: payloads), recs. split; [done|]. split; [done|]. split; [constructor|]. split; [done|].
  exists p, payloads. split; [done|]. destruct Hr as [->|Hr]; [left; constructor|by right].
Qed.

Lemma wp_submit_lines lines count h :
  wp (submit_lines send lines count) (λ r h', sends h h' ∧
    match r with
    | Ok (n, e) => submitted (filter (λ line, TrimSpace line <>s "" = true) lines) h h' (n - count) e
    | Err _ => False | Panic _ => True end) h.
Proof.
  revert count h. induction lines as [|line lines IH]; intros count h; cbn [submit_lines].
  { apply wp_ret. split; [done|]. replace (count - count) with 0 by lia. apply submitted_nil. }
  rewrite filter_cons. destruct (TrimSpace line =s "") eqn:Et.
  { rewrite decide_False by done. apply IH. }
  rewrite decide_True by done. apply wp_bind, wp_try. eapply wp_mono; [apply wp_submit_payload|]. cbv beta.
  intros r h1 (Hs1 & l & Hse & Hl & Hd). destruct r as [[]|e|q]; [| |done].
  - destruct Hl as [[_ ?]|Hl]; [done|]. eapply wp_mono; [apply IH|]. cbv beta. intros r h2 [Hs2 Hr].
    split; [by transitivity h1|]. destruct r as [[n e]|e|q]; [|done..].
    replace (n - count) with (n - (count + 1) + 1) by lia. apply (submitted_cons _ _ _ h1 _ l); [apply Hs2|by apply Hd|done..].
  - apply wp_ret. split; [done|]. replace (count - count) with 0 by lia. eapply submitted_refused; [done|].
    destruct Hl as [[-> _]|Hl]; [by left|by right].
Qed.
End one.

(** What the response [rsp] to the request [r] says of the run from [h] to [h']. *)
Definition answered_from (clientIP : string) (clientPort : Z) (r : Request) (rsp : Response) h h' : Prop :=
  (∃ id, rsp = {| rs_status := 200; rs_fields := [("accepted", FInt (Z.of_nat (length (body_payloads r))));
                                                   ("request_id", FStr id); ("status", FStr "accepted")] |}
     ∧ rq_Method r = "POST" ∧ authorized apiKey r = true ∧ 0 < slen (rq_Body r) ≤ max_body ∧ rq_BodyErr r = None
     ∧ submitted clientIP id clientPort (body_payloads r) h h' (Z.of_nat (length (body_payloads r))) None)
  ∨ (∃ id n e, rsp = {| rs_status := 503; rs_fields := [("accepted", FInt n); ("error", FErr e); ("rejected", FInt 1);
                                                         ("request_id", FStr id); ("status", FStr "retry")] |}
     ∧ submitted clientIP id clientPort (body_payloads r) h h' n (Some e))
  ∨ (rs_status rsp ∈ [400; 401; 405] ∧ fd_sent h' = fd_sent h).
Definition answered (r : Request) : Response → Feed W unit → Feed W unit → Prop :=
  answered_from (extractRemoteAddr r).1 (extractRemoteAddr r).2 r.

Lemma answered_refused a b r status fields h : status ∈ [400; 401; 405] → answered_from a b r {| rs_status := status; rs_fields := fields |} h h.
Proof. intros Hs. by right; right. Qed.

Lemma submitted_count clientIP id clientPort payloads h h' n :
  submitted clientIP id clientPort payloads h h' n None → n = Z.of_nat (length payloads).
Proof. intros (acc & rest & recs & -> & -> & _ & _ & -> & _). by rewrite app_nil_r. Qed.

Lemma wp_ingest_handler r h :
  wp (ingest_handler addr apiKey r) (λ rsp h', grows h h' ∧
    match rsp with Ok rsp => answered r rsp h h' | Err _ => False | Panic _ => True end) h.
Proof.
  unfold ingest_handler, answered. destruct (extractRemoteAddr r) as [clientIP clientPort]. cbn [fst snd].
  assert (∀ status fields, status ∈ [400; 401; 405] → wp (ret {| rs_status := status; rs_fields := fields |})
    (λ rsp h', grows h h' ∧ match rsp with Ok rsp => answered_from clientIP clientPort r rsp h h' | Err _ => False | Panic _ => True end) h)
    as Hno by (intros; apply wp_ret; split; [done|by apply answered_refused]).
  destruct (rq_Method r =s "POST") eqn:Em; cbn [negb]; [|apply Hno; set_solver]. apply String.eqb_eq in Em.
  destruct (authorized apiKey r) eqn:Ea; cbn [negb]; [|apply Hno; set_solver]. unfold read_body.
  destruct (Z.ltb_spec max_body (slen (rq_Body r))) as [|Hle]; [apply Hno; set_solver|].
  destruct (rq_BodyErr r) as [e|] eqn:Ee; [apply Hno; set_solver|].
  destruct (rq_Body r =s "") eqn:Eb; [apply Hno; set_solver|].
  assert (0 < slen (rq_Body r)) as Hpos by (destruct (rq_Body r); [done|unfold slen; cbn; lia]).
  apply wp_bind, wp_feed_Now. intros now h1 Hs1 Hse1. cbv zeta.
  set (id := if rq_Header r "X-Request-Id" =s "" then "worm-http-" +:+ Itoa now else rq_Header r "X-Request-Id"). apply wp_bind.
  assert (∀ n e (h' : Feed W unit), sends h1 h' → submitted clientIP id clientPort (body_payloads r) h1 h' n e →
    wp (match (n, e) with (count, Some e) => refused count e id | (count, None) => accepted_response count id end)
      (λ rsp h', grows h h' ∧ match rsp with Ok rsp => answered_from clientIP clientPort r rsp h h' | Err _ => False | Panic _ => True end) h') as Hfin; [|
    destruct (isExplicitNDJSON r) eqn:En ].
  - intros n e h' Hs' Hsub. assert (submitted clientIP id clientPort (body_payloads r) h h' n e) as Hsub'
      by (unfold submitted in *; by rewrite <- Hse1).
    assert (grows h h') by (transitivity h1; [apply Hs1|apply Hs']). destruct e as [e|]; apply wp_ret; (split; [done|]).
    + right; left. by exists id, n, e.
    + left. exists id. pose proof (submitted_count _ _ _ _ _ _ _ Hsub') as ->. done.
  - eapply wp_mono; [apply wp_submit_lines|]. cbv beta. intros x h2 [Hs2 Hx]. destruct x as [[n e]|e|q]; [|done|].
    + apply Hfin; [done|]. unfold body_payloads. rewrite En. by replace n with (n - 0) by lia.
    + split; [|done]. transitivity h1; [apply Hs1|apply Hs2].
  - apply wp_bind, wp_try. eapply wp_mono; [apply wp_submit_payload|]. cbv beta. intros x h2 (Hs2 & l & Hse2 & Hl & Hd).
    unfold body_payloads in Hfin. rewrite En in Hfin. destruct x as [[]|e|q].
    + apply wp_ret, (Hfin 1 None); [done|]. destruct Hl as [[_ ?]|Hl]; [done|].
      replace 1 with (0 + 1) by lia. apply (submitted_cons _ _ _ _ _ _ h2 _ l); [done|by apply Hd|done..|].
      apply submitted_nil.
    + apply wp_ret, (Hfin 0 (Some e)); [done|]. eapply submitted_refused; [done|]. destruct Hl as [[-> _]|Hl]; [by left|by right].
    + split; [|done]. transitivity h1; [apply Hs1|apply Hs2].
Qed.
End http_proofs.

(** C17: the handler answers every request, unless the process panics, and says what
    happened: 200 only to an authorized POST with a body of at most 16 MiB, of whose
    payloads (the body, or the non-blank lines of an NDJSON body) each has been sent once,
    in order, and is durable, "accepted" being their number; 503 with "accepted": n only
    when the first n are durable and the next was refused; any other answer only when
    nothing was sent. *)
Theorem handler_answers_truly (env : IngestEnv) (henv : HttpEnv) (W : Type) (R : Receiver W) (D : DurableReceiver W)
    (addr apiKey : string) (r : Request) (h : Feed W unit) :
  match ingest_handler addr apiKey r h with
  | (Ok rsp, h') => answered addr apiKey r rsp h h'
  | (Err _, _) => False
  | (Panic _, _) => True
  end.
Proof.
  pose proof (wp_ingest_handler addr apiKey r h) as Hw. unfold wp in Hw.
  destruct (ingest_handler addr apiKey r h) as [[rsp|e|q] h']; [apply Hw|apply Hw|done].
Qed.
