(* ===== verification/IngestManager.v ===== *)
(** * [internal/ingest/adapter.go]: the manager of the adapters

    The critical sections of [Manager] and the events of the adapters' goroutines as a
    step relation.  Reconcile and Stop release the lock while they wait for the old
    adapters, so each is two steps; a flag says whether calls are serialized by the caller
    (as [connections.Manager] does with its own lock) or may overlap. *)

From S2P Require Import Prelude GoStrings GoNum GoTime Model.

(** An adapter is known by its name; [None] is a nil one. *)
Definition adapter := option string.

Fixpoint validate_from (seen : gset string) (l : list adapter) : option error :=
  match l with
  | [] => None
  | None :: _ | Some "" :: _ => Some (errors_New "adapter name is required")
  | Some name :: l' =>
      if decide (name ∈ seen) then Some (Errorf "duplicate adapter %q" [AStr name])
      else validate_from ({[name]} ∪ seen) l'
  end.
Definition validateAdapters (l : list adapter) : option error := validate_from ∅ l.

Record Manager := {
  mg_adapters : list adapter;
  mg_errs : list (string * error);                 (* adapterErrs *)
  mg_running : bool;
  mg_stopped : bool;
  mg_cancelled : bool;                             (* runCtx is done *)
  mg_parent_done : bool;
  mg_live : list string;                           (* the goroutines of wg *)
  mg_closed : bool;                                (* close(m.out) *)
  mg_reconciling : option (bool * list adapter);   (* a Reconcile that waits: was it running? *)
  mg_panicked : bool;                              (* a send on the closed channel *)
}.

Definition NewManager : Manager :=
  {| mg_adapters := []; mg_errs := []; mg_running := false; mg_stopped := false; mg_cancelled := false;
     mg_parent_done := false; mg_live := []; mg_closed := false; mg_reconciling := None; mg_panicked := false |}.

(** ** The critical sections *)

Definition Register (a : adapter) (m : Manager) : option Manager :=
  if mg_running m then None                        (* panics *)
  else Some {| mg_adapters := mg_adapters m ++ [a]; mg_errs := mg_errs m; mg_running := false; mg_stopped := mg_stopped m;
               mg_cancelled := mg_cancelled m; mg_parent_done := mg_parent_done m; mg_live := mg_live m;
               mg_closed := mg_closed m; mg_reconciling := mg_reconciling m; mg_panicked := mg_panicked m |}.

(** [runCtx, cancel = WithCancel(parent); running = true; launchLocked()] *)
Definition launch (adapters : list adapter) (errs : list (string * error)) (m : Manager) : Manager :=
  {| mg_adapters := adapters; mg_errs := errs; mg_running := true; mg_stopped := mg_stopped m;
     mg_cancelled := mg_parent_done m; mg_parent_done := mg_parent_done m;
     mg_live := mg_live m ++ omap id adapters;
     mg_closed := mg_closed m; mg_reconciling := None; mg_panicked := mg_panicked m |}.

Definition Start (m : Manager) : res Manager :=
  if mg_running m then Err (errors_New "ingest manager is already running")
  else if mg_stopped m then Err (errors_New "ingest manager is stopped")
  else match validateAdapters (mg_adapters m) with
       | Some e => Err e
       | None => Ok (launch (mg_adapters m) (mg_errs m) m)
       end.

Definition probeStartup (m : Manager) : option error :=
  match mg_errs m with
  | [] => None
  | (name, err) :: _ => Some (Errorf "adapter %s failed startup: %w" [AStr name; AErr err])
  end.

(** Up to the wait for the old adapters. *)
Definition Reconcile_begin (adapters : list adapter) (m : Manager) : res Manager :=
  match validateAdapters adapters with
  | Some e => Err e
  | None =>
      if mg_stopped m then Err (errors_New "ingest manager is stopped")
      else Ok {| mg_adapters := mg_adapters m; mg_errs := mg_errs m; mg_running := false; mg_stopped := false;
                 mg_cancelled := mg_cancelled m || mg_running m; mg_parent_done := mg_parent_done m; mg_live := mg_live m;
                 mg_closed := mg_closed m; mg_reconciling := Some (mg_running m, adapters); mg_panicked := mg_panicked m |}
  end.

(** After it: the replacement, launched where the old snapshot was running. *)
Definition Reconcile_end (m : Manager) : option Manager :=
  match mg_reconciling m with
  | None => None
  | Some (true, adapters) => match mg_live m with [] => Some (launch adapters [] m) | _ => None end
  | Some (false, adapters) =>
      Some {| mg_adapters := adapters; mg_errs := []; mg_running := mg_running m; mg_stopped := mg_stopped m;
              mg_cancelled := mg_cancelled m; mg_parent_done := mg_parent_done m; mg_live := mg_live m;
              mg_closed := mg_closed m; mg_reconciling := None; mg_panicked := mg_panicked m |}
  end.

Definition Stop_begin (m : Manager) : Manager :=
  {| mg_adapters := mg_adapters m; mg_errs := mg_errs m; mg_running := false; mg_stopped := true;
     mg_cancelled := mg_cancelled m || mg_running m; mg_parent_done := mg_parent_done m; mg_live := mg_live m;
     mg_closed := mg_closed m; mg_reconciling := mg_reconciling m; mg_panicked := mg_panicked m |}.
(** [wg.Wait(); close(m.out)] *)
Definition Stop_end (m : Manager) : option Manager :=
  match mg_live m with
  | [] => Some {| mg_adapters := mg_adapters m; mg_errs := mg_errs m; mg_running := mg_running m; mg_stopped := mg_stopped m;
                  mg_cancelled := mg_cancelled m; mg_parent_done := mg_parent_done m; mg_live := [];
                  mg_closed := true; mg_reconciling := mg_reconciling m; mg_panicked := mg_panicked m |}
  | _ => None
  end.

(** ** The goroutines *)

Definition with_live (live : list string) (errs : list (string * error)) (m : Manager) : Manager :=
  {| mg_adapters := mg_adapters m; mg_errs := errs; mg_running := mg_running m; mg_stopped := mg_stopped m;
     mg_cancelled := mg_cancelled m; mg_parent_done := mg_parent_done m; mg_live := live;
     mg_closed := mg_closed m; mg_reconciling := mg_reconciling m; mg_panicked := mg_panicked m |}.

(** The [i]-th goroutine returns [err]; it is recorded unless the context is done. *)
Definition adapter_returns (i : nat) (err : option error) (m : Manager) : option Manager :=
  match mg_live m !! i with
  | None => None
  | Some name =>
      let live := delete i (mg_live m) in
      match err with
      | Some e => Some (with_live live (if mg_cancelled m then mg_errs m
                                        else (name, e) :: filter (λ p, p.1 ≠ name) (mg_errs m)) m)
      | None => Some (with_live live (mg_errs m) m)
      end
  end.

(** A goroutine sends a record on the channel. *)
Definition adapter_sends (i : nat) (m : Manager) : option Manager :=
  match mg_live m !! i with
  | None => None
  | Some _ => Some {| mg_adapters := mg_adapters m; mg_errs := mg_errs m; mg_running := mg_running m;
                      mg_stopped := mg_stopped m; mg_cancelled := mg_cancelled m; mg_parent_done := mg_parent_done m;
                      mg_live := mg_live m; mg_closed := mg_closed m; mg_reconciling := mg_reconciling m;
                      mg_panicked := mg_panicked m || mg_closed m |}
  end.

Definition parent_cancelled (m : Manager) : Manager :=
  {| mg_adapters := mg_adapters m; mg_errs := mg_errs m; mg_running := mg_running m; mg_stopped := mg_stopped m;
     mg_cancelled := true; mg_parent_done := true; mg_live := mg_live m;
     mg_closed := mg_closed m; mg_reconciling := mg_reconciling m; mg_panicked := mg_panicked m |}.

(** ** The step relation *)

Inductive mstep (serial : bool) : Manager → Manager → Prop :=
| step_Register a m m' : Register a m = Some m' → mstep serial m m'
| step_Start m m' : (serial → mg_reconciling m = None) → Start m = Ok m' → mstep serial m m'
| step_Reconcile_begin adapters m m' : mg_reconciling m = None → Reconcile_begin adapters m = Ok m' → mstep serial m m'
| step_Reconcile_end m m' : Reconcile_end m = Some m' → mstep serial m m'
| step_Stop_begin m : (serial → mg_reconciling m = None) → mg_stopped m = false → mstep serial m (Stop_begin m)
| step_Stop_end m m' : mg_stopped m = true → mg_closed m = false → Stop_end m = Some m' → mstep serial m m'
| step_returns i err m m' : adapter_returns i err m = Some m' → mstep serial m m'
| step_sends i m m' : adapter_sends i m = Some m' → mstep serial m m'
| step_parent m : mstep serial m (parent_cancelled m).

(** ** The invariant *)

Lemma validate_from_spec seen l :
  validate_from seen l = None →
  Forall (λ a, a ≠ None ∧ a ≠ Some "") l ∧ NoDup (omap id l) ∧ Forall (λ n, n ∉ seen) (omap id l).
Proof.
  revert seen. induction l as [|[name|] l IH]; intros seen; cbn [validate_from]; [by repeat constructor| |done].
  destruct (String.eqb_spec name "") as [->|Hne]; [done|]. intros Hv.
  assert (name ∉ seen ∧ validate_from ({[name]} ∪ seen) l = None) as [Hn Hl].
  { destruct name as [|c s]; [done|]. by destruct (decide (String c s ∈ seen)). }
  destruct (IH _ Hl) as (Hf & Hnd & Hs). cbn [omap list_omap id].
  split; [constructor; [split; congruence|done]|]. rewrite Forall_forall in Hs. split.
  - constructor; [|done]. intros Hin. apply Hs in Hin. set_solver.
  - constructor; [done|]. apply Forall_forall. intros n Hin. apply Hs in Hin. set_solver.
Qed.

Lemma validateAdapters_spec l :
  validateAdapters l = None → Forall (λ a, a ≠ None ∧ a ≠ Some "") l ∧ NoDup (omap id l).
Proof. intros Hv. by apply validate_from_spec in Hv as (? & ? & _). Qed.

Record manager_inv (m : Manager) : Prop := {
  (* no goroutine is left to send on the closed channel, and none ever did *)
  mi_closed : mg_closed m = true → mg_live m = [] ∧ mg_stopped m = true;
  mi_panicked : mg_panicked m = false;
  mi_stopped : mg_stopped m = true → mg_running m = false ∧ mg_reconciling m = None;
  (* a running snapshot: valid, one goroutine at most for each of its adapters *)
  mi_live : NoDup (mg_live m);
  mi_running : mg_running m = true → mg_reconciling m = None ∧ validateAdapters (mg_adapters m) = None
               ∧ mg_live m ⊆ omap id (mg_adapters m);
  mi_idle : mg_running m = false → mg_stopped m = false → (∀ l, mg_reconciling m ≠ Some (true, l)) → mg_live m = [];
  mi_replacement b l : mg_reconciling m = Some (b, l) → validateAdapters l = None;
}.

Lemma manager_inv_start : manager_inv NewManager.
Proof. split; try done. constructor. Qed.

Lemma inv_live m live errs :
  sublist live (mg_live m) → manager_inv m → manager_inv (with_live live errs m).
Proof.
  intros Hsub [Hc Hp Hs Hl Hr Hi Hrep]. assert (mg_live m = [] → live = []) as Hnil.
  { intros E. rewrite E in Hsub. by apply sublist_nil_r in Hsub. }
  split; cbn; try done.
  - intros Hcl. destruct (Hc Hcl). auto.
  - by eapply sublist_NoDup.
  - intros Hrun. destruct (Hr Hrun) as (? & ? & Hsubset). split_and!; [done..|].
    intros x Hx. apply Hsubset. by eapply elem_of_sublist.
  - auto.
Qed.

Lemma inv_launch adapters errs m :
  manager_inv m → mg_live m = [] → mg_stopped m = false → mg_closed m = false → validateAdapters adapters = None →
  manager_inv (launch adapters errs m).
Proof.
  intros [Hc Hp Hs Hl Hr Hi Hrep] Hlive Hst Hcl Hv. pose proof (validateAdapters_spec _ Hv) as [_ Hnd].
  split; cbn; rewrite ?Hlive; try done; [by rewrite Hcl|by rewrite Hst].
Qed.

Lemma mstep_inv m m' : mstep true m m' → manager_inv m → manager_inv m'.
Proof.
  intros Hstep Hinv. pose proof Hinv as [Hc Hp Hs Hl Hr Hi Hrep]. assert (mg_stopped m = false → mg_closed m = false) as Hopen.
  { intros Hst. destruct (mg_closed m); [|done]. destruct (Hc eq_refl). congruence. }
  destruct Hstep as [a m m' E|m m' Hser E|adapters m m' Hnone E|m m' E|m Hser Hst|m m' Hst Hcl E|i err m m' E|i m m' E|m].
  - unfold Register in E. destruct (mg_running m) eqn:Er; [done|]. injection E as <-. by split.
  - unfold Start in E. destruct (mg_running m) eqn:Er; [done|]. destruct (mg_stopped m) eqn:Est; [done|].
    destruct (validateAdapters _) eqn:Ev; [done|]. injection E as <-. apply inv_launch; auto.
    apply Hi; [done..|]. by rewrite Hser.
  - unfold Reconcile_begin in E. destruct (validateAdapters _) eqn:Ev; [done|]. destruct (mg_stopped m) eqn:Est; [done|].
    injection E as <-. split; cbn; try done.
    + intros _ _ Hno. destruct (mg_running m) eqn:Er; [by destruct (Hno adapters)|]. apply Hi; [done..|]. by rewrite Hnone.
    + by intros b l [= _ <-].
  - unfold Reconcile_end in E. destruct (mg_reconciling m) as [[[] adapters]|] eqn:Erec; [| |done].
    + destruct (mg_live m) eqn:Elive; [|done]. injection E as <-.
      assert (mg_stopped m = false) as Hst by (destruct (mg_stopped m); [by destruct (Hs eq_refl)|done]).
      apply inv_launch; eauto.
    + injection E as <-. assert (mg_running m = false) as Hrun by (destruct (mg_running m); [by destruct (Hr eq_refl)|done]).
      split; cbn; try done.
      * by rewrite Hrun.
      * intros _ Hst _. by apply Hi.
  - split; cbn; try done; [|by auto]. intros Hcl. by rewrite Hopen in Hcl.
  - unfold Stop_end in E. destruct (mg_live m) eqn:Elive; [|done]. injection E as <-. split; cbn; try done.
  - unfold adapter_returns in E. destruct (mg_live m !! i) as [name|] eqn:Ei; [|done].
    assert (sublist (delete i (mg_live m)) (mg_live m)) as Hsub by apply sublist_delete.
    destruct err; injection E as <-; by apply inv_live.
  - unfold adapter_sends in E. destruct (mg_live m !! i) as [name|] eqn:Ei; [|done]. injection E as <-.
    assert (mg_closed m = false) as Hcl by (destruct (mg_closed m); [by destruct (Hc eq_refl) as [E _]; rewrite E in Ei|done]).
    split; cbn; try done. by rewrite Hp, Hcl.
  - by split.
Qed.

Lemma reachable_inv m : rtc (mstep true) NewManager m → manager_inv m.
Proof.
  intros Hm. assert (∀ x, rtc (mstep true) x m → manager_inv x → manager_inv m) as Hfrom.
  { intros x. induction 1 as [|x y z Hxy Hyz IH]; [done|]. intros Hx. by eapply IH, mstep_inv. }
  by apply (Hfrom NewManager), manager_inv_start.
Qed.

(** C27: where Reconcile, Start and Stop do not overlap, every state the manager can reach
    has these: no adapter ever sends on the closed channel, and none is left once it is
    closed; the adapters of a running snapshot have distinct, non-empty names, and each
    has at most one goroutine; and once Stop has begun there are steps to its end. *)
Theorem manager_safe m :
  rtc (mstep true) NewManager m →
  mg_panicked m = false
  ∧ (mg_closed m = true → mg_live m = [])
  ∧ (mg_running m = true → NoDup (omap id (mg_adapters m)) ∧ Forall (λ a, a ≠ None ∧ a ≠ Some "") (mg_adapters m)
                           ∧ NoDup (mg_live m) ∧ mg_live m ⊆ omap id (mg_adapters m))
  ∧ (mg_stopped m = true → ∃ m', rtc (mstep true) m m' ∧ mg_closed m' = true).
Proof.
  intros Hm. pose proof (reachable_inv m Hm) as Hinv. pose proof Hinv as [Hc Hp Hs Hl Hr Hi Hrep].
  split; [done|]. split; [by intros; apply Hc|]. split.
  { intros Hrun. destruct (Hr Hrun) as (_ & Hv & Hsub). by apply validateAdapters_spec in Hv as [? ?]. }
  clear -Hinv. intros Hst. remember (length (mg_live m)) as n eqn:En. revert m En Hinv Hst.
  induction n as [|n IH]; intros m En Hinv Hst.
  - destruct (mg_live m) as [|] eqn:El; [|done]. destruct (mg_closed m) eqn:Ec; [by exists m|].
    eexists. split; [apply rtc_once; apply (step_Stop_end _ m); [done..|]; unfold Stop_end; by rewrite El|done].
  - destruct (mg_live m) as [|name l] eqn:El; [done|].
    assert (adapter_returns 0 None m = Some (with_live l (mg_errs m) m)) as Hret by (unfold adapter_returns; by rewrite El).
    pose proof (step_returns true _ _ _ _ Hret) as Hstep.
    destruct (IH (with_live l (mg_errs m) m)) as (m' & Hm' & Hc'); [cbn in *; lia|by eapply mstep_inv|done|].
    exists m'. split; [by eapply rtc_l|done].
Qed.

(** The life of a manager: registered, started, reconciled, stopped. *)
Definition registered : Manager := default NewManager (Register (Some "udp") NewManager).
Definition started : Manager := match Start registered with Ok m => m | _ => NewManager end.
Definition reconciling : Manager := match Reconcile_begin [Some "tcp"] started with Ok m => m | _ => NewManager end.

Lemma manager_safe_witness :
  let m := Stop_begin started in
  mg_live m = ["udp"] ∧ rtc (mstep true) NewManager m ∧ mg_panicked m = false.
Proof.
  assert (rtc (mstep true) NewManager (Stop_begin started)) as Hm.
  { eapply rtc_l; [apply (step_Register _ (Some "udp") _ registered); reflexivity|].
    eapply rtc_l; [apply (step_Start _ _ started); [reflexivity|reflexivity]|].
    apply rtc_once, step_Stop_begin; reflexivity. }
  split; [reflexivity|]. split; [exact Hm|]. exact (proj1 (manager_safe _ Hm)).
Defined.

(** A Stop that overlaps a Reconcile: the replacement is launched after the channel has
    been closed, and its first record panics. *)
Lemma stop_overlaps_reconcile : ∃ m, rtc (mstep false) NewManager m ∧ mg_panicked m = true.
Proof.
  eexists. split.
  - eapply rtc_l; [apply (step_Register _ (Some "udp") _ registered); reflexivity|].
    eapply rtc_l; [apply (step_Start _ _ started); [done|reflexivity]|].
    eapply rtc_l; [apply (step_Reconcile_begin _ [Some "tcp"] _ reconciling); reflexivity|].
    eapply rtc_l; [apply step_Stop_begin; [done|reflexivity]|].
    eapply rtc_l; [eapply (step_returns _ 0%nat None); reflexivity|].
    eapply rtc_l; [eapply step_Stop_end; reflexivity|].
    eapply rtc_l; [eapply step_Reconcile_end; reflexivity|].
    apply rtc_once. eapply (step_sends _ 0%nat). reflexivity.
  - reflexivity.
Qed.
