(* ===== verification/Ndjson.v ===== *)
(** * [internal/output/file.go], [stdout.go]: the NDJSON sinks

    The sink writes through a [bufio.Writer] of 64 KiB, whose first failed write makes
    every later one fail; the environment says where writes to the file stop short, and
    which syncs fail.  [json.Marshal] of an event is a parameter. *)

From S2P Require Import Prelude GoStrings GoNum GoTime Model Samples.
From S2P Require Export Monad.

#[local] Open Scope monad_scope.

Class FileEnv := {
  write_stops : nat → option nat;                  (* the write fails after that many bytes *)
  sync_fails : nat → bool;
  close_fails : nat → bool;
  marshal : NormalizedEvent → res string;          (* json.Marshal *)
}.

Record NDJSONSink := {
  nd_file : string;                                (* what has been written to the file *)
  nd_synced : string;                              (* what an fsync has made durable *)
  nd_size : Z;                                     (* len(writer.buf) *)
  nd_buf : string;                                 (* writer.buf[:writer.n] *)
  nd_err : option error;                           (* writer.err *)
  nd_closed : bool;
  nd_tick : nat;
}.

(** [os.OpenFile(path, O_CREATE|O_APPEND|O_WRONLY)], of a file with that content. *)
Definition buf_size : Z := 64 * 1024.
Definition opened (content : string) : NDJSONSink :=
  {| nd_file := content; nd_synced := content; nd_size := buf_size; nd_buf := ""; nd_err := None; nd_closed := false; nd_tick := 0 |}.

Definition nd_update (file synced buf : string) (err : option error) (s : NDJSONSink) : NDJSONSink :=
  {| nd_file := file; nd_synced := synced; nd_size := nd_size s; nd_buf := buf; nd_err := err; nd_closed := nd_closed s; nd_tick := S (nd_tick s) |}.

Definition io_failure : error := errors_New "input/output error".

Section ndjson.
Context `{FileEnv}.
Abbreviation P := (Prog NDJSONSink).

(** ** [bufio.Writer] *)

(** [file.Write p]: how many bytes are written, and the error. *)
Definition file_write (p : string) (s : NDJSONSink) : nat * option error :=
  match write_stops (nd_tick s) with
  | Some k => if (k <? String.length p)%nat then (k, Some io_failure) else (String.length p, None)
  | None => (String.length p, None)
  end.

Definition writer_Flush : P unit := λ s,
  match nd_err s with
  | Some e => (Err e, s)
  | None =>
      if nd_buf s =s "" then (Ok (), s)
      else
        let '(n, err) := file_write (nd_buf s) s in
        (match err with Some e => Err e | None => Ok () end,
         nd_update (nd_file s +:+ str_take n (nd_buf s)) (nd_synced s) (str_drop n (nd_buf s)) err s)
  end.

Definition available (s : NDJSONSink) : Z := nd_size s - slen (nd_buf s).

(** [for len(p) > b.Available() && b.err == nil], which goes round twice at most. *)
Fixpoint write_loop (fuel : nat) (p : string) : Prog NDJSONSink string := λ s,
  match fuel with
  | O => (Ok p, s)
  | S fuel' =>
      if (available s <? slen p) && match nd_err s with None => true | _ => false end then
        if nd_buf s =s "" then
          let '(n, err) := file_write p s in
          write_loop fuel' (str_drop n p) (nd_update (nd_file s +:+ str_take n p) (nd_synced s) "" err s)
        else
          let n := Z.to_nat (available s) in
          let s1 := nd_update (nd_file s) (nd_synced s) (nd_buf s +:+ str_take n p) None s in
          write_loop fuel' (str_drop n p) (writer_Flush s1).2
      else (Ok p, s)
  end.

Definition writer_Write (p : string) : P unit :=
  rest <- write_loop 3 p ;;
  λ s, match nd_err s with
       | Some e => (Err e, s)
       | None => (Ok (), nd_update (nd_file s) (nd_synced s) (nd_buf s +:+ rest) None s)
       end.

Definition writer_WriteByte (c : ascii) : P unit := λ s,
  match nd_err s with
  | Some e => (Err e, s)
  | None =>
      let '(r, s1) := if available s <=? 0 then writer_Flush s else (Ok (), s) in
      match r with
      | Ok _ => (Ok (), nd_update (nd_file s1) (nd_synced s1) (nd_buf s1 +:+ chr c) None s1)
      | _ => (r, s1)
      end
  end.

(** ** The sink *)

Definition file_Sync : P unit := λ s,
  if sync_fails (nd_tick s) then (Err io_failure, nd_update (nd_file s) (nd_synced s) (nd_buf s) (nd_err s) s)
  else (Ok (), nd_update (nd_file s) (nd_file s) (nd_buf s) (nd_err s) s).

Definition NDJSON_Emit (event : NormalizedEvent) : P unit := λ s,
  match marshal event with
  | Panic p => (Panic p, s)
  | Err e => (Err (Errorf "failed to marshal normalized event: %w" [AErr e]), s)
  | Ok data =>
      if nd_closed s then (Err (errors_New "sink is closed"), s)
      else
        match writer_Write data s with
        | (Ok _, s1) =>
            match writer_WriteByte LF s1 with
            | (Err e, s2) => (Err (Errorf "failed to write newline: %w" [AErr e]), s2)
            | r => r
            end
        | (Err e, s1) => (Err (Errorf "failed to write event: %w" [AErr e]), s1)
        | r => r
        end
  end.

Definition NDJSON_Flush : P unit := λ s,
  if nd_closed s then (Ok (), s)
  else match writer_Flush s with
       | (Err e, s1) => (Err (Errorf "flush failed: %w" [AErr e]), s1)
       | (Ok _, s1) => file_Sync s1
       | r => r
       end.

Definition NDJSON_Close : P unit := λ s,
  if nd_closed s then (Ok (), s)
  else
    let '(flushErr, s1) := writer_Flush {| nd_file := nd_file s; nd_synced := nd_synced s; nd_size := nd_size s; nd_buf := nd_buf s;
                                           nd_err := nd_err s; nd_closed := true; nd_tick := nd_tick s |} in
    let '(syncErr, s2) := file_Sync s1 in
    let closeErr := if close_fails (nd_tick s2) then Err io_failure else Ok () in
    (match flushErr, syncErr with Ok _, Ok _ => closeErr | Ok _, e => e | e, _ => e end, s2).

(** ** What the sink has accepted is in the file or in the buffer *)

(** [text] is all of the file and the buffer, unless a write has failed. *)
Definition holds (text : string) (s : NDJSONSink) : Prop := nd_err s = None → nd_file s +:+ nd_buf s = text.
(** The buffer is no longer than it may be, and an error stays. *)
Definition small (s : NDJSONSink) : Prop := slen (nd_buf s) ≤ nd_size s ∧ 0 < nd_size s.

Lemma file_write_take p s n :
  file_write p s = (n, None) → n = String.length p.
Proof. unfold file_write. repeat case_match; congruence. Qed.
Lemma str_drop_all s : str_drop (String.length s) s = "".
Proof. by induction s. Qed.
Lemma length_str_drop n s : String.length (str_drop n s) = (String.length s - n)%nat.
Proof. apply length_drop_str. Qed.

(** After a call on the writer: it succeeds exactly where no write has failed so far. *)
Record written (text : string) (s : NDJSONSink) (r : res unit) (s' : NDJSONSink) : Prop := {
  wr_holds : holds text s';
  wr_small : small s';
  wr_closed : nd_closed s' = nd_closed s;
  wr_synced : nd_synced s' = nd_synced s;
  wr_result : match r with Ok _ => nd_err s = None ∧ nd_err s' = None | Err _ => nd_err s' ≠ None | Panic _ => False end;
}.

Lemma writer_Flush_spec text s :
  holds text s → small s → wp writer_Flush (λ r s', written text s r s' ∧ (r = Ok () → nd_buf s' = "")) s.
Proof.
  intros Hh Hs. unfold writer_Flush, wp. destruct (nd_err s) as [e|] eqn:Ee.
  { split; [|done]. split; [done..|by rewrite Ee]. }
  destruct (String.eqb_spec (nd_buf s) "") as [Hb|Hb]; [split; [split; [done..|by rewrite Ee]|done]|].
  destruct (file_write (nd_buf s) s) as [n err] eqn:Ew.
  assert (small (nd_update "" "" (str_drop n (nd_buf s)) None s)) as Hsm
    by (unfold small, slen in *; cbn; rewrite length_drop_str; lia).
  destruct err as [e|]; [by split; [split|]|]. apply file_write_take in Ew as ->. split; [|intros _; apply str_drop_all].
  split; try done. intros _. cbn. by rewrite str_drop_all, app_nil_r_str, str_take_all, Hh.
Qed.

(** The rounds the loop has left. *)
Definition fits (p : string) (s : NDJSONSink) : bool := negb (available s <? slen p).
Definition rounds (p : string) (s : NDJSONSink) : nat :=
  if fits p s || match nd_err s with Some _ => true | None => false end then 0 else if nd_buf s =s "" then 1 else 2.

Lemma rounds_after_flush p s : nd_buf s = "" ∨ nd_err s ≠ None → (rounds p s ≤ 1)%nat.
Proof. unfold rounds. intros [->|He]; [by destruct (_ || _); cbn; lia|]. destruct (nd_err s); [|done]. rewrite orb_true_r. lia. Qed.

(** It stops with a rest that fits, or with an error. *)
Lemma write_loop_spec fuel text p s :
  holds text s → small s → (rounds p s ≤ fuel)%nat →
  wp (write_loop fuel p) (λ r s', ∃ done rest, p = done +:+ rest ∧ r = Ok rest ∧ holds (text +:+ done) s' ∧ small s'
    ∧ nd_closed s' = nd_closed s ∧ nd_synced s' = nd_synced s
    ∧ (nd_err s' = None → nd_err s = None ∧ fits rest s' = true)) s.
Proof.
  revert text p s. induction fuel as [|fuel IH]; intros text p s Hh Hs Hr; cbn [write_loop].
  - unfold wp. exists "", p. rewrite app_nil_r_str. split_and!; try done. intros He. split; [done|].
    unfold rounds in Hr. rewrite He in Hr. destruct (fits p s); [done|]. cbn in Hr. destruct (nd_buf s =s ""); lia.
  - unfold wp. destruct ((available s <? slen p) && _) eqn:Eg.
    2: { exists "", p. rewrite app_nil_r_str. split_and!; try done. intros He. split; [done|]. rewrite He, andb_true_r in Eg.
         unfold fits. by rewrite Eg. }
    apply andb_prop in Eg as [Eg Ee]. destruct (nd_err s) as [e|] eqn:He; [done|]. clear Ee.
    assert (fits p s = false) as Hnf by (unfold fits; by rewrite Eg).
    destruct (String.eqb_spec (nd_buf s) "") as [Hb|Hb].
    + destruct (file_write p s) as [n err] eqn:Ew.
      set (s1 := nd_update (nd_file s +:+ str_take n p) (nd_synced s) "" err s).
      assert (holds (text +:+ str_take n p) s1) as Hh1.
      { intros _. cbn. rewrite app_nil_r_str, <- (Hh He), Hb, app_nil_r_str. done. }
      assert (rounds (str_drop n p) s1 ≤ fuel)%nat as Hr1.
      { transitivity 0%nat; [|lia]. unfold rounds. destruct err as [e|]; [cbn; by rewrite orb_true_r|].
        apply file_write_take in Ew as ->. rewrite str_drop_all. replace (fits "" s1) with true; [done|].
        symmetry. unfold fits, available, small, slen in *. cbn. apply negb_true_iff, Z.ltb_ge. lia. }
      specialize (IH _ _ s1 Hh1 ltac:(unfold small, slen in *; cbn; lia) Hr1). unfold wp in IH.
      destruct (write_loop fuel (str_drop n p) s1) as [r s2].
      destruct IH as (done' & rest & Hp & -> & Hh2 & Hs2 & Hc2 & Hy2 & He2). exists (str_take n p +:+ done'), rest.
      split_and!; [by rewrite app_assoc_str, <- Hp, take_drop_str|done|by rewrite <- app_assoc_str|..]; try done. intros E. by split; [|apply He2].
    + set (n := Z.to_nat (available s)). set (s1 := nd_update (nd_file s) (nd_synced s) (nd_buf s +:+ str_take n p) None s).
      assert (holds (text +:+ str_take n p) s1) as Hh1 by (intros _; cbn; by rewrite <- app_assoc_str, Hh).
      assert (small s1) as Hs1.
      { unfold small, n, available, slen in *. cbn.
        rewrite length_app_str, length_take_str. lia. }
      pose proof (writer_Flush_spec _ s1 Hh1 Hs1) as Hf. unfold wp in Hf. destruct (writer_Flush s1) as [r s2].
      destruct Hf as [[Hh2 Hs2 Hc2 Hy2 Hr2] Hb2]. cbn [snd].
      assert (nd_buf s2 = "" ∨ nd_err s2 ≠ None) as Hor by (destruct r as [[]|e|q]; [left; auto|by right|done]).
      assert (rounds p s = 2%nat) as Hr2'.
      { unfold rounds. rewrite Hnf, He. cbn. by destruct (String.eqb_spec (nd_buf s) ""). }
      specialize (IH _ (str_drop n p) s2 Hh2 Hs2 ltac:(pose proof (rounds_after_flush (str_drop n p) s2 Hor); lia)).
      unfold wp in IH. destruct (write_loop fuel (str_drop n p) s2) as [r3 s3].
      destruct IH as (done' & rest & Hp & -> & Hh3 & Hs3 & Hc3 & Hy3 & He3). exists (str_take n p +:+ done'), rest.
      split_and!; [by rewrite app_assoc_str, <- Hp, take_drop_str|done|by rewrite <- app_assoc_str|done|by rewrite Hc3, Hc2|by rewrite Hy3, Hy2|].
      intros E. by split; [|apply He3].
Qed.

Lemma writer_Write_spec text p s :
  holds text s → small s → wp (writer_Write p) (written (text +:+ p) s) s.
Proof.
  intros Hh Hs. unfold writer_Write. apply wp_bind. eapply wp_mono; [apply (write_loop_spec 3 text p s Hh Hs)|].
  { unfold rounds. repeat case_match; lia. }
  cbv beta. intros r s1 (done' & rest & -> & -> & Hh1 & Hs1 & Hc1 & Hy1 & He1). unfold wp.
  destruct (nd_err s1) as [e|] eqn:Ee; [split; try done; [intros E|]; congruence|]. destruct (He1 eq_refl) as [He Hfit].
  split; try done.
  - intros _. cbn. by rewrite <- !app_assoc_str, (Hh1 Ee).
  - unfold small, fits, available, slen in *. cbn. rewrite length_app_str.
    apply negb_true_iff, Z.ltb_ge in Hfit. lia.
Qed.

Lemma writer_WriteByte_spec text c s :
  holds text s → small s → wp (writer_WriteByte c) (written (text +:+ chr c) s) s.
Proof.
  intros Hh Hs. unfold writer_WriteByte, wp. destruct (nd_err s) as [e|] eqn:Ee.
  { split; try done; [intros E; congruence|by rewrite Ee]. }
  assert (∀ r s1, written text s r s1 → (r = Ok () → slen (nd_buf s1) < nd_size s1) →
    let '(r', s') := match r with
                     | Ok _ => (Ok (), nd_update (nd_file s1) (nd_synced s1) (nd_buf s1 +:+ chr c) None s1)
                     | _ => (r, s1) end in written (text +:+ chr c) s r' s') as Hput.
  { intros r s1 [Hh1 Hs1 Hc1 Hy1 Hr1] Hlt. destruct r as [[]|e|q]; [| |done].
    - destruct Hr1 as [_ He1]. split; try done; [intros _; cbn; by rewrite <- app_assoc_str, Hh1|].
      unfold small, slen in *. cbn. rewrite length_app_str. cbn.
      specialize (Hlt eq_refl). lia.
    - split; try done. intros E. congruence. }
  destruct (Z.leb_spec (available s) 0) as [Ha|Ha].
  - pose proof (writer_Flush_spec text s Hh Hs) as Hf. unfold wp in Hf. destruct (writer_Flush s) as [r s1].
    destruct Hf as [Hw Hb]. apply (Hput r s1 Hw). intros ->. rewrite Hb by done. apply Hw.
  - apply (Hput (Ok ()) s); [by split|]. intros _. unfold available in Ha. unfold small in Hs.
     lia.
Qed.

(** The text a successful [Emit] adds. *)
Definition emitted (event : NormalizedEvent) (r : res unit) : string :=
  match r, marshal event with Ok _, Ok data => data +:+ chr LF | _, _ => "" end.

Lemma writer_holds text text' s r s' :
  written text s r s' → (∀ e, r = Err e → True) → r ≠ Ok () → holds text' s'.
Proof. intros [_ _ _ _ Hr] _ Hne He. destruct r as [[]|e|q]; [done|by destruct Hr|done]. Qed.

Lemma Emit_spec event text s :
  holds text s → small s →
  wp (NDJSON_Emit event) (λ r s', holds (text +:+ emitted event r) s' ∧ small s' ∧ nd_synced s' = nd_synced s) s.
Proof.
  intros Hh Hs. unfold NDJSON_Emit, emitted, wp. destruct (marshal event) as [data|e|q]; [|by rewrite app_nil_r_str..].
  destruct (nd_closed s); [by rewrite app_nil_r_str|].
  pose proof (writer_Write_spec text data s Hh Hs) as Hw. unfold wp in Hw. destruct (writer_Write data s) as [r1 s1].
  pose proof Hw as [Hh1 Hs1 _ Hy1 Hr1].
  destruct r1 as [[]|e|q]; [|split_and!; [by eapply (writer_holds _ _ _ (Err e))|done|done]|done].
  pose proof (writer_WriteByte_spec _ LF s1 Hh1 Hs1) as Hb. unfold wp in Hb. destruct (writer_WriteByte LF s1) as [r2 s2].
  pose proof Hb as [Hh2 Hs2 _ Hy2 Hr2]. destruct r2 as [[]|e|q]; [| |done].
  - split_and!; [by rewrite <- app_assoc_str|done|congruence].
  - split_and!; [by eapply (writer_holds _ _ _ (Err e))|done|congruence].
Qed.

Lemma Sync_spec text s :
  holds text s → small s → wp file_Sync (λ r s', holds text s' ∧ small s' ∧ (r = Ok () → nd_synced s' = nd_file s)) s.
Proof. intros Hh Hs. unfold file_Sync, wp. by destruct (sync_fails _). Qed.

Lemma Flush_spec text s :
  holds text s → small s →
  wp NDJSON_Flush (λ r s', holds text s' ∧ small s' ∧ (r = Ok () → nd_closed s = false → nd_synced s' = text)) s.
Proof.
  intros Hh Hs. unfold NDJSON_Flush, wp. destruct (nd_closed s); [done|].
  pose proof (writer_Flush_spec text s Hh Hs) as Hf. unfold wp in Hf. destruct (writer_Flush s) as [r1 s1].
  destruct Hf as [[Hh1 Hs1 _ _ Hr1] Hb1]. destruct r1 as [[]|e|q]; [|done..]. destruct Hr1 as [_ He1].
  pose proof (Sync_spec text s1 Hh1 Hs1) as Hy. unfold wp in Hy. destruct (file_Sync s1) as [r2 s2].
  destruct Hy as (Hh2 & Hs2 & Hy2). split_and!; [done..|]. intros Hr _. rewrite (Hy2 Hr), <- (Hh1 He1), Hb1 by done.
  by rewrite app_nil_r_str.
Qed.

Lemma Close_spec text s :
  holds text s → small s →
  wp NDJSON_Close (λ r s', holds text s' ∧ small s' ∧ (r = Ok () → nd_closed s = false → nd_synced s' = text)) s.
Proof.
  intros Hh Hs. unfold NDJSON_Close, wp. destruct (nd_closed s); [done|].
  set (s0 := Build_NDJSONSink _ _ _ _ _ _ _).
  pose proof (writer_Flush_spec text s0 Hh Hs) as Hf. unfold wp in Hf. destruct (writer_Flush s0) as [r1 s1].
  destruct Hf as [[Hh1 Hs1 _ _ Hr1] Hb1].
  pose proof (Sync_spec text s1 Hh1 Hs1) as Hy. unfold wp in Hy. destruct (file_Sync s1) as [r2 s2].
  destruct Hy as (Hh2 & Hs2 & Hy2). split_and!; [done..|]. intros Hr _.
  destruct r1 as [[]|e|q]; [|done..]. destruct Hr1 as [_ He1]. destruct r2 as [[]|e|q]; [|done..].
  rewrite Hy2, <- (Hh1 He1), Hb1 by done. by rewrite app_nil_r_str.
Qed.

(** Any sequence of calls, and the text of the events whose [Emit] succeeded. *)
Inductive sink_call := CallEmit (event : NormalizedEvent) | CallFlush | CallClose.
Definition perform (c : sink_call) : P unit :=
  match c with CallEmit event => NDJSON_Emit event | CallFlush => NDJSON_Flush | CallClose => NDJSON_Close end.
Fixpoint perform_all (calls : list sink_call) (s : NDJSONSink) : string * NDJSONSink :=
  match calls with
  | [] => ("", s)
  | c :: calls' =>
      let '(r, s1) := perform c s in
      let '(text, s2) := perform_all calls' s1 in
      ((match c with CallEmit event => emitted event r | _ => "" end) +:+ text, s2)
  end.

Lemma perform_all_spec calls text s :
  holds text s → small s → holds (text +:+ (perform_all calls s).1) (perform_all calls s).2 ∧ small (perform_all calls s).2.
Proof.
  revert text s. induction calls as [|c calls IH]; intros text s Hh Hs; cbn [perform_all]; [by rewrite app_nil_r_str|].
  assert (holds (text +:+ match c with CallEmit event => emitted event (perform c s).1 | _ => "" end) (perform c s).2
          ∧ small (perform c s).2) as [Hh1 Hs1].
  { destruct c as [event| |]; cbn [perform]; rewrite ?app_nil_r_str.
    - pose proof (Emit_spec event text s Hh Hs) as Hw. unfold wp in Hw. destruct (NDJSON_Emit event s). by destruct Hw as (? & ? & _).
    - pose proof (Flush_spec text s Hh Hs) as Hw. unfold wp in Hw. destruct (NDJSON_Flush s). by destruct Hw as (? & ? & _).
    - pose proof (Close_spec text s Hh Hs) as Hw. unfold wp in Hw. destruct (NDJSON_Close s). by destruct Hw as (? & ? & _). }
  destruct (perform c s) as [r s1]. specialize (IH _ s1 Hh1 Hs1). destruct (perform_all calls s1) as [t s2].
  cbn in *. by rewrite <- app_assoc_str.
Qed.
End ndjson.

(** Whatever calls a sink has had, and whatever writes and syncs failed on the way:
    when a Flush of the open sink succeeds, or its Close does, the file's durable content
    is what it was opened with and, in order, the line of each event whose Emit succeeded;
    nothing is lost, torn, repeated or reordered. *)
Theorem ndjson_flush_durable (env : FileEnv) (content : string) (calls : list sink_call) :
  let '(text, s) := perform_all calls (opened content) in
  nd_closed s = false →
  (∀ s', NDJSON_Flush s = (Ok (), s') → nd_synced s' = content +:+ text)
  ∧ (∀ s', NDJSON_Close s = (Ok (), s') → nd_synced s' = content +:+ text).
Proof.
  pose proof (perform_all_spec calls content (opened content)) as Hp. destruct (perform_all calls (opened content)) as [text s].
  intros Hopen. destruct Hp as [Hh Hs]; [intros _; apply app_nil_r_str|done|].
  split; intros s' E.
  - pose proof (Flush_spec _ s Hh Hs) as Hf. unfold wp in Hf. rewrite E in Hf. by apply Hf.
  - pose proof (Close_spec _ s Hh Hs) as Hf. unfold wp in Hf. rewrite E in Hf. by apply Hf.
Qed.

(** ** [internal/output/stdout.go] *)

Section stdout.
Context `{FileEnv}.

(** What the process has printed. *)
Record StdoutSink := { so_text : string; so_tick : nat }.

(** [fmt.Fprintln(os.Stdout, text)]: one write, of the line. *)
Definition Fprintln (text : string) : Prog StdoutSink unit := λ s,
  let line := text +:+ chr LF in
  let n := match write_stops (so_tick s) with Some k => Nat.min k (String.length line) | None => String.length line end in
  (if (n <? String.length line)%nat then Err io_failure else Ok (),
   {| so_text := so_text s +:+ str_take n line; so_tick := S (so_tick s) |}).

Definition Stdout_Emit (event : NormalizedEvent) : Prog StdoutSink unit := λ s,
  match marshal event with
  | Panic p => (Panic p, s)
  | Err e => (Err (Errorf "failed to marshal normalized event: %w" [AErr e]), s)
  | Ok data => Fprintln data s
  end.
Definition Stdout_Flush : Prog StdoutSink unit := ret ().
Definition Stdout_Close : Prog StdoutSink unit := ret ().

(** An event that is accepted is one whole line. *)
Lemma Stdout_Emit_line event s s' :
  Stdout_Emit event s = (Ok (), s') → ∃ data, marshal event = Ok data ∧ so_text s' = so_text s +:+ data +:+ chr LF.
Proof.
  unfold Stdout_Emit, Fprintln. destruct (marshal event) as [data|e|p]; [|done..]. intros E. exists data. split; [done|].
  destruct (_ <? _)%nat eqn:En; [done|]. injection E as <-. cbn. apply Nat.ltb_ge in En.
  set (n := match _ with Some k => _ | None => _ end) in *. assert (n = String.length (data +:+ chr LF)) as -> by (unfold n in *; destruct (write_stops _); lia).
  by rewrite str_take_all.
Qed.
End stdout.

(** ** Concrete runs *)

(** Writes as [stops] says; an event's text is its identifier in brackets. *)
Definition disk_env (stops : nat → option nat) : FileEnv := {|
  write_stops := stops; sync_fails _ := false; close_fails _ := false;
  marshal event := Ok ("{" +:+ EventID (Worm event) +:+ "}") |}.

Lemma ndjson_flush_durable_witness :
  let env := disk_env (λ _, None) in
  let '(text, s) := perform_all [CallEmit (event_with "a"); CallFlush; CallEmit (event_with "b")] (opened ("{0}" +:+ chr LF)) in
  nd_closed s = false ∧ (NDJSON_Flush s).1 = Ok ()
  ∧ nd_synced (NDJSON_Flush s).2 = ("{0}" +:+ chr LF) +:+ ("{a}" +:+ chr LF +:+ "{b}" +:+ chr LF).
Proof.
  cbv zeta. split; [reflexivity|]. split; [reflexivity|].
  exact (proj1 (ndjson_flush_durable (disk_env (λ _, None)) ("{0}" +:+ chr LF)
                  [CallEmit (event_with "a"); CallFlush; CallEmit (event_with "b")] eq_refl) _ eq_refl).
Defined.

(** A sink whose Close failed to write the buffer reports success to a later Flush: the
    event was accepted, and is not in the file. *)
Lemma closed_flush_lies :
  let env := disk_env (λ _, Some 0%nat) in
  let '(text, s) := perform_all [CallEmit (event_with "a"); CallClose] (opened "") in
  (NDJSON_Flush s).1 = Ok () ∧ text = "{a}" +:+ chr LF ∧ nd_synced (NDJSON_Flush s).2 = "".
Proof. cbv zeta. by split_and!. Qed.

(** A file whose last line is torn (by a write that failed) is appended to as it is: the
    next event's line is glued to it. *)
Lemma torn_line_glued :
  let env := disk_env (λ _, None) in
  let '(text, s) := perform_all [CallEmit (event_with "b")] (opened "{a") in
  (NDJSON_Flush s).1 = Ok () ∧ nd_synced (NDJSON_Flush s).2 = "{a{b}" +:+ chr LF.
Proof. cbv zeta. by split_and!. Qed.
