(* ===== verification/HttpSink.v ===== *)
(** * [internal/output/http.go]: the HTTP SIEM sink

    Events wait in a buffer; a flush takes the whole buffer, sends it with retries, and
    puts it back in front when that fails.  [mu] guards the buffer and [flushMu] the
    flush, so between a flush's two critical sections other goroutines may still add
    events: the sections are separate steps here.  The endpoint's answers are the
    environment's. *)

From S2P Require Import Prelude GoStrings GoNum GoTime Model Samples.
From S2P Require Export Monad.

#[local] Open Scope monad_scope.

Record HTTPOutputConfig := {
  ho_URL : string; ho_Format : string; ho_BatchEvents : Z; ho_MaxRetries : Z; ho_MinBackoff : Z; ho_MaxBackoff : Z;
  ho_AuthHeader : string; ho_AuthToken : string }.

Definition millisecond : Z := 10 ^ 6.
(** The defaults of [NewHTTPSIEMSink]. *)
Definition with_defaults (c : HTTPOutputConfig) : HTTPOutputConfig :=
  {| ho_URL := ho_URL c;
     ho_Format := if ho_Format c =s "" then "ndjson" else ho_Format c;
     ho_BatchEvents := if ho_BatchEvents c <=? 0 then 100 else ho_BatchEvents c;
     ho_MaxRetries := if ho_MaxRetries c <? 0 then 3 else ho_MaxRetries c;
     ho_MinBackoff := if ho_MinBackoff c <=? 0 then 100 * millisecond else ho_MinBackoff c;
     ho_MaxBackoff := if ho_MaxBackoff c <=? 0 then 10 * 1000 * millisecond else ho_MaxBackoff c;
     ho_AuthHeader := ho_AuthHeader c; ho_AuthToken := ho_AuthToken c |}.

Class SiemEnv := {
  respond : nat → res Z;                           (* the status of the n-th request, or its error *)
  bad_request : nat → option error;                (* http.NewRequestWithContext *)
  send_done : nat → bool;                          (* the context, while a retry waits *)
  marshal_event : NormalizedEvent → res string;    (* json.Marshal of an event *)
  marshal_batch : list NormalizedEvent → res string;
}.

(** ** Sending *)

Record Request := { rp_payload : string; rp_contentType : string; rp_auth : option (string * string) }.
(** The requests made, with their answers, and the waits between them. *)
Record Wire := { wi_requests : list (Request * res Z); wi_waits : list Z; wi_tick : nat }.

Definition wrap64 (z : Z) : Z := (z + 2 ^ 63) mod 2 ^ 64 - 2 ^ 63.

Section siem.
Context `{SiemEnv} (cfg : HTTPOutputConfig).

(** NDJSON: a line for each event. *)
Fixpoint marshal_lines (batch : list NormalizedEvent) : res string :=
  match batch with
  | [] => Ok ""
  | event :: batch' =>
      match marshal_event event with
      | Ok line => match marshal_lines batch' with Ok rest => Ok (line +:+ chr LF +:+ rest) | r => r end
      | r => r
      end
  end.
Definition serializeBatch (batch : list NormalizedEvent) : res (string * string) :=
  if ho_Format cfg =s "json" then
    match marshal_batch batch with Ok data => Ok (data, "application/json") | Err e => Err e | Panic p => Panic p end
  else
    match marshal_lines batch with Ok data => Ok (data, "application/x-ndjson") | Err e => Err e | Panic p => Panic p end.

Definition post_request (r : Request) : Prog Wire (res Z) := λ w,
  (Ok (respond (wi_tick w)), {| wi_requests := wi_requests w ++ [(r, respond (wi_tick w))]; wi_waits := wi_waits w; wi_tick := S (wi_tick w) |}).
Definition wire_tick : Prog Wire nat := λ w,
  (Ok (wi_tick w), {| wi_requests := wi_requests w; wi_waits := wi_waits w; wi_tick := S (wi_tick w) |}).
Definition wait (d : Z) : Prog Wire unit := λ w,
  (Ok (), {| wi_requests := wi_requests w; wi_waits := wi_waits w ++ [d]; wi_tick := wi_tick w |}).

Definition success (status : Z) : bool := (200 <=? status) && (status <? 300).

Definition next_backoff (backoff : Z) : Z :=
  let b := wrap64 (backoff * 2) in if ho_MaxBackoff cfg <? b then ho_MaxBackoff cfg else b.

(** One attempt, and [more] after it where it fails. *)
Fixpoint send_attempts (more : nat) (attempts : Z) (backoff : Z) (r : Request) : Prog Wire unit :=
  t <- wire_tick ;;
  match bad_request t with
  | Some e => fail (Errorf "failed to create http request: %w" [AErr e])
  | None =>
      resp <- post_request r ;;
      let again (lastErr : error) :=
        match more with
        | O => fail (Errorf "failed to deliver batch after %d attempts: %w" [AInt attempts; AErr lastErr])
        | S more' =>
            t <- wire_tick ;;
            if send_done t then fail (errors_New "context canceled")
            else wait backoff ;;; send_attempts more' attempts (next_backoff backoff) r
        end in
      match resp with
      | Panic p => mcall (Panic p)
      | Err e => again e
      | Ok status =>
          if success status then ret ()
          else again (Errorf "http siem responded with status %d" [AInt status])
      end
  end.

Definition attempts_of : Z := let n := wrap64 (ho_MaxRetries cfg + 1) in if n <=? 0 then 1 else n.

Definition sendWithRetry (payload contentType : string) : Prog Wire unit :=
  let auth := if (ho_AuthHeader cfg <>s "") && (ho_AuthToken cfg <>s "") then Some (ho_AuthHeader cfg, ho_AuthToken cfg) else None in
  send_attempts (Z.to_nat (attempts_of - 1)) attempts_of (ho_MinBackoff cfg)
    {| rp_payload := payload; rp_contentType := contentType; rp_auth := auth |}.

(** ** The sink *)

Record HTTPSIEMSink := {
  hs_buffer : list NormalizedEvent;
  hs_inflight : option (list NormalizedEvent);     (* the batch of the flush that holds flushMu *)
  hs_closed : bool;
  (* what has happened: batches answered 2xx, in order; events added to the buffer, in order;
     the identifiers of the events whose Emit was not refused *)
  hs_delivered : list (list NormalizedEvent);
  hs_appended : list NormalizedEvent;
  hs_accepted : list string;
}.
Definition NewHTTPSIEMSink : HTTPSIEMSink :=
  {| hs_buffer := []; hs_inflight := None; hs_closed := false; hs_delivered := []; hs_appended := []; hs_accepted := [] |}.

Definition event_id (e : NormalizedEvent) : string := EventID (Worm e).

(** [Emit]'s critical section: is the buffer ready to be flushed? *)
Definition append_event (event : NormalizedEvent) (s : HTTPSIEMSink) : res bool * HTTPSIEMSink :=
  if hs_closed s then (Err (errors_New "http sink is closed"), s)
  else
    let queued := existsb (λ q, event_id q =s event_id event) (hs_buffer s) in
    let buffer := if queued then hs_buffer s else hs_buffer s ++ [event] in
    (Ok (negb queued && (ho_BatchEvents cfg <=? Z.of_nat (length buffer))),
     {| hs_buffer := buffer; hs_inflight := hs_inflight s; hs_closed := false; hs_delivered := hs_delivered s;
        hs_appended := if queued then hs_appended s else hs_appended s ++ [event];
        hs_accepted := hs_accepted s ++ [event_id event] |}).

(** [flushContext]'s first critical section, with flushMu held. *)
Definition take_batch (s : HTTPSIEMSink) : option (list NormalizedEvent) * HTTPSIEMSink :=
  match hs_buffer s with
  | [] => (None, s)
  | batch => (Some batch,
      {| hs_buffer := []; hs_inflight := Some batch; hs_closed := hs_closed s; hs_delivered := hs_delivered s;
         hs_appended := hs_appended s; hs_accepted := hs_accepted s |})
  end.
(** Its end: the batch is delivered, or goes back in front of the buffer. *)
Definition finish_flush (batch : list NormalizedEvent) (delivered : bool) (s : HTTPSIEMSink) : HTTPSIEMSink :=
  {| hs_buffer := if delivered then hs_buffer s else batch ++ hs_buffer s; hs_inflight := None; hs_closed := hs_closed s;
     hs_delivered := if delivered then hs_delivered s ++ [batch] else hs_delivered s;
     hs_appended := hs_appended s; hs_accepted := hs_accepted s |}.

(** A flush that nothing interleaves with. *)
Definition flushContext (w : HTTPSIEMSink * Wire) : res unit * (HTTPSIEMSink * Wire) :=
  let '(s, wire) := w in
  match take_batch s with
  | (None, s1) => (Ok (), (s1, wire))
  | (Some batch, s1) =>
      let '(r, wire1) := match serializeBatch batch with
                         | Ok (payload, contentType) => sendWithRetry payload contentType wire
                         | Err e => (Err e, wire)
                         | Panic p => (Panic p, wire)
                         end in
      match r with
      | Ok _ => (Ok (), (finish_flush batch true s1, wire1))
      | Err e => (Err (Errorf "deliver HTTP batch: %w" [AErr e]), (finish_flush batch false s1, wire1))
      | Panic p => (Panic p, (s1, wire1))
      end
  end.

Definition HTTP_Emit (event : NormalizedEvent) (w : HTTPSIEMSink * Wire) : res unit * (HTTPSIEMSink * Wire) :=
  match append_event event w.1 with
  | (Ok true, s1) => flushContext (s1, w.2)
  | (Ok false, s1) => (Ok (), (s1, w.2))
  | (Err e, s1) => (Err e, (s1, w.2))
  | (Panic p, s1) => (Panic p, (s1, w.2))
  end.

Definition mark_closed (s : HTTPSIEMSink) : HTTPSIEMSink :=
  {| hs_buffer := hs_buffer s; hs_inflight := hs_inflight s; hs_closed := true; hs_delivered := hs_delivered s;
     hs_appended := hs_appended s; hs_accepted := hs_accepted s |}.
Definition HTTP_Close (w : HTTPSIEMSink * Wire) : res unit * (HTTPSIEMSink * Wire) := flushContext (mark_closed w.1, w.2).

(** ** The requests of a flush *)

Definition delivered (answer : res Z) : bool := match answer with Ok status => success status | _ => false end.

(** What [more + 1] attempts come to: the answers to as many requests at most, all the same
    request; success exactly where the last answer is 2xx, and no earlier one is; waits
    that grow up to the maximum. *)
Definition attempted (more : nat) (backoff : Z) (r : Request) (w : Wire) (result : res unit) (w' : Wire) : Prop :=
  ∃ answers waits, wi_requests w' = wi_requests w ++ map (λ a, (r, a)) answers ∧ wi_waits w' = wi_waits w ++ waits
    ∧ (length answers ≤ S more)%nat ∧ (length waits ≤ more)%nat
    ∧ (0 < backoff ≤ ho_MaxBackoff cfg → ho_MaxBackoff cfg < 2 ^ 62 → Forall (λ d, 0 < d ≤ ho_MaxBackoff cfg) waits)
    ∧ (result = Ok () ↔ ∃ init last, answers = init ++ [last] ∧ delivered last = true)
    ∧ Forall (λ a, delivered a = false) (removelast answers).

Lemma next_backoff_bounds backoff :
  0 < backoff ≤ ho_MaxBackoff cfg → ho_MaxBackoff cfg < 2 ^ 62 → 0 < next_backoff backoff ≤ ho_MaxBackoff cfg.
Proof.
  intros Hb Hm. unfold next_backoff, wrap64. rewrite Z.mod_small by lia.
  destruct (Z.ltb_spec (ho_MaxBackoff cfg) (backoff * 2 + 2 ^ 63 - 2 ^ 63)); lia.
Qed.

Lemma no_answer more backoff r w w' result :
  wi_requests w' = wi_requests w → wi_waits w' = wi_waits w → result ≠ Ok () → attempted more backoff r w result w'.
Proof.
  intros Hr Hw Hne. exists [], []. rewrite !app_nil_r. split_and!; cbn; try (done || lia || apply Forall_nil_2).
  split; [done|]. intros (init & last & E & _). by destruct init.
Qed.

(** The only answer. *)
Lemma one_answer more backoff r w w' result a :
  wi_requests w' = wi_requests w ++ [(r, a)] → wi_waits w' = wi_waits w → (result = Ok () ↔ delivered a = true) →
  attempted more backoff r w result w'.
Proof.
  intros Hr Hw Hres. exists [a], []. rewrite app_nil_r. split_and!; cbn; try (done || lia || apply Forall_nil_2).
  rewrite Hres. split; [intros Hd; by exists [], a|]. intros (init & last & E & Hd).
  destruct init as [|x [|? ?]]; by simplify_eq/=.
Qed.

(** A failed answer, a wait, and the other attempts. *)
Lemma then_attempted more backoff r w w1 w2 result a :
  wi_requests w1 = wi_requests w ++ [(r, a)] → wi_waits w1 = wi_waits w ++ [backoff] → delivered a = false →
  attempted more (next_backoff backoff) r w1 result w2 → attempted (S more) backoff r w result w2.
Proof.
  intros Hr Hw Ha (answers & waits & Hr2 & Hw2 & Hla & Hlw & Hb & Hres & Hinit).
  exists (a :: answers), (backoff :: waits). split_and!; cbn; try lia.
  - by rewrite Hr2, Hr, <- app_assoc.
  - by rewrite Hw2, Hw, <- app_assoc.
  - intros Hbk Hm. constructor; [done|]. apply Hb; [by apply next_backoff_bounds|done].
  - rewrite Hres. split; intros (init & last & E & Hd); [exists (a :: init), last; by rewrite E|].
    destruct init as [|x init]; simplify_eq/=; [congruence|]. by exists init, last.
  - destruct answers; [constructor|]. by constructor.
Qed.

Lemma wp_send_attempts more attempts backoff r w :
  wp (send_attempts more attempts backoff r) (attempted more backoff r w) w.
Proof.
  revert backoff w. induction more as [|more IH]; intros backoff w; cbn [send_attempts]; unfold bind, wire_tick, post_request, wp.
  - destruct (bad_request _); [by apply no_answer|]. cbn [wi_tick wi_requests wi_waits].
    destruct (respond _) as [status|e|q] eqn:E; [destruct (success status) eqn:Es|..];
      (eapply one_answer; [done|done|cbn; rewrite ?Es; naive_solver]).
  - destruct (bad_request _); [by apply no_answer|]. cbn [wi_tick wi_requests wi_waits].
    destruct (respond _) as [status|e|q] eqn:E; [destruct (success status) eqn:Es|..];
      try (eapply one_answer; [done|done|cbn; rewrite ?Es; naive_solver]);
      (destruct (send_done _); [eapply one_answer; [done|done|cbn; rewrite ?Es; naive_solver]|]);
      set (w1 := Build_Wire _ _ _); cbn [wait wi_requests wi_waits wi_tick w1]; set (w2 := Build_Wire _ _ _);
      pose proof (IH (next_backoff backoff) w2) as Hw; unfold wp in Hw;
      destruct (send_attempts more attempts (next_backoff backoff) r w2) as [res w3];
      (eapply (then_attempted more backoff r w w2); [done|done|cbn; by rewrite ?Es|done]).
Qed.

Lemma wp_sendWithRetry payload contentType w :
  wp (sendWithRetry payload contentType) (λ result w', ∃ r, rp_payload r = payload ∧ rp_contentType r = contentType
    ∧ attempted (Z.to_nat (attempts_of - 1)) (ho_MinBackoff cfg) r w result w') w.
Proof.
  unfold sendWithRetry. eapply wp_mono; [apply wp_send_attempts|]. cbv beta. intros result w' Ha. eexists. by split_and!; [| |exact Ha].
Qed.

(** ** Goroutines *)

(** The critical sections, as the goroutines' calls interleave: a flush is taken only
    while no other is in flight. *)
Inductive siem_step := Append (event : NormalizedEvent) | Take | Finish (ok : bool) | MarkClosed.
Definition siem_do (step : siem_step) (s : HTTPSIEMSink) : option HTTPSIEMSink :=
  match step, hs_inflight s with
  | Append event, _ => Some (append_event event s).2
  | MarkClosed, _ => Some (mark_closed s)
  | Take, None => Some (take_batch s).2
  | Finish ok, Some batch => Some (finish_flush batch ok s)
  | _, _ => None
  end.
Fixpoint siem_run (steps : list siem_step) (s : HTTPSIEMSink) : option HTTPSIEMSink :=
  match steps with
  | [] => Some s
  | step :: steps' => s1 ← siem_do step s; siem_run steps' s1
  end.

Definition waiting (s : HTTPSIEMSink) : list NormalizedEvent := default [] (hs_inflight s) ++ hs_buffer s.
Definition delivered_ids (s : HTTPSIEMSink) : list string := map event_id (concat (hs_delivered s)).

(** Delivered, in flight and buffered events are, in this order, the events appended; and
    each accepted identifier is one of theirs. *)
Record siem_inv (s : HTTPSIEMSink) : Prop := {
  si_order : concat (hs_delivered s) ++ waiting s = hs_appended s;
  si_accepted : hs_accepted s ⊆ map event_id (hs_appended s);
  si_inflight : hs_inflight s ≠ Some [];
}.

Lemma siem_inv_step step s s' : siem_do step s = Some s' → siem_inv s → siem_inv s'.
Proof.
  intros E Hinv. pose proof Hinv as [Ho Ha Hi]. unfold siem_do in E. destruct step as [event| |ok|].
  - injection E as <-. unfold append_event. destruct (hs_closed s); [done|]. cbn [snd].
    destruct (existsb _ (hs_buffer s)) eqn:Eq; cbn.
    + split; cbn; [done| |done]. apply list_subseteq_app_iff_l. split; [done|]. intros x ->%list_elem_of_singleton.
      apply existsb_exists in Eq as (q & Hq & Heq%String.eqb_eq). rewrite <- Ho, <- Heq.
      apply list_elem_of_fmap. exists q. split; [done|]. unfold waiting. apply elem_of_app. right. apply elem_of_app. right.
      by apply list_elem_of_In.
    + split; cbn; [unfold waiting in *; cbn; by rewrite !app_assoc in *; rewrite Ho| |done].
      rewrite map_app. apply list_subseteq_app_iff_l. split; intros x Hx; apply elem_of_app; [left; by apply Ha|by right].
  - destruct (hs_inflight s) as [|] eqn:Ei; [done|]. injection E as <-. unfold take_batch.
    destruct (hs_buffer s) as [|e l] eqn:Eb; [done|]. split; cbn; [|done|done]. rewrite <- Ho. unfold waiting. cbn.
    by rewrite Ei, Eb, app_nil_r.
  - destruct (hs_inflight s) as [batch|] eqn:Ei; [|done]. injection E as <-. unfold waiting in Ho. rewrite Ei in Ho. destruct ok.
    + split; cbn; [|done|done]. rewrite concat_app. cbn. by rewrite app_nil_r, <- Ho, <- app_assoc.
    + by split.
  - injection E as <-. by split.
Qed.

Lemma siem_inv_run steps s s' : siem_run steps s = Some s' → siem_inv s → siem_inv s'.
Proof.
  revert s. induction steps as [|step steps IH]; intros s; [by intros [= <-]|]. cbn [siem_run].
  intros (s1 & E & Hrun)%bind_Some Hs. by eapply IH, siem_inv_step.
Qed.
Lemma siem_inv_new : siem_inv NewHTTPSIEMSink.
Proof. by split. Qed.

(** A flush that succeeds, from the state in which it finds flushMu free: there is nothing
    to send, or it takes the buffer and, after steps of others, its batch is answered 2xx. *)
Definition others_step (step : siem_step) : bool := match step with Append _ | MarkClosed => true | _ => false end.
Inductive flushed (s : HTTPSIEMSink) : HTTPSIEMSink → Prop :=
| flushed_empty : hs_inflight s = None → hs_buffer s = [] → flushed s s
| flushed_batch others s1 s2 s3 :
    siem_do Take s = Some s1 → forallb others_step others = true → siem_run others s1 = Some s2 →
    siem_do (Finish true) s2 = Some s3 → flushed s s3.

Lemma others_run others s1 s2 :
  forallb others_step others = true → siem_run others s1 = Some s2 →
  hs_inflight s2 = hs_inflight s1 ∧ hs_delivered s2 = hs_delivered s1.
Proof.
  revert s1. induction others as [|step others IH]; intros s1; [by intros _ [= <-]|]. cbn [forallb siem_run].
  intros [Hstep Ho]%andb_prop (s & E & Hrun)%bind_Some. destruct (IH s Ho Hrun) as [-> ->].
  destruct step; try done; injection E as <-; [|done]. unfold append_event. by destruct (hs_closed s1).
Qed.

Lemma flushed_delivers s s3 : siem_inv s → flushed s s3 → hs_accepted s ⊆ delivered_ids s3.
Proof.
  intros [Ho Ha Hi] Hf. unfold waiting in Ho.
  assert (hs_delivered s3 = hs_delivered s ++ (if decide (hs_buffer s = []) then [] else [hs_buffer s]) ∧ hs_inflight s = None) as [Hd Hn].
  { destruct Hf as [Hn Hb|others s1 s2 s3 Et Hoth Hrun Ef]; [rewrite Hb, decide_True by done; by rewrite app_nil_r|].
    unfold siem_do in Et. destruct (hs_inflight s) eqn:En; [done|]. injection Et as <-.
    destruct (others_run _ _ _ Hoth Hrun) as [Hin Hde]. unfold siem_do in Ef. rewrite Hin in Ef. unfold take_batch in *.
    destruct (hs_buffer s) as [|e l]; cbn in *; [by rewrite En in Ef|]. injection Ef as <-. cbn. by rewrite Hde. }
  rewrite Hn in Ho. cbn in Ho. assert (concat (hs_delivered s3) = hs_appended s) as Hc.
  { rewrite Hd, concat_app, <- Ho. f_equal. case_decide as E; [by rewrite E|cbn; by rewrite app_nil_r]. }
  unfold delivered_ids. by rewrite Hc.
Qed.

(** The flush as one call is such a flush. *)
Lemma flushContext_flushed s w s' w' :
  hs_inflight s = None → flushContext (s, w) = (Ok (), (s', w')) → flushed s s'.
Proof.
  intros Hn. unfold flushContext, take_batch. destruct (hs_buffer s) as [|e l] eqn:Eb; [intros [= <- <-]; by apply flushed_empty|].
  set (s1 := Build_HTTPSIEMSink _ _ _ _ _ _). destruct (match serializeBatch _ with Ok _ => _ | Err _ => _ | Panic _ => _ end) as [[[]|x|q] wire1];
    intros [= <- <-]. apply (flushed_batch s [] s1 s1); try done. unfold siem_do, take_batch. by rewrite Hn, Eb.
Qed.
End siem.

(** However the calls of goroutines interleave, with batches refused and put back: the
    batches answered 2xx, the batch in flight and the buffer are, in this order, the events
    that were added, each once; and when a Flush succeeds, every event whose Emit was
    accepted before it began has been answered 2xx (the event itself, or the one of the
    same identifier that was already waiting). *)
Theorem siem_flush_delivers (env : SiemEnv) (cfg : HTTPOutputConfig) (steps : list siem_step) (s s' : HTTPSIEMSink) :
  siem_run cfg steps NewHTTPSIEMSink = Some s → flushed cfg s s' →
  concat (hs_delivered s) ++ waiting s = hs_appended s ∧ hs_accepted s ⊆ delivered_ids s'.
Proof.
  intros Hrun Hf. pose proof (siem_inv_run cfg _ _ _ Hrun siem_inv_new) as Hs. split; [apply Hs|].
  by apply (flushed_delivers cfg).
Qed.

Definition siem_cfg : HTTPOutputConfig := with_defaults
  {| ho_URL := "http://siem"; ho_Format := ""; ho_BatchEvents := 0; ho_MaxRetries := 1; ho_MinBackoff := 0;
     ho_MaxBackoff := 0; ho_AuthHeader := ""; ho_AuthToken := "" |}.

(** A batch refused while another event arrives; then a flush, during which a third does. *)
Definition siem_steps : list siem_step :=
  [Append (event_with "a"); Take; Append (event_with "b"); Finish false].
Definition siem_before : HTTPSIEMSink := default NewHTTPSIEMSink (siem_run siem_cfg siem_steps NewHTTPSIEMSink).
Definition siem_after : HTTPSIEMSink :=
  default NewHTTPSIEMSink (siem_run siem_cfg [Take; Append (event_with "c"); Finish true] siem_before).

Lemma siem_flush_delivers_witness :
  map event_id (hs_buffer siem_before) = ["a"; "b"] ∧ hs_accepted siem_before = ["a"; "b"]
  ∧ hs_accepted siem_before ⊆ delivered_ids siem_after.
Proof.
  split; [reflexivity|]. split; [reflexivity|].
  set (env := {| respond _ := Ok 200; bad_request _ := None; send_done _ := false; marshal_event _ := Ok "{}";
                 marshal_batch _ := Ok "[]" |}).
  refine (proj2 (siem_flush_delivers env siem_cfg siem_steps siem_before siem_after eq_refl _)).
  exact (flushed_batch siem_cfg siem_before [Append (event_with "c")] _ _ _ eq_refl eq_refl eq_refl eq_refl).
Defined.
