(* ===== verification/Sinks.v ===== *)
(** * [internal/output]: multi, retry and dynamic sinks

    The sinks that combine others.  The dynamic sink, to which the delivery loop sends,
    finds its destinations by name in a snapshot that the runtime replaces; sinks are
    shared by reference, so they live in a heap. *)

From S2P Require Import Prelude GoStrings GoNum GoTime Model Samples.
From S2P Require Export Monad Ndjson HttpSink.

#[local] Open Scope monad_scope.

(** ** The interface *)

Record OutputSink (S : Type) := {
  sk_Emit : NormalizedEvent → Prog S unit; sk_Flush : Prog S unit; sk_Close : Prog S unit }.
#[global] Arguments sk_Emit {S}. #[global] Arguments sk_Flush {S}. #[global] Arguments sk_Close {S}.

(** What a destination promises: a successful Emit and then Flush make the event durable
    there. *)
Class DurableSink {S} (sk : OutputSink S) := {
  sink_sound : S → Prop;
  delivered_to : NormalizedEvent → S → Prop;
  emit_sound e s r s' : sink_sound s → sk_Emit sk e s = (r, s') → no_panic r → sink_sound s';
  flush_sound s r s' : sink_sound s → sk_Flush sk s = (r, s') → no_panic r → sink_sound s';
  close_sound s r s' : sink_sound s → sk_Close sk s = (r, s') → no_panic r → sink_sound s';
  emit_flush e s s1 s2 : sink_sound s → sk_Emit sk e s = (Ok (), s1) → sk_Flush sk s1 = (Ok (), s2) → delivered_to e s2;
}.

Section combined.
Context {S : Type}.

(** ** [multi.go] *)

(** Every sink gets the event, whatever the others say. *)
Fixpoint each (f : OutputSink S → Prog S unit) (sinks : list (OutputSink S)) : Prog S (list error) :=
  match sinks with
  | [] => ret []
  | sk :: sinks' =>
      r <- try (f sk) ;;
      rest <- each f sinks' ;;
      match r with Ok _ => ret rest | Err e => ret (e :: rest) | Panic p => mcall (Panic p) end
  end.
Definition joined (what : string) (errs : list error) : Prog S unit :=
  match errs with [] => ret () | _ => fail (Errorf what (AVErr <$> errs)) end.
Definition MultiSink (sinks : list (OutputSink S)) : OutputSink S := {|
  sk_Emit e := errs <- each (λ sk, sk_Emit sk e) sinks ;; joined "multi sink emit errors: %s" errs;
  sk_Flush := errs <- each sk_Flush sinks ;; joined "multi sink flush errors: %s" errs;
  sk_Close := errs <- each sk_Close sinks ;; joined "multi sink close errors: %s" errs |}.

(** ** [retry.go] *)

Context (ctx_err : Prog S bool) (sleep : Z → Prog S unit).

(** One attempt, and [more] after it. *)
Fixpoint retry_emit (more : nat) (maxAttempts delay : Z) (emit : Prog S unit) : Prog S unit :=
  c <- ctx_err ;;
  if c then fail (errors_New "context canceled")
  else
    r <- try emit ;;
    match r with
    | Ok _ => ret ()
    | Panic p => mcall (Panic p)
    | Err e =>
        match more with
        | O => fail (Errorf "sink delivery failed after %d attempts: %w" [AInt maxAttempts; AErr e])
        | Datatypes.S more' => sleep delay ;;; retry_emit more' maxAttempts (wrap64 (delay * 2)) emit
        end
    end.
Definition RetrySink (sink : OutputSink S) (maxAttempts backoff : Z) : OutputSink S :=
  let n := if maxAttempts <=? 0 then 3 else maxAttempts in
  let b := if backoff <=? 0 then 10 * millisecond else backoff in
  {| sk_Emit e := retry_emit (Z.to_nat (n - 1)) n b (sk_Emit sink e); sk_Flush := sk_Flush sink; sk_Close := sk_Close sink |}.
End combined.

(** ** The destinations *)

Section destinations.
Context `{FileEnv} `{SiemEnv} (cfg : HTTPOutputConfig).

Definition NDJSON : OutputSink NDJSONSink := {| sk_Emit := NDJSON_Emit; sk_Flush := NDJSON_Flush; sk_Close := NDJSON_Close |}.
Definition HTTPSIEM : OutputSink (HTTPSIEMSink * Wire) :=
  {| sk_Emit := HTTP_Emit cfg; sk_Flush := flushContext cfg; sk_Close := HTTP_Close cfg |}.

(** The file holds the event's line, durably. *)
Definition in_file (e : NormalizedEvent) (s : NDJSONSink) : Prop :=
  ∃ data before, marshal e = Ok data ∧ nd_synced s = before +:+ data +:+ chr LF.

#[refine] Instance NDJSON_durable : DurableSink NDJSON := {| sink_sound := small; delivered_to := in_file |}.
Proof.
  - intros e s r s' Hs E _. cbn in E. pose proof (Emit_spec e _ s (λ _, eq_refl) Hs) as Hw. unfold wp in Hw. rewrite E in Hw. apply Hw.
  - intros s r s' Hs E _. cbn in E. pose proof (Flush_spec _ s (λ _, eq_refl) Hs) as Hw. unfold wp in Hw. rewrite E in Hw. apply Hw.
  - intros s r s' Hs E _. cbn in E. pose proof (Close_spec _ s (λ _, eq_refl) Hs) as Hw. unfold wp in Hw. rewrite E in Hw. apply Hw.
  - intros e s s1 s2 Hs E1 E2. cbn in *. pose proof (Emit_spec e _ s (λ _, eq_refl) Hs) as Hw. unfold wp in Hw. rewrite E1 in Hw.
    destruct Hw as (Hh1 & Hs1 & _). pose proof (Flush_spec _ s1 Hh1 Hs1) as Hf. unfold wp in Hf. rewrite E2 in Hf.
    destruct Hf as (_ & _ & Hf).
    assert (nd_closed s1 = false ∧ ∃ data, marshal e = Ok data) as [Hopen [data Hd]].
    { clear -E1 Hs. unfold NDJSON_Emit in E1. destruct (marshal e) as [data|?|?]; [|done..]. destruct (nd_closed s) eqn:Ec; [done|].
      split; [|by eexists]. pose proof (writer_Write_spec _ data s (λ _, eq_refl) Hs) as Hw. unfold wp in Hw.
      destruct (writer_Write data s) as [[[]|?|?] s0]; [|done..]. destruct Hw as [Hh0 Hs0 Hc0 _ _].
      pose proof (writer_WriteByte_spec _ LF s0 Hh0 Hs0) as Hb. unfold wp in Hb.
      destruct (writer_WriteByte LF s0) as [[[]|?|?] s3]; [|done..]. injection E1 as <-. destruct Hb as [_ _ Hc3 _ _]. congruence. }
    exists data, (nd_file s +:+ nd_buf s). split; [done|]. rewrite Hf by done. unfold emitted. by rewrite Hd.
Defined.

Definition siem_sound (w : HTTPSIEMSink * Wire) : Prop := siem_inv w.1 ∧ hs_inflight w.1 = None.

Lemma siem_inv_do step s s' : siem_do cfg step s = Some s' → siem_inv s → siem_inv s'.
Proof. apply siem_inv_step. Qed.

Lemma flushContext_sound w r w' : siem_sound w → flushContext cfg w = (r, w') → no_panic r → siem_sound w'.
Proof.
  destruct w as [s wire]. intros [Hi Hn]. cbn in Hi, Hn. unfold flushContext. destruct (take_batch s) as [[batch|] s1] eqn:Et.
  - assert (siem_do cfg Take s = Some s1 ∧ hs_inflight s1 = Some batch) as [Hdo Hb].
    { unfold siem_do. rewrite Hn, Et. unfold take_batch in Et. destruct (hs_buffer s); simplify_eq/=. done. }
    pose proof (siem_inv_do _ _ _ Hdo Hi) as Hi1.
    assert (∀ ok, siem_inv (finish_flush batch ok s1)) as Hfin.
    { intros ok. apply (siem_inv_do (Finish ok) s1); [|done]. unfold siem_do. by rewrite Hb. }
    destruct (match serializeBatch cfg batch with Ok _ => _ | Err _ => _ | Panic _ => _ end) as [[[]|e|p] wire1];
      intros [= <- <-] Hnp; [by split; [apply Hfin|]..|done].
  - intros [= <- <-] _. unfold take_batch in Et. destruct (hs_buffer s); [|done]. by injection Et as <-.
Qed.

Lemma append_sound e s r s1 :
  siem_inv s → hs_inflight s = None → append_event cfg e s = (r, s1) →
  siem_inv s1 ∧ hs_inflight s1 = None ∧ match r with Ok _ => event_id e ∈ hs_accepted s1 | Err _ => True | Panic _ => False end.
Proof.
  intros Hi Hn E. assert (siem_inv s1) as Hi1.
  { apply (siem_inv_do (Append e) s); [|done]. unfold siem_do. by rewrite E. }
  split; [done|]. unfold append_event in E. destruct (hs_closed s); injection E as <- <-; [done|].
  split; [done|]. cbn. apply elem_of_app. right. by apply list_elem_of_singleton.
Qed.

(** What a run of [Emit] keeps, and that it has accepted the event where it succeeds. *)
Lemma HTTP_Emit_sound e w r w' :
  siem_sound w → HTTP_Emit cfg e w = (r, w') → no_panic r →
  siem_sound w' ∧ (r = Ok () → event_id e ∈ hs_accepted w'.1).
Proof.
  destruct w as [s wire]. intros [Hi Hn] E Hnp. unfold HTTP_Emit in E. cbn [fst snd] in *.
  destruct (append_event cfg e s) as [ra s1] eqn:Ea. pose proof (append_sound _ _ _ _ Hi Hn Ea) as (Hi1 & Hn1 & Hr).
  destruct ra as [[]|err|p]; [|by injection E as <- <-; split; [split|]..|done].
  pose proof (flushContext_sound (s1, wire) r w' ltac:(by split) E Hnp) as Hs. split; [done|]. intros ->.
  assert (hs_accepted w'.1 = hs_accepted s1) as ->; [|done].
  unfold flushContext, take_batch in E. destruct (hs_buffer s1); [by injection E as <-|].
  destruct (match serializeBatch cfg _ with Ok _ => _ | Err _ => _ | Panic _ => _ end) as [[[]|?|?] ?]; [|done..].
  by injection E as <-.
Qed.

#[refine] Instance HTTPSIEM_durable : DurableSink HTTPSIEM :=
  {| sink_sound := siem_sound; delivered_to e w := event_id e ∈ delivered_ids w.1 |}.
Proof.
  - intros e s r s' Hs E Hnp. cbn in E. by apply (HTTP_Emit_sound _ _ _ _ Hs) in E as [? _].
  - intros s r s' Hs E Hnp. cbn in E. by eapply flushContext_sound.
  - intros s r s' [Hi Hn] E Hnp. eapply flushContext_sound; [|exact E|done].
    split; [|done]. apply (siem_inv_do MarkClosed s.1); done.
  - intros e s s1 [s2 wire2] Hs E1 E2. cbn in E1, E2. apply (HTTP_Emit_sound _ _ _ _ Hs) in E1 as [[Hi Hn] Ha]; [|done].
    destruct s1 as [s1 wire1]. cbn in *. apply (flushContext_flushed cfg) in E2; [|done].
    apply (flushed_delivers cfg s1); auto.
Defined.

(** ** [dynamic.go] *)

Inductive sink := ToFile (s : NDJSONSink) | ToSiem (s : HTTPSIEMSink * Wire).

(** The snapshot, by name, of sinks in the heap. *)
Record DynamicSink := { ds_sinks : gmap string nat; ds_heap : gmap nat sink }.

Definition lift {A S} (con : S → sink) (m : Prog S A) (s : S) : res A * sink := let '(r, s') := m s in (r, con s').
Definition sink_emit (e : NormalizedEvent) (s : sink) : res unit * sink :=
  match s with ToFile s => lift ToFile (sk_Emit NDJSON e) s | ToSiem s => lift ToSiem (sk_Emit HTTPSIEM e) s end.
Definition sink_flush (s : sink) : res unit * sink :=
  match s with ToFile s => lift ToFile (sk_Flush NDJSON) s | ToSiem s => lift ToSiem (sk_Flush HTTPSIEM) s end.
Definition sink_close (s : sink) : res unit * sink :=
  match s with ToFile s => lift ToFile (sk_Close NDJSON) s | ToSiem s => lift ToSiem (sk_Close HTTPSIEM) s end.

Abbreviation P := (Prog DynamicSink).

(** A call on the sink of the heap at [id]. *)
Definition on_sink (id : nat) (f : sink → res unit * sink) : P unit := λ d,
  match ds_heap d !! id with
  | None => (Panic "nil sink", d)
  | Some s => let '(r, s') := f s in (r, {| ds_sinks := ds_sinks d; ds_heap := <[id := s']> (ds_heap d) |})
  end.
Definition snapshot : P (gmap string nat) := λ d, (Ok (ds_sinks d), d).

Definition EmitTo (name : string) (e : NormalizedEvent) : P unit :=
  sinks <- snapshot ;;
  match sinks !! name with
  | None => fail (Errorf "destination %q is not active" [AStr name])
  | Some id => on_sink id (sink_emit e) ;;; on_sink id sink_flush
  end.

(** A call on every sink of the snapshot, in Go's order of the map ([order]). *)
Fixpoint on_each (f : sink → res unit * sink) (ids : list (string * nat)) : P (list error) :=
  match ids with
  | [] => ret []
  | (name, id) :: ids' =>
      r <- try (on_sink id f) ;;
      rest <- on_each f ids' ;;
      match r with
      | Ok _ => ret rest
      | Err e => ret (Errorf "%s: %v" [AStr name; AVErr e] :: rest)
      | Panic p => mcall (Panic p)
      end
  end.

Context (order : gmap string nat → list (string * nat)).

Definition Dynamic_Emit (e : NormalizedEvent) : P unit :=
  sinks <- snapshot ;;
  errs <- on_each (sink_emit e) (order sinks) ;;
  match errs with [] => ret () | _ => fail (Errorf "sink delivery: %s" (AVErr <$> errs)) end.
Definition Dynamic_Flush : P unit :=
  sinks <- snapshot ;;
  errs <- on_each sink_flush (order sinks) ;;
  match errs with [] => ret () | _ => fail (Errorf "flush sinks: %s" (AVErr <$> errs)) end.

(** The new snapshot is active before the sinks it leaves out are closed. *)
Definition Replace (next : gmap string nat) : P unit :=
  old <- snapshot ;;
  (λ d, (Ok (), {| ds_sinks := next; ds_heap := ds_heap d |})) ;;;
  _ <- on_each sink_close (filter (λ kv, next !! kv.1 ≠ Some kv.2) (order old)) ;;
  ret ().
Definition Dynamic_Close : P unit := Replace ∅.

(** ** Every sink of the heap stays sound *)

Definition sound (s : sink) : Prop := match s with ToFile s => small s | ToSiem w => siem_sound w end.
(** The event is durable at the destination. *)
Definition holds_event (e : NormalizedEvent) (s : sink) : Prop :=
  match s with ToFile s => in_file e s | ToSiem w => event_id e ∈ delivered_ids w.1 end.
Definition sinks_sound (d : DynamicSink) : Prop := ∀ id s, ds_heap d !! id = Some s → sound s.

Definition sound_call (f : sink → res unit * sink) : Prop := ∀ s r s', sound s → f s = (r, s') → no_panic r → sound s'.

Lemma sound_emit e : sound_call (sink_emit e).
Proof.
  intros [s|w] r s' Hs E Hnp; unfold sink_emit, lift in E;
    [destruct (sk_Emit NDJSON e s) as [r1 s1] eqn:E1|destruct (sk_Emit HTTPSIEM e w) as [r1 s1] eqn:E1];
    injection E as <- <-; first [exact (@emit_sound _ _ NDJSON_durable e _ _ _ Hs E1 Hnp)|exact (@emit_sound _ _ HTTPSIEM_durable e _ _ _ Hs E1 Hnp)].
Qed.
Lemma sound_flush : sound_call sink_flush.
Proof.
  intros [s|w] r s' Hs E Hnp; unfold sink_flush, lift in E;
    [destruct (sk_Flush NDJSON s) as [r1 s1] eqn:E1|destruct (sk_Flush HTTPSIEM w) as [r1 s1] eqn:E1];
    injection E as <- <-; first [exact (@flush_sound _ _ NDJSON_durable _ _ _ Hs E1 Hnp)|exact (@flush_sound _ _ HTTPSIEM_durable _ _ _ Hs E1 Hnp)].
Qed.
Lemma sound_close : sound_call sink_close.
Proof.
  intros [s|w] r s' Hs E Hnp; unfold sink_close, lift in E;
    [destruct (sk_Close NDJSON s) as [r1 s1] eqn:E1|destruct (sk_Close HTTPSIEM w) as [r1 s1] eqn:E1];
    injection E as <- <-; first [exact (@close_sound _ _ NDJSON_durable _ _ _ Hs E1 Hnp)|exact (@close_sound _ _ HTTPSIEM_durable _ _ _ Hs E1 Hnp)].
Qed.
Lemma sink_emit_flush e s s1 s2 :
  sound s → sink_emit e s = (Ok (), s1) → sink_flush s1 = (Ok (), s2) → holds_event e s2.
Proof.
  intros Hs E1 E2. unfold sink_emit, lift in E1. destruct s as [s|w].
  - destruct (sk_Emit NDJSON e s) as [r1 t1] eqn:F1. injection E1 as -> <-. unfold sink_flush, lift in E2.
    destruct (sk_Flush NDJSON t1) as [r2 t2] eqn:F2. injection E2 as -> <-. exact (@emit_flush _ _ NDJSON_durable e s t1 t2 Hs F1 F2).
  - destruct (sk_Emit HTTPSIEM e w) as [r1 t1] eqn:F1. injection E1 as -> <-. unfold sink_flush, lift in E2.
    destruct (sk_Flush HTTPSIEM t1) as [r2 t2] eqn:F2. injection E2 as -> <-. exact (@emit_flush _ _ HTTPSIEM_durable e w t1 t2 Hs F1 F2).
Qed.

Lemma wp_on_sink id f d :
  sound_call f → sinks_sound d →
  wp (on_sink id f) (λ r d', ds_sinks d' = ds_sinks d ∧ (no_panic r → sinks_sound d')
    ∧ (r = Ok () → ∃ s s', ds_heap d !! id = Some s ∧ sound s ∧ f s = (Ok (), s') ∧ ds_heap d' !! id = Some s')) d.
Proof.
  intros Hf Hd. unfold on_sink, wp. destruct (ds_heap d !! id) as [s|] eqn:E; [|done].
  destruct (f s) as [r s'] eqn:Ef. split; [done|]. split.
  - intros Hnp id' t. cbn. destruct (decide (id' = id)) as [->|].
    + rewrite lookup_insert_eq. intros [= <-]. eapply Hf; [by eapply Hd|done|done].
    + rewrite lookup_insert_ne by done. apply Hd.
  - intros ->. exists s, s'. split; [done|]. split; [by eapply Hd|]. split; [done|]. apply lookup_insert_eq.
Qed.

Lemma wp_on_each f ids d :
  sound_call f → sinks_sound d →
  wp (on_each f ids) (λ r d', ds_sinks d' = ds_sinks d ∧ (no_panic r → sinks_sound d')) d.
Proof.
  intros Hf. revert d. induction ids as [|[name id] ids IH]; intros d Hd; cbn [on_each]; [by apply wp_ret|].
  apply wp_bind, wp_try. eapply wp_mono; [by apply wp_on_sink|]. cbv beta. intros r d1 (Hs1 & Hd1 & _).
  assert (∀ k : list error → Prog DynamicSink (list error),
    (∀ errs, keeps eq (k errs)) → no_panic r → wp (bind (on_each f ids) k) (λ r d', ds_sinks d' = ds_sinks d ∧ (no_panic r → sinks_sound d')) d1) as Hrest.
  { intros k Hk Hnp. apply wp_bind. eapply wp_mono; [by apply IH, Hd1|]. cbv beta. intros r2 d2 [Hs2 Hd2].
    destruct r2 as [errs|e|p]; [|by split; [rewrite Hs2|auto]..]. apply (wp_keeps eq _ _ _ (Hk errs)). unfold wp.
    destruct (k errs d2) as [r3 d3]. intros <-. split; [congruence|]. intros _. by apply Hd2. }
  destruct r as [[]|e|p]; [by apply Hrest|by apply Hrest|done].
Qed.

(** What every operation of the dynamic sink keeps. *)
Lemma EmitTo_sound name e d : sinks_sound d → wp (EmitTo name e) (λ r d', no_panic r → sinks_sound d') d.
Proof.
  intros Hd. unfold EmitTo. apply wp_bind. change (wp snapshot ?Q d) with (Q (Ok (ds_sinks d)) d). cbv beta iota.
  destruct (ds_sinks d !! name) as [id|]; [|by apply wp_fail].
  apply wp_bind. eapply wp_mono; [apply wp_on_sink; [apply sound_emit|done]|]. cbv beta. intros r d1 (_ & Hd1 & _).
  destruct r as [[]|err|p]; [|auto|done]. eapply wp_mono; [apply wp_on_sink; [apply sound_flush|by apply Hd1]|]. cbv beta.
  by intros r d2 (_ & ? & _).
Qed.
Lemma Replace_sound next d : sinks_sound d → wp (Replace next) (λ r d', no_panic r → sinks_sound d' ∧ ds_sinks d' = next) d.
Proof.
  intros Hd. unfold Replace. apply wp_bind. change (wp snapshot ?Q d) with (Q (Ok (ds_sinks d)) d). cbv beta iota.
  apply wp_bind. eapply wp_run; [done|]. cbv beta iota. apply wp_bind.
  eapply wp_mono; [apply wp_on_each; [apply sound_close|exact Hd]|]. cbv beta. intros r d1 [Hs1 Hd1].
  destruct r as [errs|e|p]; [|by split; [apply Hd1|]|done]. apply wp_ret. by split; [apply Hd1|].
Qed.
End destinations.

(** C19: the delivery loop's promise is kept by the real sinks: when [EmitTo] succeeds, a
    sink of that name is active, and the event is durable there: its line ends the synced
    content of an NDJSON file, or an HTTP endpoint has answered 2xx to it (or to the event
    of its identifier that was already queued).  The sinks' invariants, from which this
    follows, survive every such call and every replacement of the snapshot. *)
Theorem EmitTo_durable (fenv : FileEnv) (senv : SiemEnv) (cfg : HTTPOutputConfig) (name : string) (e : NormalizedEvent)
    (d : DynamicSink) :
  sinks_sound d →
  (∀ d', EmitTo cfg name e d = (Ok (), d') →
     ∃ id s, ds_sinks d !! name = Some id ∧ ds_heap d' !! id = Some s ∧ holds_event e s)
  ∧ (∀ r d', EmitTo cfg name e d = (r, d') → no_panic r → sinks_sound d')
  ∧ (∀ order next r d', Replace cfg order next d = (r, d') → no_panic r → sinks_sound d' ∧ ds_sinks d' = next).
Proof.
  intros Hd. split; [|split].
  - intros d' E. unfold EmitTo, snapshot, bind in E. destruct (ds_sinks d !! name) as [id|]; [|done].
    pose proof (wp_on_sink id _ d (sound_emit cfg e) Hd) as H1. unfold wp in H1.
    destruct (on_sink id (sink_emit cfg e) d) as [[[]|?|?] d1]; [|done..].
    destruct H1 as (_ & Hd1 & Hok1). destruct (Hok1 eq_refl) as (s & s1 & _ & Hs & Es & Hl1).
    pose proof (wp_on_sink id _ d1 (sound_flush cfg) (Hd1 I)) as H2. unfold wp in H2. rewrite E in H2.
    destruct H2 as (_ & _ & Hok2). destruct (Hok2 eq_refl) as (t & t1 & Hl & _ & Et & Hl2).
    rewrite Hl1 in Hl. injection Hl as <-. exists id, t1. split; [done|]. split; [done|]. by eapply sink_emit_flush.
  - intros r d' E. pose proof (EmitTo_sound cfg name e d Hd) as Hw. unfold wp in Hw. by rewrite E in Hw.
  - intros order next r d' E. pose proof (Replace_sound cfg order next d Hd) as Hw. unfold wp in Hw. by rewrite E in Hw.
Qed.

Definition siem_ok : SiemEnv := {|
  respond _ := Ok 200; bad_request _ := None; send_done _ := false; marshal_event _ := Ok "{}"; marshal_batch _ := Ok "[]" |}.
Definition two_sinks : DynamicSink := {|
  ds_sinks := {[ "file" := 0%nat; "siem" := 1%nat ]};
  ds_heap := {[ 0%nat := ToFile (opened ""); 1%nat := ToSiem (NewHTTPSIEMSink, {| wi_requests := []; wi_waits := []; wi_tick := 0 |}) ]} |}.

Lemma EmitTo_durable_witness :
  let env := disk_env (λ _, None) in
  sinks_sound two_sinks ∧ (@EmitTo env siem_ok siem_cfg "siem" (event_with "a") two_sinks).1 = Ok ()
  ∧ ∃ id s, ds_sinks two_sinks !! "siem" = Some id
      ∧ ds_heap (@EmitTo env siem_ok siem_cfg "siem" (event_with "a") two_sinks).2 !! id = Some s
      ∧ @holds_event env (event_with "a") s.
Proof.
  assert (sinks_sound two_sinks) as Hd.
  { intros id s. unfold two_sinks. cbn. rewrite lookup_insert_Some. intros [[_ <-]|[_ [_ <-]%lookup_singleton_Some]]; by split. }
  split; [exact Hd|]. split; [by vm_compute|].
  apply (proj1 (EmitTo_durable (disk_env (λ _, None)) siem_ok siem_cfg "siem" (event_with "a") two_sinks Hd)). by vm_compute.
Defined.
