(* ===== verification/KafkaSink.v ===== *)
(** * [internal/output/kafka.go]: the Kafka sink

    The client of the brokers (franz-go) is a parameter: the options the program gives it are
    data, and whether a record it produced reached the log is the environment's choice.  The
    sink is proved to keep the promise of the dynamic sink's interface wherever the brokers
    acknowledge what they have stored. *)

From S2P Require Import Prelude GoStrings GoNum GoTime Model Samples.
From S2P Require Export Monad Ndjson HttpSink Sinks.

#[local] Open Scope monad_scope.

Record KafkaOutputConfig := {
  ko_Name : string; ko_Brokers : list string; ko_Topic : string; ko_KeyField : string; ko_Acks : string; ko_Idempotent : bool;
  ko_Compression : string; ko_BatchBytes : Z; ko_Linger : Z; ko_Username : string; ko_Password : string }.

Record KafkaMessage := { km_Topic : string; km_Key : string; km_Value : string; km_Timestamp : time }.

(** ** The client's options *)

Inductive Acks := NoAck | LeaderAck | AllISRAcks.
Inductive kgo_opt :=
| SeedBrokers (brokers : list string) | SASL (user pass : string) | RequiredAcks (a : Acks) | DisableIdempotentWrite
| ProducerBatchCompression (codec : string) | ProducerBatchMaxBytes (n : Z) | ProducerLinger (d : Z).

(** [int32(n)] *)
Definition int32 (n : Z) : Z := (n + 2 ^ 31) mod 2 ^ 32 - 2 ^ 31.

Definition acks_of (acks : string) : Acks := if acks =s "0" then NoAck else if acks =s "1" then LeaderAck else AllISRAcks.

Definition producer_opts (cfg : KafkaOutputConfig) : list kgo_opt :=
  [SeedBrokers (ko_Brokers cfg)]
  ++ (if ko_Username cfg <>s "" then [SASL (ko_Username cfg) (ko_Password cfg)] else [])
  ++ [RequiredAcks (acks_of (ko_Acks cfg))]
  ++ (if ko_Idempotent cfg then [] else [DisableIdempotentWrite])
  ++ (if existsb (String.eqb (ko_Compression cfg)) ["none"; "gzip"; "snappy"; "zstd"] then [ProducerBatchCompression (ko_Compression cfg)] else [])
  ++ (if 0 <? ko_BatchBytes cfg then [ProducerBatchMaxBytes (int32 (ko_BatchBytes cfg))] else [])
  ++ (if 0 <? ko_Linger cfg then [ProducerLinger (ko_Linger cfg)] else []).

Class KafkaEnv := {
  kgo_NewClient : list kgo_opt → res unit;
  kgo_stores : Acks → nat → bool * option error;   (* ProduceSync: is the record in the log, and what was answered *)
  kgo_Flush : nat → option error;
  kafka_marshal : NormalizedEvent → res string;    (* json.Marshal *)
  kafka_Now : nat → time;
  kafka_float : f64 → string;
}.

(** The closed flag, the records in the log of the topic, and the calls made. *)
Record KafkaSink := { ks_closed : bool; ks_log : list KafkaMessage; ks_tick : nat }.

Section kafka.
Context `{KafkaEnv} (cfg : KafkaOutputConfig).
Abbreviation P := (Prog KafkaSink).

Definition NewBrokerKafkaProducer : res (list kgo_opt) :=
  match ko_Brokers cfg with
  | [] => Err (errors_New "kafka output requires brokers")
  | _ => _ ← kgo_NewClient (producer_opts cfg); Ok (producer_opts cfg)
  end.
(** [NewKafkaSink]: the topic it writes to *)
Definition kafka_topic : string := if ko_Topic cfg =s "" then "worm.normalized.v1" else ko_Topic cfg.
Definition NewBrokerKafkaSink (log : list KafkaMessage) : res KafkaSink :=
  _ ← NewBrokerKafkaProducer; Ok {| ks_closed := false; ks_log := log; ks_tick := 0 |}.

(** ** [kafkaRecordKey] *)

Fixpoint lookupKafkaField (f : fields) (path : list string) : option value :=
  match path with
  | [] => None
  | [name] => f !! name
  | name :: path' => match f !! name with Some (VMap nested) => lookupKafkaField nested path' | _ => None end
  end.

Definition kafkaRecordKey (event : NormalizedEvent) (field : string) : res string :=
  let field := if field =s "" then "worm.raw_id" else field in
  if field =s "worm.raw_id" then Ok (we_RawID (Worm event))
  else if field =s "worm.event_id" then Ok (EventID (Worm event))
  else if field =s "worm.source_id" then Ok (SourceID (Worm event))
  else if field =s "worm.raw_sha256" then Ok (we_RawSHA256 (Worm event))
  else
    let path := TrimPrefix (TrimPrefix field "event.") "ocsf." in
    match lookupKafkaField (OCSF event) (Split path ".") with
    | None | Some VNil => Err (Errorf "unsupported or missing Kafka key field %q" [AStr field])
    | Some v => Ok (sprint_v kafka_float v)
    end.

(** ** The sink *)

Definition kafka_tick : P nat := λ s, (Ok (ks_tick s), {| ks_closed := ks_closed s; ks_log := ks_log s; ks_tick := S (ks_tick s) |}).

(** [client.ProduceSync(...).FirstErr()] *)
Definition Produce (msg : KafkaMessage) : P unit := λ s,
  let '(stored, err) := kgo_stores (acks_of (ko_Acks cfg)) (ks_tick s) in
  (match err with Some e => Err e | None => Ok () end,
   {| ks_closed := ks_closed s; ks_log := if stored then ks_log s ++ [msg] else ks_log s; ks_tick := S (ks_tick s) |}).

Definition closed_flag : P bool := λ s, (Ok (ks_closed s), s).

Definition Kafka_Emit (event : NormalizedEvent) : P unit :=
  closed <- closed_flag ;;
  if closed then fail (errors_New "kafka sink is closed")
  else
    match kafka_marshal event with
    | Panic p => mcall (Panic p)
    | Err e => fail (Errorf "failed to marshal normalized event: %w" [AErr e])
    | Ok data =>
        key <- mcall (kafkaRecordKey event (ko_KeyField cfg)) ;;
        t <- kafka_tick ;;
        Produce {| km_Topic := kafka_topic; km_Key := key; km_Value := data; km_Timestamp := kafka_Now t |}
    end.

Definition Kafka_Flush : P unit :=
  t <- kafka_tick ;; match kgo_Flush t with Some e => fail e | None => ret () end.
Definition Kafka_Close : P unit := λ s, (Ok (), {| ks_closed := true; ks_log := ks_log s; ks_tick := ks_tick s |}).

Definition Kafka : OutputSink KafkaSink := {| sk_Emit := Kafka_Emit; sk_Flush := Kafka_Flush; sk_Close := Kafka_Close |}.

(** ** What is acknowledged is in the log *)

(** The log has the event, in the sink's topic, under its key. *)
Definition in_log (e : NormalizedEvent) (s : KafkaSink) : Prop :=
  ∃ m, m ∈ ks_log s ∧ km_Topic m = kafka_topic ∧ kafka_marshal e = Ok (km_Value m) ∧ kafkaRecordKey e (ko_KeyField cfg) = Ok (km_Key m).

(** An open sink's Emit that succeeds had its record acknowledged. *)
Lemma Emit_produced e s s' :
  Kafka_Emit e s = (Ok (), s') →
  ks_closed s = false ∧ ∃ data key t, kafka_marshal e = Ok data ∧ kafkaRecordKey e (ko_KeyField cfg) = Ok key
    ∧ (kgo_stores (acks_of (ko_Acks cfg)) (S (ks_tick s))).2 = None
    ∧ ks_log s' = if (kgo_stores (acks_of (ko_Acks cfg)) (S (ks_tick s))).1
                  then ks_log s ++ [{| km_Topic := kafka_topic; km_Key := key; km_Value := data; km_Timestamp := t |}] else ks_log s.
Proof.
  unfold Kafka_Emit, closed_flag, bind. destruct (ks_closed s); [done|]. destruct (kafka_marshal e) as [data|?|?]; [|done..].
  unfold mcall. destruct (kafkaRecordKey e _) as [key|?|?]; [|done..]. unfold kafka_tick, Produce. cbn [ks_tick ks_log ks_closed].
  intros E. split; [done|]. exists data, key, (kafka_Now (ks_tick s)). destruct (kgo_stores _ _) as [stored [err|]]; [done|].
  by injection E as <-.
Qed.

Lemma Kafka_Flush_log s r s' : Kafka_Flush s = (r, s') → ks_log s' = ks_log s.
Proof. unfold Kafka_Flush, kafka_tick, bind. destruct (kgo_Flush _); by intros [= <- <-]. Qed.
End kafka.

(** What brokers promise who are asked to acknowledge: a record whose production is reported
    to have succeeded is in the log. *)
Class AcknowledgingBrokers `{KafkaEnv} := acknowledged a n : a ≠ NoAck → (kgo_stores a n).2 = None → (kgo_stores a n).1 = true.

#[refine] Instance Kafka_durable `{AcknowledgingBrokers} (cfg : KafkaOutputConfig) (Hacks : ko_Acks cfg ≠ "0") : DurableSink (Kafka cfg) :=
  {| sink_sound _ := True; delivered_to := in_log cfg |}.
Proof.
  - done.
  - done.
  - done.
  - intros e s s1 s2 _ E1 E2. cbn in E1, E2. apply Emit_produced in E1 as (_ & data & key & t & Hd & Hk & Hn & Hl).
    rewrite acknowledged in Hl; [| |done].
    + eexists. split; [rewrite (Kafka_Flush_log _ _ _ E2), Hl; apply elem_of_app; right; by apply list_elem_of_singleton|]. done.
    + unfold acks_of. destruct (String.eqb_spec (ko_Acks cfg) "0"); [done|]. by destruct (_ =s "1").
Defined.

(** ** Concrete runs *)

(** Brokers that lose the first record, and answer only who asks. *)
Definition losing_brokers : KafkaEnv := {|
  kgo_NewClient _ := Ok ();
  kgo_stores a n := match a with NoAck => (negb (n =? 1)%nat, None) | _ => if (n =? 1)%nat then (false, Some io_failure) else (true, None) end;
  kgo_Flush _ := None; kafka_marshal e := Ok (EventID (Worm e)); kafka_Now _ := 0; kafka_float _ := "" |}.
Definition kafka_cfg (acks : string) : KafkaOutputConfig := {|
  ko_Name := "kafka"; ko_Brokers := ["b:9092"]; ko_Topic := ""; ko_KeyField := ""; ko_Acks := acks; ko_Idempotent := false;
  ko_Compression := ""; ko_BatchBytes := 0; ko_Linger := 0; ko_Username := ""; ko_Password := "" |}.

Lemma losing_brokers_acknowledge : @AcknowledgingBrokers losing_brokers.
Proof. intros [] n Ha; cbn; [done|..]; by destruct (n =? 1)%nat. Qed.

(** With [acks: 0] a success says nothing: the event is marked delivered and is in no log. *)
Lemma noack_loses :
  let s0 := {| ks_closed := false; ks_log := []; ks_tick := 0 |} in
  let '(r, s1) := @Kafka_Emit losing_brokers (kafka_cfg "0") (event_with "a") s0 in
  let '(r2, s2) := @Kafka_Flush losing_brokers s1 in r = Ok () ∧ r2 = Ok () ∧ ks_log s2 = [].
Proof. vm_compute. done. Qed.
Lemma acks_all_reports :
  let s0 := {| ks_closed := false; ks_log := []; ks_tick := 0 |} in
  (@Kafka_Emit losing_brokers (kafka_cfg "all") (event_with "a") s0).1 = Err io_failure.
Proof. vm_compute. done. Qed.

(** A key of nested fields, and one that the event does not have. *)
Example key_examples :
  let e := {| Worm := Worm (event_with "a"); OCSF := {[ "actor" := VMap {[ "user" := VStr "root" ]} ]} |} in
  let key := @kafkaRecordKey losing_brokers e in
  key "ocsf.actor.user" = Ok "root" ∧ key "worm.event_id" = Ok "a" ∧ is_ok (key "actor.user.name") = false
  ∧ int32 (2 ^ 31) = - 2 ^ 31.
Proof. vm_compute. done. Qed.
