(* ===== verification/Connections.v ===== *)
(** * [internal/connections]: sources and sinks declared by files

    A connection is a YAML file of the sources or sinks directory; the manager validates
    it, writes the file, reconciles the running program with the new set, and undoes both
    where that fails.  The YAML decoder, and what [net/url] makes of a URL, are parameters,
    as are the calls on files that fail and the reconciler's answers.  Directories are
    given as [filepath.Clean] leaves them; a file's path is its directory and its name. *)

From S2P Require Import Prelude GoStrings GoNum GoRegexp GoIO GoPath GoTime Model Pack.
From S2P Require Export Monad.

#[local] Open Scope monad_scope.

(** ** [connection.go] *)

Record EndpointSpec := { ep_URL : string; ep_Timeout : string; ep_SecretRef : string; ep_AuthHeader : string;
                         ep_Interval : string; ep_BatchSize : Z; ep_WatermarkPath : string }.

Record RetrySpec := { rs_MaxAttempts : Z; rs_MinBackoff : string; rs_MaxBackoff : string }.
Record DeliverySpec := { ds_Format : string; ds_BatchEvents : Z; ds_FlushInterval : string; ds_Retry : option RetrySpec }.

(** [watermarkPath], [interval] and [batchSize] of the spec itself, which no code reads, are left out. *)
Record ConnectionSpec := {
  cs_Type : string; cs_Enabled : bool; cs_Delivery : option DeliverySpec; cs_Endpoint : option EndpointSpec;
  cs_Brokers : list string; cs_Topic : string; cs_Topics : list string; cs_Key : string; cs_Acks : string; cs_Idempotent : bool;
  cs_Compression : string; cs_BatchBytes : Z; cs_Linger : string; cs_ConsumerGroup : string; cs_Path : string;
  cs_PartitionBy : list string; cs_MaxRowsPerFile : Z; cs_Manifest : bool; cs_SecretRef : string; cs_Listen : string;
  cs_TLSCertFile : string; cs_TLSKeyFile : string; cs_ClientCAFile : string }.

Record Connection := { cn_APIVersion : string; cn_Kind : string; cn_Name : string; cn_Version : string; cn_Spec : ConnectionSpec }.

Definition validSourceTypes : list string := ["cloud_pull"; "kafka_input"; "syslog_tls"].
Definition validSinkTypes : list string := ["http_output"; "kafka_output"; "parquet_output"; "ndjson_output"].

Definition cls_name_start (r : Z) : bool := cls_range "a" "z" r || cls_digit r.
Definition connNameRegex : re :=
  RSeqs [RBol; RChr cls_name_start; RStar (RChr (λ r, cls_name_start r || cls_lit "-" r)); REol].

Class ConnEnv := {
  yaml_decode : string → res Connection;           (* yaml.v3, known fields only *)
  yaml_encode : Connection → res string;
  url_scheme : string → option string;             (* url.Parse: the scheme, or an error *)
  fs_fails : nat → bool;                           (* a call on a file fails *)
  tears : nat → nat;                               (* how much a failing write has written *)
  UnixNano : nat → Z;
  reconcile : nat → option error;                  (* the runtime refuses this reconcile *)
}.

Definition is_empty (s : string) : bool := s =s "".

(** What each type requires of the spec. *)
Definition check_spec `{ConnEnv} (s : ConnectionSpec) : option error :=
  let no_url := match cs_Endpoint s with None => true | Some ep => is_empty (ep_URL ep) end in
  let url := match cs_Endpoint s with None => "" | Some ep => ep_URL ep end in
  if cs_Type s =s "http_output" then
    if no_url then Some (errors_New "http_output requires spec.endpoint.url")
    else match url_scheme url with
         | Some sch => if (sch =s "http") || (sch =s "https") then None
                       else Some (Errorf "invalid endpoint URL %q: must be valid http or https URL" [AStr url])
         | None => Some (Errorf "invalid endpoint URL %q: must be valid http or https URL" [AStr url])
         end
  else if cs_Type s =s "kafka_output" then
    match cs_Brokers s with
    | [] => Some (errors_New "kafka_output requires spec.brokers")
    | _ => if is_empty (cs_Topic s) then Some (errors_New "kafka_output requires spec.topic") else None
    end
  else if cs_Type s =s "parquet_output" then
    if is_empty (cs_Path s) then Some (errors_New "parquet_output requires spec.path") else None
  else if cs_Type s =s "ndjson_output" then
    if is_empty (cs_Path s) then Some (errors_New "ndjson_output requires spec.path") else None
  else if cs_Type s =s "kafka_input" then
    match cs_Brokers s, cs_Topics s with
    | [], _ => Some (errors_New "kafka_input requires spec.brokers")
    | _, [] => if is_empty (cs_Topic s) then Some (errors_New "kafka_input requires spec.topics or spec.topic") else None
    | _, _ => None
    end
  else if cs_Type s =s "cloud_pull" then
    if no_url then Some (errors_New "cloud_pull requires spec.endpoint.url") else None
  else if cs_Type s =s "syslog_tls" then
    if is_empty (cs_Listen s) || is_empty (cs_TLSCertFile s) || is_empty (cs_TLSKeyFile s)
    then Some (errors_New "syslog_tls requires spec.listen, spec.tlsCertFile and spec.tlsKeyFile") else None
  else None.

Definition is_one_of (l : list string) (s : string) : bool := existsb (String.eqb s) l.

Definition check_kind (c : Connection) : option error :=
  let type := cs_Type (cn_Spec c) in
  if cn_Kind c =s "Source" then
    if is_one_of validSourceTypes type then None
    else Some (Errorf "invalid source type %q (expected cloud_pull, kafka_input, syslog_tls)" [AStr type])
  else if cn_Kind c =s "Sink" then
    if is_one_of validSinkTypes type then None
    else Some (Errorf "invalid sink type %q (expected http_output, kafka_output, parquet_output, ndjson_output)" [AStr type])
  else if cn_Kind c =s "Connection" then
    Some (errors_New "legacy kind 'Connection' is removed; use kind: Source or kind: Sink")
  else Some (Errorf "unsupported kind %q (expected Source or Sink)" [AStr (cn_Kind c)]).

Definition check_metadata (c : Connection) : option error :=
  if is_empty (cn_Name c) then Some (errors_New "metadata.name is required")
  else if negb (MatchString connNameRegex (cn_Name c))
  then Some (Errorf "invalid metadata.name %q: must match ^[a-z0-9][a-z0-9-]*$" [AStr (cn_Name c)])
  else if is_empty (cn_Version c) then Some (errors_New "metadata.version is required")
  else if negb (MatchString semverRegex (cn_Version c))
  then Some (Errorf "invalid metadata.version %q: must be valid semver" [AStr (cn_Version c)])
  else None.

Definition Validate `{ConnEnv} (c : Connection) : option error :=
  if cn_APIVersion c <>s "worm.io/v1"
  then Some (Errorf "unsupported apiVersion %q (expected worm.io/v1)" [AStr (cn_APIVersion c)])
  else match check_kind c with
       | Some e => Some e
       | None => match check_metadata c with Some e => Some e | None => check_spec (cn_Spec c) end
       end.

Definition LoadConnection `{ConnEnv} (text : string) : res Connection :=
  match yaml_decode text with
  | Panic p => Panic p
  | Err e => Err (Errorf "yaml decode error: %w" [AErr e])
  | Ok c => match Validate c with Some e => Err (Errorf "validation failed: %w" [AErr e]) | None => Ok c end
  end.

Definition LoadKind `{ConnEnv} (kind : string) (types : list string) (text : string) : res Connection :=
  match LoadConnection text with
  | Ok c =>
      if cn_Kind c <>s kind then Err (Errorf "expected kind, got %q" [AStr kind; AStr (cn_Kind c)])
      else if negb (is_one_of types (cs_Type (cn_Spec c))) then Err (Errorf "invalid type %q" [AStr (cs_Type (cn_Spec c))])
      else Ok c
  | r => r
  end.
Definition LoadSource `{ConnEnv} : string → res Connection := LoadKind "Source" validSourceTypes.
Definition LoadSink `{ConnEnv} : string → res Connection := LoadKind "Sink" validSinkTypes.

(** [Summary]'s target *)
Definition summary_target (c : Connection) : string :=
  let s := cn_Spec c in
  if (cs_Type s =s "http_output") || (cs_Type s =s "cloud_pull") then
    match cs_Endpoint s with Some ep => ep_URL ep | None => "" end
  else if (cs_Type s =s "kafka_output") || (cs_Type s =s "kafka_input") then
    if cs_Topic s <>s "" then cs_Topic s else Join (cs_Topics s) ", "
  else if (cs_Type s =s "parquet_output") || (cs_Type s =s "ndjson_output") then cs_Path s
  else if cs_Type s =s "syslog_tls" then cs_Listen s +:+ " (RFC 5425)"
  else "".

Record ConnectionSummary := {
  su_Name : string; su_Version : string; su_Kind : string; su_Type : string; su_Enabled : bool; su_Target : string }.
Definition Summary (c : Connection) : ConnectionSummary :=
  {| su_Name := cn_Name c; su_Version := cn_Version c; su_Kind := cn_Kind c; su_Type := cs_Type (cn_Spec c);
     su_Enabled := cs_Enabled (cn_Spec c); su_Target := summary_target c |}.

(** *** Connectivity tests *)

(** What the other ends answer: the code and the text of the status of an HTTP request, the
    metadata of the Kafka brokers, a TLS handshake, a file created in a directory. *)
Class Probes := {
  probe_NewRequest : string → res unit;
  probe_http : string → res (Z * string);
  probe_NewClient : list string → res unit;
  probe_kafka : list string → res unit;
  probe_dir : string → res unit; probe_write : string → res unit; probe_remove : string → res unit;
  probe_tls : string → res unit;
}.

Record ConnectivityResult := { cr_Level : string; cr_Message : string }.

Definition TestConnectivityDetailed `{Probes} (c : Connection) : res ConnectivityResult :=
  let s := cn_Spec c in
  if (cs_Type s =s "http_output") || (cs_Type s =s "cloud_pull") then
    match cs_Endpoint s with
    | None => Panic "nil pointer dereference"
    | Some ep =>
        _ ← probe_NewRequest (ep_URL ep);
        resp ← wrap_err (λ e, Errorf "http handshake failed: %w" [AErr e]) (probe_http (ep_URL ep));
        if 500 <=? resp.1 then Err (Errorf "http endpoint returned %s" [AStr resp.2])
        else Ok {| cr_Level := "protocol_verified"; cr_Message := "HTTP response " +:+ resp.2 |}
    end
  else if (cs_Type s =s "kafka_output") || (cs_Type s =s "kafka_input") then
    _ ← probe_NewClient (cs_Brokers s);
    _ ← wrap_err (λ e, Errorf "kafka metadata handshake failed: %w" [AErr e]) (probe_kafka (cs_Brokers s));
    Ok {| cr_Level := "protocol_verified"; cr_Message := "Kafka metadata handshake completed" |}
  else if (cs_Type s =s "parquet_output") || (cs_Type s =s "ndjson_output") then
    let writeDir := if cs_Type s =s "ndjson_output" then filepath_Dir_text (cs_Path s) else cs_Path s in
    _ ← probe_dir writeDir;
    _ ← wrap_err (λ e, Errorf "output path is not writable: %w" [AErr e]) (probe_write writeDir);
    _ ← probe_remove writeDir;
    Ok {| cr_Level := "end_to_end_verified"; cr_Message := "output path write/rename permissions verified" |}
  else if cs_Type s =s "syslog_tls" then
    let host := if HasPrefix (cs_Listen s) ":" then "127.0.0.1" +:+ cs_Listen s else cs_Listen s in
    _ ← wrap_err (λ e, Errorf "tls handshake failed: %w" [AErr e]) (probe_tls host);
    Ok {| cr_Level := "protocol_verified"; cr_Message := "TLS handshake completed" |}
  else Err (Errorf "unsupported connection type %q" [AStr (cs_Type s)]).

(** ** [manager.go] *)

Definition path : Type := string * string.          (* directory, name *)

Record Manager := {
  cm_dir : string; cm_sourcesDir : string; cm_sinksDir : string;
  cm_connections : gmap string Connection;
  cm_filePaths : gmap string path;
  cm_previous : option (gmap string Connection * gmap string path);
  cm_backup : option (path * string);              (* backupFile, backupContent *)
  cm_addedFile : option path;
  cm_onChange : bool;                              (* is a reconciler installed? *)
}.

Record Site := {
  st_mgr : Manager;
  st_files : gmap path string;
  st_runtime : list Connection;                    (* what the running program was last reconciled with *)
  st_tick : nat;
}.

Definition with_mgr (f : Manager → Manager) (s : Site) : Site :=
  {| st_mgr := f (st_mgr s); st_files := st_files s; st_runtime := st_runtime s; st_tick := st_tick s |}.
Definition with_files (f : gmap path string → gmap path string) (s : Site) : Site :=
  {| st_mgr := st_mgr s; st_files := f (st_files s); st_runtime := st_runtime s; st_tick := S (st_tick s) |}.

Definition set_connections (cs : gmap string Connection) (ps : gmap string path) (m : Manager) : Manager :=
  {| cm_dir := cm_dir m; cm_sourcesDir := cm_sourcesDir m; cm_sinksDir := cm_sinksDir m; cm_connections := cs;
     cm_filePaths := ps; cm_previous := cm_previous m; cm_backup := cm_backup m; cm_addedFile := cm_addedFile m;
     cm_onChange := cm_onChange m |}.
Definition set_rollback (prev : option (gmap string Connection * gmap string path)) (backup : option (path * string))
    (added : option path) (m : Manager) : Manager :=
  {| cm_dir := cm_dir m; cm_sourcesDir := cm_sourcesDir m; cm_sinksDir := cm_sinksDir m; cm_connections := cm_connections m;
     cm_filePaths := cm_filePaths m; cm_previous := prev; cm_backup := backup; cm_addedFile := added;
     cm_onChange := cm_onChange m |}.

Section manager.
Context `{ConnEnv}.
Abbreviation P := (Prog Site).

Definition io_failure : error := errors_New "input/output error".
Definition site_tick : P nat := λ s,
  (Ok (st_tick s), {| st_mgr := st_mgr s; st_files := st_files s; st_runtime := st_runtime s; st_tick := S (st_tick s) |}).
Definition get_mgr : P Manager := λ s, (Ok (st_mgr s), s).
Definition update_mgr (f : Manager → Manager) : P unit := λ s, (Ok (), with_mgr f s).

Definition ReadFile (p : path) : P string := λ s,
  (if fs_fails (st_tick s) then Err io_failure
   else match st_files s !! p with Some data => Ok data | None => Err (errors_New "file does not exist") end,
   with_files id s).
(** A write that fails may have truncated the file and written some of the text. *)
Definition WriteFile (p : path) (data : string) : P unit := λ s,
  if fs_fails (st_tick s) then (Err io_failure, with_files <[p := str_take (tears (st_tick s)) data]> s)
  else (Ok (), with_files <[p := data]> s).
Definition RemoveFile (p : path) : P unit := λ s,
  if fs_fails (st_tick s) then (Err io_failure, with_files id s) else (Ok (), with_files (delete p) s).
Definition RenameFile (p q : path) : P unit := λ s,
  match fs_fails (st_tick s), st_files s !! p with
  | false, Some data => (Ok (), with_files (λ d, <[q := data]> (delete p d)) s)
  | _, _ => (Err io_failure, with_files id s)
  end.
Definition MkdirAll : P unit := λ s, (if fs_fails (st_tick s) then Err io_failure else Ok (), with_files id s).

Definition listLocked (m : Manager) : list Connection := snd <$> order_by (λ a b, str_le a.1 b.1) (map_to_list (cm_connections m)).

(** [List] and [ListSummaries]: sorted by name, which is the key. *)
Definition ListSummaries : P (list ConnectionSummary) := m <- get_mgr ;; ret (Summary <$> listLocked m).

Definition not_found (name : string) : error := Errorf "connection %q not found" [AStr name].
Definition Get (name : string) : P Connection :=
  m <- get_mgr ;; mcall (of_option (not_found name) (cm_connections m !! name)).

Definition encode_connection (name : string) (m : Manager) : res string :=
  match cm_connections m !! name with None => Err (not_found name) | Some conn => yaml_encode conn end.
(** The file of the connection, or its settings where the file cannot be read. *)
Definition GetRawYAML (name : string) : P string :=
  m <- get_mgr ;;
  match cm_filePaths m !! name with
  | None => mcall (encode_connection name m)
  | Some p =>
      r <- try (ReadFile p) ;;
      match r with Ok data => ret data | _ => mcall (encode_connection name m) end
  end.

Definition Filename (name : string) : P string :=
  m <- get_mgr ;;
  match cm_filePaths m !! name with None => fail (not_found name) | Some p => ret p.2 end.

(** [m.onChange(m.listLocked())] *)
Definition onChange : P unit := λ s,
  let s' := {| st_mgr := st_mgr s; st_files := st_files s; st_runtime := listLocked (st_mgr s); st_tick := S (st_tick s) |} in
  match reconcile (st_tick s) with Some e => (Err e, s') | None => (Ok (), s') end.

Definition yaml_name (name : string) : bool := HasSuffix name ".yaml" || HasSuffix name ".yml".

Fixpoint load_entries (dir : string) (names : list string) : P unit :=
  match names with
  | [] => ret ()
  | name :: names' =>
      if negb (yaml_name name) then load_entries dir names'
      else
        r <- try (ReadFile (dir, name)) ;;
        match r with
        | Panic p => mcall (Panic p)
        | Err e => fail (Errorf "failed to read %s: %w" [AStr name; AErr e])
        | Ok data =>
            match LoadConnection data with
            | Panic p => mcall (Panic p)
            | Err e => fail (Errorf "failed to load %s: %w" [AStr name; AErr e])
            | Ok conn =>
                m <- get_mgr ;;
                match cm_filePaths m !! cn_Name conn with
                | Some prior =>
                    if decide (prior = (dir, name)) then
                      update_mgr (set_connections (<[cn_Name conn := conn]> (cm_connections m))
                                    (<[cn_Name conn := (dir, name)]> (cm_filePaths m))) ;;;
                      load_entries dir names'
                    else fail (Errorf "duplicate connection identity %s/%s" [AStr (cn_Kind conn); AStr (cn_Name conn)])
                | None =>
                    update_mgr (set_connections (<[cn_Name conn := conn]> (cm_connections m))
                                  (<[cn_Name conn := (dir, name)]> (cm_filePaths m))) ;;;
                    load_entries dir names'
                end
            end
        end
  end.

Definition names_in (dir : string) (files : gmap path string) : list string :=
  order_by str_le (omap (λ kv, if kv.1.1 =s dir then Some kv.1.2 else None) (map_to_list files)).

Definition LoadDir (dir : string) : P unit :=
  m <- get_mgr ;;
  let target := if dir =s "" then cm_dir m else dir in
  if target =s "" then fail (errors_New "connection directory not configured")
  else
    t <- site_tick ;;
    if fs_fails t then fail (Errorf "failed to read connections dir: %w" [AErr io_failure])
    else λ s, load_entries target (names_in target (st_files s)) s.

(** The directory a connection of that kind belongs in. *)
Definition target_dir (m : Manager) (c : Connection) : string :=
  if (cn_Kind c =s "Source") && (cm_sourcesDir m <>s "") then cm_sourcesDir m
  else if (cn_Kind c =s "Sink") && (cm_sinksDir m <>s "") then cm_sinksDir m
  else cm_dir m.

Definition bad_filename (filename : string) : bool :=
  Contains filename "/" || Contains filename (chr "092") || Contains filename "..".

(** Undo of an apply whose reconcile failed. *)
Definition undo_apply (target : path) (existing : option string) (e : error) (old : gmap string Connection * gmap string path)
    : P Connection :=
  _ <- try (match existing with None => RemoveFile target | Some content => WriteFile target content end) ;;
  update_mgr (λ m, set_rollback None (cm_backup m) (cm_addedFile m) (set_connections old.1 old.2 m)) ;;;
  r <- try onChange ;;
  match r with
  | Panic p => mcall (Panic p)
  | Err rollbackErr =>
      fail (Errorf "runtime reconcile failed (%v) and runtime rollback failed: %w" [AVErr e; AErr rollbackErr])
  | Ok _ => fail (Errorf "runtime reconcile failed; apply rolled back: %w" [AErr e])
  end.

(** The maps with the candidate in, and the connection its file held out. *)
Definition committed_maps (candidate : Connection) (target : path) (replaced : string) (m : Manager)
    : gmap string Connection * gmap string path :=
  let drop := (replaced <>s "") && (replaced <>s cn_Name candidate) in
  (<[cn_Name candidate := candidate]> (if drop then delete replaced (cm_connections m) else cm_connections m),
   <[cn_Name candidate := target]> (if drop then delete replaced (cm_filePaths m) else cm_filePaths m)).

Definition commit_apply (candidate : Connection) (target : path) (existing : option string) (replaced : string)
    : P Connection :=
  m <- get_mgr ;;
  let old := (cm_connections m, cm_filePaths m) in
  let new := committed_maps candidate target replaced m in
  update_mgr (λ m, set_connections new.1 new.2
    (set_rollback (Some old) ((λ content, (target, content)) <$> existing)
       (match existing with None => Some target | Some _ => None end) m)) ;;;
  if cm_onChange m then
    r <- try onChange ;;
    match r with
    | Panic p => mcall (Panic p)
    | Err e => undo_apply target existing e old
    | Ok _ => ret candidate
    end
  else ret candidate.

(** The name of the connection a file holds. *)
Definition holder (existing : option string) : string :=
  match existing with Some data => match LoadConnection data with Ok c => cn_Name c | _ => "" end | None => "" end.

(** The name of a staging file. *)
Definition staging (target : path) (t : nat) : path := (target.1, target.2 +:+ ".tmp-" +:+ Itoa (UnixNano t)).

(** The file is written beside its place and renamed into it. *)
Definition stage_apply (candidate : Connection) (content : string) (target : path) (existing : option string) : P Connection :=
  t <- site_tick ;;
  let tmpPath := staging target t in
  MkdirAll ;;;
  w <- try (WriteFile tmpPath content) ;;
  match w with
  | Panic p => mcall (Panic p)
  | Err e => fail (Errorf "failed to write staging file: %w" [AErr e])
  | Ok _ =>
      r <- try (RenameFile tmpPath target) ;;
      match r with
      | Panic p => mcall (Panic p)
      | Err e => _ <- try (RemoveFile tmpPath) ;; fail (Errorf "failed to commit connection file: %w" [AErr e])
      | Ok _ => commit_apply candidate target existing (holder existing)
      end
  end.

Definition ApplyFile (filename content : string) : P Connection :=
  match LoadConnection content with
  | Panic p => mcall (Panic p)
  | Err e => fail (Errorf "validation error: %w" [AErr e])
  | Ok candidate =>
      m <- get_mgr ;;
      let dir := target_dir m candidate in
      if dir =s "" then fail (errors_New "connection directory not configured")
      else if bad_filename filename then fail (errors_New "invalid filename: path traversal characters detected")
      else
        let target := (dir, filepath_Base filename) in
        let duplicate := match cm_filePaths m !! cn_Name candidate with
                         | Some prior => negb (bool_decide (prior = target))
                         | None => false
                         end in
        if duplicate then fail (Errorf "duplicate connection identity %s/%s" [AStr (cn_Kind candidate); AStr (cn_Name candidate)])
        else
          read <- try (ReadFile target) ;;
          stage_apply candidate content target (match read with Ok data => Some data | _ => None end)
  end.

Definition Rollback : P unit :=
  m <- get_mgr ;;
  match cm_previous m with
  | None => fail (errors_New "no previous connection state available to rollback")
  | Some old =>
      (match cm_addedFile m with Some p => _ <- try (RemoveFile p) ;; ret () | None => ret () end) ;;;
      (match cm_backup m with Some (p, content) => _ <- try (WriteFile p content) ;; ret () | None => ret () end) ;;;
      update_mgr (λ m, set_rollback None None None (set_connections old.1 old.2 m)) ;;;
      if cm_onChange m then onChange else ret ()
  end.

(** ** What the operations do *)

(** Only the clock has moved. *)
Record quiet (s s' : Site) : Prop := {
  qt_mgr : st_mgr s' = st_mgr s; qt_files : st_files s' = st_files s; qt_runtime : st_runtime s' = st_runtime s }.
#[export] Instance quiet_preorder : PreOrder quiet.
Proof. split; [by split|]. intros x y z [] []. split; congruence. Qed.

Definition reliable : Prop := ∀ t, fs_fails t = false.
Definition maps (s : Site) : gmap string Connection * gmap string path := (cm_connections (st_mgr s), cm_filePaths (st_mgr s)).

(** A file operation, where the disk works. *)
Definition put_back (target : path) (existing : option string) (files : gmap path string) : gmap path string :=
  match existing with None => delete target files | Some content => <[target := content]> files end.

Lemma wp_put_back target existing (Q : res unit → Site → Prop) s :
  (∀ r s', (∀ p, r ≠ Panic p) → st_mgr s' = st_mgr s → st_runtime s' = st_runtime s →
     (reliable → r = Ok () ∧ st_files s' = put_back target existing (st_files s)) → Q r s') →
  wp (match existing with None => RemoveFile target | Some content => WriteFile target content end) Q s.
Proof.
  intros HQ. destruct existing as [content|]; unfold WriteFile, RemoveFile, wp.
  - destruct (fs_fails _) eqn:Ef; apply HQ; try done; intros Hr; by rewrite Hr in Ef.
  - destruct (fs_fails _) eqn:Ef; apply HQ; try done; intros Hr; by rewrite Hr in Ef.
Qed.

Lemma wp_onChange (Q : res unit → Site → Prop) s :
  (∀ r s', (∀ p, r ≠ Panic p) → st_mgr s' = st_mgr s → st_files s' = st_files s → st_runtime s' = listLocked (st_mgr s) → Q r s') →
  wp onChange Q s.
Proof. intros HQ. unfold onChange, wp. destruct (reconcile _); by apply HQ. Qed.

Lemma wp_commit_apply candidate target existing replaced s :
  let new := committed_maps candidate target replaced (st_mgr s) in
  wp (commit_apply candidate target existing replaced) (λ r s',
    match r with
    | Ok c => c = candidate ∧ maps s' = new ∧ st_files s' = st_files s
        ∧ cm_previous (st_mgr s') = Some (maps s)
        ∧ cm_backup (st_mgr s') = (λ content, (target, content)) <$> existing
        ∧ cm_addedFile (st_mgr s') = match existing with None => Some target | Some _ => None end
        ∧ cm_onChange (st_mgr s') = cm_onChange (st_mgr s)
        ∧ (cm_onChange (st_mgr s) = true → st_runtime s' = listLocked (st_mgr s'))
    | Err _ => maps s' = maps s ∧ st_runtime s' = listLocked (st_mgr s')
        ∧ (reliable → st_files s' = put_back target existing (st_files s))
    | Panic _ => False
    end) s.
Proof.
  intros new. unfold commit_apply. apply wp_bind. change (wp get_mgr ?Q s) with (Q (Ok (st_mgr s)) s). cbv beta iota zeta.
  apply wp_bind. set (upd := λ m : Manager, set_connections _ _ _).
  change (wp (update_mgr upd) ?Q s) with (Q (Ok ()) (with_mgr upd s)). cbv beta iota.
  destruct (cm_onChange (st_mgr s)) eqn:Eo; [|by apply wp_ret].
  apply wp_bind, wp_try, wp_onChange. intros r s1 Hr Hm Hf Hrun.
  destruct r as [[]|e|p]; [|..|by destruct (Hr p)].
  - apply wp_ret. unfold maps. rewrite !Hm, Hf, Hrun. by split_and!.
  - unfold undo_apply. apply wp_bind, wp_try, wp_put_back. intros r1 s2 Hr1 Hm1 Hrun1 Hf1.
    assert (∀ q : Prog Site Connection, (wp q (λ r s', match r with Ok _ => False | Err _ => maps s' = maps s ∧
        st_runtime s' = listLocked (st_mgr s') ∧ (reliable → st_files s' = put_back target existing (st_files s)) | Panic _ => False end)
        s2) → wp q (λ r s', match r with
    | Ok c => c = candidate ∧ maps s' = new ∧ st_files s' = st_files s
        ∧ cm_previous (st_mgr s') = Some (maps s)
        ∧ cm_backup (st_mgr s') = (λ content, (target, content)) <$> existing
        ∧ cm_addedFile (st_mgr s') = match existing with None => Some target | Some _ => None end
        ∧ cm_onChange (st_mgr s') = true
        ∧ (true = true → st_runtime s' = listLocked (st_mgr s'))
    | Err _ => maps s' = maps s ∧ st_runtime s' = listLocked (st_mgr s')
        ∧ (reliable → st_files s' = put_back target existing (st_files s))
    | Panic _ => False end) s2) as Hweak.
    { intros q Hq. eapply wp_mono; [exact Hq|]. by intros []. }
    destruct r1 as [[]|e1|p]; [| |by destruct (Hr1 p)]; apply Hweak; apply wp_bind;
      (set (upd2 := λ m : Manager, set_rollback _ _ _ _); change (wp (update_mgr upd2) ?Q s2) with (Q (Ok ()) (with_mgr upd2 s2));
       cbv beta iota; apply wp_bind, wp_try, wp_onChange; intros r2 s3 Hr2 Hm2 Hf2 Hrun2;
       assert (maps s3 = maps s ∧ st_runtime s3 = listLocked (st_mgr s3)
               ∧ (reliable → st_files s3 = put_back target existing (st_files s))) as Hend by
         (unfold maps; rewrite Hm2, Hrun2, Hf2; cbn; split; [done|]; split; [done|]; intros Hrel;
          destruct (Hf1 Hrel) as [_ ->]; by rewrite Hf);
       destruct r2 as [[]|e2|p]; [by apply wp_fail|by apply wp_fail|by destruct (Hr2 p)]).
Qed.

(** What the call finds in a file: nothing, where the read fails. *)
Definition found (p : path) (s : Site) : option string := if fs_fails (st_tick s) then None else st_files s !! p.

Lemma found_reliable p s : reliable → found p s = st_files s !! p.
Proof. intros Hr. unfold found. by rewrite Hr. Qed.

Lemma wp_read_conn p (Q : res string → Site → Prop) s :
  (∀ r s', (∀ q, r ≠ Panic q) → quiet s s' →
     match r with Ok data => Some data | _ => None end = found p s → Q r s') →
  wp (ReadFile p) Q s.
Proof.
  intros HQ. unfold ReadFile, wp. apply HQ.
  - destruct (fs_fails _); [done|]. by destruct (_ !! _).
  - by split.
  - unfold found. destruct (fs_fails _); [done|]. by destruct (_ !! _).
Qed.

(** No file has the name of a staging file. *)
Definition no_staging (filename : string) (s : Site) : Prop :=
  ∀ dir t, st_files s !! staging (dir, filepath_Base filename) t = None.

Lemma staging_ne target t : staging target t ≠ target.
Proof.
  destruct target as [d n]. unfold staging. cbn. intros [= E]. apply (f_equal String.length) in E.
  rewrite !length_app_str in E. cbn in E. lia.
Qed.

(** What an application of [c] to [target], which held [existing], comes to. *)
Definition applied (c : Connection) (content : string) (target : path) (existing : option string) s (r : res Connection) s' : Prop :=
  match r with
  | Ok c' => c' = c ∧ maps s' = committed_maps c target (holder existing) (st_mgr s)
      ∧ (∃ t, st_files s' = <[target := content]> (delete (staging target t) (st_files s)))
      ∧ cm_previous (st_mgr s') = Some (maps s)
      ∧ cm_backup (st_mgr s') = (λ old, (target, old)) <$> existing
      ∧ cm_addedFile (st_mgr s') = match existing with None => Some target | Some _ => None end
      ∧ cm_onChange (st_mgr s') = cm_onChange (st_mgr s)
      ∧ (cm_onChange (st_mgr s) = true → st_runtime s' = listLocked (st_mgr s'))
  | Err _ => maps s' = maps s ∧ (st_runtime s' = st_runtime s ∨ st_runtime s' = listLocked (st_mgr s'))
      ∧ (reliable → (∀ t, st_files s !! staging target t = None) → existing = st_files s !! target → st_files s' = st_files s)
  | Panic p => False
  end.

Lemma not_applied c content target existing s e s' :
  st_mgr s' = st_mgr s → st_runtime s' = st_runtime s → (reliable → st_files s' = st_files s) →
  applied c content target existing s (Err e) s'.
Proof. intros Hm Hr Hf. unfold applied, maps. rewrite Hm. split; [done|]. split; [by left|]. intros Hrel _ _. by apply Hf. Qed.

Lemma put_back_commit (target : path) (content : string) (existing : option string) (files : gmap path string) t :
  files !! staging target t = None → existing = files !! target →
  put_back target existing (<[target := content]> (delete (staging target t) files)) = files.
Proof.
  intros Ht ->. rewrite delete_id by done. destruct (files !! target) as [old|] eqn:E; cbn.
  - rewrite insert_insert_eq. by apply insert_id.
  - by rewrite delete_insert_id.
Qed.

Lemma wp_stage_apply c content target existing s :
  wp (stage_apply c content target existing) (applied c content target existing s) s.
Proof.
  unfold stage_apply. apply wp_bind. change (wp site_tick ?Q s) with (Q (Ok (st_tick s)) (site_tick s).2). cbv beta iota zeta.
  set (s1 := (site_tick s).2). set (tmp := staging target (st_tick s)).
  apply wp_bind. unfold MkdirAll, wp at 1. destruct (fs_fails (st_tick s1)) eqn:E1; [by apply not_applied|].
  set (s2 := with_files id s1). apply wp_bind, wp_try. unfold WriteFile, wp at 1.
  destruct (fs_fails (st_tick s2)) eqn:E2; [apply wp_fail, not_applied; [done..|intros Hr; by rewrite Hr in E2]|].
  set (s3 := with_files _ s2). apply wp_bind, wp_try. unfold RenameFile, wp at 1.
  assert (st_files s3 !! tmp = Some content) as Etmp by (cbn; apply lookup_insert_eq).
  rewrite Etmp. destruct (fs_fails (st_tick s3)) eqn:E3.
  { apply wp_bind, wp_try. unfold RemoveFile, wp at 1.
    destruct (fs_fails (st_tick (with_files id s3))) eqn:E4; (apply wp_fail, not_applied; [done..|intros Hr; by rewrite Hr in E3]). }
  set (s4 := with_files _ s3). eapply wp_mono; [apply wp_commit_apply|]. cbv beta.
  assert (st_files s4 = <[target := content]> (delete tmp (st_files s))) as Hf4.
  { cbn. by rewrite delete_insert_eq. }
  rewrite Hf4. intros [c'|e|p] s5; [|..|done].
  - intros (-> & Hm & Hf & Hprev & Hb & Ha & Ho & Hrun). unfold applied. split_and!; try done. by exists (st_tick s).
  - intros (Hm & Hrun & Hf). split; [done|]. split; [by right|]. intros Hr Hst Hex. rewrite (Hf Hr). by apply put_back_commit.
Qed.

(** The connection that a file was found to hold, and the maps once it has another. *)
Definition held (p : path) (s : Site) : option string :=
  data ← found p s; match LoadConnection data with Ok c => Some (cn_Name c) | _ => None end.

Lemma LoadConnection_name text c : LoadConnection text = Ok c → cn_Name c ≠ "".
Proof.
  unfold LoadConnection. destruct (yaml_decode text) as [c'|e|p]; [|done..]. intros Hv Hn.
  assert (c' = c) as -> by (destruct (Validate c'); [done|congruence]).
  unfold Validate, check_metadata in Hv. rewrite Hn in Hv. destruct (cn_APIVersion c <>s "worm.io/v1"); [done|].
  by destruct (check_kind c).
Qed.

Lemma holder_held p s name : (holder (found p s) ≠ "" ∧ holder (found p s) = name) ↔ held p s = Some name.
Proof.
  unfold held, holder. destruct (found p s) as [data|]; cbn; [|naive_solver].
  destruct (LoadConnection data) as [c|e|q] eqn:E; [|naive_solver..].
  apply LoadConnection_name in E. naive_solver.
Qed.

Lemma committed_elsewhere c target p s m name :
  name ≠ cn_Name c →
  let new := committed_maps c target (holder (found p s)) m in
  new.1 !! name = (if decide (held p s = Some name) then None else cm_connections m !! name)
  ∧ new.2 !! name = (if decide (held p s = Some name) then None else cm_filePaths m !! name).
Proof.
  intros Hne. pose proof (holder_held p s name) as Hh. unfold committed_maps. cbn [fst snd].
  rewrite !lookup_insert_ne by congruence. destruct (decide (held p s = Some name)) as [E|E].
  - apply Hh in E as [Hn He]. apply String.eqb_neq in Hn. rewrite Hn, He.
    apply String.eqb_neq in Hne. rewrite Hne. cbn. by rewrite !lookup_delete_eq.
  - destruct (String.eqb_spec (holder (found p s)) "") as [|Hn]; [done|]. cbn [negb andb].
    destruct (_ =s _); [done|]. cbn [negb]. rewrite !lookup_delete_ne; naive_solver.
Qed.

(** [ApplyFile] on every branch. *)
Lemma wp_ApplyFile filename content s :
  wp (ApplyFile filename content) (λ r s',
    match LoadConnection content with
    | Panic p => r = Panic p
    | Err e => s' = s ∧ match r with Err _ => True | _ => False end
    | Ok c => let target := (target_dir (st_mgr s) c, filepath_Base filename) in applied c content target (found target s) s r s'
    end) s.
Proof.
  unfold ApplyFile. destruct (LoadConnection content) as [c|e|p]; [|by apply wp_fail|by apply wp_mcall].
  apply wp_bind. change (wp get_mgr ?Q s) with (Q (Ok (st_mgr s)) s). cbv beta iota zeta.
  set (target := (target_dir (st_mgr s) c, filepath_Base filename)).
  assert (∀ e, wp (fail e) (applied c content target (found target s) s) s) as Hno by (intros e; apply wp_fail; by apply not_applied).
  destruct (target_dir _ _ =s ""); [apply Hno|]. destruct (bad_filename _); [apply Hno|].
  destruct (match cm_filePaths _ !! _ with Some _ => _ | None => _ end); [apply Hno|].
  apply wp_bind, wp_try, wp_read_conn. intros r s1 Hp1 [Hm1 Hf1 Hr1] <-.
  assert (∀ existing, wp (stage_apply c content target existing) (applied c content target existing s) s1) as Hstage.
  { intros existing. eapply wp_mono; [apply wp_stage_apply|]. cbv beta. intros r' s' Ha.
    unfold applied, maps in *. by rewrite Hm1, Hf1, Hr1 in Ha. }
  destruct r as [data|e|p]; [apply Hstage..|by destruct (Hp1 p)].
Qed.

Lemma wp_Rollback old s :
  cm_previous (st_mgr s) = Some old →
  wp Rollback (λ r s', (∀ p, r ≠ Panic p) ∧ maps s' = old ∧ (cm_onChange (st_mgr s) = true → st_runtime s' = listLocked (st_mgr s'))
    ∧ (reliable → st_files s' = match cm_backup (st_mgr s) with Some (p, content) => <[p := content]> | None => id end
                                  (match cm_addedFile (st_mgr s) with Some p => delete p | None => id end (st_files s)))) s.
Proof.
  intros Hp. unfold Rollback. apply wp_bind. change (wp get_mgr ?Q s) with (Q (Ok (st_mgr s)) s). cbv beta iota. rewrite Hp.
  apply wp_bind.
  assert (∀ Q : res unit → Site → Prop,
    (∀ s1, st_mgr s1 = st_mgr s → (reliable → st_files s1 = match cm_addedFile (st_mgr s) with Some p => delete p | None => id end (st_files s)) → Q (Ok ()) s1) →
    wp (match cm_addedFile (st_mgr s) with Some p => bind (try (RemoveFile p)) (λ _, ret ()) | None => ret () end) Q s) as Hrem.
  { intros Q HQ. destruct (cm_addedFile (st_mgr s)) as [p|]; [|by apply wp_ret, HQ]. apply wp_bind, wp_try.
    unfold RemoveFile, wp at 1. destruct (fs_fails _) eqn:Ef; apply wp_ret, HQ; try done; intros Hr; by rewrite Hr in Ef. }
  apply Hrem. intros s1 Hm1 Hf1. apply wp_bind.
  assert (∀ Q : res unit → Site → Prop,
    (∀ s2, st_mgr s2 = st_mgr s → (reliable → st_files s2 = match cm_backup (st_mgr s) with Some (p, content) => <[p := content]> | None => id end (st_files s1)) → Q (Ok ()) s2) →
    wp (match cm_backup (st_mgr s) with Some (p, content) => bind (try (WriteFile p content)) (λ _, ret ()) | None => ret () end) Q s1) as Hback.
  { intros Q HQ. destruct (cm_backup (st_mgr s)) as [[p content]|]; [|by apply wp_ret, HQ]. apply wp_bind, wp_try.
    unfold WriteFile, wp at 1. destruct (fs_fails _) eqn:Ef; apply wp_ret, HQ; try done; intros Hr; by rewrite Hr in Ef. }
  apply Hback. intros s2 Hm2 Hf2. apply wp_bind. set (upd := λ m : Manager, set_rollback _ _ _ _).
  change (wp (update_mgr upd) ?Q s2) with (Q (Ok ()) (with_mgr upd s2)). cbv beta iota.
  assert (reliable → st_files s2 = match cm_backup (st_mgr s) with Some (p, content) => <[p := content]> | None => id end
    (match cm_addedFile (st_mgr s) with Some p => delete p | None => id end (st_files s))) as Hf by (intros Hr; by rewrite Hf2, Hf1).
  destruct (cm_onChange (st_mgr s)) eqn:Eo.
  - apply wp_onChange. intros r s3 Hr Hm Hff Hrun. unfold maps. rewrite Hm, Hff, Hrun. cbn. split_and!; try done.
    by rewrite <- surjective_pairing.
  - apply wp_ret. unfold maps. cbn. split_and!; try done. by rewrite <- surjective_pairing.
Qed.
End manager.


(** ** A concrete site *)

Definition archive_spec : ConnectionSpec := {|
  cs_Type := "ndjson_output"; cs_Enabled := true; cs_Delivery := None; cs_Endpoint := None; cs_Brokers := []; cs_Topic := "";
  cs_Topics := []; cs_Key := ""; cs_Acks := ""; cs_Idempotent := false; cs_Compression := ""; cs_BatchBytes := 0; cs_Linger := "";
  cs_ConsumerGroup := ""; cs_Path := "out.ndjson"; cs_PartitionBy := []; cs_MaxRowsPerFile := 0; cs_Manifest := false;
  cs_SecretRef := ""; cs_Listen := ""; cs_TLSCertFile := ""; cs_TLSKeyFile := ""; cs_ClientCAFile := "" |}.
(** The sink a text declares: the text is its name. *)
Definition archive (text : string) : Connection := {|
  cn_APIVersion := "worm.io/v1"; cn_Kind := "Sink"; cn_Name := text; cn_Version := "1.0.0"; cn_Spec := archive_spec |}.
Definition sample_conn_env (fails : nat → bool) (refuses : nat → bool) : ConnEnv := {|
  yaml_decode text := Ok (archive text); yaml_encode c := Ok (cn_Name c); url_scheme _ := None; fs_fails := fails; tears _ := 0%nat; UnixNano t := Z.of_nat t;
  reconcile t := if refuses t then Some (errors_New "no") else None |}.
Definition sample_site : Site := {|
  st_mgr := {| cm_dir := "sinks"; cm_sourcesDir := ""; cm_sinksDir := ""; cm_connections := {[ "old" := archive "old" ]};
               cm_filePaths := {[ "old" := ("sinks", "a.yaml") ]}; cm_previous := None; cm_backup := None;
               cm_addedFile := None; cm_onChange := true |};
  st_files := {[ ("sinks", "a.yaml") := "old" ]}; st_runtime := [archive "old"]; st_tick := 0 |}.

Lemma sample_no_staging fails refuses : @no_staging (sample_conn_env fails refuses) "a.yaml" sample_site.
Proof.
  intros dir t. apply lookup_singleton_ne. unfold staging. cbn. by intros [= _ E].
Qed.


(** A file that cannot be read is taken for a new one; a refused reconcile removes it. *)
Lemma unreadable_file_removed :
  let env := sample_conn_env (λ t, t =? 0)%nat (λ _, true) in
  let s1 := (ApplyFile "a.yaml" "old" sample_site).2 in
  st_files sample_site !! ("sinks", "a.yaml") = Some "old" ∧ st_files s1 !! ("sinks", "a.yaml") = None.
Proof. by vm_compute. Qed.

(** A file name of another suffix is accepted, and not loaded by the next start. *)
Lemma other_suffix_forgotten :
  let env := sample_conn_env (λ _, false) (λ _, false) in
  let fresh := {| st_mgr := set_connections ∅ ∅ (st_mgr sample_site); st_files := ∅; st_runtime := []; st_tick := 0 |} in
  let s1 := (ApplyFile "n.txt" "new" fresh).2 in
  let restarted := with_mgr (λ _, st_mgr fresh) s1 in
  listLocked (st_mgr s1) = [archive "new"] ∧ listLocked (st_mgr (LoadDir "" restarted).2) = [].
Proof. by vm_compute. Qed.
