(* ===== verification/FileTree.v ===== *)
(** * Files by absolute path, for code that works in several directories

    Like Disk.v, where every call may work, be refused, or have its effect and still report
    an error ([call_fault]), but over whole trees: a store of the marketplace and the bundle it
    is exported to.  A directory is there when something is below it, so that creating one
    is no change; a directory may also stand where a file is expected.  The directories above
    the roots the code is given are no links. *)

From S2P Require Import Prelude GoStrings GoPath Model Disk.
From S2P Require Export Monad.

#[local] Open Scope monad_scope.

Inductive node :=
| NFile (content : string)
| NDir
| NLink (target : option string).     (* with the bytes of the file it leads to, if any *)

Abbreviation tree := (gmap tpath node).

Class TreeEnv := {
  call_fault : nat → outcome;
  temp_in : tree → tpath → string;
  temp_in_digits t dir : all_bytes is_digit (temp_in t dir) = true;
  temp_in_fresh t dir : t !! (dir ++ [".worm-tmp-" +:+ temp_in t dir]) = None;
}.

(** The files, and the number of calls made so far. *)
Record TreeHost := { th_files : tree; th_calls : nat }.

Section tree.
Context `{TreeEnv}.

Abbreviation P := (Prog TreeHost).

Definition tree_call {A} (f : tree → res A * tree) : P A := λ h,
  match call_fault (th_calls h) with
  | Works => let '(r, t) := f (th_files h) in (r, {| th_files := t; th_calls := S (th_calls h) |})
  | Refused => (Err os_error, {| th_files := th_files h; th_calls := S (th_calls h) |})
  | Reported => (Err os_error, {| th_files := (f (th_files h)).2; th_calls := S (th_calls h) |})
  end.
Definition tree_nop : P unit := tree_call (λ t, (Ok (), t)).

(** ** Looking up a path *)

Definition has_below (t : tree) (p : tpath) : bool :=
  existsb (λ kv, match below p kv.1 with Some (_ :: _) => true | _ => false end) (map_to_list t).

(** A path that leads through a file, or through a link: the code looks for links before it
    follows a path ([RejectSymlinks]). *)
Fixpoint blocked (t : tree) (dir parts : tpath) : bool :=
  match parts with
  | [] | [_] => false
  | part :: parts' =>
      match t !! (dir ++ [part]) with
      | Some (NFile _) | Some (NLink _) => true
      | _ => blocked t (dir ++ [part]) parts'
      end
  end.

Definition lookup_path (t : tree) (p : tpath) : res node :=
  if blocked t [] p then Err (errors_New "not a directory")
  else match t !! p with
       | Some n => Ok n
       | None => if has_below t p then Ok NDir else Err (errors_New ErrNotExist)
       end.

Definition file_bytes (n : node) : res string :=
  match n with
  | NFile c | NLink (Some c) => Ok c
  | NLink None => Err (errors_New ErrNotExist)
  | NDir => Err (errors_New "is a directory")
  end.

(** ** The calls *)

Definition tree_Lstat (p : tpath) : P node := tree_call (λ t, (lookup_path t p, t)).
Definition tree_ReadFile (p : tpath) : P string := tree_call (λ t, (n ← lookup_path t p; file_bytes n, t)).
(** [os.Stat], of which only the size is used; a directory is opened and read in vain. *)
Definition tree_Size (p : tpath) : P Z := tree_call (λ t, (n ← lookup_path t p; c ← file_bytes n; Ok (slen c), t)).

Definition remove_in (p : tpath) (t : tree) : res unit * tree :=
  match lookup_path t p with
  | Ok NDir => (Err (errors_New "directory not empty"), t)
  | Ok _ => (Ok (), delete p t)
  | Err e => (Err e, t)
  | Panic q => (Panic q, t)
  end.
Definition tree_Remove (p : tpath) : P unit := tree_call (remove_in p).

Definition tree_MkdirAll (p : tpath) : P unit := tree_call (λ t,
  ((if blocked t [] (p ++ [""]) then Err (errors_New "not a directory") else Ok ()), t)).

Definition tree_CreateTemp (dir : tpath) : P tpath := tree_call (λ t,
  let tmp := dir ++ [".worm-tmp-" +:+ temp_in t dir] in (Ok tmp, <[tmp := NFile ""]> t)).
Definition tree_Write (p : tpath) (data : string) : P unit := tree_call (λ t, (Ok (), <[p := NFile data]> t)).

Definition rename_in (src dst : tpath) (t : tree) : res unit * tree :=
  match t !! src, lookup_path t dst with
  | None, _ => (Err (errors_New ErrNotExist), t)
  | Some _, Ok NDir => (Err (errors_New "file exists"), t)
  | Some n, _ => (Ok (), <[dst := n]> (delete src t))
  end.
Definition tree_Rename (src dst : tpath) : P unit := tree_call (rename_in src dst).

(** ** [filesystem.go], [atomicWrite] of [manager.go] *)

(** The loop over the parts of the path below the root. *)
Fixpoint reject_parts (current : tpath) (parts : list string) : P unit :=
  match parts with
  | [] => ret ()
  | part :: parts' =>
      info <- try (tree_Lstat (current ++ [part])) ;;
      match info with
      | Err e => if IsNotExist e then ret () else fail e
      | Ok (NLink _) => fail (errors_New "managed path cannot contain symlinks")
      | Ok _ => reject_parts (current ++ [part]) parts'
      | Panic q => mcall (Panic q)
      end
  end.

Definition tree_RejectSymlinks (root target : tpath) : P unit :=
  match below root target with
  | None => fail (errors_New "managed path escapes its root")
  | Some rel =>
      info <- try (tree_Lstat root) ;;
      match info with
      | Ok (NLink _) => fail (errors_New "managed root cannot be a symlink")
      | _ => reject_parts root rel
      end
  end.

Definition tree_atomicWrite (p : tpath) (data : string) : P unit :=
  let dir := filepath_Dir p in
  tree_RejectSymlinks dir p ;;;
  tree_MkdirAll dir ;;;
  tmp <- tree_CreateTemp dir ;;
  r <- try (w <- try (tree_nop ;;; tree_Write tmp data ;;; tree_nop) ;;    (* Chmod, Write, Sync *)
            c <- try tree_nop ;;                                           (* Close *)
            mcall w ;;; mcall c ;;; tree_Rename tmp p ;;; tree_nop ;;; tree_nop) ;;   (* Open, Sync of the directory *)
  _ <- try (tree_Remove tmp) ;;                 (* deferred *)
  mcall r.

Definition AtomicWriteFile (root target : tpath) (data : string) : P unit :=
  tree_RejectSymlinks root target ;;; tree_atomicWrite target data.
End tree.

(** * What the file operations leave *)


(** ** Changes *)

(** The names [os.CreateTemp] gives. *)
Definition temp_path (q : tpath) : Prop := ∃ d s, q = d ++ [".worm-tmp-" +:+ s] ∧ all_bytes is_digit s = true.

(** Apart from temporary files, a path is as it was or as [allowed]. *)
Definition changes (allowed : tpath → option node → Prop) (h h' : TreeHost) : Prop :=
  ∀ q, th_files h' !! q = th_files h !! q ∨ temp_path q ∨ allowed q (th_files h' !! q).
Definition unchanged (h h' : TreeHost) : Prop := th_files h' = th_files h.

#[export] Instance changes_preorder allowed : PreOrder (changes allowed).
Proof.
  split; [intros h q; by left|]. intros h1 h2 h3 H1 H2 q. destruct (H2 q) as [->|[?|?]]; auto.
Qed.
#[export] Instance unchanged_preorder : PreOrder unchanged.
Proof. split; [done|]. intros h1 h2 h3. unfold unchanged. congruence. Qed.

Lemma unchanged_changes allowed h h' : unchanged h h' → changes allowed h h'.
Proof. intros E q. left. by rewrite E. Qed.

Section tree.
Context `{TreeEnv}.

Lemma keeps_call (R : TreeHost → TreeHost → Prop) {A} (f : tree → res A * tree) :
  (∀ h n, R h {| th_files := th_files h; th_calls := n |}) → (∀ h n, R h {| th_files := (f (th_files h)).2; th_calls := n |}) →
  keeps R (tree_call f).
Proof. intros H1 H2 h. unfold tree_call. destruct (call_fault _); [destruct (f _) eqn:E; specialize (H2 h (S (th_calls h))); by rewrite E in H2|apply H1|apply H2]. Qed.

Lemma reads_tree {A} (f : tree → res A * tree) : (∀ t, (f t).2 = t) → keeps unchanged (tree_call f).
Proof. intros Hf. apply keeps_call; [done|]. intros h n. apply Hf. Qed.

Lemma reads_nop : keeps unchanged tree_nop.
Proof. by apply reads_tree. Qed.
Lemma reads_Lstat p : keeps unchanged (tree_Lstat p).
Proof. by apply reads_tree. Qed.
Lemma reads_ReadFile p : keeps unchanged (tree_ReadFile p).
Proof. by apply reads_tree. Qed.
Lemma reads_Size p : keeps unchanged (tree_Size p).
Proof. by apply reads_tree. Qed.
Lemma reads_MkdirAll p : keeps unchanged (tree_MkdirAll p).
Proof. by apply reads_tree. Qed.
#[local] Hint Resolve reads_nop reads_Lstat reads_ReadFile reads_Size reads_MkdirAll : worm.

Lemma reads_parts current parts : keeps unchanged (reject_parts current parts).
Proof. revert current. induction parts as [|part parts IH]; intros current; cbn [reject_parts]; keeps_tac; apply IH. Qed.
#[local] Hint Resolve reads_parts : worm.
Lemma reads_RejectSymlinks root target : keeps unchanged (tree_RejectSymlinks root target).
Proof. unfold tree_RejectSymlinks. keeps_tac. Qed.

Lemma temp_fresh_path t dir : temp_path (dir ++ [".worm-tmp-" +:+ temp_in t dir]).
Proof. eexists _, _. split; [done|apply temp_in_digits]. Qed.

(** A call: it works, or is refused, or has its effect and reports an error. *)
Lemma wp_call {A} (f : tree → res A * tree) Q h :
  (∀ n, Q (f (th_files h)).1 {| th_files := (f (th_files h)).2; th_calls := n |}) →
  (∀ n, Q (Err os_error) {| th_files := th_files h; th_calls := n |}) →
  (∀ n, Q (Err os_error) {| th_files := (f (th_files h)).2; th_calls := n |}) →
  wp (tree_call f) Q h.
Proof. intros H1 H2 H3. unfold wp, tree_call. destruct (call_fault _); [destruct (f _) eqn:E; specialize (H1 (S (th_calls h))); by rewrite ?E in H1|apply H2|apply H3]. Qed.

(** ** [atomicWrite]

    [p] is as before or holds [data], a temporary file may be left behind, and no other path
    has changed; when the call succeeds, just [p] has. *)
Section write.
Context (t : tree) (p tmp : tpath) (data : string) (Htmp : t !! tmp = None) (Hne : tmp ≠ p).

Definition staged (h : TreeHost) : Prop := ∃ c, th_files h = <[tmp := NFile c]> t.
Definition written (h : TreeHost) : Prop := th_files h = <[p := NFile data]> t.

Lemma wp_write_nop Q h :
  staged h → (∀ h', staged h' → Q (Err os_error) h') → (∀ h', th_files h' = <[tmp := NFile data]> t → Q (Ok ()) h') →
  wp (tree_Write tmp data ;;; tree_nop) Q h.
Proof.
  intros [c Hs] He Ho. assert (∀ n, th_files {| th_files := <[tmp:=NFile data]> (th_files h); th_calls := n |} = <[tmp := NFile data]> t) as E.
  { intros m. cbn. by rewrite Hs, insert_insert_eq. }
  apply wp_bind, wp_call; cbn; intros n; [|apply He..]; [|by exists c|by exists data].
  apply wp_call; cbn; intros n'; [apply Ho, E|apply He..]; by exists data.
Qed.
Lemma wp_write_file Q h :
  staged h → (∀ h', staged h' → Q (Err os_error) h') → (∀ h', th_files h' = <[tmp := NFile data]> t → Q (Ok ()) h') →
  wp (tree_nop ;;; tree_Write tmp data ;;; tree_nop) Q h.
Proof. intros Hs He Ho. apply wp_bind, wp_call; cbn; intros n; [by apply wp_write_nop|by apply He..]. Qed.

Lemma wp_rename_temp Q h :
  th_files h = <[tmp := NFile data]> t → (∀ e h', staged h' → Q (Err e) h') → (∀ e h', written h' → Q (Err e) h') → (∀ h', written h' → Q (Ok ()) h') →
  wp (tree_Rename tmp p) Q h.
Proof.
  intros Hs He Hw Ho.
  assert (staged h) as Hst by by exists data.
  assert ((∃ e, rename_in tmp p (th_files h) = (Err e, th_files h)) ∨ rename_in tmp p (th_files h) = (Ok (), <[p := NFile data]> t)) as Hcases.
  { unfold rename_in. rewrite Hs, lookup_insert_eq, delete_insert_id by done. destruct (lookup_path _ p) as [[]| |]; eauto. }
  unfold tree_Rename. apply wp_call; intros n; destruct Hcases as [[e E]|E]; rewrite ?E; first [by apply He|by apply Hw|by apply Ho].
Qed.
Lemma wp_replace Q h :
  th_files h = <[tmp := NFile data]> t → (∀ e h', staged h' → Q (Err e) h') → (∀ e h', written h' → Q (Err e) h') → (∀ h', written h' → Q (Ok ()) h') →
  wp (tree_Rename tmp p ;;; tree_nop ;;; tree_nop) Q h.
Proof.
  intros Hs He Hw Ho. apply wp_bind, wp_rename_temp; [done|by intros; apply He|by intros; apply Hw|]. intros h1 H1.
  apply wp_bind, wp_call; cbn; intros m; [apply wp_call; cbn; intros k|..]; first [by apply Ho|by apply Hw].
Qed.

(** The deferred removal of the temporary file. *)
Lemma wp_remove_temp_tree (Q : res unit → TreeHost → Prop) r h :
  (staged h → ∀ h', (∀ q, q ≠ tmp → th_files h' !! q = t !! q) → Q r h') → (written h → ∀ h', written h' → Q r h') →
  staged h ∨ written h → wp (_ <- try (tree_Remove tmp) ;; mcall r) Q h.
Proof.
  intros Hs Hw Hh. apply wp_bind, wp_try.
  assert (∀ n, Q r {| th_files := (remove_in tmp (th_files h)).2; th_calls := n |}) as Hall.
  { intros n. unfold remove_in. destruct Hh as [Hh|Hh].
    - apply Hs; [done|]. intros q Hq. destruct Hh as [c Hc]. cbn [th_files]. destruct (lookup_path _ tmp) as [[]| |]; cbn [snd];
        rewrite ?lookup_delete_ne by done; rewrite Hc; by rewrite lookup_insert_ne.
    - apply Hw; [done|]. unfold written in *. cbn [th_files]. unfold lookup_path. destruct (blocked _ _ _); [done|].
      rewrite Hh. rewrite (lookup_insert_ne _ p tmp) by done. rewrite Htmp. by destruct (has_below _ _). }
  assert (∀ n, Q r {| th_files := th_files h; th_calls := n |}) as Hsame.
  { intros n. destruct Hh as [Hh|Hh]; [apply Hs; [done|]|by apply Hw]. intros q Hq. destruct Hh as [c Hc]. cbn. rewrite Hc. by rewrite lookup_insert_ne. }
  unfold tree_Remove. apply wp_call; intros n; [|apply Hsame|apply Hall].
  specialize (Hall n). unfold remove_in in *. destruct (lookup_path _ tmp) as [[]| |] eqn:E; try exact Hall.
  exfalso. unfold lookup_path in E. repeat case_match; done.
Qed.
End write.

Lemma wp_reads {A} (m : Prog TreeHost A) Q h :
  keeps unchanged m → (∀ r h', th_files h' = th_files h → Q r h') → wp m Q h.
Proof. intros Hm Hq. apply (wp_keeps unchanged); [done|]. unfold wp. destruct (m h) as [r h']. apply Hq. Qed.

Lemma wp_tree_nop Q h :
  (∀ r h', th_files h' = th_files h → r = Err os_error ∨ r = Ok () → Q r h') → wp tree_nop Q h.
Proof. intros Hq. apply wp_call; intros n; apply Hq; eauto. Qed.

Lemma wp_tree_atomicWrite p data h (Q : res unit → TreeHost → Prop) :
  ¬ temp_path p →
  (∀ h', th_files h' = <[p := NFile data]> (th_files h) → Q (Ok ()) h') →
  (∀ r h', r ≠ Ok () → (∀ q, th_files h' !! q = th_files h !! q ∨ temp_path q ∨ (q = p ∧ th_files h' !! q = Some (NFile data))) → Q r h') →
  wp (tree_atomicWrite p data) Q h.
Proof.
  intros Hp Ho He. unfold tree_atomicWrite.
  assert (∀ r h', r ≠ Ok () → th_files h' = th_files h → Q r h') as Hsame.
  { intros r h' Hr E. apply He; [done|]. intros q. left. by rewrite E. }
  apply wp_bind, wp_reads; [apply reads_RejectSymlinks|]. intros r h1 E1. destruct r as [[]|e|q]; [|by apply Hsame..].
  apply wp_bind, wp_reads; [apply reads_MkdirAll|]. intros r h2 E2. destruct r as [[]|e|q]; [|apply Hsame; congruence..].
  rewrite E1 in E2. clear E1 h1.
  apply wp_bind. unfold tree_CreateTemp. cbv zeta. set (tmp := filepath_Dir p ++ [".worm-tmp-" +:+ temp_in (th_files h2) (filepath_Dir p)]).
  assert (temp_path tmp) as Ht by apply temp_fresh_path.
  assert (th_files h !! tmp = None) as Hf by (rewrite <- E2; apply temp_in_fresh).
  assert (tmp ≠ p) as Hne by (intros ->; done).
  assert (∀ r h', r ≠ Ok () → staged (th_files h) tmp h' → Q r h') as Hstaged.
  { intros r h' Hr [c E]. apply He; [done|]. intros q. destruct (decide (q = tmp)) as [->|]; [auto|]. left. rewrite E. by rewrite lookup_insert_ne. }
  apply wp_call; intros n; cbn [fst snd]; fold tmp.
  2: { by apply Hsame. }
  2: { apply Hstaged; [done|]. exists "". cbn. by rewrite E2. }
  set (h3 := {| th_files := _; th_calls := n |}).
  assert (staged (th_files h) tmp h3) as H3 by (exists ""; cbn; by rewrite E2).
  assert (∀ r h', r ≠ Ok () → staged (th_files h) tmp h' ∨ written (th_files h) p data h' →
     wp (_ <- try (tree_Remove tmp) ;; mcall r) Q h') as Hend.
  { intros r h' Hr Hh. apply (wp_remove_temp_tree (th_files h) p tmp data Hf Hne); [..|done].
    - intros _ h'' E. apply He; [done|]. intros q. destruct (decide (q = tmp)) as [->|]; [auto|]. left. by apply E.
    - intros _ h'' E. unfold written in E. apply He; [done|]. intros q. destruct (decide (q = p)) as [->|]; [right; right; by rewrite E, lookup_insert_eq|].
      left. rewrite E. by rewrite lookup_insert_ne. }
  apply wp_bind, wp_try, wp_bind, wp_try. apply (wp_write_file (th_files h) tmp data); [done|..].
  - intros h4 H4. cbn. apply wp_bind, wp_try, wp_tree_nop. intros r h5 E5 [->| ->]; cbn; apply Hend; try done; left;
      destruct H4 as [c E4]; exists c; congruence.
  - intros h4 H4. cbn. apply wp_bind, wp_try, wp_tree_nop. intros r h5 E5. rewrite H4 in E5.
    intros [->| ->]; cbn; [apply Hend; [done|left; by exists data]|].
    apply (wp_replace (th_files h) p tmp data Hf); [done|..].
    + intros e h6 H6. apply Hend; [done|by left].
    + intros e h6 H6. apply Hend; [done|by right].
    + intros h6 H6. apply (wp_remove_temp_tree (th_files h) p tmp data Hf Hne); [..|by right].
      * intros [c E] h' _. exfalso. unfold written in H6. rewrite H6 in E. apply (f_equal (lookup tmp)) in E.
        rewrite lookup_insert_eq, lookup_insert_ne in E by done. congruence.
      * intros _ h' H'. by apply Ho.
Qed.

Lemma wp_AtomicWriteFile root p data h (Q : res unit → TreeHost → Prop) :
  ¬ temp_path p →
  (∀ h', th_files h' = <[p := NFile data]> (th_files h) → Q (Ok ()) h') →
  (∀ r h', r ≠ Ok () → (∀ q, th_files h' !! q = th_files h !! q ∨ temp_path q ∨ (q = p ∧ th_files h' !! q = Some (NFile data))) → Q r h') →
  wp (AtomicWriteFile root p data) Q h.
Proof.
  intros Hp Ho He. unfold AtomicWriteFile. apply wp_bind, wp_reads; [apply reads_RejectSymlinks|].
  intros r h1 E1. destruct r as [[]|e|q]; [apply wp_tree_atomicWrite; rewrite ?E1; done|..];
    (apply He; [done|]; intros q'; left; by rewrite E1).
Qed.

Lemma changes_AtomicWriteFile allowed root p data :
  ¬ temp_path p → allowed p (Some (NFile data)) → keeps (changes allowed) (AtomicWriteFile root p data).
Proof.
  intros Hp Ha. apply keeps_wp. intros h. apply wp_AtomicWriteFile; [done|..].
  - intros h' E q. rewrite E. destruct (decide (q = p)) as [->|]; [rewrite lookup_insert_eq; auto|]. left. by rewrite lookup_insert_ne.
  - intros r h' _ Hq q. destruct (Hq q) as [?|[?|[-> E]]]; auto. rewrite E. auto.
Qed.
End tree.

(** ** Calls that succeed, and none that panics *)

Lemma tree_call_ok `{TreeEnv} {A} (f : tree → res A * tree) h a h' :
  tree_call f h = (Ok a, h') → f (th_files h) = (Ok a, th_files h').
Proof. unfold tree_call. destruct (call_fault _), (f _) eqn:E; naive_solver. Qed.
Lemma tree_nop_ok `{TreeEnv} h a h' : tree_nop h = (Ok a, h') → th_files h' = th_files h.
Proof. intros E%tree_call_ok. by injection E. Qed.
Lemma try_nop `{TreeEnv} h r h' : try tree_nop h = (Ok r, h') → th_files h' = th_files h.
Proof.
  intros [E _]%try_ok. unfold tree_nop, tree_call in E. by destruct (call_fault _); injection E as <- <-.
Qed.

Lemma panicless_call `{TreeEnv} {A} (f : tree → res A * tree) : (∀ t, no_panic (f t).1) → panicless (tree_call f).
Proof. intros Hf s. unfold tree_call. specialize (Hf (th_files s)). destruct (call_fault _); [by destruct (f _)|done..]. Qed.

Lemma lookup_panicless t p : no_panic (lookup_path t p).
Proof. unfold lookup_path. repeat case_match; done. Qed.
Lemma file_bytes_panicless n : no_panic (file_bytes n).
Proof. by destruct n as [|  |[]]. Qed.

#[export] Hint Resolve reads_nop reads_Lstat reads_ReadFile reads_Size reads_MkdirAll reads_RejectSymlinks : worm.
