(* ===== verification/Catalog.v ===== *)
(** * [internal/marketplace/catalog.go]: the signed catalogue of parser packs

    The catalogue travels in an envelope signed with ed25519.  [Verify] accepts one signed
    by a key built into the program, whose contents [Validate] accepts; what the rest of the
    marketplace relies on ([valid_catalog]: unique names and versions, canonical paths) is
    proved of every catalogue it returns.  The choice of a release for this program follows. *)

From S2P Require Import Prelude GoStrings GoNum GoRegexp GoPath Model Disk PackStore.

(** ** Data *)

Record Release := {
  Version : string; Artifact : string; SHA256 : string; Size : Z; Changelog : string; Withdrawn : bool;
  MinWORM : string; RequiredDecoders : list string; PublishedAt : string; PackAPI : string; OCSF : string;
}.
Definition zero_release : Release :=
  {| Version := ""; Artifact := ""; SHA256 := ""; Size := 0; Changelog := ""; Withdrawn := false;
     MinWORM := ""; RequiredDecoders := []; PublishedAt := ""; PackAPI := ""; OCSF := "" |}.

Record CatalogPack := {
  cp_Name : string; cp_Description : string; cp_Publisher : string; cp_Category : string; cp_Format : string;
  cp_Vendor : string; cp_Product : string; cp_Models : list string; cp_Tags : list string; Releases : list Release;
}.

(** [envelope] is empty until the catalogue is verified. *)
Record Catalog := { c_Version : Z; c_Generated : string; c_Packs : list CatalogPack; c_envelope : string }.
Definition with_envelope (data : string) (c : Catalog) : Catalog :=
  {| c_Version := c_Version c; c_Generated := c_Generated c; c_Packs := c_Packs c; c_envelope := data |}.
Definition SignedEnvelope (c : Catalog) : string := c_envelope c.

Record Envelope := { KeyID : string; Payload : string; Signature : string }.

Definition CatalogVersion : Z := 1.
Definition OwnerSigningKeyID : string := "worm-market-2026-v2".
Definition publicKeys : gmap string string :=
  {["worm-market-2026" := "C/JvarAa2Xt7ywMJ+FGENfRHJdC8aJYk5KnlymRKkVM=";
    OwnerSigningKeyID := "uQZN+zRl3nSBqU4qqmtC/IXFEXT10N9q0lg4ls9MYoI="]}.

(** ** Code outside the repository *)

(** [golang.org/x/mod/semver]: [Compare] orders the versions, and a valid one is [v], a digit,
    and more letters, digits, dots, plus and minus signs. *)
Definition version_byte (c : ascii) : bool :=
  is_digit c || ((65 <=? bz c) && (bz c <=? 90)) || ((97 <=? bz c) && (bz c <=? 122))
  || (c =b "."%char) || (c =b "+"%char) || (c =b "-"%char).

Class SemVer := {
  semver_IsValid : string → bool;
  semver_Compare : string → string → Z;
  semver_Major : string → string;
  semver_Prerelease : string → string;
  semver_total v w : semver_Compare v w ≤ 0 ∨ semver_Compare w v ≤ 0;
  semver_trans u v w : semver_Compare u v ≤ 0 → semver_Compare v w ≤ 0 → semver_Compare u w ≤ 0;
  semver_flip v w : 0 < semver_Compare v w ↔ semver_Compare w v < 0;
  semver_text v : semver_IsValid v = true →
    ∃ d t, v = String "v" (String d t) ∧ is_digit d = true ∧ all_bytes version_byte t = true;
}.

(** The signature scheme, the JSON of the two records, [time.Parse] and [sort.Slice], which
    sorts in any way that respects the order it is given. *)
Class CatalogEnv := {
  ed25519_Verify : string → string → string → bool;
  Unmarshal_Envelope : string → option Envelope;
  Unmarshal_Envelope_empty : Unmarshal_Envelope "" = None;    (* unexpected end of JSON input *)
  Unmarshal_Catalog : string → option Catalog;
  catalog_time_Parse : string → string → option time;
  sort_Slice {A} : (A → A → bool) → list A → list A;
  sort_Slice_perm {A} (less : A → A → bool) l : sort_Slice less l ≡ₚ l;
  sort_Slice_sorted {A} (less : A → A → bool) l :
    (∀ x y, less x y = true → less y x = false) → (∀ x y z, less y x = false → less z y = false → less z x = false) →
    StronglySorted (λ x y, less y x = false) (sort_Slice less l);
}.

Section catalog.
Context `{SemVer} `{CatalogEnv} `{PackCodec}.

(** ** [normalizeVersion], [validateArtifactPath] *)

Definition normalizeVersion (v : string) : string :=
  let t := TrimSpace v in
  if (t <>s "") && negb (HasPrefix t "v") then "v" +:+ t else t.

Definition validateArtifactPath (name version artifact : string) : res unit :=
  if ContainsAny artifact "\%?#:" || HasPrefix artifact "/" || (path_Clean artifact <>s artifact)
     || (artifact <>s "packs/" +:+ name +:+ "/" +:+ version +:+ "/pack.yaml")
  then Err (errors_New "artifact path is not canonical") else Ok ().

Definition packName : re :=
  RSeqs [RBol; RChr (λ r, cls_range "a" "z" r || cls_range "0" "9" r);
         RStar (RChr (λ r, cls_range "a" "z" r || cls_range "0" "9" r || cls_lit "-" r)); REol].

Definition decoderCapabilities (name : string) : bool :=
  bool_decide (name ∈ ["syslog"; "json"; "csv"; "cef"; "xml"; "leef"; "text"]).

(** ** [Catalog.Validate] *)

Definition RFC3339 : string := "2006-01-02T15:04:05Z07:00".

Definition release_error (format : string) (p : CatalogPack) (r : Release) : error :=
  Errorf format [AStr (cp_Name p); AStr (Version r)].

Fixpoint check_decoders (p : CatalogPack) (r : Release) (decoders : list string) : res unit :=
  match decoders with
  | [] => Ok ()
  | d :: ds =>
      if negb (decoderCapabilities (ToLower d)) then
        Err (Errorf "release %s/%s requires unsupported decoder %q" [AStr (cp_Name p); AStr (Version r); AStr d])
      else check_decoders p r ds
  end.

Definition check_release (p : CatalogPack) (versions : gset string) (r : Release) : res (gset string) :=
  if (TrimSpace (Version r) <>s Version r) || (TrimSpace (MinWORM r) <>s MinWORM r) then
    Err (Errorf "release %s contains noncanonical version whitespace" [AStr (cp_Name p)])
  else
    let v := normalizeVersion (Version r) in
    if negb (semver_IsValid v) || bool_decide (v ∈ versions) then
      Err (Errorf "invalid or duplicate release %q for %s" [AStr (Version r); AStr (cp_Name p)])
    else if (PackAPI r =s "") || (OCSF r =s "") then Err (release_error "release %s/%s is missing compatibility metadata" p r)
    else if (Size r <=? 0) || (2 * 2 ^ 20 <? Size r) then
      Err (release_error "release %s/%s has invalid or oversized artifact size" p r)
    else if (MinWORM r <>s "") && negb (semver_IsValid (normalizeVersion (MinWORM r))) then
      Err (release_error "release %s/%s has invalid min_worm" p r)
    else if (PublishedAt r <>s "") && negb (bool_decide (is_Some (catalog_time_Parse RFC3339 (PublishedAt r)))) then
      Err (release_error "release %s/%s has invalid published_at" p r)
    else
      _ ← check_decoders p r (RequiredDecoders r);
      if negb (slen (SHA256 r) =? 64) || negb (bool_decide (is_Some (hex_DecodeString (SHA256 r)))) then
        Err (release_error "release %s/%s has invalid SHA-256" p r)
      else if negb (is_ok (validateArtifactPath (cp_Name p) (Version r) (Artifact r))) then
        Err (release_error "release %s/%s has unsafe artifact path" p r)
      else Ok ({[v]} ∪ versions).

Fixpoint check_releases (p : CatalogPack) (versions : gset string) (rs : list Release) : res unit :=
  match rs with
  | [] => Ok ()
  | r :: rs' => versions' ← check_release p versions r; check_releases p versions' rs'
  end.

Fixpoint check_packs (seen : gset string) (ps : list CatalogPack) : res unit :=
  match ps with
  | [] => Ok ()
  | p :: ps' =>
      if negb (MatchString packName (cp_Name p)) || bool_decide (cp_Name p ∈ seen) then
        Err (Errorf "invalid or duplicate pack name %q" [AStr (cp_Name p)])
      else match Releases p with
           | [] => Err (Errorf "pack %q has no releases" [AStr (cp_Name p)])
           | rs => _ ← check_releases p ∅ rs; check_packs ({[cp_Name p]} ∪ seen) ps'
           end
  end.

Definition Catalog_Validate (c : Catalog) : res unit :=
  if negb (c_Version c =? CatalogVersion) then Err (Errorf "unsupported catalog version %d" [AInt (c_Version c)])
  else if (c_Generated c <>s "") && negb (bool_decide (is_Some (catalog_time_Parse RFC3339 (c_Generated c)))) then
    Err (errors_New "invalid catalog generated time")
  else check_packs ∅ (c_Packs c).

(** ** [Verify] *)

Definition Verify (data : string) : res Catalog :=
  env ← of_option (errors_New "invalid catalog envelope") (Unmarshal_Envelope data);
  encodedKey ← of_option (Errorf "untrusted catalog signing key %q" [AStr (KeyID env)]) (publicKeys !! KeyID env);
  key ← of_option (errors_New "illegal base64 data") (base64_DecodeString encodedKey);
  sig ← of_option (errors_New "invalid catalog signature encoding") (base64_DecodeString (Signature env));
  payload ← of_option (errors_New "invalid catalog payload encoding") (base64_DecodeString (Payload env));
  if negb (ed25519_Verify key payload sig) then Err (errors_New "catalog signature verification failed")
  else
    c ← of_option (errors_New "invalid catalog") (Unmarshal_Catalog payload);
    _ ← Catalog_Validate c;
    Ok (with_envelope data c).

(** A private key is its seed and its public key, of 32 bytes each. *)
Definition SigningKeyTrusted (keyID private : string) : bool :=
  match publicKeys !! keyID with
  | None => false
  | Some encoded =>
      if negb (slen private =? 64) then false
      else match base64_DecodeString encoded with
           | None => false
           | Some trusted => str_drop 32 private =s trusted
           end
  end.

(** ** Artifacts *)

Definition Digest (data : string) : string := sha256_hex data.

Definition VerifyArtifact (r : Release) (data : string) : res unit :=
  if negb (slen data =? Size r) then
    Err (Errorf "artifact size mismatch: expected %d, received %d" [AInt (Size r); AInt (slen data)])
  else if Digest data <>s SHA256 r then Err (errors_New "artifact SHA-256 mismatch")
  else Ok ().

(** ** The choice of a release *)

Definition newer (a b : Release) : bool := 0 <? semver_Compare (normalizeVersion (Version a)) (normalizeVersion (Version b)).
Definition stable (r : Release) : bool := semver_Prerelease (normalizeVersion (Version r)) =s "".

Definition Latest (p : CatalogPack) : option Release :=
  find (λ r, negb (Withdrawn r) && stable r) (sort_Slice newer (Releases p)).

Definition Pack_Release (p : CatalogPack) (version : string) : option Release :=
  let want := normalizeVersion version in
  find (λ r, (normalizeVersion (Version r) =s want) && negb (Withdrawn r)) (Releases p).

(** The loop of the three functions below: the first of the newest releases that pass, if
    its version is not empty. *)
Fixpoint best_release (passes : Release → bool) (rs : list Release) (best : Release) : Release :=
  match rs with
  | [] => best
  | r :: rs' =>
      if negb (passes r) then best_release passes rs' best
      else best_release passes rs' (if (Version best =s "") || newer r best then r else best)
  end.
Definition best_of (passes : Release → bool) (p : CatalogPack) : option Release :=
  let best := best_release passes (Releases p) zero_release in
  if Version best <>s "" then Some best else None.

Definition hasSupportedDecoders (r : Release) : bool := forallb (λ d, decoderCapabilities (ToLower d)) (RequiredDecoders r).

Definition of_major (major : string) (r : Release) : bool := semver_Major (normalizeVersion (Version r)) =s major.
Definition LatestForMajor (p : CatalogPack) (major : string) : option Release :=
  best_of (λ r, of_major major r && stable r && negb (Withdrawn r)) p.

Definition compatible (wormVersion packAPI ocsfVersion : string) (r : Release) : bool :=
  negb (Withdrawn r) && stable r && (PackAPI r =s packAPI) && (OCSF r =s ocsfVersion)
  && negb ((MinWORM r <>s "") && (semver_Compare (normalizeVersion wormVersion) (normalizeVersion (MinWORM r)) <? 0))
  && hasSupportedDecoders r.
Definition LatestCompatible (p : CatalogPack) (wormVersion packAPI ocsfVersion : string) : option Release :=
  best_of (compatible wormVersion packAPI ocsfVersion) p.
Definition LatestCompatibleForMajor (p : CatalogPack) (wormVersion packAPI ocsfVersion major : string) : option Release :=
  best_of (λ r, compatible wormVersion packAPI ocsfVersion r && of_major major r) p.

(** ** Search *)

Definition category_matches (wanted text : string) : bool := (wanted =s "") || (ToLower text =s wanted).
Definition part_matches (wanted text : string) : bool := (wanted =s "") || Contains (ToLower text) wanted.
Definition haystack (p : CatalogPack) : string :=
  ToLower (Join [cp_Name p; cp_Description p; cp_Publisher p; cp_Category p; cp_Format p; cp_Vendor p; cp_Product p;
                 Join (cp_Models p) " "; Join (cp_Tags p) " "] " ").

Definition SearchFiltered (c : Catalog) (q category format vendor product model : string) : list CatalogPack :=
  let q := ToLower (TrimSpace q) in
  let category := ToLower category in let format := ToLower format in
  let vendor := ToLower vendor in let product := ToLower product in let model := ToLower model in
  List.filter (λ p,
    category_matches category (cp_Category p) && category_matches format (cp_Format p)
    && part_matches vendor (cp_Vendor p) && part_matches product (cp_Product p)
    && ((model =s "") || existsb (λ m, Contains (ToLower m) model) (cp_Models p))
    && ((q =s "") || Contains (haystack p) q)) (c_Packs c).
Definition Search (c : Catalog) (q category format : string) : list CatalogPack := SearchFiltered c q category format "" "" "".
End catalog.

(** The built-in keys have the 32 bytes without which [ed25519.Verify] panics. *)
Lemma publicKeys_length id k : publicKeys !! id = Some k → String.length <$> base64_DecodeString k = Some 32%nat.
Proof.
  unfold publicKeys. intros [[<- <-]|[_ [<- <-]%lookup_singleton_Some]]%lookup_insert_Some; vm_compute; reflexivity.
Qed.
