(* ===== verification/Market.v ===== *)
(** * [internal/marketplace/catalog.go]: the store of the catalogue and of its artifacts

    A store keeps the catalogue it last fetched or imported, and artifacts it verified, under
    [.marketplace] of its pack directory; a bundle is a directory with a catalogue, an index
    and the artifacts it lists. *)

From S2P Require Import Prelude GoStrings GoNum GoIO GoPath Model Pack Extract PackStore Catalog.
From S2P Require Export Monad FileTree.

#[local] Open Scope monad_scope.

(** The index of a bundle, [bundle.json]. *)
Record bundle := { b_Version : Z; b_CatalogSHA256 : string; b_Available : list string }.

(** A response: its status code and text, the body as far as it can be read, and whether the
    reading then fails. *)
Record response := { rs_StatusCode : Z; rs_Status : string; rs_Body : string; rs_broken : bool }.

Class MarketEnv := {
  seedCatalog : string;                                  (* embedded in the program *)
  MarshalIndent_bundle : bundle → string;
  Unmarshal_bundle : string → option bundle;
  (* [net/url] *)
  url : Type;
  url_Parse : string → res url;
  url_Scheme : url → string;
  url_Host : url → string;
  url_ResolveReference : url → url → url;
  url_String : url → string;
  (* [http.Client.Do] with a redirect policy; the answer may change from call to call *)
  http_Do : (url → list url → res unit) → nat → string → res response;
}.

(** [Dir] is [None] for an empty name. *)
Record LocalStore `{MarketEnv} := { Dir : option tpath; RegistryURL : string; Online : bool }.

Section market.
Context `{TreeEnv} `{SemVer} `{CatalogEnv} `{PackCodec} `{MarketEnv} `{MapOrder}.

Abbreviation P := (Prog TreeHost).

(** ** Paths *)

Definition catalog_path (dir : tpath) : tpath := filepath_Join dir [".marketplace"; "catalog.json"].
Definition cached_path (dir : tpath) (p : CatalogPack) (r : Release) : tpath :=
  filepath_Join dir [".marketplace"; "artifacts"; cp_Name p; Version r; "pack.yaml"].
Definition artifact_path (dir : tpath) (r : Release) : tpath := filepath_Join dir [Artifact r].

(** The nested loops over the packs and their releases. *)
Definition releases_of (c : Catalog) : list (CatalogPack * Release) := c_Packs c ≫= λ p, pair p <$> Releases p.

Fixpoint each {A} (f : A → P unit) (l : list A) : P unit :=
  match l with [] => ret () | x :: l' => f x ;;; each f l' end.

(** ** The catalogue *)

Definition LoadCatalog : res Catalog := Verify seedCatalog.

Definition ReadCatalog (s : LocalStore) : P Catalog :=
  match Dir s with
  | None => mcall LoadCatalog
  | Some dir =>
      tree_RejectSymlinks dir (catalog_path dir) ;;;
      b <- try (tree_ReadFile (catalog_path dir)) ;;
      match b with
      | Ok data =>
          mcall (wrap_err (λ e, Errorf "cached marketplace catalog is invalid; refresh or restore it: %w" [AErr e]) (Verify data))
      | Err e => if IsNotExist e then mcall LoadCatalog else fail (Errorf "read marketplace catalog cache: %w" [AErr e])
      | Panic q => mcall (Panic q)
      end
  end.

(** ** Downloads *)

Definition CheckRedirect (req : url) (via : list url) : res unit :=
  match via with
  | first :: _ =>
      if (url_Host req <>s url_Host first) || (url_Scheme req <>s url_Scheme first)
      then Err (errors_New "cross-origin marketplace redirect blocked") else Ok ()
  | [] => Ok ()
  end.

(** One exchange. *)
Definition client_Do (target : string) : P response := λ h,
  (http_Do CheckRedirect (th_calls h) target, {| th_files := th_files h; th_calls := S (th_calls h) |}).

(** [io.ReadAll(io.LimitReader(body, limit))] *)
Definition ReadLimited (limit : Z) (r : response) : res string :=
  if limit <=? slen (rs_Body r) then Ok (str_take (Z.to_nat limit) (rs_Body r))
  else if rs_broken r then Err (errors_New "unexpected EOF") else Ok (rs_Body r).

Definition maxCatalog : Z := 4 * 2 ^ 20.
Definition TrimSlashes (s : string) : string := TrimRightBytes (λ c, c =b "/"%char) s.

Definition Fetch (s : LocalStore) : P Catalog :=
  if negb (Online s) then fail (errors_New "marketplace is offline; enable --marketplace-online to refresh")
  else if RegistryURL s =s "" then fail (errors_New "marketplace registry URL is not configured")
  else
    resp <- client_Do (TrimSlashes (RegistryURL s) +:+ "/catalog.json") ;;
    if negb (rs_StatusCode resp =? 200) then fail (Errorf "marketplace returned %s" [AStr (rs_Status resp)])
    else
      data <- mcall (ReadLimited (maxCatalog + 1) resp) ;;
      if maxCatalog <? slen data then fail (errors_New "catalog exceeds 4 MiB limit")
      else
        c <- mcall (Verify data) ;;
        match Dir s with
        | None => ret c
        | Some dir =>
            tree_RejectSymlinks dir (catalog_path dir) ;;;
            AtomicWriteFile dir (catalog_path dir) data ;;;
            ret c
        end.

(** [int64(r.Size) + 1] wraps around *)
Definition int64_wrap (z : Z) : Z := (z + 2 ^ 63) mod 2 ^ 64 - 2 ^ 63.
Definition maxArtifact : Z := 2 * 2 ^ 20.
Definition artifact_limit (r : Release) : Z :=
  let limit := int64_wrap (Size r + 1) in
  if (limit <=? 0) || (maxArtifact <? limit) then maxArtifact + 1 else limit.

Definition FetchArtifact (s : LocalStore) (r : Release) : P string :=
  if negb (Online s) then fail (errors_New "marketplace is offline; only cached artifacts can be installed")
  else
    base <- mcall (url_Parse (TrimSlashes (RegistryURL s) +:+ "/")) ;;
    u <- mcall (url_Parse (Artifact r)) ;;
    let target := url_ResolveReference base u in
    if (url_Scheme target <>s url_Scheme base) || (url_Host target <>s url_Host base)
    then fail (errors_New "artifact URL is outside the configured registry")
    else
      resp <- client_Do (url_String target) ;;
      if negb (rs_StatusCode resp =? 200) then fail (Errorf "marketplace artifact returned %s" [AStr (rs_Status resp)])
      else
        data <- mcall (ReadLimited (artifact_limit r) resp) ;;
        mcall (VerifyArtifact r data) ;;;
        ret data.

(** ** Artifacts on disk *)

Definition readArtifact (filename : tpath) (r : Release) : P string :=
  size <- tree_Size filename ;;
  if negb (size =? Size r) then fail (Errorf "artifact size mismatch: expected %d, received %d" [AInt (Size r); AInt size])
  else
    tree_nop ;;;                                  (* Open *)
    content <- tree_ReadFile filename ;;
    let data := str_take (Z.to_nat (Size r + 1)) content in
    mcall (VerifyArtifact r data) ;;;
    ret data.

(** ** [ExportSnapshot] *)

Fixpoint first_artifact (dir : tpath) (r : Release) (names : list string) (e : error) : P (res string) :=
  match names with
  | [] => ret (Err e)
  | filename :: names' =>
      tree_RejectSymlinks dir (filepath_Join dir [filename]) ;;;
      candidate <- try (readArtifact (filepath_Join dir [filename]) r) ;;
      match candidate with Err _ => first_artifact dir r names' e | _ => ret candidate end
  end.

Definition find_artifact (dir : tpath) (p : CatalogPack) (r : Release) : P (res string) :=
  tree_RejectSymlinks dir (cached_path dir p r) ;;;
  data <- try (readArtifact (cached_path dir p r) r) ;;
  match data with
  | Err e => first_artifact dir r [cp_Name p +:+ ".yaml"; cp_Name p +:+ ".yml"] e
  | _ => ret data
  end.

Fixpoint export_releases (sourceDir destDir : tpath) (l : list (CatalogPack * Release)) : P (list string) :=
  match l with
  | [] => ret []
  | (p, r) :: l' =>
      data <- find_artifact sourceDir p r ;;
      match data with
      | Err _ => export_releases sourceDir destDir l'
      | Panic q => mcall (Panic q)
      | Ok data =>
          mcall (VerifyArtifact r data) ;;;
          AtomicWriteFile destDir (artifact_path destDir r) data ;;;
          available <- export_releases sourceDir destDir l' ;;
          ret (Artifact r :: available)
      end
  end.

Definition ExportSnapshot (c : Catalog) (sourceDir destDir : tpath) : P unit :=
  mcall (Catalog_Validate c) ;;;
  if slen (c_envelope c) =? 0 then fail (errors_New "export requires the verified signed catalog envelope")
  else
    tree_MkdirAll destDir ;;;
    available <- export_releases sourceDir destDir (releases_of c) ;;
    AtomicWriteFile destDir (filepath_Join destDir ["catalog.json"]) (c_envelope c) ;;;
    AtomicWriteFile destDir (filepath_Join destDir ["bundle.json"])
      (MarshalIndent_bundle {| b_Version := 1; b_CatalogSHA256 := Digest (c_envelope c); b_Available := order_by str_le available |}).

(** ** [ImportSnapshot] *)

Fixpoint list_artifacts (listed : gset string) (l : list string) : res (gset string) :=
  match l with
  | [] => Ok listed
  | a :: l' =>
      if bool_decide (a ∈ listed) then Err (errors_New "offline bundle lists a duplicate artifact")
      else list_artifacts ({[a]} ∪ listed) l'
  end.

(** The first pass reads and verifies every artifact. *)
Fixpoint check_bundle (sourceDir : tpath) (listed : gset string) (l : list (CatalogPack * Release)) : P (gset string) :=
  match l with
  | [] => ret listed
  | (p, r) :: l' =>
      let source := artifact_path sourceDir r in
      tree_RejectSymlinks sourceDir source ;;;
      data <- try (readArtifact source r) ;;
      match data with
      | Err e =>
          if IsNotExist e then
            if bool_decide (Artifact r ∈ listed)
            then fail (Errorf "offline bundle lists missing artifact %s" [AStr (Artifact r)])
            else check_bundle sourceDir listed l'
          else fail e
      | Panic q => mcall (Panic q)
      | Ok data =>
          mcall (wrap_err (λ e, Errorf "artifact %s@%s: %w" [AStr (cp_Name p); AStr (Version r); AErr e]) (VerifyArtifact r data)) ;;;
          if negb (bool_decide (Artifact r ∈ listed))
          then fail (Errorf "offline bundle contains unlisted artifact %s" [AStr (Artifact r)])
          else check_bundle sourceDir (listed ∖ {[Artifact r]}) l'
      end
  end.

(** The second reads it again, and writes it to the store. *)
Definition import_release (sourceDir destDir : tpath) (pr : CatalogPack * Release) : P unit :=
  let '(p, r) := pr in
  let source := artifact_path sourceDir r in
  tree_RejectSymlinks sourceDir source ;;;
  data <- try (readArtifact source r) ;;
  match data with
  | Err e => if IsNotExist e then ret () else fail e
  | Panic q => mcall (Panic q)
  | Ok data => mcall (VerifyArtifact r data) ;;; AtomicWriteFile destDir (cached_path destDir p r) data
  end.

Definition ImportSnapshot (sourceDir destDir : tpath) : P unit :=
  let catalogPath := filepath_Join sourceDir ["catalog.json"] in
  tree_RejectSymlinks sourceDir catalogPath ;;;
  envelope <- tree_ReadFile catalogPath ;;
  c <- mcall (Verify envelope) ;;
  let bundlePath := filepath_Join sourceDir ["bundle.json"] in
  tree_RejectSymlinks sourceDir bundlePath ;;;
  r <- try (tree_ReadFile bundlePath) ;;
  bundleBytes <- mcall (wrap_err (λ e, Errorf "offline bundle index is missing: %w" [AErr e]) r) ;;
  b <- mcall (of_option (errors_New "invalid bundle index") (Unmarshal_bundle bundleBytes)) ;;
  if negb (b_Version b =? 1) || (b_CatalogSHA256 b <>s Digest envelope)
  then fail (errors_New "offline bundle index does not match signed catalog")
  else
    listed <- mcall (list_artifacts ∅ (b_Available b)) ;;
    rest <- check_bundle sourceDir listed (releases_of c) ;;
    if negb (bool_decide (rest = ∅)) then fail (errors_New "offline bundle lists artifacts absent from the signed catalog")
    else
      each (import_release sourceDir destDir) (releases_of c) ;;;
      AtomicWriteFile destDir (catalog_path destDir) envelope.
End market.

(** * Artifacts that ship with the program *)


Record seed_entry := { se_release : Release; se_content : string; se_filename : string }.

Section cache.
Context `{TreeEnv} `{SemVer} `{CatalogEnv} `{PackCodec} `{MarketEnv} `{MapOrder}.

Abbreviation P := (Prog TreeHost).

(** ** The directory and its manifest *)

(** Each name below [dir], and whether it is a directory. *)
Definition dir_entries (t : tree) (dir : tpath) : gmap string bool :=
  foldr (λ kv m, match below dir kv.1 with
                 | Some (name :: rest) =>
                     <[name := default false (m !! name) || match rest, kv.2 with [], NDir => true | [], _ => false | _, _ => true end]> m
                 | _ => m
                 end) ∅ (map_to_list t).

(** [os.ReadDir], in the order of the names *)
Definition tree_ReadDir (dir : tpath) : P (list (string * bool)) := tree_call (λ t,
  (n ← lookup_path t dir;
   match n with
   | NDir => Ok (order_by (λ a b, str_le a.1 b.1) (map_to_list (dir_entries t dir)))
   | _ => Err (errors_New "not a directory")
   end, t)).

Definition tree_manifest_path (dir : tpath) : tpath := filepath_Join dir [".marketplace"; "manifest.json"].

Definition tree_ReadManifest (dir : tpath) : P PackManifest :=
  r <- try (tree_ReadFile (tree_manifest_path dir)) ;;
  match r with
  | Err e => if IsNotExist e then ret EmptyManifest else fail e
  | Panic q => mcall (Panic q)
  | Ok b =>
      match Unmarshal_manifest zero_manifest b with
      | None => fail (errors_New "invalid parser pack manifest")
      | Some m => if negb (pm_Version m =? 1)
                  then fail (errors_New "unsupported parser pack manifest version") else ret m
      end
  end.

Definition tree_WriteManifest (dir : tpath) (m : PackManifest) : P unit :=
  b <- mcall (encodeManifest m) ;; tree_atomicWrite (tree_manifest_path dir) b.

(** ** What is adopted *)

Definition yaml_file (e : string * bool) : bool :=
  negb e.2 && (HasSuffix (ToLower e.1) ".yaml" || HasSuffix (ToLower e.1) ".yml").

(** The first release whose version and contents are those of the file. *)
Definition shipped_release (active : ParserPack) (data : string) (p : CatalogPack) : option Release :=
  List.find (λ r, (TrimPrefix (Version r) "v" =s TrimPrefix (mVersion (Metadata active)) "v") && is_ok (VerifyArtifact r data))
    (Releases p).

Definition seed_of (ps : list CatalogPack) (active : ParserPack) (filename data : string) (seed : gmap string seed_entry)
    : gmap string seed_entry :=
  foldl (λ seed p,
    if cp_Name p =s mName (Metadata active) then
      match shipped_release active data p with
      | Some r => <[cp_Name p := {| se_release := r; se_content := data; se_filename := filename |}]> seed
      | None => seed
      end
    else seed) seed ps.

(** The first loop over the files. *)
Fixpoint seed_loop (dir : tpath) (ps : list CatalogPack) (es : list (string * bool)) (seed : gmap string seed_entry)
    : P (gmap string seed_entry) :=
  match es with
  | [] => ret seed
  | e :: es' =>
      if negb (yaml_file e) then seed_loop dir ps es' seed
      else
        let file := filepath_Join dir [e.1] in
        tree_RejectSymlinks dir file ;;;
        data <- tree_ReadFile file ;;
        active <- mcall (LoadPack data) ;;
        seed_loop dir ps es' (seed_of ps active e.1 data seed)
  end.

Definition install (name filename version digest origin : string) : PackInstall :=
  {| pi_Name := name; pi_Filename := filename; pi_Version := version; pi_Digest := digest; pi_Origin := origin; pi_Pinned := false |}.
Definition add_install (name : string) (i : PackInstall) (m : PackManifest) : PackManifest :=
  {| pm_Version := pm_Version m; Entries := <[name := i]> (Entries m); History := History m |}.

(** The loop over the map of what was found, in any order. *)
Fixpoint adopt_loop (dir : tpath) (l : list (string * seed_entry)) (m : PackManifest) (changed : bool) : P (PackManifest * bool) :=
  match l with
  | [] => ret (m, changed)
  | (name, value) :: l' =>
      match Entries m !! name with
      | Some _ => adopt_loop dir l' m changed
      | None =>
          let r := se_release value in
          let m' := add_install name (install name (se_filename value) (Version r) (SHA256 r) "bundled") m in
          AtomicWriteFile dir (filepath_Join dir [".marketplace"; "artifacts"; name; Version r; "pack.yaml"]) (se_content value) ;;;
          adopt_loop dir l' m' true
      end
  end.

(** The second loop over the files. *)
Fixpoint custom_loop (dir : tpath) (es : list (string * bool)) (m : PackManifest) (changed : bool) : P (PackManifest * bool) :=
  match es with
  | [] => ret (m, changed)
  | e :: es' =>
      if negb (yaml_file e) then custom_loop dir es' m changed
      else
        data <- tree_ReadFile (filepath_Join dir [e.1]) ;;
        pack <- mcall (LoadPack data) ;;
        let name := mName (Metadata pack) in
        match Entries m !! name with
        | Some _ => custom_loop dir es' m changed
        | None =>
            custom_loop dir es' (add_install name (install name e.1 (mVersion (Metadata pack)) (Digest data) "custom") m) true
        end
  end.

Definition CacheBundledArtifacts (dir : tpath) : P unit :=
  c <- mcall LoadCatalog ;;
  manifest <- tree_ReadManifest dir ;;
  es <- tree_ReadDir dir ;;
  seed <- seed_loop dir (c_Packs c) es ∅ ;;
  '(m, changed) <- adopt_loop dir (map_range seed) manifest false ;;
  '(m', changed') <- custom_loop dir es m changed ;;
  if changed' then tree_WriteManifest dir m' else ret ().
End cache.
