(* ===== verification/MarketSamples.v ===== *)
(** * A small catalogue, signed in a toy scheme, for the witnesses of the marketplace *)

From S2P Require Import Prelude GoStrings GoPath Model Disk FileTree PackStore PackSamples Catalog Market.

#[export] Instance market_codec : PackCodec := {|
  yaml_Decode := sample_yaml;
  regexp_Compile := λ _, Err (errors_New "no expressions");
  sha256_hex := λ s, str_take 64 (hex_EncodeToString s +:+ of_bytes (replicate 64 "0"%char));
  Marshal_rollback := @Marshal_rollback sample_codec; Unmarshal_rollback := @Unmarshal_rollback sample_codec;
  Marshal_transaction := @Marshal_transaction sample_codec; Unmarshal_transaction := @Unmarshal_transaction sample_codec;
  MarshalIndent_manifest := @MarshalIndent_manifest sample_codec; Unmarshal_manifest := @Unmarshal_manifest sample_codec |}.

(** Versions in the order of their text, without pre-releases; the major version is up to the first dot. *)
#[export, refine] Instance sample_semver : SemVer := {|
  semver_IsValid v := match v with String c (String d t) => (c =b "v"%char) && is_digit d && all_bytes version_byte t | _ => false end;
  semver_Compare v w := if v =s w then 0 else if str_le v w then -1 else 1;
  semver_Major v := default v (head (Split v "."));
  semver_Prerelease _ := "" |}.
Proof.
  - intros v w. rewrite (String.eqb_sym w v). destruct (v =s w); [by left|].
    destruct (str_le_total v w) as [->| ->]; [left|right]; lia.
  - intros u v w. destruct (String.eqb_spec u v) as [->|]; [done|].
    destruct (str_le u v) eqn:E1; [|lia]. intros _. destruct (String.eqb_spec v w) as [->|]; [by rewrite E1; destruct (_ =s _)|].
    destruct (str_le v w) eqn:E2; [|lia]. intros _. rewrite (str_le_trans u v w) by done. by destruct (_ =s _).
  - intros v w. rewrite (String.eqb_sym w v). destruct (String.eqb_spec v w); [done|].
    destruct (str_le v w) eqn:E1, (str_le w v) eqn:E2; try lia.
    + by destruct (str_le_antisym v w).
    + destruct (str_le_total v w); congruence.
  - intros [|c [|d t]]; [done..|]. intros [[->%Ascii.eqb_eq ?]%andb_prop ?]%andb_prop. by exists d, t.
Defined.

Lemma sorted_impl {A} (R R' : A → A → Prop) l : (∀ x y, R x y → R' x y) → StronglySorted R l → StronglySorted R' l.
Proof. induction 2 as [|x l Hs IH Hx]; constructor; [done|]. eapply Forall_impl; [exact Hx|]. auto. Qed.

Definition sample_release (version data : string) (withdrawn : bool) : Release :=
  {| Version := version; Artifact := "packs/demo/" +:+ version +:+ "/pack.yaml"; SHA256 := sha256_hex data; Size := slen data;
     Changelog := ""; Withdrawn := withdrawn; MinWORM := "0.1.0"; RequiredDecoders := ["JSON"]; PublishedAt := "";
     PackAPI := "worm.io/v1"; OCSF := "1.3.0" |}.
Definition demo : CatalogPack :=
  {| cp_Name := "demo"; cp_Description := ""; cp_Publisher := "WORM Team"; cp_Category := "other"; cp_Format := "json";
     cp_Vendor := ""; cp_Product := ""; cp_Models := []; cp_Tags := [];
     Releases := [sample_release "1.0.0" "demo@1.0.0" false; sample_release "1.1.0" "demo@1.1.0" false;
                  sample_release "2.0.0" "demo@2.0.0" true] |}.
Definition sample_catalog : Catalog := {| c_Version := 1; c_Generated := ""; c_Packs := [demo]; c_envelope := "" |}.
(** The key, the payload [worm] and its signature. *)
Definition sample_envelope : string := OwnerSigningKeyID +:+ "@d29ybQ==@d29ybQ==".

#[export, refine] Instance sample_catalog_env : CatalogEnv := {|
  ed25519_Verify key payload sig := payload =s sig;
  Unmarshal_Envelope s := match Split s "@" with [k; p; sg] => Some {| KeyID := k; Payload := p; Signature := sg |} | _ => None end;
  Unmarshal_Catalog s := if s =s "worm" then Some sample_catalog else None;
  catalog_time_Parse _ _ := None;
  sort_Slice A less l := order_by (λ x y, negb (less y x)) l |}.
Proof.
  - done.
  - intros A less l. apply order_by_perm.
  - intros A less l Ha Ht. eapply sorted_impl; [|apply order_by_sorted].
    + intros x y. apply negb_true_iff.
    + intros x y. rewrite !negb_true_iff. destruct (less y x) eqn:E; [right; by apply Ha|by left].
    + intros x y z. rewrite !negb_true_iff. apply Ht.
Defined.

Lemma sample_verified : Verify sample_envelope = Ok (with_envelope sample_envelope sample_catalog).
Proof. vm_compute. reflexivity. Qed.

(** ** A working disk, a codec for the index, and a network that does not answer *)

(** A name longer than those of the tree. *)
Definition tree_temp (t : tree) (dir : tpath) : string :=
  of_bytes (replicate (S (foldr Nat.max 0%nat ((λ kv : tpath * node, String.length (List.last kv.1 "")) <$> map_to_list t))) "0"%char).

#[export, refine] Instance working_tree : TreeEnv := {| call_fault _ := Works; temp_in := tree_temp |}.
Proof.
  - intros t dir. unfold tree_temp. induction (S _) as [|n IH]; [done|]. by simpl.
  - intros t dir. destruct (t !! _) as [n|] eqn:E; [|done]. exfalso.
    set (lens := (λ kv : tpath * node, String.length (List.last kv.1 "")) <$> map_to_list t).
    assert (String.length (".worm-tmp-" +:+ tree_temp t dir) ∈ lens) as Hin.
    { apply list_elem_of_fmap. exists (dir ++ [".worm-tmp-" +:+ tree_temp t dir], n). split; [cbn [fst]; by rewrite List.last_last|by apply elem_of_map_to_list]. }
    apply max_list_le in Hin. rewrite length_app_str in Hin. unfold tree_temp in Hin. fold lens in Hin. rewrite length_of_bytes, length_replicate in Hin. simpl in Hin. lia.
Defined.

Definition sample_index (b : bundle) : string :=
  enc_fields ((if b_Version b =? 1 then "1" else "0") :: b_CatalogSHA256 b :: b_Available b).

#[export] Instance sample_market : MarketEnv := {|
  seedCatalog := sample_envelope;
  MarshalIndent_bundle := sample_index;
  Unmarshal_bundle s := match dec_fields "" s with
                        | v :: sha :: avail => Some {| b_Version := if v =s "1" then 1 else 0; b_CatalogSHA256 := sha; b_Available := avail |}
                        | _ => None
                        end;
  url := string; url_Parse s := Ok s; url_Scheme _ := "https"; url_Host _ := ""; url_ResolveReference b r := b +:+ r; url_String u := u;
  http_Do _ _ _ := Err (errors_New "no route to host") |}.

(** ** Two stores and a stick *)

Definition old_store : tpath := ["srv"; "old"].
Definition new_store : tpath := ["srv"; "new"].
Definition stick : tpath := ["media"; "stick"].
(** One artifact is in the cache, and one is a pack file. *)
Definition cached_demo : tpath := [".marketplace"; "artifacts"; "demo"; "1.0.0"; "pack.yaml"].
Definition sample_tree : tree := <[old_store ++ ["demo.yaml"] := NFile "demo@1.1.0"]> (<[old_store ++ cached_demo := NFile "demo@1.0.0"]> ∅).
Definition sample_host : TreeHost := {| th_files := sample_tree; th_calls := 0 |}.
Definition sample_verified_catalog : Catalog := with_envelope sample_envelope sample_catalog.

(** The stick after an export. *)
Definition stick_host : TreeHost := (ExportSnapshot sample_verified_catalog old_store stick sample_host).2.
