(* ===== verification/Parquet.v ===== *)
(** * [internal/output/parquet.go]: the partitioned Parquet sink

    Events wait in a buffer for each partition; a flush writes the buffer to a file of its
    own, under a random name, and enters it in the manifest.  The files are those of
    FileTree.v, where every call may be refused, or have its effect and report an error.
    The Parquet format itself, JSON and SHA-256 are parameters. *)

From S2P Require Import MarketSamples.
From S2P Require Import Prelude GoStrings GoNum GoTime GoPath GoJson JsonText Disk FileTree Model Samples.
From S2P Require Export Monad Ndjson HttpSink Sinks.

#[local] Open Scope monad_scope.

Record ParquetOutputConfig := {
  pq_Name : string; pq_Path : tpath; pq_PartitionBy : list string; pq_MaxRowsPerFile : Z; pq_Compression : string; pq_Manifest : bool }.

Record ManifestFile := {
  mf_RelativePath : string; mf_PartitionKey : string; mf_RowCount : Z; mf_SizeBytes : Z; mf_SHA256 : string;
  mf_MinTime : time; mf_MaxTime : time; mf_SchemaVersion : string }.

Record ParquetManifest := { mn_Files : list ManifestFile; mn_TotalRows : Z; mn_TotalBytes : Z; mn_LastUpdated : time }.

Record parquetRow := {
  row_EventID : string; row_RawID : string; row_RawSHA256 : string; row_RecordOrdinal : Z; row_SourceCategory : string;
  row_SourceID : string; row_SchemaVersion : string; row_ReceivedTimeMS : Z; row_OCSFJSON : string; row_EventJSON : string }.

Inductive Codec := Zstd | Snappy | Gzip.

Class ParquetEnv := {
  part_id : nat → string;                                       (* 8 random bytes, in hexadecimal *)
  marshal_event_json : NormalizedEvent → res string;
  marshal_ocsf_json : fields → res string;
  parquet_write : nat → option Codec → list parquetRow → string * option error;  (* what Write and Close leave in the file *)
  parquet_read : string → option (list parquetRow);             (* what a reader of the format finds *)
  file_sha256 : string → string;
  marshal_manifest : ParquetManifest → res string;
  unmarshal_manifest : string → ParquetManifest;                (* what it makes of the zero manifest, its error ignored *)
  manifest_now : nat → time;
  float_text : f64 → string;
}.

Record ParquetSink := { pq_buffers : gmap string (list NormalizedEvent); pq_closed : bool; pq_host : TreeHost }.

Definition NewParquetConfig (cfg : ParquetOutputConfig) : ParquetOutputConfig := {|
  pq_Name := pq_Name cfg; pq_Path := pq_Path cfg;
  pq_PartitionBy := match pq_PartitionBy cfg with [] => ["event_date"; "category_name"] | by_ => by_ end;
  pq_MaxRowsPerFile := if pq_MaxRowsPerFile cfg <=? 0 then 1000 else pq_MaxRowsPerFile cfg;
  pq_Compression := pq_Compression cfg; pq_Manifest := pq_Manifest cfg |}.
(** [NewParquetSink], over the files of the host. *)
Definition NewParquetSink (h : TreeHost) : ParquetSink := {| pq_buffers := ∅; pq_closed := false; pq_host := h |}.

(** [t.UTC().Format("2006-01-02")] *)
Definition Format_day (t : time) : string := let '(y, m, d) := utc_date t in pad 4 y +:+ "-" +:+ pad 2 m +:+ "-" +:+ pad 2 d.

(** [filepath.Join] of texts *)
Definition Join_texts (elems : list string) : string :=
  match List.filter (λ e, e <>s "") elems with [] => "" | l => path_Clean (Join l "/") end.

(** [filepath.Rel] of two clean absolute paths *)
Fixpoint Rel (root target : tpath) : string :=
  match root, target with
  | r :: root', t :: target' =>
      if r =s t then Rel root' target' else Join (replicate (length root) ".." ++ target)%list "/"
  | _, _ => match (replicate (length root) ".." ++ target)%list with [] => "." | l => Join l "/" end
  end.

Definition parquetCompression (name : string) : res (option Codec) :=
  let n := ToLower name in
  if (n =s "") || (n =s "zstd") then Ok (Some Zstd)
  else if n =s "snappy" then Ok (Some Snappy)
  else if n =s "gzip" then Ok (Some Gzip)
  else if (n =s "none") || (n =s "uncompressed") then Ok None
  else Err (Errorf "unsupported parquet compression %q" [AStr name]).

(** The mapping of [strings.Map]: an invalid byte becomes U+FFFD. *)
Definition safe_rune (r : rune) : string := if (r.1 =? 47) || (r.1 =? 92) || (r.1 =? 0) then "_" else clean r.
Definition safe_value (value : string) : string := String.concat "" (safe_rune <$> runes value).

Section parquet.
Context `{TreeEnv} `{ParquetEnv} (cfg : ParquetOutputConfig).

(** ** [computePartitionKey] *)

Definition partition_value (event : NormalizedEvent) (field : string) : string :=
  let value :=
    if field =s "event_date" then Format_day (ReceivedTime (Worm event))
    else if (field =s "category_name") || (field =s "source_category") then SourceCategory (Worm event)
    else match OCSF event !! field with Some v => sprint_v float_text v | None => "" end in
  safe_value (if value =s "" then "unknown" else value).

Definition partition_parts (event : NormalizedEvent) : list string :=
  (λ field, field +:+ "=" +:+ partition_value event field) <$> pq_PartitionBy cfg.
Definition computePartitionKey (event : NormalizedEvent) : string := Join_texts (partition_parts event).

(** ** The files *)

Abbreviation P := (Prog TreeHost).

Definition wrapped {A} (format : string) (m : P A) : P A :=
  r <- try m ;; match r with Err e => fail (Errorf format [AErr e]) | _ => mcall r end.

Definition random_id : P string := λ h, (Ok (part_id (th_calls h)), {| th_files := th_files h; th_calls := S (th_calls h) |}).
Definition Now_manifest : P time := λ h, (Ok (manifest_now (th_calls h)), {| th_files := th_files h; th_calls := S (th_calls h) |}).

(** [os.OpenFile(path, O_CREATE|O_WRONLY|O_TRUNC)] *)
Definition open_trunc (p : tpath) : P unit := tree_call (λ t,
  match lookup_path t p with
  | Ok NDir => (Err (errors_New "is a directory"), t)
  | Err e => if IsNotExist e then (Ok (), <[p := NFile ""]> t) else (Err e, t)
  | Ok _ => (Ok (), <[p := NFile ""]> t)
  | Panic q => (Panic q, t)
  end).

(** [w.Write(rows)] and [w.Close()] of the writer over the open file *)
Definition parquet_out (p : tpath) (codec : option Codec) (rows : list parquetRow) : P unit := λ h,
  let '(data, err) := parquet_write (th_calls h) codec rows in
  (match err with Some e => Err e | None => Ok () end, {| th_files := <[p := NFile data]> (th_files h); th_calls := S (th_calls h) |}).

(** [f.Sync()], [f.Close()], of which the first error counts, after [out]. *)
Definition synced (out : P unit) : P unit :=
  r <- try (out ;;; tree_nop) ;;
  c <- try tree_nop ;;
  mcall r ;;; mcall c.

(** [replaceFile]; [syncDirectory] *)
Definition replaceFile (src dst : tpath) : P unit := tree_Rename src dst.
Definition syncDirectory (dir : tpath) : P unit :=
  tree_call (λ t, (_ ← lookup_path t dir; Ok (), t)) ;;;    (* Open *)
  r <- try tree_nop ;; _ <- try tree_nop ;; mcall r.

(** ** [updateManifest] *)

Definition manifest_path : tpath := pq_Path cfg ++ ["manifest.json"].
Definition manifest_temp : tpath := pq_Path cfg ++ ["manifest.json.tmp"].
Definition zero_manifest : ParquetManifest := {| mn_Files := []; mn_TotalRows := 0; mn_TotalBytes := 0; mn_LastUpdated := 0 |}.

Definition add_file (meta : ManifestFile) (now : time) (m : ParquetManifest) : ParquetManifest := {|
  mn_Files := mn_Files m ++ [meta]; mn_TotalRows := mn_TotalRows m + mf_RowCount meta;
  mn_TotalBytes := mn_TotalBytes m + mf_SizeBytes meta; mn_LastUpdated := now |}.

Definition updateManifest (meta : ManifestFile) : P unit :=
  found <- try (tree_ReadFile manifest_path) ;;
  let manifest := match found with Ok data => unmarshal_manifest data | _ => zero_manifest end in
  now <- Now_manifest ;;
  data <- mcall (marshal_manifest (add_file meta now manifest)) ;;
  open_trunc manifest_temp ;;;
  synced (tree_Write manifest_temp data) ;;;
  replaceFile manifest_temp manifest_path ;;;
  syncDirectory (pq_Path cfg).

(** ** [flushPartition] *)

(** The rows, and the times and the version of the manifest, event by event. *)
Record Batch := { bt_rows : list parquetRow; bt_min : time; bt_max : time; bt_schema : string }.

Definition row_of (evt : NormalizedEvent) : res parquetRow :=
  eventJSON ← marshal_event_json evt;
  ocsfJSON ← marshal_ocsf_json (OCSF evt);
  let w := Worm evt in
  Ok {| row_EventID := EventID w; row_RawID := we_RawID w; row_RawSHA256 := we_RawSHA256 w; row_RecordOrdinal := we_RecordOrdinal w;
        row_SourceCategory := SourceCategory w; row_SourceID := SourceID w; row_SchemaVersion := SchemaVersion w;
        row_ReceivedTimeMS := UnixMilli (ReceivedTime w); row_OCSFJSON := ocsfJSON; row_EventJSON := eventJSON |}.

Definition add_event (first : bool) (evt : NormalizedEvent) (b : Batch) : res Batch :=
  row ← row_of evt;
  let t := ReceivedTime (Worm evt) in
  Ok {| bt_rows := bt_rows b ++ [row];
        bt_min := if first || (t <? bt_min b) then t else bt_min b;
        bt_max := if first || (bt_max b <? t) then t else bt_max b;
        bt_schema := if SchemaVersion (Worm evt) =s "" then bt_schema b else SchemaVersion (Worm evt) |}.

Fixpoint add_events (first : bool) (events : list NormalizedEvent) (b : Batch) : res Batch :=
  match events with
  | [] => Ok b
  | evt :: events' => b' ← add_event first evt b; add_events false events' b'
  end.
Definition batch_of (events : list NormalizedEvent) : res Batch :=
  add_events true events {| bt_rows := []; bt_min := 0; bt_max := 0; bt_schema := "1.3.0" |}.

Definition part_name (id suffix : string) : string := "part-" +:+ id +:+ suffix.

(** The entry of a file in the manifest. *)
Definition manifest_entry (partKey : string) (final : tpath) (count : Z) (data : string) (b : Batch) : ManifestFile := {|
  mf_RelativePath := Rel (pq_Path cfg) final; mf_PartitionKey := partKey; mf_RowCount := count; mf_SizeBytes := slen data;
  mf_SHA256 := file_sha256 data; mf_MinTime := bt_min b; mf_MaxTime := bt_max b; mf_SchemaVersion := bt_schema b |}.

(** From the reading of the committed file: it is removed where the manifest cannot be written. *)
Definition enter_manifest (partKey : string) (final : tpath) (count : Z) (b : Batch) : P unit :=
  data <- tree_ReadFile final ;;
  if pq_Manifest cfg then
    r <- try (updateManifest (manifest_entry partKey final count data b)) ;;
    match r with
    | Err e =>
        d <- try (tree_Remove final) ;;
        match d with
        | Err removeErr => fail (Errorf "update parquet manifest: %w (could not remove uncommitted file: %v)" [AErr e; AVErr removeErr])
        | _ => fail e
        end
    | _ => mcall r
    end
  else ret ().

(** From the opening of the temporary file. *)
Definition commit_part (targetDir : tpath) (id partKey : string) (count : Z) (codec : option Codec) (b : Batch) : P unit :=
  let tmpPath := targetDir ++ [part_name id ".tmp"] in
  let finalPath := targetDir ++ [part_name id ".parquet"] in
  wrapped "open parquet temp file: %w" (open_trunc tmpPath) ;;;
  r <- try (synced (parquet_out tmpPath codec (bt_rows b))) ;;
  match r with
  | Err e => _ <- try (tree_Remove tmpPath) ;; fail (Errorf "write parquet: %w" [AErr e])
  | _ =>
      wrapped "commit parquet: %w" (replaceFile tmpPath finalPath) ;;;
      wrapped "sync parquet directory: %w" (syncDirectory (pq_Path cfg)) ;;;
      enter_manifest partKey finalPath count b
  end.

Definition flushPartition (partKey : string) (events : list NormalizedEvent) : P unit :=
  match events with
  | [] => ret ()
  | _ =>
      let targetDir := filepath_Join (pq_Path cfg) [partKey] in
      wrapped "create partition: %w" (tree_MkdirAll targetDir) ;;;
      id <- random_id ;;
      codec <- mcall (parquetCompression (pq_Compression cfg)) ;;
      b <- mcall (batch_of events) ;;
      commit_part targetDir id partKey (Z.of_nat (length events)) codec b
  end.

(** ** The sink *)

Definition set_buffers (f : gmap string (list NormalizedEvent) → gmap string (list NormalizedEvent)) (s : ParquetSink) : ParquetSink :=
  {| pq_buffers := f (pq_buffers s); pq_closed := pq_closed s; pq_host := pq_host s |}.
Definition buffered (partKey : string) (s : ParquetSink) : list NormalizedEvent := default [] (pq_buffers s !! partKey).
Definition on_lake {A} (m : P A) : Prog ParquetSink A := λ s,
  let '(r, h) := m (pq_host s) in (r, {| pq_buffers := pq_buffers s; pq_closed := pq_closed s; pq_host := h |}).

(** The buffer is taken out before the write, and put back in front where it fails. *)
Definition flushBuffered (partKey : string) : Prog ParquetSink unit := λ s,
  let events := buffered partKey s in
  let '(r, s1) := on_lake (flushPartition partKey events) (set_buffers (delete partKey) s) in
  match r with
  | Err e => (Err e, set_buffers (λ b, <[partKey := events ++ default [] (b !! partKey)]> b) s1)
  | _ => (r, s1)
  end.

Definition same_event (event queued : NormalizedEvent) : bool := EventID (Worm queued) =s EventID (Worm event).

Definition Parquet_Emit (event : NormalizedEvent) : Prog ParquetSink unit := λ s,
  if pq_closed s then (Err (errors_New "parquet sink is closed"), s)
  else
    let partKey := computePartitionKey event in
    if existsb (same_event event) (buffered partKey s) then (Ok (), s)
    else
      let s1 := set_buffers <[partKey := buffered partKey s ++ [event]]> s in
      if pq_MaxRowsPerFile cfg <=? Z.of_nat (length (buffered partKey s1)) then flushBuffered partKey s1 else (Ok (), s1).

Fixpoint flush_all (partitions : list string) : Prog ParquetSink unit :=
  match partitions with
  | [] => ret ()
  | partKey :: rest => flushBuffered partKey ;;; flush_all rest
  end.
(** [order]: that in which Go ranges over the map *)
Context (order : gmap string (list NormalizedEvent) → list string).
Definition Parquet_Flush : Prog ParquetSink unit := λ s, flush_all (order (pq_buffers s)) s.
Definition Parquet_Close : Prog ParquetSink unit := λ s,
  Parquet_Flush {| pq_buffers := pq_buffers s; pq_closed := true; pq_host := pq_host s |}.
End parquet.

Section names.
Context `{ParquetEnv}.

Definition part_path (dir : tpath) (n : nat) : tpath := dir ++ [part_name (part_id n) ".parquet"].

Lemma part_path_inj dir dir' n n' :
  (∀ i j, part_id i = part_id j → i = j) → part_path dir n = part_path dir' n' → n = n'.
Proof.
  intros Hi [_ E]%app_inj_tail. apply app_inj_l_str, (f_equal bytes_of) in E. rewrite !bytes_of_app in E.
  apply app_inv_tail, (f_equal of_bytes) in E. rewrite !of_bytes_of in E. by apply Hi.
Qed.

(** Neither the temporary file of a part nor the manifest bears the name of a part. *)
Lemma part_not_temp dir dir' n id : part_path dir n ≠ dir' ++ [part_name id ".tmp"].
Proof.
  intros [_ E]%app_inj_tail. unfold part_name in E. apply app_inj_l_str, (f_equal (λ s, reverse (bytes_of s))) in E.
  rewrite !bytes_of_app, !reverse_app in E. done.
Qed.
Lemma part_not_other dir dir' n name : HasPrefix name "p" = false → part_path dir n ≠ dir' ++ [name].
Proof. intros Hn [_ <-]%app_inj_tail. discriminate Hn. Qed.
End names.

(** What the sink relies on: a written file is read back, and so is a manifest; JSON does
    not panic; 64 random bits do not repeat. *)
Class ParquetLaws `{ParquetEnv} := {
  parquet_read_write n codec rows data : parquet_write n codec rows = (data, None) → parquet_read data = Some rows;
  unmarshal_marshal_manifest m data : marshal_manifest m = Ok data → unmarshal_manifest data = m;
  marshal_event_panicless evt : no_panic (marshal_event_json evt);
  marshal_ocsf_panicless f : no_panic (marshal_ocsf_json f);
  marshal_manifest_panicless m : no_panic (marshal_manifest m);
  part_id_inj i j : part_id i = part_id j → i = j;
}.

Definition event_ids (events : list NormalizedEvent) : list string := (λ e, EventID (Worm e)) <$> events.

Section lake.
Context `{TreeEnv} `{ParquetLaws} (cfg : ParquetOutputConfig).
Abbreviation P := (Prog TreeHost).

(** ** What a call may change: of the parts, only the one of draw [n] *)

Record spares (n : nat) (h h' : TreeHost) : Prop := {
  sp_parts dir m : m ≠ n → th_files h' !! part_path dir m = th_files h !! part_path dir m;
  sp_calls : (th_calls h ≤ th_calls h')%nat }.
#[export] Instance spares_preorder n : PreOrder (spares n).
Proof.
  split; [by intros h|]. intros h1 h2 h3 [P1 C1] [P2 C2]. split; [|lia]. intros dir m Hm. by rewrite P2, P1.
Qed.

Lemma spares_call (n : nat) {A} (f : tree → res A * tree) :
  (∀ t dir (m : nat), m ≠ n → (f t).2 !! part_path dir m = t !! part_path dir m) → keeps (spares n) (tree_call f).
Proof.
  intros Hf h. specialize (Hf (th_files h)). unfold tree_call. destruct (f (th_files h)) as [r t] eqn:E; cbn in Hf.
  destruct (call_fault _); split; cbn; rewrite ?E; try lia; auto.
Qed.

(** A path that is not the name of another part. *)
Definition free (n : nat) (p : tpath) : Prop := ∀ dir (m : nat), m ≠ n → part_path dir m ≠ p.
Lemma free_temp n dir id : free n (dir ++ [part_name id ".tmp"]).
Proof. intros dir' m _. apply part_not_temp. Qed.
Lemma free_part n dir : free n (part_path dir n).
Proof. intros dir' m Hm E%(part_path_inj _ _ _ _ part_id_inj). done. Qed.
Lemma free_manifest n : free n (manifest_path cfg).
Proof. intros dir m _. by apply part_not_other. Qed.
Lemma free_manifest_temp n : free n (manifest_temp cfg).
Proof. intros dir m _. by apply part_not_other. Qed.

Lemma spares_nop n : keeps (spares n) tree_nop.
Proof. by apply spares_call. Qed.
Lemma spares_ReadFile n p : keeps (spares n) (tree_ReadFile p).
Proof. by apply spares_call. Qed.
Lemma spares_MkdirAll n p : keeps (spares n) (tree_MkdirAll p).
Proof. by apply spares_call. Qed.
Lemma spares_Write n p data : free n p → keeps (spares n) (tree_Write p data).
Proof. intros Hp. apply spares_call. intros t dir m Hm. cbn. rewrite lookup_insert_ne; [done|]. by apply not_eq_sym, Hp. Qed.
Lemma spares_open n p : free n p → keeps (spares n) (open_trunc p).
Proof.
  intros Hp. apply spares_call. intros t dir m Hm. repeat case_match; cbn; try done; rewrite lookup_insert_ne; try done; by apply not_eq_sym, Hp.
Qed.
Lemma spares_Remove n p : free n p → keeps (spares n) (tree_Remove p).
Proof.
  intros Hp. apply spares_call. intros t dir m Hm. unfold remove_in. repeat case_match; cbn; try done;
    rewrite lookup_delete_ne; try done; by apply not_eq_sym, Hp.
Qed.
Lemma spares_Rename n p q : free n p → free n q → keeps (spares n) (tree_Rename p q).
Proof.
  intros Hp Hq. apply spares_call. intros t dir m Hm. unfold rename_in. repeat case_match; cbn; try done;
    rewrite lookup_insert_ne, lookup_delete_ne; try done; apply not_eq_sym; auto.
Qed.
Lemma spares_out n p codec rows : free n p → keeps (spares n) (parquet_out p codec rows).
Proof.
  intros Hp h. unfold parquet_out. destruct (parquet_write _ _ _) as [data err]. split; cbn; [|lia].
  intros dir m Hm. rewrite lookup_insert_ne; [done|]. by apply not_eq_sym, Hp.
Qed.
Lemma spares_Now n : keeps (spares n) Now_manifest.
Proof. intros h. split; cbn; [done|lia]. Qed.
#[local] Hint Resolve spares_nop spares_ReadFile spares_MkdirAll spares_Write spares_open spares_Remove spares_Rename spares_out spares_Now : worm.
#[local] Hint Resolve free_temp free_part free_manifest free_manifest_temp : worm.

Lemma spares_wrapped n {A} format (m : P A) : keeps (spares n) m → keeps (spares n) (wrapped format m).
Proof. intros Hm. unfold wrapped. keeps_tac. Qed.
Lemma spares_synced n (out : P unit) : keeps (spares n) out → keeps (spares n) (synced out).
Proof. intros Ho. unfold synced. keeps_tac. Qed.
Lemma spares_syncDirectory n dir : keeps (spares n) (syncDirectory dir).
Proof. unfold syncDirectory. apply keeps_bind; [typeclasses eauto|by apply spares_call|intros _]. keeps_tac. Qed.
#[local] Hint Resolve spares_wrapped spares_synced spares_syncDirectory : worm.
Lemma spares_updateManifest n meta : keeps (spares n) (updateManifest cfg meta).
Proof. unfold updateManifest, replaceFile. keeps_tac. Qed.
#[local] Hint Resolve spares_updateManifest : worm.
Lemma spares_enter n key dir count b : keeps (spares n) (enter_manifest cfg key (part_path dir n) count b).
Proof. unfold enter_manifest. keeps_tac. Qed.
#[local] Hint Resolve spares_enter : worm.

(** ** What a call that succeeded leaves *)

Lemma wrapped_ok {A} format (m : P A) h a h' : wrapped format m h = (Ok a, h') → m h = (Ok a, h').
Proof. unfold wrapped, bind, try. destruct (m h) as [[x|e|p] h1]; [done..|done]. Qed.

Lemma synced_ok (out : P unit) h h' : synced out h = (Ok (), h') → ∃ h1, out h = (Ok (), h1) ∧ th_files h' = th_files h1.
Proof.
  intros (r & h1 & [E1 _]%try_ok & (c & h2 & E2%try_nop & ([] & h3 & E3 & E4)%bind_ok)%bind_ok)%bind_ok.
  injection E3 as -> ->. injection E4 as -> ->. apply bind_ok in E1 as ([] & h0 & E0 & E1%tree_nop_ok). exists h0. split; [done|congruence].
Qed.

Lemma syncDirectory_ok dir h h' : syncDirectory dir h = (Ok (), h') → th_files h' = th_files h.
Proof.
  intros (? & h1 & E1%tree_call_ok & (r & h2 & E2%try_nop & (? & h3 & E3%try_nop & [= _ <-])%bind_ok)%bind_ok)%bind_ok.
  injection E1 as _ E1. congruence.
Qed.

Lemma replaceFile_ok p q h h' :
  replaceFile p q h = (Ok (), h') → ∃ n, th_files h !! p = Some n ∧ th_files h' = <[q := n]> (delete p (th_files h)).
Proof. intros E%tree_call_ok. unfold rename_in in E. destruct (th_files h !! p) as [n|]; [exists n|done]. by repeat case_match; simplify_eq. Qed.

Lemma updateManifest_ok meta h h' :
  updateManifest cfg meta h = (Ok (), h') →
  ∃ text, th_files h' !! manifest_path cfg = Some (NFile text) ∧ meta ∈ mn_Files (unmarshal_manifest text).
Proof.
  intros (found & h1 & _ & (now & h2 & _ & (data & h3 & [Hm _]%pair_eq & E)%bind_ok)%bind_ok)%bind_ok.
  apply bind_ok in E as (? & h4 & _ & ([] & h5 & (h0 & Hw%tree_call_ok & Hs)%synced_ok & ([] & h6 & Hr & Hd%syncDirectory_ok)%bind_ok)%bind_ok).
  injection Hw as Hw. apply replaceFile_ok in Hr as (n & Hn & Hr). exists data.
  rewrite Hs, <- Hw, lookup_insert_eq in Hn. injection Hn as <-. rewrite Hd, Hr, lookup_insert_eq. split; [done|].
  rewrite (unmarshal_marshal_manifest _ _ Hm). cbn. apply elem_of_app. right. by apply list_elem_of_singleton.
Qed.

Lemma ReadFile_ok p h data h' :
  tree_ReadFile p h = (Ok data, h') → th_files h' = th_files h ∧ ∀ c, th_files h !! p = Some (NFile c) → data = c.
Proof.
  intros E%tree_call_ok. injection E as E Hf. split; [done|]. intros c Hc. unfold lookup_path in E. rewrite Hc in E.
  destruct (blocked _ _ _); [done|]. by injection E.
Qed.

Definition listed (h : TreeHost) (meta : ManifestFile) : Prop :=
  ∃ text, th_files h !! manifest_path cfg = Some (NFile text) ∧ meta ∈ mn_Files (unmarshal_manifest text).

Lemma enter_manifest_ok key dir n count b data h h' :
  th_files h !! part_path dir n = Some (NFile data) →
  enter_manifest cfg key (part_path dir n) count b h = (Ok (), h') →
  th_files h' !! part_path dir n = Some (NFile data)
  ∧ (pq_Manifest cfg = true → listed h' (manifest_entry cfg key (part_path dir n) count data b)).
Proof.
  intros Hd (data' & h1 & [Hf Hc]%ReadFile_ok & E)%bind_ok. rewrite (Hc _ Hd) in E. rewrite <- Hf in Hd.
  destruct (pq_Manifest cfg); [|by injection E as <-].
  apply bind_ok in E as (r & h2 & [E1 _]%try_ok & E2). destruct r as [[]|e|q].
  - injection E2 as <-. split; [|intros _; by apply updateManifest_ok in E1].
    pose proof (spares_updateManifest (S n) (manifest_entry cfg key (part_path dir n) count data b) h1) as Hs. rewrite E1 in Hs. by rewrite (sp_parts _ _ _ Hs) by lia.
  - apply bind_ok in E2 as ([[]| |] & ? & _ & ?); done.
  - done.
Qed.

(** The committed file holds the rows, and the manifest lists it. *)
Definition committed (key : string) (dir : tpath) (n : nat) (count : Z) (b : Batch) (h : TreeHost) : Prop :=
  ∃ data, th_files h !! part_path dir n = Some (NFile data) ∧ parquet_read data = Some (bt_rows b)
    ∧ (pq_Manifest cfg = true → listed h (manifest_entry cfg key (part_path dir n) count data b)).

Lemma commit_part_ok dir n key count codec b h h' :
  commit_part cfg dir (part_id n) key count codec b h = (Ok (), h') → committed key dir n count b h'.
Proof.
  intros (? & h1 & _ & (r & h2 & [E1 Hnp]%try_ok & E)%bind_ok)%bind_ok. destruct r as [[]|e|q].
  - apply synced_ok in E1 as (h0 & Ho & Hs). unfold parquet_out in Ho. destruct (parquet_write _ _ _) as [data [err|]] eqn:Ew; [done|].
    injection Ho as <-. cbn in Hs.
    apply bind_ok in E as ([] & h3 & Hr%wrapped_ok%replaceFile_ok & ([] & h4 & Hd%wrapped_ok%syncDirectory_ok & He)%bind_ok).
    destruct Hr as (nd & Hn & Hr). rewrite Hs, lookup_insert_eq in Hn. injection Hn as <-.
    exists data. rewrite (parquet_read_write _ _ _ _ Ew).
    eapply enter_manifest_ok in He as [He Hl]; [done|]. by rewrite Hd, Hr, lookup_insert_eq.
  - apply bind_ok in E as (? & ? & _ & ?). done.
  - done.
Qed.

Lemma spares_commit n dir key count codec b : keeps (spares n) (commit_part cfg dir (part_id n) key count codec b).
Proof.
  unfold commit_part, replaceFile. cbv zeta. change (dir ++ [part_name (part_id n) ".parquet"]) with (part_path dir n). keeps_tac.
Qed.

(** ** A flush of one partition *)

(** A name that is still to be drawn is not in use. *)
Definition fresh (h : TreeHost) : Prop := ∀ dir n, (th_calls h ≤ n)%nat → th_files h !! part_path dir n = None.
(** An event of that identifier is a row of a file. *)
Definition in_files (h : TreeHost) (id : string) : Prop :=
  ∃ dir n data rows, th_files h !! part_path dir n = Some (NFile data) ∧ parquet_read data = Some rows ∧ id ∈ row_EventID <$> rows.
(** No name to come is taken, and no row is lost. *)
Definition grows (h h' : TreeHost) : Prop := fresh h → fresh h' ∧ ∀ id, in_files h id → in_files h' id.
#[export] Instance grows_preorder : PreOrder grows.
Proof.
  split; [by intros h Hf|]. intros h1 h2 h3 G1 G2 Hf. destruct (G1 Hf) as [F2 I2], (G2 F2) as [F3 I3]. auto.
Qed.

Lemma spares_grows h h1 h' n : th_files h1 = th_files h → (th_calls h ≤ n < th_calls h1)%nat → spares n h1 h' → grows h h'.
Proof.
  intros E Hn [Hp Hc] Hf. split.
  - intros dir m Hm. rewrite Hp, E by lia. apply Hf. lia.
  - intros id (dir & m & data & rows & Hd & Hr). exists dir, m, data, rows. split; [|done]. rewrite Hp, E; [done|].
    intros ->. rewrite Hf in Hd by lia. done.
Qed.
Lemma still_grows h h' : th_files h' = th_files h → (th_calls h ≤ th_calls h')%nat → grows h h'.
Proof.
  intros E Hc Hf. split; [intros dir n Hn; rewrite E; apply Hf; lia|]. intros id (dir & m & data & rows & Hd). rewrite <- E in Hd.
  by exists dir, m, data, rows.
Qed.

Lemma MkdirAll_still format p h : let h' := (wrapped format (tree_MkdirAll p) h).2 in th_files h' = th_files h ∧ (th_calls h ≤ th_calls h')%nat.
Proof.
  unfold wrapped, bind, try, tree_MkdirAll, tree_call. destruct (call_fault _); [destruct (blocked _ _ _)|..]; cbn; split; auto; lia.
Qed.

(** What a flush of a partition leaves, whatever fails; and where it succeeds, the draw of
    the file's name. *)
Lemma flushPartition_spec key events h r h' :
  flushPartition cfg key events h = (r, h') →
  grows h h'
  ∧ (r = Ok () → events ≠ [] → ∃ n b, batch_of events = Ok b
       ∧ committed key (filepath_Join (pq_Path cfg) [key]) n (Z.of_nat (length events)) b h').
Proof.
  unfold flushPartition. destruct events as [|e0 es]; [intros [= <- <-]; done|]. set (events := e0 :: es). set (dir := filepath_Join _ _).
  intros E. destruct (MkdirAll_still "create partition: %w" dir h) as [Hf Hc]. unfold bind at 1 in E.
  destruct (wrapped _ _ h) as [r1 h1]. cbn in Hf, Hc. destruct r1 as [[]|e|q]; [|injection E as <- <-; split; [by apply still_grows|done]..].
  unfold bind, random_id, mcall in E. set (n := th_calls h1) in E. set (h2 := {| th_files := _; th_calls := S n |}) in E.
  assert (grows h h2) as Hg2 by (apply still_grows; cbn; [done|lia]).
  destruct (parquetCompression _) as [codec|e|q]; [|by injection E as <- <-..].
  destruct (batch_of events) as [b|e|q]; [|by injection E as <- <-..].
  pose proof (spares_commit n dir key (Z.of_nat (length events)) codec b h2) as Hs. rewrite E in Hs. cbn in Hs.
  split; [apply (spares_grows h h2 h' n); cbn; [done|lia|done]|]. intros -> _. exists n, b. split; [done|].
  by apply commit_part_ok in E.
Qed.
End lake.

(** ** No call panics *)

Section panics.
Context `{TreeEnv} `{ParquetLaws} (cfg : ParquetOutputConfig).

Lemma bind_panicless {A B} (r : res A) (f : A → res B) : no_panic r → (∀ a, no_panic (f a)) → no_panic (r ≫= f).
Proof. destruct r; cbn; auto. Qed.

Lemma batch_panicless events : no_panic (batch_of events).
Proof.
  unfold batch_of. generalize true at 1. generalize {| bt_rows := []; bt_min := 0; bt_max := 0; bt_schema := "1.3.0" |}.
  induction events as [|e es IH]; intros b first; [done|]. cbn [add_events]. apply bind_panicless; [|intros b'; apply IH].
  unfold add_event. apply bind_panicless; [|done]. unfold row_of.
  apply bind_panicless; [apply marshal_event_panicless|intros x]. apply bind_panicless; [apply marshal_ocsf_panicless|done].
Qed.

Lemma compression_panicless name : no_panic (parquetCompression name).
Proof. unfold parquetCompression. repeat case_match; done. Qed.

Ltac panicless_step :=
  match goal with
  | |- panicless (bind (try _) _) => apply panicless_tried; [|let r := fresh "r" in let Hr := fresh "Hr" in intros r Hr; destruct r; [| |done]]
  | |- panicless (bind _ _) => apply panicless_bind; [|intros ?]
  | |- panicless (try _) => apply panicless_try
  | |- panicless (ret _) => apply panicless_ret
  | |- panicless (fail _) => apply panicless_fail
  | |- panicless (mcall _) => apply panicless_mcall
  | |- panicless (match ?x with _ => _ end) => destruct x
  | |- panicless _ => solve [eauto with worm]
  | |- no_panic _ => solve [done | eauto using batch_panicless, compression_panicless, marshal_manifest_panicless]
  end.
Ltac panicless_tac := repeat panicless_step.

Lemma panicless_nop : panicless tree_nop.
Proof. by apply panicless_call. Qed.
Lemma panicless_ReadFile p : panicless (tree_ReadFile p).
Proof. apply panicless_call. intros t. apply bind_panicless; [apply lookup_panicless|apply file_bytes_panicless]. Qed.
Lemma panicless_MkdirAll p : panicless (tree_MkdirAll p).
Proof. apply panicless_call. intros t. cbn. by destruct (blocked _ _ _). Qed.
Lemma panicless_Write p data : panicless (tree_Write p data).
Proof. by apply panicless_call. Qed.
Lemma panicless_Remove p : panicless (tree_Remove p).
Proof. apply panicless_call. intros t. unfold remove_in. pose proof (lookup_panicless t p). by destruct (lookup_path t p) as [[]| |]. Qed.
Lemma panicless_Rename p q : panicless (replaceFile p q).
Proof. apply panicless_call. intros t. unfold rename_in. by repeat case_match. Qed.
Lemma panicless_open p : panicless (open_trunc p).
Proof. apply panicless_call. intros t. pose proof (lookup_panicless t p). by destruct (lookup_path t p) as [[]|e|]; [..|destruct (IsNotExist e)|]. Qed.
Lemma panicless_out p codec rows : panicless (parquet_out p codec rows).
Proof. intros h. unfold parquet_out. destruct (parquet_write _ _ _) as [? []]; done. Qed.
Lemma panicless_random : panicless random_id.
Proof. done. Qed.
Lemma panicless_Now : panicless Now_manifest.
Proof. done. Qed.
#[local] Hint Resolve panicless_nop panicless_ReadFile panicless_MkdirAll panicless_Write panicless_Remove panicless_Rename panicless_open
  panicless_out panicless_random panicless_Now : worm.

Lemma panicless_wrapped {A} format (m : Prog TreeHost A) : panicless m → panicless (wrapped format m).
Proof. intros Hm. unfold wrapped. panicless_tac. Qed.
Lemma panicless_synced (out : Prog TreeHost unit) : panicless out → panicless (synced out).
Proof. intros Ho. unfold synced. panicless_tac. Qed.
Lemma panicless_sync_dir dir : panicless (syncDirectory dir).
Proof.
  unfold syncDirectory. apply panicless_bind; [|intros _; panicless_tac].
  apply panicless_call. intros t. pose proof (lookup_panicless t dir). by destruct (lookup_path t dir).
Qed.
#[local] Hint Resolve panicless_wrapped panicless_synced panicless_sync_dir : worm.

Lemma panicless_updateManifest meta : panicless (updateManifest cfg meta).
Proof. unfold updateManifest. panicless_tac. Qed.
#[local] Hint Resolve panicless_updateManifest : worm.
Lemma panicless_flushPartition key events : panicless (flushPartition cfg key events).
Proof. unfold flushPartition, commit_part, enter_manifest. panicless_tac. Qed.
End panics.

(** ** The sink *)

Section sink.
Context `{TreeEnv} `{ParquetLaws} (cfg : ParquetOutputConfig) (order : gmap string (list NormalizedEvent) → list string).
Abbreviation P := (Prog ParquetSink).

Definition queued (s : ParquetSink) (id : string) : Prop := ∃ key, id ∈ event_ids (buffered key s).
Definition kept (s : ParquetSink) (id : string) : Prop := queued s id ∨ in_files (pq_host s) id.
Definition lake_sound (s : ParquetSink) : Prop := fresh (pq_host s).

(** Nothing that is queued or written is lost. *)
Record safe (s s' : ParquetSink) : Prop := {
  sf_sound : lake_sound s';
  sf_kept id : kept s id → kept s' id;
  sf_files id : in_files (pq_host s) id → in_files (pq_host s') id }.

Lemma safe_refl s : lake_sound s → safe s s.
Proof. by split. Qed.
Lemma safe_trans s1 s2 s3 : safe s1 s2 → safe s2 s3 → safe s1 s3.
Proof. intros [S1 K1 F1] [S2 K2 F2]. split; auto. Qed.

Lemma batch_ids events b : batch_of events = Ok b → row_EventID <$> bt_rows b = event_ids events.
Proof.
  unfold batch_of. generalize true at 1. intros first.
  assert (∀ first es b0 b, add_events first es b0 = Ok b → row_EventID <$> bt_rows b = (row_EventID <$> bt_rows b0) ++ event_ids es) as Hall.
  { clear. intros first es. revert first. induction es as [|e es IH]; intros first b0 b; cbn [add_events].
    - intros [= <-]. by rewrite app_nil_r.
    - unfold add_event, row_of. destruct (marshal_event_json e); [|done..]. destruct (marshal_ocsf_json _); [|done..].
      cbn. intros E%IH. cbn in E. by rewrite E, fmap_app, <- app_assoc. }
  intros E%Hall. done.
Qed.

Lemma committed_in_files key dir n count b h id :
  committed cfg key dir n count b h → id ∈ row_EventID <$> bt_rows b → in_files h id.
Proof. intros (data & Hd & Hr & _) Hid. by exists dir, n, data, (bt_rows b). Qed.

Lemma buffered_delete (key key' : string) (b : gmap string (list NormalizedEvent)) : default [] (delete key b !! key') =@{list NormalizedEvent} if decide (key = key') then [] else default [] (b !! key').
Proof. destruct (decide (key = key')) as [<-|]; [by rewrite lookup_delete_eq|by rewrite lookup_delete_ne]. Qed.

(** One partition: it is written, or put back. *)
Lemma flushBuffered_spec key s :
  lake_sound s →
  wp (flushBuffered cfg key) (λ r s', safe s s' ∧ pq_closed s' = pq_closed s ∧ no_panic r
    ∧ (r = Ok () → pq_buffers s' = delete key (pq_buffers s) ∧ ∀ id, id ∈ event_ids (buffered key s) → in_files (pq_host s') id)) s.
Proof.
  intros Hs. unfold wp, flushBuffered, on_lake. cbn [set_buffers pq_host pq_buffers pq_closed].
  pose proof (panicless_flushPartition cfg key (buffered key s) (pq_host s)) as Hnp.
  destruct (flushPartition cfg key (buffered key s) (pq_host s)) as [r h'] eqn:E. cbn in Hnp.
  apply flushPartition_spec in E as [Hg Hok]. destruct (Hg Hs) as [Hf Hi].
  destruct r as [[]|e|q]; [..|done].
  - assert (∀ id, id ∈ event_ids (buffered key s) → in_files h' id) as Hin.
    { intros id Hid. destruct (decide (buffered key s = [])) as [E|E]; [rewrite E in Hid; by apply not_elem_of_nil in Hid|].
      destruct (Hok eq_refl E) as (n & b & Hb & Hc). eapply committed_in_files; [done|]. by rewrite (batch_ids _ _ Hb). }
    split; [|done]. split; [done| |done]. intros id [[key' Hq]|?]; [|right; by apply Hi].
    destruct (decide (key = key')) as [<-|Hne]; [right; by apply Hin|]. left. exists key'. unfold buffered in *. cbn.
    by rewrite lookup_delete_ne.
  - split; [|done]. split; [done| |done]. intros id [[key' Hq]|?]; [|right; by apply Hi]. left. exists key'. unfold buffered in *. cbn.
    destruct (decide (key = key')) as [<-|Hne]; [|by rewrite lookup_insert_ne, lookup_delete_ne].
    rewrite lookup_insert_eq. cbn. unfold event_ids. rewrite fmap_app. apply elem_of_app. by left.
Qed.

Lemma Emit_kept e s :
  lake_sound s →
  wp (Parquet_Emit cfg e) (λ r s', safe s s' ∧ pq_closed s' = pq_closed s ∧ no_panic r ∧ (r = Ok () → kept s' (EventID (Worm e)))) s.
Proof.
  intros Hs. unfold wp, Parquet_Emit. destruct (pq_closed s) eqn:Ec; [split; [by apply safe_refl|done]|].
  set (key := computePartitionKey cfg e). destruct (existsb _ _) eqn:Ex.
  { split; [by apply safe_refl|]. split_and!; [done..|]. intros _. left. exists key. apply existsb_exists in Ex as (q & Hq & Hsame).
    apply String.eqb_eq in Hsame. rewrite <- Hsame. apply list_elem_of_fmap. exists q. split; [done|]. by apply list_elem_of_In. }
  set (s1 := set_buffers _ s).
  assert (kept s1 (EventID (Worm e)) ∧ safe s s1) as [Hk1 Hs1].
  { split.
    - left. exists key. unfold buffered, s1. cbn. rewrite lookup_insert_eq. cbn. unfold event_ids. rewrite fmap_app. apply elem_of_app. right.
      by apply list_elem_of_singleton.
    - split; [done| |done]. intros id [[key' Hq]|?]; [|by right]. left. exists key'. unfold buffered, s1 in *. cbn.
      destruct (decide (key = key')) as [<-|Hne]; [|by rewrite lookup_insert_ne]. rewrite lookup_insert_eq. cbn.
      unfold event_ids. rewrite fmap_app. apply elem_of_app. by left. }
  destruct (_ <=? _); [|by split_and!].
  pose proof (flushBuffered_spec key s1 (sf_sound _ _ Hs1)) as Hw. unfold wp in Hw. destruct (flushBuffered cfg key s1) as [r s'].
  destruct Hw as (Hsafe & Hc & Hnp & _). split; [by eapply safe_trans|]. split; [by rewrite Hc|]. split; [done|]. intros _. by apply (sf_kept _ _ Hsafe).
Qed.

Lemma flush_all_spec keys s :
  lake_sound s →
  wp (flush_all cfg keys) (λ r s', safe s s' ∧ pq_closed s' = pq_closed s ∧ no_panic r
    ∧ (r = Ok () → (∀ key, key ∈ keys → buffered key s' = []) ∧ (∀ key, buffered key s = [] → buffered key s' = []))) s.
Proof.
  revert s. induction keys as [|key keys IH]; intros s Hs; cbn [flush_all].
  { apply wp_ret. split; [by apply safe_refl|]. split_and!; [done..|]. intros _. split; [intros ? Hk; by apply not_elem_of_nil in Hk|done]. }
  apply wp_bind. eapply wp_mono; [by apply flushBuffered_spec|]. cbv beta. intros r s1 (Hs1 & Hc1 & Hnp & Hok).
  destruct r as [[]|e|q]; [|by split_and!|done]. destruct (Hok eq_refl) as [Hb _].
  eapply wp_mono; [apply IH, (sf_sound _ _ Hs1)|]. cbv beta. intros r s2 (Hs2 & Hc2 & Hnp2 & Hok2).
  split; [by eapply safe_trans|]. split; [congruence|]. split; [done|]. intros ->. destruct (Hok2 eq_refl) as [Hin Hstay].
  assert (∀ k, buffered k s = [] ∨ k = key → buffered k s2 = []) as Hgone.
  { intros k Hk. apply Hstay. unfold buffered. rewrite Hb, buffered_delete. destruct (decide (key = k)); [done|]. by destruct Hk as [?| ->]. }
  split; [|auto]. intros k [->|Hk]%elem_of_cons; auto.
Qed.

(** Go's range over a map meets every key. *)
Definition ranges : Prop := ∀ m key, key ∈ dom m → key ∈ order m.

Lemma Parquet_Flush_spec s :
  lake_sound s →
  wp (Parquet_Flush cfg order) (λ r s', safe s s' ∧ pq_closed s' = pq_closed s ∧ no_panic r
    ∧ (r = Ok () → ranges → ∀ id, kept s id → in_files (pq_host s') id)) s.
Proof.
  intros Hs. unfold Parquet_Flush. pose proof (flush_all_spec (order (pq_buffers s)) s Hs) as Hw. unfold wp in *.
  destruct (flush_all _ _ s) as [r s']. destruct Hw as (Hsafe & Hc & Hnp & Hok). split_and!; [done..|]. intros -> Hr id Hk.
  destruct (Hok eq_refl) as [Hin Hstay]. apply (sf_kept _ _ Hsafe) in Hk as [[key Hq]|?]; [|done].
  assert (buffered key s' = []) as E; [|rewrite E in Hq; by apply not_elem_of_nil in Hq].
  destruct (pq_buffers s !! key) as [l|] eqn:El; [apply Hin, Hr, elem_of_dom; by eexists|]. apply Hstay. unfold buffered. by rewrite El.
Qed.

(** *** Any sequence of calls *)

Inductive lake_call := LakeEmit (e : NormalizedEvent) | LakeFlush | LakeClose.
Definition lake_perform (c : lake_call) : P unit :=
  match c with LakeEmit e => Parquet_Emit cfg e | LakeFlush => Parquet_Flush cfg order | LakeClose => Parquet_Close cfg order end.
(** With the identifiers of the events whose Emit succeeded. *)
Fixpoint lake_run (calls : list lake_call) : P (list string) :=
  match calls with
  | [] => ret []
  | c :: calls' =>
      r <- try (lake_perform c) ;;
      rest <- lake_run calls' ;;
      ret (match c, r with LakeEmit e, Ok _ => EventID (Worm e) :: rest | _, _ => rest end)
  end.

Lemma lake_perform_spec c s :
  lake_sound s →
  wp (lake_perform c) (λ r s', safe s s' ∧ no_panic r
    ∧ (r = Ok () → match c with LakeEmit e => kept s' (EventID (Worm e)) | _ => True end)) s.
Proof.
  intros Hs. destruct c as [e| |]; cbn [lake_perform].
  - eapply wp_mono; [by apply Emit_kept|]. cbv beta. tauto.
  - eapply wp_mono; [by apply Parquet_Flush_spec|]. cbv beta. tauto.
  - unfold wp, Parquet_Close. set (s0 := {| pq_buffers := pq_buffers s; pq_closed := true; pq_host := pq_host s |}).
    pose proof (Parquet_Flush_spec s0 Hs) as Hw. unfold wp in Hw. destruct (Parquet_Flush _ _ s0). destruct Hw as ([S K F] & _ & Hnp & _).
    split; [by split|]. by split.
Qed.

Lemma lake_run_spec calls s :
  lake_sound s → wp (lake_run calls) (λ r s', safe s s' ∧ ∃ ids, r = Ok ids ∧ ∀ id, id ∈ ids → kept s' id) s.
Proof.
  revert s. induction calls as [|c calls IH]; intros s Hs; cbn [lake_run].
  { apply wp_ret. split; [by apply safe_refl|]. exists []. split; [done|]. intros ? Hid. by apply not_elem_of_nil in Hid. }
  apply wp_bind, wp_try. eapply wp_mono; [by apply lake_perform_spec|]. cbv beta. intros r s1 (Hs1 & Hnp & Hk1).
  assert (∀ f : list string → list string,
    (∀ l id, id ∈ f l → id ∈ l ∨ kept s1 id) →
    wp (rest <- lake_run calls ;; ret (f rest)) (λ r s', safe s s' ∧ ∃ ids, r = Ok ids ∧ ∀ id, id ∈ ids → kept s' id) s1) as Hrest.
  { intros f Hf. apply wp_bind. eapply wp_mono; [apply IH, (sf_sound _ _ Hs1)|]. cbv beta. intros r2 s2 (Hs2 & ids & -> & Hids).
    apply wp_ret. split; [by eapply safe_trans|]. exists (f ids). split; [done|]. intros id [?|?]%Hf; [by apply Hids|]. by apply (sf_kept _ _ Hs2). }
  destruct r as [[]|e|q]; [..|done].
  - apply (Hrest (λ rest, match c with LakeEmit e => EventID (Worm e) :: rest | _ => rest end)). intros l id.
    destruct c as [e| |]; [|auto..]. intros [->|?]%elem_of_cons; [|auto]. right. by apply Hk1.
  - apply (Hrest (λ rest, match c with LakeEmit _ => rest | _ => rest end)). intros l id. destruct c; auto.
Qed.
End sink.

(** ** The partition of an event *)

Section partition.
Context `{ParquetEnv} (cfg : ParquetOutputConfig).

Definition no_slash (s : string) : bool := all_bytes (λ c, c <>b "/"%char) s.

Lemma safe_rune_no_slash c s : no_slash (safe_rune ((decode_rune c s).1, String c (str_take (pred (decode_rune c s).2) s))) = true.
Proof.
  unfold safe_rune, clean. cbn [fst snd]. destruct (_ || _) eqn:E; [done|]. destruct (_ && _); [done|].
  unfold no_slash. cbn [all_bytes]. destruct (Z.ltb_spec (bz c) 128) as [Hc|Hc].
  - rewrite decode_rune_ascii in * by done. cbn in *. rewrite andb_true_r. apply negb_true_iff, Ascii.eqb_neq. intros ->. done.
  - apply andb_true_iff. split; [apply negb_true_iff, Ascii.eqb_neq; intros ->; vm_compute in Hc; by apply Hc|].
    eapply all_bytes_impl; [|by apply decode_rune_high]. intros d Hd. apply negb_true_iff, Ascii.eqb_neq. intros ->. done.
Qed.

Lemma safe_value_no_slash s : no_slash (safe_value s) = true.
Proof.
  unfold safe_value. remember (String.length s) as n eqn:En. assert (String.length s ≤ n)%nat as Hn by lia. clear En.
  revert s Hn. induction n as [|n IH]; intros [|c s] Hn; try done; [simpl in Hn; lia|].
  rewrite runes_cons. pose proof (safe_rune_no_slash c s) as Hr. destruct (decode_rune c s) as [r w]. cbn [fst snd] in Hr.
  rewrite fmap_cons, concat_cons_str. unfold no_slash in *. rewrite all_bytes_app, Hr. apply IH. rewrite length_drop_str. simpl in Hn. lia.
Qed.

Lemma part_plain event field : no_slash field = true → plain_element (field +:+ "=" +:+ partition_value event field) = true.
Proof.
  intros Hf. unfold plain_element. pose proof (safe_value_no_slash) as Hv. unfold no_slash in *.
  rewrite !all_bytes_app, Hf. unfold partition_value. rewrite Hv. cbn [andb all_bytes].
  assert (∀ t, Contains t "=" = false → negb (field +:+ "=" +:+ partition_value event field =s t) = true) as Hne.
  { intros t Ht. apply negb_true_iff, String.eqb_neq. intros E. assert (Contains t "=" = true); [|congruence].
    rewrite <- E. apply Contains_spec. by exists field, (partition_value event field). }
  unfold partition_value in Hne. by rewrite !Hne.
Qed.

Lemma clean_plain rooted elems stk : forallb plain_element elems = true → foldl (clean_step rooted) stk elems = reverse elems ++ stk.
Proof.
  revert stk. induction elems as [|e l IH]; intros stk; [done|]. cbn [forallb foldl]. intros [He Hl]%andb_true_iff.
  rewrite IH by done. unfold clean_step. unfold plain_element in He. rewrite !andb_true_iff, !negb_true_iff in He.
  destruct He as [[[_ He] Hd] Hdd]. rewrite He, Hd, Hdd. cbn [orb]. rewrite reverse_cons. by rewrite <- app_assoc.
Qed.

Lemma plain_no_slash l : forallb plain_element l = true → Forall (λ x, all_bytes (λ d, d <>b "/"%char) x = true) l.
Proof.
  rewrite forallb_forall, Forall_forall. intros Hl x Hx%list_elem_of_In. apply Hl in Hx. unfold plain_element in Hx.
  rewrite !andb_true_iff in Hx. apply Hx.
Qed.

Lemma Join_texts_plain l : l ≠ [] → forallb plain_element l = true → Join_texts l = Join l "/".
Proof.
  intros Hne Hl. unfold Join_texts. assert (List.filter (λ e, e <>s "") l = l) as ->.
  { clear Hne. induction l as [|e l IH]; [done|]. cbn [forallb List.filter] in *. apply andb_true_iff in Hl as [He Hl].
    unfold plain_element in He. rewrite !andb_true_iff in He. destruct He as [[[_ ->] _] _]. by rewrite IH. }
  destruct l as [|e l]; [done|]. set (es := e :: l) in *.
  assert (Split (Join es "/") "/" = es) as Hsp by (apply (Split_Join_chr es "/"); [done|by apply plain_no_slash]).
  unfold path_Clean. rewrite Hsp, clean_plain, app_nil_r, reverse_involutive by done.
  assert (HasPrefix (Join es "/") "/" = false ∧ (Join es "/" =s "") = false) as [-> ->].
  { unfold es in *. cbn [forallb] in Hl. apply andb_true_iff in Hl as [He _]. unfold plain_element in He. rewrite !andb_true_iff in He.
    destruct He as [[[He1 He2] _] _]. destruct e as [|c e]; [done|]. cbn in He1. apply andb_true_iff in He1 as [Hc _].
    apply negb_true_iff in Hc. rewrite Ascii.eqb_sym in Hc. change "/" with (chr "/").
    destruct l; (split; [rewrite HasPrefix_chr; exact Hc|done]). }
  done.
Qed.
End partition.

(** ** The dynamic sink's interface *)

Definition Parquet `{TreeEnv} `{ParquetEnv} (cfg : ParquetOutputConfig) order : OutputSink ParquetSink :=
  {| sk_Emit := Parquet_Emit cfg; sk_Flush := Parquet_Flush cfg order; sk_Close := Parquet_Close cfg order |}.

#[refine] Instance Parquet_durable `{TreeEnv} `{ParquetLaws} (cfg : ParquetOutputConfig) order (Hr : ranges order) : DurableSink (Parquet cfg order) :=
  {| sink_sound := lake_sound; delivered_to e s := in_files (pq_host s) (EventID (Worm e)) |}.
Proof.
  - intros e s r s' Hs E _. cbn in E. pose proof (Emit_kept cfg e s Hs) as Hw. unfold wp in Hw. rewrite E in Hw. apply Hw.
  - intros s r s' Hs E _. cbn in E. pose proof (lake_perform_spec cfg order LakeFlush s Hs) as Hw. unfold wp in Hw. cbn [lake_perform] in Hw.
    rewrite E in Hw. apply Hw.
  - intros s r s' Hs E _. cbn in E. pose proof (lake_perform_spec cfg order LakeClose s Hs) as Hw. unfold wp in Hw. cbn [lake_perform] in Hw.
    rewrite E in Hw. apply Hw.
  - intros e s s1 s2 Hs E1 E2. cbn in E1, E2. pose proof (Emit_kept cfg e s Hs) as Hw. unfold wp in Hw. rewrite E1 in Hw.
    destruct Hw as (Hs1 & _ & _ & Hk). pose proof (Parquet_Flush_spec cfg order s1 (sf_sound _ _ Hs1)) as Hf. unfold wp in Hf.
    rewrite E2 in Hf. destruct Hf as (_ & _ & _ & Hf). by apply Hf, Hk.
Defined.

(** ** The theorems *)

(** C20: the Parquet sink loses no event: whatever calls it has had, and whichever file
    operations failed on the way (a failed rename or removal may have had its effect), no call
    panics, and each event whose Emit succeeded is in the buffer of its partition or is a row
    of a committed file; and when a Flush then succeeds, each is a row of a file. *)
Theorem parquet_no_loss `{TreeEnv} `{ParquetLaws} (cfg : ParquetOutputConfig)
    (order : gmap string (list NormalizedEvent) → list string) (h : TreeHost) (calls : list lake_call) :
  ranges order → fresh h →
  ∃ ids s, lake_run cfg order calls (NewParquetSink h) = (Ok ids, s)
    ∧ (∀ id, id ∈ ids → kept s id)
    ∧ (∀ s', Parquet_Flush cfg order s = (Ok (), s') → ∀ id, id ∈ ids → in_files (pq_host s') id).
Proof.
  intros Hr Hf. pose proof (lake_run_spec cfg order calls (NewParquetSink h) Hf) as Hw. unfold wp in Hw.
  destruct (lake_run _ _ _ _) as [r s]. destruct Hw as (Hs & ids & -> & Hk). exists ids, s. split; [done|]. split; [done|].
  intros s' E id Hid. pose proof (Parquet_Flush_spec cfg order s (sf_sound _ _ Hs)) as Hw. unfold wp in Hw. rewrite E in Hw.
  destruct Hw as (_ & _ & _ & Hw). by apply Hw, Hk.
Qed.

(** What the rows and the times of a batch are. *)
Lemma batch_spec `{ParquetEnv} events b :
  batch_of events = Ok b →
  Forall2 (λ e row, row_of e = Ok row) events (bt_rows b)
  ∧ Forall (λ e, bt_min b ≤ ReceivedTime (Worm e) ≤ bt_max b) events.
Proof.
  unfold batch_of. set (b0 := {| bt_rows := [] |}).
  assert (∀ es done first b0 b, add_events first es b0 = Ok b → (first = false ∨ done = []) →
    Forall2 (λ e row, row_of e = Ok row) done (bt_rows b0) →
    Forall (λ e, bt_min b0 ≤ ReceivedTime (Worm e) ≤ bt_max b0) done →
    Forall2 (λ e row, row_of e = Ok row) (done ++ es) (bt_rows b)
    ∧ Forall (λ e, bt_min b ≤ ReceivedTime (Worm e) ≤ bt_max b) (done ++ es)) as Hall.
  { clear. induction es as [|e es IH]; intros d first b0 b; cbn [add_events]; [rewrite app_nil_r; by intros [= <-]|].
    unfold add_event. destruct (row_of e) as [row| |] eqn:Er; [|done..]. cbn. intros E Hd Hr Ht.
    replace (d ++ e :: es) with ((d ++ [e]) ++ es) by (by rewrite <- app_assoc). eapply IH; [exact E|by left|..]; cbn.
    - apply Forall2_app; [done|]. by constructor.
    - apply Forall_app. split; [|apply Forall_singleton].
      + destruct Hd as [->| ->]; [|by apply Forall_nil]. cbn. eapply Forall_impl; [exact Ht|]. cbn. intros x Hx.
        destruct (Z.ltb_spec (ReceivedTime (Worm e)) (bt_min b0)), (Z.ltb_spec (bt_max b0) (ReceivedTime (Worm e))); lia.
      + destruct first; cbn; [lia|].
        destruct (Z.ltb_spec (ReceivedTime (Worm e)) (bt_min b0)), (Z.ltb_spec (bt_max b0) (ReceivedTime (Worm e))); lia. }
  intros E. apply (Hall events [] true b0 b E); [by right|constructor..].
Qed.

(** A flush of a partition that succeeds has written one file, under a name of its own in
    the directory of the partition, with exactly the rows of the buffered events in their
    order; and the manifest, where it is kept, lists the file with its path, the number of its
    rows, its size and checksum, and times between which all its events were received. *)
Theorem flushPartition_commits `{TreeEnv} `{ParquetLaws} (cfg : ParquetOutputConfig) (key : string) (events : list NormalizedEvent) (h h' : TreeHost) :
  flushPartition cfg key events h = (Ok (), h') → events ≠ [] →
  ∃ n data rows, let file := part_path (filepath_Join (pq_Path cfg) [key]) n in
    th_files h' !! file = Some (NFile data) ∧ parquet_read data = Some rows
    ∧ Forall2 (λ e row, row_of e = Ok row) events rows
    ∧ (pq_Manifest cfg = true → ∃ text meta, th_files h' !! manifest_path cfg = Some (NFile text) ∧ meta ∈ mn_Files (unmarshal_manifest text)
         ∧ mf_RelativePath meta = Rel (pq_Path cfg) file ∧ mf_PartitionKey meta = key
         ∧ mf_RowCount meta = Z.of_nat (length rows) ∧ mf_SizeBytes meta = slen data ∧ mf_SHA256 meta = file_sha256 data
         ∧ Forall (λ e, mf_MinTime meta ≤ ReceivedTime (Worm e) ≤ mf_MaxTime meta) events).
Proof.
  intros [_ Hok]%flushPartition_spec Hne. destruct (Hok eq_refl Hne) as (n & b & Hb & data & Hd & Hr & Hl).
  apply batch_spec in Hb as [Hrows Htimes]. exists n, data, (bt_rows b). cbv zeta. split_and!; [done..|].
  intros Hm. destruct (Hl Hm) as (text & Ht & Hin). eexists text, _. split_and!; [done|exact Hin|done|done| |done..].
  cbn. by rewrite (Forall2_length _ _ _ Hrows).
Qed.

(** C21: no event can direct its row out of the lake: whatever its fields hold (slashes, dots,
    NUL, invalid UTF-8), the directory of its partition is the path of the lake followed by one
    element [field=value] for each field it is partitioned by, none of them empty, [.] or [..]. *)
Theorem partition_contained `{ParquetEnv} (cfg : ParquetOutputConfig) (event : NormalizedEvent) :
  pq_PartitionBy cfg ≠ [] → forallb no_slash (pq_PartitionBy cfg) = true →
  filepath_Join (pq_Path cfg) [computePartitionKey cfg event] = pq_Path cfg ++ partition_parts cfg event
  ∧ length (partition_parts cfg event) = length (pq_PartitionBy cfg)
  ∧ forallb plain_element (partition_parts cfg event) = true.
Proof.
  intros Hne Hf. assert (forallb plain_element (partition_parts cfg event) = true) as Hp.
  { unfold partition_parts. rewrite forallb_forall in *. intros p Hp%list_elem_of_In%list_elem_of_fmap.
    destruct Hp as (field & -> & Hin). apply part_plain, Hf. by apply list_elem_of_In. }
  split; [|split; [apply length_fmap|done]].
  assert (partition_parts cfg event ≠ []) as Hpn by (unfold partition_parts; by destruct (pq_PartitionBy cfg)).
  unfold computePartitionKey. rewrite Join_texts_plain by done. rewrite <- Join_plain by done.
  unfold filepath_Join. f_equal. f_equal. rewrite bind_cons. change (@mbind list _ _ _ ?f []) with (@nil string). rewrite app_nil_r.
  pose proof (plain_no_slash _ Hp) as Hs.
  assert (Split (Join (partition_parts cfg event) "/") "/" = partition_parts cfg event) as -> by by apply (Split_Join_chr _ "/").
  clear Hpn Hp. induction Hs as [|x l Hx Hl IH]; [done|]. rewrite bind_cons, <- IH. change "/" with (chr "/") at 1.
  by rewrite Split_chr, (proj2 (IndexByte_None _ _) Hx).
Qed.

(** ** A concrete lake *)

(** Every countable value as a text of bits. *)
Fixpoint pos_text (p : positive) : string :=
  match p with xH => "" | xO q => String "0" (pos_text q) | xI q => String "1" (pos_text q) end.
Fixpoint text_pos (s : string) : positive :=
  match s with "" => xH | String c s' => if c =b "0"%char then xO (text_pos s') else xI (text_pos s') end.
Lemma text_pos_text p : text_pos (pos_text p) = p.
Proof. induction p as [p IH|p IH|]; cbn; by rewrite ?IH. Qed.
Definition to_text {A} `{Countable A} (a : A) : string := pos_text (encode a).
Definition of_text {A} `{Countable A} (s : string) : option A := decode (text_pos s).
Lemma of_to_text {A} `{Countable A} (a : A) : of_text (to_text a) = Some a.
Proof. unfold of_text, to_text. by rewrite text_pos_text, decode_encode. Qed.

#[export] Instance parquetRow_eq_dec : EqDecision parquetRow.
Proof. solve_decision. Defined.
#[export, refine] Instance parquetRow_countable : Countable parquetRow := inj_countable'
  (λ r, (((row_EventID r, row_RawID r), (row_RawSHA256 r, row_RecordOrdinal r)), ((row_SourceCategory r, row_SourceID r),
         (row_SchemaVersion r, row_ReceivedTimeMS r)), (row_OCSFJSON r, row_EventJSON r)))
  (λ '(((a, b), (c, d)), ((e, f), (g, h)), (i, j)), Build_parquetRow a b c d e f g h i j) _.
Proof. by intros []. Defined.
#[export] Instance ManifestFile_eq_dec : EqDecision ManifestFile.
Proof. solve_decision. Defined.
#[export, refine] Instance ManifestFile_countable : Countable ManifestFile := inj_countable'
  (λ m, ((mf_RelativePath m, mf_PartitionKey m), (mf_RowCount m, mf_SizeBytes m), ((mf_SHA256 m, mf_SchemaVersion m), (mf_MinTime m, mf_MaxTime m))))
  (λ '((a, b), (c, d), ((e, h), (f, g))), Build_ManifestFile a b c d e f g h) _.
Proof. by intros []. Defined.
#[export] Instance ParquetManifest_eq_dec : EqDecision ParquetManifest.
Proof. solve_decision. Defined.
#[export, refine] Instance ParquetManifest_countable : Countable ParquetManifest := inj_countable'
  (λ m, ((mn_Files m, mn_TotalRows m), (mn_TotalBytes m, mn_LastUpdated m))) (λ '((a, b), (c, d)), Build_ParquetManifest a b c d) _.
Proof. by intros []. Defined.

#[export] Instance sample_parquet : ParquetEnv := {|
  part_id n := to_text n;
  marshal_event_json e := Ok (EventID (Worm e));
  marshal_ocsf_json _ := Ok "{}";
  parquet_write _ _ rows := (to_text rows, None);
  parquet_read data := of_text data;
  file_sha256 data := "sum";
  marshal_manifest m := Ok (to_text m);
  unmarshal_manifest text := default zero_manifest (of_text text);
  manifest_now _ := 0;
  float_text _ := "" |}.
#[export] Instance sample_parquet_laws : ParquetLaws.
Proof.
  split.
  - intros n codec rows data [= <-]. apply of_to_text.
  - intros m data [= <-]. cbn. by rewrite of_to_text.
  - done.
  - done.
  - done.
  - intros i j E. cbn in E. apply (f_equal (of_text (A := nat))) in E. rewrite !of_to_text in E. by injection E.
Defined.

Definition lake_cfg : ParquetOutputConfig := NewParquetConfig {|
  pq_Name := "lake"; pq_Path := ["lake"]; pq_PartitionBy := []; pq_MaxRowsPerFile := 0; pq_Compression := "ZSTD"; pq_Manifest := true |}.
Definition keys_of (m : gmap string (list NormalizedEvent)) : list string := elements (dom m).
Definition empty_lake : TreeHost := {| th_files := ∅; th_calls := 0 |}.
(** The [n]-th call is refused, the others work. *)
#[refine] Definition refusing_tree (n : nat) : TreeEnv := {| call_fault k := if (k =? n)%nat then Refused else Works; temp_in := tree_temp |}.
Proof. - apply (@temp_in_digits working_tree). - apply (@temp_in_fresh working_tree). Defined.

Lemma keys_of_ranges : ranges keys_of.
Proof. intros m key Hk. unfold keys_of. by apply elem_of_elements. Qed.
Lemma empty_fresh : fresh empty_lake.
Proof. done. Qed.

(** The first flush is refused at its rename; the events wait, and the second writes them. *)
Lemma parquet_no_loss_witness :
  let env := refusing_tree 6 in
  let calls := [LakeEmit (event_with "a"); LakeEmit (event_with "b"); LakeEmit (event_with "a"); LakeFlush] in
  ranges keys_of ∧ fresh empty_lake ∧
  ∃ ids s s', @lake_run env _ lake_cfg keys_of calls (NewParquetSink empty_lake) = (Ok ids, s) ∧ ids = ["a"; "b"; "a"]
    ∧ event_ids (concat (map_to_list (pq_buffers s)).*2) = ["a"; "b"]
    ∧ @Parquet_Flush env _ lake_cfg keys_of s = (Ok (), s') ∧ ∀ id, id ∈ ids → in_files (pq_host s') id.
Proof.
  cbv zeta. split; [exact keys_of_ranges|]. split; [exact empty_fresh|].
  destruct (@parquet_no_loss (refusing_tree 6) _ sample_parquet_laws lake_cfg keys_of empty_lake
    [LakeEmit (event_with "a"); LakeEmit (event_with "b"); LakeEmit (event_with "a"); LakeFlush] keys_of_ranges empty_fresh) as (ids & s & E & _ & Hf).
  exists ids, s, (@Parquet_Flush (refusing_tree 6) _ lake_cfg keys_of s).2.
  assert ((@Parquet_Flush (refusing_tree 6) _ lake_cfg keys_of s).1 = Ok () ∧ ids = ["a"; "b"; "a"]
          ∧ event_ids (concat (map_to_list (pq_buffers s)).*2) = ["a"; "b"]) as (Hok & Hids & Hq).
  { vm_compute in E. injection E as <- <-. vm_compute. done. }
  split; [exact E|]. split; [exact Hids|]. split; [exact Hq|]. split; [|apply Hf]; by rewrite <- Hok, <- surjective_pairing.
Defined.

Lemma flushPartition_commits_witness :
  let key := computePartitionKey lake_cfg (event_with "a") in
  let env := refusing_tree 100 in
  let h' := (@flushPartition env _ lake_cfg key [event_with "a"; event_with "b"] empty_lake).2 in
  ∃ n data rows, let file := part_path (filepath_Join (pq_Path lake_cfg) [key]) n in
    th_files h' !! file = Some (NFile data) ∧ parquet_read data = Some rows
    ∧ Forall2 (λ e row, row_of e = Ok row) [event_with "a"; event_with "b"] rows
    ∧ (pq_Manifest lake_cfg = true → ∃ text meta, th_files h' !! manifest_path lake_cfg = Some (NFile text) ∧ meta ∈ mn_Files (unmarshal_manifest text)
         ∧ mf_RelativePath meta = Rel (pq_Path lake_cfg) file ∧ mf_PartitionKey meta = key
         ∧ mf_RowCount meta = Z.of_nat (length rows) ∧ mf_SizeBytes meta = slen data ∧ mf_SHA256 meta = file_sha256 data
         ∧ Forall (λ e, mf_MinTime meta ≤ ReceivedTime (Worm e) ≤ mf_MaxTime meta) [event_with "a"; event_with "b"]).
Proof.
  cbv zeta. set (key := computePartitionKey _ _). set (r := @flushPartition _ _ _ _ _ _).
  apply (@flushPartition_commits (refusing_tree 100) _ sample_parquet_laws lake_cfg key [event_with "a"; event_with "b"] empty_lake r.2); [|done].
  assert (r.1 = Ok ()) as <- by (vm_compute; reflexivity). apply surjective_pairing.
Defined.

Lemma partition_contained_witness :
  let cfg := {| pq_Name := "lake"; pq_Path := ["lake"]; pq_PartitionBy := ["event_date"; "user"]; pq_MaxRowsPerFile := 1;
                pq_Compression := ""; pq_Manifest := false |} in
  let event := {| Worm := Worm (event_with "a"); OCSF := {[ "user" := VStr "../../etc" ]} |} in
  computePartitionKey cfg event = "event_date=1970-01-01/user=.._.._etc"
  ∧ filepath_Join (pq_Path cfg) [computePartitionKey cfg event] = pq_Path cfg ++ partition_parts cfg event
  ∧ length (partition_parts cfg event) = length (pq_PartitionBy cfg) ∧ forallb plain_element (partition_parts cfg event) = true.
Proof.
  cbv zeta. split; [vm_compute; reflexivity|]. apply partition_contained; [discriminate|vm_compute; reflexivity].
Defined.

(** The rows of the committed files, and the number of files the manifest lists. *)
Definition rows_in (s : ParquetSink) : list (list string) := omap (λ kv : tpath * node,
  match kv.2 with
  | NFile data => if HasSuffix (List.last kv.1 "") ".parquet" then (λ rows, row_EventID <$> rows) <$> parquet_read data else None
  | _ => None end) (map_to_list (th_files (pq_host s))).
Definition files_listed (s : ParquetSink) : nat :=
  match th_files (pq_host s) !! manifest_path lake_cfg with Some (NFile text) => length (mn_Files (unmarshal_manifest text)) | _ => 0 end.
Definition after_calls (refused : nat) (calls : list lake_call) : ParquetSink :=
  (@lake_run (refusing_tree refused) _ lake_cfg keys_of calls (NewParquetSink empty_lake)).2.

(** Where the sync of the directory fails after the rename, the event waits although its file
    stands: the next flush writes a second file, and the first is never listed. *)
Lemma duplicate_after_failed_sync :
  let s := after_calls 8 [LakeEmit (event_with "a"); LakeFlush; LakeFlush] in rows_in s = [["a"]; ["a"]] ∧ files_listed s = 1%nat.
Proof. vm_compute. done. Qed.
(** Where it fails after the manifest was replaced, the manifest lists a file that was removed. *)
Lemma listed_but_removed :
  let s := after_calls 19 [LakeEmit (event_with "a"); LakeFlush] in rows_in s = [] ∧ files_listed s = 1%nat.
Proof. vm_compute. done. Qed.
(** A manifest that cannot be read is replaced by one of the new file only. *)
Lemma manifest_forgets :
  let s := after_calls 32 [LakeEmit (event_with "a"); LakeFlush; LakeEmit (event_with "b"); LakeFlush] in
  length (rows_in s) = 2%nat ∧ files_listed s = 1%nat.
Proof. vm_compute. done. Qed.
