(* ===== verification/Runtime.v ===== *)
(** * [internal/connections/runtime.go]: connections compiled to live adapters and sinks

    The secrets, the settings of each compiled adapter and sink, and the reconciliation that
    replaces the running ones.  Adapters and sinks are objects with numbers; the state says
    which are still open.  The adapters' manager is that of IngestManager.v. *)

From S2P Require Import Xml MarketSamples Connections IngestManager.
From S2P Require Import Prelude GoStrings GoNum GoIO GoTime GoPath Model Samples Ndjson HttpSink Sinks KafkaSink Parquet Ingest Pull.
From S2P Require Export Monad.

#[local] Open Scope monad_scope.

Definition second : Z := 1000 * millisecond.

(** ** Secrets *)

Record Secret := { sc_Token : string; sc_Username : string; sc_Password : string }.
Definition no_secret : Secret := {| sc_Token := ""; sc_Username := ""; sc_Password := "" |}.

Record KafkaInputConfig := {
  ki_Name : string; ki_Brokers : list string; ki_Topics : list string; ki_ConsumerGroup : string; ki_Username : string; ki_Password : string }.

(** What a reconcile finds of the world. *)
Class RuntimeEnv := {
  os_Getenv : string → string;
  secret_file : string → string → res string;      (* os.ReadFile of a name in the directory of secrets *)
  secret_json : string → res Secret;               (* json.Unmarshal *)
  ParseDuration : string → res Z;                  (* time.ParseDuration *)
  LoadX509KeyPair : string → string → res unit;
  read_pem : string → res string;                  (* os.ReadFile *)
  AppendCertsFromPEM : string → bool;
  new_consumer : KafkaInputConfig → res unit;      (* kgo.NewClient of a consumer's options *)
  new_producer : list kgo_opt → res unit;
  open_ndjson : string → res unit;                 (* NewNDJSONSink: the file opened *)
  abs_path : string → tpath;                       (* of a Parquet lake *)
  startup : list (nat * error);                    (* adapters that return an error while the manager waits *)
}.

Section compile.
Context `{RuntimeEnv}.

(** [strings.NewReplacer("-", "_", ".", "_").Replace] *)
Definition replace_byte (c : ascii) : ascii := if (c =b "-"%char) || (c =b "."%char) then "_"%char else c.
Definition env_suffix (ref : string) : string := of_bytes (replace_byte <$> bytes_of ref).
(** The name of the variable; the upper case is that of the letters the code maps to ASCII. *)
Definition secret_key (ref : string) : string := "WORM_SECRET_" +:+ Xml.ToUpper (env_suffix ref).

(** The text of a secret. *)
Definition parse_secret (ref raw : string) : res Secret :=
  if HasPrefix raw "{" then
    match secret_json raw with Err e => Err (Errorf "decode secret %q: %w" [AStr ref; AErr e]) | r => r end
  else match IndexByte raw ":" with
       | Some (S i) => Ok {| sc_Token := ""; sc_Username := str_take (S i) raw; sc_Password := str_drop (S i + 1) raw |}
       | _ => Ok {| sc_Token := raw; sc_Username := ""; sc_Password := "" |}
       end.

Definition Resolve (dir ref : string) : res Secret :=
  if ref =s "" then Ok no_secret
  else
    let raw := os_Getenv (secret_key ref) in
    let raw := if (raw =s "") && (dir <>s "")
               then match secret_file dir (filepath_Base ref) with Ok b => TrimSpace b | _ => "" end else raw in
    if raw =s "" then Err (Errorf "secretRef %q not found in %s or %s" [AStr ref; AStr (secret_key ref); AStr dir])
    else parse_secret ref raw.

Definition duration (v : string) (fallback : Z) : res Z := if v =s "" then Ok fallback else ParseDuration v.

(** The server's configuration: whether clients must present a certificate. *)
Definition tlsFiles (certFile keyFile caFile : string) : res bool :=
  _ ← LoadX509KeyPair certFile keyFile;
  if caFile <>s "" then
    b ← read_pem caFile;
    if AppendCertsFromPEM b then Ok true else Err (Errorf "no certificates in %s" [AStr caFile])
  else Ok false.

Definition connectionSecretRef (c : Connection) : string :=
  if cs_SecretRef (cn_Spec c) <>s "" then cs_SecretRef (cn_Spec c)
  else match cs_Endpoint (cn_Spec c) with Some ep => ep_SecretRef ep | None => "" end.
Definition kafkaSecret (s : Secret) : string * string :=
  if sc_Username s <>s "" then (sc_Username s, sc_Password s) else ("", "").

(** ** [CompileSource] *)

Inductive Source :=
| CloudPuller (cfg : PollerConfig) (interval timeout : Z)
| BrokerKafka (cfg : KafkaInputConfig)
| SyslogTLS (addr : string) (client_certs : bool).

(** [c.Spec.Endpoint], dereferenced *)
Definition endpoint (c : Connection) : res EndpointSpec :=
  match cs_Endpoint (cn_Spec c) with Some ep => Ok ep | None => Panic "invalid memory address or nil pointer dereference" end.

Definition positive_or (z fallback : Z) : Z := if z <=? 0 then fallback else z.
Definition NewCloudPoller (cfg : PollerConfig) (interval timeout : Z) : Source :=
  CloudPuller {| pc_Name := pc_Name cfg; pc_EndpointURL := pc_EndpointURL cfg; pc_BatchSize := positive_or (pc_BatchSize cfg) 100;
                 pc_WatermarkPath := pc_WatermarkPath cfg; pc_AuthHeader := pc_AuthHeader cfg; pc_AuthToken := pc_AuthToken cfg |}
    (positive_or interval (10 * second)) (positive_or timeout (15 * second)).

Definition NewBrokerKafkaConsumer (cfg : KafkaInputConfig) : res unit :=
  match ki_Brokers cfg, ki_Topics cfg with
  | [], _ | _, [] => Err (errors_New "kafka input requires brokers, topics, and consumer group")
  | _, _ => if ki_ConsumerGroup cfg =s "" then Err (errors_New "kafka input requires brokers, topics, and consumer group")
            else new_consumer cfg
  end.
Definition NewBrokerKafkaAdapter (cfg : KafkaInputConfig) : res Source :=
  match ki_Topics cfg with
  | [] => Err (errors_New "kafka input requires at least one topic")
  | _ => _ ← NewBrokerKafkaConsumer cfg; Ok (BrokerKafka cfg)
  end.
Definition NewSyslogTLSListener (addr : string) (client_certs : bool) : Source := SyslogTLS (if addr =s "" then ":6514" else addr) client_certs.

(** [Name()] of an adapter *)
Definition source_name (a : Source) : string :=
  match a with
  | CloudPuller cfg _ _ => if pc_Name cfg <>s "" then "cloud-pull-" +:+ pc_Name cfg else "cloud-pull"
  | BrokerKafka cfg => if ki_Name cfg <>s "" then "kafka-input-" +:+ ki_Name cfg else "kafka-input"
  | SyslogTLS _ _ => "syslog-tls"
  end.

Definition CompileSource (dir : string) (c : Connection) : res Source :=
  sec ← Resolve dir (connectionSecretRef c);
  let spec := cn_Spec c in
  if cs_Type spec =s "cloud_pull" then
    ep ← endpoint c;
    d ← duration (ep_Interval ep) (10 * second);
    to ← duration (ep_Timeout ep) (15 * second);
    Ok (NewCloudPoller {| pc_Name := cn_Name c; pc_EndpointURL := ep_URL ep; pc_BatchSize := ep_BatchSize ep;
                          pc_WatermarkPath := ep_WatermarkPath ep; pc_AuthHeader := ep_AuthHeader ep; pc_AuthToken := sc_Token sec |} d to)
  else if cs_Type spec =s "kafka_input" then
    let topics := match cs_Topics spec with [] => [cs_Topic spec] | l => l end in
    let '(u, p) := kafkaSecret sec in
    NewBrokerKafkaAdapter {| ki_Name := cn_Name c; ki_Brokers := cs_Brokers spec; ki_Topics := topics;
                             ki_ConsumerGroup := cs_ConsumerGroup spec; ki_Username := u; ki_Password := p |}
  else if cs_Type spec =s "syslog_tls" then
    certs ← tlsFiles (cs_TLSCertFile spec) (cs_TLSKeyFile spec) (cs_ClientCAFile spec);
    Ok (NewSyslogTLSListener (cs_Listen spec) certs)
  else Err (Errorf "unsupported source type %q" [AStr (cs_Type spec)]).

(** ** [CompileSink] *)

Inductive Sink :=
| NdjsonAt (path : string) | ParquetAt (cfg : ParquetOutputConfig) | KafkaAt (cfg : KafkaOutputConfig) (topic : string)
| HttpAt (name : string) (cfg : HTTPOutputConfig) (flush timeout : Z).

(** The delivery settings, with the defaults the code starts from. *)
Definition retry_settings (r : option RetrySpec) : res (Z * Z * Z) :=
  match r with
  | None => Ok (3, 100 * millisecond, 10 * second)
  | Some r =>
      min ← duration (rs_MinBackoff r) (100 * millisecond);
      max ← duration (rs_MaxBackoff r) (10 * second);
      Ok (rs_MaxAttempts r, min, max)
  end.
Definition delivery_settings (d : option DeliverySpec) : res (string * Z * Z * (Z * Z * Z)) :=
  match d with
  | None => Ok ("ndjson", 100, second, (3, 100 * millisecond, 10 * second))
  | Some d =>
      flush ← duration (ds_FlushInterval d) second;
      retry ← retry_settings (ds_Retry d);
      Ok (ds_Format d, ds_BatchEvents d, flush, retry)
  end.

Definition CompileSink (dir : string) (c : Connection) : res Sink :=
  sec ← Resolve dir (connectionSecretRef c);
  let spec := cn_Spec c in
  if cs_Type spec =s "ndjson_output" then
    _ ← open_ndjson (cs_Path spec); Ok (NdjsonAt (cs_Path spec))
  else if cs_Type spec =s "parquet_output" then
    Ok (ParquetAt (NewParquetConfig {| pq_Name := cn_Name c; pq_Path := abs_path (cs_Path spec); pq_PartitionBy := cs_PartitionBy spec;
          pq_MaxRowsPerFile := cs_MaxRowsPerFile spec; pq_Compression := cs_Compression spec; pq_Manifest := cs_Manifest spec |}))
  else if cs_Type spec =s "kafka_output" then
    linger ← duration (cs_Linger spec) 0;
    let '(u, p) := kafkaSecret sec in
    let cfg := {| ko_Name := cn_Name c; ko_Brokers := cs_Brokers spec; ko_Topic := cs_Topic spec; ko_KeyField := cs_Key spec;
                  ko_Acks := cs_Acks spec; ko_Idempotent := cs_Idempotent spec; ko_Compression := cs_Compression spec;
                  ko_BatchBytes := cs_BatchBytes spec; ko_Linger := linger; ko_Username := u; ko_Password := p |} in
    match ko_Brokers cfg with
    | [] => Err (errors_New "kafka output requires brokers")
    | _ => _ ← new_producer (producer_opts cfg); Ok (KafkaAt cfg (kafka_topic cfg))
    end
  else if cs_Type spec =s "http_output" then
    ep ← endpoint c;
    to ← duration (ep_Timeout ep) (10 * second);
    d ← delivery_settings (cs_Delivery spec);
    let '(format, batch, flush, (attempts, min, max)) := d in
    Ok (HttpAt (cn_Name c) (with_defaults {| ho_URL := ep_URL ep; ho_Format := format; ho_BatchEvents := batch; ho_MaxRetries := attempts;
          ho_MinBackoff := min; ho_MaxBackoff := max; ho_AuthHeader := ep_AuthHeader ep; ho_AuthToken := sc_Token sec |})
          (positive_or flush second) (positive_or to (10 * second)))
  else Err (Errorf "unsupported sink type %q" [AStr (cs_Type spec)]).
End compile.

(** ** [Runtime]

    The manager of the adapters and the snapshot of the dynamic sink; every adapter and sink
    made has a number, and those not yet stopped or closed are listed.  [rt_running] are the
    numbers of the dynamic adapters the manager has. *)

Record Runtime := {
  rt_Ingest : Manager;
  rt_Output : gmap string nat;
  rt_running : list nat;
  rt_live : gset nat;                              (* adapters made and not stopped *)
  rt_open : gset nat;                              (* sinks made and not closed *)
  rt_next : nat }.

(** What a runtime is made with. *)
Record Statics := { StaticAdapters : list string; StaticSinks : gmap string nat; SecretsDir : string }.

Section runtime.
Context `{RuntimeEnv} (st : Statics).
Abbreviation P := (Prog Runtime).

Definition update_runtime (f : Runtime → Runtime) : P unit := λ r, (Ok (), f r).
Definition get_runtime : P Runtime := λ r, (Ok r, r).

Definition with_live_set (f : gset nat → gset nat) (r : Runtime) : Runtime :=
  {| rt_Ingest := rt_Ingest r; rt_Output := rt_Output r; rt_running := rt_running r; rt_live := f (rt_live r); rt_open := rt_open r; rt_next := rt_next r |}.
Definition with_open_set (f : gset nat → gset nat) (r : Runtime) : Runtime :=
  {| rt_Ingest := rt_Ingest r; rt_Output := rt_Output r; rt_running := rt_running r; rt_live := rt_live r; rt_open := f (rt_open r); rt_next := rt_next r |}.
Definition with_next (r : Runtime) : Runtime :=
  {| rt_Ingest := rt_Ingest r; rt_Output := rt_Output r; rt_running := rt_running r; rt_live := rt_live r; rt_open := rt_open r; rt_next := S (rt_next r) |}.

Definition new_adapter : P nat := λ r, (Ok (rt_next r), with_next (with_live_set (λ l, {[rt_next r]} ∪ l) r)).
Definition new_sink : P nat := λ r, (Ok (rt_next r), with_next (with_open_set (λ l, {[rt_next r]} ∪ l) r)).

(** The adapters and the sinks of the new snapshot, and which of them were made. *)
Record Candidates := { ca_adapters : list string; ca_sinks : gmap string nat; ca_made : list nat; ca_opened : list nat }.

Definition cleanupCandidates (ca : Candidates) : P unit :=
  update_runtime (λ r, with_open_set (λ l, l ∖ list_to_set (ca_opened ca)) (with_live_set (λ l, l ∖ list_to_set (ca_made ca)) r)).

Fixpoint compile_all (conns : list Connection) (ca : Candidates) : P Candidates :=
  match conns with
  | [] => ret ca
  | c :: conns' =>
      if negb (cs_Enabled (cn_Spec c)) then compile_all conns' ca
      else if cn_Kind c =s "Source" then
        match CompileSource (SecretsDir st) c with
        | Panic p => mcall (Panic p)
        | Err e => cleanupCandidates ca ;;; fail (Errorf "compile source %s: %w" [AStr (cn_Name c); AErr e])
        | Ok a =>
            i <- new_adapter ;;
            compile_all conns' {| ca_adapters := ca_adapters ca ++ [source_name a]; ca_sinks := ca_sinks ca;
                                  ca_made := ca_made ca ++ [i]; ca_opened := ca_opened ca |}
        end
      else
        match CompileSink (SecretsDir st) c with
        | Panic p => mcall (Panic p)
        | Err e => cleanupCandidates ca ;;; fail (Errorf "compile sink %s: %w" [AStr (cn_Name c); AErr e])
        | Ok _ =>
            i <- new_sink ;;
            compile_all conns' {| ca_adapters := ca_adapters ca; ca_sinks := <[cn_Name c := i]> (ca_sinks ca);
                                  ca_made := ca_made ca; ca_opened := ca_opened ca ++ [i] |}
        end
  end.

(** The adapters that return an error while the manager probes the start. *)
Fixpoint failing (l : list (nat * error)) (m : Manager) : Manager :=
  match l with
  | [] => m
  | (i, e) :: l' => failing l' (default m (adapter_returns i (Some e) m))
  end.

(** [Ingest.Reconcile]: the critical sections of IngestManager.v, one after the other; all the
    goroutines of the old snapshot return in between, and its adapters are stopped, where it ran. *)
Definition ingest_Reconcile (ca : Candidates) : P unit := λ r,
  let m := rt_Ingest r in
  match Reconcile_begin (Some <$> ca_adapters ca) m with
  | Panic p => (Panic p, r)
  | Err e => (Err e, r)
  | Ok m1 =>
      let m2 := if mg_running m then with_live [] (mg_errs m1) m1 else m1 in
      let m3 := default m2 (Reconcile_end m2) in
      let m4 := if mg_running m then failing startup m3 else m3 in
      (match (if mg_running m then probeStartup m4 else None) with Some e => Err e | None => Ok () end,
       {| rt_Ingest := m4; rt_Output := rt_Output r; rt_running := ca_made ca;
          rt_live := if mg_running m then rt_live r ∖ list_to_set (rt_running r) else rt_live r; rt_open := rt_open r; rt_next := rt_next r |})
  end.

(** [Output.Replace], as a set: the sinks of the old snapshot that are not in the new are closed. *)
Definition replaced (old next : gmap string nat) : gset nat :=
  list_to_set ((filter (λ kv, next !! kv.1 ≠ Some kv.2) (map_to_list old)).*2).
Definition output_Replace (next : gmap string nat) : P unit := λ r,
  (Ok (), {| rt_Ingest := rt_Ingest r; rt_Output := next; rt_running := rt_running r; rt_live := rt_live r;
             rt_open := rt_open r ∖ replaced (rt_Output r) next; rt_next := rt_next r |}).

Definition no_candidates : Candidates := {| ca_adapters := StaticAdapters st; ca_sinks := StaticSinks st; ca_made := []; ca_opened := [] |}.

Definition Reconcile (conns : list Connection) : P unit :=
  ca <- compile_all conns no_candidates ;;
  r <- try (ingest_Reconcile ca) ;;
  match r with
  | Panic p => mcall (Panic p)
  | Err e => cleanupCandidates ca ;;; fail e
  | Ok _ => output_Replace (ca_sinks ca)
  end.

(** ** What a reconcile leaves *)

(** The connections that are compiled, and the adapters and names of sinks they give. *)
Definition enabled (conns : list Connection) : list Connection := List.filter (λ c, cs_Enabled (cn_Spec c)) conns.
Definition is_source (c : Connection) : bool := cn_Kind c =s "Source".
Definition sources_of (conns : list Connection) : list Source :=
  omap (λ c, match CompileSource (SecretsDir st) c with Ok a => Some a | _ => None end) (List.filter is_source (enabled conns)).
Definition sink_names (conns : list Connection) : list string := cn_Name <$> List.filter (λ c, negb (is_source c)) (enabled conns).
End runtime.

(** *** The compilation *)

Section compiled.
Context `{RuntimeEnv} (st : Statics).

(** Only the numbers have moved on, and what was made is live. *)
Record made (adapters sinks : list nat) (r r' : Runtime) : Prop := {
  md_Ingest : rt_Ingest r' = rt_Ingest r; md_Output : rt_Output r' = rt_Output r; md_running : rt_running r' = rt_running r;
  md_live : rt_live r' = rt_live r ∪ list_to_set adapters; md_open : rt_open r' = rt_open r ∪ list_to_set sinks;
  md_next : (rt_next r ≤ rt_next r')%nat;
  md_new : Forall (λ i, rt_next r ≤ i < rt_next r')%nat (adapters ++ sinks);
  md_nodup : NoDup sinks }.

Lemma made_nil r : made [] [] r r.
Proof. split; cbn; try done; try lia; try apply NoDup_nil_2; set_solver. Qed.
Lemma made_trans a1 s1 a2 s2 r1 r2 r3 : made a1 s1 r1 r2 → made a2 s2 r2 r3 → made (a1 ++ a2) (s1 ++ s2) r1 r3.
Proof.
  intros [I1 O1 U1 L1 P1 N1 F1 D1] [I2 O2 U2 L2 P2 N2 F2 D2]. split; try congruence; try lia.
  - rewrite L2, L1, list_to_set_app_L. set_solver.
  - rewrite P2, P1, list_to_set_app_L. set_solver.
  - rewrite Forall_app in *. destruct F1 as [Fa1 Fs1], F2 as [Fa2 Fs2].
    rewrite !Forall_app. split_and!; (eapply Forall_impl; [eassumption|]); cbn; lia.
  - apply NoDup_app. split_and!; [done| |done]. apply Forall_app in F1 as [_ F1], F2 as [_ F2]. rewrite Forall_forall in F1, F2.
    intros i Hi1%F1 Hi2%F2. lia.
Qed.
Lemma made_adapter r : made [rt_next r] [] r (new_adapter r).2.
Proof. split; cbn; try done; try lia; try apply NoDup_nil_2; set_solver. Qed.
Lemma made_sink r : made [] [rt_next r] r (new_sink r).2.
Proof. split; cbn; try done; try lia; try apply NoDup_singleton; set_solver. Qed.

Definition sinks_with (m : gmap string nat) (l : list (string * nat)) : gmap string nat := foldl (λ m kv, <[kv.1 := kv.2]> m) m l.

(** What a compilation adds to the candidates. *)
Record compiled (conns : list Connection) (adapters sinks : list nat) (ca ca' : Candidates) : Prop := {
  cp_adapters : ca_adapters ca' = ca_adapters ca ++ (source_name <$> sources_of st conns);
  cp_made : ca_made ca' = ca_made ca ++ adapters;
  cp_opened : ca_opened ca' = ca_opened ca ++ sinks;
  cp_length : length sinks = length (sink_names conns);
  cp_sinks : ca_sinks ca' = sinks_with (ca_sinks ca) (zip (sink_names conns) sinks) }.

Lemma wp_compile_all conns ca r :
  wp (compile_all st conns ca) (λ res r', match res with
    | Ok ca' => ∃ a s, made a s r r' ∧ compiled conns a s ca ca'
    | Err _ => ∃ a s r1, made a s r r1
        ∧ r' = with_open_set (λ l, l ∖ list_to_set (ca_opened ca ++ s)) (with_live_set (λ l, l ∖ list_to_set (ca_made ca ++ a)) r1)
    | Panic _ => True end) r.
Proof.
  revert ca r. induction conns as [|c conns IH]; intros ca r; cbn [compile_all].
  { apply wp_ret. exists [], []. split; [apply made_nil|]. split; cbn; by rewrite ?app_nil_r. }
  unfold sources_of, sink_names, enabled in *.
  destruct (cs_Enabled (cn_Spec c)) eqn:Een; cbn [negb].
  2: { eapply wp_mono; [apply IH|]. cbv beta. intros [ca'|e|p] r'; [|done..]. intros (a & s & Hm & [C1 C2 C3 C4 C5]). exists a, s.
       split; [done|]. unfold sources_of, sink_names, enabled in *. split; unfold sources_of, sink_names, enabled in *; cbn [List.filter]; by rewrite ?Een. }
  destruct (cn_Kind c =s "Source") eqn:Ek.
  - destruct (CompileSource _ c) as [a0|e|p] eqn:Ec; [| |done].
    + apply wp_bind. eapply wp_run; [done|]. cbv beta iota. eapply wp_mono; [apply IH|]. cbv beta.
      pose proof (made_adapter r) as Hm0. change (new_adapter r).2 with (with_next (with_live_set (λ l, {[rt_next r]} ∪ l) r)) in Hm0.
      intros [ca'|e|p] r'; [| |done].
      * intros (a & s & Hm & [C1 C2 C3 C4 C5]). exists (rt_next r :: a), s. split; [by eapply (made_trans _ _ _ _ _ _ _ Hm0)|].
        cbn [ca_adapters ca_sinks ca_made ca_opened] in *.
        assert (is_source c = true) as His by done.
        split; unfold sources_of, sink_names, enabled in *; cbn [List.filter]; rewrite ?Een; cbn [List.filter]; rewrite ?His; cbn [negb omap list_omap].
        -- rewrite Ec, C1. cbn. by rewrite <- app_assoc.
        -- rewrite C2. by rewrite <- app_assoc.
        -- done.
        -- done.
        -- done.
      * intros (a & s & r1 & Hm & ->). exists (rt_next r :: a), s, r1. split; [by eapply (made_trans _ _ _ _ _ _ _ Hm0)|].
        cbn [ca_opened ca_made]. by rewrite <- app_assoc.
    + apply wp_bind. eapply wp_run; [done|]. cbv beta iota. apply wp_fail. exists [], [], r. split; [apply made_nil|]. by rewrite !app_nil_r.
  - destruct (CompileSink _ c) as [s0|e|p] eqn:Ec; [| |done].
    + apply wp_bind. eapply wp_run; [done|]. cbv beta iota. eapply wp_mono; [apply IH|]. cbv beta.
      pose proof (made_sink r) as Hm0. change (new_sink r).2 with (with_next (with_open_set (λ l, {[rt_next r]} ∪ l) r)) in Hm0.
      intros [ca'|e|p] r'; [| |done].
      * intros (a & s & Hm & [C1 C2 C3 C4 C5]). exists a, (rt_next r :: s). split; [by eapply (made_trans _ _ _ _ _ _ _ Hm0)|].
        cbn [ca_adapters ca_sinks ca_made ca_opened] in *.
        assert (is_source c = false) as His by done.
        split; unfold sources_of, sink_names, enabled in *; cbn [List.filter]; rewrite ?Een; cbn [List.filter]; rewrite ?His; cbn [negb omap list_omap].
        -- done.
        -- done.
        -- rewrite C3. by rewrite <- app_assoc.
        -- cbn. by rewrite C4.
        -- rewrite C5. done.
      * intros (a & s & r1 & Hm & ->). exists a, (rt_next r :: s), r1. split; [by eapply (made_trans _ _ _ _ _ _ _ Hm0)|].
        cbn [ca_opened ca_made]. by rewrite <- app_assoc.
    + apply wp_bind. eapply wp_run; [done|]. cbv beta iota. apply wp_fail. exists [], [], r. split; [apply made_nil|]. by rewrite !app_nil_r.
Qed.

Lemma sinks_with_union m l : NoDup l.*1 → sinks_with m l = list_to_map l ∪ m.
Proof.
  unfold sinks_with. revert m. induction l as [|[k v] l IH]; intros m; cbn [fmap list_fmap fst]; [intros _; by rewrite left_id_L by apply _|].
  intros [Hk Hnd]%NoDup_cons. cbn [foldl fst snd]. rewrite IH by done.
  rewrite list_to_map_cons, <- insert_union_l, insert_union_r; [done|]. by apply not_elem_of_list_to_map_1.
Qed.
End compiled.

Section reconciled.
Context `{RuntimeEnv} (st : Statics).

(** Every number in use has been given. *)
Record numbered (r : Runtime) : Prop := {
  nb_live i : i ∈ rt_live r → (i < rt_next r)%nat;
  nb_open i : i ∈ rt_open r → (i < rt_next r)%nat;
  nb_output n i : rt_Output r !! n = Some i → (i < rt_next r)%nat }.

Lemma new_cancels (X : gset nat) l n : (∀ i, i ∈ X → (i < n)%nat) → Forall (λ i, n ≤ i)%nat l → (X ∪ list_to_set l) ∖ list_to_set l = X.
Proof.
  intros Hx Hl. rewrite Forall_forall in Hl. apply set_eq. intros i. rewrite elem_of_difference, elem_of_union, elem_of_list_to_set.
  split; [tauto|]. intros Hi. split; [by left|]. intros Hin. apply Hx in Hi. apply Hl in Hin. lia.
Qed.

Lemma failing_adapters l m : mg_adapters (failing l m) = mg_adapters m.
Proof.
  revert m. induction l as [|[i e] l IH]; intros m; [done|]. cbn [failing]. rewrite IH. unfold adapter_returns.
  destruct (mg_live m !! i); done.
Qed.

(** The adapters' manager: it refuses and is as it was, or it has the new adapters. *)
Lemma ingest_Reconcile_spec ca r :
  wp (ingest_Reconcile ca) (λ res r', rt_Output r' = rt_Output r ∧ rt_open r' = rt_open r ∧ rt_next r' = rt_next r ∧ rt_live r' ⊆ rt_live r
    ∧ match res with
      | Ok _ => mg_adapters (rt_Ingest r') = Some <$> ca_adapters ca
      | Err _ => rt_Ingest r' = rt_Ingest r ∧ rt_live r' = rt_live r ∨ mg_running (rt_Ingest r) = true ∧ startup ≠ []
      | Panic _ => False
      end) r.
Proof.
  unfold wp, ingest_Reconcile, Reconcile_begin. destruct (validateAdapters _); [split_and!; auto|]. destruct (mg_stopped _); [split_and!; auto|].
  destruct (mg_running (rt_Ingest r)) eqn:Er; cbn.
  - set (m3 := launch _ _ _). split_and!; [done..|set_solver|]. unfold probeStartup.
    destruct (mg_errs (failing startup m3)) as [|[name e] l] eqn:Ee; [by rewrite failing_adapters|]. right. split; [done|].
    intros E. rewrite E in Ee. done.
  - split_and!; done.
Qed.

Definition runtime_grew (r r' : Runtime) : Prop := (rt_next r ≤ rt_next r')%nat.

Lemma wp_Reconcile conns r :
  numbered r →
  wp (Reconcile st conns) (λ res r', match res with
    | Ok _ => (rt_next r ≤ rt_next r')%nat ∧ ∃ s, length s = length (sink_names conns) ∧ NoDup s ∧ Forall (λ i, rt_next r ≤ i < rt_next r')%nat s
        ∧ rt_Output r' = sinks_with (StaticSinks st) (zip (sink_names conns) s)
        ∧ rt_open r' = (rt_open r ∪ list_to_set s) ∖ replaced (rt_Output r) (rt_Output r')
        ∧ (∀ i, i ∈ rt_live r' → (i < rt_next r')%nat)
        ∧ mg_adapters (rt_Ingest r') = Some <$> (StaticAdapters st ++ (source_name <$> sources_of st conns))
    | Err _ => rt_Output r' = rt_Output r ∧ rt_open r' = rt_open r ∧ rt_live r' ⊆ rt_live r ∧ (rt_next r ≤ rt_next r')%nat
        ∧ (rt_Ingest r' = rt_Ingest r ∧ rt_live r' = rt_live r ∨ mg_running (rt_Ingest r) = true ∧ startup ≠ [])
    | Panic _ => True end) r.
Proof.
  intros [Nl No Nu]. unfold Reconcile. apply wp_bind. eapply wp_mono; [apply wp_compile_all|]. cbv beta. intros [ca|e|p] r1; [| |done].
  2: { intros (a & s & r0 & [I O U L P N F D] & ->). cbn [ca_opened ca_made no_candidates app]. apply Forall_app in F as [Fa Fs].
       cbn [with_open_set with_live_set rt_Ingest rt_Output rt_live rt_open rt_next].
       assert (rt_live r0 ∖ list_to_set a = rt_live r) as El.
       { rewrite L. apply (new_cancels _ _ (rt_next r)); [done|]. eapply Forall_impl; [exact Fa|]. cbn. lia. }
       assert (rt_open r0 ∖ list_to_set s = rt_open r) as Ep.
       { rewrite P. apply (new_cancels _ _ (rt_next r)); [done|]. eapply Forall_impl; [exact Fs|]. cbn. lia. }
       rewrite El, Ep. split_and!; [done..|left; done]. }
  intros (a & s & [I O U L P N F D] & [C1 C2 C3 C4 C5]). apply Forall_app in F as [Fa Fs].
  cbn [ca_opened ca_made ca_adapters ca_sinks no_candidates app] in *.
  apply wp_bind, wp_try. eapply wp_mono; [apply ingest_Reconcile_spec|]. cbv beta. intros res r2 (O2 & P2 & N2 & L2 & Hres).
  destruct res as [[]|e|p]; [| |done].
  - unfold output_Replace, wp. cbn [rt_Ingest rt_Output rt_live rt_open rt_next]. split; [by rewrite N2|]. exists s. rewrite C5, P2, P, O2, O, N2.
    split_and!; [done..| |].
    + intros i Hi%L2. rewrite L in Hi. apply elem_of_union in Hi as [Hi|Hi]; [apply Nl in Hi; lia|].
      rewrite elem_of_list_to_set in Hi. rewrite Forall_forall in Fa. apply Fa in Hi. lia.
    + by rewrite Hres, C1.
  - apply wp_bind. eapply wp_run; [done|]. cbv beta iota. apply wp_fail.
    cbn [with_open_set with_live_set rt_Ingest rt_Output rt_live rt_open rt_next]. rewrite C2, C3, P2, P, O2, O, N2.
    assert ((rt_open r ∪ list_to_set s) ∖ list_to_set s = rt_open r) as Ep.
    { apply (new_cancels _ _ (rt_next r)); [done|]. eapply Forall_impl; [exact Fs|]. cbn. lia. }
    assert ((rt_live r ∪ list_to_set a) ∖ list_to_set a = rt_live r) as El.
    { apply (new_cancels _ _ (rt_next r)); [done|]. eapply Forall_impl; [exact Fa|]. cbn. lia. }
    split_and!; [done|exact Ep|rewrite L in L2; set_solver|done|]. destruct Hres as [[E1 E2]|[E1 E2]]; [left|right; by rewrite I in E1].
    split; [congruence|]. by rewrite E2, L.
Qed.
End reconciled.

(** ** Every run *)

(** The names of the sinks differ, and from those of the static ones. *)
Definition acceptable (st : Statics) (conns : list Connection) : Prop :=
  NoDup (sink_names conns) ∧ ∀ n, n ∈ sink_names conns → StaticSinks st !! n = None.

Definition with_manager (m : Manager) (r : Runtime) : Runtime :=
  {| rt_Ingest := m; rt_Output := rt_Output r; rt_running := rt_running r; rt_live := rt_live r; rt_open := rt_open r; rt_next := rt_next r |}.

(** A reconcile, whatever the world is then, that does not panic; or anything the manager does
    by itself (its start, an adapter that returns). *)
Inductive runtime_step (st : Statics) : Runtime → Runtime → Prop :=
| step_reconciled (env : RuntimeEnv) conns res r r' :
    acceptable st conns → Reconcile st conns r = (res, r') → no_panic res → runtime_step st r r'
| step_managed m r : runtime_step st r (with_manager m r).

(** The open sinks are those in use, each under one name, the static ones among them. *)
Record in_use (st : Statics) (r : Runtime) : Prop := {
  iu_numbered : numbered r;
  iu_open i : i ∈ rt_open r ↔ ∃ n, rt_Output r !! n = Some i;
  iu_inj n n' i : rt_Output r !! n = Some i → rt_Output r !! n' = Some i → n = n';
  iu_static : StaticSinks st ⊆ rt_Output r }.

Lemma elem_of_replaced old next i : i ∈ replaced old next ↔ ∃ n, old !! n = Some i ∧ next !! n ≠ Some i.
Proof.
  unfold replaced. rewrite elem_of_list_to_set, list_elem_of_fmap. split.
  - intros ([n j] & -> & Hin). apply list_elem_of_filter in Hin as [Hne Hin%elem_of_map_to_list]. by exists n.
  - intros (n & Hn & Hne). exists (n, i). split; [done|]. apply list_elem_of_filter. split; [done|]. by apply elem_of_map_to_list.
Qed.

Lemma zip_fst {A B} (l : list A) (k : list B) : length k = length l → (zip l k).*1 = l.
Proof. intros Hl. apply fst_zip. lia. Qed.

(** The new snapshot, name by name. *)
Lemma snapshot_lookup (m : gmap string nat) names s n :
  NoDup names → length s = length names →
  sinks_with m (zip names s) !! n = match list_to_map (M := gmap string nat) (zip names s) !! n with Some i => Some i | None => m !! n end.
Proof. intros Hn Hl. rewrite sinks_with_union by by rewrite zip_fst. rewrite lookup_union. by destruct (list_to_map _ !! n), (m !! n). Qed.

Lemma snapshot_new names (s : list nat) n i :
  NoDup names → length s = length names → list_to_map (M := gmap string nat) (zip names s) !! n = Some i ↔ (n, i) ∈ zip names s.
Proof. intros Hn Hl. symmetry. apply elem_of_list_to_map. by rewrite zip_fst. Qed.

Lemma zip_inj {A} (l : list A) (k : list nat) x y i : NoDup k → (x, i) ∈ zip l k → (y, i) ∈ zip l k → x = y.
Proof.
  intros Hk (a & Ha)%list_elem_of_lookup (b & Hb)%list_elem_of_lookup. apply lookup_zip_with_Some in Ha as (x1 & i1 & [= -> ->] & Hx & Hi).
  apply lookup_zip_with_Some in Hb as (x2 & i2 & [= -> ->] & Hy & Hi'). assert (a = b) as -> by by eapply NoDup_lookup. congruence.
Qed.
Lemma zip_of_snd {A} (l : list A) (k : list nat) i : length k = length l → i ∈ k → ∃ x, (x, i) ∈ zip l k.
Proof.
  intros Hl (a & Ha)%list_elem_of_lookup. destruct (lookup_lt_is_Some_2 l a) as [x Hx]; [rewrite <- Hl; by eapply lookup_lt_Some|].
  exists x. apply list_elem_of_lookup. exists a. by rewrite lookup_zip_with, Hx, Ha.
Qed.
Lemma zip_snd_in {A} (l : list A) (k : list nat) x i : (x, i) ∈ zip l k → x ∈ l ∧ i ∈ k.
Proof. intros Hin. split; [by eapply elem_of_zip_l|by eapply elem_of_zip_r]. Qed.

Lemma reconciled_in_use st `{RuntimeEnv} conns r r' :
  acceptable st conns → in_use st r → Reconcile st conns r = (Ok (), r') → in_use st r'.
Proof.
  intros [Hnd Hdis] [Hnum Hopen Hinj Hst] E. pose proof (wp_elim _ _ _ _ _ (wp_Reconcile st conns r Hnum) E) as (Hnext & s & Hlen & Hs & Hnew & Ho & Hp & Hl & _).
  cbv beta in *. rewrite Forall_forall in Hnew.
  assert (∀ n i, rt_Output r' !! n = Some i ↔ (n, i) ∈ zip (sink_names conns) s ∨ StaticSinks st !! n = Some i) as Hlook.
  { intros n i. rewrite Ho, snapshot_lookup by done. destruct (list_to_map _ !! n) as [j|] eqn:Ej.
    - apply snapshot_new in Ej; [|done..]. pose proof (zip_snd_in _ _ _ _ Ej) as [Hn _]. rewrite (Hdis n Hn). split; [by intros [= <-]; left|].
      intros [Hi|?]; [|done]. f_equal. apply (snapshot_new _ _ _ _ Hnd Hlen) in Ej, Hi. congruence.
    - split; [by right|]. intros [Hi|?]; [|done]. apply (snapshot_new _ _ _ _ Hnd Hlen) in Hi. congruence. }
  assert (∀ n i, StaticSinks st !! n = Some i → rt_Output r !! n = Some i) as Hold by (intros n i Hn; by eapply lookup_weaken).
  assert (∀ n i j, (n, i) ∈ zip (sink_names conns) s → rt_Output r !! j = Some i → False) as Hfresh.
  { intros n i j Hz%zip_snd_in Hj%(nb_output _ Hnum). destruct Hz as [_ Hi%Hnew]. lia. }
  split.
  - split; [done| |].
    + intros i. rewrite Hp, elem_of_difference, elem_of_union, elem_of_list_to_set. intros [[Hi%(nb_open _ Hnum)|Hi%Hnew] _]; lia.
    + intros n i [Hz|Hs0]%Hlook; [apply zip_snd_in in Hz as [_ Hi%Hnew]; lia|]. apply Hold, (nb_output _ Hnum) in Hs0. lia.
  - intros i. rewrite Hp, elem_of_difference, elem_of_union, elem_of_list_to_set, elem_of_replaced. split.
    + intros [[Hi|Hi] Hkeep].
      * apply Hopen in Hi as [n Hn]. destruct (decide (rt_Output r' !! n = Some i)) as [|Hne]; [by exists n|]. destruct Hkeep. by exists n.
      * destruct (zip_of_snd (sink_names conns) s i Hlen Hi) as [n Hz]. exists n. apply Hlook. by left.
    + intros [n Hn]. pose proof Hn as Hn'. apply Hlook in Hn' as [Hz|Hs0].
      * split; [right; apply (zip_snd_in _ _ _ _ Hz)|]. intros (j & Hj & _). by eapply Hfresh.
      * split; [left; apply Hopen; exists n; by apply Hold|]. intros (j & Hj & Hne). rewrite (Hinj _ _ _ Hj (Hold _ _ Hs0)) in Hne. done.
  - intros n n' i [Hz|Hs0]%Hlook [Hz'|Hs0']%Hlook; [by eapply zip_inj| | |by eapply Hinj; apply Hold].
    + exfalso. eapply Hfresh; [exact Hz|by apply Hold].
    + exfalso. eapply Hfresh; [exact Hz'|by apply Hold].
  - apply map_subseteq_spec. intros n i Hs0. apply Hlook. by right.
Qed.

Lemma refused_in_use st `{RuntimeEnv} conns r e r' : in_use st r → Reconcile st conns r = (Err e, r') → in_use st r'.
Proof.
  intros [[Nl No Nu] Hopen Hinj Hst] E. pose proof (wp_elim _ _ _ _ _ (wp_Reconcile st conns r (Build_numbered _ Nl No Nu)) E) as (Ho & Hp & Hl & Hn & _).
  split; rewrite ?Ho, ?Hp; try done. split; rewrite ?Ho, ?Hp.
  - intros i Hi%Hl%Nl. lia.
  - intros i Hi%No. lia.
  - intros n i Hi%Nu. lia.
Qed.

Lemma runtime_step_in_use st r r' : runtime_step st r r' → in_use st r → in_use st r'.
Proof.
  intros [env conns res r0 r1 Ha E Hnp|m r0] Hi.
  - destruct res as [[]|e|p]; [by eapply reconciled_in_use|by eapply refused_in_use|done].
  - destruct Hi as [[] ? ? ?]. by split.
Qed.

(** ** The theorems *)

(** C22: over every run of reconciles, whatever files, secrets, clients and adapters fail in
    each, the sinks that are open are exactly those the dynamic sink routes to, each under one
    name, and the static sinks among them: no event is routed to a sink that was closed, and no
    sink that was made is left open.  (The connections' sinks bear names of their own.) *)
Theorem runtime_sinks_exact (st : Statics) (r r' : Runtime) : in_use st r → rtc (runtime_step st) r r' → in_use st r'.
Proof. intros Hi. induction 1 as [|r1 r2 r3 Hs _ IH]; [done|]. apply IH. by eapply runtime_step_in_use. Qed.

(** C23: a reconcile takes effect as a whole or not at all.  Where it succeeds, the manager has
    the static adapters and that of each enabled source, in order, and the dynamic sink has a new
    open sink under the name of each enabled sink connection and, apart from these, the static
    ones.  Where it fails, the sinks are those it found and open as they were, every candidate
    it made was stopped or closed, and the manager is as it was, unless an adapter failed to start
    once the running ones had been replaced. *)
Theorem Reconcile_all_or_nothing (env : RuntimeEnv) (st : Statics) (conns : list Connection) (r r' : Runtime) (res : res unit) :
  numbered r → NoDup (sink_names conns) → Reconcile st conns r = (res, r') →
  (res = Ok () →
     mg_adapters (rt_Ingest r') = Some <$> (StaticAdapters st ++ (source_name <$> sources_of st conns))
     ∧ (∀ n, n ∈ sink_names conns → ∃ i, rt_Output r' !! n = Some i ∧ (rt_next r ≤ i)%nat ∧ i ∈ rt_open r')
     ∧ (∀ n, n ∉ sink_names conns → rt_Output r' !! n = StaticSinks st !! n))
  ∧ (∀ e, res = Err e →
     rt_Output r' = rt_Output r ∧ rt_open r' = rt_open r ∧ rt_live r' ⊆ rt_live r
     ∧ (rt_Ingest r' = rt_Ingest r ∧ rt_live r' = rt_live r ∨ mg_running (rt_Ingest r) = true ∧ startup ≠ [])).
Proof.
  intros Hnum Hnd E. pose proof (wp_elim _ _ _ _ _ (wp_Reconcile st conns r Hnum) E) as Hw. split.
  - intros ->. destruct Hw as (Hnext & s & Hlen & Hs & Hnew & Ho & Hp & Hl & Hm). split; [done|]. rewrite Forall_forall in Hnew. split.
    + intros n Hn. apply list_elem_of_lookup in Hn as [a Ha]. destruct (lookup_lt_is_Some_2 s a) as [i Hi]; [rewrite Hlen; by eapply lookup_lt_Some|].
      assert ((n, i) ∈ zip (sink_names conns) s) as Hz by (apply list_elem_of_lookup; exists a; by rewrite lookup_zip_with, Ha, Hi).
      pose proof (Hnew i (proj2 (zip_snd_in _ _ _ _ Hz))) as Hri.
      exists i. split; [rewrite Ho, snapshot_lookup by done; by rewrite (proj2 (snapshot_new _ _ _ _ Hnd Hlen) Hz)|]. split; [lia|].
      rewrite Hp, elem_of_difference, elem_of_union, elem_of_list_to_set, elem_of_replaced. split; [right; by eapply list_elem_of_lookup_2|].
      intros (j & Hj%(nb_output _ Hnum) & _). lia.
    + intros n Hn. rewrite Ho, snapshot_lookup by done. destruct (list_to_map _ !! n) as [i|] eqn:Ei; [|done].
      apply (snapshot_new _ _ _ _ Hnd Hlen), zip_snd_in in Ei as [? _]. done.
  - intros e ->. destruct Hw as (Ho & Hp & Hl & _ & Hi). by split_and!.
Qed.

(** ** Validated connections *)

(** The library's functions return: they do not panic. *)
Class CalmRuntime `{RuntimeEnv} := {
  calm_file dir name : no_panic (secret_file dir name);
  calm_json s : no_panic (secret_json s);
  calm_duration s : no_panic (ParseDuration s);
  calm_pair c k : no_panic (LoadX509KeyPair c k);
  calm_pem f : no_panic (read_pem f);
  calm_consumer cfg : no_panic (new_consumer cfg);
  calm_producer opts : no_panic (new_producer opts);
  calm_ndjson p : no_panic (open_ndjson p) }.

Section validated.
Context `{CalmRuntime} `{ConnEnv}.

Lemma Resolve_panicless dir ref : no_panic (Resolve dir ref).
Proof.
  unfold Resolve. destruct (ref =s ""); [done|]. cbv zeta. destruct (_ =s ""); [done|]. unfold parse_secret.
  destruct (HasPrefix _ _); [|by destruct (IndexByte _ _) as [[]|]].
  match goal with |- context [secret_json ?x] => pose proof (calm_json x); by destruct (secret_json x) end.
Qed.
Lemma duration_panicless v d : no_panic (duration v d).
Proof. unfold duration. destruct (v =s ""); [done|]. apply calm_duration. Qed.
Lemma tlsFiles_panicless c k ca : no_panic (tlsFiles c k ca).
Proof.
  unfold tlsFiles. apply bind_panicless; [apply calm_pair|]. intros _. destruct (ca <>s ""); [|done].
  apply bind_panicless; [apply calm_pem|]. intros b. by destruct (AppendCertsFromPEM b).
Qed.
Lemma delivery_panicless d : no_panic (delivery_settings d).
Proof.
  destruct d as [d|]; [|done]. cbn [delivery_settings]. apply bind_panicless; [apply duration_panicless|]. intros flush.
  apply bind_panicless; [|done]. destruct (ds_Retry d) as [r|]; [|done]. cbn [retry_settings].
  apply bind_panicless; [apply duration_panicless|]. intros min. apply bind_panicless; [apply duration_panicless|done].
Qed.

(** What a validated connection that dereferences its endpoint has. *)
Lemma checked_endpoint c :
  check_spec (cn_Spec c) = None → cs_Type (cn_Spec c) = "cloud_pull" ∨ cs_Type (cn_Spec c) = "http_output" → no_panic (endpoint c).
Proof.
  unfold check_spec, endpoint. destruct (cs_Endpoint (cn_Spec c)); [done|]. intros Hc [Ht|Ht]; rewrite Ht in Hc; cbn in Hc; done.
Qed.

Lemma CompileSource_panicless dir c : check_spec (cn_Spec c) = None → no_panic (CompileSource dir c).
Proof.
  intros Hc. unfold CompileSource. apply bind_panicless; [apply Resolve_panicless|]. intros sec. cbv zeta.
  destruct (String.eqb_spec (cs_Type (cn_Spec c)) "cloud_pull") as [Ht|_].
  { apply bind_panicless; [apply checked_endpoint; auto|]. intros ep. apply bind_panicless; [apply duration_panicless|]. intros d.
    apply bind_panicless; [apply duration_panicless|done]. }
  destruct (_ =s "kafka_input").
  { destruct (kafkaSecret sec) as [u p]. unfold NewBrokerKafkaAdapter. cbn [ki_Topics].
    destruct (match cs_Topics _ with [] => _ | _ => _ end) as [|t l]; [done|]. apply bind_panicless; [|done].
    unfold NewBrokerKafkaConsumer. cbn [ki_Brokers ki_Topics ki_ConsumerGroup]. destruct (cs_Brokers _); [done|].
    destruct (_ =s ""); [done|]. apply calm_consumer. }
  destruct (_ =s "syslog_tls"); [|done]. apply bind_panicless; [apply tlsFiles_panicless|done].
Qed.

Lemma CompileSink_panicless dir c : check_spec (cn_Spec c) = None → no_panic (CompileSink dir c).
Proof.
  intros Hc. unfold CompileSink. apply bind_panicless; [apply Resolve_panicless|]. intros sec. cbv zeta.
  destruct (_ =s "ndjson_output"); [apply bind_panicless; [apply calm_ndjson|done]|]. destruct (_ =s "parquet_output"); [done|].
  destruct (_ =s "kafka_output").
  { apply bind_panicless; [apply duration_panicless|]. intros linger. destruct (kafkaSecret sec) as [u p]. cbn [ko_Brokers].
    destruct (cs_Brokers _); [done|]. apply bind_panicless; [apply calm_producer|done]. }
  destruct (String.eqb_spec (cs_Type (cn_Spec c)) "http_output") as [Ht|_]; [|done].
  apply bind_panicless; [apply checked_endpoint; auto|]. intros ep. apply bind_panicless; [apply duration_panicless|]. intros to.
  apply bind_panicless; [apply delivery_panicless|]. by intros [[[format batch] flush] [[attempts min] max]].
Qed.

Lemma compile_all_panicless st conns ca :
  Forall (λ c, check_spec (cn_Spec c) = None) conns → panicless (compile_all st conns ca).
Proof.
  intros Hc. revert ca. induction Hc as [|c conns Hc _ IH]; intros ca; cbn [compile_all]; [by intros s|].
  destruct (negb _); [done|]. destruct (_ =s "Source").
  - pose proof (CompileSource_panicless (SecretsDir st) c Hc). destruct (CompileSource _ c) as [a|e|p]; [|by intros s|done].
    apply panicless_bind; [by intros s|]. intros i. apply IH.
  - pose proof (CompileSink_panicless (SecretsDir st) c Hc). destruct (CompileSink _ c) as [a|e|p]; [|by intros s|done].
    apply panicless_bind; [by intros s|]. intros i. apply IH.
Qed.
Lemma connection_valid_spec c : Validate c = None → check_spec (cn_Spec c) = None.
Proof. unfold Validate. destruct (_ <>s _); [done|]. destruct (check_kind c); [done|]. by destruct (check_metadata c). Qed.
End validated.

(** Connections that validation accepted cannot crash the process: whatever the secrets,
    durations, certificates and clients turn out to be, a reconcile of them ends with success or
    with an error (a missing endpoint, which compiling would dereference, is refused by Validate). *)
Theorem Reconcile_panicless (env : RuntimeEnv) (calm : CalmRuntime) (cenv : ConnEnv) (st : Statics) (conns : list Connection) (r : Runtime) :
  Forall (λ c, Validate c = None) conns → no_panic (Reconcile st conns r).1.
Proof.
  intros Hv. revert r. change (panicless (Reconcile st conns)). unfold Reconcile.
  apply panicless_bind; [apply compile_all_panicless; eapply Forall_impl; [exact Hv|apply connection_valid_spec]|]. intros ca.
  apply panicless_tried; [|by intros [[]|e|p] Hr; [intros s|apply panicless_bind; intros s|]].
  intros r. pose proof (ingest_Reconcile_spec ca r) as Hw. unfold wp in Hw. destruct (ingest_Reconcile ca r) as [[[]|e|p] r']; [done..|].
  by destruct Hw as (_ & _ & _ & _ & ?).
Qed.

(** ** A concrete runtime *)

#[export] Instance sample_runtime : RuntimeEnv := {|
  os_Getenv _ := ""; secret_file _ _ := Err io_failure; secret_json _ := Ok no_secret;
  ParseDuration s := if s =s "5s" then Ok (5 * second) else Err (errors_New "time: invalid duration");
  LoadX509KeyPair _ _ := Ok (); read_pem _ := Ok ""; AppendCertsFromPEM _ := true; new_consumer _ := Ok (); new_producer _ := Ok ();
  open_ndjson _ := Ok (); abs_path p := [p]; startup := [] |}.
#[export] Instance sample_calm : CalmRuntime.
Proof. split; try done. intros s. cbn. by destruct (s =s "5s"). Defined.

Definition conn (kind name type secret : string) (ep : option EndpointSpec) : Connection := {|
  cn_APIVersion := "worm.io/v1"; cn_Kind := kind; cn_Name := name; cn_Version := "1.0.0";
  cn_Spec := {| cs_Type := type; cs_Enabled := true; cs_Delivery := None; cs_Endpoint := ep; cs_Brokers := []; cs_Topic := "";
    cs_Topics := []; cs_Key := ""; cs_Acks := ""; cs_Idempotent := false; cs_Compression := ""; cs_BatchBytes := 0; cs_Linger := "";
    cs_ConsumerGroup := ""; cs_Path := "out"; cs_PartitionBy := []; cs_MaxRowsPerFile := 0; cs_Manifest := false;
    cs_SecretRef := secret; cs_Listen := ":6514"; cs_TLSCertFile := "c"; cs_TLSKeyFile := "k"; cs_ClientCAFile := "" |} |}.
Definition pull_endpoint : EndpointSpec := {|
  ep_URL := "https://example.com"; ep_Timeout := "5s"; ep_SecretRef := ""; ep_AuthHeader := ""; ep_Interval := ""; ep_BatchSize := 0; ep_WatermarkPath := "" |}.
Definition two_conns : list Connection := [conn "Source" "audit" "cloud_pull" "" (Some pull_endpoint); conn "Sink" "lake" "ndjson_output" "" None].
Definition bad_conns : list Connection := [conn "Sink" "other" "ndjson_output" "" None; conn "Source" "audit" "cloud_pull" "missing" (Some pull_endpoint)].

(** The process starts with a file as its static sink. *)
Definition sample_statics : Statics := {| StaticAdapters := ["http-post"]; StaticSinks := {[ "cli-ndjson" := 0%nat ]}; SecretsDir := "secrets" |}.
Definition started_with (m : Manager) : Runtime :=
  {| rt_Ingest := m; rt_Output := StaticSinks sample_statics; rt_running := []; rt_live := ∅; rt_open := {[ 0%nat ]}; rt_next := 1 |}.
Definition runtime_start : Runtime := started_with NewManager.
Definition manager_running : Manager := match Start NewManager with Ok m => m | _ => NewManager end.

Lemma start_numbered m : numbered (started_with m).
Proof.
  split; cbn; intros *; [set_solver|intros ->%elem_of_singleton; lia|]. intros [_ <-]%lookup_singleton_Some. lia.
Qed.
Lemma start_in_use m : in_use sample_statics (started_with m).
Proof.
  split; [apply start_numbered|..]; cbn.
  - intros i. rewrite elem_of_singleton. split; [intros ->; by exists "cli-ndjson"|]. by intros (n & [_ <-]%lookup_singleton_Some).
  - by intros n n' i [<- _]%lookup_singleton_Some [<- _]%lookup_singleton_Some.
  - done.
Qed.
Lemma two_acceptable : acceptable sample_statics two_conns.
Proof.
  split; [apply NoDup_singleton|]. intros n ->%list_elem_of_singleton. by vm_compute.
Qed.

Lemma runtime_sinks_exact_witness :
  let r1 := (Reconcile sample_statics two_conns runtime_start).2 in
  (Reconcile sample_statics two_conns runtime_start).1 = Ok () ∧ rt_Output r1 = {[ "cli-ndjson" := 0%nat; "lake" := 2%nat ]}
  ∧ in_use sample_statics r1.
Proof.
  cbv zeta. split; [vm_compute; reflexivity|]. split; [vm_compute; reflexivity|].
  apply (runtime_sinks_exact sample_statics runtime_start); [apply start_in_use|]. apply rtc_once.
  apply (step_reconciled _ sample_runtime two_conns (Reconcile sample_statics two_conns runtime_start).1); [exact two_acceptable|apply surjective_pairing|exact I].
Defined.

Lemma Reconcile_all_or_nothing_witness :
  let '(res, r') := Reconcile sample_statics bad_conns runtime_start in
  numbered runtime_start ∧ NoDup (sink_names bad_conns) ∧ is_ok res = false ∧ rt_next r' = 2%nat
  ∧ rt_Output r' = rt_Output runtime_start ∧ rt_open r' = rt_open runtime_start.
Proof.
  destruct (Reconcile sample_statics bad_conns runtime_start) as [res r'] eqn:E. split; [exact (start_numbered _)|].
  assert (NoDup (sink_names bad_conns)) as Hn by (apply NoDup_singleton). split; [exact Hn|].
  assert ((∃ e, res = Err e) ∧ rt_next r' = 2%nat) as [[e He] Hx] by (vm_compute in E; injection E as <- <-; split; [by eexists|reflexivity]).
  destruct (Reconcile_all_or_nothing sample_runtime sample_statics bad_conns runtime_start r' res (start_numbered _) Hn E) as [_ Hr].
  destruct (Hr e He) as (Ho & Hp & _). subst res. by split_and!.
Defined.

Lemma Reconcile_panicless_witness :
  let cenv := sample_conn_env (λ _, false) (λ _, false) in
  Forall (λ c, @Validate cenv c = None) bad_conns ∧ no_panic (Reconcile sample_statics bad_conns runtime_start).1.
Proof.
  cbv zeta. assert (Forall (λ c, @Validate (sample_conn_env (λ _, false) (λ _, false)) c = None) bad_conns) as Hv
    by (apply Forall_cons_2; [|apply Forall_cons_2; [|apply Forall_nil_2]]; vm_compute; reflexivity).
  split; [exact Hv|]. exact (Reconcile_panicless sample_runtime sample_calm (sample_conn_env (λ _, false) (λ _, false)) sample_statics bad_conns runtime_start Hv).
Defined.

(** A source without an endpoint, which validation refuses, would crash it. *)
Lemma unvalidated_panics : no_panic (Reconcile sample_statics [conn "Source" "audit" "cloud_pull" "" None] runtime_start).1 → False.
Proof. vm_compute. done. Qed.

(** A connection with the name of a static sink takes its place, and the static sink is closed;
    when the connection is removed the closed sink is put back, and gets the events. *)
Lemma static_sink_put_back_closed :
  let r1 := (Reconcile sample_statics [conn "Sink" "cli-ndjson" "ndjson_output" "" None] runtime_start).2 in
  let '(res, r2) := Reconcile sample_statics [] r1 in
  res = Ok () ∧ rt_Output r2 = {[ "cli-ndjson" := 0%nat ]} ∧ bool_decide (0%nat ∈ rt_open r2) = false.
Proof. vm_compute. done. Qed.

(** An adapter that fails once the running ones were replaced: the reconcile is refused and its
    adapter stopped, but the manager has it and no longer the old one, beside the old sinks. *)
Definition failing_runtime : RuntimeEnv := {|
  os_Getenv _ := ""; secret_file _ _ := Err io_failure; secret_json _ := Ok no_secret; ParseDuration _ := Ok second;
  LoadX509KeyPair _ _ := Ok (); read_pem _ := Ok ""; AppendCertsFromPEM _ := true; new_consumer _ := Ok (); new_producer _ := Ok ();
  open_ndjson _ := Ok (); abs_path p := [p]; startup := [(1%nat, io_failure)] |}.
Lemma late_failure_mixes :
  let r1 := (Reconcile sample_statics two_conns (started_with manager_running)).2 in
  let '(res, r2) := @Reconcile failing_runtime sample_statics [conn "Source" "tls" "syslog_tls" "" None] r1 in
  is_ok res = false ∧ mg_adapters (rt_Ingest r1) = [Some "http-post"; Some "cloud-pull-audit"]
  ∧ mg_adapters (rt_Ingest r2) = [Some "http-post"; Some "syslog-tls"] ∧ rt_Output r2 = rt_Output r1
  ∧ elements (rt_live r1) = [1%nat] ∧ elements (rt_live r2) = [].
Proof. vm_compute. done. Qed.

(** Every Syslog TLS source has the same adapter name: two cannot be enabled at once. *)
Lemma two_tls_sources_refused :
  let res := (Reconcile sample_statics [conn "Source" "a" "syslog_tls" "" None; conn "Source" "b" "syslog_tls" "" None] runtime_start).1 in
  res = Err (Errorf "duplicate adapter %q" [AStr "syslog-tls"]).
Proof. vm_compute. done. Qed.
