(* ===== verification/CatalogSpec.v ===== *)
(** * What a verified catalogue is, and which release is chosen from it *)

From S2P Require Import Prelude GoStrings GoNum GoRegexp GoPath Model PackStore Catalog MarketSamples.

(** ** Well-formed catalogues *)

Section spec.
Context `{SemVer} `{CatalogEnv} `{PackCodec}.

Definition name_byte (c : ascii) : bool := (97 <=? bz c) && (bz c <=? 122) || is_digit c || (c =b "-"%char).
Definition rel_version (r : Release) : string := normalizeVersion (Version r).

(** Where an artifact is kept below the cache of a store, and below a bundle. *)
Definition artifact_key (p : CatalogPack) (r : Release) : list string := [cp_Name p; Version r].
Definition artifact_parts (p : CatalogPack) (r : Release) : list string := ["packs"; cp_Name p; Version r; "pack.yaml"].

Record valid_release (p : CatalogPack) (r : Release) : Prop := {
  vr_version : semver_IsValid (rel_version r) = true;
  vr_element : plain_element (Version r) = true;
  vr_bytes : all_bytes version_byte (Version r) = true;
  vr_metadata : PackAPI r ≠ "" ∧ OCSF r ≠ "";
  vr_size : 0 < Size r ≤ 2 * 2 ^ 20;
  vr_min : MinWORM r = "" ∨ semver_IsValid (normalizeVersion (MinWORM r)) = true;
  vr_decoders : hasSupportedDecoders r = true;
  vr_sha : slen (SHA256 r) = 64 ∧ is_Some (hex_DecodeString (SHA256 r));
  vr_path : Artifact r = Join (artifact_parts p r) "/";
}.

Record valid_pack (p : CatalogPack) : Prop := {
  vp_name : all_bytes name_byte (cp_Name p) = true ∧ cp_Name p ≠ "";
  vp_some : Releases p ≠ [];
  vp_unique : NoDup (rel_version <$> Releases p);
  vp_releases : ∀ r, r ∈ Releases p → valid_release p r;
}.

Record valid_catalog (c : Catalog) : Prop := {
  vc_version : c_Version c = CatalogVersion;
  vc_unique : NoDup (cp_Name <$> c_Packs c);
  vc_packs : ∀ p, p ∈ c_Packs c → valid_pack p;
}.

Lemma packName_spec s : MatchString packName s = true → all_bytes name_byte s = true ∧ s ≠ "".
Proof.
  intros (r & rs & Er & Hr & Hrs)%MatchString_chars. split; [|by intros ->].
  assert (all_bytes (λ c, (λ z, ((97 <=? z) && (z <=? 122)) || ((48 <=? z) && (z <=? 57)) || (z =? 45)) (bz c)) s = true) as Hs.
  { apply (runes_ascii_bytes (λ z, ((97 <=? z) && (z <=? 122)) || ((48 <=? z) && (z <=? 57)) || (z =? 45))). rewrite Er.
    unfold cls_range, cls_lit in *.
    change (bz "a") with 97 in *. change (bz "z") with 122 in *. change (bz "0") with 48 in *. change (bz "9") with 57 in *. change (bz "-") with 45 in *.
    constructor; [split; lia|]. eapply Forall_impl; [exact Hrs|]. intros x Hx. cbn beta in Hx. split; lia. }
  eapply all_bytes_impl; [|exact Hs]. intros c. unfold name_byte, is_digit. cbn beta. rewrite !orb_true_iff. intros [[?|?]|Hd]; [auto..|].
  right. apply Ascii.eqb_eq. apply Z.eqb_eq in Hd. apply bz_inj. by rewrite Hd.
Qed.

Lemma plain_head c s :
  (c =b "."%char) = false → all_bytes (λ c, c <>b "/"%char) (String c s) = true → plain_element (String c s) = true.
Proof. intros Hc Hs. unfold plain_element. rewrite Hs. cbn [String.eqb]. by rewrite Hc. Qed.

Lemma no_slash (p : ascii → bool) s : p "/"%char = false → all_bytes p s = true → all_bytes (λ c, c <>b "/"%char) s = true.
Proof. intros Hp. apply all_bytes_impl. intros c Hc. apply negb_true_iff, Ascii.eqb_neq. intros ->. congruence. Qed.

Lemma name_plain s : all_bytes name_byte s = true → s ≠ "" → plain_element s = true.
Proof.
  intros Hs Hne. destruct s as [|c s]; [done|]. apply plain_head; [|by apply (no_slash name_byte)].
  apply Ascii.eqb_neq. by intros ->.
Qed.

Lemma version_plain r : TrimSpace (Version r) = Version r → semver_IsValid (rel_version r) = true →
  plain_element (Version r) = true ∧ all_bytes version_byte (Version r) = true.
Proof.
  unfold rel_version, normalizeVersion. intros -> (d & t & E & Hd & Ht)%semver_text.
  assert (all_bytes version_byte (String d t) = true) as Hdt by (cbn [all_bytes]; unfold version_byte at 1; by rewrite Hd).
  destruct (String.eqb_spec (Version r) "") as [Hv|Hv]; cbn [negb andb] in E; [by rewrite Hv in E|].
  destruct (HasPrefix (Version r) "v"); cbn [negb] in E; [|injection E as E]; rewrite E; (split; [apply plain_head|]).
  - done.
  - by apply (no_slash version_byte).
  - done.
  - apply Ascii.eqb_neq. by intros ->.
  - by apply (no_slash version_byte).
  - done.
Qed.

Lemma check_decoders_ok p r ds : check_decoders p r ds = Ok () → forallb (λ d, decoderCapabilities (ToLower d)) ds = true.
Proof. induction ds as [|d ds IH]; [done|]. cbn [check_decoders forallb]. destruct (decoderCapabilities (ToLower d)); [apply IH|done]. Qed.

Lemma check_release_ok p versions r versions' :
  check_release p versions r = Ok versions' → valid_release p r ∧ rel_version r ∉ versions ∧ versions' = {[rel_version r]} ∪ versions.
Proof.
  unfold check_release. cbv zeta. fold (rel_version r).
  destruct (_ || _) eqn:E1; [done|]. apply orb_false_iff in E1 as [E1 _]. apply negb_false_iff, String.eqb_eq in E1.
  destruct (_ || _) eqn:E2; [done|]. apply orb_false_iff in E2 as [E2 E2']. apply negb_false_iff in E2. apply bool_decide_eq_false in E2'.
  destruct (_ || _) eqn:E3; [done|]. apply orb_false_iff in E3 as [?%String.eqb_neq ?%String.eqb_neq].
  destruct (_ || _) eqn:E4; [done|]. apply orb_false_iff in E4 as [?%Z.leb_gt ?%Z.ltb_ge].
  destruct (_ && _) eqn:E5; [done|]. apply andb_false_iff in E5. rewrite !negb_false_iff in E5. rewrite String.eqb_eq in E5.
  destruct (_ && _); [done|]. intros ([] & Hd%check_decoders_ok & H')%res_bind_ok.
  destruct (_ || _) eqn:E6 in H'; [done|]. apply orb_false_iff in E6 as [E6 E6']. apply negb_false_iff in E6, E6'.
  apply Z.eqb_eq in E6. apply bool_decide_eq_true in E6'.
  destruct (is_ok _) eqn:E7 in H'; [|done]. injection H' as <-. split; [|done]. split; try done; [by apply version_plain|by apply version_plain|].
  unfold validateArtifactPath in E7. destruct (_ || _) eqn:E8 in E7; [done|]. apply orb_false_iff in E8 as [_ E8].
  by apply negb_false_iff, String.eqb_eq in E8.
Qed.

Lemma check_releases_ok p versions rs :
  check_releases p versions rs = Ok () →
  NoDup (rel_version <$> rs) ∧ (∀ r, r ∈ rs → valid_release p r ∧ rel_version r ∉ versions).
Proof.
  revert versions. induction rs as [|r rs IH]; intros versions; [split; [constructor|by intros ? ?%elem_of_nil]|].
  cbn [check_releases]. intros (versions' & (Hr & Hv & ->)%check_release_ok & [Hn Hrs]%IH)%res_bind_ok. split.
  - rewrite fmap_cons. constructor; [|done]. intros (r' & E & Hr')%list_elem_of_fmap. destruct (Hrs _ Hr') as [_ Hx]. set_solver.
  - intros r' [->|Hr']%elem_of_cons; [done|]. destruct (Hrs _ Hr') as [? Hx]. split; [done|]. set_solver.
Qed.

Lemma check_packs_ok seen ps :
  check_packs seen ps = Ok () → NoDup (cp_Name <$> ps) ∧ (∀ p, p ∈ ps → valid_pack p ∧ cp_Name p ∉ seen).
Proof.
  revert seen. induction ps as [|p ps IH]; intros seen; [split; [constructor|by intros ? ?%elem_of_nil]|].
  cbn [check_packs]. destruct (_ || _) eqn:E; [done|]. apply orb_false_iff in E as [E1 E2]. apply negb_false_iff in E1.
  apply bool_decide_eq_false in E2. destruct (Releases p) as [|r0 rs0] eqn:Er; [done|]. rewrite <- Er.
  intros ([] & [Hn Hrs]%check_releases_ok & [Hnp Hps]%IH)%res_bind_ok.
  assert (valid_pack p) as Hp by (split; [by apply packName_spec|by rewrite Er|done|by intros r [? _]%Hrs]).
  split.
  - rewrite fmap_cons. constructor; [|done]. intros (p' & E & Hp')%list_elem_of_fmap. destruct (Hps _ Hp') as [_ Hx]. set_solver.
  - intros p' [->|Hp']%elem_of_cons; [done|]. destruct (Hps _ Hp') as [? Hx]. split; [done|]. set_solver.
Qed.

Lemma Catalog_Validate_ok c : Catalog_Validate c = Ok () → valid_catalog c.
Proof.
  unfold Catalog_Validate. destruct (Z.eqb_spec (c_Version c) CatalogVersion); [|done]. cbn [negb].
  destruct (_ && _); [done|]. intros [Hn Hp]%check_packs_ok. split; [done..|]. by intros p [? _]%Hp.
Qed.

(** The elements of the paths of a valid catalogue stand for themselves, and no two of its
    releases share a path. *)
Lemma valid_elements c p r :
  valid_catalog c → p ∈ c_Packs c → r ∈ Releases p → plain_element (cp_Name p) = true ∧ plain_element (Version r) = true.
Proof.
  intros Hc Hp Hr. pose proof (vc_packs _ Hc _ Hp) as Hv. destruct (vp_name _ Hv). split; [by apply name_plain|].
  apply vr_element with p. by apply vp_releases.
Qed.

Lemma valid_version_nonempty c p r : valid_catalog c → p ∈ c_Packs c → r ∈ Releases p → Version r ≠ "".
Proof. intros Hc Hp Hr E. destruct (valid_elements c p r Hc Hp Hr) as [_ Hv]. by rewrite E in Hv. Qed.

(** ** Trust *)

(** C37: a catalogue is trusted for its signature.  What [Verify] returns is the payload of the
    envelope it was given, signed by one of the two keys of the program; it is well formed
    (one version of the format, unique names and versions that stand for themselves in a path,
    bounded sizes, digests of 32 bytes, canonical artifact paths), and the envelope it hands
    on when it is exported is the one that was verified. *)
Theorem Verify_sound (data : string) (c : Catalog) :
  Verify data = Ok c →
  SignedEnvelope c = data ∧ valid_catalog c ∧
  ∃ env key payload sig c0,
    Unmarshal_Envelope data = Some env
    ∧ (KeyID env = "worm-market-2026" ∨ KeyID env = OwnerSigningKeyID)
    ∧ (publicKeys !! KeyID env ≫= base64_DecodeString) = Some key ∧ slen key = 32
    ∧ base64_DecodeString (Payload env) = Some payload ∧ base64_DecodeString (Signature env) = Some sig
    ∧ ed25519_Verify key payload sig = true
    ∧ Unmarshal_Catalog payload = Some c0 ∧ c = with_envelope data c0.
Proof.
  unfold Verify. intros (env & He & (ek & Hek & (key & Hk & (sig & Hs & (payload & Hp & Hv)%res_bind_ok)%res_bind_ok)%res_bind_ok)%res_bind_ok)%res_bind_ok.
  apply of_option_ok in He, Hek, Hk, Hs, Hp. destruct (ed25519_Verify key payload sig) eqn:Eed; [|done].
  cbn [negb] in Hv. apply res_bind_ok in Hv as (c0 & Hc0%of_option_ok & ([] & Hval & [= <-])%res_bind_ok).
  split; [done|]. split; [by destruct (Catalog_Validate_ok _ Hval); split|].
  exists env, key, payload, sig, c0. split_and!; try done.
  - revert Hek. unfold publicKeys. intros [[<- _]|[_ [<- _]%lookup_singleton_Some]]%lookup_insert_Some; auto.
  - by rewrite Hek.
  - pose proof (publicKeys_length _ _ Hek) as Hl. rewrite Hk in Hl. unfold slen. injection Hl as ->. done.
Qed.

(** ** The newest release that passes *)

Definition selects (passes : Release → bool) (p : CatalogPack) (o : option Release) : Prop :=
  match o with
  | Some r => r ∈ Releases p ∧ passes r = true
              ∧ (∀ r', r' ∈ Releases p → passes r' = true → semver_Compare (rel_version r') (rel_version r) ≤ 0)
  | None => ∀ r, r ∈ Releases p → passes r = false
  end.

Lemma compare_refl v : semver_Compare v v ≤ 0.
Proof. by destruct (semver_total v v). Qed.

Lemma newer_true a b : newer a b = true → semver_Compare (rel_version b) (rel_version a) ≤ 0.
Proof. unfold newer. intros Hn%Z.ltb_lt%semver_flip. unfold rel_version. lia. Qed.
Lemma newer_false a b : newer a b = false ↔ semver_Compare (rel_version a) (rel_version b) ≤ 0.
Proof. unfold newer, rel_version. rewrite Z.ltb_ge. done. Qed.

(** The best release of those already seen. *)
Definition best_so_far (passes : Release → bool) (seen : list Release) (best : Release) : Prop :=
  if Version best =s "" then ∀ r, r ∈ seen → passes r = false
  else best ∈ seen ∧ passes best = true
       ∧ ∀ r, r ∈ seen → passes r = true → semver_Compare (rel_version r) (rel_version best) ≤ 0.

Lemma best_step passes seen best r :
  best_so_far passes seen best → Version r ≠ "" → passes r = true →
  best_so_far passes (seen ++ [r]) (if (Version best =s "") || newer r best then r else best).
Proof.
  unfold best_so_far at 1. intros Hb Hr Hp. destruct (String.eqb_spec (Version best) "") as [Hv|Hv]; cbn [orb].
  - unfold best_so_far. destruct (String.eqb_spec (Version r) ""); [done|]. split_and!; [apply elem_of_app; right; by left|done|].
    intros r' [Hr'| ->%list_elem_of_singleton]%elem_of_app; [by rewrite (Hb _ Hr')|]. intros _. apply compare_refl.
  - destruct Hb as (Hin & Hpb & Hmax). destruct (newer r best) eqn:En; unfold best_so_far.
    + destruct (String.eqb_spec (Version r) ""); [done|]. split_and!; [apply elem_of_app; right; by left|done|].
      intros r' [Hr'| ->%list_elem_of_singleton]%elem_of_app Hp'; [|apply compare_refl].
      eapply semver_trans; [by apply Hmax|by apply newer_true].
    + destruct (String.eqb_spec (Version best) ""); [done|]. split_and!; [apply elem_of_app; by left|done|].
      intros r' [Hr'| ->%list_elem_of_singleton]%elem_of_app Hp'; [by apply Hmax|by apply newer_false].
Qed.

Lemma best_skip passes seen best r : best_so_far passes seen best → passes r = false → best_so_far passes (seen ++ [r]) best.
Proof.
  unfold best_so_far. intros Hb Hr. destruct (Version best =s "").
  - intros r' [?| ->%list_elem_of_singleton]%elem_of_app; auto.
  - destruct Hb as (Hin & ? & Hmax). split_and!; [apply elem_of_app; by left|done|].
    intros r' [?| ->%list_elem_of_singleton]%elem_of_app Hp'; [by apply Hmax|congruence].
Qed.

Lemma best_release_spec passes rs : ∀ seen best,
  best_so_far passes seen best → (∀ r, r ∈ rs → Version r ≠ "") → best_so_far passes (seen ++ rs) (best_release passes rs best).
Proof.
  induction rs as [|r rs IH]; intros seen best Hb Hne; [by rewrite app_nil_r|].
  replace (seen ++ r :: rs) with ((seen ++ [r]) ++ rs) by (by rewrite <- app_assoc). cbn [best_release].
  assert (∀ r', r' ∈ rs → Version r' ≠ "") as Hne' by (intros r' ?; apply Hne; by right).
  destruct (passes r) eqn:Ep; cbn [negb]; apply IH; try done; [|by apply best_skip].
  apply best_step; [done| |done]. apply Hne. by left.
Qed.

Lemma best_of_selects passes p : (∀ r, r ∈ Releases p → Version r ≠ "") → selects passes p (best_of passes p).
Proof.
  intros Hne. pose proof (best_release_spec passes (Releases p) [] zero_release) as Hb.
  unfold best_of. unfold best_so_far in Hb. cbn [app] in Hb. destruct (Version (best_release _ _ _) =s ""); cbn [negb selects]; apply Hb; try done;
    intros r Hr%elem_of_nil; done.
Qed.

Lemma find_selects (passes : Release → bool) l :
  StronglySorted (λ x y, newer y x = false) l →
  match List.find passes l with
  | Some r => r ∈ l ∧ passes r = true ∧ ∀ r', r' ∈ l → passes r' = true → semver_Compare (rel_version r') (rel_version r) ≤ 0
  | None => ∀ r, r ∈ l → passes r = false
  end.
Proof.
  induction 1 as [|x l Hs IH Hx]; [by intros r Hr%elem_of_nil|]. cbn [List.find]. destruct (passes x) eqn:Ep.
  - split_and!; [by left|done|]. intros r' [->|Hr']%elem_of_cons Hp'; [apply compare_refl|].
    rewrite Forall_forall in Hx. by apply newer_false, Hx.
  - destruct (List.find passes l) as [r|].
    + destruct IH as (? & ? & Hmax). split_and!; [by right|done|]. intros r' [->|?]%elem_of_cons ?; [congruence|by apply Hmax].
    + intros r [->|?]%elem_of_cons; auto.
Qed.

Lemma Latest_selects p : selects (λ r, negb (Withdrawn r) && stable r) p (Latest p).
Proof.
  assert (StronglySorted (λ x y, newer y x = false) (sort_Slice newer (Releases p))) as Hs.
  { apply sort_Slice_sorted.
    - intros x y. rewrite newer_false. apply newer_true.
    - intros x y z. rewrite !newer_false. intros ??. by eapply semver_trans. }
  apply find_selects with (passes := λ r, negb (Withdrawn r) && stable r) in Hs. unfold Latest, selects.
  destruct (List.find _ _) as [r|]; setoid_rewrite (sort_Slice_perm newer (Releases p)) in Hs; exact Hs.
Qed.

Lemma find_unique {A B} `{EqDecision B} (f : A → B) (keep : A → bool) (same : A → bool) l x :
  NoDup (f <$> l) → x ∈ l → keep x = true → (∀ y, same y = true ↔ f y = f x) → List.find (λ y, same y && keep y) l = Some x.
Proof.
  intros Hn Hx Hk Hs. induction l as [|y l IH]; [by apply elem_of_nil in Hx|]. rewrite fmap_cons in Hn. apply NoDup_cons in Hn as [Hy Hn].
  cbn [List.find]. apply elem_of_cons in Hx as [<-|Hx]; [by rewrite (proj2 (Hs x) eq_refl), Hk|].
  destruct (same y) eqn:E; [|by apply IH]. apply Hs in E. exfalso. apply Hy. rewrite E. by apply list_elem_of_fmap_2.
Qed.

(** The choice of a release.  In a valid catalogue, each of the four selections returns the
    newest of the releases that pass its test (not withdrawn, no pre-release, of the major
    version asked for, compatible with this program and its decoders), and nothing only when
    none does; a release is found by its version, unless it was withdrawn. *)
Theorem releases_chosen (c : Catalog) (p : CatalogPack) :
  Catalog_Validate c = Ok () → p ∈ c_Packs c →
  selects (λ r, negb (Withdrawn r) && stable r) p (Latest p)
  ∧ (∀ major, selects (λ r, of_major major r && stable r && negb (Withdrawn r)) p (LatestForMajor p major))
  ∧ (∀ worm api ocsf, selects (compatible worm api ocsf) p (LatestCompatible p worm api ocsf))
  ∧ (∀ worm api ocsf major,
       selects (λ r, compatible worm api ocsf r && of_major major r) p (LatestCompatibleForMajor p worm api ocsf major))
  ∧ (∀ r, r ∈ Releases p → Withdrawn r = false → Pack_Release p (Version r) = Some r).
Proof.
  intros Hc%Catalog_Validate_ok Hp. pose proof (λ r, valid_version_nonempty c p r Hc Hp) as Hne.
  split_and!; [apply Latest_selects|intros; by apply best_of_selects..|].
  intros r Hr Hw. unfold Pack_Release. apply (find_unique rel_version (λ r, negb (Withdrawn r))); [|done|by rewrite Hw|].
  - by apply vp_unique, (vc_packs c).
  - intros y. apply String.eqb_eq.
Qed.
End spec.

Lemma Verify_sound_witness : ∃ c, Verify sample_envelope = Ok c ∧ valid_catalog c ∧ SignedEnvelope c = sample_envelope.
Proof.
  eexists. split; [apply sample_verified|]. destruct (Verify_sound _ _ sample_verified) as (He & Hv & _). by split.
Defined.

(** The withdrawn release 2.0.0 is not chosen. *)
Lemma releases_chosen_witness :
  Catalog_Validate sample_catalog = Ok () ∧ demo ∈ c_Packs sample_catalog
  ∧ (Version <$> LatestCompatible demo "0.2.0" "worm.io/v1" "1.3.0") = Some "1.1.0"
  ∧ selects (compatible "0.2.0" "worm.io/v1" "1.3.0") demo (LatestCompatible demo "0.2.0" "worm.io/v1" "1.3.0").
Proof.
  assert (Catalog_Validate sample_catalog = Ok ()) as Hv by (vm_compute; reflexivity).
  assert (demo ∈ c_Packs sample_catalog) as Hd by by left.
  split_and!; [done..|vm_compute; reflexivity|]. apply (releases_chosen sample_catalog demo Hv Hd).
Defined.
