(* ===== verification/MarketSafety.v ===== *)
(** * Importing a bundle: nothing unverified reaches the store *)

From S2P Require Import Prelude GoStrings GoPath Model Disk FileTree Extract PackStore Catalog Market MarketSamples CatalogSpec.

#[local] Open Scope monad_scope.

(** ** Paths *)

(** Neither of two directories is inside the other. *)
Definition apart (a b : tpath) : bool := bool_decide (below a b = None ∧ below b a = None).

Lemma below_None_app a b x y : below a b = None → below b a = None → below (a ++ x) (b ++ y) = None.
Proof.
  revert b. induction a as [|e a IH]; intros [|e' b]; try done. simpl. rewrite (String.eqb_sym e' e). destruct (e =s e'); [apply IH|done].
Qed.

Lemma apart_below a b x y : apart a b = true → below (a ++ x) (b ++ y) = None ∧ below (b ++ y) (a ++ x) = None.
Proof. intros [H1 H2]%bool_decide_eq_true. by split; apply below_None_app. Qed.

Lemma below_ne a b : below a b = None → a ≠ b.
Proof. intros H ->. pose proof (below_app b []) as E. rewrite app_nil_r in E. congruence. Qed.

Lemma has_below_spec t p : has_below t p = true ↔ ∃ e rest, is_Some (t !! (p ++ e :: rest)).
Proof.
  unfold has_below. rewrite existsb_exists. split.
  - intros ([k n] & Hk%list_elem_of_In%elem_of_map_to_list & Hb). cbn in Hb. destruct (below p k) as [[|e rest]|] eqn:E; try done.
    apply below_Some in E as ->. by exists e, rest, n.
  - intros (e & rest & n & Hn). exists (p ++ e :: rest, n). split; [by apply list_elem_of_In, elem_of_map_to_list|]. cbn. by rewrite below_app.
Qed.

Lemma has_below_insert t w n p : below p w = None → has_below (<[w := n]> t) p = has_below t p.
Proof.
  intros Hb. apply eq_true_iff_eq. rewrite !has_below_spec.
  assert (∀ e rest, w ≠ p ++ e :: rest) as Hne by (intros e rest ->; by rewrite below_app in Hb).
  split; intros (e & rest & Hs); exists e, rest; by rewrite lookup_insert_ne in *.
Qed.

Lemma blocked_insert t w n dir parts : below w (dir ++ parts) = None → blocked (<[w := n]> t) dir parts = blocked t dir parts.
Proof.
  revert dir. induction parts as [|e parts IH]; intros dir Hb; [done|]. cbn [blocked]. destruct parts as [|e' parts]; [done|].
  rewrite lookup_insert_ne. 2: { intros ->. replace (dir ++ e :: e' :: parts) with ((dir ++ [e]) ++ e' :: parts) in Hb by (by rewrite <- app_assoc). by rewrite below_app in Hb. }
  rewrite IH; [done|]. by rewrite <- app_assoc.
Qed.

(** Writing a file elsewhere does not change what is found at a path. *)
Lemma lookup_path_insert t w n p : below w p = None → below p w = None → lookup_path (<[w := n]> t) p = lookup_path t p.
Proof.
  intros H1 H2. unfold lookup_path. rewrite blocked_insert by done. rewrite lookup_insert_ne by (by apply below_ne). by rewrite has_below_insert.
Qed.

Lemma pack_yaml_not_temp d : ¬ temp_path (d ++ ["pack.yaml"]).
Proof. intros (d' & s & [_ E]%app_inj_2 & _); [|done]. discriminate E. Qed.
Lemma catalog_json_not_temp d : ¬ temp_path (d ++ ["catalog.json"]).
Proof. intros (d' & s & [_ E]%app_inj_2 & _); [|done]. discriminate E. Qed.

Lemma plain_parts (l : list string) : forallb plain_element l = true → Forall (λ e, all_bytes (λ c, c <>b "/"%char) e = true) l.
Proof.
  rewrite forallb_forall, Forall_forall. intros H e He%list_elem_of_In. specialize (H e He). unfold plain_element in H.
  rewrite !andb_true_iff in H. by destruct H as [[[? _] _] _].
Qed.

Section market.
Context `{TreeEnv} `{SemVer} `{CatalogEnv} `{PackCodec} `{MarketEnv}.

(** ** The paths of a valid catalogue *)

Lemma elem_releases_of c p r : (p, r) ∈ releases_of c ↔ p ∈ c_Packs c ∧ r ∈ Releases p.
Proof.
  unfold releases_of. rewrite list_elem_of_bind. split.
  - intros (p' & (r' & [= -> ->] & Hr)%list_elem_of_fmap & Hp). done.
  - intros [Hp Hr]. exists p. split; [by apply list_elem_of_fmap_2|done].
Qed.

Definition cached_parts (p : CatalogPack) (r : Release) : tpath := [".marketplace"; "artifacts"; cp_Name p; Version r; "pack.yaml"].

Section valid.
Context (c : Catalog) (Hc : valid_catalog c) (p : CatalogPack) (r : Release) (Hpr : (p, r) ∈ releases_of c).

Lemma valid_plain : plain_element (cp_Name p) = true ∧ plain_element (Version r) = true.
Proof. apply elem_releases_of in Hpr as [Hp Hr]. by apply (valid_elements c). Qed.

Lemma cached_path_eq dir : cached_path dir p r = dir ++ cached_parts p r.
Proof. destruct valid_plain as [Hpn Hpv]. apply (Join_plain dir (cached_parts p r)). unfold cached_parts. cbn [forallb]. by rewrite Hpn, Hpv. Qed.

Lemma valid_artifact : Artifact r = Join (artifact_parts p r) "/".
Proof. apply elem_releases_of in Hpr as [Hp Hr]. by apply (vr_path p), (vp_releases p); [apply (vc_packs c)|]. Qed.

Lemma artifact_path_eq dir : artifact_path dir r = dir ++ artifact_parts p r.
Proof.
  destruct valid_plain as [Hpn Hpv]. assert (forallb plain_element (artifact_parts p r) = true) as Hpl by (cbn [forallb artifact_parts]; by rewrite Hpn, Hpv).
  rewrite <- (Join_plain dir _ Hpl). unfold artifact_path, filepath_Join. f_equal. f_equal. cbn [mbind list_bind]. rewrite app_nil_r, valid_artifact.
  change "/" with (chr "/"). rewrite Split_Join_chr; [|done|by apply plain_parts].
  apply plain_parts in Hpl. induction Hpl as [|e l He Hl IH]; [done|]. rewrite bind_cons, <- IH.
  rewrite Split_chr. by rewrite (proj2 (IndexByte_None _ _)).
Qed.
End valid.

Lemma releases_NoDup c : valid_catalog c → NoDup (releases_of c).
Proof.
  intros Hc. pose proof (vc_packs _ Hc) as Hps. pose proof (vc_unique _ Hc) as Hn. unfold releases_of.
  generalize dependent (c_Packs c). intros l. induction l as [|p l IH]; intros Hps Hn; [constructor|].
  rewrite bind_cons. rewrite fmap_cons in Hn. apply NoDup_cons in Hn as [Hp Hn]. apply NoDup_app. split_and!.
  - apply (NoDup_fmap_2 (pair p)). eapply NoDup_fmap_1, vp_unique, Hps. by left.
  - intros [p' r] (r' & [= -> ->] & _)%list_elem_of_fmap. rewrite list_elem_of_bind. intros (p' & (r'' & [= <- <-] & _)%list_elem_of_fmap & Hp').
    apply Hp. by apply list_elem_of_fmap_2.
  - apply IH; [|done]. intros q Hq. apply Hps. by right.
Qed.

(** A release is known by the name of its pack and its version. *)
Lemma release_determined c p r p' r' :
  valid_catalog c → (p, r) ∈ releases_of c → (p', r') ∈ releases_of c → cp_Name p = cp_Name p' → Version r = Version r' → (p, r) = (p', r').
Proof.
  rewrite !elem_releases_of. intros Hc [Hp Hr] [Hp' Hr'] En Ev.
  assert (p = p') as <-.
  { pose proof (vc_unique _ Hc) as Hn. apply list_elem_of_lookup in Hp as [i Hi], Hp' as [j Hj].
    assert (i = j) as <-; [|congruence]. eapply NoDup_lookup; [exact Hn|rewrite list_lookup_fmap, Hi; done|rewrite list_lookup_fmap, Hj; cbn; by rewrite En]. }
  f_equal. pose proof (vp_unique _ (vc_packs _ Hc _ Hp)) as Hn. apply list_elem_of_lookup in Hr as [i Hi], Hr' as [j Hj].
  assert (i = j) as <-; [|congruence].
  eapply NoDup_lookup; [exact Hn|rewrite list_lookup_fmap, Hi; done|rewrite list_lookup_fmap, Hj; cbn; unfold rel_version; by rewrite Ev].
Qed.

(** ** Reading an artifact *)

(** The bytes of a file, and those of an artifact when they are its release's. *)
Definition file_at (t : tree) (q : tpath) : res string := n ← lookup_path t q; file_bytes n.
Definition artifact_at (t : tree) (q : tpath) (r : Release) : option string :=
  match file_at t q with
  | Ok data => if is_ok (VerifyArtifact r data) then Some data else None
  | _ => None
  end.
Definition missing (t : tree) (q : tpath) : Prop := ∃ e, file_at t q = Err e ∧ IsNotExist e = true.

Lemma str_take_le n s : (String.length s ≤ n)%nat → str_take n s = s.
Proof. revert n. induction s as [|c s IH]; intros [|n] Hn; simpl in *; try done; [lia|]. rewrite IH; [done|lia]. Qed.

Lemma VerifyArtifact_not_missing r data e : VerifyArtifact r data = Err e → IsNotExist e = false.
Proof. unfold VerifyArtifact. do 2 (case_match; [by intros [= <-]|]). done. Qed.

Lemma size_at t q : (n ← lookup_path t q; c ← file_bytes n; Ok (slen c)) = (c ← file_at t q; Ok (slen c)).
Proof. unfold file_at. by destruct (lookup_path t q). Qed.
Lemma file_at_no_panic t q x : file_at t q ≠ Panic x.
Proof. unfold file_at, lookup_path, file_bytes. destruct (blocked _ _ _), (t !! q) as [[c| |[c|]]|], (has_below t q); done. Qed.
Lemma VerifyArtifact_no_panic r data x : VerifyArtifact r data ≠ Panic x.
Proof. unfold VerifyArtifact. by repeat case_match. Qed.

(** A call that reads a value of the tree. *)
Lemma wp_tree_read {A} (f : tree → res A) (Q : res A → TreeHost → Prop) h :
  (∀ h', th_files h' = th_files h → Q (f (th_files h)) h') → (∀ h', th_files h' = th_files h → Q (Err os_error) h') →
  wp (tree_call (λ t, (f t, t))) Q h.
Proof. intros Hq He. apply wp_call; intros n; [by apply Hq|by apply He..]. Qed.

Lemma wp_tree_ReadFile q h (Q : res string → TreeHost → Prop) :
  (∀ h', th_files h' = th_files h → Q (file_at (th_files h) q) h') → (∀ h', th_files h' = th_files h → Q (Err os_error) h') →
  wp (tree_ReadFile q) Q h.
Proof. apply (wp_tree_read (λ t, file_at t q)). Qed.

Lemma wp_readArtifact q r h (Q : res string → TreeHost → Prop) :
  (∀ h' data, th_files h' = th_files h → artifact_at (th_files h) q r = Some data → Q (Ok data) h') →
  (∀ h' e, th_files h' = th_files h → (IsNotExist e = true → missing (th_files h) q) → Q (Err e) h') →
  wp (readArtifact q r) Q h.
Proof.
  intros Ho He. unfold readArtifact. apply wp_bind, (wp_tree_read (λ t, n ← lookup_path t q; c ← file_bytes n; Ok (slen c))); intros h1 E1; [|by apply He].
  rewrite size_at. destruct (file_at (th_files h) q) as [content|e|x] eqn:Ef; cbn [mbind res_bind]; [|apply He; [done|by exists e]|by apply file_at_no_panic in Ef].
  destruct (Z.eqb_spec (slen content) (Size r)) as [Es|Es]; cbn [negb]; [|by apply wp_fail, He].
  apply wp_bind, wp_tree_nop. intros rn h2 E2 Hrn. assert (th_files h2 = th_files h) as E2' by congruence. destruct Hrn as [->| ->]; [by apply He|].
  apply wp_bind, wp_tree_ReadFile; rewrite E2'; intros h3 E3; [|by apply He]. rewrite Ef.
  rewrite str_take_le by (unfold slen in Es; lia). apply wp_bind, wp_mcall. destruct (VerifyArtifact r content) as [[]|e|x] eqn:Ev.
  - apply wp_ret, Ho; [done|]. unfold artifact_at. by rewrite Ef, Ev.
  - apply He; [done|]. by rewrite (VerifyArtifact_not_missing _ _ _ Ev).
  - by apply VerifyArtifact_no_panic in Ev.
Qed.

Lemma artifact_at_verified t q r data : artifact_at t q r = Some data → VerifyArtifact r data = Ok ().
Proof. unfold artifact_at. destruct (file_at t q); [|done..]. destruct (VerifyArtifact r _) as [[]| |] eqn:E; cbn; [intros [= <-]; done|done..]. Qed.

Lemma reads_readArtifact q r : keeps unchanged (readArtifact q r).
Proof. apply keeps_wp. intros h. by apply wp_readArtifact. Qed.

(** ** The first pass *)

(** A release is in a bundle when the index lists its artifact, and then it is there. *)
Definition bundle_entry (t : tree) (src : tpath) (listed : gset string) (r : Release) : Prop :=
  if bool_decide (Artifact r ∈ listed) then is_Some (artifact_at t (artifact_path src r) r) else missing t (artifact_path src r).

Lemma wp_check_bundle src l : ∀ listed h (Q : res (gset string) → TreeHost → Prop),
  NoDup ((λ pr, Artifact pr.2) <$> l) →
  (∀ h' rest, th_files h' = th_files h → (∀ pr, pr ∈ l → bundle_entry (th_files h) src listed pr.2) →
     (∀ a, a ∈ listed → a ∉ rest → ∃ pr, pr ∈ l ∧ Artifact pr.2 = a) → Q (Ok rest) h') →
  (∀ r h', th_files h' = th_files h → ¬ is_ok r → Q r h') →
  wp (check_bundle src listed l) Q h.
Proof.
  induction l as [|[p r] l IH]; intros listed h Q Hn Ho He; cbn [check_bundle]; cbv zeta.
  { apply wp_ret, Ho; [done|by intros pr ?%elem_of_nil|done]. }
  rewrite fmap_cons in Hn. apply NoDup_cons in Hn as [Ha Hn]. cbn [snd] in Ha.
  apply wp_bind, wp_reads; [apply reads_RejectSymlinks|]. intros rj h1 E1. destruct rj as [[]|e|x]; [|by apply He; [|intros []]..].
  apply wp_bind, wp_try. apply wp_readArtifact; rewrite E1.
  - intros h2 data E2 Hdata. apply wp_bind, wp_mcall. rewrite (artifact_at_verified _ _ _ _ Hdata). cbn [wrap_err].
    destruct (bool_decide (Artifact r ∈ listed)) eqn:Ed; cbn [negb]; [|by apply wp_fail, He; [|intros []]].
    apply (IH _ h2); [done| |intros r' h' E'; apply He; congruence]. rewrite E2. intros h' rest E' Hl Hrest. apply Ho; [done| |].
    + intros pr [->|Hpr]%elem_of_cons; [unfold bundle_entry; cbn [snd]; rewrite Ed; by exists data|].
      specialize (Hl _ Hpr). unfold bundle_entry in *. rewrite (bool_decide_ext _ (Artifact pr.2 ∈ listed)) in Hl; [done|].
      assert (Artifact pr.2 ≠ Artifact r) by (intros E; apply Ha; rewrite <- E; by apply (list_elem_of_fmap_2 (λ pr, Artifact pr.2))). set_solver.
    + intros a Hal Har. destruct (decide (a = Artifact r)) as [->|Hne]; [exists (p, r); split; [by left|done]|].
      destruct (Hrest a) as (pr & ? & ?); [set_solver|done|]. exists pr. split; [by right|done].
  - intros h2 e E2 Hm. destruct (IsNotExist e) eqn:Ee; [|by apply wp_fail, He; [|intros []]].
    destruct (bool_decide (Artifact r ∈ listed)) eqn:Ed; [by apply wp_fail, He; [|intros []]|].
    apply (IH _ h2); [done| |intros r' h' E'; apply He; congruence]. rewrite E2. intros h' rest E' Hl Hrest. apply Ho; [done| |].
    + intros pr [->|Hpr]%elem_of_cons; [unfold bundle_entry; cbn [snd]; rewrite Ed; by apply Hm|by apply Hl].
    + intros a Hal Har. destruct (Hrest a Hal Har) as (pr & ? & ?). exists pr. split; [by right|done].
Qed.

Lemma list_artifacts_ok listed l s : list_artifacts listed l = Ok s → s = list_to_set l ∪ listed.
Proof.
  revert listed. induction l as [|a l IH]; intros listed; cbn [list_artifacts]; [intros [= <-]; set_solver|].
  case_match; [done|]. intros ->%IH. set_solver.
Qed.

(** ** The second pass *)

(** What an import may put in a store: a catalogue that [Verify] accepts, and, under the name
    of one of its releases, bytes of the size and the digest the catalogue gives. *)
Definition verified_change (dst : tpath) (q : tpath) (o : option node) : Prop :=
  ∃ envelope c, Verify envelope = Ok c
    ∧ ((q = dst ++ [".marketplace"; "catalog.json"] ∧ o = Some (NFile envelope))
       ∨ ∃ p r data, (p, r) ∈ releases_of c ∧ q = dst ++ cached_parts p r ∧ o = Some (NFile data) ∧ VerifyArtifact r data = Ok ()).

Lemma keeps_mcall_bind (R : TreeHost → TreeHost → Prop) `{!PreOrder R} {A B} (r : res A) (f : A → Prog TreeHost B) :
  (∀ a, r = Ok a → keeps R (f a)) → keeps R (bind (mcall r) f).
Proof. intros Hf h. unfold bind, mcall. destruct r as [a|e|x]; [by apply Hf|reflexivity..]. Qed.

Lemma changes_reads allowed {A} (m : Prog TreeHost A) : keeps unchanged m → keeps (changes allowed) m.
Proof. apply keeps_mono. intros h h'. apply unchanged_changes. Qed.

Lemma Verify_valid envelope c : Verify envelope = Ok c → valid_catalog c.
Proof.
  unfold Verify. intros (env & _ & (ek & _ & (key & _ & (sig & _ & (payload & _ & Hv)%res_bind_ok)%res_bind_ok)%res_bind_ok)%res_bind_ok)%res_bind_ok.
  case_match; [done|]. apply res_bind_ok in Hv as (c0 & _ & ([] & Hval & [= <-])%res_bind_ok). by destruct (Catalog_Validate_ok _ Hval).
Qed.

Lemma cached_not_temp dst p r : ¬ temp_path (dst ++ cached_parts p r).
Proof. unfold cached_parts. change (dst ++ [?a; ?b; ?x; ?y; ?z]) with (dst ++ [a; b; x; y] ++ [z]). rewrite app_assoc. apply pack_yaml_not_temp. Qed.
Lemma catalog_path_eq dst : catalog_path dst = dst ++ [".marketplace"; "catalog.json"].
Proof. by apply Join_plain. Qed.
Lemma catalog_not_temp dst : ¬ temp_path (catalog_path dst).
Proof. rewrite catalog_path_eq. change (dst ++ [?a; ?z]) with (dst ++ [a] ++ [z]). rewrite app_assoc. apply catalog_json_not_temp. Qed.

Lemma import_changes src dst envelope c pr :
  Verify envelope = Ok c → pr ∈ releases_of c → keeps (changes (verified_change dst)) (import_release src dst pr).
Proof.
  intros Hv Hpr. destruct pr as [p r]. cbn [import_release]. cbv zeta.
  apply keeps_bind; [typeclasses eauto|apply changes_reads, reads_RejectSymlinks|]. intros [].
  apply keeps_bind; [typeclasses eauto|apply changes_reads, keeps_try, reads_readArtifact|]. intros [data|e|x].
  - apply keeps_mcall_bind; [typeclasses eauto|]. intros [] Hd. rewrite (cached_path_eq c); [|by eapply Verify_valid|done].
    apply changes_AtomicWriteFile; [apply cached_not_temp|]. exists envelope, c. split; [done|]. right. by exists p, r, data.
  - destruct (IsNotExist e); [apply keeps_ret|apply keeps_fail]; typeclasses eauto.
  - apply keeps_mcall; typeclasses eauto.
Qed.

Lemma keeps_each {A} (R : TreeHost → TreeHost → Prop) `{!PreOrder R} (f : A → Prog TreeHost unit) l :
  (∀ x, x ∈ l → keeps R (f x)) → keeps R (each f l).
Proof.
  intros Hf. induction l as [|x l IH]; [apply keeps_ret; typeclasses eauto|]. cbn [each].
  apply keeps_bind; [done|apply Hf; by left|]. intros _. apply IH. intros y Hy. apply Hf. by right.
Qed.

(** Files written one after the other: at [place x] what [f x] gives, if anything. *)
Definition placed {A} (f : A → option string) (place : A → tpath) (l : list A) (t : tree) : tree :=
  foldl (λ t x, match f x with Some data => <[place x := NFile data]> t | None => t end) t l.

Lemma placed_cons {A} (f : A → option string) place x l t :
  placed f place (x :: l) t = placed f place l (match f x with Some data => <[place x := NFile data]> t | None => t end).
Proof. done. Qed.

Lemma placed_other {A} (f : A → option string) place l q :
  ∀ t, (∀ x, x ∈ l → q ≠ place x) → placed f place l t !! q = t !! q.
Proof.
  induction l as [|x l IH]; intros t Hq; [done|]. rewrite placed_cons, IH by (intros y ?; apply Hq; by right).
  destruct (f x); [|done]. rewrite lookup_insert_ne; [done|]. intros E. by apply (Hq x); [left|].
Qed.

Lemma placed_lookup {A} (f : A → option string) place l x : ∀ t,
  (∀ y z, y ∈ l → z ∈ l → place y = place z → y = z) → NoDup l → x ∈ l →
  placed f place l t !! place x = match f x with Some data => Some (NFile data) | None => t !! place x end.
Proof.
  induction l as [|y l IH]; intros t Hinj Hn Hin; [by apply elem_of_nil in Hin|]. apply NoDup_cons in Hn as [Hy Hn]. rewrite placed_cons.
  apply elem_of_cons in Hin as [<-|Hin].
  - rewrite placed_other; [destruct (f x); [by rewrite lookup_insert_eq|done]|]. intros z Hz E. apply Hy.
    rewrite (Hinj x z); [done|by left|by right|done].
  - rewrite IH by (try done; intros z z' Hz Hz'; apply Hinj; by right). destruct (f x); [done|]. destruct (f y); [|done].
    rewrite lookup_insert_ne; [done|]. intros E. rewrite (Hinj y x) in Hy; [done|by left|by right|done].
Qed.

Lemma missing_artifact t q r : missing t q → artifact_at t q r = None.
Proof. intros (e & E & _). unfold artifact_at. by rewrite E. Qed.

Section second.
Context (c : Catalog) (Hc : valid_catalog c) (src dst : tpath) (Hap : apart src dst = true) (t0 : tree).

(** What the bundle has of a release, and where it is kept. *)
Definition bundled (pr : CatalogPack * Release) : option string := artifact_at t0 (artifact_path src pr.2) pr.2.
Definition kept (pr : CatalogPack * Release) : tpath := cached_path dst pr.1 pr.2.

(** The bundle is as it was. *)
Definition same_bundle (t : tree) : Prop :=
  ∀ pr, pr ∈ releases_of c → file_at t (artifact_path src pr.2) = file_at t0 (artifact_path src pr.2).

Lemma same_artifact t pr : same_bundle t → pr ∈ releases_of c →
  artifact_at t (artifact_path src pr.2) pr.2 = artifact_at t0 (artifact_path src pr.2) pr.2.
Proof. intros Hs Hpr. unfold artifact_at. by rewrite Hs. Qed.

Lemma same_bundle_insert t p r data :
  (p, r) ∈ releases_of c → same_bundle t → same_bundle (<[cached_path dst p r := NFile data]> t).
Proof.
  intros Hpr Hs [p' r'] Hpr'. rewrite <- (Hs (p', r')) by done. cbn [snd]. unfold file_at.
  rewrite (cached_path_eq c Hc p r Hpr), (artifact_path_eq c Hc p' r' Hpr').
  destruct (apart_below src dst (artifact_parts p' r') (cached_parts p r) Hap). by rewrite lookup_path_insert.
Qed.

Lemma wp_each_import l : ∀ h (Q : res unit → TreeHost → Prop),
  (∀ pr, pr ∈ l → pr ∈ releases_of c) → same_bundle (th_files h) →
  (∀ h', th_files h' = placed bundled kept l (th_files h) → Q (Ok ()) h') → (∀ r h', r ≠ Ok () → Q r h') →
  wp (each (import_release src dst) l) Q h.
Proof.
  induction l as [|[p r] l IH]; intros h Q Hl Hs Ho He; [by apply wp_ret, Ho|]. cbn [each].
  assert ((p, r) ∈ releases_of c) as Hpr by (apply Hl; by left).
  assert (∀ pr, pr ∈ l → pr ∈ releases_of c) as Hl' by (intros pr ?; apply Hl; by right).
  apply wp_bind. unfold import_release at 1. cbv zeta. apply wp_bind, wp_reads; [apply reads_RejectSymlinks|].
  intros rj h1 E1. destruct rj as [[]|e|x]; [|by apply He..]. apply wp_bind, wp_try. apply wp_readArtifact; rewrite E1.
  - intros h2 data E2 Hd. rewrite (same_artifact _ (p, r)) in Hd by done. apply wp_bind, wp_mcall.
    cbn [snd] in Hd. rewrite (artifact_at_verified _ _ _ _ Hd). apply wp_AtomicWriteFile.
    + rewrite (cached_path_eq c) by done. apply cached_not_temp.
    + intros h3 E3. apply IH; [done|rewrite E3, E2; by apply same_bundle_insert| |done].
      intros h' E'. apply Ho. rewrite E'. rewrite placed_cons. change (bundled (p, r)) with (artifact_at t0 (artifact_path src r) r). rewrite Hd. by rewrite E3, E2.
    + intros rw h3 Hrw _. destruct rw as [[]|e|x]; [done|by apply He..].
  - intros h2 e E2 Hm. destruct (IsNotExist e); [|by apply wp_fail, He]. apply wp_ret. apply IH; [done|by rewrite E2| |done].
    intros h' E'. apply Ho. rewrite E'. rewrite placed_cons. specialize (Hm eq_refl). change (bundled (p, r)) with (artifact_at t0 (artifact_path src r) r).
    pose proof (same_artifact (th_files h) (p, r) Hs Hpr) as Ha. cbn [snd] in Ha. rewrite <- Ha, missing_artifact by done. by rewrite E2.
Qed.

Lemma cached_path_inj p r p' r' :
  (p, r) ∈ releases_of c → (p', r') ∈ releases_of c → cached_path dst p r = cached_path dst p' r' → (p, r) = (p', r').
Proof.
  intros Hp Hp'. rewrite !(cached_path_eq c) by done. intros E%app_inv_head. injection E as E1 E2. by apply (release_determined c).
Qed.

End second.

Lemma artifacts_NoDup c : valid_catalog c → NoDup ((λ pr : CatalogPack * Release, Artifact pr.2) <$> releases_of c).
Proof.
  intros Hc. apply NoDup_fmap_2_strong; [|by apply releases_NoDup]. intros [p r] [p' r'] Hp Hp' E. cbn [snd] in E.
  assert (artifact_path [] r = artifact_path [] r') as Ep by (unfold artifact_path; by rewrite E).
  rewrite (artifact_path_eq c Hc p r Hp), (artifact_path_eq c Hc p' r' Hp') in Ep. injection Ep as En Ev. by apply (release_determined c).
Qed.

(** ** Properties *)

(** A bundle whose catalogue is signed and whose index is exact: the artifacts it lists are
    those of releases of the catalogue, and are there with the signed size and digest; the
    others are not there. *)
Definition bundle_complete (t : tree) (src : tpath) (envelope : string) (c : Catalog) : Prop :=
  file_at t (src ++ ["catalog.json"]) = Ok envelope ∧ Verify envelope = Ok c
  ∧ ∃ bytes b, file_at t (src ++ ["bundle.json"]) = Ok bytes ∧ Unmarshal_bundle bytes = Some b
      ∧ b_Version b = 1 ∧ b_CatalogSHA256 b = Digest envelope
      ∧ (∀ pr, pr ∈ releases_of c → bundle_entry t src (list_to_set (b_Available b)) pr.2)
      ∧ (∀ a, a ∈ b_Available b → ∃ pr, pr ∈ releases_of c ∧ Artifact pr.2 = a).

Definition store_holds (t t' : tree) (src dst : tpath) (envelope : string) (c : Catalog) : Prop :=
  t' !! catalog_path dst = Some (NFile envelope)
  ∧ ∀ p r data, (p, r) ∈ releases_of c → artifact_at t (artifact_path src r) r = Some data → t' !! cached_path dst p r = Some (NFile data).

Lemma wp_always {A} (m : Prog TreeHost A) (Q : res A → TreeHost → Prop) h : (∀ r h', Q r h') → wp m Q h.
Proof. intros HQ. unfold wp. by destruct (m h). Qed.

Lemma wp_import_writes src dst envelope c h :
  Verify envelope = Ok c →
  wp (each (import_release src dst) (releases_of c) ;;; AtomicWriteFile dst (catalog_path dst) envelope)
     (λ r h', changes (verified_change dst) h h' ∧ (r = Ok () → apart src dst = true → store_holds (th_files h) (th_files h') src dst envelope c)) h.
Proof.
  intros Hv. assert (valid_catalog c) as Hc by by eapply Verify_valid.
  apply (wp_keeps (changes (verified_change dst))).
  { apply keeps_bind; [typeclasses eauto|apply keeps_each; [typeclasses eauto|by intros; eapply import_changes]|]. intros _.
    apply changes_AtomicWriteFile; [apply catalog_not_temp|]. exists envelope, c. split; [done|]. left. by rewrite catalog_path_eq. }
  destruct (apart src dst) eqn:Hap; [|by apply wp_always].
  apply wp_bind, (wp_each_import c Hc src dst Hap (th_files h)); [done|done| |by intros [[]|e|x]].
  intros h1 E1. apply wp_AtomicWriteFile; [apply catalog_not_temp| |done]. intros h2 E2 Hch. split; [done|]. intros _ _. rewrite E2. split.
  - by rewrite lookup_insert_eq.
  - intros p r data Hpr Hd. rewrite lookup_insert_ne.
    2: { rewrite catalog_path_eq, (cached_path_eq c Hc p r Hpr). intros E%app_inv_head. discriminate E. }
    rewrite E1. change (cached_path dst p r) with (kept dst (p, r)). rewrite placed_lookup; [unfold bundled; cbn [snd]; by rewrite Hd| |by apply releases_NoDup|done].
    intros [p1 r1] [p2 r2]. by apply (cached_path_inj c).
Qed.

(** What runs before the first write: the bundle is complete, or the import is refused. *)
Lemma wp_import_checked src dst h (Q : res unit → TreeHost → Prop) :
  (∀ r h', th_files h' = th_files h → r ≠ Ok () → Q r h') →
  (∀ h' envelope c, th_files h' = th_files h → bundle_complete (th_files h) src envelope c →
     wp (each (import_release src dst) (releases_of c) ;;; AtomicWriteFile dst (catalog_path dst) envelope) Q h') →
  wp (ImportSnapshot src dst) Q h.
Proof.
  intros Hstop Hgo. unfold ImportSnapshot. cbv zeta.
  rewrite (Join_plain src ["catalog.json"]), (Join_plain src ["bundle.json"]) by done.
  apply wp_bind, wp_reads; [apply reads_RejectSymlinks|]. intros rj h1 E1. destruct rj as [[]|e|x]; [|by apply Hstop..].
  apply wp_bind, wp_tree_ReadFile; rewrite E1; intros h2 E2; [|by apply Hstop].
  destruct (file_at (th_files h) (src ++ ["catalog.json"])) as [envelope|e|x] eqn:Ee; [|by apply Hstop..].
  apply wp_bind, wp_mcall. destruct (Verify envelope) as [c|e|x] eqn:Ev; [|by apply Hstop..].
  apply wp_bind, wp_reads; [apply reads_RejectSymlinks|]. intros rj h3 E3. rewrite E2 in E3. destruct rj as [[]|e|x]; [|by apply Hstop..].
  apply wp_bind, wp_try, wp_tree_ReadFile; rewrite E3; intros h4 E4; [|by apply wp_bind, wp_mcall, Hstop].
  destruct (file_at (th_files h) (src ++ ["bundle.json"])) as [bytes|e|x] eqn:Eb; [|by apply wp_bind, wp_mcall, Hstop|by apply Hstop].
  apply wp_bind, wp_mcall, wp_bind, wp_mcall. destruct (Unmarshal_bundle bytes) as [b|] eqn:Eu; [|by apply Hstop]. cbn [of_option].
  destruct (_ || _) eqn:Ed; [by apply wp_fail, Hstop|]. apply orb_false_iff in Ed as [Ed1 Ed2].
  apply negb_false_iff, Z.eqb_eq in Ed1. apply negb_false_iff, String.eqb_eq in Ed2.
  apply wp_bind, wp_mcall. destruct (list_artifacts ∅ (b_Available b)) as [listed|e|x] eqn:El; [|by apply Hstop..].
  apply list_artifacts_ok in El. assert (valid_catalog c) as Hc by by eapply Verify_valid.
  apply wp_bind, wp_check_bundle; [by apply artifacts_NoDup|rewrite E4; intros h5 rest E5 Hentries Hrest|rewrite E4; intros r' h5 E5 Hr; destruct r' as [?|e|x]; [by destruct Hr|by apply Hstop..]].
  destruct (decide (rest = ∅)) as [->|Hne]; [rewrite bool_decide_eq_true_2 by done|rewrite bool_decide_eq_false_2 by done; by apply wp_fail, Hstop]. cbn [negb].
  apply Hgo; [done|]. split_and!; [done..|]. exists bytes, b. replace (list_to_set (b_Available b)) with listed by set_solver.
  split_and!; [done..|]. intros a Ha. apply Hrest; set_solver.
Qed.

(** C38: importing a bundle, whatever calls fail and wherever the program stops.  Apart from
    temporary files, all that is written are verified artifacts of a verified catalogue, each
    at its place in the store, and that catalogue; nothing is written before the whole bundle
    was found complete; and an import that answers without an error has brought the
    catalogue and every artifact of the bundle. *)
Theorem import_safe (src dst : tpath) (h h' : TreeHost) (r : res unit) :
  ImportSnapshot src dst h = (r, h') →
  changes (verified_change dst) h h'
  ∧ (th_files h' = th_files h ∨ ∃ envelope c, bundle_complete (th_files h) src envelope c)
  ∧ (r = Ok () → apart src dst = true →
     ∃ envelope c, bundle_complete (th_files h) src envelope c ∧ store_holds (th_files h) (th_files h') src dst envelope c).
Proof.
  revert r h'. assert (∀ Q, wp (ImportSnapshot src dst) Q h → ∀ r h', ImportSnapshot src dst h = (r, h') → Q r h') as Hw
    by (intros Q Hq r h' E; by eapply wp_elim).
  apply Hw. apply wp_import_checked.
  - intros r h' E Hr. split_and!; [by apply unchanged_changes|by left|done].
  - intros h1 envelope c E1 Hb. pose proof (wp_import_writes src dst envelope c h1 (proj1 (proj2 Hb))) as Hwr. rewrite E1 in Hwr.
    eapply wp_mono; [exact Hwr|]. intros r h' [Hch Hst]. split_and!.
    + intros q. specialize (Hch q). by rewrite E1 in Hch.
    + right. by exists envelope, c.
    + intros Hr Ha. exists envelope, c. split; [done|by apply Hst].
Qed.
End market.

Lemma import_safe_witness :
  ∃ h' envelope c, ImportSnapshot stick new_store stick_host = (Ok (), h') ∧ changes (verified_change new_store) stick_host h'
    ∧ bundle_complete (th_files stick_host) stick envelope c ∧ store_holds (th_files stick_host) (th_files h') stick new_store envelope c.
Proof.
  destruct (ImportSnapshot stick new_store stick_host) as [r h'] eqn:E.
  assert (r = Ok ()) as -> by (change r with ((r, h').1); rewrite <- E; vm_compute; reflexivity).
  destruct (import_safe stick new_store stick_host h' (Ok ()) E) as (Hch & _ & Hok).
  destruct (Hok eq_refl) as (envelope & c & Hb & Hs); [vm_compute; reflexivity|].
  exists h', envelope, c. exact (conj eq_refl (conj Hch (conj Hb Hs))).
Defined.

(** A bundle directory that is written again, after the store has lost an artifact, keeps the
    artifact of the first time without listing it: it cannot be imported any more. *)
Definition pruned_host : TreeHost := {| th_files := delete (old_store ++ cached_demo) (th_files stick_host); th_calls := 0 |}.
Lemma stale_artifact_refused :
  (ExportSnapshot sample_verified_catalog old_store stick pruned_host).1 = Ok ()
  ∧ (ImportSnapshot stick new_store (ExportSnapshot sample_verified_catalog old_store stick pruned_host).2).1
    = Err (Errorf "offline bundle contains unlisted artifact %s" [AStr "packs/demo/1.0.0/pack.yaml"]).
Proof. vm_compute. by split. Qed.
