(* ===== verification/MarketRoundtrip.v ===== *)
(** * A bundle exported from one store and imported into another *)

From S2P Require Import Prelude GoStrings GoPath Model Disk FileTree Extract PackStore PackSamples Catalog Market MarketSamples CatalogSpec MarketSafety.

#[local] Open Scope monad_scope.

(** ** Paths that can be followed and written *)

Definition passable (o : option node) : Prop := match o with Some (NFile _) | Some (NLink _) => False | _ => True end.

(** No link on the way, and no file in the way. *)
Record path_ok (t : tree) (root parts : tpath) : Prop := {
  po_root q rest : root = q ++ rest → q ≠ [] → passable (t !! q);
  po_parts q e rest : parts = q ++ e :: rest → passable (t !! (root ++ q));
  po_link x : t !! (root ++ parts) ≠ Some (NLink x);
}.

Lemma blocked_false t parts : ∀ dir,
  (∀ q e rest, parts = q ++ e :: rest → q ≠ [] → passable (t !! (dir ++ q))) → blocked t dir parts = false.
Proof.
  induction parts as [|e parts IH]; intros dir Hp; [done|]. cbn [blocked]. destruct parts as [|e' parts]; [done|].
  pose proof (Hp [e] e' parts eq_refl) as Hpe. specialize (Hpe ltac:(done)).
  rewrite (IH (dir ++ [e])); [by destruct (t !! (dir ++ [e])) as [[]|]|].
  intros q e'' rest E Hq. rewrite <- app_assoc. apply (Hp (e :: q) e'' rest); [by rewrite E|done].
Qed.

Lemma path_ok_open t root parts q rest : path_ok t root parts → parts = q ++ rest → blocked t [] (root ++ q) = false.
Proof.
  intros Hok ->. apply blocked_false. cbn [app]. intros q1 e q2 E Hq1.
  apply app_eq_app in E as (z & [[-> Hz]|[-> Hz]]); [by eapply (po_root _ _ _ Hok q1 z)|].
  apply (po_parts _ _ _ Hok z e (q2 ++ rest)). by rewrite Hz, <- app_assoc.
Qed.

(** What [Lstat] meets on the way. *)
Definition met (r : res node) : Prop :=
  match r with Ok (NLink _) => False | Ok _ => True | Err e => IsNotExist e = true | Panic _ => False end.

Lemma path_ok_met t root parts q rest : path_ok t root parts → parts = q ++ rest → met (lookup_path t (root ++ q)).
Proof.
  intros Hok E. unfold lookup_path. rewrite (path_ok_open t root parts q rest) by done.
  assert (∀ x, t !! (root ++ q) ≠ Some (NLink x)) as Hl.
  { intros x Ex. destruct rest as [|e rest]; [rewrite app_nil_r in E; subst q; by apply (po_link _ _ _ Hok x)|].
    pose proof (po_parts _ _ _ Hok q e rest E) as Hp. by rewrite Ex in Hp. }
  destruct (t !! (root ++ q)) as [[c| |x]|]; [done|done|by destruct (Hl x)|]. by destruct (has_below _ _).
Qed.

Lemma path_ok_insert t root parts w c : path_ok t root parts → below w (root ++ parts) = None → path_ok (<[w := NFile c]> t) root parts.
Proof.
  intros Hok Hb. assert (∀ q rest, root ++ parts = q ++ rest → w ≠ q) as Hne by (intros q rest E ->; by rewrite E, below_app in Hb).
  split.
  - intros q rest E Hq. rewrite lookup_insert_ne; [by eapply po_root|]. apply (Hne q (rest ++ parts)). by rewrite E, <- app_assoc.
  - intros q e rest E. rewrite lookup_insert_ne; [by eapply po_parts|]. apply (Hne (root ++ q) (e :: rest)). by rewrite E, <- app_assoc.
  - intros x. rewrite lookup_insert_ne; [by apply po_link|]. apply (Hne (root ++ parts) []). by rewrite app_nil_r.
Qed.

(** Where a file can be put. *)
Definition ready (t : tree) (root parts : tpath) : Prop :=
  path_ok t root parts ∧ lookup_path t (root ++ parts) ≠ Ok NDir.

Lemma ready_insert t root parts w c :
  ready t root parts → below w (root ++ parts) = None → below (root ++ parts) w = None → ready (<[w := NFile c]> t) root parts.
Proof. intros [Hok Hd] H1 H2. split; [by apply path_ok_insert|]. by rewrite lookup_path_insert. Qed.

Lemma ready_empty t root parts :
  (∀ q rest, root = q ++ rest → q ≠ [] → passable (t !! q)) → (∀ rest, t !! (root ++ rest) = None) → parts ≠ [] → ready t root parts.
Proof.
  intros Hr Hn Hne. assert (path_ok t root parts) as Hok by (split; [done|intros; by rewrite Hn|intros x; by rewrite Hn]).
  split; [done|]. unfold lookup_path. rewrite (path_ok_open t root parts parts []) by (first [done|by rewrite app_nil_r]). rewrite Hn.
  destruct (has_below t (root ++ parts)) eqn:E; [|done]. apply has_below_spec in E as (e & rest & s & Es). by rewrite <- app_assoc, Hn in Es.
Qed.

Lemma same_length_below (a b : tpath) : length a = length b → a ≠ b → below a b = None.
Proof.
  intros Hl Hne. destruct (below a b) as [rest|] eqn:E; [|done]. apply below_Some in E as ->. rewrite length_app in Hl.
  destruct rest; [by rewrite app_nil_r in Hne|simpl in Hl; lia].
Qed.
Lemma below_same_root (d a b : tpath) : below (d ++ a) (d ++ b) = below a b.
Proof. induction d as [|e d IH]; [done|]. simpl. by rewrite String.eqb_refl. Qed.

(** ** A directory whose files are known

    Below [d] there is exactly one file for each key of [F], none of them above another. *)

Definition clear_of (F : gmap tpath string) (w : tpath) : Prop :=
  ∀ w', is_Some (F !! w') → below w' w = None ∧ below w w' = None.

Lemma clear_empty w : clear_of ∅ w.
Proof. intros w' [x Hx]. by rewrite lookup_empty in Hx. Qed.

Record directory (t : tree) (d : tpath) (F : gmap tpath string) : Prop := {
  di_root q rest : d = q ++ rest → q ≠ [] → passable (t !! q);
  di_files w : t !! (d ++ w) = NFile <$> F !! w;
  di_apart w w' : is_Some (F !! w) → is_Some (F !! w') → w ≠ w' → below w w' = None;
}.

Lemma directory_path_ok t d F w :
  directory t d F → w ≠ [] → (∀ w', is_Some (F !! w') → w' ≠ w → below w' w = None) → path_ok t d w.
Proof.
  intros Hd Hw Hc. split; [by apply (di_root _ _ _ Hd)| |].
  - intros q e rest E. rewrite (di_files _ _ _ Hd). destruct (F !! q) as [x|] eqn:Eq; [|done]. exfalso.
    assert (q ≠ w) as Hne by (intros ->; apply (f_equal length) in E; rewrite length_app in E; simpl in E; lia).
    pose proof (Hc q (mk_is_Some _ _ Eq) Hne) as Hb. by rewrite E, below_app in Hb.
  - intros x. rewrite (di_files _ _ _ Hd). by destruct (F !! w).
Qed.

Lemma path_ok_lookup t d w n : path_ok t d w → t !! (d ++ w) = Some n → lookup_path t (d ++ w) = Ok n.
Proof. intros Hok E. unfold lookup_path. rewrite (path_ok_open t d w w []), E by (first [done|by rewrite app_nil_r]). done. Qed.

(** A file of the directory. *)
Lemma directory_file t d F w data :
  directory t d F → w ≠ [] → F !! w = Some data → path_ok t d w ∧ file_at t (d ++ w) = Ok data.
Proof.
  intros Hd Hw E. assert (path_ok t d w) as Hok.
  { apply (directory_path_ok t d F); [done..|]. intros w' Hw' Hne. by apply (di_apart _ _ _ Hd). }
  split; [done|]. unfold file_at. by rewrite (path_ok_lookup t d w (NFile data)) by (try done; by rewrite (di_files _ _ _ Hd), E).
Qed.

(** A path where there is nothing. *)
Lemma directory_clear t d F w :
  directory t d F → w ≠ [] → clear_of F w → ready t d w ∧ missing t (d ++ w).
Proof.
  intros Hd Hw Hc. assert (path_ok t d w) as Hok by (apply (directory_path_ok t d F); [done..|]; intros w' Hw' _; by apply Hc).
  assert (F !! w = None) as En.
  { destruct (F !! w) eqn:E; [|done]. destruct (Hc w) as [Hb _]; [by eexists|]. pose proof (below_app w []) as Ha. rewrite app_nil_r in Ha. congruence. }
  assert (lookup_path t (d ++ w) = Err (errors_New ErrNotExist)) as El.
  { unfold lookup_path. rewrite (path_ok_open t d w w []) by (first [done|by rewrite app_nil_r]). rewrite (di_files _ _ _ Hd), En. cbn.
    destruct (has_below t (d ++ w)) eqn:Eb; [|done]. apply has_below_spec in Eb as (e & rest & Hs).
    rewrite <- app_assoc, (di_files _ _ _ Hd), fmap_is_Some in Hs. destruct (Hc _ Hs) as [_ Hb]. by rewrite below_app in Hb. }
  split; [split; [done|by rewrite El]|]. unfold missing, file_at. rewrite El. eauto.
Qed.

Lemma directory_insert t d F w data :
  directory t d F → w ≠ [] → clear_of F w → directory (<[d ++ w := NFile data]> t) d (<[w := data]> F).
Proof.
  intros Hd Hw Hc. split.
  - intros q rest E Hq. rewrite lookup_insert_ne; [by apply (di_root _ _ _ Hd q rest)|]. intros <-. rewrite <- app_assoc in E.
    apply (f_equal length) in E. rewrite !length_app in E. destruct w; simpl in *; [done|lia].
  - intros w'. destruct (decide (w' = w)) as [->|Hne]; [by rewrite !lookup_insert_eq|]. rewrite !lookup_insert_ne; [apply (di_files _ _ _ Hd)|done|].
    intros E%app_inv_head. done.
  - intros w1 w2. destruct (decide (w1 = w)) as [->|H1]; destruct (decide (w2 = w)) as [->|H2]; try done;
      rewrite ?lookup_insert_eq, ?lookup_insert_ne by done; intros; [by apply Hc|by apply Hc|by apply (di_apart _ _ _ Hd)].
Qed.

Lemma directory_elsewhere t d F d' w data : apart d d' = true → directory t d F → directory (<[d' ++ w := NFile data]> t) d F.
Proof.
  intros Ha Hd. assert (∀ x, d' ++ w ≠ d ++ x) as Hne.
  { intros x E. destruct (apart_below d d' x w Ha) as [_ Hb]. rewrite E in Hb. pose proof (below_app (d ++ x) []) as Hx. rewrite app_nil_r in Hx. congruence. }
  split; [|intros w'; rewrite lookup_insert_ne by done; apply (di_files _ _ _ Hd)|apply (di_apart _ _ _ Hd)].
  intros q rest E Hq. rewrite lookup_insert_ne; [by apply (di_root _ _ _ Hd q rest)|]. intros <-. destruct (apart_below d d' [] w Ha) as [_ Hb].
  rewrite E, app_nil_r, below_app in Hb. done.
Qed.

(** Files written side by side. *)
Lemma directory_placed {A} (f : A → option string) (w : A → tpath) d l : ∀ t F,
  directory t d F → (∀ x, x ∈ l → w x ≠ [] ∧ clear_of F (w x)) →
  (∀ x y, x ∈ l → y ∈ l → x ≠ y → below (w x) (w y) = None) → NoDup l →
  ∃ F', directory (placed f (λ x, d ++ w x) l t) d F' ∧ (∀ x, x ∈ l → F' !! w x = f x)
        ∧ (∀ w', (∀ x, x ∈ l → w' ≠ w x) → F' !! w' = F !! w').
Proof.
  induction l as [|x l IH]; intros t F Hd Hc Hp Hn; [exists F; split_and!; [done|by intros x ?%elem_of_nil|done]|].
  apply NoDup_cons in Hn as [Hx Hn]. rewrite placed_cons. destruct (Hc x) as [Hwx Hcx]; [by left|].
  set (F1 := match f x with Some data => <[w x := data]> F | None => F end).
  assert (F !! w x = None) as Hxn.
  { destruct (F !! w x) eqn:E; [|done]. destruct (Hcx (w x)) as [Hb _]; [by eexists|]. pose proof (below_app (w x) []) as Ha. rewrite app_nil_r in Ha. congruence. }
  destruct (IH (match f x with Some data => <[d ++ w x := NFile data]> t | None => t end) F1) as (F' & Hd' & Hin & Hout).
  - unfold F1. destruct (f x); [by apply directory_insert|done].
  - intros y Hy. destruct (Hc y) as [Hwy Hcy]; [by right|]. split; [done|]. assert (x ≠ y) as Hxy by (intros ->; done).
    unfold F1. destruct (f x); [|done]. intros w' Hw'. destruct (decide (w' = w x)) as [->|Hne]; [|rewrite lookup_insert_ne in Hw' by done; by apply Hcy].
    split; apply Hp; try done; first [by left|by right].
  - intros y z Hy Hz. apply Hp; by right.
  - done.
  - exists F'. split_and!; [done| |].
    + intros y [->|Hy]%elem_of_cons; [|by apply Hin]. rewrite Hout; [unfold F1; destruct (f x) eqn:E; [by rewrite lookup_insert_eq|done]|].
      intros z Hz E. assert (x ≠ z) as Hxz by (intros ->; done). pose proof (Hp x z ltac:(by left) ltac:(by right) Hxz) as Hb. rewrite E in Hb.
      pose proof (below_app (w z) []) as Ha. rewrite app_nil_r in Ha. congruence.
    + intros w' Hw'. rewrite Hout by (intros z Hz; apply Hw'; by right). unfold F1. destruct (f x); [|done].
      rewrite lookup_insert_ne; [done|]. intros E. by apply (Hw' x); [left|].
Qed.

Lemma placed_only {A} (w : A → tpath) (l : list A) (F F' : gmap tpath string) :
  (∀ w', (∀ x, x ∈ l → w' ≠ w x) → F' !! w' = F !! w') → ∀ w', is_Some (F' !! w') → is_Some (F !! w') ∨ ∃ x, x ∈ l ∧ w' = w x.
Proof.
  intros Hout w' Hw. destruct (decide (w' ∈ w <$> l)) as [(x & E & Hx)%list_elem_of_fmap|Hno]; [right; by exists x|left].
  rewrite <- Hout; [done|]. intros x Hx E. apply Hno. rewrite E. by apply list_elem_of_fmap_2.
Qed.

Lemma mkdir_open t d : (∀ q rest, d = q ++ rest → q ≠ [] → passable (t !! q)) → blocked t [] (d ++ [""]) = false.
Proof.
  intros Hr. apply blocked_false. cbn [app]. intros q e rest E Hne. assert (∃ z, d = q ++ z) as [z Hz]; [|by eapply (Hr q z)].
  symmetry in E. apply app_eq_app in E as (z & [[E1 E2]|[E1 E2]]); [|by exists z].
  destruct z; [exists []; by rewrite app_nil_r in *|]. injection E2 as <- E2. by destruct z.
Qed.

(** ** Calls on a working disk *)

Section works.
Context `{TreeEnv} (Hworks : ∀ n, call_fault n = Works).

(** [m] returns a value, and the value and the files it leaves satisfy [Q]. *)
Definition returns {A} (m : Prog TreeHost A) (t : tree) (Q : A → tree → Prop) : Prop :=
  ∀ n, wp m (λ r h', match r with Ok a => Q a (th_files h') | _ => False end) {| th_files := t; th_calls := n |}.

Lemma returns_call {A} (f : tree → res A * tree) (t : tree) Q :
  match (f t).1 with Ok a => Q a (f t).2 | _ => False end → returns (tree_call f) t Q.
Proof. intros Hq n. unfold wp, tree_call. cbn. rewrite Hworks. by destruct (f t). Qed.

Lemma returns_bind {A B} (m : Prog TreeHost A) (f : A → Prog TreeHost B) (t : tree) Q :
  returns m t (λ a t', returns (f a) t' Q) → returns (bind m f) t Q.
Proof.
  intros Hm n. apply wp_bind. eapply wp_mono; [apply Hm|]. intros [a|e|x] h'; cbn; [|done..]. intros Hf. specialize (Hf (th_calls h')). by destruct h'.
Qed.

Lemma returns_mono {A} (m : Prog TreeHost A) (t : tree) (Q Q' : A → tree → Prop) : returns m t Q → (∀ a t', Q a t' → Q' a t') → returns m t Q'.
Proof. intros Hm Hq n. eapply wp_mono; [apply Hm|]. intros [a|e|x] h'; cbn; auto. Qed.

Lemma returns_ret {A} (a : A) (t : tree) Q : Q a t → returns (ret a) t Q.
Proof. by intros Hq n. Qed.
Lemma returns_mcall {A} (r : res A) (a : A) (t : tree) (Q : A → tree → Prop) : r = Ok a → Q a t → returns (mcall r) t Q.
Proof. by intros -> Hq n. Qed.

(** [try] of a call that may fail. *)
Lemma returns_try_call {A} (f : tree → res A) (t : tree) (Q : res A → tree → Prop) :
  (∀ x, f t ≠ Panic x) → Q (f t) t → returns (try (tree_call (λ t, (f t, t)))) t Q.
Proof. intros Hp Hq n. unfold wp, try, tree_call. cbn. rewrite Hworks. cbn. destruct (f t) as [a|e|x]; [done|done|by destruct (Hp x)]. Qed.

Lemma returns_try {A} (m : Prog TreeHost A) (t : tree) (Q : res A → tree → Prop) : returns m t (λ a, Q (Ok a)) → returns (try m) t Q.
Proof. intros Hm n. apply wp_try. eapply wp_mono; [apply Hm|]. by intros [a|e|x] h'. Qed.

Lemma returns_nop t Q : Q () t → returns tree_nop t Q.
Proof. intros Hq. by apply returns_call. Qed.

Lemma returns_parts t parts : ∀ current (Q : unit → tree → Prop),
  (∀ q rest, parts = q ++ rest → q ≠ [] → met (lookup_path t (current ++ q))) → Q () t → returns (reject_parts current parts) t Q.
Proof.
  induction parts as [|part parts IH]; intros current Q Hm Hq; cbn [reject_parts]; [by apply returns_ret|].
  pose proof (Hm [part] parts eq_refl) as Hp. specialize (Hp ltac:(done)).
  assert (returns (reject_parts (current ++ [part]) parts) t Q) as Hrest.
  { apply IH; [|done]. intros q rest E Hne. rewrite <- app_assoc. apply (Hm (part :: q) rest); [by rewrite E|done]. }
  apply returns_bind, (returns_try_call (λ t, lookup_path t (current ++ [part]))); [intros x E; by rewrite E in Hp|].
  destruct (lookup_path t (current ++ [part])) as [[c| |x]|e|x]; [exact Hrest|exact Hrest|done| |done]. cbn in Hp. rewrite Hp. by apply returns_ret.
Qed.

Lemma returns_RejectSymlinks (t : tree) (root parts : tpath) (Q : unit → tree → Prop) :
  path_ok t root parts → Q () t → returns (tree_RejectSymlinks root (root ++ parts)) t Q.
Proof.
  intros Hok Hq. unfold tree_RejectSymlinks. rewrite below_app.
  pose proof (path_ok_met t root parts [] parts Hok eq_refl) as Hm. rewrite app_nil_r in Hm.
  apply returns_bind, (returns_try_call (λ t, lookup_path t root)); [intros x E; by rewrite E in Hm|].
  assert (returns (reject_parts root parts) t Q) as Hrest.
  { apply returns_parts; [|done]. intros q rest E _. by eapply path_ok_met. }
  destruct (lookup_path t root) as [[c| |x]|e|x]; try done; exact Hrest.
Qed.

Lemma path_ok_sub (t : tree) (root a b : tpath) : path_ok t root (a ++ b) → b ≠ [] → path_ok t (root ++ a) b.
Proof.
  intros Hok Hb. split.
  - intros q rest E Hq. apply app_eq_app in E as (z & [[-> Hz]|[-> Hz]]); [by eapply (po_root _ _ _ Hok q z)|].
    destruct (rest ++ b) as [|e l] eqn:E; [by destruct rest, b|]. apply (po_parts _ _ _ Hok z e l). by rewrite Hz, <- app_assoc, E.
  - intros q e rest ->. rewrite <- app_assoc. apply (po_parts _ _ _ Hok (a ++ q) e rest). by rewrite <- app_assoc.
  - intros x. rewrite <- app_assoc. apply (po_link _ _ _ Hok).
Qed.

Lemma lookup_path_no_panic t p x : lookup_path t p ≠ Panic x.
Proof. unfold lookup_path. repeat case_match; done. Qed.

(** The file that was put in place is not there to be removed. *)
Lemma returns_remove_gone (t : tree) (tmp : tpath) (Q : res unit → tree → Prop) :
  t !! tmp = None → (∀ r, Q r t) → returns (try (tree_Remove tmp)) t Q.
Proof.
  intros Ht Hq n. unfold wp, try, tree_Remove, tree_call. cbn. rewrite Hworks. unfold remove_in, lookup_path. rewrite Ht.
  destruct (blocked t [] tmp), (has_below t tmp); apply Hq.
Qed.

Lemma returns_atomicWrite (t : tree) (dir : tpath) (last data : string) (Q : unit → tree → Prop) :
  ready t dir [last] → ¬ temp_path (dir ++ [last]) → Q () (<[dir ++ [last] := NFile data]> t) →
  returns (tree_atomicWrite (dir ++ [last]) data) t Q.
Proof.
  intros [Hok Hd] Hp Hq. unfold tree_atomicWrite. unfold filepath_Dir. rewrite removelast_last.
  apply returns_bind, returns_RejectSymlinks; [done|]. apply returns_bind, returns_call.
  rewrite mkdir_open by (apply (po_root _ _ _ Hok)). cbn.
  unfold tree_CreateTemp. cbv zeta. apply returns_bind, returns_call. cbn [fst snd]. set (tmp := dir ++ [".worm-tmp-" +:+ temp_in t dir]).
  assert (tmp ≠ dir ++ [last]) as Hne by (intros E; apply Hp; rewrite <- E; apply temp_fresh_path).
  assert (t !! tmp = None) as Hf by apply temp_in_fresh.
  assert (lookup_path (<[tmp := NFile data]> t) (dir ++ [last]) ≠ Ok NDir) as Hd'.
  { rewrite lookup_path_insert; [done|..]; apply same_length_below; try done; unfold tmp; by rewrite !length_app. }
  apply returns_bind, returns_try, returns_bind, returns_try, returns_bind, returns_nop, returns_bind, returns_call. cbn [fst snd]. rewrite insert_insert_eq.
  apply returns_nop, returns_bind, returns_try, returns_nop, returns_bind, returns_ret, returns_bind, returns_ret, returns_bind, returns_call.
  assert (rename_in tmp (dir ++ [last]) (<[tmp := NFile data]> t) = (Ok (), <[dir ++ [last] := NFile data]> t)) as ->.
  { unfold rename_in. rewrite lookup_insert_eq, delete_insert_id by done. by destruct (lookup_path (<[tmp := NFile data]> t) (dir ++ [last])) as [[c| |x]|e|x]. }
  cbn [fst snd]. apply returns_bind, returns_nop, returns_nop, returns_bind, returns_remove_gone; [by rewrite lookup_insert_ne|]. intros r. by apply returns_ret.
Qed.

Lemma returns_AtomicWriteFile (t : tree) (root parts : tpath) (last data : string) (Q : unit → tree → Prop) :
  ready t root (parts ++ [last]) → ¬ temp_path (root ++ parts ++ [last]) → Q () (<[root ++ parts ++ [last] := NFile data]> t) →
  returns (AtomicWriteFile root (root ++ parts ++ [last]) data) t Q.
Proof.
  intros [Hok Hd] Hp Hq. apply returns_bind, returns_RejectSymlinks; [done|]. rewrite app_assoc in *.
  apply returns_atomicWrite; [|done..]. split; [by apply path_ok_sub|done].
Qed.
End works.

(** ** What a store has, and its bundle *)

Section market.
Context `{TreeEnv} `{SemVer} `{CatalogEnv} `{PackCodec} `{MarketEnv} (Hworks : ∀ n, call_fault n = Works).

Lemma returns_readArtifact (t : tree) (root parts : tpath) (r : Release) (Q : res string → tree → Prop) :
  (∀ data, artifact_at t (root ++ parts) r = Some data → Q (Ok data) t) →
  (∀ e, artifact_at t (root ++ parts) r = None → (IsNotExist e = true ↔ missing t (root ++ parts)) → Q (Err e) t) →
  returns (try (readArtifact (root ++ parts) r)) t Q.
Proof.
  intros Ho He n. apply wp_try. set (q := root ++ parts) in *. unfold readArtifact.
  assert (∀ {A} (f : tree → res A) (Q : res A → TreeHost → Prop) t n,
            Q (f t) {| th_files := t; th_calls := S n |} → wp (tree_call (λ t, (f t, t))) Q {| th_files := t; th_calls := n |}) as Hcall.
  { intros A f Q' t' n' HQ. unfold wp, tree_call. cbn. by rewrite Hworks. }
  apply wp_bind, (Hcall _ (λ t, n ← lookup_path t q; c ← file_bytes n; Ok (slen c))). rewrite size_at.
  unfold artifact_at, missing in *. destruct (file_at t q) as [content|e|x] eqn:Ef; cbn [mbind res_bind].
  2: { apply He; [done|]. split; [by exists e|by intros (e' & [= <-] & ?)]. }
  2: { by apply file_at_no_panic in Ef. }
  destruct (Z.eqb_spec (slen content) (Size r)) as [Es|Es]; cbn [negb].
  2: { apply wp_fail, He; [|split; [done|by intros (e & ? & _)]]. unfold VerifyArtifact. by rewrite (proj2 (Z.eqb_neq _ _) Es). }
  apply wp_bind, (Hcall _ (λ _, Ok ())), wp_bind, (Hcall _ (λ t, file_at t q)). rewrite Ef, str_take_le by (unfold slen in Es; lia).
  apply wp_bind, wp_mcall. destruct (VerifyArtifact r content) as [[]|e|x] eqn:Ev.
  - by apply wp_ret, Ho.
  - apply He; [done|]. rewrite (VerifyArtifact_not_missing _ _ _ Ev). split; [done|by intros (e' & ? & _)].
  - by apply VerifyArtifact_no_panic in Ev.
Qed.

(** The three places where [ExportSnapshot] looks for an artifact. *)
Definition yaml_names (p : CatalogPack) : list string := [cp_Name p +:+ ".yaml"; cp_Name p +:+ ".yml"].
Definition found (t : tree) (src : tpath) (pr : CatalogPack * Release) : option string :=
  match artifact_at t (src ++ cached_parts pr.1 pr.2) pr.2 with
  | Some data => Some data
  | None =>
      match artifact_at t (src ++ [cp_Name pr.1 +:+ ".yaml"]) pr.2 with
      | Some data => Some data
      | None => artifact_at t (src ++ [cp_Name pr.1 +:+ ".yml"]) pr.2
      end
  end.

Record store_ok (t : tree) (src : tpath) (pr : CatalogPack * Release) : Prop := {
  so_cached : path_ok t src (cached_parts pr.1 pr.2);
  so_yaml name : name ∈ yaml_names pr.1 → path_ok t src [name];
}.

Lemma found_verified t src pr data : found t src pr = Some data → VerifyArtifact pr.2 data = Ok ().
Proof.
  unfold found. destruct (artifact_at t (src ++ cached_parts _ _) _) eqn:E1; [intros [= <-]; by eapply artifact_at_verified|].
  destruct (artifact_at t (src ++ [cp_Name pr.1 +:+ ".yaml"]) _) eqn:E2; [intros [= <-]; by eapply artifact_at_verified|]. apply artifact_at_verified.
Qed.

Lemma yaml_plain c p r name : valid_catalog c → (p, r) ∈ releases_of c → name ∈ yaml_names p → plain_element name = true.
Proof.
  intros Hc Hpr Hn. apply elem_releases_of in Hpr as [Hp Hr]. destruct (vp_name _ (vc_packs _ Hc _ Hp)) as [Hb Hne].
  destruct (cp_Name p) as [|a s] eqn:En; [done|]. unfold yaml_names in Hn. rewrite En in Hn.
  assert (∀ suf, all_bytes (λ c, c <>b "/"%char) suf = true → plain_element (String a s +:+ suf) = true) as Hpl.
  { intros suf Hs. rewrite app_cons_str. apply plain_head.
    - apply Ascii.eqb_neq. intros ->. by cbn in Hb.
    - rewrite <- app_cons_str, all_bytes_app, Hs. by rewrite (no_slash name_byte). }
  apply elem_of_cons in Hn as [->|Hn]; [by apply Hpl|]. apply list_elem_of_singleton in Hn as ->. by apply Hpl.
Qed.

Lemma returns_find_artifact (c : Catalog) (t : tree) (src : tpath) (p : CatalogPack) (r : Release) (Q : res string → tree → Prop) :
  valid_catalog c → (p, r) ∈ releases_of c → store_ok t src (p, r) →
  (∀ data, found t src (p, r) = Some data → Q (Ok data) t) → (∀ e, found t src (p, r) = None → Q (Err e) t) →
  returns (find_artifact src p r) t Q.
Proof.
  intros Hc Hpr [Hok Hy] Ho He. cbn [fst snd] in Hok, Hy. unfold find_artifact. rewrite (cached_path_eq c Hc p r Hpr).
  apply returns_bind, (returns_RejectSymlinks Hworks); [done|]. apply returns_bind, returns_readArtifact.
  - intros data E. apply returns_ret, Ho. unfold found. cbn [fst snd]. by rewrite E.
  - intros e0 E0 _. cbn [first_artifact].
    assert (∀ name, name ∈ yaml_names p → filepath_Join src [name] = src ++ [name]) as Hj.
    { intros name Hn. apply Join_plain. cbn [forallb]. by rewrite (yaml_plain c p r). }
    rewrite !Hj by (unfold yaml_names; set_solver).
    apply returns_bind, (returns_RejectSymlinks Hworks); [apply Hy; unfold yaml_names; set_solver|]. apply returns_bind, returns_readArtifact.
    { intros data E. apply returns_ret, Ho. unfold found. cbn [fst snd]. by rewrite E0, E. }
    intros e1 E1 _. apply returns_bind, (returns_RejectSymlinks Hworks); [apply Hy; unfold yaml_names; set_solver|]. apply returns_bind, returns_readArtifact.
    { intros data E. apply returns_ret, Ho. unfold found. cbn [fst snd]. by rewrite E0, E1, E. }
    intros e2 E2 _. apply returns_ret, He. unfold found. cbn [fst snd]. by rewrite E0, E1, E2.
Qed.

Lemma artifact_at_insert t src mid x w c r :
  apart src mid = true → artifact_at (<[mid ++ w := NFile c]> t) (src ++ x) r = artifact_at t (src ++ x) r.
Proof. intros Ha. destruct (apart_below src mid x w Ha). unfold artifact_at, file_at. by rewrite lookup_path_insert. Qed.

Lemma found_insert t src mid w c pr : apart src mid = true → found (<[mid ++ w := NFile c]> t) src pr = found t src pr.
Proof. intros Ha. unfold found. by rewrite !artifact_at_insert. Qed.

Lemma store_ok_insert t src mid w c pr : apart src mid = true → store_ok t src pr → store_ok (<[mid ++ w := NFile c]> t) src pr.
Proof.
  intros Ha [Hok Hy]. split; [|intros name Hn]; (apply path_ok_insert; [auto|]).
  - by destruct (apart_below src mid (cached_parts pr.1 pr.2) w Ha).
  - by destruct (apart_below src mid [name] w Ha).
Qed.

(** A file of the bundle, or of the store, leaves room for the others. *)
Lemma ready_sibling t root w parts c :
  ready t root parts → length w = length parts → w ≠ parts → ready (<[root ++ w := NFile c]> t) root parts.
Proof.
  intros Hr Hl Hne. apply ready_insert; [done|..]; rewrite below_same_root; by apply same_length_below.
Qed.

Lemma ready_apart t root d w parts c : apart root d = true → ready t root parts → ready (<[d ++ w := NFile c]> t) root parts.
Proof. intros Ha Hr. destruct (apart_below root d parts w Ha). by apply ready_insert. Qed.

Lemma parts_determined c pr pr' :
  valid_catalog c → pr ∈ releases_of c → pr' ∈ releases_of c → artifact_parts pr.1 pr.2 = artifact_parts pr'.1 pr'.2 → pr = pr'.
Proof. destruct pr, pr'. cbn. intros Hc Hp Hp' [= E1 E2]. by apply (release_determined c). Qed.

Lemma cached_determined c pr pr' :
  valid_catalog c → pr ∈ releases_of c → pr' ∈ releases_of c → cached_parts pr.1 pr.2 = cached_parts pr'.1 pr'.2 → pr = pr'.
Proof. destruct pr, pr'. cbn. intros Hc Hp Hp' [= E1 E2]. by apply (release_determined c). Qed.

Lemma artifact_not_temp dir p r : ¬ temp_path (dir ++ artifact_parts p r).
Proof. unfold artifact_parts. change (dir ++ [?a; ?b; ?x; ?z]) with (dir ++ [a; b; x] ++ [z]). rewrite app_assoc. apply pack_yaml_not_temp. Qed.

(** ** The export *)

Section export.
Context (c : Catalog) (Hc : valid_catalog c) (src mid : tpath) (Hap : apart src mid = true) (t0 : tree).

Definition shipped (pr : CatalogPack * Release) : tpath := mid ++ artifact_parts pr.1 pr.2.
Definition present (l : list (CatalogPack * Release)) : list string :=
  omap (λ pr, (λ _, Artifact pr.2) <$> found t0 src pr) l.

Lemma returns_export_releases l : ∀ (t : tree) (Q : list string → tree → Prop),
  (∀ pr, pr ∈ l → pr ∈ releases_of c) → NoDup l →
  (∀ pr, pr ∈ l → store_ok t src pr ∧ found t src pr = found t0 src pr ∧ ready t mid (artifact_parts pr.1 pr.2)) →
  Q (present l) (placed (found t0 src) shipped l t) → returns (export_releases src mid l) t Q.
Proof.
  induction l as [|[p r] l IH]; intros t Q Hl Hn Hs Hq; cbn [export_releases]; [by apply returns_ret|].
  assert ((p, r) ∈ releases_of c) as Hpr by (apply Hl; by left). destruct (Hs (p, r)) as (Hok & Hf & Hr); [by left|].
  apply NoDup_cons in Hn as [Hpl Hn]. assert (∀ pr, pr ∈ l → pr ∈ releases_of c) as Hl' by (intros pr ?; apply Hl; by right).
  rewrite placed_cons in Hq. unfold present in Hq. cbn [omap list_omap] in Hq. fold (present l) in Hq. rewrite <- Hf in Hq.
  apply returns_bind, (returns_find_artifact c t src p r); [done..| |].
  - intros data E. pose proof (found_verified _ _ _ _ E) as Hv. cbn [snd] in Hv. rewrite E in Hq. cbn in Hq.
    apply returns_bind, (returns_mcall _ ()); [done|]. apply returns_bind. rewrite (artifact_path_eq c Hc p r Hpr).
    apply (returns_AtomicWriteFile Hworks t mid ["packs"; cp_Name p; Version r] "pack.yaml"); [done|apply (artifact_not_temp mid p r)|].
    change (mid ++ ["packs"; cp_Name p; Version r] ++ ["pack.yaml"]) with (mid ++ artifact_parts p r).
    apply returns_bind, IH; [done|done| |by apply returns_ret].
    intros pr Hin. destruct (Hs pr) as (Hok' & Hf' & Hr'); [by right|]. split_and!.
    + by apply store_ok_insert.
    + by rewrite found_insert.
    + apply ready_sibling; [done|done|]. intros E'. apply Hpl. rewrite (parts_determined c (p, r) pr Hc Hpr); [done|by apply Hl'|exact E'].
  - intros e E. rewrite E in Hq. apply IH; [done|done| |done]. intros pr Hin. apply Hs. by right.
Qed.
End export.

(** The paths of a bundle: none is above another. *)
Definition in_bundle (c : Catalog) (w : tpath) : Prop :=
  w = ["catalog.json"] ∨ w = ["bundle.json"] ∨ ∃ pr, pr ∈ releases_of c ∧ w = artifact_parts pr.1 pr.2.

Lemma in_bundle_apart c w w' : in_bundle c w → in_bundle c w' → w ≠ w' → below w w' = None.
Proof.
  intros [->|[->|(pr & _ & ->)]] [->|[->|(pr' & _ & ->)]] Hne; try done. by apply same_length_below.
Qed.

Lemma in_bundle_clear c F w :
  (∀ w', is_Some (F !! w') → in_bundle c w') → in_bundle c w → F !! w = None → clear_of F w.
Proof.
  intros Hk Hw En w' Hw'. assert (w' ≠ w) by (intros ->; rewrite En in Hw'; by destruct Hw').
  split; (eapply in_bundle_apart; [by eauto..|done]).
Qed.

Lemma placed_elsewhere {A} (f : A → option string) (w : A → tpath) d d' l : ∀ t F,
  apart d d' = true → directory t d F → directory (placed f (λ x, d' ++ w x) l t) d F.
Proof.
  induction l as [|x l IH]; intros t F Ha Hd; [done|]. rewrite placed_cons. apply IH; [done|]. destruct (f x); [by apply directory_elsewhere|done].
Qed.

(** ** The export *)

Lemma present_NoDup t0 src l : NoDup ((λ pr : CatalogPack * Release, Artifact pr.2) <$> l) → NoDup (present src t0 l).
Proof.
  induction l as [|pr l IH]; [constructor|]. rewrite fmap_cons. intros [Hn Hl]%NoDup_cons. unfold present. cbn [omap list_omap].
  destruct (found t0 src pr); [|by apply IH]. cbn. constructor; [|by apply IH]. intros (pr' & Hpr' & E)%list_elem_of_omap.
  apply Hn. destruct (found t0 src pr'); [|done]. injection E as E. apply list_elem_of_fmap. exists pr'. split; [done|done].
Qed.

Definition bundle_text (src : tpath) (t0 : tree) (envelope : string) (c : Catalog) : string :=
  MarshalIndent_bundle {| b_Version := 1; b_CatalogSHA256 := Digest envelope;
                          b_Available := order_by str_le (present src t0 (releases_of c)) |}.

(** The files of the bundle. *)
Record exported (t0 : tree) (src : tpath) (envelope : string) (c : Catalog) (F : gmap tpath string) : Prop := {
  ex_artifacts pr : pr ∈ releases_of c → F !! artifact_parts pr.1 pr.2 = found t0 src pr;
  ex_catalog : F !! ["catalog.json"] = Some envelope;
  ex_index : F !! ["bundle.json"] = Some (bundle_text src t0 envelope c);
  ex_only w : is_Some (F !! w) → in_bundle c w;
}.

Lemma Verify_envelope envelope c : Verify envelope = Ok c → c_envelope c = envelope ∧ envelope ≠ "".
Proof.
  intros Hv. split.
  - revert Hv. unfold Verify. intros (env & _ & (ek & _ & (key & _ & (sig & _ & (payload & _ & Hv)%res_bind_ok)%res_bind_ok)%res_bind_ok)%res_bind_ok)%res_bind_ok.
    case_match; [done|]. by apply res_bind_ok in Hv as (c0 & _ & ([] & _ & [= <-])%res_bind_ok).
  - intros ->. unfold Verify in Hv. by rewrite Unmarshal_Envelope_empty in Hv.
Qed.

Lemma Verify_validated envelope c : Verify envelope = Ok c → Catalog_Validate c = Ok ().
Proof.
  unfold Verify. intros (env & _ & (ek & _ & (key & _ & (sig & _ & (payload & _ & Hv)%res_bind_ok)%res_bind_ok)%res_bind_ok)%res_bind_ok)%res_bind_ok.
  case_match; [done|]. by apply res_bind_ok in Hv as (c0 & _ & ([] & Hval & [= <-])%res_bind_ok).
Qed.

Lemma returns_write_file (t : tree) (d : tpath) (F : gmap tpath string) (parts : tpath) (last data : string) (Q : unit → tree → Prop) :
  directory t d F → clear_of F (parts ++ [last]) → ¬ temp_path (d ++ parts ++ [last]) →
  (directory (<[d ++ parts ++ [last] := NFile data]> t) d (<[parts ++ [last] := data]> F) → Q () (<[d ++ parts ++ [last] := NFile data]> t)) →
  returns (AtomicWriteFile d (d ++ parts ++ [last]) data) t Q.
Proof.
  intros Hd Hc Hp Hq. assert (parts ++ [last] ≠ []) by (by destruct parts). apply (returns_AtomicWriteFile Hworks); [|done|].
  - by eapply directory_clear.
  - by apply Hq, directory_insert.
Qed.

Lemma json_not_temp d name : ("." =b default "a"%char (String.get 0 name)) = false → ¬ temp_path (d ++ [name]).
Proof. intros Hn (d' & s & [_ [= ->]]%app_inj_2 & _); done. Qed.

Lemma returns_Export (envelope : string) (c : Catalog) (src mid dst : tpath) (t0 : tree) (Q : unit → tree → Prop) :
  Verify envelope = Ok c → apart src mid = true → apart dst mid = true →
  (∀ pr, pr ∈ releases_of c → store_ok t0 src pr) → directory t0 mid ∅ → directory t0 dst ∅ →
  (∀ t F, directory t mid F → exported t0 src envelope c F → directory t dst ∅ → Q () t) →
  returns (ExportSnapshot c src mid) t0 Q.
Proof.
  intros Hv Ha Ha' Hs Hm Hdst Hq. assert (valid_catalog c) as Hc by by eapply Verify_valid.
  destruct (Verify_envelope _ _ Hv) as [He Hne]. unfold ExportSnapshot.
  apply returns_bind, (returns_mcall _ ()); [by eapply Verify_validated|]. rewrite He.
  destruct (Z.eqb_spec (slen envelope) 0) as [Hz|_]; [by destruct envelope|].
  apply returns_bind, (returns_call Hworks). rewrite mkdir_open by (apply (di_root _ _ _ Hm)). cbn [fst snd].
  apply returns_bind, (returns_export_releases c Hc src mid Ha t0); [done|by apply releases_NoDup| |].
  { intros pr Hpr. split_and!; [by apply Hs|done|]. apply (directory_clear t0 mid ∅); [done|done|apply clear_empty]. }
  destruct (directory_placed (found t0 src) (λ pr, artifact_parts pr.1 pr.2) mid (releases_of c) t0 ∅ Hm) as (F & HF & Hin & Hout).
  { intros pr _. split; [done|apply clear_empty]. }
  { intros pr pr' Hpr Hpr' Hne'. apply same_length_below; [done|]. intros E. apply Hne'. by apply (parts_determined c). }
  { by apply releases_NoDup. }
  change (placed (found t0 src) (λ pr, mid ++ artifact_parts pr.1 pr.2) (releases_of c) t0) with (placed (found t0 src) (shipped mid) (releases_of c) t0) in HF.
  set (t1 := placed (found t0 src) (shipped mid) (releases_of c) t0) in *.
  assert (directory t1 dst ∅) as Hd1 by exact (placed_elsewhere (found t0 src) (λ pr, artifact_parts pr.1 pr.2) dst mid (releases_of c) t0 ∅ Ha' Hdst).
  assert (∀ w, is_Some (F !! w) → ∃ pr, pr ∈ releases_of c ∧ w = artifact_parts pr.1 pr.2) as Honly.
  { intros w [[? Hw]|Hw]%(placed_only (λ pr : CatalogPack * Release, artifact_parts pr.1 pr.2) _ _ _ Hout); [by rewrite lookup_empty in Hw|done]. }
  rewrite !Join_plain by done.
  apply returns_bind, (returns_write_file t1 mid F [] "catalog.json"); [done| |by apply json_not_temp|].
  { intros w (pr & _ & ->)%Honly. done. }
  cbn [app]. intros HD2. set (t2 := <[mid ++ ["catalog.json"] := NFile envelope]> t1) in *.
  apply (returns_write_file t2 mid (<[["catalog.json"] := envelope]> F) [] "bundle.json"); [exact HD2| |by apply json_not_temp|].
  { intros w Hw. destruct (decide (w = ["catalog.json"])) as [->|Hn]; [done|]. rewrite lookup_insert_ne in Hw by done.
    apply Honly in Hw as (pr & _ & ->). done. }
  cbn [app]. intros HD3. eapply Hq; [exact HD3| |by apply directory_elsewhere, directory_elsewhere].
  split.
  - intros pr Hpr. rewrite !lookup_insert_ne by done. by apply Hin.
  - by rewrite lookup_insert_ne, lookup_insert_eq.
  - by rewrite lookup_insert_eq.
  - intros w Hw. destruct (decide (w = ["bundle.json"])) as [->|Hn]; [right; by left|]. rewrite lookup_insert_ne in Hw by done.
    destruct (decide (w = ["catalog.json"])) as [->|Hn']; [by left|]. rewrite lookup_insert_ne in Hw by done. right. right. by apply Honly.
Qed.

(** ** The import *)

Lemma list_artifacts_NoDup l : ∀ listed, NoDup l → (∀ a, a ∈ l → a ∉ listed) → list_artifacts listed l = Ok (list_to_set l ∪ listed).
Proof.
  induction l as [|a l IH]; intros listed Hn Hl; cbn [list_artifacts]; [f_equal; set_solver|]. apply NoDup_cons in Hn as [Ha Hn].
  rewrite bool_decide_eq_false_2 by (apply Hl; by left). rewrite IH; [f_equal; set_solver|done|set_solver].
Qed.

Section import.
Context (c : Catalog) (Hc : valid_catalog c) (mid dst : tpath) (Hap : apart mid dst = true) (f : CatalogPack * Release → option string).

(** The bundle has an artifact, at its path, or nothing there. *)
Record entry_ok (t : tree) (pr : CatalogPack * Release) : Prop := {
  eo_path : path_ok t mid (artifact_parts pr.1 pr.2);
  eo_artifact : artifact_at t (mid ++ artifact_parts pr.1 pr.2) pr.2 = f pr;
  eo_missing : f pr = None → missing t (mid ++ artifact_parts pr.1 pr.2);
}.

Lemma returns_check_bundle (t : tree) l : ∀ (listed : gset string) (Q : gset string → tree → Prop),
  (∀ pr, pr ∈ l → pr ∈ releases_of c) → NoDup ((λ pr : CatalogPack * Release, Artifact pr.2) <$> l) →
  (∀ pr, pr ∈ l → entry_ok t pr ∧ (Artifact pr.2 ∈ listed ↔ is_Some (f pr))) →
  (∀ rest : gset string, (∀ a, a ∈ rest → a ∈ listed ∧ ∀ pr, pr ∈ l → a ≠ Artifact pr.2) → Q rest t) →
  returns (check_bundle mid listed l) t Q.
Proof.
  induction l as [|[p r] l IH]; intros listed Q Hl Hn Hs Hq; cbn [check_bundle]; cbv zeta.
  { apply returns_ret, Hq. intros a Ha. split; [done|]. by intros pr ?%elem_of_nil. }
  destruct (Hs (p, r)) as ([Hok Ha Hm] & Hlist); [by left|]. cbn [fst snd] in *. rewrite fmap_cons in Hn. apply NoDup_cons in Hn as [Har Hn]. cbn [snd] in Har.
  assert (∀ pr, pr ∈ l → pr ∈ releases_of c) as Hl' by (intros pr ?; apply Hl; by right).
  assert (∀ pr, pr ∈ l → Artifact pr.2 ≠ Artifact r) as Hne.
  { intros pr Hin E. apply Har. rewrite <- E. by apply (list_elem_of_fmap_2 (λ pr, Artifact pr.2)). }
  rewrite (artifact_path_eq c Hc p r) by (apply Hl; by left).
  apply returns_bind, (returns_RejectSymlinks Hworks); [done|]. apply returns_bind, returns_readArtifact.
  - intros data E. apply returns_bind, (returns_mcall _ ()); [by rewrite (artifact_at_verified _ _ _ _ E)|].
    assert (Artifact r ∈ listed) as Hin by (apply Hlist; rewrite <- Ha, E; by eexists).
    rewrite bool_decide_eq_true_2 by done. cbn [negb]. apply IH; [done|done| |].
    + intros pr Hpr. destruct (Hs pr) as [He Hi]; [by right|]. split; [done|]. rewrite <- Hi. specialize (Hne _ Hpr). set_solver.
    + intros rest Hrest. apply Hq. intros a [[Hal Har']%elem_of_difference Hoth]%Hrest. split; [done|].
      intros pr [->|Hpr]%elem_of_cons; [cbn; set_solver|by apply Hoth].
  - intros e E Hmiss. rewrite Ha in E. rewrite (proj2 Hmiss) by by apply Hm.
    assert (Artifact r ∉ listed) as Hnin by (rewrite Hlist, E; by intros [? ?]).
    rewrite bool_decide_eq_false_2 by done. apply IH; [done|done|intros pr ?; apply Hs; by right|].
    intros rest Hrest. apply Hq. intros a [Hal Hoth]%Hrest. split; [done|]. intros pr [->|Hpr]%elem_of_cons; [cbn; by intros ->|by apply Hoth].
Qed.

Lemma entry_ok_insert t pr w data : entry_ok t pr → entry_ok (<[dst ++ w := NFile data]> t) pr.
Proof.
  intros [Hok Ha Hm]. destruct (apart_below mid dst (artifact_parts pr.1 pr.2) w Hap). split.
  - by apply path_ok_insert.
  - by rewrite artifact_at_insert.
  - intros E. destruct (Hm E) as (e & He & Hn). exists e. split; [|done]. unfold file_at in *. by rewrite lookup_path_insert.
Qed.

Lemma returns_import_releases l : ∀ (t : tree) (Q : unit → tree → Prop),
  (∀ pr, pr ∈ l → pr ∈ releases_of c) → NoDup l →
  (∀ pr, pr ∈ l → entry_ok t pr ∧ ready t dst (cached_parts pr.1 pr.2)) →
  Q () (placed f (λ pr, dst ++ cached_parts pr.1 pr.2) l t) → returns (each (import_release mid dst) l) t Q.
Proof.
  induction l as [|[p r] l IH]; intros t Q Hl Hn Hs Hq; cbn [each]; [by apply returns_ret|].
  assert ((p, r) ∈ releases_of c) as Hpr by (apply Hl; by left). destruct (Hs (p, r)) as ([Hok Ha Hm] & Hr); [by left|]. cbn [fst snd] in *.
  apply NoDup_cons in Hn as [Hpl Hn]. assert (∀ pr, pr ∈ l → pr ∈ releases_of c) as Hl' by (intros pr ?; apply Hl; by right).
  rewrite placed_cons in Hq. apply returns_bind. unfold import_release at 1. cbv zeta. rewrite (artifact_path_eq c Hc p r Hpr).
  apply returns_bind, (returns_RejectSymlinks Hworks); [done|]. apply returns_bind, returns_readArtifact.
  - intros data E. rewrite <- Ha, E in Hq. cbn [fst snd] in Hq. apply returns_bind, (returns_mcall _ ()); [by eapply artifact_at_verified|].
    rewrite (cached_path_eq c Hc p r Hpr). change (dst ++ cached_parts p r) with (dst ++ [".marketplace"; "artifacts"; cp_Name p; Version r] ++ ["pack.yaml"]).
    apply (returns_AtomicWriteFile Hworks); [done|apply (cached_not_temp dst p r)|].
    change (dst ++ [".marketplace"; "artifacts"; cp_Name p; Version r] ++ ["pack.yaml"]) with (dst ++ cached_parts p r).
    apply IH; [done|done| |done]. intros pr Hin. destruct (Hs pr) as [He Hrd]; [by right|]. split; [by apply entry_ok_insert|].
    apply ready_sibling; [done|done|]. intros E'. apply Hpl. rewrite (cached_determined c (p, r) pr Hc Hpr); [done|by apply Hl'|exact E'].
  - intros e E Hmiss. rewrite Ha in E. rewrite E in Hq. rewrite (proj2 Hmiss) by by apply Hm. apply returns_ret. apply IH; [done|done| |done].
    intros pr Hin. apply Hs. by right.
Qed.
End import.

(** ** The round trip *)

(** [encoding/json] gives back what it printed of ASCII text; a digest is in hexadecimal. *)
Definition ascii_text (s : string) : bool := all_bytes (λ c, bz c <? 128) s.
Class BundleLaws := {
  bundle_roundtrip b : b_Version b = 1 → ascii_text (b_CatalogSHA256 b) = true → (∀ a, a ∈ b_Available b → ascii_text a = true) →
    Unmarshal_bundle (MarshalIndent_bundle b) = Some b;
  digest_ascii s : ascii_text (sha256_hex s) = true;
}.

Lemma artifact_ascii c p r : valid_catalog c → (p, r) ∈ releases_of c → ascii_text (Artifact r) = true.
Proof.
  intros Hc Hpr. rewrite (valid_artifact c Hc p r Hpr). apply elem_releases_of in Hpr as [Hp Hr]. pose proof (vc_packs _ Hc _ Hp) as Hvp.
  unfold artifact_parts, ascii_text. rewrite !Join_cons. rewrite !all_bytes_app. unfold Join at 1. cbn [String.concat].
  assert (all_bytes (λ c, bz c <? 128) (cp_Name p) = true) as ->.
  { eapply all_bytes_impl; [|apply (vp_name _ Hvp)]. intros x. unfold name_byte, is_digit. rewrite !orb_true_iff. intros [[?|?]|Hx%Ascii.eqb_eq]; [lia..|by subst]. }
  assert (all_bytes (λ c, bz c <? 128) (Version r) = true) as ->; [|done].
  eapply all_bytes_impl; [|apply (vr_bytes p), (vp_releases _ Hvp), Hr]. intros x. unfold version_byte, is_digit. rewrite !orb_true_iff.
  intros [[[[[?|?]|?]|Hx%Ascii.eqb_eq]|Hx%Ascii.eqb_eq]|Hx%Ascii.eqb_eq]; [lia..|by subst|by subst|by subst].
Qed.

(** The paths of a store: none is above another. *)
Definition in_store (c : Catalog) (w : tpath) : Prop :=
  w = [".marketplace"; "catalog.json"] ∨ ∃ pr, pr ∈ releases_of c ∧ w = cached_parts pr.1 pr.2.

Lemma in_store_apart c w w' : in_store c w → in_store c w' → w ≠ w' → below w w' = None.
Proof. intros [->|(pr & _ & ->)] [->|(pr' & _ & ->)] Hne; try done. by apply same_length_below. Qed.

(** The store a bundle was imported into. *)
Record restored (t0 : tree) (src : tpath) (envelope : string) (c : Catalog) (F : gmap tpath string) : Prop := {
  rt_artifacts pr : pr ∈ releases_of c → F !! cached_parts pr.1 pr.2 = found t0 src pr;
  rt_catalog : F !! [".marketplace"; "catalog.json"] = Some envelope;
  rt_only w : is_Some (F !! w) → in_store c w;
}.

Section exported.
Context (envelope : string) (c : Catalog) (src mid : tpath) (t0 t : tree) (F : gmap tpath string).
Context (Hv : Verify envelope = Ok c) (Hm : directory t mid F) (He : exported t0 src envelope c F).

Lemma exported_entry pr : pr ∈ releases_of c → entry_ok mid (found t0 src) t pr.
Proof using All.
  intros Hpr. pose proof (ex_artifacts _ _ _ _ _ He pr Hpr) as E. destruct (found t0 src pr) as [data|] eqn:Ef.
  - destruct (directory_file t mid F (artifact_parts pr.1 pr.2) data Hm) as [Hp Hf]; [done|done|]. split; [done| |by rewrite Ef].
    unfold artifact_at. rewrite Hf, (found_verified _ _ _ _ Ef). by rewrite Ef.
  - destruct (directory_clear t mid F (artifact_parts pr.1 pr.2) Hm) as [[Hp _] Hmiss]; [done| |].
    + apply (in_bundle_clear c); [apply (ex_only _ _ _ _ _ He)| |done]. right. right. by exists pr.
    + split; [done|by rewrite missing_artifact, Ef|done].
Qed.

Lemma present_elem a : a ∈ present src t0 (releases_of c) ↔ ∃ pr, pr ∈ releases_of c ∧ Artifact pr.2 = a ∧ is_Some (found t0 src pr).
Proof.
  unfold present. rewrite list_elem_of_omap. split.
  - intros (pr & Hpr & E). exists pr. destruct (found t0 src pr); [|done]. injection E as E. eauto.
  - intros (pr & Hpr & <- & [d E]). exists pr. by rewrite E.
Qed.

(** The index lists what is there. *)
Lemma exported_listed pr : pr ∈ releases_of c → Artifact pr.2 ∈ present src t0 (releases_of c) ↔ is_Some (found t0 src pr).
Proof using Hv.
  intros Hpr. rewrite present_elem. split; [|eauto]. intros (pr' & Hpr' & E & Hs). replace pr with pr'; [done|].
  pose proof (artifacts_NoDup c (Verify_valid _ _ Hv)) as Hn. apply list_elem_of_lookup in Hpr as [i Hi], Hpr' as [j Hj].
  assert (j = i) as ->; [|congruence]. eapply NoDup_lookup; [exact Hn|by rewrite list_lookup_fmap, Hj|rewrite list_lookup_fmap, Hi; cbn; by rewrite E].
Qed.

Lemma returns_Import_checked `{BundleLaws} (dst : tpath) (Q : unit → tree → Prop) :
  apart mid dst = true →
  returns (each (import_release mid dst) (releases_of c) ;;; AtomicWriteFile dst (catalog_path dst) envelope) t Q →
  returns (ImportSnapshot mid dst) t Q.
Proof using All.
  intros Ha Hq. assert (valid_catalog c) as Hc by by eapply Verify_valid.
  unfold ImportSnapshot. cbv zeta. rewrite (Join_plain mid ["catalog.json"]), (Join_plain mid ["bundle.json"]) by done.
  destruct (directory_file t mid F ["catalog.json"] envelope Hm) as [Hp1 Hf1]; [done|by apply ex_catalog in He|].
  destruct (directory_file t mid F ["bundle.json"] (bundle_text src t0 envelope c) Hm) as [Hp2 Hf2]; [done|by apply ex_index in He|].
  apply returns_bind, (returns_RejectSymlinks Hworks); [done|]. apply returns_bind, (returns_call Hworks). cbn [fst snd].
  change (n ← lookup_path t (mid ++ ["catalog.json"]); file_bytes n) with (file_at t (mid ++ ["catalog.json"])). rewrite Hf1.
  apply returns_bind, (returns_mcall _ c); [done|]. apply returns_bind, (returns_RejectSymlinks Hworks); [done|].
  apply returns_bind, (returns_try_call Hworks (λ t, file_at t (mid ++ ["bundle.json"]))); [by rewrite Hf2|]. rewrite Hf2.
  apply returns_bind, (returns_mcall _ (bundle_text src t0 envelope c)); [done|].
  apply returns_bind. eapply (returns_mcall _ _); [unfold bundle_text; rewrite bundle_roundtrip; [done|done|apply digest_ascii|]|].
  { cbn [b_Available]. intros a. rewrite (order_by_perm str_le). intros ([p r] & Hpr & <- & _)%present_elem. by apply (artifact_ascii c p). }
  cbn [b_Version b_CatalogSHA256 b_Available]. rewrite String.eqb_refl. cbn [Z.eqb negb orb].
  apply returns_bind. eapply (returns_mcall _ _); [apply list_artifacts_NoDup; [|set_solver]|].
  { rewrite (order_by_perm str_le). by apply present_NoDup, artifacts_NoDup. }
  apply returns_bind, (returns_check_bundle c Hc mid dst Ha (found t0 src)); [done|by apply artifacts_NoDup| |].
  { intros pr Hpr. split; [by apply exported_entry|]. rewrite elem_of_union, elem_of_list_to_set, (order_by_perm str_le), exported_listed by done. set_solver. }
  intros rest Hrest. assert (rest = ∅) as ->; [|by rewrite bool_decide_eq_true_2].
  apply set_eq. intros a. split; [|set_solver]. intros [Hal Hno]%Hrest. rewrite elem_of_union, elem_of_list_to_set, (order_by_perm str_le) in Hal.
  destruct Hal as [(pr & Hpr & E & _)%present_elem|Hx]; [by destruct (Hno pr Hpr)|set_solver].
Qed.

Lemma returns_Import `{BundleLaws} (dst : tpath) (Q : unit → tree → Prop) :
  apart mid dst = true → directory t dst ∅ →
  (∀ t' F', directory t' dst F' → restored t0 src envelope c F' → Q () t') → returns (ImportSnapshot mid dst) t Q.
Proof using All.
  intros Ha Hd Hq. assert (valid_catalog c) as Hc by by eapply Verify_valid. apply returns_Import_checked; [done|].
  destruct (directory_placed (found t0 src) (λ pr, cached_parts pr.1 pr.2) dst (releases_of c) t ∅ Hd) as (F1 & HF1 & Hin & Hout).
  { intros pr _. split; [done|apply clear_empty]. }
  { intros pr pr' Hpr Hpr' Hne. apply same_length_below; [done|]. intros E. apply Hne. by apply (cached_determined c). }
  { by apply releases_NoDup. }
  assert (∀ w, is_Some (F1 !! w) → ∃ pr, pr ∈ releases_of c ∧ w = cached_parts pr.1 pr.2) as Honly.
  { intros w [[? Hw]|Hw]%(placed_only (λ pr : CatalogPack * Release, cached_parts pr.1 pr.2) _ _ _ Hout); [by rewrite lookup_empty in Hw|done]. }
  apply returns_bind, (returns_import_releases c Hc mid dst Ha (found t0 src)); [done|by apply releases_NoDup| |].
  { intros pr Hpr. split; [by apply exported_entry|]. apply (directory_clear t dst ∅); [done|done|apply clear_empty]. }
  pose proof (catalog_not_temp dst) as Hnt. rewrite catalog_path_eq in *.
  apply (returns_write_file _ dst F1 [".marketplace"] "catalog.json"); [exact HF1| |exact Hnt|].
  { intros w (pr & _ & ->)%Honly. done. }
  intros HF2. eapply Hq; [exact HF2|]. split.
  - intros pr Hpr. rewrite lookup_insert_ne by done. by apply Hin.
  - by rewrite lookup_insert_eq.
  - intros w Hw. cbn [app] in Hw. destruct (decide (w = [".marketplace"; "catalog.json"])) as [->|Hn]; [by left|]. rewrite lookup_insert_ne in Hw by done.
    right. by apply Honly.
Qed.
End exported.

(** The new store has the artifacts of the old one, and no others. *)
Lemma restored_found envelope c t0 src t dst F pr :
  valid_catalog c → directory t dst F → restored t0 src envelope c F → pr ∈ releases_of c → found t dst pr = found t0 src pr.
Proof.
  intros Hc Hd Hr Hpr. pose proof (rt_artifacts _ _ _ _ _ Hr pr Hpr) as E. unfold found at 1.
  destruct (found t0 src pr) as [data|] eqn:Ef.
  - destruct (directory_file t dst F (cached_parts pr.1 pr.2) data Hd) as [_ Hf]; [done|done|].
    unfold artifact_at. by rewrite Hf, (found_verified _ _ _ _ Ef).
  - assert (∀ w, w ≠ [] → clear_of F w → artifact_at t (dst ++ w) pr.2 = None) as Hnone.
    { intros w Hw Hcl. apply missing_artifact. by apply (directory_clear t dst F). }
    rewrite Hnone; [|done|].
    2: { intros w' Hw'. assert (w' ≠ cached_parts pr.1 pr.2) by (intros ->; rewrite E in Hw'; by destruct Hw').
         pose proof (rt_only _ _ _ _ _ Hr w' Hw'). assert (in_store c (cached_parts pr.1 pr.2)) by (right; by exists pr).
         split; by apply (in_store_apart c). }
    assert (∀ name, name ∈ yaml_names pr.1 → clear_of F [name]) as Hyaml.
    { intros name Hn w Hw. assert (name ≠ ".marketplace") as Hne.
      { intros ->. destruct pr as [p r]. apply elem_releases_of in Hpr as [Hp _].
        destruct (vp_name _ (vc_packs _ Hc _ Hp)) as [Hb Hne]. unfold yaml_names in Hn. cbn [fst] in Hn.
        destruct (cp_Name _) as [|a s]; [done|]. cbn in Hb. apply andb_true_iff in Hb as [Hb _].
        apply elem_of_cons in Hn as [Hn|Hn%list_elem_of_singleton]; injection Hn as <- _; done. }
      apply (rt_only _ _ _ _ _ Hr) in Hw as [->|(pr' & _ & ->)]; unfold cached_parts; cbn [below];
        rewrite (proj2 (String.eqb_neq name ".marketplace")), (proj2 (String.eqb_neq ".marketplace" name)) by congruence; done. }
    rewrite !Hnone; [done|done|apply Hyaml; unfold yaml_names; set_solver|done|apply Hyaml; unfold yaml_names; set_solver].
Qed.

(** C39: a store survives the trip through an offline bundle.  On a working disk, exporting a
    verified catalogue from a store to an empty directory and importing that bundle into
    another empty store succeeds; the new store then reads the same catalogue, and has, of each
    release, exactly the verified bytes the old one had. *)
Theorem export_import_roundtrip `{BundleLaws} (envelope : string) (c : Catalog) (src mid dst : tpath) (h : TreeHost) :
  Verify envelope = Ok c → apart src mid = true → apart mid dst = true → apart dst mid = true →
  (∀ pr, pr ∈ releases_of c → store_ok (th_files h) src pr) →
  directory (th_files h) mid ∅ → directory (th_files h) dst ∅ →
  ∃ h', (ExportSnapshot c src mid ;;; ImportSnapshot mid dst ;;;
         ReadCatalog {| Dir := Some dst; RegistryURL := ""; Online := false |}) h = (Ok c, h')
    ∧ ∀ pr, pr ∈ releases_of c → found (th_files h') dst pr = found (th_files h) src pr.
Proof using Hworks.
  intros Hv Ha1 Ha2 Ha3 Hs Hm Hd. assert (valid_catalog c) as Hc by by eapply Verify_valid.
  assert (returns (ExportSnapshot c src mid ;;; ImportSnapshot mid dst ;;; ReadCatalog {| Dir := Some dst; RegistryURL := ""; Online := false |})
    (th_files h) (λ c' t', c' = c ∧ ∀ pr, pr ∈ releases_of c → found t' dst pr = found (th_files h) src pr)) as Hr.
  { apply returns_bind, (returns_Export envelope c src mid dst); [done..|]. intros t F HF He Hd'.
    apply returns_bind, (returns_Import envelope c src mid (th_files h) t F); [done..|]. intros t' F' HF' Hr.
    destruct (directory_file t' dst F' [".marketplace"; "catalog.json"] envelope HF') as [Hp Hf]; [done|by apply rt_catalog in Hr|].
    unfold ReadCatalog. cbn [Dir]. rewrite catalog_path_eq. apply returns_bind, (returns_RejectSymlinks Hworks); [done|].
    apply returns_bind, (returns_try_call Hworks (λ t, file_at t (dst ++ [".marketplace"; "catalog.json"]))); [by rewrite Hf|]. rewrite Hf.
    apply (returns_mcall _ c); [by rewrite Hv|]. split; [done|]. intros pr Hpr. by apply (restored_found envelope c _ _ _ _ F'). }
  specialize (Hr (th_calls h)). unfold wp in Hr. destruct h as [t n]. cbn [th_files th_calls] in *.
  destruct (bind _ _ _) as [[c'|e|x] h']; [|done..]. destruct Hr as [-> Hr]. by exists h'.
Qed.
End market.

(** ** Two stores and a stick *)

Lemma directory_nil d : directory ∅ d ∅.
Proof. by split; intros; rewrite ?lookup_empty in *. Qed.

#[export] Instance sample_bundle_laws : BundleLaws.
Proof.
  split.
  - intros [v sha avail] Hv _ _. cbn in Hv. subst. cbn [Unmarshal_bundle MarshalIndent_bundle sample_market]. unfold sample_index.
    by rewrite dec_enc_fields.
  - intros s. cbn [sha256_hex market_codec]. unfold ascii_text.
    assert (∀ n t, all_bytes (λ c, bz c <? 128) t = true → all_bytes (λ c, bz c <? 128) (str_take n t) = true) as Htake.
    { intros n t. revert n. induction t as [|c t IH]; intros [|n] Ht; try done. cbn in Ht |- *. apply andb_true_iff in Ht as [-> Ht]. by apply IH. }
    apply Htake. rewrite all_bytes_app, andb_true_iff. split; [|done]. induction s as [|c s IH]; [done|]. cbn [hex_EncodeToString all_bytes].
    pose proof (bz_range c). assert (∀ z, 0 ≤ z < 16 → (bz (hex_digit z) <? 128) = true) as Hhex by (apply check_range; by vm_compute).
    rewrite !Hhex, IH; [done|by apply Z.mod_pos_bound; lia|split; [apply Z.div_pos|apply Z.div_lt_upper_bound]; lia].
Qed.

Lemma sample_old_store : directory sample_tree old_store (<[["demo.yaml"] := "demo@1.1.0"]> (<[cached_demo := "demo@1.0.0"]> ∅)).
Proof.
  apply directory_insert; [apply directory_insert; [apply directory_nil|done|apply clear_empty]|done|].
  intros w [x Hx]. apply lookup_insert_Some in Hx as [[<- _]|[_ Hx]]; [done|by rewrite lookup_empty in Hx].
Qed.

Lemma sample_elsewhere d : apart d old_store = true → directory sample_tree d ∅.
Proof. intros Ha. apply directory_elsewhere; [done|]. apply directory_elsewhere; [done|]. apply directory_nil. Qed.

Lemma sample_store_ok pr : pr ∈ releases_of sample_verified_catalog → store_ok sample_tree old_store pr.
Proof.
  intros Hpr.
  assert (∀ w, w ≠ [] → below cached_demo w = None ∨ w = cached_demo → below ["demo.yaml"] w = None ∨ w = ["demo.yaml"] → path_ok sample_tree old_store w) as Hok.
  { intros w Hw H1 H2. apply (directory_path_ok _ _ _ _ sample_old_store Hw). intros w' [x Hx] Hne.
    apply lookup_insert_Some in Hx as [[<- _]|[_ Hx]]; [by destruct H2|]. apply lookup_insert_Some in Hx as [[<- _]|[_ Hx]]; [by destruct H1|by rewrite lookup_empty in Hx]. }
  assert (pr.1 = demo ∧ (cached_parts pr.1 pr.2 = cached_demo ∨ below cached_demo (cached_parts pr.1 pr.2) = None)) as [Hp Hc].
  { cbn in Hpr. repeat (apply elem_of_cons in Hpr as [->|Hpr]; [split; [done|by (left + right)]|]). by apply elem_of_nil in Hpr. }
  split; [apply Hok; [done|tauto|by left]|]. rewrite Hp. intros name Hn. unfold yaml_names in Hn. cbn in Hn.
  repeat (apply elem_of_cons in Hn as [->|Hn]; [apply Hok; [done|by left|by (left + right)]|]). by apply elem_of_nil in Hn.
Qed.

Lemma export_import_roundtrip_witness :
  ∃ h', (ExportSnapshot sample_verified_catalog old_store stick ;;; ImportSnapshot stick new_store ;;;
         ReadCatalog {| Dir := Some new_store; RegistryURL := ""; Online := false |}) sample_host = (Ok sample_verified_catalog, h')
    ∧ found (th_files h') new_store (demo, sample_release "1.0.0" "demo@1.0.0" false) = Some "demo@1.0.0"
    ∧ found (th_files h') new_store (demo, sample_release "1.1.0" "demo@1.1.0" false) = Some "demo@1.1.0".
Proof.
  destruct (@export_import_roundtrip working_tree sample_semver sample_catalog_env market_codec sample_market (λ _, eq_refl) sample_bundle_laws sample_envelope sample_verified_catalog old_store stick new_store sample_host) as (h' & E & Hf).
  - apply sample_verified.
  - vm_compute; reflexivity.
  - vm_compute; reflexivity.
  - vm_compute; reflexivity.
  - apply sample_store_ok.
  - apply sample_elsewhere. vm_compute; reflexivity.
  - apply sample_elsewhere. vm_compute; reflexivity.
  - exists h'. split; [exact E|]. split; (rewrite Hf; [vm_compute; reflexivity|]); apply elem_releases_of; (split; [by left|]); [by left|right; by left].
Defined.
