(* ===== verification/Release.v ===== *)
(** * [cmd/marketplace/release.go]: the preparation of releases

    The owner's command: versions, the archives of prior releases and the new releases of the
    packs named on the command line, over the files of FileTree.v.  The decision ([plan_release])
    only reads; what it writes is, in this order, the archive of every prior release, the packs,
    the metadata. *)

From S2P Require Import MarketSamples.
From S2P Require Import Prelude GoStrings GoNum GoIO GoPath Model Disk Extract Pack PackStore PackSamples FileTree Catalog CatalogSpec Market MarketSafety.
From S2P Require Export Monad.

#[local] Open Scope monad_scope.

(** ** Versions *)

(** The groups of [^(v?)(\d+)\.(\d+)\.(\d+)$], which match in one way at most. *)
Definition digits (s : string) : bool := (s <>s "") && all_bytes is_digit s.
Definition version_groups (v : string) : option (string * string * string * string) :=
  let prefix := if HasPrefix v "v" then "v" else "" in
  match Split (TrimPrefix v "v") "." with
  | [major; minor; patch] => if digits major && digits minor && digits patch then Some (prefix, major, minor, patch) else None
  | _ => None
  end.

(** [fmt.Sscanf(text, "%d", &n)] of digits: beyond the range of an [int], [n] keeps its zero. *)
Definition scan_int (text : string) : option Z := Atoi text.

Definition nextPatchVersion (version : string) : res string :=
  match version_groups version with
  | None => Err (Errorf "unsupported version %q; expected MAJOR.MINOR.PATCH" [AStr version])
  | Some (prefix, major, minor, patch) =>
      match scan_int patch with
      | None => Err (Errorf "strconv.ParseInt: parsing %q: value out of range" [AStr patch])
      | Some n => Ok (prefix +:+ major +:+ "." +:+ minor +:+ "." +:+ Itoa (int64_wrap (n + 1)))
      end
  end.

Definition text_compare (a b : string) : Z := match String.compare a b with Lt => -1 | Eq => 0 | Gt => 1 end.
(** The comparison of the three numbers in turn. *)
Fixpoint compare_numbers (l : list (string * string)) : Z :=
  match l with
  | [] => 0
  | (a, b) :: l' =>
      let va := default 0 (scan_int a) in
      let vb := default 0 (scan_int b) in
      if va <? vb then -1 else if vb <? va then 1 else compare_numbers l'
  end.
Definition versionCompare (a b : string) : Z :=
  match version_groups a, version_groups b with
  | Some (_, a1, a2, a3), Some (_, b1, b2, b3) => compare_numbers [(a1, b1); (a2, b2); (a3, b3)]
  | _, _ => text_compare a b
  end.

Example version_examples :
  (nextPatchVersion "v1.2.9", nextPatchVersion "1.0.0", is_ok (nextPatchVersion "1.0"), is_ok (nextPatchVersion "1.0.0-rc1"))
  = (Ok "v1.2.10", Ok "1.0.1", false, false)
  ∧ (versionCompare "1.2.9" "1.2.10", versionCompare "v2.0.0" "1.9.9", versionCompare "01.0.0" "1.0.0") = (-1, 1, 0).
Proof. vm_compute. done. Qed.

(** *** The next version *)

Lemma Itoa_no_dot z : 0 ≤ z → all_bytes (λ c, c <>b "."%char) (Itoa z) = true.
Proof.
  intros Hz. eapply all_bytes_impl; [|by apply Itoa_digits]. intros c Hc. unfold is_digit in Hc. apply negb_true_iff, Ascii.eqb_neq.
  intros ->. done.
Qed.
Lemma digits_no_dot s : digits s = true → all_bytes (λ c, c <>b "."%char) s = true.
Proof.
  intros [_ Hs]%andb_prop. eapply all_bytes_impl; [|exact Hs]. intros c Hc. unfold is_digit in Hc. apply negb_true_iff, Ascii.eqb_neq.
  intros ->. done.
Qed.
Lemma digits_lead s : digits s = true → HasPrefix s "v" = false.
Proof.
  destruct s as [|c s]; [done|]. intros [_ Hs]%andb_prop. cbn [all_bytes] in Hs. apply andb_prop in Hs as [Hc _].
  change "v" with (chr "v"). rewrite HasPrefix_chr. cbv iota. apply Ascii.eqb_neq. intros <-. done.
Qed.

Lemma join3 a b c : a +:+ "." +:+ b +:+ "." +:+ c = Join [a; b; c] ".".
Proof. done. Qed.

Lemma lead_of_groups a t : digits a = true → HasPrefix (a +:+ t) "v" = false.
Proof.
  intros Ha. pose proof (digits_lead a Ha) as Hl. destruct a as [|d a]; [done|]. rewrite app_cons_str. change "v" with (chr "v") in *.
  by rewrite HasPrefix_chr in *.
Qed.
Lemma groups_of prefix a b c :
  prefix = "v" ∨ prefix = "" → digits a = true → digits b = true → digits c = true →
  version_groups (prefix +:+ a +:+ "." +:+ b +:+ "." +:+ c) = Some (prefix, a, b, c).
Proof.
  intros Hp Ha Hb Hc. unfold version_groups.
  assert (Split (a +:+ "." +:+ b +:+ "." +:+ c) "." = [a; b; c]) as Hs.
  { rewrite join3. apply (Split_Join_chr _ "."); [done|]. repeat constructor; by apply digits_no_dot. }
  pose proof (lead_of_groups a ("." +:+ b +:+ "." +:+ c) Ha) as Hv.
  destruct Hp as [-> | ->].
  - rewrite TrimPrefix_app, Hs, Ha, Hb, Hc. done.
  - change ("" +:+ ?x) with x. unfold TrimPrefix. by rewrite Hv, Hs, Ha, Hb, Hc.
Qed.

(** The groups are the text. *)
Lemma groups_text v prefix a b c :
  version_groups v = Some (prefix, a, b, c) →
  v = prefix +:+ a +:+ "." +:+ b +:+ "." +:+ c ∧ (prefix = "v" ∨ prefix = "") ∧ digits a = true ∧ digits b = true ∧ digits c = true.
Proof.
  unfold version_groups. destruct (Split _ ".") as [|x [|y [|z [|]]]] eqn:Es; try done. destruct (digits x && digits y && digits z) eqn:Ed; [|done].
  intros [= <- -> -> ->]. rewrite !andb_true_iff in Ed. destruct Ed as [[Ha Hb] Hc]. split; [|split; [by destruct (HasPrefix v "v"); auto|done]].
  pose proof (Join_Split (TrimPrefix v "v") ".") as Hj. rewrite Es in Hj. rewrite join3, Hj. unfold TrimPrefix.
  destruct (HasPrefix v "v") eqn:Ep; [|done]. apply HasPrefix_spec in Ep as [t ->]. by rewrite drop_app_str.
Qed.

Lemma scan_nonneg s n : digits s = true → scan_int s = Some n → 0 ≤ n ≤ MaxInt64.
Proof.
  unfold digits, scan_int. intros Hd Hn. split; [|apply Atoi_range in Hn; lia]. destruct s as [|c s]; [done|]. apply andb_prop in Hd as [_ Hs].
  cbn [all_bytes] in Hs. apply andb_prop in Hs as [Hc _]. rewrite Atoi_digits in Hn by done. apply bind_Some in Hn as (y & Hy & Hn).
  apply parse_digits_nonneg in Hy. by destruct (in_int64 y); [injection Hn as ->|].
Qed.

Lemma Itoa_is_digits z : 0 ≤ z → digits (Itoa z) = true.
Proof.
  intros Hz. unfold digits. rewrite Itoa_digits by done. rewrite andb_true_r. apply negb_true_iff, String.eqb_neq. intros E.
  rewrite Itoa_nonneg in E by done. pose proof (parse_digits_pretty (Z.to_N z)) as Hp. by rewrite E in Hp.
Qed.

Lemma compare_numbers_same a b n l : scan_int a = Some n → scan_int b = Some n → compare_numbers ((a, b) :: l) = compare_numbers l.
Proof. intros Ha Hb. cbn [compare_numbers]. rewrite Ha, Hb. cbn. by rewrite Z.ltb_irrefl. Qed.
Lemma compare_numbers_refl a l : compare_numbers ((a, a) :: l) = compare_numbers l.
Proof. cbn [compare_numbers]. by rewrite Z.ltb_irrefl. Qed.

(** The version chosen for a release is a MAJOR.MINOR.PATCH version again, with the same
    prefix, major and minor numbers as the latest signed one, and the program's own comparison
    puts it after it; at the last patch number of 64 bits, where the sum wraps around, it is no
    version any more. *)
Theorem nextPatchVersion_newer (version next : string) :
  nextPatchVersion version = Ok next →
  ∃ prefix major minor patch n,
    version_groups version = Some (prefix, major, minor, patch) ∧ scan_int patch = Some n ∧ 0 ≤ n ≤ MaxInt64
    ∧ (n < MaxInt64 → version_groups next = Some (prefix, major, minor, Itoa (n + 1))
         ∧ versionCompare version next = -1 ∧ versionCompare next version = 1 ∧ is_ok (nextPatchVersion next) = true)
    ∧ (n = MaxInt64 → version_groups next = None).
Proof.
  unfold nextPatchVersion. destruct (version_groups version) as [[[[prefix major] minor] patch]|] eqn:Eg; [|done].
  destruct (scan_int patch) as [n|] eqn:En; [|done]. intros E.
  assert (next = prefix +:+ major +:+ "." +:+ minor +:+ "." +:+ Itoa (int64_wrap (n + 1))) as -> by congruence. clear E. apply groups_text in Eg as Ht. destruct Ht as (_ & Hp & Ha & Hb & Hc).
  pose proof (scan_nonneg _ _ Hc En) as Hn. exists prefix, major, minor, patch, n. split; [done|]. split; [done|]. split; [done|]. split.
  - intros Hlt. assert (int64_wrap (n + 1) = n + 1) as -> by (unfold int64_wrap, MaxInt64 in *; rewrite Z.mod_small; lia).
    assert (version_groups (prefix +:+ major +:+ "." +:+ minor +:+ "." +:+ Itoa (n + 1)) = Some (prefix, major, minor, Itoa (n + 1))) as E'.
    { apply groups_of; [done..|]. apply Itoa_is_digits. lia. }
    assert (scan_int (Itoa (n + 1)) = Some (n + 1)) as Es by (apply Atoi_Itoa; unfold in_int64, MinInt64, MaxInt64 in *; lia).
    assert ((n <? n + 1) = true ∧ (n + 1 <? n) = false) as [Hl Hg] by (split; [apply Z.ltb_lt|apply Z.ltb_ge]; lia).
    split; [done|]. unfold versionCompare. rewrite !Eg, !E', !Es, !compare_numbers_refl. cbn [compare_numbers]. rewrite !En, !Es.
    cbn [default from_option id]. by rewrite !Hl, !Hg.
  - intros ->. unfold version_groups.
    assert (Itoa (int64_wrap (MaxInt64 + 1)) = "-9223372036854775808") as -> by (vm_compute; reflexivity).
    set (w := "-9223372036854775808"). rewrite join3.
    assert (TrimPrefix (prefix +:+ Join [major; minor; w] ".") "v" = Join [major; minor; w] ".") as ->.
    { destruct Hp as [-> | ->]; [apply TrimPrefix_app|]. unfold TrimPrefix. change ("" +:+ ?x) with x.
      rewrite <- join3. by rewrite (lead_of_groups major) by done. }
    assert (Split (Join [major; minor; w] ".") "." = [major; minor; w]) as ->.
    { apply (Split_Join_chr _ "."); [done|]. apply Forall_cons_2; [by apply digits_no_dot|]. apply Forall_cons_2; [by apply digits_no_dot|]. by apply Forall_cons_2. }
    assert (digits w = false) as -> by (vm_compute; reflexivity). by rewrite andb_false_r.
Qed.

(** ** The version in the YAML of a pack *)

(** A node of [yaml.v3]: whether it is a mapping, its value, its line, its content. *)
Inductive ynode := YNode (mapping : bool) (value : string) (line : Z) (content : list ynode).
Definition y_mapping (n : ynode) : bool := let 'YNode m _ _ _ := n in m.
Definition y_value (n : ynode) : string := let 'YNode _ v _ _ := n in v.
Definition y_line (n : ynode) : Z := let 'YNode _ _ l _ := n in l.
Definition y_content (n : ynode) : list ynode := let 'YNode _ _ _ c := n in c.

(** The longest start of a text of such bytes, and the rest. *)
Fixpoint span (p : ascii → bool) (s : string) : string * string :=
  match s with
  | String c s' => if p c then let '(a, b) := span p s' in (String c a, b) else ("", s)
  | "" => ("", "")
  end.
Definition re_space (c : ascii) : bool := existsb (Z.eqb (bz c)) [9; 10; 12; 13; 32].
Definition re_quote (c : ascii) : bool := (bz c =? 34) || (bz c =? 39).
Definition opt_quote (s : string) : string * string :=
  match s with String c s' => if re_quote c then (chr c, s') else ("", s) | "" => ("", "") end.

(** The groups of the pattern of a version's line: the key with the spaces around it, a quote
    or none, the version, a quote or none, the spaces and the comment after it.  It matches in
    one way at most, as the version has no quote, space or number sign. *)
Definition versionYAMLLine (line : string) : option (string * string * string * string * string) :=
  let '(indent, r1) := span re_space line in
  if negb (HasPrefix r1 "version:") then None
  else
    let '(gap, r2) := span re_space (TrimPrefix r1 "version:") in
    let '(q1, r3) := opt_quote r2 in
    let '(v, r4) := span (λ c, negb (re_quote c || re_space c || (c =b "#"%char))) r3 in
    let '(q2, r5) := opt_quote r4 in
    let '(trail, r6) := span re_space r5 in
    if (v <>s "") && ((r6 =s "") || (HasPrefix r6 "#" && negb (Contains r6 (chr LF))))
    then Some (indent +:+ "version:" +:+ gap, q1, v, q2, trail +:+ r6) else None.

(** The line of the node, with the version replaced. *)
Definition replace_version (data version : string) (value : ynode) : option string :=
  let lines := Split data (chr LF) in
  if y_line value <? 1 then None
  else
    i ← Some (Z.to_nat (y_line value - 1));
    line ← lines !! i;
    match versionYAMLLine line with
    | Some (p1, q1, v, q2, p5) =>
        if (v =s y_value value) && (q1 =s q2) then Some (Join (<[i := p1 +:+ q1 +:+ version +:+ q2 +:+ p5]> lines) (chr LF)) else None
    | None => None
    end.

(** The two loops over the pairs of a mapping: the first [version] ends the inner one. *)
Fixpoint find_version (data version : string) (content : list ynode) : option string :=
  match content with
  | key :: value :: rest => if y_value key <>s "version" then find_version data version rest else replace_version data version value
  | _ => None
  end.
Fixpoint find_metadata (data version : string) (content : list ynode) : option string :=
  match content with
  | key :: value :: rest =>
      if (y_value key <>s "metadata") || negb (y_mapping value) then find_metadata data version rest
      else match find_version data version (y_content value) with Some d => Some d | None => find_metadata data version rest end
  | _ => None
  end.

Record releaseMetadata := { rm_Changelog : string; rm_Withdrawn : bool; rm_MinWORM : string; rm_RequiredDecoders : list string; rm_PublishedAt : string }.
Definition zero_metadata : releaseMetadata :=
  {| rm_Changelog := ""; rm_Withdrawn := false; rm_MinWORM := ""; rm_RequiredDecoders := []; rm_PublishedAt := "" |}.
Record packCoverage := { pv_Vendor : string; pv_Product : string; pv_Models : list string; pv_Tags : list string }.
Record ownerMetadata := { om_Packs : gmap string packCoverage; om_Releases : gmap string releaseMetadata }.

Class ReleaseEnv := {
  yaml_Document : string → res (list ynode);                   (* the content of the document node *)
  Unmarshal_owner : string → option ownerMetadata;
  MarshalIndent_owner : ownerMetadata → res string;
  release_now : nat → string;                                  (* time.Now().UTC().Format(time.RFC3339) *)
  release_temp : tree → tpath → string;                        (* os.CreateTemp's name for ".release-*.tmp" *)
  release_temp_name t dir : HasPrefix (release_temp t dir) ".release-" = true ∧ HasSuffix (release_temp t dir) ".tmp" = true;
  release_temp_fresh t dir : t !! (dir ++ [release_temp t dir]) = None;
}.

Section release.
Context `{TreeEnv} `{SemVer} `{CatalogEnv} `{PackCodec} `{MarketEnv} `{ReleaseEnv}.

Definition setMetadataVersion (data version : string) : res string :=
  document ← yaml_Document data;
  match document with
  | [] => Err (errors_New "empty YAML document")
  | root :: _ => of_option (errors_New "metadata.version not found") (find_metadata data version (y_content root))
  end.

Abbreviation P := (Prog TreeHost).

Definition annotated {A} (f : error → error) (m : P A) : P A :=
  r <- try m ;; match r with Err e => fail (f e) | _ => mcall r end.

(** ** [writeAtomic] *)

Definition tree_TempRelease (dir : tpath) : P tpath := tree_call (λ t,
  let tmp := dir ++ [release_temp t dir] in (Ok tmp, <[tmp := NFile ""]> t)).

Definition writeAtomic (p : tpath) (data : string) : P unit :=
  tree_MkdirAll (filepath_Dir p) ;;;
  tmp <- tree_TempRelease (filepath_Dir p) ;;
  r <- try (w <- try (tree_Write tmp data ;;; tree_nop) ;;          (* Write, Chmod *)
            c <- try tree_nop ;;                                    (* Close *)
            mcall w ;;; mcall c ;;; tree_Rename tmp p) ;;
  _ <- try (tree_Remove tmp) ;;                                     (* deferred *)
  mcall r.

(** ** Archives of prior releases

    [cwd]: the directory the command runs in. *)
Context (cwd packDir metadataFile : tpath) (registryURL : string) (catalog : Catalog).

Definition archive_path (name version : string) : tpath := filepath_Join cwd ["marketplace"; "releases"; name; version +:+ ".yaml"].
Definition site_path (r : Release) : tpath := filepath_Join cwd ["marketplace-site"; Artifact r].

Definition hasVerifiedArchive (r : Release) (path : tpath) : P bool :=
  data <- try (tree_ReadFile path) ;;
  match data with Ok data => ret (is_ok (VerifyArtifact r data)) | _ => ret false end.

(** The default policy of [http.Client]. *)
Definition ten_redirects (req : url) (via : list url) : res unit :=
  if (10 <=? length via)%nat then Err (errors_New "stopped after 10 redirects") else Ok ().
Definition release_Do (target : string) : P response := λ h,
  (http_Do ten_redirects (th_calls h) target, {| th_files := th_files h; th_calls := S (th_calls h) |}).

Definition fetch_archive (r : Release) : P string :=
  let target := TrimSlashes registryURL +:+ "/" +:+ Artifact r in
  _ <- mcall (url_Parse target) ;;                                  (* http.NewRequest *)
  resp <- annotated (λ e, Errorf "download %s: %w" [AStr (Artifact r); AErr e]) (release_Do target) ;;
  if negb (rs_StatusCode resp =? 200) then fail (Errorf "download %s returned %s" [AStr (Artifact r); AStr (rs_Status resp)])
  else
    data <- mcall (ReadLimited (2 ^ 24) resp) ;;
    match VerifyArtifact r data with
    | Ok _ => ret data
    | _ => fail (Errorf "downloaded %s failed signed SHA-256 verification" [AStr (Artifact r)])
    end.

Fixpoint read_archive (r : Release) (candidates : list tpath) : P string :=
  match candidates with
  | [] => fetch_archive r
  | candidate :: candidates' =>
      data <- try (tree_ReadFile candidate) ;;
      match data with
      | Ok data =>
          match VerifyArtifact r data with
          | Ok _ => ret data
          | _ => fail (Errorf "existing artifact %s does not match signed SHA-256" [AStr (Join candidate "/")])
          end
      | Err e => if IsNotExist e then read_archive r candidates' else fail e
      | Panic q => mcall (Panic q)
      end
  end.
Definition readOrFetchArchive (path : tpath) (r : Release) : P string := read_archive r [path; site_path r].

(** ** [checkUnselectedChanges] *)

(** The packs by name; of two of one name, the later. *)
Definition old_pack (name : string) : option CatalogPack := List.find (λ p, cp_Name p =s name) (reverse (c_Packs catalog)).
Definition bare (version : string) : string := TrimPrefix version "v".
Definition release_id (name version : string) : string := name +:+ "@" +:+ version.

(** The file is as released, or it was prepared before. *)
Definition is_released (old : CatalogPack) (version data : string) : bool :=
  existsb (λ r, (bare (Version r) =s bare version) && is_ok (VerifyArtifact r data)) (Releases old).
Definition is_prepared (old : CatalogPack) (pack : ParserPack) (metadata : ownerMetadata) : P bool :=
  let name := mName (Metadata pack) in
  let version := mVersion (Metadata pack) in
  match Latest old with
  | Some latest =>
      if 0 <? versionCompare (bare version) (bare (Version latest)) then
        match om_Releases metadata !! release_id name version with
        | Some _ => hasVerifiedArchive latest (archive_path name (Version latest))
        | None => ret false
        end
      else ret false
  | None => ret false
  end.

Definition yaml_entry (e : string * bool) : bool := negb e.2 && HasSuffix (ToLower e.1) ".yaml".

Fixpoint check_entries (selected : gset string) (metadata : ownerMetadata) (es : list (string * bool)) : P unit :=
  match es with
  | [] => ret ()
  | e :: es' =>
      if negb (yaml_entry e) then check_entries selected metadata es'
      else
        data <- tree_ReadFile (filepath_Join packDir [e.1]) ;;
        pack <- annotated (λ err, Errorf "load pack %s: %w" [AStr e.1; AErr err]) (mcall (LoadPack data)) ;;
        match old_pack (mName (Metadata pack)) with
        | None => check_entries selected metadata es'
        | Some old =>
            if bool_decide (mName (Metadata pack) ∈ selected) then check_entries selected metadata es'
            else
              matched <- (if is_released old (mVersion (Metadata pack)) data then ret true else is_prepared old pack metadata) ;;
              if matched : bool then check_entries selected metadata es'
              else fail (Errorf "%s differs from the signed catalog; include it in -prepare-release" [AStr e.1])
        end
  end.
Definition checkUnselectedChanges (selected : gset string) (metadata : ownerMetadata) : P unit :=
  es <- tree_ReadDir packDir ;; check_entries selected metadata es.

(** ** [prepareReleaseFiles] *)

Record releaseUpdate := { ru_path : tpath; ru_data : option string; ru_archive : list (tpath * string); ru_name : string; ru_oldVersion : string; ru_newVersion : string }.
Record Preparation := { pr_metadata : ownerMetadata; pr_selected : gset string; pr_seen : gset tpath; pr_updates : list releaseUpdate }.

(** The new version and, unless the file was prepared before, its new text. *)
Definition choose_version (arg data : string) (pack : ParserPack) (latest : Release) (metadata : ownerMetadata) (prepared : bool)
    : res (string * option string) :=
  let name := mName (Metadata pack) in
  if prepared then Ok (mVersion (Metadata pack), None)
  else if bare (mVersion (Metadata pack)) <>s bare (Version latest) then
    Err (Errorf "%s must use its latest signed version %s before preparation; current YAML is %s" [AStr name; AStr (Version latest); AStr (mVersion (Metadata pack))])
  else
    newVersion ← wrap_err (λ e, Errorf "choose next version for %s: %w" [AStr name; AErr e]) (nextPatchVersion (Version latest));
    match om_Releases metadata !! release_id name newVersion with
    | Some _ => Err (Errorf "release metadata already exists for %s@%s" [AStr name; AStr newVersion])
    | None =>
        updated ← wrap_err (λ e, Errorf "update %s version: %w" [AStr arg; AErr e]) (setMetadataVersion data newVersion);
        Ok (newVersion, Some updated)
    end.

(** The exact bytes of every release there was. *)
Fixpoint prior_archives (name latestVersion data : string) (prepared : bool) (rs : list Release) : P (list (tpath * string)) :=
  match rs with
  | [] => ret []
  | r :: rs' =>
      let path := archive_path name (Version r) in
      archive <- (if negb prepared && (bare (Version r) =s latestVersion) && is_ok (VerifyArtifact r data) then ret data
                  else annotated (λ e, Errorf "preserve exact prior bytes for %s@%s (current YAML may already be edited): %w"
                                         [AStr name; AStr (Version r); AErr e]) (readOrFetchArchive path r)) ;;
      rest <- prior_archives name latestVersion data prepared rs' ;;
      ret ((path, archive) :: rest)
  end.

(** The metadata of the new release: that of the latest where it has none. *)
Definition release_entry (name latest newVersion changelog published : string) (m : ownerMetadata) : ownerMetadata :=
  let base := match om_Releases m !! release_id name newVersion with
              | Some r => r
              | None => default zero_metadata (om_Releases m !! release_id name latest)
              end in
  {| om_Packs := om_Packs m;
     om_Releases := <[release_id name newVersion := {| rm_Changelog := changelog; rm_Withdrawn := false; rm_MinWORM := rm_MinWORM base;
                        rm_RequiredDecoders := rm_RequiredDecoders base; rm_PublishedAt := published |}]> (om_Releases m) |}.

Definition release_clock : P string := λ h, (Ok (release_now (th_calls h)), {| th_files := th_files h; th_calls := S (th_calls h) |}).

(** A file of the command line, read and found in the catalogue. *)
Definition prepare_pack (arg changelog data : string) (path : tpath) (pack : ParserPack) (st : Preparation) : P Preparation :=
  let name := mName (Metadata pack) in
  match old_pack name with
  | None => fail (Errorf "%s is not in the signed catalog; add new packs through the normal publishing workflow" [AStr name])
  | Some old =>
      if bool_decide (name ∈ pr_selected st) then fail (Errorf "multiple files contain pack %s" [AStr name])
      else
        match Latest old with
        | None => fail (Errorf "signed catalog has no releases for %s" [AStr name])
        | Some latest =>
            let latestVersion := bare (Version latest) in
            let currentVersion := bare (mVersion (Metadata pack)) in
            if match version_groups latestVersion, version_groups currentVersion with Some _, Some _ => false | _, _ => true end then
              fail (Errorf "%s uses an unsupported version; batch release requires MAJOR.MINOR.PATCH versions" [AStr name])
            else
              prepared <- (if 0 <? versionCompare currentVersion latestVersion
                           then hasVerifiedArchive latest (archive_path name (Version latest)) else ret false) ;;
              chosen <- mcall (choose_version arg data pack latest (pr_metadata st) prepared) ;;
              archive <- prior_archives name latestVersion data prepared (Releases old) ;;
              now <- release_clock ;;
              ret {| pr_metadata := release_entry name (Version latest) chosen.1 changelog now (pr_metadata st);
                     pr_selected := {[name]} ∪ pr_selected st; pr_seen := {[path]} ∪ pr_seen st;
                     pr_updates := pr_updates st ++ [{| ru_path := path; ru_data := chosen.2; ru_archive := archive; ru_name := name; ru_oldVersion := Version latest;
                     ru_newVersion := chosen.1 |}] |}
        end
  end.

Fixpoint prepare_args (changelog : string) (args : list string) (st : Preparation) : P Preparation :=
  match args with
  | [] => ret st
  | arg :: args' =>
      let name := filepath_Base arg in
      if HasPrefix arg "/" || Contains (path_Clean arg) "../" || negb (HasSuffix (ToLower name) ".yaml") then
        fail (Errorf "release input must be a YAML filename inside %s: %q" [AStr (Join packDir "/"); AStr arg])
      else
        let path := filepath_Join packDir [name] in
        if bool_decide (path ∈ pr_seen st) then prepare_args changelog args' st
        else
          data <- annotated (λ e, Errorf "read pack %s: %w" [AStr arg; AErr e]) (tree_ReadFile path) ;;
          pack <- annotated (λ e, Errorf "load pack %s: %w" [AStr arg; AErr e]) (mcall (LoadPack data)) ;;
          st' <- prepare_pack arg changelog data path pack st ;;
          prepare_args changelog args' st'
  end.

Definition write_archives (us : list releaseUpdate) : P unit := each (λ pd, writeAtomic pd.1 pd.2) (us ≫= ru_archive).
Definition write_packs (us : list releaseUpdate) : P unit :=
  each (λ u, match ru_data u with Some data => writeAtomic (ru_path u) data | None => ret () end) us.

(** The decision, which only reads. *)
Definition plan_release (args : list string) (changelog : string) : P (string * Preparation) :=
  match args with
  | [] => fail (errors_New "provide one or more pack YAML filenames after -prepare-release")
  | _ =>
      let changelog := TrimSpace changelog in
      if changelog =s "" then fail (errors_New "release changelog cannot be empty")
      else
        metadataBytes <- annotated (λ e, Errorf "read release metadata: %w" [AErr e]) (tree_ReadFile metadataFile) ;;
        metadata <- mcall (of_option (errors_New "decode release metadata") (Unmarshal_owner metadataBytes)) ;;
        st <- prepare_args changelog args {| pr_metadata := metadata; pr_selected := ∅; pr_seen := ∅; pr_updates := [] |} ;;
        match pr_updates st with
        | [] => fail (errors_New "no release preparation changes were needed")
        | _ =>
            checkUnselectedChanges (pr_selected st) (pr_metadata st) ;;;
            updatedMetadata <- mcall (MarshalIndent_owner (pr_metadata st)) ;;
            ret (updatedMetadata +:+ chr LF, st)
        end
  end.

Definition prepareReleaseFiles (args : list string) (changelog : string) : P unit :=
  plan <- plan_release args changelog ;;
  write_archives (pr_updates plan.2) ;;;
  write_packs (pr_updates plan.2) ;;;
  writeAtomic metadataFile plan.1.
End release.

(** ** The decision only reads *)

Lemma file_at_present t q data : file_at t q = Ok data → is_Some (t !! q).
Proof.
  unfold file_at, lookup_path. destruct (blocked _ _ _); [done|]. destruct (t !! q); [eauto|]. by destruct (has_below _ _).
Qed.

Section plan.
Context `{TreeEnv} `{SemVer} `{CatalogEnv} `{PackCodec} `{MarketEnv} `{ReleaseEnv}.
Context (cwd packDir metadataFile : tpath) (registryURL : string) (catalog : Catalog).
Abbreviation P := (Prog TreeHost).

Lemma reads_annotated {A} f (m : P A) : keeps unchanged m → keeps unchanged (annotated f m).
Proof. intros Hm. unfold annotated. keeps_tac. Qed.
#[local] Ltac plan_tac := repeat first [progress keeps_tac | match goal with |- keeps _ (annotated _ _) => apply reads_annotated end | solve [auto]].
Lemma reads_Do target : keeps unchanged (release_Do target).
Proof. done. Qed.
Lemma reads_clock : keeps unchanged release_clock.
Proof. done. Qed.
Lemma reads_ReadDir dir : keeps unchanged (tree_ReadDir dir).
Proof. by apply reads_tree. Qed.
#[local] Hint Resolve reads_Do reads_clock reads_ReadDir : worm.
Lemma reads_hasVerified r path : keeps unchanged (hasVerifiedArchive r path).
Proof. unfold hasVerifiedArchive. plan_tac. Qed.
Lemma reads_fetch r : keeps unchanged (fetch_archive registryURL r).
Proof. unfold fetch_archive. plan_tac. Qed.
#[local] Hint Resolve reads_hasVerified reads_fetch : worm.
Lemma reads_read_archive r l : keeps unchanged (read_archive registryURL r l).
Proof. induction l as [|c l IH]; cbn [read_archive]; plan_tac. Qed.
#[local] Hint Resolve reads_read_archive : worm.
Lemma reads_check_entries sel m es : keeps unchanged (check_entries cwd packDir catalog sel m es).
Proof. induction es as [|e es IH]; cbn [check_entries]; unfold is_prepared; plan_tac. Qed.
#[local] Hint Resolve reads_check_entries : worm.
Lemma reads_prior name lv data prepared rs : keeps unchanged (prior_archives cwd registryURL name lv data prepared rs).
Proof. induction rs as [|r rs IH]; cbn [prior_archives]; unfold readOrFetchArchive; plan_tac. Qed.
#[local] Hint Resolve reads_prior : worm.
Lemma reads_prepare_pack arg cl data path pack st : keeps unchanged (prepare_pack cwd registryURL catalog arg cl data path pack st).
Proof. unfold prepare_pack. plan_tac. Qed.
#[local] Hint Resolve reads_prepare_pack : worm.
Lemma reads_prepare_args cl args st : keeps unchanged (prepare_args cwd packDir registryURL catalog cl args st).
Proof. revert st. induction args as [|arg args IH]; intros st; cbn [prepare_args]; plan_tac. Qed.
#[local] Hint Resolve reads_prepare_args : worm.
Lemma reads_plan args cl : keeps unchanged (plan_release cwd packDir metadataFile registryURL catalog args cl).
Proof. unfold plan_release, checkUnselectedChanges. plan_tac. Qed.

(** ** What was planned *)

Lemma annotated_ok {A} f (m : P A) h a h' : annotated f m h = (Ok a, h') → m h = (Ok a, h').
Proof. unfold annotated, bind, try. destruct (m h) as [[x|e|p] h1]; done. Qed.

Lemma fetch_verified r h data h' : fetch_archive registryURL r h = (Ok data, h') → VerifyArtifact r data = Ok ().
Proof.
  unfold fetch_archive. intros (? & h1 & _ & (resp & h2 & _ & E)%bind_ok)%bind_ok. destruct (negb _); [done|].
  apply bind_ok in E as (d & h3 & _ & E). destruct (VerifyArtifact r d) as [[]|e|p] eqn:Ev; [|done..]. by injection E as -> _.
Qed.
Lemma read_archive_verified r l h data h' : read_archive registryURL r l h = (Ok data, h') → VerifyArtifact r data = Ok ().
Proof.
  revert h. induction l as [|c l IH]; intros h; cbn [read_archive]; [apply fetch_verified|].
  intros (d & h1 & _ & E)%bind_ok. destruct d as [d|e|p]; [|destruct (IsNotExist e); [by eapply IH|done]|done].
  destruct (VerifyArtifact r d) as [[]|e|p] eqn:Ev; [|done..]. by injection E as -> _.
Qed.

(** The archives of a pack: one for each of its releases, with its exact bytes. *)
Definition archives_of (name : string) (rs : list Release) (l : list (tpath * string)) : Prop :=
  Forall2 (λ r pd, pd.1 = archive_path cwd name (Version r) ∧ VerifyArtifact r pd.2 = Ok ()) rs l.

Lemma prior_archives_verified name lv data prepared rs h l h' :
  prior_archives cwd registryURL name lv data prepared rs h = (Ok l, h') → archives_of name rs l.
Proof.
  revert h l h'. induction rs as [|r rs IH]; intros h l h'; cbn [prior_archives]; [intros [= <- _]; constructor|].
  intros (archive & h1 & Ea & (rest & h2 & Er & [= <- _])%bind_ok)%bind_ok. constructor; [|exact (IH _ _ _ Er)]. split; [done|]. cbn.
  destruct (_ && is_ok (VerifyArtifact r data)) eqn:Eg.
  - injection Ea as <- _. apply andb_prop in Eg as [_ Eg]. by destruct (VerifyArtifact r data) as [[]| |].
  - apply annotated_ok in Ea. by eapply read_archive_verified.
Qed.

(** The name of a YAML file is one element of a path. *)
Lemma split_pieces c fuel s :
  (String.length s < fuel)%nat → Forall (λ x, all_bytes (λ d, d <>b c) x = true) (split_aux fuel s (chr c) None).
Proof.
  revert s. induction fuel as [|fuel IH]; intros s Hf; [lia|]. cbn [split_aux]. rewrite Index_chr.
  destruct (IndexByte s c) as [i|] eqn:E; [|constructor; [by apply IndexByte_None|constructor]].
  assert (0 < String.length s)%nat by (destruct s; simpl in *; [done|lia]).
  constructor; [by apply IndexByte_Some in E as [_ E]|]. apply IH. rewrite length_drop_str. simpl. lia.
Qed.
Lemma last_all (Q : string → Prop) l : Forall Q l → Q "" → Q (List.last l "").
Proof. intros Hl H0'. induction Hl as [|x l Hx Hl IH]; [done|]. by destruct l. Qed.
Lemma Base_yaml_plain arg : HasSuffix (ToLower (filepath_Base arg)) ".yaml" = true → plain_element (filepath_Base arg) = true.
Proof.
  intros Hs. assert (∀ x, HasSuffix (ToLower x) ".yaml" = false → filepath_Base arg ≠ x) as Hne by (intros x Hx E; congruence).
  assert (filepath_Base arg ≠ "/" ∧ filepath_Base arg ≠ "" ∧ filepath_Base arg ≠ "." ∧ filepath_Base arg ≠ "..") as (Hsl & He & Hd & Hdd)
    by (split_and!; apply Hne; vm_compute; reflexivity).
  unfold plain_element. apply String.eqb_neq in He as ->, Hd as ->, Hdd as ->. rewrite !andb_true_r.
  clear Hs Hne. revert Hsl. unfold filepath_Base. destruct (arg =s ""); [done|]. destruct (_ =s ""); [by intros []|]. intros _.
  apply (last_all (λ x, all_bytes (λ c, c <>b "/"%char) x = true)); [|done]. apply (split_pieces "/"). apply Nat.lt_succ_diag_r.
Qed.

(** An update of the plan: its file as it is now, its pack in the catalogue, its archives. *)
Record planned (t : tree) (u : releaseUpdate) : Prop := {
  pl_path : ∃ file, plain_element file = true ∧ ru_path u = filepath_Join packDir [file];
  pl_pack : ∃ data pack, file_at t (ru_path u) = Ok data ∧ LoadPack data = Ok pack ∧ mName (Metadata pack) = ru_name u;
  pl_archive : ∃ old latest, old ∈ c_Packs catalog ∧ cp_Name old = ru_name u ∧ Latest old = Some latest
    ∧ archives_of (ru_name u) (Releases old) (ru_archive u)
    ∧ (is_Some (ru_data u) → nextPatchVersion (Version latest) = Ok (ru_newVersion u)) }.

Lemma old_pack_in name old : old_pack catalog name = Some old → old ∈ c_Packs catalog ∧ cp_Name old = name.
Proof.
  unfold old_pack. intros [Hin Hn]%find_some. split; [|by apply String.eqb_eq]. by apply elem_of_reverse, list_elem_of_In.
Qed.

Lemma prepare_pack_planned arg cl data path pack st h st' h' :
  prepare_pack cwd registryURL catalog arg cl data path pack st h = (Ok st', h') →
  (∃ file, plain_element file = true ∧ path = filepath_Join packDir [file]) → file_at (th_files h) path = Ok data → LoadPack data = Ok pack →
  ∃ u, ru_path u = path ∧ planned (th_files h) u ∧ pr_updates st' = pr_updates st ++ [u] ∧ pr_seen st' = {[path]} ∪ pr_seen st.
Proof.
  intros E Hf Hd Hl. unfold prepare_pack in E. destruct (old_pack _ _) as [old|] eqn:Eo; [|done]. destruct (bool_decide _); [done|].
  destruct (Latest old) as [latest|] eqn:El; [|done]. destruct (match version_groups _ with Some _ => _ | None => _ end); [done|].
  apply bind_ok in E as (prepared & h1 & _ & ((v & o) & h2 & [Ec _]%pair_eq & (archive & h3 & Ea & (now & h4 & _ & E)%bind_ok)%bind_ok)%bind_ok).
  injection E as <- _. cbn [fst snd pr_updates pr_seen]. apply prior_archives_verified in Ea. apply old_pack_in in Eo as [Ho Hn].
  eexists. split; [|split; [|split; reflexivity]]; [reflexivity|]. split; cbn [ru_path ru_name ru_archive ru_data ru_newVersion]; [done|by exists data, pack|].
  exists old, latest. split_and!; try done. intros [d Hdd]. rewrite Hdd in Ec. unfold choose_version in Ec. destruct prepared; [done|].
  destruct (_ <>s _); [done|]. destruct (nextPatchVersion (Version latest)) as [nv|e|q]; [|done..]. cbn in Ec.
  destruct (om_Releases _ !! _); [done|]. destruct (setMetadataVersion data nv); [|done..]. cbn in Ec. by injection Ec as <- _.
Qed.

Lemma prepare_args_planned cl args st h st' h' :
  prepare_args cwd packDir registryURL catalog cl args st h = (Ok st', h') →
  (∀ q, q ∈ pr_seen st → ∃ u, u ∈ pr_updates st ∧ ru_path u = q) → Forall (planned (th_files h)) (pr_updates st) →
  Forall (planned (th_files h)) (pr_updates st')
  ∧ (∀ arg, arg ∈ args → ∃ u, u ∈ pr_updates st' ∧ ru_path u = filepath_Join packDir [filepath_Base arg])
  ∧ (∀ u, u ∈ pr_updates st → u ∈ pr_updates st').
Proof.
  revert st h. induction args as [|arg args IH]; intros st h E Hseen Hp; cbn [prepare_args] in E.
  { injection E as <- _. split; [done|]. split; [intros ? Ha; by apply not_elem_of_nil in Ha|done]. }
  destruct (_ || _ || negb _) eqn:Eg; [done|]. destruct (bool_decide _) eqn:Eb.
  { apply bool_decide_eq_true in Eb. destruct (Hseen _ Eb) as (u0 & Hu0 & Hp0). destruct (IH _ _ E Hseen Hp) as (H1' & H2' & H3').
    split; [done|]. split; [|done]. intros a [->|Ha]%elem_of_cons; [exists u0; auto|auto]. }
  apply bind_ok in E as (data & h1 & Er%annotated_ok & (pack & h2 & Epk%annotated_ok & (st1 & h3 & Ep & E)%bind_ok)%bind_ok).
  injection Epk as Epk ->. apply tree_call_ok in Er. injection Er as Er Ef.
  pose proof (reads_prepare_pack arg cl data (filepath_Join packDir [filepath_Base arg]) pack st h2) as Hu. rewrite Ep in Hu. unfold unchanged in Hu. cbn in Hu.
  destruct (prepare_pack_planned _ _ _ _ _ _ _ _ _ Ep) as (u & Hpath & Hpl & Hup & Hsn); [|by rewrite <- Ef|done|].
  { eexists. split; [|done]. apply Base_yaml_plain. by destruct (HasSuffix _ ".yaml"); [|by rewrite orb_true_r in Eg]. }
  rewrite <- Ef in Hpl. destruct (IH st1 h3 E) as (H1' & H2' & H3').
  - intros q. rewrite Hsn, Hup. intros [->%elem_of_singleton|(u0 & Hu0 & ?)%Hseen]%elem_of_union; [exists u|exists u0]; (split; [|done]);
      apply elem_of_app; [right; by apply list_elem_of_singleton|by left].
  - rewrite Hup, Hu, <- Ef. apply Forall_app. split; [done|]. by apply Forall_singleton.
  - rewrite Hu, <- Ef in H1'. split; [done|]. split.
    + intros a [->|Ha]%elem_of_cons; [|auto]. exists u. split; [|done]. apply H3'. rewrite Hup. apply elem_of_app. right. by apply list_elem_of_singleton.
    + intros u0 Hu0. apply H3'. rewrite Hup. apply elem_of_app. by left.
Qed.

Lemma plan_ok args cl h text st h' :
  plan_release cwd packDir metadataFile registryURL catalog args cl h = (Ok (text, st), h') →
  th_files h' = th_files h ∧ Forall (planned (th_files h)) (pr_updates st)
  ∧ (∀ arg, arg ∈ args → ∃ u, u ∈ pr_updates st ∧ ru_path u = filepath_Join packDir [filepath_Base arg])
  ∧ is_Some (th_files h !! metadataFile).
Proof.
  intros E. pose proof (reads_plan args cl h) as Hu. rewrite E in Hu. split; [done|]. unfold plan_release in E.
  destruct args as [|a0 args0]; [done|]. set (args := a0 :: args0) in *. destruct (_ =s ""); [done|].
  apply bind_ok in E as (mb & h1 & Em%annotated_ok & (m & h2 & [_ ->]%pair_eq & (st1 & h3 & Ep & E)%bind_ok)%bind_ok).
  pose proof (reads_ReadFile metadataFile h) as Hr. rewrite Em in Hr. unfold unchanged in Hr. cbn in Hr.
  destruct (pr_updates st1) as [|u us] eqn:Eup; [done|].
  apply bind_ok in E as (? & h4 & _ & (t & h5 & _ & E)%bind_ok). injection E as _ <- _.
  destruct (prepare_args_planned _ _ _ _ _ _ Ep) as (H1' & H2' & _); [intros ? Hq; by apply elem_of_empty in Hq|constructor|].
  rewrite Hr in H1'. split; [done|]. split; [done|]. apply tree_call_ok in Em. injection Em as Em _. by eapply file_at_present.
Qed.
End plan.

(** ** What is written *)

(** The names of temporary files. *)
Definition release_tmp (q : tpath) : Prop := ∃ d s, q = d ++ [s] ∧ HasPrefix s ".release-" = true ∧ HasSuffix s ".tmp" = true.

Section writing.
Context `{TreeEnv} `{ReleaseEnv}.

Lemma wp_writeAtomic p data h (Q : res unit → TreeHost → Prop) :
  ¬ release_tmp p ∨ is_Some (th_files h !! p) →
  (∀ h', th_files h' = <[p := NFile data]> (th_files h) → Q (Ok ()) h') →
  (∀ r h', r ≠ Ok () → (∀ q, th_files h' !! q = th_files h !! q ∨ release_tmp q ∨ (q = p ∧ th_files h' !! q = Some (NFile data))) → Q r h') →
  wp (writeAtomic p data) Q h.
Proof.
  intros Hp Ho He. unfold writeAtomic. apply wp_bind, wp_reads; [apply reads_MkdirAll|]. intros r h2 E2.
  destruct r as [[]|e|q]; [|apply He; [done|]; intros q'; left; by rewrite E2..].
  apply wp_bind. unfold tree_TempRelease. cbv zeta. set (tmp := filepath_Dir p ++ [release_temp (th_files h2) (filepath_Dir p)]).
  assert (release_tmp tmp) as Ht by (eexists _, _; split; [done|apply release_temp_name]).
  assert (th_files h !! tmp = None) as Hf by (rewrite <- E2; apply release_temp_fresh).
  assert (tmp ≠ p) as Hne by (intros E; rewrite E in *; rewrite Hf in Hp; by destruct Hp as [|[]]).
  assert (∀ r h', r ≠ Ok () → staged (th_files h) tmp h' ∨ written (th_files h) p data h' → wp (_ <- try (tree_Remove tmp) ;; mcall r) Q h') as Hend.
  { intros r h' Hr Hh. apply (wp_remove_temp_tree (th_files h) p tmp data Hf Hne); [..|done].
    - intros _ h'' E. apply He; [done|]. intros q. destruct (decide (q = tmp)) as [->|]; [auto|]. left. by apply E.
    - intros _ h'' E. unfold written in E. apply He; [done|]. intros q. destruct (decide (q = p)) as [->|]; [right; right; by rewrite E, lookup_insert_eq|].
      left. rewrite E. by rewrite lookup_insert_ne. }
  apply wp_call; intros n; cbn [fst snd]; fold tmp.
  2: { apply He; [done|]. intros q. left. cbn. by rewrite E2. }
  2: { apply He; [done|]. intros q. destruct (decide (q = tmp)) as [->|]; [auto|]. left. cbn. rewrite E2. by rewrite lookup_insert_ne. }
  set (h3 := {| th_files := _; th_calls := n |}).
  assert (staged (th_files h) tmp h3) as H3 by (exists ""; cbn; by rewrite E2).
  apply wp_bind, wp_try, wp_bind, wp_try. apply (wp_write_nop (th_files h) tmp data); [done|..].
  - intros h4 H4. cbn. apply wp_bind, wp_try, wp_tree_nop. intros r h5 E5 [->| ->]; cbn; apply Hend; try done; left;
      destruct H4 as [c E4]; exists c; congruence.
  - intros h4 H4. cbn. apply wp_bind, wp_try, wp_tree_nop. intros r h5 E5. rewrite H4 in E5.
    intros [->| ->]; cbn; [apply Hend; [done|left; by exists data]|].
    apply (wp_rename_temp (th_files h) p tmp data Hf); [done|..].
    + intros e h6 H6. apply Hend; [done|by left].
    + intros e h6 H6. apply Hend; [done|by right].
    + intros h6 H6. apply (wp_remove_temp_tree (th_files h) p tmp data Hf Hne); [..|by right].
      * intros [c E] h' _. exfalso. unfold written in H6. rewrite H6 in E. apply (f_equal (lookup tmp)) in E.
        rewrite lookup_insert_eq, lookup_insert_ne in E by done. congruence.
      * intros _ h' H'. by apply Ho.
Qed.
End writing.

(** Files written one after the other. *)
Definition puts (l : list (tpath * string)) (t : tree) : tree := foldl (λ t pd, <[pd.1 := NFile pd.2]> t) t l.

Lemma puts_lookup l t q : (∃ d, (q, d) ∈ l ∧ puts l t !! q = Some (NFile d)) ∨ (q ∉ l.*1 ∧ puts l t !! q = t !! q).
Proof.
  unfold puts. revert t. induction l as [|[p d] l IH]; intros t; cbn [foldl fst snd].
  { right. split; [|done]. apply not_elem_of_nil. }
  destruct (IH (<[p := NFile d]> t)) as [(d' & Hd & E)|[Hn E]]; [left; exists d'; split; [by right|done]|].
  destruct (decide (q = p)) as [->|Hne].
  - left. exists d. split; [by left|]. rewrite E. by rewrite lookup_insert_eq.
  - right. rewrite fmap_cons, not_elem_of_cons. split; [done|]. rewrite E. by rewrite lookup_insert_ne.
Qed.
Lemma puts_present l t q : is_Some (t !! q) → is_Some (puts l t !! q).
Proof. intros Hq. destruct (puts_lookup l t q) as [(d & _ & ->)|[_ ->]]; eauto. Qed.
Lemma puts_present_in l t q : q ∈ l.*1 → is_Some (puts l t !! q).
Proof. intros Hq. destruct (puts_lookup l t q) as [(d & _ & ->)|[? _]]; eauto. done. Qed.

(** A path that is as it was, temporary, or has one of the writes. *)
Definition partly_put (l : list (tpath * string)) (t t' : tree) : Prop :=
  ∀ q, t' !! q = t !! q ∨ release_tmp q ∨ ∃ d, (q, d) ∈ l ∧ t' !! q = Some (NFile d).

Section loops.
Context `{TreeEnv} `{SemVer} `{CatalogEnv} `{PackCodec} `{MarketEnv} `{ReleaseEnv}.

Lemma wp_writes l h (Q : res unit → TreeHost → Prop) :
  (∀ pd, pd ∈ l → ¬ release_tmp pd.1 ∨ is_Some (th_files h !! pd.1)) →
  (∀ h', th_files h' = puts l (th_files h) → Q (Ok ()) h') →
  (∀ r h', r ≠ Ok () → partly_put l (th_files h) (th_files h') → Q r h') →
  wp (each (λ pd, writeAtomic pd.1 pd.2) l) Q h.
Proof.
  revert h. induction l as [|[p d] l IH]; intros h Hp Ho He; cbn [each]; [by apply Ho|]. apply wp_bind.
  apply wp_writeAtomic; [apply (Hp (p, d)); by left|..].
  - intros h1 E1. cbn. apply IH.
    + intros pd Hpd. rewrite E1. destruct (Hp pd) as [?|Hs]; [by right|by left|right]. destruct (decide (p = pd.1)) as [<-|]; [rewrite lookup_insert_eq; eauto|].
      by rewrite lookup_insert_ne.
    + intros h' E'. apply Ho. rewrite E', E1. done.
    + intros r h' Hr Hq. apply He; [done|]. intros q. destruct (Hq q) as [E|[?|(d' & ? & ?)]]; [|auto|right; right; exists d'; split; [by right|done]].
      rewrite E, E1. destruct (decide (q = p)) as [->|]; [|left; by rewrite lookup_insert_ne]. right; right. exists d. split; [by left|]. by rewrite lookup_insert_eq.
  - intros r h' Hr Hq. destruct r as [[]|e|x]; [done|..]; (apply He; [done|]); intros q;
      (destruct (Hq q) as [?|[?|[-> ?]]]; [auto|auto|right; right; exists d; split; [by left|done]]).
Qed.

(** The packs with a new text. *)
Definition pack_writes (us : list releaseUpdate) : list (tpath * string) := omap (λ u, (λ d, (ru_path u, d)) <$> ru_data u) us.
Lemma write_packs_each us h : write_packs us h = each (λ pd, writeAtomic pd.1 pd.2) (pack_writes us) h.
Proof.
  unfold write_packs. revert h. induction us as [|u us IH]; intros h; [done|]. cbn [each]. unfold pack_writes. cbn [omap list_omap].
  destruct (ru_data u) as [d|]; cbn [fmap option_fmap option_map]; [|by rewrite <- IH]. cbn [each fst snd]. unfold bind.
  destruct (writeAtomic (ru_path u) d h) as [[[]|e|x] h1]; [apply IH|done..].
Qed.
End loops.

(** ** Preparing releases keeps the history *)


Section history.
Context `{TreeEnv} `{SemVer} `{CatalogEnv} `{PackCodec} `{MarketEnv} `{ReleaseEnv}.
Context (cwd packDir metadataFile : tpath) (registryURL : string) (catalog : Catalog).

Definition releases_dir : tpath := cwd ++ ["marketplace"; "releases"].
Context (Hc : valid_catalog catalog) (Hap : apart releases_dir packDir = true) (Hmeta : below releases_dir metadataFile = None).
Abbreviation archive_of pr := (archive_path cwd (cp_Name pr.1) (Version pr.2)).

(** Every release of the pack is in the archive, with the bytes that were signed. *)
Definition archived (t : tree) (old : CatalogPack) : Prop :=
  ∀ r, r ∈ Releases old → ∃ data, t !! archive_path cwd (cp_Name old) (Version r) = Some (NFile data) ∧ VerifyArtifact r data = Ok ().
(** The file had a pack of the catalogue, whose releases are archived now. *)
Definition superseded (t t' : tree) (q : tpath) : Prop :=
  ∃ data pack old, file_at t q = Ok data ∧ LoadPack data = Ok pack ∧ old ∈ c_Packs catalog ∧ cp_Name old = mName (Metadata pack) ∧ archived t' old.
Definition an_archive (t' : tree) (q : tpath) : Prop :=
  ∃ pr data, pr ∈ releases_of catalog ∧ q = archive_of pr ∧ t' !! q = Some (NFile data) ∧ VerifyArtifact pr.2 data = Ok ().

Lemma plain_yaml v : plain_element v = true → plain_element (v +:+ ".yaml") = true.
Proof.
  unfold plain_element. rewrite !andb_true_iff. intros [[[Hs _] _] _]. rewrite all_bytes_app, Hs.
  assert (∀ w, (String.length w ≤ 2)%nat → (v +:+ ".yaml" <>s w) = true) as Hw.
  { intros w Hw. apply negb_true_iff, String.eqb_neq. intros <-. rewrite length_app_str in Hw. cbn [String.length] in Hw. lia. }
  rewrite !Hw by (cbn; lia). done.
Qed.
Lemma archive_path_eq pr : pr ∈ releases_of catalog → archive_of pr = releases_dir ++ [cp_Name pr.1; Version pr.2 +:+ ".yaml"].
Proof.
  destruct pr as [p r]. intros Hpr. destruct (valid_plain catalog Hc p r Hpr) as [Hn Hv]. cbn [fst snd]. unfold archive_path, releases_dir.
  rewrite <- app_assoc. apply (Join_plain cwd ["marketplace"; "releases"; cp_Name p; Version r +:+ ".yaml"]). cbn [forallb]. by rewrite Hn, plain_yaml.
Qed.
Lemma archive_determined pr pr' : pr ∈ releases_of catalog → pr' ∈ releases_of catalog → archive_of pr = archive_of pr' → pr = pr'.
Proof.
  intros Hp Hp'. rewrite !archive_path_eq by done. intros E%app_inv_head. injection E as En Ev. destruct pr as [p r], pr' as [p' r'].
  apply (release_determined catalog); try done. cbn in Ev. apply (f_equal (λ s, str_take (String.length s - 5) s)) in Ev.
  rewrite !length_app_str in Ev. cbn [String.length] in Ev. rewrite !Nat.add_sub in Ev. by rewrite !take_app_str in Ev.
Qed.
Lemma archive_not_tmp pr : pr ∈ releases_of catalog → ¬ release_tmp (archive_of pr).
Proof.
  intros Hp (d & s & E & _ & Hs). rewrite archive_path_eq in E by done. apply HasSuffix_spec in Hs as [t ->].
  replace (releases_dir ++ [cp_Name pr.1; Version pr.2 +:+ ".yaml"]) with ((releases_dir ++ [cp_Name pr.1]) ++ [Version pr.2 +:+ ".yaml"]) in E by by rewrite <- app_assoc.
  apply app_inj_2 in E as [_ E]; [|done]. injection E as E. change (".yaml") with ("." +:+ "yaml") in E. rewrite <- app_assoc_str in E.
  assert (String.length (Version pr.2 +:+ ".") = String.length t) as El.
  { apply (f_equal String.length) in E. rewrite !length_app_str in *. cbn [String.length] in *. lia. }
  apply (f_equal (str_drop (String.length t))) in E. rewrite drop_app_str in E. rewrite <- El, drop_app_str in E. done.
Qed.
Lemma archive_apart pr x : pr ∈ releases_of catalog → archive_of pr ≠ packDir ++ x.
Proof.
  intros Hp. rewrite archive_path_eq by done. apply below_ne, (apart_below _ _ _ _ Hap).
Qed.
Lemma archive_not_metadata pr : pr ∈ releases_of catalog → archive_of pr ≠ metadataFile.
Proof. intros Hp E. rewrite archive_path_eq in E by done. rewrite <- E, below_app in Hmeta. done. Qed.

(** After the archives: whatever else the packs and the metadata are. *)
Section planned.
Context (t : tree) (us : list releaseUpdate) (Hus : Forall (planned cwd packDir catalog t) us).
Abbreviation archives := (us ≫= ru_archive).

Lemma in_archives q d : (q, d) ∈ archives → ∃ pr, pr ∈ releases_of catalog ∧ q = archive_of pr ∧ VerifyArtifact pr.2 d = Ok ().
Proof.
  intros (u & Hd & Hu)%list_elem_of_bind. rewrite Forall_forall in Hus. destruct (pl_archive _ _ _ _ _ (Hus u Hu)) as (old & latest & Ho & Hn & _ & Hl & _).
  apply list_elem_of_lookup in Hd as [i Hi]. destruct (Forall2_lookup_r _ _ _ _ _ Hl Hi) as (r & Hr & [E Hv]). exists (old, r).
  cbn [fst snd] in *. rewrite Hn. split; [|done]. apply elem_releases_of. split; [done|]. by eapply list_elem_of_lookup_2.
Qed.
Lemma in_archives_of u old r :
  u ∈ us → old ∈ c_Packs catalog → cp_Name old = ru_name u → r ∈ Releases old → archive_of (old, r) ∈ archives.*1.
Proof.
  intros Hu Ho Hn Hr. rewrite Forall_forall in Hus. destruct (pl_archive _ _ _ _ _ (Hus u Hu)) as (old' & latest & Ho' & Hn' & _ & Hl & _).
  assert (old' = old) as ->.
  { pose proof (vc_unique _ Hc) as Hnd. apply list_elem_of_lookup in Ho as [i Hi], Ho' as [j Hj].
    assert (i = j) as <-; [|congruence]. eapply NoDup_lookup; [exact Hnd|rewrite list_lookup_fmap, Hi; done|rewrite list_lookup_fmap, Hj; cbn; by rewrite Hn, Hn']. }
  apply list_elem_of_lookup in Hr as [i Hi]. destruct (Forall2_lookup_l _ _ _ _ _ Hl Hi) as ([q d] & Hd & [E _]). cbn in E. subst q.
  apply list_elem_of_fmap. exists (archive_path cwd (ru_name u) (Version r), d). split; [cbn; by rewrite Hn|]. apply list_elem_of_bind. exists u. split; [|done].
  by eapply list_elem_of_lookup_2.
Qed.

(** The files as they may be when the archives are in place. *)
Definition after_archives (t' : tree) : Prop :=
  ∀ q, t' !! q = puts archives t !! q ∨ release_tmp q ∨ (∃ u, u ∈ us ∧ q = ru_path u) ∨ q = metadataFile.

Lemma archive_kept t' pr : after_archives t' → pr ∈ releases_of catalog → t' !! archive_of pr = puts archives t !! archive_of pr.
Proof.
  intros Ha Hp. destruct (Ha (archive_of pr)) as [?|[Ht|[(u & Hu & E)|E]]]; [done|..]; exfalso.
  - by eapply archive_not_tmp.
  - rewrite Forall_forall in Hus. destruct (pl_path _ _ _ _ _ (Hus u Hu)) as (file & Hf & E'). rewrite E', Join_plain in E by (cbn; by rewrite Hf).
    by eapply archive_apart.
  - by eapply archive_not_metadata.
Qed.

Lemma put_verified pr d : pr ∈ releases_of catalog → (archive_of pr, d) ∈ archives → VerifyArtifact pr.2 d = Ok ().
Proof. intros Hp (pr' & Hp' & E & Hv)%in_archives. by rewrite (archive_determined pr pr'). Qed.

Lemma all_superseded t' u : after_archives t' → u ∈ us → superseded t t' (ru_path u).
Proof.
  intros Ha Hu. assert (planned cwd packDir catalog t u) as Hp by (rewrite Forall_forall in Hus; auto).
  destruct (pl_pack _ _ _ _ _ Hp) as (data & pack & Hd & Hl & Hn), (pl_archive _ _ _ _ _ Hp) as (old & latest & Ho & Hon & _).
  exists data, pack, old. split; [done|]. split; [done|]. split; [done|]. split; [congruence|]. intros r Hr.
  assert ((old, r) ∈ releases_of catalog) as Hpr by by apply elem_releases_of.
  pose proof (archive_kept t' (old, r) Ha Hpr) as Ek. cbn [fst snd] in Ek. rewrite Ek.
  destruct (puts_lookup archives t (archive_path cwd (cp_Name old) (Version r))) as [(d & Hin & E)|[Hno _]].
  - exists d. split; [done|]. by apply (put_verified (old, r)).
  - destruct Hno. by apply (in_archives_of u).
Qed.

Lemma after_outcome t' q :
  after_archives t' →
  t' !! q = t !! q ∨ release_tmp q ∨ an_archive t' q ∨ superseded t t' q ∨ (q = metadataFile ∧ ∀ u, u ∈ us → superseded t t' (ru_path u)).
Proof.
  intros Ha. destruct (Ha q) as [E|[?|[(u & Hu & ->)| ->]]]; [|auto|right; right; right; left; by apply all_superseded|].
  - destruct (puts_lookup archives t q) as [(d & Hin & E')|[_ E']]; [|left; congruence]. right; right; left.
    destruct (in_archives q d Hin) as (pr & Hpr & -> & Hv). exists pr, d. split_and!; try done. congruence.
  - right; right; right; right. split; [done|]. intros u Hu. by apply all_superseded.
Qed.

(** The archives were not all written. *)
Lemma partly_archived t' q : partly_put archives t t' → t' !! q = t !! q ∨ release_tmp q ∨ an_archive t' q.
Proof.
  intros Hq. destruct (Hq q) as [?|[?|(d & Hin & E)]]; [auto..|]. right; right. destruct (in_archives q d Hin) as (pr & Hpr & -> & Hv). by exists pr, d.
Qed.
End planned.

(** What a run leaves, whatever its outcome. *)
Definition outcome (args : list string) (t : tree) (r : res unit) (t' : tree) : Prop :=
  (∀ q, t' !! q = t !! q ∨ release_tmp q ∨ an_archive t' q ∨ superseded t t' q
        ∨ (q = metadataFile ∧ ∀ arg, arg ∈ args → superseded t t' (filepath_Join packDir [filepath_Base arg])))
  ∧ (r = Ok () → ∀ arg, arg ∈ args → superseded t t' (filepath_Join packDir [filepath_Base arg])).

Lemma outcome_after args t us r t' :
  Forall (planned cwd packDir catalog t) us → (∀ arg, arg ∈ args → ∃ u, u ∈ us ∧ ru_path u = filepath_Join packDir [filepath_Base arg]) →
  after_archives t us t' → outcome args t r t'.
Proof.
  intros Hus Hargs Ha. split.
  - intros q. destruct (after_outcome t us Hus t' q Ha) as [?|[?|[?|[?|[-> Hall]]]]]; auto 6. right; right; right; right. split; [done|].
    intros arg (u & Hu & <-)%Hargs. by apply Hall.
  - intros _ arg (u & Hu & <-)%Hargs. by apply (all_superseded t us Hus).
Qed.
Lemma outcome_failed args t us r t' :
  Forall (planned cwd packDir catalog t) us → r ≠ Ok () → partly_put (us ≫= ru_archive) t t' → outcome args t r t'.
Proof. intros Hus Hr Hq. split; [|done]. intros q. destruct (partly_archived t us Hus t' q Hq) as [?|[?|?]]; auto. Qed.

Lemma planned_present t u : planned cwd packDir catalog t u → is_Some (t !! ru_path u).
Proof. intros Hp. destruct (pl_pack _ _ _ _ _ Hp) as (data & pack & Hd & _). by eapply file_at_present. Qed.

Lemma wp_prepareReleaseFiles args changelog h :
  wp (prepareReleaseFiles cwd packDir metadataFile registryURL catalog args changelog) (λ r h', outcome args (th_files h) r (th_files h')) h.
Proof.
  unfold prepareReleaseFiles. apply wp_bind. unfold wp. destruct (plan_release _ _ _ _ _ _ _ h) as [[[text st]|e|x] h1] eqn:Ep.
  2, 3: pose proof (reads_plan cwd packDir metadataFile registryURL catalog args changelog h) as Hr; rewrite Ep in Hr; unfold unchanged in Hr; cbn in Hr;
    rewrite Hr; split; [by left|done].
  apply plan_ok in Ep as (E1 & Hus & Hargs & Hm). cbn [fst snd]. set (us := pr_updates st) in *. set (t := th_files h) in *.
  apply wp_bind. unfold write_archives. apply wp_writes.
  { intros [q d] Hin. left. destruct (in_archives t us Hus q d Hin) as (pr & Hpr & -> & _). by apply archive_not_tmp. }
  2: { intros r h2 Hr Hq. rewrite E1 in Hq. destruct r as [[]|e|x]; [done|..]; by apply (outcome_failed args t us). }
  intros h2 E2. rewrite E1 in E2. apply wp_bind. unfold wp. rewrite write_packs_each.
  change (wp (each (λ pd, writeAtomic pd.1 pd.2) (pack_writes us)) (λ r h', match r with Ok _ => wp (writeAtomic metadataFile text) (λ r h', outcome args t r (th_files h')) h' | Err e => outcome args t (Err e) (th_files h') | Panic q => outcome args t (Panic q) (th_files h') end) h2).
  assert (∀ pd, pd ∈ pack_writes us → ∃ u, u ∈ us ∧ pd.1 = ru_path u) as Hw.
  { intros pd (u & Hu & E)%list_elem_of_omap. apply fmap_Some in E as (d & _ & ->). by exists u. }
  apply wp_writes.
  { intros pd (u & Hu & ->)%Hw. right. rewrite E2. apply puts_present. apply planned_present. rewrite Forall_forall in Hus. auto. }
  2: { intros r h3 Hr Hq. assert (outcome args t r (th_files h3)); [|by destruct r as [[]| |]]. apply (outcome_after args t us); [done..|].
       intros q. rewrite <- E2. destruct (Hq q) as [?|[?|(d & Hin & _)]]; [auto..|]. right; right; left. by apply (Hw (q, d)). }
  intros h3 E3.
  assert (∀ q, th_files h3 !! q = puts (us ≫= ru_archive) t !! q ∨ (∃ u, u ∈ us ∧ q = ru_path u)) as Hh3.
  { intros q. rewrite E3, <- E2. destruct (puts_lookup (pack_writes us) (th_files h2) q) as [(d & Hin & _)|[_ E]]; [right; by apply (Hw (q, d))|by left]. }
  apply wp_writeAtomic.
  { right. rewrite E3. apply puts_present. rewrite E2. by apply puts_present. }
  - intros h4 E4. apply (outcome_after args t us); [done..|]. intros q. rewrite E4. destruct (decide (q = metadataFile)) as [->|]; [auto|].
    rewrite lookup_insert_ne by done. destruct (Hh3 q); auto.
  - intros r h4 Hr Hq. apply (outcome_after args t us); [done..|]. intros q. destruct (Hq q) as [->|[?|[-> _]]]; [|auto..]. destruct (Hh3 q); auto.
Qed.

End history.

(** ** A repository with one pack *)

Definition pack_yaml (version : string) : string := Join ["metadata:"; "  version: " +:+ version] (chr LF).
Definition yaml_version (data : string) : option string := match Split data "version: " with [_; v] => Some v | _ => None end.
#[local] Instance release_codec : PackCodec := {|
  yaml_Decode s := v ← of_option (errors_New "not a pack") (yaml_version s); Ok (PackSamples.sample_pack "demo" v);
  regexp_Compile := @regexp_Compile market_codec; sha256_hex := @sha256_hex market_codec;
  Marshal_rollback := @Marshal_rollback sample_codec; Unmarshal_rollback := @Unmarshal_rollback sample_codec;
  Marshal_transaction := @Marshal_transaction sample_codec; Unmarshal_transaction := @Unmarshal_transaction sample_codec;
  MarshalIndent_manifest := @MarshalIndent_manifest sample_codec; Unmarshal_manifest := @Unmarshal_manifest sample_codec |}.
Definition release_temp_name_of (t : tree) (dir : tpath) : string := ".release-" +:+ tree_temp t dir +:+ ".tmp".
#[local, refine] Instance sample_release_env : ReleaseEnv := {|
  yaml_Document s := v ← of_option (errors_New "no version") (yaml_version s);
    Ok [YNode true "" 1 [YNode false "metadata" 1 []; YNode true "" 2 [YNode false "version" 2 []; YNode false v 2 []]]];
  Unmarshal_owner _ := Some {| om_Packs := ∅; om_Releases := ∅ |};
  MarshalIndent_owner m := Ok (Join (fst <$> map_to_list (om_Releases m)) ",");
  release_now _ := "2026-01-01T00:00:00Z";
  release_temp := release_temp_name_of |}.
Proof.
  - intros t dir. unfold release_temp_name_of. split; [by apply HasPrefix_spec; eexists|]. apply HasSuffix_spec. exists (".release-" +:+ tree_temp t dir). by rewrite app_assoc_str.
  - intros t dir. destruct (t !! _) as [n|] eqn:E; [|done]. exfalso.
    assert (String.length (release_temp_name_of t dir) ∈ ((λ kv : tpath * node, String.length (List.last kv.1 "")) <$> map_to_list t)) as Hin.
    { apply list_elem_of_fmap. exists (dir ++ [release_temp_name_of t dir], n). split; [cbn [fst]; by rewrite List.last_last|by apply elem_of_map_to_list]. }
    apply max_list_le in Hin. unfold release_temp_name_of, tree_temp in Hin. rewrite !length_app_str, length_of_bytes, length_replicate in Hin. simpl in Hin. lia.
Defined.

Definition released : CatalogPack :=
  {| cp_Name := "demo"; cp_Description := ""; cp_Publisher := "WORM Team"; cp_Category := "other"; cp_Format := "json";
     cp_Vendor := ""; cp_Product := ""; cp_Models := []; cp_Tags := [];
     Releases := [sample_release "1.0.0" (pack_yaml "1.0.0") false; sample_release "1.1.0" (pack_yaml "1.1.0") false;
                  sample_release "2.0.0" (pack_yaml "2.0.0") true] |}.
Definition released_catalog : Catalog := {| c_Version := 1; c_Generated := ""; c_Packs := [released]; c_envelope := "" |}.

Definition repository : tpath := ["srv"; "worm"].
Definition repository_packs : tpath := repository ++ ["packs"].
Definition repository_metadata : tpath := repository ++ ["marketplace"; "metadata.json"].
(** The latest release is the file of the pack; the others are on the site. *)
Definition repository_host : TreeHost := {|
  th_files := <[repository_packs ++ ["demo.yaml"] := NFile (pack_yaml "1.1.0")]>
    (<[repository_metadata := NFile ""]>
    (<[repository ++ ["marketplace-site"; "packs"; "demo"; "1.0.0"; "pack.yaml"] := NFile (pack_yaml "1.0.0")]>
    (<[repository ++ ["marketplace-site"; "packs"; "demo"; "2.0.0"; "pack.yaml"] := NFile (pack_yaml "2.0.0")]> ∅)));
  th_calls := 0 |}.
Definition prepare_demo : Prog TreeHost unit :=
  prepareReleaseFiles repository repository_packs repository_metadata "https://registry" released_catalog ["demo.yaml"] "fixes".

Example prepare_demo_runs :
  let h' := (prepare_demo repository_host).2 in
  (prepare_demo repository_host).1 = Ok ()
  ∧ th_files h' !! (repository_packs ++ ["demo.yaml"]) = Some (NFile (pack_yaml "1.1.1"))
  ∧ (λ v, th_files h' !! (repository ++ ["marketplace"; "releases"; "demo"; v +:+ ".yaml"])) <$> ["1.0.0"; "1.1.0"; "2.0.0"]
    = (λ v, Some (NFile (pack_yaml v))) <$> ["1.0.0"; "1.1.0"; "2.0.0"]
  ∧ th_files h' !! repository_metadata = Some (NFile ("demo@1.1.1" +:+ chr LF)).
Proof. vm_compute. done. Qed.


Lemma nextPatchVersion_newer_witness :
  nextPatchVersion "v1.2.9" = Ok "v1.2.10" ∧ versionCompare "v1.2.9" "v1.2.10" = -1.
Proof.
  assert (nextPatchVersion "v1.2.9" = Ok "v1.2.10") as E by (vm_compute; reflexivity). split; [exact E|].
  destruct (nextPatchVersion_newer "v1.2.9" "v1.2.10" E) as (prefix & major & minor & patch & n & Hg & Hn & Hr & Hlt & _).
  assert (n = 9) as -> by (assert (patch = "9") as -> by (vm_compute in Hg; congruence); vm_compute in Hn; congruence).
  destruct Hlt as (_ & Hc & _); [unfold MaxInt64; lia|]. exact Hc.
Defined.
