(* ===== verification/Publish.v ===== *)
(** * [cmd/marketplace/main.go], [site.go]: the catalogue assembled, signed and published

    The owner's command.  Without a flag it makes the catalogue of the packs, of those of the
    signed catalogue before it and of the archive, checks that nothing published is lost or
    changed, signs it and writes the site.  [fatal] ends the process: it is [fail] here, and
    what was written stays.  The HTML templates, JSON and the signature scheme are parameters;
    what is printed is left out. *)

From S2P Require Import MarketSamples Ocsf Parquet.
From S2P Require Import Prelude GoStrings GoNum GoPath Model Disk Extract Pack PackStore PackSamples FileTree Catalog CatalogSpec Market MarketSafety Release.
From S2P Require Export Monad.

#[local] Open Scope monad_scope.

(** ** Data *)

Record releaseLink := { rl_Version : string; rl_Path : string; rl_Changelog : string }.
Record packPage := {
  pp_Name : string; pp_Description : string; pp_Vendor : string; pp_Product : string; pp_Category : string; pp_Format : string;
  pp_Releases : list releaseLink }.

Class PublishEnv := {
  Unmarshal_published : string → option (option (gmap string packCoverage) * gmap string releaseMetadata);
  Unmarshal_coverage : string → option (gmap string packCoverage);
  MarshalIndent_catalog : Catalog → res string;
  MarshalIndent_envelope : Envelope → res string;
  ed25519_Sign : string → string → string;                     (* of a private key and a message *)
  publish_now : nat → string;
  packIndexTemplate : list CatalogPack → string * option error; (* what Execute writes *)
  packVersionsTemplate : packPage → string * option error;
}.

(** Paths in the order of [filepath.WalkDir]. *)
Fixpoint path_le (a b : tpath) : bool :=
  match a, b with
  | [], _ => true
  | _, [] => false
  | x :: a', y :: b' => if x =s y then path_le a' b' else str_le x y
  end.

Definition with_releases (rs : list Release) (p : CatalogPack) : CatalogPack := {|
  cp_Name := cp_Name p; cp_Description := cp_Description p; cp_Publisher := cp_Publisher p; cp_Category := cp_Category p;
  cp_Format := cp_Format p; cp_Vendor := cp_Vendor p; cp_Product := cp_Product p; cp_Models := cp_Models p; cp_Tags := cp_Tags p;
  Releases := rs |}.

(** The catalogue so far, where in it each pack is, and the file of each artifact. *)
Record Assembly := { as_packs : list CatalogPack; as_index : gmap string nat; as_source : gmap string tpath }.

(** ** Cells of the index in Markdown *)

Definition markdown_byte (c : ascii) : string :=
  if c =b "|"%char then "\|" else if (c =b CR) || (c =b LF) then " " else chr c.
Definition markdownCell (value : string) : string := String.concat "" (markdown_byte <$> bytes_of value).

Section publish.
Context `{TreeEnv} `{SemVer} `{CatalogEnv} `{PackCodec} `{MarketEnv} `{MapOrder} `{PublishEnv}.
Context (cwd packDir metadataFile out site : tpath).

Abbreviation P := (Prog TreeHost).

(** ** Files *)

(** [os.WriteFile] *)
Definition os_WriteFile (p : tpath) (data : string) : P unit :=
  open_trunc p ;;;
  w <- try (tree_Write p data) ;;
  c <- try tree_nop ;;                                              (* Close *)
  mcall w ;;; mcall c.
Definition copyFile (src dst : tpath) : P unit := data <- tree_ReadFile src ;; os_WriteFile dst data.

(** [os.Stat], links apart *)
Definition tree_Stat (p : tpath) : P node := tree_Lstat p.
(** [filepath.WalkDir]: the files below a directory. *)
Definition files_below (t : tree) (root : tpath) : list tpath :=
  order_by path_le (List.filter (λ q, match below root q, t !! q with Some _, Some (NFile _ | NLink _) => true | _, _ => false end) (map_to_list t).*1).
Definition tree_WalkDir (root : tpath) : P (list tpath) := tree_call (λ t,
  (n ← lookup_path t root; match n with NDir => Ok (files_below t root) | _ => Ok [root] end, t)).

(** ** The packs *)

Definition artifact_name (name version : string) : string := "packs/" +:+ name +:+ "/" +:+ version +:+ "/pack.yaml".

Definition catalog_release (name data : string) (pack : ParserPack) (meta : ownerMetadata) : Release :=
  let version := mVersion (Pack.Metadata pack) in
  let m := default zero_metadata (om_Releases meta !! release_id name version) in
  {| Catalog.Version := version; Artifact := artifact_name name version; SHA256 := Digest data; Size := slen data;
     Changelog := rm_Changelog m; Withdrawn := rm_Withdrawn m; MinWORM := rm_MinWORM m; RequiredDecoders := rm_RequiredDecoders m;
     PublishedAt := rm_PublishedAt m; PackAPI := APIVersion pack; OCSF := Ocsf.Version |}.

Definition no_coverage : packCoverage := {| pv_Vendor := ""; pv_Product := ""; pv_Models := []; pv_Tags := [] |}.
Definition add_pack (meta : ownerMetadata) (path : tpath) (data : string) (pack : ParserPack) (a : Assembly) : Assembly :=
  let name := mName (Pack.Metadata pack) in
  let cover := default no_coverage (om_Packs meta !! name) in
  let release := catalog_release name data pack meta in
  {| as_packs := as_packs a ++ [{|
       cp_Name := name; cp_Description := Description (Pack.Metadata pack); cp_Publisher := Author (Pack.Metadata pack);
       cp_Category := sSourceCategory (Spec pack); cp_Format := sFormat (Spec pack); cp_Vendor := pv_Vendor cover; cp_Product := pv_Product cover;
       cp_Models := pv_Models cover; cp_Tags := [sSourceCategory (Spec pack); sFormat (Spec pack)] ++ pv_Tags cover; Releases := [release] |}];
     as_index := <[name := length (as_packs a)]> (as_index a);
     as_source := <[Artifact release := path]> (as_source a) |}.
Fixpoint add_packs (meta : ownerMetadata) (es : list (string * bool)) (a : Assembly) : P Assembly :=
  match es with
  | [] => ret a
  | e :: es' =>
      if negb (yaml_entry e) then add_packs meta es' a
      else
        let path := filepath_Join packDir [e.1] in
        data <- tree_ReadFile path ;;
        pack <- mcall (LoadPack data) ;;
        add_packs meta es' (add_pack meta path data pack a)
  end.

(** A pack whose file is gone stays, with its archived releases. *)
Definition add_old (a : Assembly) (p : CatalogPack) : Assembly :=
  match as_index a !! cp_Name p with
  | Some _ => a
  | None => {| as_packs := as_packs a ++ [with_releases [] p]; as_index := <[cp_Name p := length (as_packs a)]> (as_index a); as_source := as_source a |}
  end.

Definition check_known (meta : ownerMetadata) (a : Assembly) : res unit :=
  match List.find (λ name, negb (bool_decide (is_Some (as_index a !! name)))) (map_range (om_Packs meta)).*1 with
  | Some name => Err (Errorf "marketplace metadata references unknown pack %q" [AStr name])
  | None => Ok ()
  end.

(** ** The archive *)

Definition archive_dir : tpath := filepath_Join cwd ["marketplace"; "releases"].
Definition add_archived (meta : ownerMetadata) (path : tpath) (data : string) (pack : ParserPack) (a : Assembly) : res Assembly :=
  let name := mName (Pack.Metadata pack) in
  let version := mVersion (Pack.Metadata pack) in
  match as_index a !! name with
  | None => Err (Errorf "archived release %s has no current pack" [AStr name])
  | Some i =>
      match as_packs a !! i with
      | None => Panic "index out of range"
      | Some p =>
          match List.find (λ r, bare (Catalog.Version r) =s bare version) (Releases p) with
          | Some r => if SHA256 r <>s Digest data then Err (Errorf "published release %s@%s has different bytes" [AStr name; AStr version]) else Ok a
          | None =>
              let release := catalog_release name data pack meta in
              Ok {| as_packs := <[i := with_releases (Releases p ++ [release]) p]> (as_packs a); as_index := as_index a;
                    as_source := <[Artifact release := path]> (as_source a) |}
          end
      end
  end.
Fixpoint add_archive (meta : ownerMetadata) (paths : list tpath) (a : Assembly) : P Assembly :=
  match paths with
  | [] => ret a
  | path :: paths' =>
      if negb (HasSuffix (ToLower (List.last path "")) ".yaml") then add_archive meta paths' a
      else
        data <- tree_ReadFile path ;;
        pack <- mcall (LoadPack data) ;;
        a' <- mcall (add_archived meta path data pack a) ;;
        add_archive meta paths' a'
  end.

(** ** Nothing published is lost *)

Definition check_published (meta : ownerMetadata) (a : Assembly) : res unit :=
  match List.find (λ id, match SplitN id "@" 2 with
                         | [name; version] => negb (bool_decide (is_Some (as_source a !! artifact_name name version)))
                         | _ => true
                         end) (map_range (om_Releases meta)).*1 with
  | Some id => Err (Errorf "release metadata references unpublished release %q" [AStr id])
  | None => Ok ()
  end.

Fixpoint check_immutable (name : string) (current : CatalogPack) (rs : list Release) : res unit :=
  match rs with
  | [] => Ok ()
  | r :: rs' =>
      match List.find (λ n, bare (Catalog.Version n) =s bare (Catalog.Version r)) (Releases current) with
      | None => Err (Errorf "published release %s@%s must remain in marketplace/releases" [AStr name; AStr (Catalog.Version r)])
      | Some n => if SHA256 n <>s SHA256 r then Err (Errorf "published release %s@%s is immutable" [AStr name; AStr (Catalog.Version r)])
                  else check_immutable name current rs'
      end
  end.
Fixpoint check_append_only (packs : list CatalogPack) (old : list CatalogPack) : res unit :=
  match old with
  | [] => Ok ()
  | p :: old' =>
      match List.find (λ c, cp_Name c =s cp_Name p) packs with
      | None => Err (Errorf "published pack %s cannot be removed from catalog" [AStr (cp_Name p)])
      | Some current => _ ← check_immutable (cp_Name p) current (Releases p); check_append_only packs old'
      end
  end.

(** ** The catalogue *)

Definition publish_clock : P string := λ h, (Ok (publish_now (th_calls h)), {| th_files := th_files h; th_calls := S (th_calls h) |}).

Definition name_less (a b : CatalogPack) : bool := negb (str_le (cp_Name b) (cp_Name a)).
Definition old_packs (old : option Catalog) : list CatalogPack := match old with Some c => c_Packs c | None => [] end.

Definition decode_metadata (b : string) : res ownerMetadata :=
  m ← of_option (errors_New "invalid metadata") (Unmarshal_published b);
  match m.1 with
  | Some packs => Ok {| om_Packs := packs; om_Releases := m.2 |}
  | None => packs ← of_option (errors_New "invalid metadata") (Unmarshal_coverage b); Ok {| om_Packs := packs; om_Releases := m.2 |}
  end.
Definition read_metadata : P ownerMetadata :=
  b <- try (tree_ReadFile metadataFile) ;;
  match b with
  | Ok b => mcall (decode_metadata b)
  | Err e => if IsNotExist e then ret {| om_Packs := ∅; om_Releases := ∅ |} else fail e
  | Panic q => mcall (Panic q)
  end.

(** The signed catalogue of before, if there is one. *)
Definition read_previous : P (option Catalog) :=
  b <- try (tree_ReadFile out) ;;
  match b with
  | Ok b => c <- mcall (Verify b) ;; ret (Some c)
  | Err e => if IsNotExist e then ret None else fail e
  | Panic q => mcall (Panic q)
  end.

Definition build (old : option Catalog) : P (Catalog * gmap string tpath) :=
  entries <- tree_ReadDir packDir ;;
  generated <- publish_clock ;;
  meta <- read_metadata ;;
  a1 <- add_packs meta entries {| as_packs := []; as_index := ∅; as_source := ∅ |} ;;
  let a2 := foldl add_old a1 (old_packs old) in
  mcall (check_known meta a2) ;;;
  stat <- try (tree_Stat archive_dir) ;;
  a3 <- (match stat with Ok _ => paths <- tree_WalkDir archive_dir ;; add_archive meta paths a2 | _ => ret a2 end) ;;
  mcall (check_published meta a3) ;;;
  let cat := {| c_Version := CatalogVersion; c_Generated := generated; c_Packs := sort_Slice name_less (as_packs a3); c_envelope := "" |} in
  mcall (Catalog_Validate cat) ;;;
  mcall (check_append_only (c_Packs cat) (old_packs old)) ;;;
  ret (cat, as_source a3).

(** ** The site *)

Definition sign_catalog (key : string) (c : Catalog) : res string :=
  payload ← MarshalIndent_catalog c;
  MarshalIndent_envelope {| KeyID := OwnerSigningKeyID; Payload := base64_EncodeToString payload;
                            Signature := base64_EncodeToString (ed25519_Sign key payload) |}.

Definition copy_artifact (sources : gmap string tpath) (pr : CatalogPack * Release) : P unit :=
  match sources !! Artifact pr.2 with
  | None => fail (Errorf "missing source for %s" [AStr (Artifact pr.2)])
  | Some source =>
      tree_MkdirAll (filepath_Dir (artifact_path site pr.2)) ;;;
      copyFile source (artifact_path site pr.2)
  end.

Definition writeTemplate (p : tpath) (text : string * option error) : P unit :=
  open_trunc p ;;;                                                  (* os.Create *)
  r <- try (tree_Write p text.1 ;;; match text.2 with Some e => fail e | None => ret () end) ;;
  match r with
  | Ok _ => tree_nop                                                (* Close *)
  | _ => _ <- try tree_nop ;; mcall r
  end.

Definition page_of (p : CatalogPack) : packPage := {|
  pp_Name := cp_Name p; pp_Description := cp_Description p; pp_Vendor := cp_Vendor p; pp_Product := cp_Product p;
  pp_Category := cp_Category p; pp_Format := cp_Format p;
  pp_Releases := (λ r, {| rl_Version := Catalog.Version r; rl_Path := TrimPrefix (Artifact r) ("packs/" +:+ cp_Name p +:+ "/");
                          rl_Changelog := Changelog r |}) <$> Releases p |}.
Definition write_page (p : CatalogPack) : P unit :=
  let dir := filepath_Join (filepath_Join site ["packs"]) [cp_Name p] in
  tree_MkdirAll dir ;;;
  writeTemplate (filepath_Join dir ["index.html"]) (packVersionsTemplate (page_of p)).
Definition writePackIndexes (c : Catalog) : P unit :=
  let root := filepath_Join site ["packs"] in
  let listed := List.filter (λ p, match Releases p with [] => false | _ => true end) (c_Packs c) in
  tree_MkdirAll root ;;;
  writeTemplate (filepath_Join root ["index.html"]) (packIndexTemplate listed) ;;;
  each write_page listed.

Definition release_label (r : Release) : string :=
  "[" +:+ markdownCell (Catalog.Version r) +:+ "](https://ashokkmt.github.io/worm/" +:+ Artifact r +:+ ")"
  +:+ (if Withdrawn r then " (withdrawn)" else "") +:+ (if Changelog r <>s "" then ": " +:+ markdownCell (Changelog r) else "").
Definition index_row (p : CatalogPack) : string :=
  let vendorProduct := if cp_Vendor p <>s "" then cp_Vendor p +:+ " / " +:+ cp_Product p else cp_Product p in
  "| [" +:+ markdownCell (cp_Name p) +:+ "](https://ashokkmt.github.io/worm/packs/" +:+ cp_Name p +:+ "/) | " +:+ markdownCell (cp_Description p)
  +:+ " | " +:+ Join (release_label <$> Releases p) "<br>" +:+ " | " +:+ markdownCell vendorProduct +:+ " | " +:+ markdownCell (cp_Category p)
  +:+ " | " +:+ markdownCell (cp_Format p) +:+ " | " +:+ markdownCell (Join (cp_Models p) ", ") +:+ " | " +:+ markdownCell (Join (cp_Tags p) ", ")
  +:+ " |" +:+ chr LF.
Definition index_text (c : Catalog) : string :=
  let packs := sort_Slice name_less (c_Packs c) in
  "# WORM Marketplace Pack Index" +:+ chr LF +:+ chr LF
  +:+ "Generated from the signed marketplace catalog. The catalog contains " +:+ Itoa (Z.of_nat (length packs)) +:+ " unique pack identities and "
  +:+ Itoa (Z.of_nat (length (packs ≫= Releases)))
  +:+ " published releases. Browse the [online marketplace](https://ashokkmt.github.io/worm/packs/) for the same index and versioned YAML downloads."
  +:+ chr LF +:+ chr LF
  +:+ "| Pack | Description | Versions and release notes | Vendor / product | Category | Format | Models | Tags |" +:+ chr LF
  +:+ "|---|---|---|---|---|---|---|---|" +:+ chr LF
  +:+ String.concat "" (index_row <$> packs).
Definition index_path : tpath := filepath_Join cwd ["marketplace"; "INDEX.md"].
Definition writeRepositoryIndex (c : Catalog) : P unit :=
  tree_MkdirAll (filepath_Dir index_path) ;;; os_WriteFile index_path (index_text c).

(** ** The command *)

Definition write_site (c : Catalog) (sources : gmap string tpath) (env : string) : P unit :=
  tree_MkdirAll (filepath_Dir out) ;;;
  os_WriteFile out env ;;;
  tree_MkdirAll site ;;;
  os_WriteFile (filepath_Join site ["catalog.json"]) env ;;;
  each (copy_artifact sources) (releases_of c) ;;;
  writePackIndexes c ;;;
  writeRepositoryIndex c.

(** Without a flag.  [keyText]: the variable, or the trimmed contents of the key file. *)
Definition publish (keyText : string) (args : list string) : P unit :=
  match base64_DecodeString keyText with
  | None => fail (errors_New "provide a valid base64 WORM_MARKETPLACE_SIGNING_KEY")
  | Some key =>
      if negb (slen key =? 64) then fail (errors_New "provide a valid base64 WORM_MARKETPLACE_SIGNING_KEY")
      else if negb (SigningKeyTrusted OwnerSigningKeyID key) then fail (Errorf "signing key does not match trusted key %s" [AStr OwnerSigningKeyID])
      else
        old <- read_previous ;;
        match args with
        | _ :: _ => fail (errors_New "pack YAML arguments require -prepare-release")
        | [] =>
            built <- build old ;;
            env <- mcall (sign_catalog key built.1) ;;
            write_site built.1 built.2 env
        end
  end.

(** ** [checkSeedPacks] *)

Fixpoint match_owner (p : ParserPack) (data : string) (packs : list CatalogPack) (matched : bool) : res bool :=
  match packs with
  | [] => Ok matched
  | cp :: packs' =>
      let version := mVersion (Pack.Metadata p) in
      if cp_Name cp <>s mName (Pack.Metadata p) then match_owner p data packs' matched
      else if match Latest cp with Some latest => bare (Catalog.Version latest) <>s bare version | None => true end then
        Err (Errorf "owner pack %s@%s is not the embedded catalog's latest stable release" [AStr (mName (Pack.Metadata p)); AStr version])
      else match_owner p data packs' (matched || existsb (λ r, (bare (Catalog.Version r) =s bare version) && is_ok (VerifyArtifact r data)) (Releases cp))
  end.
Fixpoint check_owner_files (c : Catalog) (es : list (string * bool)) : P unit :=
  match es with
  | [] => ret ()
  | e :: es' =>
      if negb (yaml_entry e) then check_owner_files c es'
      else
        data <- tree_ReadFile (filepath_Join packDir [e.1]) ;;
        p <- mcall (LoadPack data) ;;
        matched <- mcall (match_owner p data (c_Packs c) false) ;;
        if matched : bool then check_owner_files c es'
        else fail (Errorf "owner pack %s@%s does not match embedded signed catalog" [AStr (mName (Pack.Metadata p)); AStr (mVersion (Pack.Metadata p))])
  end.
Definition checkSeedPacks : P unit :=
  c <- mcall LoadCatalog ;;
  es <- tree_ReadDir packDir ;;
  check_owner_files c es.

(** ** [main] *)

Record Flags := { fl_check : bool; fl_index : bool; fl_prepare : bool; fl_changelog : string; fl_registry : string; fl_keyFile : option tpath }.

Definition main `{ReleaseEnv} (fl : Flags) (keyVariable : string) (args : list string) : P unit :=
  if fl_check fl then checkSeedPacks
  else if fl_index fl then c <- mcall LoadCatalog ;; writeRepositoryIndex c
  else if fl_prepare fl then
    if TrimSpace (fl_changelog fl) =s "" then fail (errors_New "provide -changelog when using -prepare-release")
    else
      previous <- tree_ReadFile out ;;
      c <- mcall (Verify previous) ;;
      prepareReleaseFiles cwd packDir metadataFile (fl_registry fl) c args (fl_changelog fl)
  else
    match fl_keyFile fl with
    | None => publish keyVariable args
    | Some file => b <- tree_ReadFile file ;; publish (TrimSpace b) args
    end.
End publish.

(** ** The assembly *)

Section assembled.
Context `{TreeEnv} `{SemVer} `{CatalogEnv} `{PackCodec} `{MarketEnv} `{MapOrder} `{PublishEnv}.
Context (cwd packDir metadataFile out site : tpath).

#[local] Ltac reads_tac := repeat first [progress keeps_tac | by apply reads_tree | done | solve [auto]].
Lemma reads_add_packs meta es a : keeps unchanged (add_packs packDir meta es a).
Proof. revert a. induction es as [|e es IH]; intros a; cbn [add_packs]; reads_tac. Qed.
Lemma reads_add_archive meta paths a : keeps unchanged (add_archive meta paths a).
Proof. revert a. induction paths as [|p paths IH]; intros a; cbn [add_archive]; reads_tac. Qed.
Lemma reads_previous : keeps unchanged (read_previous out).
Proof. unfold read_previous. reads_tac. Qed.
Lemma reads_metadata : keeps unchanged (read_metadata metadataFile).
Proof. unfold read_metadata. reads_tac. Qed.
Lemma reads_build old : keeps unchanged (build cwd packDir metadataFile old).
Proof.
  unfold build. apply keeps_bind; [apply _|by apply reads_tree|]. intros es. apply keeps_bind; [apply _|done|]. intros g.
  apply keeps_bind; [apply _|apply reads_metadata|]. intros meta. apply keeps_bind; [apply _|apply reads_add_packs|]. intros a1. cbv zeta.
  apply keeps_bind; [apply _|keeps_tac|]. intros _. apply keeps_bind; [apply _|apply keeps_try; by apply reads_tree|]. intros stat.
  apply keeps_bind; [apply _| |].
  { destruct stat; [|apply keeps_ret, _..]. apply keeps_bind; [apply _|by apply reads_tree|]. intros paths. apply reads_add_archive. }
  intros a3. keeps_tac.
Qed.

Lemma reads_ok {A} (m : Prog TreeHost A) h r h' : keeps unchanged m → m h = (r, h') → th_files h' = th_files h.
Proof. intros Hm E. specialize (Hm h). rewrite E in Hm. exact Hm. Qed.

(** *** Every artifact has its file *)

Definition archive_root : tpath := archive_dir cwd.
(** Where the files of the artifacts are. *)
Definition source_place (path : tpath) : Prop := (∃ file, path = packDir ++ [file]) ∨ (∃ rest, path = archive_root ++ rest).

Record sourced (t : tree) (a : Assembly) : Prop := {
  sd_all : ∀ p r, p ∈ as_packs a → r ∈ Releases p → is_Some (as_source a !! Artifact r);
  sd_file : ∀ n path, as_source a !! n = Some path → source_place path
    ∧ ∃ p r data, p ∈ as_packs a ∧ r ∈ Releases p ∧ Artifact r = n ∧ file_at t path = Ok data ∧ VerifyArtifact r data = Ok () }.

Lemma sourced_empty t : sourced t {| as_packs := []; as_index := ∅; as_source := ∅ |}.
Proof.
  split.
  - intros p r Hp. by apply not_elem_of_nil in Hp.
  - intros n path E. cbn in E. by rewrite lookup_empty in E.
Qed.

Lemma catalog_release_verified name data pack meta : VerifyArtifact (catalog_release name data pack meta) data = Ok ().
Proof. unfold VerifyArtifact. cbn [Size SHA256 catalog_release]. rewrite Z.eqb_refl, String.eqb_refl. done. Qed.

(** A release is added with its file; no other is lost. *)
Lemma sourced_add t a a' path data rel :
  sourced t a → as_source a' = <[Artifact rel := path]> (as_source a) →
  source_place path → file_at t path = Ok data → VerifyArtifact rel data = Ok () →
  (∃ p, p ∈ as_packs a' ∧ rel ∈ Releases p) →
  (∀ p r, p ∈ as_packs a → r ∈ Releases p → ∃ p', p' ∈ as_packs a' ∧ r ∈ Releases p') →
  (∀ p r, p ∈ as_packs a' → r ∈ Releases p → r = rel ∨ ∃ p', p' ∈ as_packs a ∧ r ∈ Releases p') →
  sourced t a'.
Proof.
  intros [Hall Hfile] Es Hpl Hd Hv (p0 & Hp0 & Hr0) Hmono Hnew. split; rewrite Es.
  - intros p r Hp Hr. destruct (decide (Artifact r = Artifact rel)) as [->|Hne]; [rewrite lookup_insert_eq; eauto|]. rewrite lookup_insert_ne by done.
    destruct (Hnew p r Hp Hr) as [->|(p' & ? & ?)]; [done|eauto].
  - intros n q. destruct (decide (n = Artifact rel)) as [->|Hne].
    + rewrite lookup_insert_eq. intros [= <-]. split; [done|]. by exists p0, rel, data.
    + rewrite lookup_insert_ne by done. intros (Hq & p & r & d & Hp & Hr & Hn & Hf & Hvr)%Hfile. split; [done|].
      destruct (Hmono p r Hp Hr) as (p' & Hp' & Hr'). by exists p', r, d.
Qed.

Lemma sourced_add_pack t a meta path data pack :
  sourced t a → source_place path → file_at t path = Ok data → sourced t (add_pack meta path data pack a).
Proof.
  intros Ha Hpl Hd. eapply (sourced_add t a _ path data (catalog_release (mName (Pack.Metadata pack)) data pack meta)); try done.
  - apply catalog_release_verified.
  - eexists. split; [apply elem_of_app; right; by left|by left].
  - intros p r Hp Hr. exists p. split; [apply elem_of_app; by left|done].
  - intros p r [Hp| ->%list_elem_of_singleton]%elem_of_app Hr; [right; by exists p|]. left. by apply list_elem_of_singleton in Hr.
Qed.
Lemma sourced_add_old t a p : sourced t a → sourced t (add_old a p).
Proof.
  intros [Hall Hfile]. unfold add_old. destruct (as_index a !! cp_Name p); [done|]. split; cbn [as_packs as_source].
  - intros q r [Hq| ->%list_elem_of_singleton]%elem_of_app Hr; [eauto|]. by apply not_elem_of_nil in Hr.
  - intros n path (Hpl & q & r & d & Hq & ?)%Hfile. split; [done|]. exists q, r, d. split; [apply elem_of_app; by left|done].
Qed.
Lemma sourced_old t a l : sourced t a → sourced t (foldl add_old a l).
Proof. revert a. induction l as [|p l IH]; intros a Ha; [done|]. apply IH. by apply sourced_add_old. Qed.

Lemma sourced_add_archived t a a' meta path data pack :
  sourced t a → source_place path → file_at t path = Ok data → add_archived meta path data pack a = Ok a' → sourced t a'.
Proof.
  intros Ha Hpl Hd. unfold add_archived. destruct (as_index a !! _) as [i|]; [|done]. destruct (as_packs a !! i) as [p|] eqn:Ei; [|done].
  destruct (List.find _ _) as [r0|]; [destruct (_ <>s _); [done|by intros [= <-]]|]. intros [= <-].
  assert (p ∈ as_packs a) as Hp by by eapply list_elem_of_lookup_2.
  assert (i < length (as_packs a))%nat as Hi by by eapply lookup_lt_Some.
  eapply (sourced_add t a _ path data (catalog_release (mName (Pack.Metadata pack)) data pack meta)); try done.
  - apply catalog_release_verified.
  - eexists. split; [by eapply list_elem_of_lookup_2, list_lookup_insert_eq|]. cbn. apply elem_of_app. right. by left.
  - intros q r Hq Hr. cbn [as_packs]. apply list_elem_of_lookup in Hq as [j Hj]. destruct (decide (i = j)) as [<-|Hne].
    + eexists. split; [by eapply list_elem_of_lookup_2, list_lookup_insert_eq|]. cbn. rewrite Ei in Hj. injection Hj as <-. apply elem_of_app. by left.
    + exists q. split; [|done]. eapply list_elem_of_lookup_2. by rewrite list_lookup_insert_ne.
  - cbn [as_packs]. intros q r Hq Hr. apply list_elem_of_lookup in Hq as [j Hj]. apply list_lookup_insert_Some in Hj as [(-> & <- & _)|[_ Hj]].
    + cbn in Hr. apply elem_of_app in Hr as [Hr| ->%list_elem_of_singleton]; [right; by exists p|by left].
    + right. exists q. split; [by eapply list_elem_of_lookup_2|done].
Qed.

Lemma add_packs_sourced meta es a h a' h' :
  add_packs packDir meta es a h = (Ok a', h') → Forall (λ e, plain_element e.1 = true) es → sourced (th_files h) a → sourced (th_files h) a'.
Proof.
  revert a h. induction es as [|e es IH]; intros a h; cbn [add_packs]; [by intros [= <- _]|]. intros E [He Hes]%Forall_cons Ha.
  destruct (negb (yaml_entry e)); [by eapply IH|]. apply bind_ok in E as (data & h1 & Er & (pack & h2 & [El ->]%pair_eq & E)%bind_ok).
  apply tree_call_ok in Er. injection Er as Er Ef. rewrite Ef in Ha, Er |- *. eapply IH; [exact E|done|].
  apply sourced_add_pack; [done| |done]. left. exists e.1. by apply Join_plain; cbn; rewrite He.
Qed.
Lemma add_archive_sourced meta paths a h a' h' :
  add_archive meta paths a h = (Ok a', h') → Forall source_place paths → sourced (th_files h) a → sourced (th_files h) a'.
Proof.
  revert a h. induction paths as [|p paths IH]; intros a h; cbn [add_archive]; [by intros [= <- _]|]. intros E [Hp Hps]%Forall_cons Ha.
  destruct (negb _); [by eapply IH|].
  apply bind_ok in E as (data & h1 & Er & (pack & h2 & [El ->]%pair_eq & (a1 & h3 & [Ea ->]%pair_eq & E)%bind_ok)%bind_ok).
  apply tree_call_ok in Er. injection Er as Er Ef. rewrite Ef in Ha, Er |- *. eapply IH; [exact E|done|]. by eapply sourced_add_archived.
Qed.

(** *** Nothing published is lost *)

Lemma check_immutable_ok name current rs :
  check_immutable name current rs = Ok () →
  ∀ r, r ∈ rs → ∃ n, n ∈ Releases current ∧ bare (Catalog.Version n) = bare (Catalog.Version r) ∧ SHA256 n = SHA256 r.
Proof.
  induction rs as [|r0 rs IH]; cbn [check_immutable]; intros E r; [by intros ?%not_elem_of_nil|].
  destruct (List.find _ _) as [n|] eqn:Ef; [|done]. apply find_some in Ef as [Hin Hb]. destruct (SHA256 n =s SHA256 r0) eqn:Es; [|done].
  intros [->|Hr]%elem_of_cons; [|by apply IH]. exists n. split; [by apply list_elem_of_In|]. split; by apply String.eqb_eq.
Qed.

(** The new catalogue has every release of the old, with the same digest. *)
Definition extends (old new : list CatalogPack) : Prop :=
  ∀ p r, p ∈ old → r ∈ Releases p →
  ∃ p' r', p' ∈ new ∧ r' ∈ Releases p' ∧ cp_Name p' = cp_Name p ∧ bare (Catalog.Version r') = bare (Catalog.Version r) ∧ SHA256 r' = SHA256 r.
Lemma check_append_only_ok packs old : check_append_only packs old = Ok () → extends old packs.
Proof.
  induction old as [|p0 old IH]; cbn [check_append_only]; intros E p r; [by intros ?%not_elem_of_nil|].
  destruct (List.find _ _) as [current|] eqn:Ef; [|done]. apply find_some in Ef as [Hin Hb].
  destruct (check_immutable _ _ _) as [[]|e|q] eqn:Ei; [|done..].
  intros [->|Hp]%elem_of_cons Hr; [|by apply IH]. destruct (check_immutable_ok _ _ _ Ei r Hr) as (n & Hn & Hv & Hs).
  exists current, n. split; [by apply list_elem_of_In|]. split; [done|]. split; [by apply String.eqb_eq|done].
Qed.

(** *** The catalogue that is built *)

(** The files of the disk have names as a directory lists them. *)
Definition well_named (t : tree) : Prop := ∀ q, is_Some (t !! q) → forallb plain_element q = true.

Lemma dir_entries_plain t dir name b : well_named t → dir_entries t dir !! name = Some b → plain_element name = true.
Proof.
  intros Hw. unfold dir_entries. assert (∀ q n, (q, n) ∈ map_to_list t → forallb plain_element q = true) as Hl.
  { intros q n Hq%elem_of_map_to_list. apply Hw. eauto. }
  revert Hl. induction (map_to_list t) as [|[q n] l IH]; intros Hl; cbn [foldr fst snd]; [by rewrite lookup_empty|].
  assert (foldr (λ kv m, match below dir kv.1 with
     | Some (name :: rest) => <[name := default false (m !! name) || match rest, kv.2 with [], NDir => true | [], _ => false | _, _ => true end]> m
     | _ => m end) ∅ l !! name = Some b → plain_element name = true) as IH' by (apply IH; intros ? ? ?; eapply Hl; by right).
  destruct (below dir q) as [[|e rest]|] eqn:Eb; [done| |done].
  destruct (decide (name = e)) as [->|Hne]; [|by rewrite lookup_insert_ne]. intros _.
  specialize (Hl q n ltac:(by left)). apply below_Some in Eb as ->. rewrite forallb_app in Hl. by apply andb_prop in Hl as [_ [He _]%andb_prop].
Qed.

Lemma ReadDir_plain h es h' :
  tree_ReadDir packDir h = (Ok es, h') → well_named (th_files h) → Forall (λ e, plain_element e.1 = true) es.
Proof.
  intros E Hw. apply tree_call_ok in E. injection E as E _. destruct (lookup_path _ _) as [[]|e|q]; try done. injection E as <-.
  apply Forall_forall. intros [name b]. rewrite (order_by_perm _ (map_to_list (dir_entries (th_files h) packDir))). intros Hin%elem_of_map_to_list.
  by eapply dir_entries_plain.
Qed.
Lemma WalkDir_places h paths h' : tree_WalkDir archive_root h = (Ok paths, h') → Forall source_place paths.
Proof.
  intros E. apply tree_call_ok in E. injection E as E _. apply Forall_forall. intros q Hq. right.
  destruct (lookup_path _ _) as [n|e|x]; [|done..]. cbn in E. destruct n; injection E as <-.
  1, 3: (apply list_elem_of_singleton in Hq as ->; exists []; by rewrite app_nil_r).
  unfold files_below in Hq. rewrite order_by_perm in Hq. apply list_elem_of_In, filter_In in Hq as [_ Hq]. cbv beta in Hq. destruct (below _ q) as [rest|] eqn:Eb; [|done]. change (below archive_root q = Some rest) in Eb.
  exists rest. by apply below_Some in Eb.
Qed.

(** What [build] answers: a valid catalogue that extends the old one, each of whose artifacts
    has a file with its bytes. *)
Record built (t : tree) (old : option Catalog) (cat : Catalog) (sources : gmap string tpath) : Prop := {
  bt_valid : Catalog_Validate cat = Ok ();
  bt_envelope : c_envelope cat = "";
  bt_extends : extends (old_packs old) (c_Packs cat);
  bt_places : ∀ n path, sources !! n = Some path → source_place path;
  bt_sources : ∀ pr, pr ∈ releases_of cat →
    ∃ path data, sources !! Artifact pr.2 = Some path ∧ file_at t path = Ok data ∧ VerifyArtifact pr.2 data = Ok () }.

Lemma build_ok old h cat sources h' :
  build cwd packDir metadataFile old h = (Ok (cat, sources), h') → well_named (th_files h) → built (th_files h) old cat sources.
Proof.
  intros E Hw. unfold build in E. apply bind_ok in E as (es & h1 & Ed & E). apply bind_ok in E as (g & h2 & Eg & E).
  apply bind_ok in E as (meta & h3 & Em & E). apply bind_ok in E as (a1 & h4 & E1 & E).
  assert (th_files h1 = th_files h) as F1 by (eapply reads_ok; [|exact Ed]; by apply reads_tree).
  apply reads_ok in Eg as F2; [|done]. apply reads_ok in Em as F3; [|apply reads_metadata]. apply reads_ok in E1 as F4; [|apply reads_add_packs].
  assert (sourced (th_files h) a1) as S1.
  { replace (th_files h) with (th_files h3) by congruence. eapply add_packs_sourced; [exact E1|by eapply ReadDir_plain|apply sourced_empty]. }
  apply (sourced_old _ _ (old_packs old)) in S1. cbv zeta in E. set (a2 := foldl add_old a1 (old_packs old)) in *. clearbody a2.
  apply bind_ok in E as (? & h5 & [_ ->]%pair_eq & E). apply bind_ok in E as (stat & h6 & Es & E). apply bind_ok in E as (a3 & h7 & Ea & E).
  assert (th_files h6 = th_files h5) as F6 by (eapply reads_ok; [|exact Es]; apply keeps_try; by apply reads_tree).
  assert (sourced (th_files h) a3) as S3.
  { destruct stat as [n|e|q]; [|by injection Ea as <- _..]. apply bind_ok in Ea as (paths & h8 & Ew & Ea).
    assert (th_files h8 = th_files h6) as F8 by (eapply reads_ok; [|exact Ew]; by apply reads_tree).
    replace (th_files h) with (th_files h8) by congruence. eapply add_archive_sourced; [exact Ea|by eapply WalkDir_places|].
    by replace (th_files h8) with (th_files h) by congruence. }
  apply bind_ok in E as (? & h8 & [_ ->]%pair_eq & E). apply bind_ok in E as ([] & h9 & [Ev ->]%pair_eq & E).
  apply bind_ok in E as ([] & h10 & [Ek ->]%pair_eq & E). injection E as <- <- _.
  assert (∀ p, p ∈ sort_Slice name_less (as_packs a3) ↔ p ∈ as_packs a3) as Hin by (intros p; by rewrite sort_Slice_perm).
  split; [done|done|by apply check_append_only_ok| |].
  - intros n path Hn. by destruct (sd_file _ _ S3 n path Hn).
  - intros [p r] Hpr. pose proof Hpr as Hpr0. apply elem_releases_of in Hpr as [Hp Hr]. apply Hin in Hp.
    destruct (sd_all _ _ S3 p r Hp Hr) as [path Hs]. destruct (sd_file _ _ S3 _ _ Hs) as (_ & p' & r' & data & Hp' & Hr' & Hn & Hd & Hv).
    exists path, data. split; [done|]. split; [done|]. cbn [snd]. apply Catalog_Validate_ok in Ev as Hc.
    pose proof (artifacts_NoDup _ Hc) as Hnd. assert ((p', r') ∈ releases_of {| c_Version := CatalogVersion; c_Generated := g; c_Packs := sort_Slice name_less (as_packs a3); c_envelope := "" |}) as Hpr'.
    { apply elem_releases_of. split; [by apply Hin|done]. }
    apply list_elem_of_lookup in Hpr0 as [i Hi], Hpr' as [j Hj].
    assert (i = j) as <-; [|congruence]. eapply NoDup_lookup; [exact Hnd|rewrite list_lookup_fmap, Hi; done|rewrite list_lookup_fmap, Hj; cbn; by rewrite Hn].
Qed.
End assembled.

(** ** The site *)

(** What is assumed of the signature scheme and of JSON.  A key is genuine when its second half
    is the public key of its seed. *)
Class SigningLaws `{CatalogEnv} `{PublishEnv} := {
  genuine_key : string → Prop;
  sign_verifies key m : genuine_key key → ed25519_Verify (str_drop 32 key) m (ed25519_Sign key m) = true;
  envelope_json e s : MarshalIndent_envelope e = Ok s →
    all_bytes (λ c, bz c <? 128) (KeyID e) = true → all_bytes (λ c, bz c <? 128) (Payload e) = true → all_bytes (λ c, bz c <? 128) (Signature e) = true →
    Unmarshal_Envelope s = Some e;
  utf8_catalog : Catalog → Prop;                                (* its texts are valid UTF-8 *)
  catalog_json c s : MarshalIndent_catalog c = Ok s → utf8_catalog c → c_envelope c = "" → Unmarshal_Catalog s = Some c;
}.

Lemma all_bytes_of p l : Forall (λ c, p c = true) l → all_bytes p (of_bytes l) = true.
Proof. induction 1 as [|c l Hc _ IH]; [done|]. cbn. by rewrite Hc, IH. Qed.
Lemma base64_ascii s : all_bytes (λ c, bz c <? 128) (base64_EncodeToString s) = true.
Proof.
  apply all_bytes_of. eapply Forall_impl; [apply b64_encode_letters|]. intros c Hc. unfold b64_letter in Hc. by apply andb_prop in Hc as [_ ?].
Qed.

Section signed.
Context `{SemVer} `{PackCodec} `{SigningLaws}.

(** The catalogue that is signed is the one that is verified. *)
Lemma sign_then_verify key c env :
  SigningKeyTrusted OwnerSigningKeyID key = true → genuine_key key → utf8_catalog c → c_envelope c = "" → Catalog_Validate c = Ok () →
  sign_catalog key c = Ok env → Verify env = Ok (with_envelope env c).
Proof.
  intros Ht Hg Hu He Hv Hs. unfold sign_catalog in Hs. destruct (MarshalIndent_catalog c) as [payload|e|x] eqn:Em; [|done..]. cbn in Hs.
  unfold SigningKeyTrusted in Ht. destruct (publicKeys !! OwnerSigningKeyID) as [encoded|] eqn:Ep; [|done]. destruct (negb _); [done|].
  destruct (base64_DecodeString encoded) as [trusted|] eqn:Eb; [|done]. apply String.eqb_eq in Ht as <-.
  unfold Verify. rewrite (envelope_json _ _ Hs) by (try apply base64_ascii; vm_compute; reflexivity). cbn [of_option mbind res_bind KeyID Payload Signature].
  rewrite Ep. cbn [of_option mbind res_bind]. rewrite Eb. cbn [of_option mbind res_bind]. rewrite !base64_roundtrip. cbn [of_option mbind res_bind].
  rewrite sign_verifies by done. cbn [negb]. rewrite (catalog_json c) by done. cbn [of_option mbind res_bind]. by rewrite Hv.
Qed.
End signed.

Section site.
Context `{TreeEnv} `{SemVer} `{CatalogEnv} `{PackCodec} `{MarketEnv} `{MapOrder} `{PublishEnv}.
Context (cwd packDir metadataFile out site : tpath).

(** *** Files that were written *)

Lemma open_trunc_ok p h h' : open_trunc p h = (Ok (), h') → th_files h' = <[p := NFile ""]> (th_files h).
Proof.
  intros E%tree_call_ok. destruct (lookup_path _ p) as [[]|e|q]; [by injection E|done|by injection E|by destruct (IsNotExist e); injection E|done].
Qed.
Lemma tree_Write_ok p data h h' : tree_Write p data h = (Ok (), h') → th_files h' = <[p := NFile data]> (th_files h).
Proof. intros E%tree_call_ok. by injection E. Qed.

Lemma os_WriteFile_ok p data h h' : os_WriteFile p data h = (Ok (), h') → th_files h' = <[p := NFile data]> (th_files h).
Proof.
  unfold os_WriteFile. intros E. apply bind_ok in E as ([] & h1 & E1%open_trunc_ok & E). apply bind_ok in E as (w & h2 & [Ew _]%try_ok & E).
  apply bind_ok in E as (c & h3 & Ec%try_nop & E). apply bind_ok in E as ([] & h4 & [Eww ->]%pair_eq & [_ ->]%pair_eq).
  subst w. apply tree_Write_ok in Ew. rewrite Ec, Ew, E1. by rewrite insert_insert_eq.
Qed.
Lemma copyFile_ok src dst h h' : copyFile src dst h = (Ok (), h') → ∃ d, file_at (th_files h) src = Ok d ∧ th_files h' = <[dst := NFile d]> (th_files h).
Proof.
  unfold copyFile. intros E. apply bind_ok in E as (d & h1 & E1%tree_call_ok & E2%os_WriteFile_ok). injection E1 as E1 Ef. exists d. by rewrite E2, Ef in *.
Qed.
Lemma writeTemplate_ok p text h h' : writeTemplate p text h = (Ok (), h') → ∃ d, th_files h' = <[p := NFile d]> (th_files h).
Proof.
  unfold writeTemplate. intros E. apply bind_ok in E as ([] & h1 & E1%open_trunc_ok & E). apply bind_ok in E as (r & h2 & [Er _]%try_ok & E).
  destruct r as [[]|e|q].
  - apply bind_ok in Er as ([] & h3 & Ew%tree_Write_ok & Er). assert (h2 = h3) as -> by (by destruct text.2; injection Er). apply tree_nop_ok in E.
    exists text.1. rewrite E, Ew, E1. by rewrite insert_insert_eq.
  - by apply bind_ok in E as (? & ? & _ & E).
  - by apply bind_ok in E as (? & ? & _ & E).
Qed.
Lemma MkdirAll_ok p h h' : tree_MkdirAll p h = (Ok (), h') → th_files h' = th_files h.
Proof. intros E%tree_call_ok. by injection E. Qed.

(** The files of [t'] are those of [t] and files written at paths, with contents, such as [Q] says. *)
Definition wrote (Q : tpath → string → Prop) (t t' : tree) : Prop := ∃ l, t' = puts l t ∧ ∀ q d, (q, d) ∈ l → Q q d.

Lemma wrote_nil Q t : wrote Q t t.
Proof. exists []. split; [done|]. by intros ? ? ?%not_elem_of_nil. Qed.
Lemma wrote_one (Q : tpath → string → Prop) t p d : Q p d → wrote Q t (<[p := NFile d]> t).
Proof. intros HQ. exists [(p, d)]. split; [done|]. by intros q d' [= -> ->]%list_elem_of_singleton. Qed.
Lemma wrote_trans (Q : tpath → string → Prop) t1 t2 t3 : wrote Q t1 t2 → wrote Q t2 t3 → wrote Q t1 t3.
Proof.
  intros (l1 & -> & H1') (l2 & -> & H2'). exists (l1 ++ l2). split; [unfold puts; by rewrite foldl_app|]. intros q d [?|?]%elem_of_app; auto.
Qed.
Lemma wrote_mono (Q Q' : tpath → string → Prop) t t' : (∀ q d, Q q d → Q' q d) → wrote Q t t' → wrote Q' t t'.
Proof. intros HQ (l & E & Hl). exists l. split; [done|]. auto. Qed.
Lemma wrote_lookup Q t t' q : wrote Q t t' → t' !! q = t !! q ∨ ∃ d, Q q d ∧ t' !! q = Some (NFile d).
Proof. intros (l & -> & Hl). destruct (puts_lookup l t q) as [(d & Hd & E)|[_ E]]; [right; eauto|by left]. Qed.
(** A file that was written stays one. *)
Lemma wrote_file (Q : tpath → string → Prop) t t' q d :
  wrote Q t t' → t !! q = Some (NFile d) → Q q d → ∃ d', Q q d' ∧ t' !! q = Some (NFile d').
Proof. intros Hw E HQ. destruct (wrote_lookup Q t t' q Hw) as [E'|(d' & ? & E')]; [exists d; split; congruence|eauto]. Qed.
Lemma wrote_elsewhere (Q : tpath → string → Prop) t t' q : wrote Q t t' → (∀ d, ¬ Q q d) → t' !! q = t !! q.
Proof. intros Hw Hn. destruct (wrote_lookup Q t t' q Hw) as [E|(d & Hq & _)]; [done|]. by destruct (Hn d). Qed.

Lemma file_at_insert t w n q : below w q = None → below q w = None → file_at (<[w := n]> t) q = file_at t q.
Proof. intros ? ?. unfold file_at. by rewrite lookup_path_insert. Qed.

(** *** The artifacts *)

Section copies.
Context (c : Catalog) (Hc : valid_catalog c) (sources : gmap string tpath) (t0 : tree).
Context (Hplaces : ∀ n src, sources !! n = Some src → source_place cwd packDir src).
Context (Happ : apart site packDir = true) (Hapa : apart site (archive_root cwd) = true).

(** A copy: at the path of a release, with the bytes of its file. *)
Definition a_copy (q : tpath) (d : string) : Prop :=
  ∃ pr src, pr ∈ releases_of c ∧ q = artifact_path site pr.2 ∧ sources !! Artifact pr.2 = Some src ∧ file_at t0 src = Ok d.
Definition same_sources (t : tree) : Prop := ∀ n src, sources !! n = Some src → file_at t src = file_at t0 src.

Lemma site_path_eq pr : pr ∈ releases_of c → artifact_path site pr.2 = site ++ artifact_parts pr.1 pr.2.
Proof. destruct pr as [p r]. intros Hpr. exact (artifact_path_eq c Hc p r Hpr site). Qed.

Lemma sources_apart w src n t : source_place cwd packDir src → file_at (<[site ++ w := n]> t) src = file_at t src.
Proof. intros [[file ->]|[rest ->]]; apply file_at_insert; first [apply (apart_below _ _ _ _ Happ)|apply (apart_below _ _ _ _ Hapa)]. Qed.

Lemma copies_ok l h h' :
  each (copy_artifact site sources) l h = (Ok (), h') → (∀ pr, pr ∈ l → pr ∈ releases_of c) → same_sources (th_files h) →
  wrote a_copy (th_files h) (th_files h') ∧ ∀ pr, pr ∈ l → ∃ d, a_copy (artifact_path site pr.2) d ∧ th_files h' !! artifact_path site pr.2 = Some (NFile d).
Proof.
  revert h. induction l as [|pr l IH]; intros h; cbn [each].
  { intros [= <-] _ _. split; [apply wrote_nil|]. by intros ? ?%not_elem_of_nil. }
  intros E Hl Hs. apply bind_ok in E as ([] & h1 & E1 & E). unfold copy_artifact in E1. destruct (sources !! Artifact pr.2) as [src|] eqn:Esrc; [|done].
  apply bind_ok in E1 as ([] & h2 & E2%MkdirAll_ok & (d & Ed & E1)%copyFile_ok). rewrite E2 in Ed, E1.
  assert (pr ∈ releases_of c) as Hpr by (apply Hl; by left).
  assert (a_copy (artifact_path site pr.2) d) as Hcp by (exists pr, src; split_and!; try done; by rewrite <- (Hs _ _ Esrc)).
  assert (wrote a_copy (th_files h) (th_files h1)) as Hw1 by (rewrite E1; by apply wrote_one).
  destruct (IH h1 E) as [Hw Hall]; [intros ? ?; apply Hl; by right| |].
  { intros n s Hn. rewrite E1, site_path_eq by done. rewrite sources_apart by by eapply Hplaces. by apply (Hs n). }
  split; [by eapply wrote_trans|]. intros pr' [->|Hpr']%elem_of_cons; [|by apply Hall]. eapply wrote_file; [exact Hw| |exact Hcp]. rewrite E1. by apply lookup_insert_eq.
Qed.

(** A copy is of the release whose path it has. *)
Lemma copy_verified pr d :
  (∀ pr, pr ∈ releases_of c → ∃ path data, sources !! Artifact pr.2 = Some path ∧ file_at t0 path = Ok data ∧ VerifyArtifact pr.2 data = Ok ()) →
  pr ∈ releases_of c → a_copy (artifact_path site pr.2) d → VerifyArtifact pr.2 d = Ok ().
Proof.
  intros Hall Hpr (pr' & src & Hpr' & E & Hsrc & Hd). rewrite !site_path_eq in E by done. apply app_inv_head in E. injection E as En Ev.
  destruct pr as [p r], pr' as [p' r']. assert ((p, r) = (p', r')) as [= -> ->] by by apply (release_determined c).
  destruct (Hall _ Hpr) as (path & data & Hp & Hd' & Hv). cbn [snd] in *. congruence.
Qed.
End copies.

(** *** The pages *)

Definition a_page (q : tpath) (d : string) : Prop := ∃ rest, q = site ++ "packs" :: rest ∧ (length rest ≤ 2)%nat.

Lemma pages_ok (c : Catalog) h h' :
  (∀ p, p ∈ c_Packs c → plain_element (cp_Name p) = true) → writePackIndexes site c h = (Ok (), h') → wrote a_page (th_files h) (th_files h').
Proof.
  intros Hnames E. unfold writePackIndexes in E. cbv zeta in E. rewrite (Join_plain site ["packs"]) in E by done.
  rewrite (Join_plain (site ++ ["packs"]) ["index.html"]) in E by done.
  apply bind_ok in E as ([] & h1 & E1%MkdirAll_ok & E). apply bind_ok in E as ([] & h2 & (d & E2)%writeTemplate_ok & E). rewrite <- E1.
  apply (wrote_trans a_page _ (th_files h2)).
  { rewrite E2. apply wrote_one. exists ["index.html"]. split; [by rewrite <- app_assoc|cbn; lia]. }
  assert (∀ p, p ∈ List.filter (λ p, match Releases p with [] => false | _ => true end) (c_Packs c) → plain_element (cp_Name p) = true) as Hl.
  { intros p [Hp _]%list_elem_of_In%filter_In. by apply Hnames, list_elem_of_In. }
  clear E2 E1. revert h2 E. induction (List.filter _ (c_Packs c)) as [|p l IH]; intros h2 E; cbn [each] in E; [injection E as <-; apply wrote_nil|].
  apply bind_ok in E as ([] & h3 & E3 & E). eapply wrote_trans; [|apply IH; [|exact E]; intros ? ?; apply Hl; by right].
  unfold write_page in E3. cbv zeta in E3. rewrite (Join_plain site ["packs"]) in E3 by done.
  assert (plain_element (cp_Name p) = true) as Hp by (apply Hl; by left).
  rewrite (Join_plain (site ++ ["packs"]) [cp_Name p]), (Join_plain _ ["index.html"]) in E3 by (cbn; by rewrite ?Hp).
  apply bind_ok in E3 as ([] & h4 & E4%MkdirAll_ok & (d' & E5)%writeTemplate_ok). rewrite E5, E4. apply wrote_one.
  exists [cp_Name p; "index.html"]. split; [by rewrite <- !app_assoc|cbn; lia].
Qed.
End site.

(** ** Publishing *)

Section published.
Context `{TreeEnv} `{SemVer} `{CatalogEnv} `{PackCodec} `{MarketEnv} `{MapOrder} `{PublishEnv} `{!SigningLaws}.
Context (cwd packDir metadataFile out site : tpath).

(** The files that are written and those that are read are in places of their own. *)
Record separate : Prop := {
  sp_packs : apart site packDir = true; sp_archive : apart site (archive_root cwd) = true;
  sp_out_packs : apart out packDir = true; sp_out_archive : apart out (archive_root cwd) = true; sp_out_site : apart out site = true;
  sp_index_site : apart (index_path cwd) site = true; sp_index_out : apart (index_path cwd) out = true }.

Lemma apart_ne a b x : apart a b = true → a ≠ b ++ x.
Proof. intros Ha. apply below_ne. pose proof (apart_below a b [] x Ha) as [Hb _]. by rewrite app_nil_r in Hb. Qed.

(** The site after a run: the signed catalogue, and the artifact of each release. *)
Record site_holds (t' : tree) (c : Catalog) (env : string) : Prop := {
  sh_out : t' !! out = Some (NFile env);
  sh_catalog : t' !! (site ++ ["catalog.json"]) = Some (NFile env);
  sh_artifacts : ∀ pr, pr ∈ releases_of c → ∃ data, t' !! artifact_path site pr.2 = Some (NFile data) ∧ VerifyArtifact pr.2 data = Ok () }.

Lemma write_site_ok (Hsep : separate) t0 old c sources env h h' :
  built cwd packDir t0 old c sources → th_files h = t0 → write_site cwd out site c sources env h = (Ok (), h') → site_holds (th_files h') c env.
Proof.
  intros Hb Et E. destruct Hsep as [Sp Sa Sop Soa Sos Sis Sio]. assert (valid_catalog c) as Hc by (eapply Catalog_Validate_ok, bt_valid, Hb).
  unfold write_site in E. rewrite (Join_plain site ["catalog.json"]) in E by done.
  apply bind_ok in E as ([] & h1 & E1%MkdirAll_ok & E). apply bind_ok in E as ([] & h2 & E2%os_WriteFile_ok & E).
  apply bind_ok in E as ([] & h3 & E3%MkdirAll_ok & E). apply bind_ok in E as ([] & h4 & E4%os_WriteFile_ok & E).
  apply bind_ok in E as ([] & h5 & E5 & E). apply bind_ok in E as ([] & h6 & E6 & E). unfold writeRepositoryIndex in E.
  apply bind_ok in E as ([] & h7 & E7%MkdirAll_ok & E%os_WriteFile_ok). rewrite E1, Et in E2. rewrite E3, E2 in E4.
  assert (∀ src, source_place cwd packDir src → file_at (th_files h4) src = file_at t0 src) as Hsrc.
  { intros src Hs. rewrite E4. rewrite (sources_apart cwd packDir site Sp Sa) by done.
    destruct Hs as [[file ->]|[rest ->]]; apply file_at_insert.
    - pose proof (apart_below out packDir [] [file] Sop) as [Hx _]. by rewrite app_nil_r in Hx.
    - pose proof (apart_below out packDir [] [file] Sop) as [_ Hx]. by rewrite app_nil_r in Hx.
    - pose proof (apart_below out (archive_root cwd) [] rest Soa) as [Hx _]. by rewrite app_nil_r in Hx.
    - pose proof (apart_below out (archive_root cwd) [] rest Soa) as [_ Hx]. by rewrite app_nil_r in Hx. }
  destruct (copies_ok cwd packDir site c Hc sources t0 (bt_places _ _ _ _ _ _ Hb) Sp Sa _ _ _ E5) as [Hw Hall]; [done|by intros n src Hn; apply Hsrc; eapply bt_places|].
  assert (wrote (a_page site) (th_files h5) (th_files h6)) as Hp.
  { eapply pages_ok; [|exact E6]. intros p Hp. destruct (vp_name _ (vc_packs _ Hc _ Hp)). by apply name_plain. }
  assert (∀ q, q ≠ index_path cwd → (∀ d, ¬ a_page site q d) → th_files h' !! q = th_files h5 !! q) as Hlate.
  { intros q Hq Hnp. rewrite E, E7, lookup_insert_ne by done. by eapply wrote_elsewhere. }
  assert (∀ q, (∀ d, ¬ a_copy site c sources t0 q d) → th_files h5 !! q = th_files h4 !! q) as Hearly by (intros q; by apply wrote_elsewhere).
  split.
  - rewrite Hlate, Hearly, E4, lookup_insert_ne, lookup_insert_eq; [done|..].
    + intros Eq. by apply (apart_ne out site ["catalog.json"] Sos).
    + intros d (pr & src & Hpr & Eq & _). rewrite (site_path_eq site c Hc pr Hpr) in Eq. by apply (apart_ne out site _ Sos) in Eq.
    + intros Eq. pose proof (apart_ne (index_path cwd) out [] Sio) as Hx. by rewrite app_nil_r, Eq in Hx.
    + intros d (rest & Eq & _). by apply (apart_ne out site _ Sos) in Eq.
  - rewrite Hlate, Hearly, E4, lookup_insert_eq; [done|..].
    + intros d (pr & src & Hpr & Eq & _). rewrite (site_path_eq site c Hc pr Hpr) in Eq. by apply app_inv_head in Eq.
    + intros Eq. by apply (apart_ne (index_path cwd) site ["catalog.json"] Sis).
    + intros d (rest & Eq & _). by apply app_inv_head in Eq.
  - intros pr Hpr. destruct (Hall pr Hpr) as (d & Hd & Ed). exists d. split.
    + rewrite Hlate; [done|..].
      * rewrite (site_path_eq site c Hc pr Hpr). intros Eq. symmetry in Eq. by apply (apart_ne (index_path cwd) site _ Sis) in Eq.
      * rewrite (site_path_eq site c Hc pr Hpr). intros d' (rest & Eq & Hlen). apply app_inv_head in Eq. injection Eq as <-. cbn in Hlen. lia.
    + eapply copy_verified; [done|eapply bt_sources, Hb|done|done].
Qed.

(** C25: what publishing leaves when it succeeds, whatever was there before.  The signed
    catalogue and the site have the same envelope, of a valid catalogue; it has every release of
    the catalogue signed before it, with the same digest; each of its releases has its artifact
    on the site, with the bytes it vouches for; and, where the key is genuine, the program
    verifies the envelope to exactly that catalogue. *)
Theorem publish_append_only (keyText : string) (args : list string) (h h' : TreeHost) :
  separate → well_named (th_files h) → publish cwd packDir metadataFile out site keyText args h = (Ok (), h') →
  ∃ key c env,
    base64_DecodeString keyText = Some key ∧ valid_catalog c
    ∧ site_holds (th_files h') c env
    ∧ (∀ previous old, file_at (th_files h) out = Ok previous → Verify previous = Ok old → extends (c_Packs old) (c_Packs c))
    ∧ (genuine_key key → utf8_catalog c → Verify env = Ok (with_envelope env c)).
Proof.
  intros Hsep Hnames E. unfold publish in E. destruct (base64_DecodeString keyText) as [key|]; [|done].
  destruct (negb (slen key =? 64)); [done|]. destruct (SigningKeyTrusted OwnerSigningKeyID key) eqn:Et; [|done]. cbn [negb] in E.
  apply bind_ok in E as (old & h1 & Eo & E). destruct args; [|done]. apply bind_ok in E as ([c sources] & h2 & Eb & E).
  apply bind_ok in E as (env & h3 & [Es ->]%pair_eq & E). cbn [fst snd] in *.
  assert (th_files h1 = th_files h) as F1 by (eapply reads_ok; [apply reads_previous|exact Eo]).
  assert (th_files h3 = th_files h1) as F3 by (eapply reads_ok; [apply reads_build|exact Eb]).
  apply build_ok in Eb; [|by rewrite F1]. rewrite F1 in Eb. exists key, c, env. split; [done|].
  split; [eapply Catalog_Validate_ok, bt_valid, Eb|]. split; [eapply (write_site_ok Hsep _ _ _ _ _ _ _ Eb); [|exact E]; congruence|]. split.
  - intros previous old' Hf Hv. pose proof (bt_extends _ _ _ _ _ _ Eb) as Hx. replace (c_Packs old') with (old_packs old); [done|].
    unfold read_previous in Eo. apply bind_ok in Eo as (b & h4 & [Er _]%try_ok & Eo). destruct b as [b|e|q].
    + apply tree_call_ok in Er. injection Er as Er _. unfold file_at in Hf. rewrite Hf in Er. injection Er as <-.
      apply bind_ok in Eo as (c' & h5 & [Ev ->]%pair_eq & [= <- _]). cbn. congruence.
    + assert (e = os_error) as ->.
      { unfold tree_ReadFile, tree_call in Er. unfold file_at in Hf. rewrite Hf in Er. cbn in Er. by destruct (call_fault _); injection Er. }
      done.
    + done.
  - intros Hg Hu. eapply sign_then_verify; [done..|apply Eb|apply Eb|done].
Qed.

(** [checkSeedPacks]: every pack file is, byte for byte, the latest stable release of its pack in
    the catalogue the program is built with. *)
Definition owner_released (c : Catalog) (p : ParserPack) (data : string) : Prop :=
  ∃ cp latest r, cp ∈ c_Packs c ∧ cp_Name cp = mName (Pack.Metadata p) ∧ Latest cp = Some latest
    ∧ bare (Catalog.Version latest) = bare (mVersion (Pack.Metadata p))
    ∧ r ∈ Releases cp ∧ bare (Catalog.Version r) = bare (mVersion (Pack.Metadata p)) ∧ VerifyArtifact r data = Ok ().
Lemma match_owner_ok c p data packs matched :
  match_owner p data packs matched = Ok true → (∀ cp, cp ∈ packs → cp ∈ c_Packs c) → matched = true ∨ owner_released c p data.
Proof.
  revert matched. induction packs as [|cp packs IH]; intros matched; cbn [match_owner]; [intros [= ->]; by left|]. intros E Hin.
  assert (∀ cp', cp' ∈ packs → cp' ∈ c_Packs c) as Hin' by (intros ? ?; apply Hin; by right).
  destruct (String.eqb_spec (cp_Name cp) (mName (Pack.Metadata p))) as [En|]; cbn [negb] in E; [|by apply (IH matched)].
  destruct (Latest cp) as [latest|] eqn:El; [|done]. destruct (String.eqb_spec (bare (Catalog.Version latest)) (bare (mVersion (Pack.Metadata p)))) as [Ev|]; [|done].
  cbn [negb] in E. destruct (IH _ E Hin') as [Hm|?]; [|by right]. apply orb_prop in Hm as [?|Hm]; [by left|right].
  apply existsb_exists in Hm as (r & Hr%list_elem_of_In & [Hv Hok]%andb_prop). exists cp, latest, r. split; [apply Hin; by left|].
  split; [done|]. split; [done|]. split; [done|]. split; [done|]. split; [by apply String.eqb_eq|]. by destruct (VerifyArtifact r data) as [[]| |].
Qed.
Lemma checkSeedPacks_sound h h' :
  checkSeedPacks packDir h = (Ok (), h') →
  ∃ c, LoadCatalog = Ok c ∧ ∀ e data p, yaml_entry e = true →
    e ∈ order_by (λ a b : string * bool, str_le a.1 b.1) (map_to_list (dir_entries (th_files h) packDir)) →
    file_at (th_files h) (filepath_Join packDir [e.1]) = Ok data → LoadPack data = Ok p → owner_released c p data.
Proof.
  unfold checkSeedPacks. intros E. apply bind_ok in E as (c & h1 & [Ec ->]%pair_eq & E). apply bind_ok in E as (es & h2 & Ed%tree_call_ok & E).
  exists c. split; [done|]. injection Ed as Ed Ef. destruct (lookup_path _ _) as [[]|x|x]; try done. injection Ed as Ed. rewrite Ed, Ef. clear Ed Ef Ec.
  revert h2 E. induction es as [|e0 es IH]; intros h2 E e data p Hy; [by intros ?%not_elem_of_nil|]. cbn [check_owner_files] in E.
  destruct (yaml_entry e0) eqn:Ey; cbn [negb] in E.
  - apply bind_ok in E as (data0 & h3 & Er%tree_call_ok & E). apply bind_ok in E as (p0 & h4 & [El ->]%pair_eq & E).
    apply bind_ok in E as (matched & h5 & [Em ->]%pair_eq & E). destruct matched; [|done]. injection Er as Er Ef.
    intros [->|He]%elem_of_cons Hd Hl.
    + unfold file_at in Hd. assert (data0 = data) as -> by congruence. assert (p0 = p) as -> by congruence.
      by destruct (match_owner_ok c p data _ _ Em (λ cp Hcp, Hcp)).
    + rewrite Ef in Hd. by eapply (IH _ E).
  - intros [->|He]%elem_of_cons Hd Hl; [congruence|]. by eapply (IH _ E).
Qed.
End published.

(** ** A repository that is published *)

#[local] Existing Instance release_codec.

#[local] Instance Release_eq_dec : EqDecision Release.
Proof. solve_decision. Defined.
#[local] Instance CatalogPack_eq_dec : EqDecision CatalogPack.
Proof. solve_decision. Defined.
#[local] Instance Catalog_eq_dec : EqDecision Catalog.
Proof. solve_decision. Defined.

(** The catalogue of the prepared repository. *)
Definition published_release (version : string) : Release :=
  catalog_release "demo" (pack_yaml version) (PackSamples.sample_pack "demo" version) {| om_Packs := ∅; om_Releases := ∅ |}.
Definition published_catalog : Catalog := {| c_Version := 1; c_Generated := ""; c_envelope := ""; c_Packs := [{|
  cp_Name := "demo"; cp_Description := ""; cp_Publisher := ""; cp_Category := "other"; cp_Format := "*"; cp_Vendor := ""; cp_Product := "";
  cp_Models := []; cp_Tags := ["other"; "*"]; Releases := published_release <$> ["1.1.1"; "1.0.0"; "1.1.0"; "2.0.0"] |}] |}.

#[local, refine] Instance publish_catalog_env : CatalogEnv := {|
  ed25519_Verify key payload sig := payload =s sig;
  Unmarshal_Envelope s := match Split s "@" with [k; p; sg] => Some {| KeyID := k; Payload := p; Signature := sg |} | _ => None end;
  Unmarshal_Catalog s := if s =s "old" then Some released_catalog else if s =s "new" then Some published_catalog else None;
  catalog_time_Parse _ _ := None;
  sort_Slice A less l := @sort_Slice sample_catalog_env A less l |}.
Proof.
  - done.
  - intros A less l. apply sort_Slice_perm.
  - intros A less l. apply sort_Slice_sorted.
Defined.

Definition no_at (s : string) : bool := all_bytes (λ c, c <>b "@"%char) s.
#[local] Instance sample_publish : PublishEnv := {|
  Unmarshal_published _ := Some (Some ∅, ∅);
  Unmarshal_coverage _ := None;
  MarshalIndent_catalog c :=
    if bool_decide (c = released_catalog) then Ok "old" else if bool_decide (c = published_catalog) then Ok "new" else Err (errors_New "another catalogue");
  MarshalIndent_envelope e :=
    if no_at (KeyID e) && no_at (Payload e) && no_at (Signature e) then Ok (Join [KeyID e; Payload e; Signature e] "@") else Err (errors_New "at sign");
  ed25519_Sign key m := m;
  publish_now _ := "";
  packIndexTemplate ps := (Join (cp_Name <$> ps) " ", None);
  packVersionsTemplate p := (pp_Name p, None) |}.
#[local, refine] Instance sample_signing : SigningLaws := {| genuine_key _ := True; utf8_catalog _ := True |}.
Proof.
  - intros key m _. apply String.eqb_refl.
  - intros e s E _ _ _. cbn [MarshalIndent_envelope sample_publish] in E. destruct (no_at (KeyID e) && _ && _) eqn:En; [|done]. rewrite !andb_true_iff in En. destruct En as [[Hk Hp] Hs].
    assert (s = Join [KeyID e; Payload e; Signature e] "@") as -> by congruence. cbn [Unmarshal_Envelope publish_catalog_env].
    pose proof (Split_Join_chr [KeyID e; Payload e; Signature e] "@") as Hj. change (chr "@") with "@" in Hj. rewrite Hj; [by destruct e|done|by repeat constructor].
  - intros c s E _ _. unfold MarshalIndent_catalog, sample_publish in E.
    destruct (bool_decide (c = released_catalog)) eqn:E1; [apply bool_decide_eq_true in E1 as ->; by injection E as <-|].
    destruct (bool_decide (c = published_catalog)) eqn:E2; [apply bool_decide_eq_true in E2 as ->; by injection E as <-|done].
Defined.

(** A key that ends in the public key of the program. *)
Definition sample_private : string := of_bytes (replicate 32 "0"%char) +:+ default "" (publicKeys !! OwnerSigningKeyID ≫= base64_DecodeString).
Definition site_dir : tpath := repository ++ ["marketplace-site"].
Definition catalog_out : tpath := repository ++ ["internal"; "marketplace"; "catalog.json"].
(** The releases are prepared, and there is a signed catalogue. *)
Definition signed_before : string := match sign_catalog sample_private released_catalog with Ok s => s | _ => "" end.
Definition prepared_host : TreeHost :=
  {| th_files := <[catalog_out := NFile signed_before]> (th_files (prepare_demo repository_host).2); th_calls := 0 |}.
Definition publish_demo : Prog TreeHost unit :=
  publish (H4 := forward_order) repository repository_packs repository_metadata catalog_out site_dir (base64_EncodeToString sample_private) [].

Lemma well_named_ok t : forallb (λ kv : tpath * node, forallb plain_element kv.1) (map_to_list t) = true → well_named t.
Proof.
  rewrite forallb_forall. intros Hall q [n Hq]. apply (Hall (q, n)). by apply list_elem_of_In, elem_of_map_to_list.
Qed.

Example publish_demo_runs :
  let h' := (publish_demo prepared_host).2 in
  (publish_demo prepared_host).1 = Ok ()
  ∧ (λ v, th_files h' !! (site_dir ++ ["packs"; "demo"; v; "pack.yaml"])) <$> ["1.0.0"; "1.1.0"; "1.1.1"; "2.0.0"]
    = (λ v, Some (NFile (pack_yaml v))) <$> ["1.0.0"; "1.1.0"; "1.1.1"; "2.0.0"].
Proof. vm_compute. done. Qed.

Lemma publish_append_only_witness :
  ∃ h' c env, publish_demo prepared_host = (Ok (), h') ∧ site_holds catalog_out site_dir (th_files h') c env ∧ extends (c_Packs released_catalog) (c_Packs c)
    ∧ Verify env = Ok (with_envelope env c).
Proof.
  destruct (publish_demo prepared_host) as [r h'] eqn:E.
  assert (r = Ok ()) as -> by (change r with ((r, h').1); rewrite <- E; vm_compute; reflexivity).
  destruct (publish_append_only (H4 := forward_order) repository repository_packs repository_metadata catalog_out site_dir
    (base64_EncodeToString sample_private) [] prepared_host h') as (key & c & env & _ & _ & Hs & Hx & Hv).
  - split; vm_compute; reflexivity.
  - apply well_named_ok. vm_compute. reflexivity.
  - exact E.
  - exists h', c, env. split; [reflexivity|]. split; [exact Hs|]. split.
    + apply (Hx signed_before (with_envelope signed_before released_catalog)); vm_compute; reflexivity.
    + exact (Hv I I).
Defined.
