(* ===== verification/ApiCore.v ===== *)
(** * [internal/api/server.go]: the server, what it serves, and its answers

    A handler is a program over [Backend]: the pipeline with its database, the pack
    directory, the marketplace's files, the connections, and the server's own counters.  The
    pack files with the three files of the pack store ([Disk]) and the files of the
    marketplace ([TreeHost]) are two parts of one directory that share no file name.  The
    raw store is present, as in the program; the pipeline, the pack manager and the
    connection manager may be absent. *)

From S2P Require Import Prelude GoStrings GoNum GoJson GoHttp GoPath Model Pack Snapshot Connections.
From S2P Require Import FileTree Catalog Market.
From S2P Require Import World RawStore Pipeline PackStore.
From S2P Require Export Monad.

#[local] Open Scope monad_scope.

(** ** The server *)

(** [ConfigInfo], less what [NewServer] and [SetMarketplaceOptions] overwrite. *)
Record ConfigInfo := {
  ci_UIAddress : string; ci_SyslogUDP : string; ci_SyslogTCP : string; ci_SyslogTLS : string;
  ci_HTTPIngest : string; ci_InboxDir : string; ci_DBPath : string; ci_Workers : Z;
  ci_AirGapped : bool; ci_MarketplaceOnline : bool; ci_AdminToken : string }.

(** What stands in the embedded page's file system under a name. *)
Inductive dist_entry := DistFile (content : string) | DistDir.

Record Server := {
  sv_pipe : option Config;                     (* its pack manager is the server's *)
  sv_packManager : bool;
  sv_packsDir : option tpath;                  (* [None] for an empty name *)
  sv_connManager : bool;
  sv_registryURL : string;
  sv_cfgInfo : ConfigInfo;
  sv_version : string;
  sv_dist : option (string → option dist_entry);
  sv_tracked : bool;                           (* is an ingest tracker attached? *)
  sv_startTime : time;
  sv_bufferSize : Z;                           (* the pipeline's [BufferSize] *)
}.

(** [s.marketplace] *)
Definition marketplace `{MarketEnv} (s : Server) : LocalStore :=
  {| Dir := sv_packsDir s; RegistryURL := sv_registryURL s; Online := ci_MarketplaceOnline (sv_cfgInfo s) |}.

(** [SetMarketplaceOptions] *)
Definition SetMarketplaceOptions (online : bool) (registryURL : string) (s : Server) : Server :=
  let c := sv_cfgInfo s in
  {| sv_pipe := sv_pipe s; sv_packManager := sv_packManager s; sv_packsDir := sv_packsDir s;
     sv_connManager := sv_connManager s; sv_registryURL := registryURL;
     sv_cfgInfo := {| ci_UIAddress := ci_UIAddress c; ci_SyslogUDP := ci_SyslogUDP c; ci_SyslogTCP := ci_SyslogTCP c;
                      ci_SyslogTLS := ci_SyslogTLS c; ci_HTTPIngest := ci_HTTPIngest c; ci_InboxDir := ci_InboxDir c;
                      ci_DBPath := ci_DBPath c; ci_Workers := ci_Workers c; ci_AirGapped := negb online;
                      ci_MarketplaceOnline := online; ci_AdminToken := ci_AdminToken c |};
     sv_version := sv_version s; sv_dist := sv_dist s; sv_tracked := sv_tracked s; sv_startTime := sv_startTime s;
     sv_bufferSize := sv_bufferSize s |}.

(** [statsMu] guards these. *)
Record EpsState := { lastAccepted : Z; lastTime : time; recentEPS : f64 }.

Record Backend := {
  be_pipe : PState;
  be_packs : Host PackStore.Manager;
  be_tree : TreeHost;
  be_site : Site;
  be_eps : EpsState;
  be_ticks : nat;
}.

(** What the server reads of its process and of the files that the model leaves out. *)
Class ApiEnv := {
  api_now : nat → time;
  WORM_ADMIN_TOKEN : string;                   (* os.Getenv *)
  AdapterErrors : nat → list (string * string);
  MemAlloc : nat → Z;
  NumGoroutine : nat → Z;
  other_file : string → res string;            (* a file reached through a name with separators *)
  cwd_manifest : res PackManifest;             (* the manifest below the working directory *)
  yaml_Marshal_pack : ParserPack → res string;
  fmt_error : error → string;                  (* [err.Error()], where it is stored *)
  (* [url.Parse] of an origin: user, path, query and fragment are empty; scheme, host name, host *)
  origin_Parse : string → option (bool * string * string * string);
}.

(** ** Programs over a part of the backend *)

Abbreviation H := (Prog Backend).

Definition set_pipe (b : Backend) (p : PState) : Backend :=
  {| be_pipe := p; be_packs := be_packs b; be_tree := be_tree b; be_site := be_site b; be_eps := be_eps b; be_ticks := be_ticks b |}.
Definition set_packs (b : Backend) (h : Host PackStore.Manager) : Backend :=
  {| be_pipe := be_pipe b; be_packs := h; be_tree := be_tree b; be_site := be_site b; be_eps := be_eps b; be_ticks := be_ticks b |}.
Definition set_tree (b : Backend) (t : TreeHost) : Backend :=
  {| be_pipe := be_pipe b; be_packs := be_packs b; be_tree := t; be_site := be_site b; be_eps := be_eps b; be_ticks := be_ticks b |}.
Definition set_site (b : Backend) (s : Site) : Backend :=
  {| be_pipe := be_pipe b; be_packs := be_packs b; be_tree := be_tree b; be_site := s; be_eps := be_eps b; be_ticks := be_ticks b |}.
Definition set_eps (b : Backend) (e : EpsState) : Backend :=
  {| be_pipe := be_pipe b; be_packs := be_packs b; be_tree := be_tree b; be_site := be_site b; be_eps := e; be_ticks := be_ticks b |}.

Definition on_store {A} (m : M A) : H A := λ b,
  let '(r, w) := m (ps_world (be_pipe b)) in (r, set_pipe b (at_world (be_pipe b) w)).
Definition on_packs {A} (m : Prog (Host PackStore.Manager) A) : H A := λ b, let '(r, h) := m (be_packs b) in (r, set_packs b h).
Definition on_tree {A} (m : Prog TreeHost A) : H A := λ b, let '(r, t) := m (be_tree b) in (r, set_tree b t).
Definition on_site {A} (m : Prog Site A) : H A := λ b, let '(r, s) := m (be_site b) in (r, set_site b s).

Definition api_tick : H nat := λ b,
  (Ok (be_ticks b),
   {| be_pipe := be_pipe b; be_packs := be_packs b; be_tree := be_tree b; be_site := be_site b; be_eps := be_eps b;
      be_ticks := S (be_ticks b) |}).
Definition time_Now `{ApiEnv} : H time := n <- api_tick ;; ret (api_now n).

(** The active snapshot of the pack manager. *)
Definition active_snapshot : H (option Snapshot) := on_packs Active.

(** ** Answers *)

(** The Go values that are encoded as JSON; an object is the list of its members, and the text
    of an error is the error. *)
Inductive data :=
| DNull | DBool (b : bool) | DInt (z : Z) | DStr (s : string) | DFloat (f : f64) | DTime (t : time) | DErr (e : error)
| DValue (v : value)
| DPayload (s : string)                        (* the bytes of a raw record, or their hexadecimal digits *)
| DList (l : list data) | DObj (l : list (string * data))
| DEvent (ev : NormalizedEvent) | DReport (r : VerificationReport) | DQuarantine (q : QuarantineEntry)
| DSteps (l : list ProcessingStep) | DStatus (s : RawStatus) | DRule (m : MatchRule)
| DPack (p : CatalogPack) | DRelease (r : Release) | DInstall (i : PackInstall) | DConn (c : Connection).

Inductive body := BJson (d : data) | BText (s : string) | BNothing.

Record Response := { rs_Code : Z; rs_ContentType : string; rs_Body : body }.

Definition jsonResponse (code : Z) (d : data) : Response :=
  {| rs_Code := code; rs_ContentType := "application/json"; rs_Body := BJson d |}.
Definition jsonError (code : Z) (msg : error) : Response := jsonResponse code (DObj [("error", DErr msg)]).
Definition reply (code : Z) (members : list (string * data)) : H Response := ret (jsonResponse code (DObj members)).
Definition reject (code : Z) (msg : string) : H Response := ret (jsonError code (errors_New msg)).

(** [prefix + err.Error()], [err.Error()] *)
Definition refuse_with (code : Z) (prefix : string) (e : error) : H Response :=
  ret (jsonError code (Errorf (prefix +:+ "%v") [AVErr e])).
Definition refuse_err (code : Z) (e : error) : H Response := ret (jsonError code e).

(** [x, err := m(); if err != nil { bad; return }] *)
Definition checked {A} (m : H A) (bad : error → H Response) (k : A → H Response) : H Response :=
  r <- try m ;; match r with Ok a => k a | Err e => bad e | Panic p => mcall (Panic p) end.
Notation "x <- m 'orelse' bad ;; k" := (checked m bad (λ x, k))
  (at level 100, m at next level, bad at next level, right associativity) : monad_scope.

(** ** Paging *)

(** [strconv.Atoi] of a parameter; [None] where it is absent or no number. *)
Definition query_int (r : Request) (name : string) : option Z := Atoi (query_Get (query_of r) name).

Definition page_limit (r : Request) : Z :=
  match query_int r "limit" with
  | Some l => if 0 <? l then if 200 <? l then 200 else l else 50
  | None => 50
  end.
Definition page_offset (r : Request) : Z :=
  match query_int r "offset" with Some o => if 0 <=? o then o else 0 | None => 0 end.
