(* ===== verification/ApiStore.v ===== *)
(** * [internal/api/server.go]: the handlers over the raw store, the pipeline and the connections *)

From S2P Require Import Connections FileTree Catalog Market PackStore.
From S2P Require Import Prelude GoStrings GoNum GoIO GoTime GoJson GoHttp GoPath Model Extract Snapshot World RawStore Outbox Pipeline.
From S2P Require Export Monad ApiCore.

#[local] Open Scope monad_scope.

Section api.
Context (fmt_float : f64 → string) (time_Parse : string → string → option gtime) (currentYear : Z).
Context `{GoPlatform} `{MapOrder} `{Env} `{ApiEnv} (s : Server).

(** The pipeline with the snapshot that is active now. *)
Definition pipe_config (cfg : Config) (snap : option Snapshot) : Config :=
  {| cfg_registry := cfg_registry cfg; cfg_snapshot := if sv_packManager s then snap else None; cfg_durable := cfg_durable cfg |}.

Definition with_pipe (k : Config → H Response) (none : H Response) : H Response :=
  match sv_pipe s with
  | None => none
  | Some cfg => snap <- active_snapshot ;; k (pipe_config cfg snap)
  end.

(** ** Health and statistics *)

(** [Duration.Seconds()] *)
Definition Seconds (d : Z) : f64 :=
  SFadd prec emax (f64_of_Z (Z.quot d second)) (f64_div (f64_of_Z (Z.rem d second)) (f64_of_Z second)).

Definition is_err {A} (r : res A) : bool := match r with Err _ => true | _ => false end.

Definition handleHealth : H Response :=
  now <- time_Now ;;
  p <- try (on_store Ping) ;;
  n <- api_tick ;;
  let adapterErrors := if sv_tracked s then AdapterErrors n else [] in
  let degraded := is_err p || negb (match adapterErrors with [] => true | _ => false end) in
  reply 200 [("status", DStr (if degraded then "degraded" else "ok")); ("version", DStr (sv_version s));
             ("air_gapped", DBool false); ("marketplace_online", DBool (ci_MarketplaceOnline (sv_cfgInfo s)));
             ("uptime_seconds", DFloat (Seconds (now - sv_startTime s)));
             ("sqlite_status", match p with Err e => DErr (Errorf "unreachable: %v" [AVErr e]) | _ => DStr "connected" end);
             ("adapter_errors", DObj ((λ kv, (kv.1, DStr kv.2)) <$> adapterErrors))].

(** The rate is measured again when a second has passed. *)
Definition measure_eps (now : time) (accepted_ : Z) : H f64 := λ b,
  let e := be_eps b in
  let elapsed := Seconds (now - lastTime e) in
  if f64_leb (f64_of_Z 1) elapsed then
    let rate := f64_div (f64_of_Z (accepted_ - lastAccepted e)) elapsed in
    (Ok rate, set_eps b {| lastAccepted := accepted_; lastTime := now; recentEPS := rate |})
  else (Ok (recentEPS e), b).

Definition no_stats : LossAccountingStats :=
  {| Accepted := 0; Normalized := 0; Quarantined := 0; Pending := 0; Delivered := 0; DeliveryPending := 0; DeliveryFailed := 0 |}.

(** [Pipeline.UnmappedCount]: an error reads as zero. *)
Definition UnmappedCount : H Z := r <- try (on_store CountUnmapped) ;; ret (or_zero r).

Definition zero_float : f64 := f64_of_Z 0.
Definition pipe_load (stats : LossAccountingStats) : H (f64 * f64) :=
  unmapped <- (if 0 <? Normalized stats then
                 n <- UnmappedCount ;; ret (f64_div (f64_of_Z n) (f64_of_Z (Normalized stats)))
               else ret zero_float) ;;
  λ b,
    let depth := Z.of_nat (length (ps_inbound (be_pipe b))) in
    let capacity := buffer_size (sv_bufferSize s) in
    (Ok (unmapped, if 0 <? capacity then f64_div (f64_mul (f64_of_Z 100) (f64_of_Z depth)) (f64_of_Z capacity) else zero_float), b).

(** The second result of [VerifyInvariant]. *)
Definition audit_reason (st : LossAccountingStats) : error :=
  let counts := [AInt (Accepted st); AInt (Normalized st); AInt (Quarantined st); AInt (Pending st)] in
  if VerifyInvariant st then
    Errorf "invariant satisfied: accepted (%d) == normalized (%d) + quarantined (%d) + pending (%d)" counts
  else
    Errorf "loss accounting invariant VIOLATED: accepted (%d) != normalized (%d) + quarantined (%d) + pending (%d) [sum=%d]"
      (counts ++ [AInt (Normalized st + Quarantined st + Pending st)]).

Definition handleStats : H Response :=
  stats <- (match sv_pipe s with Some cfg => on_store (Stats cfg) | None => ret no_stats end) ;;
  now <- time_Now ;;
  eps <- measure_eps now (Accepted stats) ;;
  n <- api_tick ;;
  load <- (match sv_pipe s with Some _ => pipe_load stats | None => ret (zero_float, zero_float) end) ;;
  n' <- api_tick ;;
  later <- time_Now ;;
  reply 200 [("eps", DFloat eps); ("accepted", DInt (Accepted stats)); ("normalized", DInt (Normalized stats));
             ("quarantined", DInt (Quarantined stats)); ("pending", DInt (Pending stats)); ("delivered", DInt (Delivered stats));
             ("loss_audit", DObj [("valid", DBool (VerifyInvariant stats)); ("reason", DErr (audit_reason stats))]);
             ("buffer_fill_pct", DFloat load.2); ("unmapped_ratio", DFloat load.1);
             ("delivery_pending", DInt (DeliveryPending stats)); ("delivery_failed", DInt (DeliveryFailed stats));
             ("memory_bytes", DInt (MemAlloc n)); ("goroutines", DInt (NumGoroutine n'));
             ("uptime_seconds", DFloat (Seconds (later - sv_startTime s)))].

(** ** Events *)

(** The identifier of the path, which the router leaves non-empty. *)
Definition with_id (what id : string) (k : H Response) : H Response :=
  if id =s "" then reject 400 ("missing " +:+ what) else k.

Definition handleListEvents (r : Request) : H Response :=
  let q := query_of r in
  let search := if query_Get q "q" =s "" then query_Get q "search" else query_Get q "q" in
  found <- on_store (ListNormalized (query_Get q "category") (query_Get q "severity") search (page_limit r) (page_offset r))
    orelse refuse_with 500 "failed to query events: " ;;
  reply 200 [("events", DList (DEvent <$> found.1)); ("total", DInt found.2);
             ("limit", DInt (page_limit r)); ("offset", DInt (page_offset r))].

Definition handleGetEvent (id : string) : H Response :=
  with_id "event id" id (
    evt <- on_store (GetNormalizedByID id) orelse refuse_err 404 ;;
    ret (jsonResponse 200 (DEvent evt))).

(** [raw_id], [raw_sha256], ... as [handleGetRaw] and [handleEventTrace] show a raw record. *)
Definition raw_members (raw : RawEvent) : list (string * data) :=
  [("raw_sha256", DStr (re_RawSHA256 raw)); ("raw_payload", DPayload (re_Payload raw));
   ("raw_hex", DPayload (hex_EncodeToString (re_Payload raw))); ("byte_count", DInt (re_ByteCount raw));
   ("transport", DStr (re_Transport raw)); ("source_ip", DStr (re_SourceIP raw)); ("received_at", DTime (re_ReceivedAt raw))].

Definition handleEventTrace (id : string) : H Response :=
  with_id "event id" id (
    evt <- on_store (GetNormalizedByID id) orelse refuse_with 404 "normalized event not found: " ;;
    raw <- on_store (Retrieve (we_RawID (Worm evt))) orelse refuse_with 404 "raw event not found: " ;;
    reply 200 ([("event_id", DStr (EventID (Worm evt))); ("raw_id", DStr (we_RawID (Worm evt)))] ++ raw_members raw
               ++ [("processing_history", DSteps (ProcessingHistory (Worm evt)));
                   ("unmapped", match OCSF evt !! "unmapped" with Some u => DValue u | None => DNull end);
                   ("ocsf", DValue (VMap (OCSF evt)))])).

Definition handleGetRaw (id : string) : H Response :=
  with_id "raw id" id (
    raw <- on_store (Retrieve id) orelse refuse_err 404 ;;
    reply 200 (("raw_id", DStr (re_RawID raw)) :: raw_members raw ++ [("status", DStatus (re_Status raw))])).

(** The stored hash is read again, after the comparison. *)
Definition handleVerifyRaw (id : string) : H Response :=
  with_id "raw id" id (
    v <- on_store (Verify id) orelse refuse_err 404 ;;
    raw <- try (on_store (Retrieve id)) ;;
    reply 200 [("raw_id", DStr id); ("matches", DBool v.1);
               ("stored_sha256", DStr (match raw with Ok row => re_RawSHA256 row | _ => "" end)); ("computed_sha256", DStr v.2);
               ("status", DStr (if v.1 then "PASSED" else "TAMPER DETECTED"))]).

Definition handleVerifyEvent (id : string) : H Response :=
  with_id "event id" id (
    report <- on_store (VerifyNormalized id) orelse refuse_err 404 ;;
    ret (jsonResponse 200 (DReport report))).

(** ** The quarantine *)

Definition handleListQuarantine (r : Request) : H Response :=
  found <- on_store (ListQuarantinePaged (page_limit r) (page_offset r)) orelse refuse_with 500 "failed to query quarantine: " ;;
  reply 200 [("quarantine", DList (DQuarantine <$> found.1)); ("total", DInt found.2);
             ("limit", DInt (page_limit r)); ("offset", DInt (page_offset r))].

Definition pipe_missing : H Response := reject 500 "pipeline not available for replay".

Definition handleReplayQuarantine (qID : string) : H Response :=
  with_id "quarantine id" qID (with_pipe (λ cfg,
    entry <- on_store (GetQuarantineByID qID) orelse refuse_with 404 "quarantine entry not found: " ;;
    if negb (qe_ReplayEligible entry) then reject 400 "quarantine entry is marked ineligible for replay"
    else
      norm <- on_store (Replay fmt_float time_Parse currentYear cfg qID) orelse refuse_with 400 "replay failed: " ;;
      reply 200 [("status", DStr "replayed"); ("quarantine_id", DStr qID); ("event", DEvent norm)])
    pipe_missing).

(** What became of one entry. *)
Record replayDetail := { rd_QuarantineID : string; rd_Status : string; rd_EventID : string; rd_Error : option error }.
Definition detail_data (d : replayDetail) : data :=
  DObj ([("quarantine_id", DStr (rd_QuarantineID d)); ("status", DStr (rd_Status d))]
        ++ (if rd_EventID d =s "" then [] else [("event_id", DStr (rd_EventID d))])
        ++ match rd_Error d with Some e => [("error", DErr e)] | None => [] end).

Record tally := { ty_replayed : Z; ty_failed : Z; ty_details : list replayDetail }.

Definition replay_detail (id : string) (r : res NormalizedEvent) : replayDetail :=
  match r with
  | Ok norm => {| rd_QuarantineID := id; rd_Status := "replayed"; rd_EventID := EventID (Worm norm); rd_Error := None |}
  | Err e => {| rd_QuarantineID := id; rd_Status := "failed"; rd_EventID := ""; rd_Error := Some e |}
  | Panic _ => {| rd_QuarantineID := id; rd_Status := ""; rd_EventID := ""; rd_Error := None |}
  end.
Definition count_replay (id : string) (r : res NormalizedEvent) (t : tally) : tally :=
  {| ty_replayed := ty_replayed t + (if is_ok r then 1 else 0); ty_failed := ty_failed t + (if is_err r then 1 else 0);
     ty_details := ty_details t ++ [replay_detail id r] |}.

Fixpoint replay_all (cfg : Config) (ids : list string) (t : tally) : H tally :=
  match ids with
  | [] => ret t
  | id :: ids' =>
      r <- try (on_store (Replay fmt_float time_Parse currentYear cfg id)) ;;
      replay_all cfg ids' (count_replay id r t)
  end.

Definition handleReplayAllQuarantine (r : Request) : H Response :=
  with_pipe (λ cfg,
    let force := query_Get (query_of r) "force" =s "true" in
    ids <- on_store (GetReplayPendingIDs force) orelse refuse_with 500 "failed to query pending quarantine entries: " ;;
    t <- replay_all cfg ids {| ty_replayed := 0; ty_failed := 0; ty_details := [] |} ;;
    reply 200 [("total", DInt (Z.of_nat (length ids))); ("replayed", DInt (ty_replayed t)); ("failed", DInt (ty_failed t));
               ("details", match ty_details t with [] => DNull | l => DList (detail_data <$> l) end)])
    pipe_missing.

(** ** Sources, the configuration *)

Definition handleListSources : H Response :=
  sources <- on_store ListSources orelse refuse_with 500 "failed to query sources: " ;;
  reply 200 [("sources", DList ((λ c, DObj [("category", DStr (sc_category c)); ("source_id", DStr (sc_source_id c));
                                            ("events", DInt (sc_events c)); ("last_seen", DStr (sc_last_seen c))]) <$> sources))].

(** The administrator's token is not part of the answer. *)
Definition handleConfig : H Response :=
  let c := sv_cfgInfo s in
  reply 200 ([("ui_address", DStr (ci_UIAddress c)); ("syslog_udp", DStr (ci_SyslogUDP c)); ("syslog_tcp", DStr (ci_SyslogTCP c))]
             ++ (if ci_SyslogTLS c =s "" then [] else [("syslog_tls", DStr (ci_SyslogTLS c))])
             ++ [("http_ingest", DStr (ci_HTTPIngest c)); ("inbox_dir", DStr (ci_InboxDir c)); ("db_path", DStr (ci_DBPath c));
                 ("workers", DInt (ci_Workers c)); ("air_gapped", DBool (ci_AirGapped c));
                 ("marketplace_online", DBool (ci_MarketplaceOnline c)); ("version", DStr (sv_version s))]).
End api.

(** * The handlers over the connections *)


Section api.
Context `{ConnEnv} `{Probes} (s : Server).

Definition conn_missing (code : Z) : H Response := reject code "connections manager not configured".

Definition summary_data (c : ConnectionSummary) : data :=
  DObj [("name", DStr (su_Name c)); ("version", DStr (su_Version c)); ("kind", DStr (su_Kind c)); ("type", DStr (su_Type c));
        ("enabled", DBool (su_Enabled c)); ("target", DStr (su_Target c))].

Definition handleListConnections : H Response :=
  if sv_connManager s then
    l <- on_site ListSummaries ;; reply 200 [("connections", DList (summary_data <$> l))]
  else reply 200 [("connections", DList [])].

Definition yaml_type : string := "application/x-yaml; charset=utf-8".
Definition reply_yaml (text : string) : H Response :=
  ret {| rs_Code := 200; rs_ContentType := yaml_type; rs_Body := BText text |}.

Definition handleGetConnection (name : string) : H Response :=
  if sv_connManager s then
    raw <- on_site (GetRawYAML name) orelse refuse_err 404 ;; reply_yaml raw
  else conn_missing 404.

Definition yaml_request : list (string * kind) := [("yaml_content", KStr)].
Definition apply_request : list (string * kind) := [("filename", KStr); ("yaml_content", KStr)].
Definition bad_body : error → H Response := refuse_with 400 "invalid json body: ".

Definition handleValidateConnection (r : Request) : H Response :=
  req <- mcall (decode_struct yaml_request r) orelse bad_body ;;
  conn <- mcall (LoadConnection (str_field "yaml_content" req))
    orelse (λ err, reply 200 [("valid", DBool false); ("error", DErr err)]) ;;
  reply 200 [("valid", DBool true); ("name", DStr (cn_Name conn)); ("version", DStr (cn_Version conn));
             ("type", DStr (cs_Type (cn_Spec conn))); ("connection", DConn conn)].

Definition handleTestConnection (r : Request) : H Response :=
  req <- mcall (decode_struct yaml_request r) orelse bad_body ;;
  conn <- mcall (LoadConnection (str_field "yaml_content" req))
    orelse (λ err, reply 200 [("status", DStr "failed"); ("success", DBool false); ("target", DStr "spec validation");
                              ("error", DErr err); ("message", DErr err)]) ;;
  let target := if su_Target (Summary conn) =s "" then cn_Name conn else su_Target (Summary conn) in
  result <- mcall (TestConnectivityDetailed conn)
    orelse (λ err, reply 200 [("status", DStr "failed"); ("success", DBool false); ("target", DStr target);
                              ("level", DStr "syntax_only"); ("error", DErr err); ("message", DErr err)]) ;;
  reply 200 [("status", DStr "ok"); ("success", DBool true); ("target", DStr target); ("level", DStr (cr_Level result));
             ("message", DStr (cr_Message result))].

(** [fn], where the request names no file: that of the connection, or one of its name. *)
Definition connection_file (content : string) (k : string → H Response) : H Response :=
  parsed <- mcall (LoadConnection content) orelse refuse_with 400 "invalid connection yaml: " ;;
  fn <- try (on_site (Filename (cn_Name parsed))) ;;
  match fn with
  | Ok fn => k fn
  | Err _ => k (cn_Name parsed +:+ ".yaml")
  | Panic p => mcall (Panic p)
  end.

Definition handleApplyConnection (r : Request) : H Response :=
  if sv_connManager s then
    req <- mcall (decode_struct apply_request r) orelse bad_body ;;
    let content := str_field "yaml_content" req in
    if content =s "" then reject 400 "yaml_content is required"
    else
      let apply fn :=
        applied <- on_site (ApplyFile fn content) orelse refuse_with 400 "failed to apply connection: " ;;
        reply 200 [("status", DStr "applied"); ("name", DStr (cn_Name applied)); ("version", DStr (cn_Version applied));
                   ("connection", DConn applied)] in
      if str_field "filename" req =s "" then connection_file content apply else apply (str_field "filename" req)
  else conn_missing 400.

Definition handleRollbackConnection : H Response :=
  if sv_connManager s then
    _ <- on_site Connections.Rollback orelse refuse_err 400 ;; reply 200 [("status", DStr "rolled_back")]
  else conn_missing 400.
End api.
