(* ===== verification/ApiPacks.v ===== *)
(** * [internal/api/server.go]: the handlers over the parser packs and the marketplace *)

From S2P Require Import Connections FileTree Catalog Market.
From S2P Require Import Prelude GoStrings GoNum GoTime GoIO GoPath GoJson JsonText GoHttp Model Decoder Registry Csv Json Xml Decoders.
From S2P Require Import Pack Extract Snapshot Disk PackStore Ocsf.
From S2P Require Export Monad ApiCore ApiStore.

#[local] Open Scope monad_scope.

(** A file is there, or its name is taken; a link that leads nowhere is not. *)
Definition Stat `{FsEnv} {X} (p : path) : Prog (Host X) unit := fs_call (λ d,
  (match at_path p d with Some (ELink None) | None => Err (errors_New ErrNotExist) | Some _ => Ok () end, d)).

(** [filepath.Rel] of two clean absolute paths; only whether it leads upwards is looked at. *)
Definition filepath_Rel (base target : tpath) : string :=
  match below base target with Some [] => "." | Some l => Join l "/" | None => ".." end.

Section api.
Context (fmt_float : f64 → string) (time_Parse : string → string → option gtime) (currentYear : Z).
Context `{GoPlatform} `{MapOrder} `{XmlEnv} `{FsEnv} `{PackCodec} `{ApiEnv} (s : Server).

(** ** Files of the pack directory *)

(** A name that is not that of a file of the directory: a path, or [.marketplace]. *)
Definition elsewhere (filename : string) : bool := negb (plain_element filename) || (filename =s ".marketplace").

(** [os.ReadFile(filepath.Join(s.packsDir, filename))] *)
Definition read_pack_file (filename : string) : H string :=
  if elsewhere filename then mcall (other_file filename)
  else match sv_packsDir s with
       | Some _ => on_packs (Disk.ReadFile (pack_path filename))
       | None => mcall (other_file filename)
       end.
Definition stat_pack_file (filename : string) : H unit :=
  if elsewhere filename then mcall (_ ← other_file filename; Ok ())
  else match sv_packsDir s with
       | Some _ => on_packs (Stat (pack_path filename))
       | None => mcall (_ ← other_file filename; Ok ())
       end.

(** [packs.ReadManifest(s.packsDir)] *)
Definition read_manifest : H PackManifest :=
  match sv_packsDir s with Some _ => on_packs ReadManifest | None => mcall cwd_manifest end.

Definition zero_install : PackInstall :=
  {| pi_Name := ""; pi_Filename := ""; pi_Version := ""; pi_Digest := ""; pi_Origin := ""; pi_Pinned := false |}.
(** [manifest.Entries[name]]: the zero value where there is none. *)
Definition entry_of (m : PackManifest) (name : string) : PackInstall := default zero_install (Entries m !! name).

(** The active snapshot, where there is a manager with one. *)
Definition with_active (k : Snapshot → H Response) (none : H Response) : H Response :=
  if sv_packManager s then
    snap <- active_snapshot ;;
    match snap with Some snap => k snap | None => none end
  else none.

(** ** The list of packs *)

(** Has the file changed since it was installed, or gone? *)
Definition file_modified (entry : PackInstall) : H bool :=
  data <- try (read_pack_file (pi_Filename entry)) ;;
  ret (match data with Ok data => sha256_hex data <>s pi_Digest entry | _ => true end).

Definition pack_summary (x : ParserPack * PackInstall * bool) : data :=
  let '(p, entry, modified) := x in
  let optional k v := if v =s "" then [] else [(k, DStr v)] in
  DObj ([("name", DStr (mName (Metadata p))); ("version", DStr (mVersion (Metadata p))); ("description", DStr (Description (Metadata p)));
         ("author", DStr (Author (Metadata p))); ("source_category", DStr (sSourceCategory (Spec p))); ("format", DStr (sFormat (Spec p)));
         ("match", DRule (sMatch (Spec p))); ("field_count", DInt (Z.of_nat (size (sFields (Spec p)))))]
        ++ optional "origin" (pi_Origin entry) ++ (if pi_Pinned entry then [("pinned", DBool true)] else [])
        ++ optional "digest" (pi_Digest entry) ++ optional "filename" (pi_Filename entry)
        ++ (if modified then [("modified", DBool true)] else [])).

(** Each pack with its entry, and whether its file is another. *)
Fixpoint pack_states (m : PackManifest) (l : list ParserPack) : H (list (ParserPack * PackInstall * bool)) :=
  match l with
  | [] => ret []
  | p :: l' =>
      let entry := entry_of m (pack_name p) in
      modified <- (if pi_Filename entry =s "" then ret false else file_modified entry) ;;
      rest <- pack_states m l' ;;
      ret ((p, entry, modified) :: rest)
  end.

Definition handleListPacks : H Response :=
  with_active (λ snap,
    manifest <- read_manifest orelse refuse_with 500 "installed pack manifest unavailable: " ;;
    states <- pack_states manifest (ListPacks snap) ;;
    reply 200 [("version", DStr (snap_version snap)); ("packs", DList (pack_summary <$> states))])
    (reply 200 [("version", DStr "none"); ("packs", DList [])]).

(** ** One pack *)

(** A name with separators or two dots in a row. *)
Definition unsafe_name (name : string) : bool := ContainsAny name "/\" || Contains name "..".

(** Without a directory, paths lead from the working directory, here the root. *)
Definition base_dir : tpath := default [] (sv_packsDir s).
(** The path of a name below the directory, as long as it stays there. *)
Definition inside (name : string) : bool := negb (HasPrefix (filepath_Rel base_dir (filepath_Join base_dir [name])) "..").

Definition pack_not_found (name : string) : H Response := ret (jsonError 404 (Errorf "pack %q not found" [AStr name])).

(** The name of the file that is read: with the suffix, if there is such a file. *)
Definition chosen_file (name : string) : H string :=
  st <- try (stat_pack_file (name +:+ ".yaml")) ;;
  match st with
  | Ok _ => ret (name +:+ ".yaml")
  | _ => ret (if inside name then name else name +:+ ".yaml")
  end.

Definition handleGetPack (name : string) : H Response :=
  if name =s "" then reject 400 "missing pack name"
  else if unsafe_name name then reject 400 "invalid pack name: path traversal characters detected"
  else if negb (inside (name +:+ ".yaml")) then reject 400 "path traversal blocked"
  else
    file <- chosen_file name ;;
    data <- try (read_pack_file file) ;;
    match data with
    | Ok data => reply_yaml data
    | _ =>
        with_active (λ snap,
          match GetPack snap name with
          | None => pack_not_found name
          | Some pack => text <- mcall (yaml_Marshal_pack pack) orelse refuse_with 500 "failed to format pack: " ;; reply_yaml text
          end)
          (pack_not_found name)
    end.

(** ** Validation *)

Definition validate_request : list (string * kind) := [("yaml_content", KStr); ("sample_log", KStr)].

Definition dynamic (m : fields) : data := DValue (VMap m).

(** What the pack makes of the sample's first record. *)
Definition sample_members (pack : ParserPack) (sample : string) : res (list (string * data)) :=
  match (DetectAndDecode default_registry sample).2 with
  | Panic p => Panic p
  | Err e => Ok [("match", DBool false); ("match_error", DErr (Errorf "decoder error: %v" [AVErr e]))]
  | Ok [] => Ok [("match", DBool false); ("match_error", DStr "no decoded records from sample log")]
  | Ok (rec :: _) =>
      if negb (Matches fmt_float pack rec) then Ok [("match", DBool false)]
      else
        match ExtractAndConvert fmt_float time_Parse currentYear pack rec with
        | Panic p => Panic p
        | Err e => Ok [("match", DBool true); ("extraction_error", DErr e)]
        | Ok (extracted, unmapped, warnings) =>
            Ok [("match", DBool true); ("extracted_fields", dynamic extracted); ("unmapped_fields", dynamic unmapped);
                ("warnings", DList (DErr <$> warnings))]
        end
  end.

Definition handleValidatePack (r : Request) : H Response :=
  req <- mcall (decode_struct validate_request r) orelse bad_body ;;
  if str_field "yaml_content" req =s "" then reject 400 "yaml_content is required"
  else
    pack <- mcall (LoadPack (str_field "yaml_content" req))
      orelse (λ err, reply 200 [("valid", DBool false); ("error", DErr err)]) ;;
    sample <- mcall (if str_field "sample_log" req =s "" then Ok [] else sample_members pack (str_field "sample_log" req)) ;;
    reply 200 ([("valid", DBool true); ("name", DStr (mName (Metadata pack))); ("version", DStr (mVersion (Metadata pack)));
                ("source_category", DStr (sSourceCategory (Spec pack))); ("format", DStr (sFormat (Spec pack)))] ++ sample).

(** ** Activation and rollback *)

Definition activate_request : list (string * kind) := [("yaml_content", KStr); ("filename", KStr)].

(** Without a directory, the snapshot with the pack added. *)
Definition activate_in_memory (newPack : ParserPack) (k : H Response) : H Response :=
  active <- active_snapshot ;;
  match active with
  | None => reject 503 "active parser pack snapshot not configured"
  | Some active =>
      now <- time_Now ;;
      snap <- mcall (NewSnapshot sha256_hex ("snap-" +:+ Itoa now) (Some <$> (ListPacks active ++ [newPack])))
        orelse refuse_with 400 "failed to activate snapshot: " ;;
      _ <- try (on_packs (Activate (Some snap))) ;;
      k
  end.

Definition handleActivatePack (r : Request) : H Response :=
  if negb (sv_packManager s) then reject 503 "parser pack manager not configured"
  else
    req <- mcall (decode_struct activate_request r) orelse bad_body ;;
    let content := str_field "yaml_content" req in
    if content =s "" then reject 400 "yaml_content is required"
    else
      newPack <- mcall (LoadPack content) orelse refuse_with 400 "parser pack validation failed: " ;;
      let fn := if str_field "filename" req =s "" then mName (Metadata newPack) +:+ ".yaml" else str_field "filename" req in
      let activated :=
        reply 200 [("status", DStr "activated"); ("name", DStr (mName (Metadata newPack))); ("version", DStr (mVersion (Metadata newPack)))] in
      match sv_packsDir s with
      | Some _ => _ <- on_packs (ApplyPackFile fn content) orelse refuse_with 400 "failed to apply pack: " ;; activated
      | None => activate_in_memory newPack activated
      end.

Definition name_request : list (string * kind) := [("name", KStr)].

(** [_ = json.NewDecoder(r.Body).Decode(&req)]: what could be read of a name. *)
Definition ignored_name (r : Request) : string :=
  match decode_value r with Ok j => str_field "name" j | _ => "" end.

Definition handleRollbackPack (r : Request) : H Response :=
  if negb (sv_packManager s) then reject 400 "pack manager not configured"
  else
    let name := ignored_name r in
    _ <- on_packs (if name =s "" then PackStore.Rollback else RollbackPack name) orelse refuse_err 400 ;;
    snap <- active_snapshot ;;
    match snap with
    | Some snap => reply 200 [("status", DStr "rolled_back"); ("version", DStr (snap_version snap))]
    | None => mcall (Panic "nil pointer dereference")
    end.
End api.

(** * The handlers over the marketplace *)


Section api.
Context `{MapOrder} `{FsEnv} `{TreeEnv} `{SemVer} `{CatalogEnv} `{PackCodec} `{MarketEnv} `{ApiEnv} (s : Server).

Definition normalizeSemver (v : string) : string :=
  let v := if HasPrefix v "v" then v else "v" +:+ v in
  if semver_IsValid v then v else "v999999.0.0".

Definition pack_api : string := "worm.io/v1".
Definition read_catalog : H Catalog := on_tree (ReadCatalog (marketplace s)).
(** The first pack of that name. *)
Definition find_pack (c : Catalog) (name : string) : option CatalogPack := List.find (λ p, cp_Name p =s name) (c_Packs c).

(** ** Browsing *)

(** [limit] lowers the page of a hundred; [offset] is cut to the number of packs. *)
Definition pack_limit (r : Request) : Z :=
  match query_int r "limit" with Some n => if (0 <? n) && (n <? 100) then n else 100 | None => 100 end.
Definition pack_offset (r : Request) (total : Z) : Z :=
  Z.min total (match query_int r "offset" with Some n => if 0 <? n then n else 0 | None => 0 end).

Definition pack_item (x : CatalogPack * option (PackInstall * bool)) : data :=
  let '(p, installed) := x in
  DObj (("pack", DPack p)
        :: match LatestCompatible p (normalizeSemver (sv_version s)) pack_api Ocsf.Version with
           | Some r => [("latest_compatible", DRelease r)]
           | None => []
           end
        ++ match installed with
           | Some (i, modified) => [("installed", DInstall i); ("modified", DBool modified)]
           | None => []
           end).

(** Each pack with its entry in the manifest, and whether its file is another. *)
Fixpoint pack_installs (m : PackManifest) (l : list CatalogPack) : H (list (CatalogPack * option (PackInstall * bool))) :=
  match l with
  | [] => ret []
  | p :: l' =>
      installed <- (match Entries m !! cp_Name p with
                    | Some i => modified <- file_modified s i ;; ret (Some (i, modified))
                    | None => ret None
                    end) ;;
      rest <- pack_installs m l' ;;
      ret ((p, installed) :: rest)
  end.

Definition handleMarketplacePacks (r : Request) : H Response :=
  let get := query_Get (query_of r) in
  catalog <- read_catalog orelse refuse_with 500 "marketplace catalog unavailable: " ;;
  let items := SearchFiltered catalog (get "q") (get "category") (get "format") (get "vendor") (get "product") (get "model") in
  let total := Z.of_nat (length items) in
  let offset := pack_offset r total in
  let end_ := Z.min total (offset + pack_limit r) in
  manifest <- read_manifest s orelse refuse_with 500 "installed pack manifest unavailable: " ;;
  result <- pack_installs manifest (take (Z.to_nat (end_ - offset)) (drop (Z.to_nat offset) items)) ;;
  reply 200 [("packs", DList (pack_item <$> result)); ("total", DInt total); ("limit", DInt (pack_limit r)); ("offset", DInt offset);
             ("generated", DStr (c_Generated catalog))].

Definition handleMarketplacePack (name : string) : H Response :=
  catalog <- read_catalog orelse refuse_err 500 ;;
  match find_pack catalog name with
  | Some p => ret (jsonResponse 200 (DPack p))
  | None => reject 404 "marketplace pack not found"
  end.

(** ** The state of the catalogue *)

Definition status_path : tpath := filepath_Join (base_dir s) [".marketplace"; "status.json"].
(** [m[k] = v] *)
Definition put_member (k : string) (v : data) (l : list (string * data)) : list (string * data) :=
  List.filter (λ kv, negb (kv.1 =s k)) l ++ [(k, v)].

Definition catalog_members (catalog : res Catalog) (cached : bool) : list (string * data) :=
  [("online", DBool (ci_MarketplaceOnline (sv_cfgInfo s))); ("registry_url", DStr (sv_registryURL s));
   ("catalog_available", DBool (is_ok catalog));
   ("catalog_source", DStr (if is_ok catalog then if cached then "cached" else "seed" else "unavailable"))]
  ++ match catalog with
     | Ok c => [("generated", DStr (c_Generated c))]
     | Err e => [("error", DErr e)]
     | Panic _ => []
     end.

Definition cached_catalog : H bool :=
  st <- try (on_tree (tree_Size (catalog_path (base_dir s)))) ;; ret (is_ok st).

Definition handleMarketplaceStatus : H Response :=
  catalog <- try read_catalog ;;
  cached <- (if is_ok catalog then cached_catalog else ret false) ;;
  let status := catalog_members catalog cached in
  _ <- on_tree (tree_RejectSymlinks (base_dir s) status_path) orelse refuse_err 500 ;;
  data <- try (on_tree (tree_ReadFile status_path)) ;;
  let last := match data with Ok text => match Unmarshal_map text with Ok (Some m) => map_to_list m | _ => [] end | _ => [] end in
  reply 200 (foldl (λ l kv, put_member kv.1 (DValue kv.2) l) status last).

(** [json.Marshal] of a map sorts its keys; it escapes more than [print], which reads the same. *)
Definition status_text (at_ : time) (e : string) : string :=
  print (JObj [("last_refresh", JStr (Format_RFC3339Nano at_)); ("last_refresh_error", JStr e)]).
Definition writeMarketplaceStatus (at_ : time) (e : string) : H unit :=
  on_tree (AtomicWriteFile (base_dir s) status_path (status_text at_ e)).

(** [time.RFC3339]: whole seconds *)
Definition whole_seconds (t : time) : time := t - t mod 10 ^ 9.

Definition handleMarketplaceRefresh : H Response :=
  catalog <- try (on_tree (Fetch (marketplace s))) ;;
  now <- time_Now ;;
  match catalog with
  | Panic p => mcall (Panic p)
  | Err e =>
      _ <- try (writeMarketplaceStatus (whole_seconds now) (fmt_error e)) ;;
      refuse_with 502 "marketplace refresh failed: " e
  | Ok c =>
      _ <- try (writeMarketplaceStatus (whole_seconds now) "") ;;
      reply 200 [("status", DStr "refreshed"); ("generated", DStr (c_Generated c)); ("packs", DInt (Z.of_nat (length (c_Packs c))))]
  end.

(** ** Artifacts *)

Definition cache_path (p : CatalogPack) (r : Release) : tpath := cached_path (base_dir s) p r.

(** The artifact in the cache, if it is the release's. *)
Definition cached_artifact (p : CatalogPack) (r : Release) : H (option string) :=
  data <- try (on_tree (tree_ReadFile (cache_path p r))) ;;
  ret (match data with Ok data => if is_ok (VerifyArtifact r data) then Some data else None | _ => None end).

(** Downloaded, verified, and kept in the cache. *)
Definition fetch_artifact (prefix : string) (p : CatalogPack) (r : Release) (k : string → H Response) : H Response :=
  data <- on_tree (FetchArtifact (marketplace s) r) orelse refuse_with 502 prefix ;;
  _ <- on_tree (AtomicWriteFile (base_dir s) (cache_path p r) data) orelse refuse_err 500 ;;
  k data.

Definition fetch_request : list (string * kind) := [("name", KStr); ("version", KStr)].
Definition is_latest (version : string) : bool := (version =s "") || (version =s "latest").

Definition fetched (status : string) (p : CatalogPack) (r : Release) : H Response :=
  reply 200 [("status", DStr status); ("name", DStr (cp_Name p)); ("version", DStr (Catalog.Version r)); ("sha256", DStr (SHA256 r))].

Definition handleMarketplaceFetch (r : Request) : H Response :=
  req <- mcall (decode_struct fetch_request r) orelse refuse_err 400 ;;
  catalog <- read_catalog orelse refuse_err 500 ;;
  match find_pack catalog (str_field "name" req) with
  | None => reject 404 "marketplace pack not found"
  | Some pack =>
      let version := str_field "version" req in
      let release := if is_latest version then LatestCompatible pack (normalizeSemver (sv_version s)) pack_api Ocsf.Version
                     else Pack_Release pack version in
      match release with
      | None => reject 404 "marketplace release not found"
      | Some release =>
          cached <- cached_artifact pack release ;;
          match cached with
          | Some _ => fetched "cached" pack release
          | None => fetch_artifact "" pack release (λ _, fetched "fetched" pack release)
          end
      end
  end.

(** ** Installation *)

Definition install_request : list (string * kind) :=
  [("name", KStr); ("version", KStr); ("expected_version", KStr); ("expected_sha256", KStr); ("pin", KBool)].

(** The release that a request asks for. *)
Definition requested_release (version : string) (selected : CatalogPack) : option Release :=
  if is_latest version then LatestCompatible selected (sv_version s) pack_api Ocsf.Version
  else find (λ r, (TrimPrefix (Catalog.Version r) "v" =s TrimPrefix version "v") && negb (Withdrawn r)) (Releases selected).

Definition incompatible (r : Release) : bool :=
  (PackAPI r <>s pack_api) || (Catalog.OCSF r <>s Ocsf.Version)
  || ((MinWORM r <>s "") && (semver_Compare (normalizeSemver (sv_version s)) (normalizeSemver (MinWORM r)) <? 0)).

Definition manifestEntryMatches (entry : PackInstall) (filename digest : string) : bool :=
  (pi_Filename entry =s filename) && (pi_Digest entry =s digest).

(** The installed pack is not what the client looked at. *)
Definition changed_since (req : json) (entry : PackInstall) (digest : string) : bool :=
  let v := str_field "expected_version" req in
  let sha := str_field "expected_sha256" req in
  ((v <>s "") && (v <>s pi_Version entry)) || ((sha <>s "") && (sha <>s digest)).

(** The installed bytes are those of a release, or those that the manifest tells of. *)
Definition managed (selected : CatalogPack) (entry : PackInstall) (filename digest : string) : bool :=
  existsb (λ old, digest =s SHA256 old) (Releases selected) || manifestEntryMatches entry filename digest.

(** The release is the file, and is active: there is nothing to do.  Without an active snapshot
    the program stops here. *)
Definition already_active (selected : CatalogPack) (r : Release) : H bool :=
  active <- active_snapshot ;;
  match active with
  | None => mcall (Panic "nil pointer dereference")
  | Some snap => ret (match GetPack snap (cp_Name selected) with
                      | Some p => mVersion (Metadata p) =s Catalog.Version r
                      | None => false
                      end)
  end.

Definition pinned_by (req : json) : bool :=
  match bool_ptr_field "pin" req with Some b => b | None => negb (is_latest (str_field "version" req)) end.

(** From the artifact to the activation. *)
Definition activate_artifact (selected : CatalogPack) (r : Release) (filename : string) (expected : option PackFileExpectation)
    (pinned : bool) (data : string) : H Response :=
  pack <- mcall (LoadPack data) orelse refuse_with 400 "pack validation failed: " ;;
  if (mName (Metadata pack) <>s cp_Name selected) || (mVersion (Metadata pack) <>s Catalog.Version r)
  then reject 400 "artifact identity does not match signed catalog"
  else
    _ <- on_packs (ApplyPackFileWithState filename data expected "marketplace" pinned) orelse refuse_with 409 "pack activation failed: " ;;
    reply 200 [("status", DStr "installed"); ("name", DStr (cp_Name selected)); ("version", DStr (Catalog.Version r));
               ("sha256", DStr (SHA256 r)); ("activated", DBool true)].

Definition install_artifact (req : json) (selected : CatalogPack) (r : Release) (filename : string)
    (expected : option PackFileExpectation) : H Response :=
  cached <- cached_artifact selected r ;;
  match cached with
  | Some data => activate_artifact selected r filename expected (pinned_by req) data
  | None => fetch_artifact "verified pack download failed: " selected r (activate_artifact selected r filename expected (pinned_by req))
  end.

(** A file of that name stands in the directory. *)
Definition install_over (req : json) (selected : CatalogPack) (r : Release) (entry : PackInstall) (filename data : string) : H Response :=
  let digest := sha256_hex data in
  let expected := Some {| Exists := true; PackStore.Digest := digest |} in
  if changed_since req entry digest then reject 409 "installed pack changed since it was inspected"
  else if digest =s SHA256 r then
    active <- already_active selected r ;;
    if active then
      reply 200 [("status", DStr "already_installed"); ("name", DStr (cp_Name selected)); ("version", DStr (Catalog.Version r));
                 ("sha256", DStr (SHA256 r)); ("activated", DBool true)]
    else install_artifact req selected r filename expected
  else if negb (managed selected entry filename digest) then reject 409 "a different local pack with this name is already installed"
  else install_artifact req selected r filename expected.

Definition install_release (req : json) (selected : CatalogPack) (r : Release) : H Response :=
  manifest <- read_manifest s orelse refuse_with 500 "read installed pack manifest: " ;;
  let filename := match Entries manifest !! cp_Name selected with Some i => pi_Filename i | None => cp_Name selected +:+ ".yaml" end in
  data <- try (read_pack_file s filename) ;;
  match data with
  | Ok data => install_over req selected r (entry_of manifest (cp_Name selected)) filename data
  | Err e => if IsNotExist e then install_artifact req selected r filename (Some {| Exists := false; PackStore.Digest := "" |}) else refuse_err 500 e
  | Panic p => mcall (Panic p)
  end.

Definition configured : bool := sv_packManager s && match sv_packsDir s with Some _ => true | None => false end.

Definition handleMarketplaceInstall (r : Request) : H Response :=
  req <- mcall (decode_struct install_request r) orelse refuse_with 400 "invalid request: " ;;
  catalog <- read_catalog orelse refuse_err 500 ;;
  match find_pack catalog (str_field "name" req) with
  | None => reject 404 "marketplace pack not found"
  | Some selected =>
      match requested_release (str_field "version" req) selected with
      | None => reject 404 "compatible marketplace release not found"
      | Some release =>
          if incompatible release then reject 409 "pack release is incompatible with this WORM version"
          else if negb configured then reject 503 "pack manager is not configured"
          else install_release req selected release
      end
  end.

(** ** Upgrades *)

Definition upgrade_request : list (string * kind) := [("name", KStr); ("all", KBool)].

Definition from_marketplace (e : PackInstall) : bool := (pi_Origin e =s "marketplace") || (pi_Origin e =s "bundled").

(** The names to upgrade, or why there are none. *)
Definition upgrade_names (req : json) (m : PackManifest) : (list string) + (Z * string) :=
  let name := str_field "name" req in
  if bool_field "all" req then
    inl (order_by str_le (fst <$> List.filter (λ kv, from_marketplace kv.2 && negb (pi_Pinned kv.2)) (map_range (Entries m))))
  else if name <>s "" then
    match Entries m !! name with
    | Some e => if from_marketplace e then inl [name] else inr (409, "pack is not marketplace-managed")
    | None => inr (409, "pack is not marketplace-managed")
    end
  else inr (400, "name or all is required").

(** The request that [handleMarketplaceUpgrade] makes to [handleMarketplaceInstall]; its body
    reads the same as what [json.Marshal] writes. *)
Definition install_body (name : string) (installed : PackInstall) (target : Release) : string :=
  print (JObj [("expected_sha256", JStr (pi_Digest installed)); ("expected_version", JStr (pi_Version installed));
               ("name", JStr name); ("pin", JBool false); ("version", JStr (Catalog.Version target))]).
Definition sub_request (body : string) : Request :=
  {| rq_Method := "POST"; rq_Path := "/api/v1/packs/install"; rq_RawQuery := "";
     rq_Header := λ k, if k =s "Content-Type" then "application/json" else ""; rq_Body := body; rq_BodyErr := None |}.

(** [result["name"] = name; result["status_code"] = ww.Code] *)
Definition sub_result (name : string) (resp : Response) : res data :=
  match rs_Body resp with
  | BJson (DObj l) => Ok (DObj (put_member "status_code" (DInt (rs_Code resp)) (put_member "name" (DStr name) l)))
  | _ => Panic "assignment to entry in nil map"
  end.

Definition plain_result (name status : string) (more : list (string * data)) : data :=
  DObj (("name", DStr name) :: ("status", DStr status) :: more).

(** The newest compatible release of the installed major version, if it is newer. *)
Definition upgrade_target (item : CatalogPack) (installed : PackInstall) : option Release :=
  let current := normalizeSemver (pi_Version installed) in
  match LatestCompatibleForMajor item (sv_version s) pack_api Ocsf.Version (semver_Major current) with
  | Some target => if semver_Compare (normalizeSemver (Catalog.Version target)) current <=? 0 then None else Some target
  | None => None
  end.

(** One pack: its result, and whether it failed. *)
Definition upgrade_one (catalog : Catalog) (m : PackManifest) (name : string) : H (data * bool) :=
  let installed := entry_of m name in
  if pi_Pinned installed then ret (plain_result name "skipped" [("reason", DStr "pinned")], false)
  else
    match find_pack catalog name with
    | None => ret (plain_result name "error" [("error", DStr "pack is absent from catalog")], true)
    | Some item =>
        match upgrade_target item installed with
        | None => ret (plain_result name "current" [("version", DStr (pi_Version installed))], false)
        | Some target =>
            resp <- handleMarketplaceInstall (sub_request (install_body name installed target)) ;;
            result <- mcall (sub_result name resp) ;;
            ret (result, negb ((200 <=? rs_Code resp) && (rs_Code resp <? 300)))
        end
    end.

Fixpoint upgrade_each (catalog : Catalog) (m : PackManifest) (names : list string) : H (list data * bool) :=
  match names with
  | [] => ret ([], false)
  | name :: names' =>
      one <- upgrade_one catalog m name ;;
      rest <- upgrade_each catalog m names' ;;
      ret (one.1 :: rest.1, one.2 || rest.2)
  end.

Definition handleMarketplaceUpgrade (r : Request) : H Response :=
  req <- mcall (decode_struct upgrade_request r) orelse refuse_err 400 ;;
  manifest <- read_manifest s orelse refuse_err 500 ;;
  match upgrade_names req manifest with
  | inr (code, msg) => reject code msg
  | inl names =>
      catalog <- read_catalog orelse refuse_err 500 ;;
      results <- upgrade_each catalog manifest names ;;
      reply (if results.2 then 207 else 200) [("results", DList results.1)]
  end.

(** ** Removal *)

Definition handleMarketplaceRemove (name : string) : H Response :=
  if (name =s "") || unsafe_name name then reject 400 "invalid pack name"
  else if negb configured then reject 503 "pack manager is not configured"
  else
    catalog <- read_catalog orelse refuse_err 500 ;;
    match find_pack catalog name with
    | None => reject 409 "only catalog-managed packs can be removed through marketplace"
    | Some _ =>
        manifest <- read_manifest s orelse refuse_err 500 ;;
        let installed := entry_of manifest name in
        if negb (from_marketplace installed) then reject 409 "pack is not managed by the marketplace"
        else
          data <- read_pack_file s (pi_Filename installed) orelse (λ _, reject 404 "installed pack not found") ;;
          if sha256_hex data <>s pi_Digest installed then reject 409 "pack was modified locally; refusing marketplace removal"
          else
            snap <- on_packs (RemovePackFileExpected (pi_Filename installed) (Some {| Exists := true; PackStore.Digest := sha256_hex data |}))
              orelse refuse_with 409 "pack removal failed: " ;;
            reply 200 [("status", DStr "removed"); ("name", DStr name); ("remaining_packs", DInt (Z.of_nat (length (ListPacks snap))));
                       ("warning", DStr "logs without a matching parser pack may be quarantined")]
    end.
End api.
