(* ===== verification/ApiServer.v ===== *)
(** * [internal/api/server.go]: the routing table, the guards and the middleware *)

From S2P Require Import Connections FileTree Catalog Market.
From S2P Require Import Prelude GoStrings GoNum GoTime GoPath GoHttp Model Decoder Extract Xml Disk PackStore World RawStore Pipeline.
From S2P Require Export Monad ApiCore ApiStore ApiPacks.

#[local] Open Scope monad_scope.

(** A route pattern of the source, ["METHOD /path/{wildcard}"]. *)
Definition parse_segment (s : string) : segment :=
  match s with String "{" s' => Wild (TrimSuffix s' "}") | _ => Lit s end.
Definition pattern (text : string) : Pattern :=
  let '(m, p) := CutByte text " " in {| pt_Method := m; pt_Path := parse_segment <$> tail (Split p "/") |}.

Example pattern_ex :
  pattern "GET /api/v1/events/{id}/trace"
  = {| pt_Method := "GET"; pt_Path := [Lit "api"; Lit "v1"; Lit "events"; Wild "id"; Lit "trace"] |}.
Proof. vm_compute. reflexivity. Qed.

(** What stands between a route and its handler. *)
Inductive guard := Unguarded | AdminAuth | ConfiguredAuth.

(** An answer, with the origin that it admits. *)
Record Served := { se_AllowOrigin : option string; se_Response : Response }.

Section server.
Context (fmt_float : f64 → string) (time_Parse : string → string → option gtime) (currentYear : Z).
Context `{GoPlatform} `{MapOrder} `{XmlEnv} `{Env} `{FsEnv} `{TreeEnv} `{SemVer} `{CatalogEnv} `{PackCodec} `{MarketEnv}.
Context `{ConnEnv} `{Probes} `{ApiEnv} (FileServer : Request → Z * string * string) (s : Server).

(** ** Authorization *)

Definition admin_token : string :=
  let token := ci_AdminToken (sv_cfgInfo s) in if token =s "" then WORM_ADMIN_TOKEN else token.

(** [X-WORM-Admin-Key], or a bearer token. *)
Definition provided_token (r : Request) : string :=
  let key := rq_Header r "X-Worm-Admin-Key" in
  let auth := rq_Header r "Authorization" in
  if key =s "" then if HasPrefix auth "Bearer " then TrimPrefix auth "Bearer " else "" else key.

Definition unauthorized : H Response := reject 401 "unauthorized: invalid or missing admin token".

Definition requireAdminAuth (next : Request → H Response) (r : Request) : H Response :=
  if (admin_token <>s "") && (provided_token r <>s admin_token) then unauthorized else next r.

Definition requireConfiguredAdminAuth (next : Request → H Response) (r : Request) : H Response :=
  if admin_token =s "" then reject 403 "marketplace management requires WORM_ADMIN_TOKEN or --admin-token"
  else if provided_token r <>s admin_token then unauthorized
  else next r.

Definition guarded (g : guard) (next : Request → H Response) : Request → H Response :=
  match g with Unguarded => next | AdminAuth => requireAdminAuth next | ConfiguredAuth => requireConfiguredAdminAuth next end.

(** ** The page *)

Definition html_type : string := "text/html; charset=utf-8".
Definition placeholder : string :=
  "<!DOCTYPE html><html><head><title>WORM Management</title></head><body style=" +:+ chr QUOTE
  +:+ "background:#0d1117;color:#c9d1d9;font-family:monospace;padding:2rem;" +:+ chr QUOTE
  +:+ "><h2>WORM Control Plane</h2><p>API online. UI bundle initializing...</p></body></html>".
Definition html (text : string) : H Response := ret {| rs_Code := 200; rs_ContentType := html_type; rs_Body := BText text |}.

Definition static_path (r : Request) : string :=
  let p := TrimPrefix (path_Clean (default (rq_Path r) (PathUnescape (rq_Path r)))) "/" in
  if (p =s "") || (p =s ".") then "index.html" else p.

(** A file of the page, as [http.FileServer] answers (code, content type, text), or [index.html] for the routes of the page itself. *)
Definition handleStaticOrSPA (r : Request) : H Response :=
  match sv_dist s with
  | None => html placeholder
  | Some open_ =>
      match open_ (static_path r) with
      | Some (DistFile _) =>
          let '(code, ctype, text) := FileServer r in ret {| rs_Code := code; rs_ContentType := ctype; rs_Body := BText text |}
      | _ =>
          match open_ "index.html" with
          | None => ret {| rs_Code := 404; rs_ContentType := "text/plain; charset=utf-8"; rs_Body := BText ("404 page not found" +:+ chr LF) |}
          | Some (DistFile text) => html text
          | Some DistDir => html ""
          end
      end
  end.

(** ** The routes *)

Record Route := { rt_Pattern : Pattern; rt_Guard : guard; rt_Handle : Request → (string → string) → H Response }.

Definition route (text : string) (g : guard) (h : Request → (string → string) → H Response) : Route :=
  {| rt_Pattern := pattern text; rt_Guard := g; rt_Handle := h |}.

(** [Handler]'s table, in its order; [v] gives the values of the wildcards. *)
Definition routes : list Route := [
  route "GET /api/v1/health" Unguarded (λ r v, handleHealth s);
  route "GET /api/v1/stats" Unguarded (λ r v, handleStats s);
  route "GET /api/v1/events" Unguarded (λ r v, handleListEvents r);
  route "GET /api/v1/events/{id}" Unguarded (λ r v, handleGetEvent (v "id"));
  route "GET /api/v1/events/{id}/trace" AdminAuth (λ r v, handleEventTrace (v "id"));
  route "POST /api/v1/events/{id}/verify" Unguarded (λ r v, handleVerifyEvent (v "id"));
  route "GET /api/v1/raw/{id}" AdminAuth (λ r v, handleGetRaw (v "id"));
  route "POST /api/v1/raw/{id}/verify" AdminAuth (λ r v, handleVerifyRaw (v "id"));
  route "GET /api/v1/quarantine" Unguarded (λ r v, handleListQuarantine r);
  route "POST /api/v1/quarantine/replay-all" AdminAuth (λ r v, handleReplayAllQuarantine fmt_float time_Parse currentYear s r);
  route "POST /api/v1/quarantine/{id}/replay" AdminAuth (λ r v, handleReplayQuarantine fmt_float time_Parse currentYear s (v "id"));
  route "GET /api/v1/sources" Unguarded (λ r v, handleListSources);
  route "GET /api/v1/packs" Unguarded (λ r v, handleListPacks s);
  route "GET /api/v1/marketplace/packs" Unguarded (λ r v, handleMarketplacePacks s r);
  route "GET /api/v1/marketplace/packs/{name}" Unguarded (λ r v, handleMarketplacePack s (v "name"));
  route "GET /api/v1/marketplace/status" Unguarded (λ r v, handleMarketplaceStatus s);
  route "POST /api/v1/marketplace/refresh" ConfiguredAuth (λ r v, handleMarketplaceRefresh s);
  route "POST /api/v1/marketplace/fetch" ConfiguredAuth (λ r v, handleMarketplaceFetch s r);
  route "GET /api/v1/packs/{name}" Unguarded (λ r v, handleGetPack s (v "name"));
  route "POST /api/v1/packs/validate" Unguarded (λ r v, handleValidatePack fmt_float time_Parse currentYear r);
  route "POST /api/v1/packs/activate" ConfiguredAuth (λ r v, handleActivatePack s r);
  route "POST /api/v1/packs/install" ConfiguredAuth (λ r v, handleMarketplaceInstall s r);
  route "POST /api/v1/packs/upgrade" ConfiguredAuth (λ r v, handleMarketplaceUpgrade s r);
  route "DELETE /api/v1/packs/{name}" ConfiguredAuth (λ r v, handleMarketplaceRemove s (v "name"));
  route "POST /api/v1/packs/rollback" ConfiguredAuth (λ r v, handleRollbackPack s r);
  route "GET /api/v1/connections" Unguarded (λ r v, handleListConnections s);
  route "GET /api/v1/connections/{name}" Unguarded (λ r v, handleGetConnection s (v "name"));
  route "POST /api/v1/connections/validate" Unguarded (λ r v, handleValidateConnection r);
  route "POST /api/v1/connections/test" AdminAuth (λ r v, handleTestConnection r);
  route "POST /api/v1/connections/apply" AdminAuth (λ r v, handleApplyConnection s r);
  route "POST /api/v1/connections/rollback" AdminAuth (λ r v, handleRollbackConnection s);
  route "GET /api/v1/config" Unguarded (λ r v, handleConfig s)].

Definition path_value (vs : list (string * string)) (name : string) : string := query_Get vs name.

(** The route of a request, with the values of its wildcards. *)
Definition find_route (m : string) (path : list string) : option (Route * list (string * string)) :=
  head (omap (λ rt, vs ← match_pattern (rt_Pattern rt) m path; Some (rt, vs)) routes).

(** [ServeMux.ServeHTTP]: a path that is not clean is redirected; the pattern of the page
    matches what no other does. *)
Definition serve_mux (r : Request) : H Response :=
  if negb (rq_Method r =s "CONNECT") && (cleanPath (rq_Path r) <>s rq_Path r) then
    ret {| rs_Code := 301; rs_ContentType := html_type; rs_Body := BNothing |}
  else
    match find_route (rq_Method r) (path_segments (rq_Path r)) with
    | Some (rt, vs) => guarded (rt_Guard rt) (λ r, rt_Handle rt r (path_value vs)) r
    | None => handleStaticOrSPA r
    end.

(** ** The middleware *)

Definition limitRequestBody (next : Request → H Response) (r : Request) : H Response := next (MaxBytesReader (2 ^ 20) r).

(** The origins that scripts of a browser may come from. *)
Definition local_origin (origin : string) : bool :=
  match origin_Parse origin with
  | Some (bare, scheme, hostname, host) =>
      bare && ((scheme =s "http") || (scheme =s "https"))
      && ((hostname =s "localhost") || (hostname =s "127.0.0.1") || (hostname =s "::1")) && (host <>s "")
  | None => false
  end.

Definition corsMiddleware (next : Request → H Response) (r : Request) : H Served :=
  let origin := rq_Header r "Origin" in
  let allowed := if (origin <>s "") && local_origin origin then Some origin else None in
  resp <- (if rq_Method r =s "OPTIONS" then ret {| rs_Code := 204; rs_ContentType := ""; rs_Body := BNothing |} else next r) ;;
  ret {| se_AllowOrigin := allowed; se_Response := resp |}.

Definition Handler (r : Request) : H Served := corsMiddleware (limitRequestBody serve_mux) r.
End server.
