(* ===== verification/ApiSpec.v ===== *)
(** * What the handlers of the management API change

    A handler that only reads keeps every relation that reading keeps; the handlers that write
    are shown to use the part of the backend that is theirs, and no other. *)

From S2P Require Import Connections FileTree Catalog Market.
From S2P Require Import Prelude GoStrings GoNum GoTime GoPath GoHttp Model Decoder Registry Csv Json Xml Decoders Extract Pack Snapshot Disk DiskSpec PackStore.
From S2P Require Import PackCrash World RawStore Outbox Pipeline.
From S2P Require Export Monad ApiCore ApiStore ApiPacks ApiServer.

#[local] Open Scope monad_scope.

(** ** Reading *)

(** Only the number of database calls and of clock readings has moved. *)
Definition world_same (w w' : World) : Prop := same_rest w w' ∧ w_db w' = w_db w.
#[export] Instance world_same_preorder : PreOrder world_same.
Proof. split; [by split|]. intros x y z [H1 E1] [H2 E2]. split; [by transitivity y|congruence]. Qed.

Section reads.
Context `{Env}.

Lemma ws_query {A} (f : Db → res A) : keeps world_same (query f).
Proof.
  intros w. unfold query, db_call. destruct (fault _); [by repeat split|]. by destruct (f (w_db w)).
Qed.
Lemma ws_Retrieve id : keeps world_same (Retrieve id).
Proof. unfold Retrieve, query_row. keeps_tac; apply ws_query. Qed.
Lemma ws_Verify id : keeps world_same (Verify id).
Proof. unfold Verify. keeps_tac; apply ws_Retrieve. Qed.
Lemma ws_ListNormalized c v q l o : keeps world_same (ListNormalized c v q l o).
Proof. unfold ListNormalized. keeps_tac; apply ws_query. Qed.
Lemma ws_GetNormalizedByID id : keeps world_same (GetNormalizedByID id).
Proof. unfold GetNormalizedByID, query_row. keeps_tac; apply ws_query. Qed.
Lemma ws_VerifyNormalized id : keeps world_same (VerifyNormalized id).
Proof. unfold VerifyNormalized, query_row. keeps_tac; first [apply ws_query|apply ws_Verify]. Qed.
Lemma ws_ListQuarantinePaged l o : keeps world_same (ListQuarantinePaged l o).
Proof. unfold ListQuarantinePaged. keeps_tac; apply ws_query. Qed.
Lemma ws_GetQuarantineByID id : keeps world_same (GetQuarantineByID id).
Proof. unfold GetQuarantineByID, query_row. keeps_tac; apply ws_query. Qed.
Lemma ws_reads : keeps world_same CountUnmapped ∧ keeps world_same ListSources ∧ keeps world_same Ping
  ∧ ∀ b, keeps world_same (GetReplayPendingIDs b).
Proof. split_and!; try apply ws_query. intros b. apply ws_query. Qed.
End reads.

Section packs_reads.
Context `{FsEnv} `{PackCodec}.
Lemma rd_file p : keeps reads (Disk.ReadFile p).
Proof. apply PackCrash.reads_call. Qed.
Lemma rd_stat p : keeps reads (Stat p).
Proof. apply PackCrash.reads_call. Qed.
Lemma rd_manifest : keeps reads ReadManifest.
Proof. unfold ReadManifest. keeps_tac; apply rd_file. Qed.
Lemma rd_active : keeps reads Active.
Proof. intros h. reflexivity. Qed.
End packs_reads.

Lemma tr_ReadCatalog `{TreeEnv} `{SemVer} `{CatalogEnv} `{PackCodec} `{MarketEnv} st : keeps unchanged (ReadCatalog st).
Proof. unfold ReadCatalog. keeps_tac. Qed.

Section site_reads.
Context `{ConnEnv}.
Lemma qt_get_mgr : keeps quiet get_mgr.
Proof. intros x. reflexivity. Qed.
Lemma qt_ReadFile p : keeps quiet (Connections.ReadFile p).
Proof. intros x. by split. Qed.
Lemma qt_ListSummaries : keeps quiet ListSummaries.
Proof. unfold ListSummaries. keeps_tac; apply qt_get_mgr. Qed.
Lemma qt_GetRawYAML name : keeps quiet (GetRawYAML name).
Proof. unfold GetRawYAML. keeps_tac; first [apply qt_get_mgr|apply qt_ReadFile]. Qed.
Lemma qt_Filename name : keeps quiet (Filename name).
Proof. unfold Filename. keeps_tac; apply qt_get_mgr. Qed.
End site_reads.

(** ** Handlers *)

(** A relation that is kept whatever is only read. *)
Class ReadsKept `{FsEnv} `{Env} (s : Server) (R : Backend → Backend → Prop) := {
  rk_pre :: PreOrder R;
  rk_store {A} (m : M A) : keeps world_same m → keeps R (on_store m);
  rk_stats cfg : sv_pipe s = Some cfg → keeps R (on_store (Stats cfg));
  rk_packs {A} (m : Prog (Host PackStore.Manager) A) : keeps reads m → keeps R (on_packs m);
  rk_tree {A} (m : Prog TreeHost A) : keeps unchanged m → keeps R (on_tree m);
  rk_site {A} (m : Prog Site A) : keeps quiet m → keeps R (on_site m);
  rk_tick : keeps R api_tick;
  rk_eps now z : keeps R (measure_eps now z);
}.
#[export] Hint Resolve rk_stats rk_tick rk_eps : worm.

Section handlers.
Context (R : Backend → Backend → Prop) `{!PreOrder R}.

Lemma keeps_checked {A} (m : H A) bad (k : A → H Response) :
  keeps R m → (∀ e, keeps R (bad e)) → (∀ a, keeps R (k a)) → keeps R (checked m bad k).
Proof. intros Hm Hb Hk. unfold checked. apply keeps_bind; [apply _|by apply keeps_try|]. intros [a|e|p]; [apply Hk|apply Hb|apply keeps_mcall, _]. Qed.

Lemma keeps_pure (x : Response) : keeps R (ret x).
Proof. apply keeps_ret, _. Qed.
End handlers.

(** [api_tac]: through the structure of a handler. *)
Ltac api_step :=
  match goal with
  | |- keeps _ (checked _ _ _) => apply keeps_checked; [try typeclasses eauto| |intros ?|intros ?]
  | |- keeps _ (reply _ _) => apply keeps_pure; typeclasses eauto
  | |- keeps _ (reject _ _) => apply keeps_pure; typeclasses eauto
  | |- keeps _ (refuse_with _ _ _) => apply keeps_pure; typeclasses eauto
  | |- keeps _ (refuse_err _ _) => apply keeps_pure; typeclasses eauto
  | |- keeps _ (on_store _) => solve [eauto with worm | eapply rk_store; eauto with worm]
  | |- keeps _ (on_packs _) => solve [eauto with worm | eapply rk_packs; eauto with worm]
  | |- keeps _ (on_tree _) => solve [eauto with worm | eapply rk_tree; eauto with worm]
  | |- keeps _ (on_site _) => solve [eauto with worm | eapply rk_site; eauto with worm]
  | _ => keeps_step
  end.
Ltac api_tac := repeat api_step.

#[export] Hint Resolve ws_Retrieve ws_Verify ws_ListNormalized ws_GetNormalizedByID ws_VerifyNormalized ws_ListQuarantinePaged
  ws_GetQuarantineByID rd_file rd_stat rd_manifest rd_active tr_ReadCatalog qt_get_mgr qt_ListSummaries qt_GetRawYAML qt_Filename : worm.
#[export] Hint Extern 1 (keeps world_same CountUnmapped) => apply ws_reads : worm.
#[export] Hint Extern 1 (keeps world_same ListSources) => apply ws_reads : worm.
#[export] Hint Extern 1 (keeps world_same Ping) => apply ws_reads : worm.
#[export] Hint Extern 1 (keeps world_same (GetReplayPendingIDs _)) => apply ws_reads : worm.

Section reading.
Context (fmt_float : f64 → string) (time_Parse : string → string → option gtime) (currentYear : Z).
Context `{GoPlatform} `{MapOrder} `{XmlEnv} `{Env} `{FsEnv} `{TreeEnv} `{SemVer} `{CatalogEnv} `{PackCodec} `{MarketEnv}.
Context `{ConnEnv} `{Probes} `{ApiEnv} (FileServer : Request → Z * string * string) (s : Server).
Context (R : Backend → Backend → Prop) `{!ReadsKept s R}.

Lemma rk_time_Now : keeps R time_Now.
Proof. unfold time_Now. api_tac. Qed.
Lemma rk_active : keeps R active_snapshot.
Proof. unfold active_snapshot. api_tac. Qed.
Lemma rk_file f : keeps R (read_pack_file s f).
Proof. unfold read_pack_file. api_tac. Qed.
Lemma rk_stat f : keeps R (stat_pack_file s f).
Proof. unfold stat_pack_file. api_tac. Qed.
Lemma rk_manifest : keeps R (read_manifest s).
Proof. unfold read_manifest. api_tac. Qed.
Lemma rk_catalog : keeps R (read_catalog s).
Proof. unfold read_catalog. api_tac. Qed.
Hint Resolve rk_time_Now rk_active rk_file rk_stat rk_manifest rk_catalog : worm.
Lemma rk_with_active k none : (∀ snap, keeps R (k snap)) → keeps R none → keeps R (with_active s k none).
Proof. intros Hk Hn. unfold with_active. api_tac; first [done|apply Hk]. Qed.
Lemma rk_with_pipe k none :
  (∀ cfg snap, sv_pipe s = Some cfg → keeps R (k (pipe_config s cfg snap))) → keeps R none → keeps R (with_pipe s k none).
Proof. intros Hk Hn. unfold with_pipe. api_tac; first [done|by apply Hk]. Qed.
Lemma rk_with_id what id k : keeps R k → keeps R (with_id what id k).
Proof. intros Hk. unfold with_id. api_tac; exact Hk. Qed.
Lemma rk_modified e : keeps R (file_modified s e).
Proof. unfold file_modified. api_tac. Qed.
Hint Resolve rk_modified : worm.
Lemma rk_states m l : keeps R (pack_states s m l).
Proof. induction l as [|p l IH]; cbn [pack_states]; api_tac; exact IH. Qed.
Lemma rk_pack_installs m l : keeps R (pack_installs s m l).
Proof. induction l as [|p l IH]; cbn [pack_installs]; api_tac; exact IH. Qed.
Hint Resolve rk_states rk_pack_installs : worm.

Lemma rk_handleHealth : keeps R (handleHealth s).
Proof. unfold handleHealth. api_tac. Qed.
Lemma rk_handleStats : keeps R (handleStats s).
Proof. unfold handleStats, pipe_load, UnmappedCount. api_tac; intros b; reflexivity. Qed.
Lemma rk_handleListEvents r : keeps R (handleListEvents r).
Proof. unfold handleListEvents. api_tac. Qed.
Lemma rk_handleGetEvent id : keeps R (handleGetEvent id).
Proof. apply rk_with_id. api_tac. Qed.
Lemma rk_handleEventTrace id : keeps R (handleEventTrace id).
Proof. apply rk_with_id. api_tac. Qed.
Lemma rk_handleGetRaw id : keeps R (handleGetRaw id).
Proof. apply rk_with_id. api_tac. Qed.
Lemma rk_handleVerifyRaw id : keeps R (handleVerifyRaw id).
Proof. apply rk_with_id. api_tac. Qed.
Lemma rk_handleVerifyEvent id : keeps R (handleVerifyEvent id).
Proof. apply rk_with_id. api_tac. Qed.
Lemma rk_handleListQuarantine r : keeps R (handleListQuarantine r).
Proof. unfold handleListQuarantine. api_tac. Qed.
Lemma rk_handleListSources : keeps R handleListSources.
Proof. unfold handleListSources. api_tac. Qed.
Lemma rk_handleConfig : keeps R (handleConfig s).
Proof. unfold handleConfig. api_tac. Qed.
Lemma rk_handleListPacks : keeps R (handleListPacks s).
Proof. apply rk_with_active; [intros snap|]; api_tac. Qed.
Lemma rk_handleGetPack name : keeps R (handleGetPack s name).
Proof.
  unfold handleGetPack, chosen_file, pack_not_found, reply_yaml. api_tac. all: apply rk_with_active; intros; api_tac.
Qed.
Lemma rk_handleValidatePack r : keeps R (handleValidatePack fmt_float time_Parse currentYear r).
Proof. unfold handleValidatePack, bad_body. api_tac. Qed.
Lemma rk_handleMarketplacePacks r : keeps R (handleMarketplacePacks s r).
Proof. unfold handleMarketplacePacks. api_tac. Qed.
Lemma rk_handleMarketplacePack name : keeps R (handleMarketplacePack s name).
Proof. unfold handleMarketplacePack. api_tac. Qed.
Lemma rk_handleMarketplaceStatus : keeps R (handleMarketplaceStatus s).
Proof. unfold handleMarketplaceStatus, cached_catalog. api_tac. Qed.
Lemma rk_handleListConnections : keeps R (handleListConnections s).
Proof. unfold handleListConnections. api_tac. Qed.
Lemma rk_handleGetConnection name : keeps R (handleGetConnection s name).
Proof. unfold handleGetConnection, reply_yaml, conn_missing. api_tac. Qed.
Lemma rk_handleValidateConnection r : keeps R (handleValidateConnection r).
Proof. unfold handleValidateConnection, bad_body. api_tac. Qed.
Lemma rk_handleTestConnection r : keeps R (handleTestConnection r).
Proof. unfold handleTestConnection, bad_body. api_tac. Qed.
Lemma rk_handleStaticOrSPA r : keeps R (handleStaticOrSPA FileServer s r).
Proof. unfold handleStaticOrSPA, html. api_tac. Qed.
End reading.

(** *** The handlers that write *)

Section writing.
Context (fmt_float : f64 → string) (time_Parse : string → string → option gtime) (currentYear : Z).
Context `{GoPlatform} `{MapOrder} `{XmlEnv} `{Env} `{FsEnv} `{TreeEnv} `{SemVer} `{CatalogEnv} `{PackCodec} `{MarketEnv}.
Context `{ConnEnv} `{Probes} `{ApiEnv} (FileServer : Request → Z * string * string) (s : Server).
Context (R : Backend → Backend → Prop) `{!ReadsKept s R}.
Hint Resolve rk_time_Now rk_active rk_file rk_stat rk_manifest rk_catalog : worm.

(** The quarantine is replayed through the pipeline. *)
Section replays.
Context (Hreplay : ∀ cfg snap id, sv_pipe s = Some cfg →
  keeps R (on_store (Replay fmt_float time_Parse currentYear (pipe_config s cfg snap) id))).
Hint Resolve Hreplay : worm.

Lemma wk_handleReplayQuarantine id : keeps R (handleReplayQuarantine fmt_float time_Parse currentYear s id).
Proof. apply (rk_with_id s); [apply _|]. apply rk_with_pipe; [apply _|intros cfg snap Hc|unfold pipe_missing]; api_tac. Qed.
Lemma wk_replay_all cfg snap ids t :
  sv_pipe s = Some cfg → keeps R (replay_all fmt_float time_Parse currentYear (pipe_config s cfg snap) ids t).
Proof. intros Hc. revert t. induction ids as [|id ids IH]; intros t; cbn [replay_all]; api_tac; apply IH. Qed.
Hint Resolve wk_replay_all : worm.
Lemma wk_handleReplayAllQuarantine r : keeps R (handleReplayAllQuarantine fmt_float time_Parse currentYear s r).
Proof. apply rk_with_pipe; [apply _|intros cfg snap Hc|unfold pipe_missing]; api_tac. Qed.
End replays.

(** Connections are written by their manager. *)
Section sites.
Context (Hsite : ∀ A (m : Prog Site A), keeps R (on_site m)).
Hint Resolve Hsite : worm.
Lemma wk_handleApplyConnection r : keeps R (handleApplyConnection s r).
Proof. unfold handleApplyConnection, connection_file, conn_missing, bad_body. api_tac. Qed.
Lemma wk_handleRollbackConnection : keeps R (handleRollbackConnection s).
Proof. unfold handleRollbackConnection, conn_missing. api_tac. Qed.
End sites.

(** The pack directory is written by the manager of the packs and by the marketplace. *)
Section packs.
Context (Hpacks : ∀ A (m : Prog (Host PackStore.Manager) A), keeps R (on_packs m)).
Context (Htree : ∀ A (m : Prog TreeHost A), keeps R (on_tree m)).
Hint Resolve Hpacks Htree : worm.

Lemma wk_fetch prefix p r k : (∀ data, keeps R (k data)) → keeps R (fetch_artifact s prefix p r k).
Proof. intros Hk. unfold fetch_artifact. api_tac; apply Hk. Qed.
Lemma wk_cached p r : keeps R (cached_artifact s p r).
Proof. unfold cached_artifact. api_tac. Qed.
Hint Resolve wk_cached : worm.
Lemma wk_activate sel r f x pinned data : keeps R (activate_artifact sel r f x pinned data).
Proof. unfold activate_artifact. api_tac. Qed.
Hint Resolve wk_activate : worm.
Lemma wk_install_artifact req sel r f x : keeps R (install_artifact s req sel r f x).
Proof. unfold install_artifact. api_tac; apply wk_fetch; intros data; api_tac. Qed.
Hint Resolve wk_install_artifact : worm.
Lemma wk_install_release req sel r : keeps R (install_release s req sel r).
Proof. unfold install_release, install_over, already_active. api_tac. Qed.
Hint Resolve wk_install_release : worm.
Lemma wk_handleMarketplaceInstall r : keeps R (handleMarketplaceInstall s r).
Proof. unfold handleMarketplaceInstall. api_tac. Qed.
Hint Resolve wk_handleMarketplaceInstall : worm.
Lemma wk_upgrade_each c m l : keeps R (upgrade_each s c m l).
Proof. induction l as [|n l IH]; cbn [upgrade_each]; unfold upgrade_one; api_tac; exact IH. Qed.
Hint Resolve wk_upgrade_each : worm.
Lemma wk_handleMarketplaceUpgrade r : keeps R (handleMarketplaceUpgrade s r).
Proof. unfold handleMarketplaceUpgrade. api_tac. Qed.
Lemma wk_handleMarketplaceRemove name : keeps R (handleMarketplaceRemove s name).
Proof. unfold handleMarketplaceRemove. api_tac. Qed.
Lemma wk_handleMarketplaceFetch r : keeps R (handleMarketplaceFetch s r).
Proof. unfold handleMarketplaceFetch, fetched. api_tac; apply wk_fetch; intros data; api_tac. Qed.
Lemma wk_handleMarketplaceRefresh : keeps R (handleMarketplaceRefresh s).
Proof. unfold handleMarketplaceRefresh, writeMarketplaceStatus. api_tac. Qed.
Lemma wk_handleActivatePack r : keeps R (handleActivatePack s r).
Proof. unfold handleActivatePack, activate_in_memory, bad_body. api_tac. Qed.
Lemma wk_handleRollbackPack r : keeps R (handleRollbackPack s r).
Proof. unfold handleRollbackPack. api_tac. Qed.
End packs.
End writing.
