(* ===== verification/ApiSafety.v ===== *)
(** * The management API: who may change what, and what the pipeline sees of it *)

From S2P Require Import Connections FileTree Catalog Market.
From S2P Require Import Prelude GoStrings GoNum GoTime GoPath GoJson GoHttp Model Decoder Registry Csv Json Xml Decoders Extract Pack Snapshot Disk DiskSpec PackStore.
From S2P Require Import PackCrash World RawStore Outbox Pipeline Accounting Lifecycle.
From S2P Require Export Monad ApiCore ApiStore ApiPacks ApiServer ApiSpec.

#[local] Open Scope monad_scope.

(** ** Parts of the backend that stay as they are *)

Lemma add_delivered_0 c : c = add_delivered 0 c.
Proof. destruct c. unfold add_delivered. cbn. f_equal; lia. Qed.
Lemma add_delivered_add c d d' : add_delivered d' (add_delivered d c) = add_delivered (d + d') c.
Proof. unfold add_delivered. cbn. f_equal; lia. Qed.

(** The records, the queue, and the counters but for [delivered], which a report refreshes. *)
Record pipe_same (p p' : PState) : Prop := {
  ps_db : w_db (ps_world p') = w_db (ps_world p);
  ps_sent : w_emitted (ps_world p') = w_emitted (ps_world p);
  ps_counters : ∃ d, w_cnt (ps_world p') = add_delivered d (w_cnt (ps_world p));
  ps_queue : ps_inbound p' = ps_inbound p ∧ ps_closed p' = ps_closed p }.
#[export] Instance pipe_same_preorder : PreOrder pipe_same.
Proof.
  split.
  - intros p. split; try done. exists 0. apply add_delivered_0.
  - intros x y z [Hd He [d Hc] [Hq Hx]] [Hd' He' [d' Hc'] [Hq' Hx']]. split; [congruence..| |split; congruence].
    exists (d + d'). by rewrite Hc', Hc, add_delivered_add.
Qed.

Definition records_same (b b' : Backend) : Prop := pipe_same (be_pipe b) (be_pipe b') ∧ quiet (be_site b) (be_site b').
Definition packs_same (b b' : Backend) : Prop :=
  h_disk (be_packs b') = h_disk (be_packs b) ∧ h_own (be_packs b') = h_own (be_packs b) ∧ unchanged (be_tree b) (be_tree b').

#[export] Instance records_same_preorder : PreOrder records_same.
Proof. split; [by split|]. intros x y z [? ?] [? ?]. split; by etransitivity. Qed.
#[export] Instance packs_same_preorder : PreOrder packs_same.
Proof. split; [done|]. intros x y z (? & ? & ?) (? & ? & ?). split_and!; [congruence..|]. by transitivity (be_tree y). Qed.

(** Programs over one part, as programs over the backend. *)
Section lift.
Context (R : Backend → Backend → Prop).
Lemma lift_store {A} (m : M A) : (∀ b, R b (set_pipe b (at_world (be_pipe b) (m (ps_world (be_pipe b))).2))) → keeps R (on_store m).
Proof. intros H b. specialize (H b). unfold on_store. by destruct (m _). Qed.
Lemma lift_packs {A} (m : Prog (Host PackStore.Manager) A) : (∀ b, R b (set_packs b (m (be_packs b)).2)) → keeps R (on_packs m).
Proof. intros H b. specialize (H b). unfold on_packs. by destruct (m _). Qed.
Lemma lift_tree {A} (m : Prog TreeHost A) : (∀ b, R b (set_tree b (m (be_tree b)).2)) → keeps R (on_tree m).
Proof. intros H b. specialize (H b). unfold on_tree. by destruct (m _). Qed.
Lemma lift_site {A} (m : Prog Site A) : (∀ b, R b (set_site b (m (be_site b)).2)) → keeps R (on_site m).
Proof. intros H b. specialize (H b). unfold on_site. by destruct (m _). Qed.
End lift.

Section instances.
Context `{Env} `{FsEnv} `{PackCodec}.

Lemma world_same_pipe w w' p : world_same w w' → ps_world p = w → pipe_same p (at_world p w').
Proof.
  intros [[Hc _ He _ _ _] Hd] <-. split; cbn; try done. exists 0. rewrite Hc. apply add_delivered_0.
Qed.

Definition delivered_only (w w' : World) : Prop :=
  w_db w' = w_db w ∧ w_emitted w' = w_emitted w ∧ ∃ d, w_cnt w' = add_delivered d (w_cnt w).
#[local] Instance delivered_only_preorder : PreOrder delivered_only.
Proof.
  split.
  - intros w. split_and!; [done..|]. exists 0. apply add_delivered_0.
  - intros x y z (Hd & He & d & Hc) (Hd' & He' & d' & Hc'). split_and!; [congruence..|]. exists (d + d').
    by rewrite Hc', Hc, add_delivered_add.
Qed.
Lemma delivered_query {A} (f : Db → res A) : keeps delivered_only (query f).
Proof.
  apply (keeps_mono _ world_same); [|apply ws_query]. intros w w' [[Hc _ He _ _ _] Hd]. split_and!; [done..|]. exists 0.
  rewrite Hc. apply add_delivered_0.
Qed.
Lemma delivered_Stats cfg : keeps delivered_only (Stats cfg).
Proof.
  unfold Stats, CountNormalized, CountQuarantine, CountDistinctDelivered, CountDistinctPending, CountDistinctFailed.
  keeps_tac; try apply delivered_query.
  - intros w. split_and!; [done..|]. eexists. reflexivity.
  - intros w. destruct a1 as [[? ?] ?]. reflexivity.
Qed.

#[export] Instance records_kept s : ReadsKept s records_same.
Proof.
  split; [apply _|..].
  - intros A m Hm. apply lift_store. intros b. split; [|done]. cbn. eapply world_same_pipe; [apply Hm|done].
  - intros cfg _. apply lift_store. intros b. split; [|done]. cbn. destruct (delivered_Stats cfg (ps_world (be_pipe b))) as (? & ? & ?).
    by split.
  - intros A m _. by apply lift_packs.
  - intros A m _. by apply lift_tree.
  - intros A m Hm. apply lift_site. intros b. split; [done|]. apply Hm.
  - intros b. by split.
  - intros now z b. unfold measure_eps. by destruct (f64_leb _ _).
Qed.

#[export] Instance packs_kept s : ReadsKept s packs_same.
Proof.
  split; [apply _|..].
  - intros A m _. by apply lift_store.
  - intros cfg _. by apply lift_store.
  - intros A m Hm. apply lift_packs. intros b. destruct (Hm (be_packs b)) as [Ha Hd]. split_and!; [exact Hd|apply Ha|done].
  - intros A m Hm. apply lift_tree. intros b. split_and!; [done..|]. apply Hm.
  - intros A m _. by apply lift_site.
  - intros b. done.
  - intros now z b. unfold measure_eps. by destruct (f64_leb _ _).
Qed.
Lemma packs_store {A} (m : M A) : keeps packs_same (on_store m).
Proof. by apply lift_store. Qed.
Lemma packs_site A (m : Prog Site A) : keeps packs_same (on_site m).
Proof. by apply lift_site. Qed.
End instances.

(** ** Answers that do not depend on the payloads of the raw records

    [blind m]: forgetting the payloads before or after running [m] is the same, so that neither
    its result nor what else it leaves can tell them. *)

Definition without_payload (r : RawRow) : RawRow :=
  {| re_RawID := re_RawID r; re_Duplicate := re_Duplicate r; re_RawSHA256 := re_RawSHA256 r; re_ByteCount := re_ByteCount r;
     re_Transport := re_Transport r; re_SourceIP := re_SourceIP r; re_SourcePort := re_SourcePort r; re_Metadata := re_Metadata r;
     re_ReceivedAt := re_ReceivedAt r; re_Payload := ""; re_Status := re_Status r |}.
Definition forget_world (w : World) : World := set_db w (with_raws (w_db w) (without_payload <$> raws (w_db w))).
Definition forget_payloads (b : Backend) : Backend := set_pipe b (at_world (be_pipe b) (forget_world (ps_world (be_pipe b)))).

Definition commutes {S A} (f : S → S) (m : Prog S A) : Prop := ∀ x, m (f x) = ((m x).1, f (m x).2).

Section commutes.
Context {S : Type} (f : S → S).
Lemma cm_ret {A} (a : A) : commutes f (ret a).
Proof. by intros x. Qed.
Lemma cm_fail {A} e : commutes f (@fail S A e).
Proof. by intros x. Qed.
Lemma cm_mcall {A} (r : res A) : commutes f (mcall r).
Proof. by intros x. Qed.
Lemma cm_bind {A B} (m : Prog S A) (k : A → Prog S B) : commutes f m → (∀ a, commutes f (k a)) → commutes f (bind m k).
Proof. intros Hm Hk x. unfold bind. rewrite Hm. destruct (m x) as [[a|e|q] y]; [apply Hk|done..]. Qed.
Lemma cm_try {A} (m : Prog S A) : commutes f m → commutes f (try m).
Proof. intros Hm x. unfold try. rewrite Hm. by destruct (m x) as [[a|e|q] y]. Qed.
(** States that differ in what is forgotten give the same result. *)
Lemma cm_same {A} (m : Prog S A) x y : commutes f m → f x = f y → (m x).1 = (m y).1.
Proof. intros Hm E. pose proof (Hm x) as Hx. rewrite E, Hm in Hx. by injection Hx. Qed.
End commutes.
Abbreviation blind := (commutes forget_payloads).

Section blind_store.
Context `{Env}.
(** A query that does not look at payloads. *)
Lemma cm_query {A} (g : Db → res A) : (∀ db, g (with_raws db (without_payload <$> raws db)) = g db) → commutes forget_world (query g).
Proof.
  intros Hg w. unfold query, db_call. cbn [forget_world set_db w_db w_calls]. rewrite Hg. destruct (fault _); [done|].
  by destruct (g (w_db w)) as [a|e|q].
Qed.

Lemma bl_store {A} (m : M A) : commutes forget_world m → blind (on_store m).
Proof. intros Hm b. unfold on_store. cbn [forget_payloads set_pipe be_pipe at_world ps_world]. rewrite Hm. by destruct (m _). Qed.
Lemma bl_packs {A} (m : Prog (Host PackStore.Manager) A) : blind (on_packs m).
Proof. intros b. unfold on_packs. cbn [forget_payloads set_pipe be_packs]. by destruct (m _). Qed.
Lemma bl_tree {A} (m : Prog TreeHost A) : blind (on_tree m).
Proof. intros b. unfold on_tree. cbn [forget_payloads set_pipe be_tree]. by destruct (m _). Qed.
Lemma bl_site {A} (m : Prog Site A) : blind (on_site m).
Proof. intros b. unfold on_site. cbn [forget_payloads set_pipe be_site]. by destruct (m _). Qed.
Lemma bl_tick : blind api_tick.
Proof. by intros b. Qed.
Lemma bl_eps now z : blind (measure_eps now z).
Proof. intros b. unfold measure_eps. cbn [forget_payloads set_pipe be_eps]. by destruct (f64_leb _ _). Qed.
Lemma bl_checked {A} (m : H A) bad k : blind m → (∀ e, blind (bad e)) → (∀ a, blind (k a)) → blind (checked m bad k).
Proof. intros Hm Hb Hk. apply cm_bind; [by apply cm_try|]. intros [a|e|q]; [apply Hk|apply Hb|apply cm_mcall]. Qed.
End blind_store.

(** [blind_tac]: through the structure of a program. *)
Ltac blind_step :=
  match goal with
  | |- commutes _ (checked _ _ _) => apply bl_checked; [|intros ?|intros ?]
  | |- commutes _ (bind _ _) => apply cm_bind; [|intros ?]
  | |- commutes _ (try _) => apply cm_try
  | |- commutes _ (ret _) => apply cm_ret
  | |- commutes _ (fail _) => apply cm_fail
  | |- commutes _ (mcall _) => apply cm_mcall
  | |- commutes _ (reply _ _) => apply cm_ret
  | |- commutes _ (reject _ _) => apply cm_ret
  | |- commutes _ (refuse_with _ _ _) => apply cm_ret
  | |- commutes _ (refuse_err _ _) => apply cm_ret
  | |- commutes _ (on_packs _) => apply bl_packs
  | |- commutes _ (on_tree _) => apply bl_tree
  | |- commutes _ (on_site _) => apply bl_site
  | |- commutes _ api_tick => apply bl_tick
  | |- commutes _ (measure_eps _ _) => apply bl_eps
  | |- commutes _ (on_store _) => apply bl_store
  | |- commutes _ (query _) => apply cm_query; reflexivity
  | |- commutes _ (query_row _) => apply cm_query; reflexivity
  | |- commutes _ (count_add _) => intros ?; reflexivity
  | |- commutes _ (match ?x with _ => _ end) => destruct x
  | |- commutes _ (let _ := _ in _) => cbv zeta
  | |- commutes _ _ => solve [eauto with worm]
  end.
Ltac blind_tac := repeat blind_step.

Section blind.
Context (fmt_float : f64 → string) (time_Parse : string → string → option gtime) (currentYear : Z).
Context `{GoPlatform} `{MapOrder} `{XmlEnv} `{Env} `{FsEnv} `{TreeEnv} `{SemVer} `{CatalogEnv} `{PackCodec} `{MarketEnv}.
Context `{ConnEnv} `{Probes} `{ApiEnv} (FileServer : Request → Z * string * string) (s : Server).

Lemma bl_time_Now : blind time_Now.
Proof. unfold time_Now. blind_tac. Qed.
Lemma bl_active : blind active_snapshot.
Proof. unfold active_snapshot. blind_tac. Qed.
Lemma bl_file f : blind (read_pack_file s f).
Proof. unfold read_pack_file. blind_tac. Qed.
Lemma bl_stat f : blind (stat_pack_file s f).
Proof. unfold stat_pack_file. blind_tac. Qed.
Lemma bl_manifest : blind (read_manifest s).
Proof. unfold read_manifest. blind_tac. Qed.
Lemma bl_catalog : blind (read_catalog s).
Proof. unfold read_catalog. blind_tac. Qed.
Hint Resolve bl_time_Now bl_active bl_file bl_stat bl_manifest bl_catalog : worm.
Lemma bl_modified e : blind (file_modified s e).
Proof. unfold file_modified. blind_tac. Qed.
Hint Resolve bl_modified : worm.
Lemma bl_states m l : blind (pack_states s m l).
Proof. induction l as [|p l IH]; cbn [pack_states]; blind_tac; exact IH. Qed.
Lemma bl_pack_installs m l : blind (pack_installs s m l).
Proof. induction l as [|p l IH]; cbn [pack_installs]; blind_tac; exact IH. Qed.
Hint Resolve bl_states bl_pack_installs : worm.

Lemma bl_handleHealth : blind (handleHealth s).
Proof. unfold handleHealth, Ping. blind_tac. Qed.
Lemma bl_Stats cfg : commutes forget_world (Stats cfg).
Proof.
  unfold Stats, CountNormalized, CountQuarantine, CountDistinctDelivered, CountDistinctPending, CountDistinctFailed.
  blind_tac. intros w. by destruct a1 as [[d p] f].
Qed.
Lemma bl_pipe_load stats : blind (pipe_load s stats).
Proof. unfold pipe_load, UnmappedCount, CountUnmapped. blind_tac; by intros b. Qed.
Hint Resolve bl_Stats bl_pipe_load : worm.
Lemma bl_handleStats : blind (handleStats s).
Proof. unfold handleStats. blind_tac. Qed.
Lemma bl_handleListEvents r : blind (handleListEvents r).
Proof. unfold handleListEvents, ListNormalized. blind_tac. Qed.
Lemma bl_handleGetEvent id : blind (handleGetEvent id).
Proof. unfold handleGetEvent, with_id, GetNormalizedByID. blind_tac. Qed.
Lemma bl_handleListQuarantine r : blind (handleListQuarantine r).
Proof. unfold handleListQuarantine, ListQuarantinePaged, GetQuarantined. blind_tac. Qed.
Lemma bl_handleListSources : blind handleListSources.
Proof. unfold handleListSources, ListSources. blind_tac. Qed.
Lemma bl_handleConfig : blind (handleConfig s).
Proof. unfold handleConfig. blind_tac. Qed.
Lemma bl_handleListPacks : blind (handleListPacks s).
Proof. unfold handleListPacks, with_active. blind_tac. Qed.
Lemma bl_handleGetPack name : blind (handleGetPack s name).
Proof. unfold handleGetPack, with_active, chosen_file, pack_not_found, reply_yaml. blind_tac. Qed.
Lemma bl_handleValidatePack r : blind (handleValidatePack fmt_float time_Parse currentYear r).
Proof. unfold handleValidatePack, bad_body. blind_tac. Qed.
Lemma bl_handleMarketplacePacks r : blind (handleMarketplacePacks s r).
Proof. unfold handleMarketplacePacks. blind_tac. Qed.
Lemma bl_handleMarketplacePack name : blind (handleMarketplacePack s name).
Proof. unfold handleMarketplacePack. blind_tac. Qed.
Lemma bl_handleMarketplaceStatus : blind (handleMarketplaceStatus s).
Proof. unfold handleMarketplaceStatus, cached_catalog. blind_tac. Qed.
Lemma bl_handleListConnections : blind (handleListConnections s).
Proof. unfold handleListConnections. blind_tac. Qed.
Lemma bl_handleGetConnection name : blind (handleGetConnection s name).
Proof. unfold handleGetConnection, conn_missing, reply_yaml. blind_tac. Qed.
Lemma bl_handleValidateConnection r : blind (handleValidateConnection r).
Proof. unfold handleValidateConnection, bad_body. blind_tac. Qed.
Lemma bl_handleStaticOrSPA r : blind (handleStaticOrSPA FileServer s r).
Proof. unfold handleStaticOrSPA, html. blind_tac. Qed.

Definition verify_pattern : Pattern := pattern "POST /api/v1/events/{id}/verify".

(** The routes that anyone may use, but for the verification of an event, which recomputes its
    digests. *)
Lemma routes_blind :
  Forall (λ rt, rt_Guard rt = Unguarded → rt_Pattern rt ≠ verify_pattern → ∀ r v, blind (rt_Handle rt r v))
    (routes fmt_float time_Parse currentYear s).
Proof.
  unfold routes, route. repeat apply Forall_cons_2; [..|apply Forall_nil_2]; cbn [rt_Guard rt_Pattern rt_Handle]; intros Hg Hp r v;
    try discriminate Hg.
  all: first
    [ apply bl_handleHealth | apply bl_handleStats | apply bl_handleListEvents | apply bl_handleGetEvent | apply bl_handleListQuarantine
    | apply bl_handleListSources | apply bl_handleConfig | apply bl_handleListPacks | apply bl_handleGetPack | apply bl_handleValidatePack
    | apply bl_handleMarketplacePacks | apply bl_handleMarketplacePack | apply bl_handleMarketplaceStatus | apply bl_handleListConnections
    | apply bl_handleGetConnection | apply bl_handleValidateConnection | by destruct Hp ].
Qed.
End blind.

(** ** Every route under its guard *)

Section routes.
Context (fmt_float : f64 → string) (time_Parse : string → string → option gtime) (currentYear : Z).
Context `{GoPlatform} `{MapOrder} `{XmlEnv} `{Env} `{FsEnv} `{TreeEnv} `{SemVer} `{CatalogEnv} `{PackCodec} `{MarketEnv}.
Context `{ConnEnv} `{Probes} `{ApiEnv} (FileServer : Request → Z * string * string) (s : Server).

Definition handler_safe (g : guard) (h : H Response) : Prop :=
  match g with
  | Unguarded => keeps records_same h ∧ keeps packs_same h
  | AdminAuth => keeps packs_same h
  | ConfiguredAuth => True
  end.

Lemma routes_safe :
  Forall (λ rt, ∀ r v, handler_safe (rt_Guard rt) (rt_Handle rt r v)) (routes fmt_float time_Parse currentYear s).
Proof.
  unfold routes, route. repeat apply Forall_cons_2; [..|apply Forall_nil_2]; cbn [rt_Guard rt_Handle handler_safe]; intros; try exact I.
  all: try refine (conj _ _).
  all: first
    [ eapply rk_handleHealth | eapply rk_handleStats | eapply rk_handleListEvents | eapply rk_handleGetEvent | eapply rk_handleEventTrace
    | eapply rk_handleGetRaw | eapply rk_handleVerifyRaw | eapply rk_handleVerifyEvent | eapply rk_handleListQuarantine | eapply rk_handleListSources
    | eapply rk_handleConfig | eapply rk_handleListPacks | eapply rk_handleGetPack | eapply (rk_handleValidatePack _ _ _ s) | eapply rk_handleMarketplacePacks
    | eapply rk_handleMarketplacePack | eapply rk_handleMarketplaceStatus | eapply rk_handleListConnections | eapply rk_handleGetConnection
    | eapply rk_handleValidateConnection | eapply rk_handleTestConnection
    | apply (wk_handleReplayQuarantine _ _ _ _ packs_same); intros; apply packs_store
    | apply (wk_handleReplayAllQuarantine _ _ _ _ packs_same); intros; apply packs_store
    | apply (wk_handleApplyConnection _ packs_same packs_site) | apply (wk_handleRollbackConnection _ packs_same packs_site)
    | idtac ].
  all: try apply _.
  Unshelve. all: first [exact s|apply _].
Qed.

Lemma find_route_elem m path rt vs : find_route fmt_float time_Parse currentYear s m path = Some (rt, vs) →
  rt ∈ routes fmt_float time_Parse currentYear s ∧ match_pattern (rt_Pattern rt) m path = Some vs.
Proof.
  unfold find_route. intros Hh%head_Some_elem_of. apply list_elem_of_omap in Hh as (rt' & Hin & Hm).
  destruct (match_pattern (rt_Pattern rt') m path) as [vs'|] eqn:E; [|done]. by injection Hm as <- <-.
Qed.

(** What a request may do without the token, and what it may do where no token is set. *)
Definition presents (r : Request) : Prop := provided_token r = admin_token s.
Definition guarded_run {A} (r : Request) (m : H A) : Prop := ∀ b,
  (records_same b (m b).2 ∨ admin_token s = "" ∨ presents r) ∧ (packs_same b (m b).2 ∨ (admin_token s ≠ "" ∧ presents r)).

Lemma guarded_run_safe r h : handler_safe Unguarded h → guarded_run r h.
Proof. intros (H1' & H2') b. split; left; [apply H1'|apply H2']. Qed.

Lemma reject_safe code msg : handler_safe Unguarded (reject code msg).
Proof. split; apply keeps_ret, _. Qed.

Lemma guarded_route g h r : (∀ r, handler_safe g (h r)) → guarded_run r (guarded s g h r).
Proof.
  intros Hh. specialize (Hh r). destruct g; cbn [guarded].
  - by apply guarded_run_safe.
  - unfold requireAdminAuth. destruct (_ && _) eqn:E; [apply guarded_run_safe, reject_safe|].
    intros b. split; [right|left; apply Hh].
    apply andb_false_iff in E as [E|E]; apply negb_false_iff, String.eqb_eq in E; auto.
  - unfold requireConfiguredAdminAuth. destruct (String.eqb_spec (admin_token s) "") as [|Hne]; [apply guarded_run_safe, reject_safe|].
    destruct (provided_token r <>s admin_token s) eqn:E; [apply guarded_run_safe, reject_safe|].
    apply negb_false_iff, String.eqb_eq in E. intros b. auto.
Qed.

Lemma serve_mux_guarded r : guarded_run r (serve_mux fmt_float time_Parse currentYear FileServer s r).
Proof.
  unfold serve_mux. destruct (_ && _); [apply guarded_run_safe; split; apply keeps_ret, _|].
  destruct (find_route _ _ _ _ _ _) as [[rt vs]|] eqn:E.
  - apply find_route_elem in E as [Hin _]. apply guarded_route. intros r'. pose proof routes_safe as Hs. rewrite Forall_forall in Hs. by apply Hs.
  - apply guarded_run_safe. split; eapply (rk_handleStaticOrSPA _ s), _.
Qed.

(** The request asks for the verification of an event. *)
Definition verifies_event (r : Request) : bool :=
  (rq_Method r =s "POST")
  && match path_segments (rq_Path r) with
     | [api; v1; events; _; verify] => (api =s "api") && (v1 =s "v1") && (events =s "events") && (verify =s "verify")
     | _ => false
     end.

Lemma verify_pattern_spec r vs :
  match_pattern verify_pattern (rq_Method r) (path_segments (rq_Path r)) = Some vs → verifies_event r = true.
Proof.
  unfold match_pattern, match_method, verify_pattern. change (pattern _) with
    {| pt_Method := "POST"; pt_Path := [Lit "api"; Lit "v1"; Lit "events"; Wild "id"; Lit "verify"] |}. cbn [pt_Method pt_Path].
  unfold verifies_event. destruct (String.eqb_spec (rq_Method r) "POST") as [->|Hne].
  2: { rewrite (String.eqb_sym "POST" (rq_Method r)). apply String.eqb_neq in Hne. by rewrite Hne. }
  change (("POST" =s "") || ("POST" =s "POST") || ("POST" =s "GET") && ("HEAD" =s "POST")) with true. cbn iota.
  destruct (path_segments (rq_Path r)) as [|a [|b [|c [|d [|e [|? ?]]]]]]; cbn [match_segments andb]; try (repeat case_match; done).
  rewrite (String.eqb_sym a), (String.eqb_sym b), (String.eqb_sym c), (String.eqb_sym e). destruct ("api" =s a), ("v1" =s b), ("events" =s c); try done.
  cbn [andb]. destruct ("verify" =s e); [done|]. by destruct ((d =s "") || (d =s "/")).
Qed.

(** Without the token, no answer tells anything of the payloads. *)
Lemma serve_mux_blind r :
  verifies_event r = false → admin_token s ≠ "" → ¬ presents r → blind (serve_mux fmt_float time_Parse currentYear FileServer s r).
Proof.
  intros Hv Ht Hp. unfold serve_mux. destruct (_ && _); [apply cm_ret|].
  destruct (find_route _ _ _ _ _ _) as [[rt vs]|] eqn:E; [|apply bl_handleStaticOrSPA].
  apply find_route_elem in E as [Hin Hm]. pose proof (routes_blind fmt_float time_Parse currentYear s) as Hb. rewrite Forall_forall in Hb.
  specialize (Hb rt Hin). apply String.eqb_neq in Ht, Hp. destruct (rt_Guard rt); cbn [guarded].
  - apply Hb; [done|]. intros Heq. rewrite Heq in Hm. apply verify_pattern_spec in Hm. congruence.
  - unfold requireAdminAuth. rewrite Ht, Hp. apply cm_ret.
  - unfold requireConfiguredAdminAuth. rewrite Ht, Hp. apply cm_ret.
Qed.
End routes.

(** ** Properties *)


(** * What the API does to the pipeline *)


(** Reading the database: a call is counted, and that is all. *)
Record read_step (p p' : PState) : Prop := {
  rs_world : world_same (ps_world p) (ps_world p');
  rs_queue : ps_inbound p' = ps_inbound p; rs_closed : ps_closed p' = ps_closed p }.

Section refinement.
Context (fmt_float : f64 → string) (time_Parse : string → string → option gtime) (currentYear : Z).
Context `{GoPlatform} `{MapOrder} `{Env}.

(** A read of the database, or one of the two operations of the server's pipeline that
    handlers call, with whatever packs are active. *)
Inductive api_step (s : Server) (p p' : PState) : Prop :=
| api_read : read_step p p' → api_step s p p'
| api_stats cfg : sv_pipe s = Some cfg → p' = at_world p (Stats cfg (ps_world p)).2 → api_step s p p'
| api_replay cfg snap id :
    sv_pipe s = Some cfg → 
    p' = at_world p (Replay fmt_float time_Parse currentYear (pipe_config s cfg snap) id (ps_world p)).2 → api_step s p p'.

(** The operations of the pipeline are its own steps. *)
Lemma api_step_pstep s p p' : api_step s p p' →
  read_step p p' ∨ ∃ cfg, pstep fmt_float time_Parse currentYear cfg (sv_bufferSize s) p p'.
Proof.
  intros [Hr|cfg _ ->|cfg snap id _ ->]; [by left|right..]; eexists; [eapply (step_stats _ _ _ cfg)|apply step_replay].
Qed.

Definition pipeline_steps (s : Server) (b b' : Backend) : Prop := rtc (api_step s) (be_pipe b) (be_pipe b').
#[export] Instance pipeline_steps_preorder s : PreOrder (pipeline_steps s).
Proof. split; [intros b; apply rtc_refl|]. intros x y z Hxy Hyz. unfold pipeline_steps in *. by etransitivity. Qed.

Lemma steps_packs `{FsEnv} s A (m : Prog (Host PackStore.Manager) A) : keeps (pipeline_steps s) (on_packs m).
Proof. apply lift_packs. intros b. apply rtc_refl. Qed.
Lemma steps_tree s A (m : Prog TreeHost A) : keeps (pipeline_steps s) (on_tree m).
Proof. apply lift_tree. intros b. apply rtc_refl. Qed.
Lemma steps_site s A (m : Prog Site A) : keeps (pipeline_steps s) (on_site m).
Proof. apply lift_site. intros b. apply rtc_refl. Qed.

#[export] Instance steps_kept `{FsEnv} s : ReadsKept s (pipeline_steps s).
Proof.
  split; [apply _|..].
  - intros A m Hm. apply lift_store. intros b. apply rtc_once, api_read. split; [apply Hm|done..].
  - intros cfg Hc. apply lift_store. intros b. by apply rtc_once, (api_stats s _ _ cfg).
  - intros A m _. apply steps_packs.
  - intros A m _. apply steps_tree.
  - intros A m _. apply steps_site.
  - intros b. apply rtc_refl.
  - intros now z b. unfold measure_eps. destruct (f64_leb _ _); apply rtc_refl.
Qed.

Lemma steps_replay s cfg snap id : sv_pipe s = Some cfg →
  keeps (pipeline_steps s) (on_store (Replay fmt_float time_Parse currentYear (pipe_config s cfg snap) id)).
Proof. intros Hc. apply lift_store. intros b. by apply rtc_once, (api_replay s _ _ cfg snap id). Qed.

(** The accounting equation survives every such step. *)
Lemma api_step_accounted s p p' : api_step s p p' → keeps_accounted (ps_world p) (ps_world p').
Proof.
  intros [[[Hr Hd] _ _]|(cfg & Hs)]%api_step_pstep; [|by eapply acc_step]. unfold keeps_accounted, accounted, slack.
  by rewrite (sr_cnt _ _ Hr), Hd.
Qed.
Lemma api_steps_accounted s p p' : rtc (api_step s) p p' → keeps_accounted (ps_world p) (ps_world p').
Proof. induction 1 as [|p q p' Hs _ IH]; [done|]. etransitivity; [by eapply api_step_accounted|exact IH]. Qed.
End refinement.

Section handler.
Context (fmt_float : f64 → string) (time_Parse : string → string → option gtime) (currentYear : Z).
Context `{GoPlatform} `{MapOrder} `{XmlEnv} `{Env} `{FsEnv} `{TreeEnv} `{SemVer} `{CatalogEnv} `{PackCodec} `{MarketEnv}.
Context `{ConnEnv} `{Probes} `{ApiEnv} (FileServer : Request → Z * string * string) (s : Server).

Lemma routes_refine :
  Forall (λ rt, ∀ r v, keeps (pipeline_steps fmt_float time_Parse currentYear s) (rt_Handle rt r v)) (routes fmt_float time_Parse currentYear s).
Proof.
  unfold routes, route. repeat apply Forall_cons_2; [..|apply Forall_nil_2]; cbn [rt_Handle]; intros.
  all: first
    [ eapply rk_handleHealth | eapply rk_handleStats | eapply rk_handleListEvents | eapply rk_handleGetEvent | eapply rk_handleEventTrace
    | eapply rk_handleGetRaw | eapply rk_handleVerifyRaw | eapply rk_handleVerifyEvent | eapply rk_handleListQuarantine | eapply rk_handleListSources
    | eapply rk_handleConfig | eapply rk_handleListPacks | eapply rk_handleGetPack | eapply (rk_handleValidatePack _ _ _ s) | eapply rk_handleMarketplacePacks
    | eapply rk_handleMarketplacePack | eapply rk_handleMarketplaceStatus | eapply rk_handleListConnections | eapply rk_handleGetConnection
    | eapply rk_handleValidateConnection | eapply rk_handleTestConnection
    | eapply (wk_handleReplayQuarantine _ _ _ s (pipeline_steps fmt_float time_Parse currentYear s)), steps_replay
    | eapply (wk_handleReplayAllQuarantine _ _ _ s (pipeline_steps fmt_float time_Parse currentYear s)), steps_replay
    | eapply (wk_handleApplyConnection s _ (steps_site _ _ _ s)) | eapply (wk_handleRollbackConnection s _ (steps_site _ _ _ s))
    | eapply (wk_handleMarketplaceRefresh s _ (steps_tree _ _ _ s)) | eapply (wk_handleMarketplaceFetch s _ (steps_tree _ _ _ s))
    | eapply (wk_handleActivatePack s _ (steps_packs _ _ _ s)) | eapply (wk_handleRollbackPack s _ (steps_packs _ _ _ s))
    | eapply (wk_handleMarketplaceRemove s _ (steps_packs _ _ _ s))
    | eapply (wk_handleMarketplaceInstall s _ (steps_packs _ _ _ s) (steps_tree _ _ _ s))
    | eapply (wk_handleMarketplaceUpgrade s _ (steps_packs _ _ _ s) (steps_tree _ _ _ s))
    | idtac ].
  all: try apply _.
  Unshelve. intros. apply steps_tree.
Qed.

Lemma mux_refine r : keeps (pipeline_steps fmt_float time_Parse currentYear s) (serve_mux fmt_float time_Parse currentYear FileServer s r).
Proof.
  unfold serve_mux. destruct (_ && _); [apply keeps_ret, _|].
  destruct (find_route _ _ _ _ _ _) as [[rt vs]|] eqn:E; [|by eapply (rk_handleStaticOrSPA _ s), _].
  apply find_route_elem in E as [Hin _]. pose proof routes_refine as Hr. rewrite Forall_forall in Hr.
  destruct (rt_Guard rt); cbn [guarded]; unfold requireAdminAuth, requireConfiguredAdminAuth; repeat case_match;
    first [by apply Hr|apply keeps_pure, _].
Qed.
End handler.

(** ** Property *)

(** C14: the management API only ever uses the pipeline.  Whatever request is served, with
    whatever packs active, whatever calls fail and whatever its outcome, the handler takes
    the pipeline from its state before to its state after by the two operations
    [Stats] and [Replay] and by reads of the database, any number of times: so the accounting of every
    accepted record survives every request. *)
Theorem Handler_refines_pipeline (fmt_float : f64 → string) (time_Parse : string → string → option gtime) (currentYear : Z)
    (plat : GoPlatform) (ord : MapOrder) (xml : XmlEnv) (env : Env) (fs : FsEnv) (tree : TreeEnv) (sv : SemVer) (cat : CatalogEnv)
    (codec : PackCodec) (market : MarketEnv) (conn : ConnEnv) (probes : Probes) (api : ApiEnv)
    (FileServer : Request → Z * string * string) (s : Server) (r : Request) (b : Backend) :
  let '(_, b') := Handler fmt_float time_Parse currentYear FileServer s r b in
  rtc (api_step fmt_float time_Parse currentYear s) (be_pipe b) (be_pipe b')
  ∧ keeps_accounted (ps_world (be_pipe b)) (ps_world (be_pipe b')).
Proof.
  unfold Handler, corsMiddleware, limitRequestBody, bind. cbv zeta. destruct (rq_Method r =s "OPTIONS").
  { split; [apply rtc_refl|]. reflexivity. }
  pose proof (mux_refine fmt_float time_Parse currentYear FileServer s (MaxBytesReader (2 ^ 20) r) b) as Hg.
  destruct (serve_mux _ _ _ _ _ _ b) as [[x|e|q] b'];
    (split; [exact Hg|exact (api_steps_accounted _ _ _ s _ _ Hg)]).
Qed.
