(* ===== verification/ApiInstall.v ===== *)
(** * Installation over the management API: only verified artifacts, and never over local changes *)

From S2P Require Import Connections FileTree Catalog CatalogSpec Market MarketSafety.
From S2P Require Import Prelude GoStrings GoNum GoIO GoTime GoPath GoHttp Model Decoder Registry Csv Json Xml Decoders Extract Pack Snapshot Disk DiskSpec PackStore.
From S2P Require Import MarketSamples PackJournal PackCrash PackOps PackLive PackSamples PackSafety Samples World RawStore Outbox Pipeline Ocsf.
From S2P Require Export Monad ApiCore ApiStore ApiPacks ApiServer ApiSpec ApiSafety.

#[local] Open Scope monad_scope.

(** ** A small server, for the witnesses *)

(** The codec of the samples of the marketplace obeys the same laws: only its digest differs. *)
Lemma market_laws : @CodecLaws market_codec.
Proof. destruct sample_laws as [Hr Ht Hm Hy]. split; [exact Hr|exact Ht|exact Hm|exact Hy]. Qed.

#[export] Instance sample_api : ApiEnv := {|
  api_now n := (1790000000 + Z.of_nat n) * 10 ^ 9; WORM_ADMIN_TOKEN := "secret"; AdapterErrors _ := []; MemAlloc _ := 0;
  NumGoroutine _ := 1; other_file _ := Err (errors_New ErrNotExist); cwd_manifest := Ok EmptyManifest;
  yaml_Marshal_pack p := Ok (mName (Metadata p)); fmt_error _ := "error"; origin_Parse _ := None |}.

Definition sample_config : ConfigInfo := {|
  ci_UIAddress := ":8080"; ci_SyslogUDP := ""; ci_SyslogTCP := ""; ci_SyslogTLS := ""; ci_HTTPIngest := ""; ci_InboxDir := "inbox";
  ci_DBPath := "worm.db"; ci_Workers := 4; ci_AirGapped := true; ci_MarketplaceOnline := false; ci_AdminToken := "" |}.

(** Version 0.2.0, offline, with the store whose cache holds release 1.0.0 of the pack demo. *)
Definition sample_server : Server := {|
  sv_pipe := Some sample_cfg; sv_packManager := true; sv_packsDir := Some old_store; sv_connManager := true; sv_registryURL := "";
  sv_cfgInfo := sample_config; sv_version := "0.2.0"; sv_dist := None; sv_tracked := false; sv_startTime := 0; sv_bufferSize := 100 |}.

Definition sample_backend : Backend := {|
  be_pipe := {| ps_world := sample_world; ps_inbound := []; ps_closed := false |};
  be_packs := PackSamples.sample_host; be_tree := MarketSamples.sample_host; be_site := sample_site;
  be_eps := {| lastAccepted := 0; lastTime := 0; recentEPS := f64_of_Z 0 |}; be_ticks := 0 |}.

Definition post (path token body : string) : Request := {|
  rq_Method := "POST"; rq_Path := path; rq_RawQuery := "";
  rq_Header k := if k =s "X-WORM-Admin-Key" then token else ""; rq_Body := body; rq_BodyErr := None |}.

(** [{"name": "demo", "version": "1.0.0"}], with the quotes that a string may not hold here. *)
Definition unescape_quotes (s : string) : string := of_bytes ((λ c, if c =b "'"%char then QUOTE else c) <$> bytes_of s).
Definition install_demo : Request := post "/api/v1/packs/install" "secret" (unescape_quotes "{'name':'demo','version':'1.0.0'}").

(** ** Rules for the programs of the API *)

(** Whatever a program gives. *)
Lemma wp_whatever {S A} (m : Prog S A) (Q : res A → S → Prop) w : (∀ r w', Q r w') → wp m Q w.
Proof. intros HQ. unfold wp. destruct (m w). apply HQ. Qed.

Section rules.
Context {A : Type}.
Implicit Types (b : Backend).

Lemma wp_checked (m : H A) bad k (Q : res Response → Backend → Prop) b :
  wp m (λ r b', match r with Ok a => wp (k a) Q b' | Err e => wp (bad e) Q b' | Panic q => Q (Panic q) b' end) b →
  wp (checked m bad k) Q b.
Proof.
  intros Hm. apply wp_bind, wp_try. eapply wp_mono; [exact Hm|]. by intros [a|e|q] b'.
Qed.
Lemma wp_on_packs (m : Prog (Host PackStore.Manager) A) Q b : wp m (λ r h, Q r (set_packs b h)) (be_packs b) → wp (on_packs m) Q b.
Proof. unfold wp, on_packs. by destruct (m _). Qed.
Lemma wp_on_tree (m : Prog TreeHost A) Q b : wp m (λ r t, Q r (set_tree b t)) (be_tree b) → wp (on_tree m) Q b.
Proof. unfold wp, on_tree. by destruct (m _). Qed.
End rules.

(** ** What an installation may do *)

Definition same_packs (h h' : Host PackStore.Manager) : Prop := h_disk h' = h_disk h ∧ h_own h' = h_own h.
#[export] Instance same_packs_preorder : PreOrder same_packs.
Proof. split; [by split|]. intros x y z [? ?] [? ?]. split; congruence. Qed.
Definition packs_kept_by (b b' : Backend) : Prop := same_packs (be_packs b) (be_packs b').
#[export] Instance packs_kept_by_preorder : PreOrder packs_kept_by.
Proof. split; [intros b|intros x y z]; unfold packs_kept_by; [done|]. intros ??. by etransitivity. Qed.
#[export] Instance packs_kept_by_reads `{Env} `{FsEnv} s : ReadsKept s packs_kept_by.
Proof.
  split; [apply _|..].
  - intros A m _. by apply lift_store.
  - intros cfg _. by apply lift_store.
  - intros A m Hm. apply lift_packs. intros b. destruct (Hm (be_packs b)) as [Ha Hd]. split; [exact Hd|apply Ha].
  - intros A m _. by apply lift_tree.
  - intros A m _. by apply lift_site.
  - intros b. done.
  - intros now z b. unfold measure_eps. by destruct (f64_leb _ _).
Qed.

(** The status that an answer tells. *)
Definition status_of (x : res Response) : option data :=
  match x with
  | Ok resp => match rs_Body resp with BJson (DObj l) => snd <$> List.find (λ kv, kv.1 =s "status") l | _ => None end
  | _ => None
  end.
Definition answered_installed (x : res Response) : Prop := status_of x = Some (DStr "installed").

Section install.
Context `{GoPlatform} `{MapOrder} `{Env} `{FsEnv} `{TreeEnv} `{SemVer} `{CatalogEnv} `{PackCodec} `{MarketEnv} `{ApiEnv} (s : Server).

(** The manifest that is on the disk, and the file that an installation of the pack writes. *)
Definition manifest_on (d : Disk) : res PackManifest :=
  match at_path manifestPath d with
  | Some (EFile c) | Some (ELink (Some c)) =>
      match Unmarshal_manifest zero_manifest c with
      | Some m => if pm_Version m =? 1 then Ok m else Err (errors_New "unsupported parser pack manifest version")
      | None => Err (errors_New "invalid parser pack manifest")
      end
  | Some (EDir _) => Err (errors_New "is a directory")
  | Some (ELink None) | None => Ok EmptyManifest
  end.
Definition target_file (m : PackManifest) (name : string) : string :=
  match Entries m !! name with Some i => pi_Filename i | None => name +:+ ".yaml" end.

(** The bytes are those that a signed catalogue lists for a release of the pack that may be
    installed here, and they hold that release of that pack. *)
Record verified_release (pack : CatalogPack) (r : Release) (data : string) : Prop := {
  vd_signed : ∃ envelope c, Catalog.Verify envelope = Ok c ∧ pack ∈ c_Packs c;
  vd_listed : r ∈ Releases pack ∧ Withdrawn r = false;
  vd_compatible : PackAPI r = "worm.io/v1" ∧ Catalog.OCSF r = Ocsf.Version
    ∧ (MinWORM r = "" ∨ 0 ≤ semver_Compare (normalizeSemver (sv_version s)) (normalizeSemver (MinWORM r)));
  vd_digest : slen data = Catalog.Size r ∧ sha256_hex data = SHA256 r;
  vd_identity : ∃ p, LoadPack data = Ok p ∧ mName (Metadata p) = cp_Name pack ∧ mVersion (Metadata p) = Catalog.Version r }.

(** Bytes that may be replaced: those of a release, or those that the manifest records for the file. *)
Definition managed_bytes (m : PackManifest) (pack : CatalogPack) (f old : string) : Prop :=
  (∃ r, r ∈ Releases pack ∧ sha256_hex old = SHA256 r)
  ∨ (∃ e, Entries m !! cp_Name pack = Some e ∧ pi_Filename e = f ∧ pi_Digest e = sha256_hex old).
Definition inspected (m : PackManifest) (pack : CatalogPack) (f : string) (expected : option PackFileExpectation) : Prop :=
  expected = Some {| Exists := false; PackStore.Digest := "" |}
  ∨ ∃ old, expected = Some {| Exists := true; PackStore.Digest := sha256_hex old |} ∧ managed_bytes m pack f old.

(** The one change that an installation makes. *)
Inductive install_step (h : Host PackStore.Manager) (y : res Snapshot) (h' : Host PackStore.Manager) : Prop :=
| installs pack r data m expected pinned h1 :
    verified_release pack r data → manifest_on (h_disk h) = Ok m → inspected m pack (target_file m (cp_Name pack)) expected →
    same_packs h h1 →
    ApplyPackFileWithState (target_file m (cp_Name pack)) data expected "marketplace" pinned h1 = (y, h') →
    install_step h y h'.

Definition outcome (h : Host PackStore.Manager) (x : res Response) (h' : Host PackStore.Manager) : Prop :=
  (same_packs h h' ∧ ¬ answered_installed x) ∨ ∃ y, install_step h y h'
    ∧ match y with Ok _ => answered_installed x | Err _ => ¬ answered_installed x | Panic q => x = Panic q end.

Lemma out_same h x (b : Backend) : same_packs h (be_packs b) → ¬ answered_installed x → outcome h x (be_packs b).
Proof. by left. Qed.

(** ** The parts of an installation *)

Lemma wp_read_catalog b (Q : res Catalog → Backend → Prop) :
  (∀ x b', packs_kept_by b b' → match x with Ok c => ∃ envelope, Catalog.Verify envelope = Ok c | _ => True end → Q x b') →
  wp (read_catalog s) Q b.
Proof.
  intros HQ. apply (wp_keeps packs_kept_by); [by eapply rk_catalog, _|]. apply wp_on_tree. unfold ReadCatalog.
  destruct (Dir (marketplace s)).
  2: { apply wp_mcall. intros Hk. apply HQ; [done|]. destruct LoadCatalog eqn:E; [by exists seedCatalog|done..]. }
  apply wp_bind. apply wp_whatever. intros x t1. destruct x as [[]|e|q]; [|by intros ?; apply HQ..].
  apply wp_bind, wp_try. apply wp_whatever. intros x t2. destruct x as [c|e|q]; [| |by intros ?; apply HQ].
  - apply wp_mcall. intros Hk. apply HQ; [done|]. destruct (Catalog.Verify c) eqn:E; [by exists c|done..].
  - destruct (IsNotExist e); apply wp_mcall; intros Hk; apply HQ; try done. destruct LoadCatalog eqn:E; [by exists seedCatalog|done..].
Qed.

Lemma VerifyArtifact_spec r data : VerifyArtifact r data = Ok () → slen data = Catalog.Size r ∧ sha256_hex data = SHA256 r.
Proof.
  unfold VerifyArtifact. destruct (slen data =? Catalog.Size r) eqn:E; [|done]. cbn [negb]. apply Z.eqb_eq in E.
  unfold Catalog.Digest. destruct (String.eqb_spec (sha256_hex data) (SHA256 r)); [done|done].
Qed.

Lemma wp_FetchArtifact st r t (Q : res string → TreeHost → Prop) :
  (∀ x t', match x with Ok data => VerifyArtifact r data = Ok () | _ => True end → Q x t') → wp (FetchArtifact st r) Q t.
Proof.
  intros HQ. unfold FetchArtifact. destruct (negb _); [by apply wp_fail, HQ|].
  apply wp_bind, wp_mcall. destruct (url_Parse _) as [base|e|q]; [|by apply HQ..].
  apply wp_bind, wp_mcall. destruct (url_Parse (Artifact r)) as [u|e|q]; [|by apply HQ..]. cbv zeta.
  destruct (_ || _); [by apply wp_fail, HQ|]. apply wp_bind. apply wp_whatever. intros x t1. destruct x as [resp|e|q]; [|by apply HQ..].
  destruct (negb _); [by apply wp_fail, HQ|]. apply wp_bind, wp_mcall. destruct (ReadLimited _ _) as [data|e|q]; [|by apply HQ..].
  apply wp_bind, wp_mcall. destruct (VerifyArtifact r data) as [[]|e|q] eqn:Ev; [|by apply HQ..]. by apply wp_ret, HQ.
Qed.

Lemma wp_cached p r b (Q : res (option string) → Backend → Prop) :
  (∀ x b', packs_kept_by b b' → match x with Ok (Some data) => VerifyArtifact r data = Ok () | _ => True end → Q x b') →
  wp (cached_artifact s p r) Q b.
Proof.
  intros HQ. unfold cached_artifact. apply wp_bind, wp_try, wp_on_tree. apply wp_whatever. intros x t. destruct x as [data|e|q]; [|by apply HQ..]. apply wp_ret, HQ; [done|]. destruct (VerifyArtifact r data) as [[]|e|q] eqn:Ev; done.
Qed.

Lemma requested_release_spec worm_version version p r :
  (∀ r, r ∈ Releases p → Catalog.Version r ≠ "") → sv_version s = worm_version →
  requested_release s version p = Some r → r ∈ Releases p ∧ Withdrawn r = false.
Proof.
  intros Hne <-. unfold requested_release. destruct (is_latest version).
  - intros Hl. pose proof (best_of_selects (compatible (sv_version s) pack_api Ocsf.Version) p Hne) as Hs.
    unfold LatestCompatible in Hl. rewrite Hl in Hs. destruct Hs as (Hin & Hc & _). split; [done|].
    unfold compatible in Hc. by destruct (Withdrawn r).
  - intros [Hin Hp]%find_some. rewrite <- list_elem_of_In in Hin. split; [done|]. by destruct (Withdrawn r); rewrite ?andb_false_r in Hp.
Qed.

Lemma incompatible_spec r : incompatible s r = false →
  PackAPI r = "worm.io/v1" ∧ Catalog.OCSF r = Ocsf.Version
  ∧ (MinWORM r = "" ∨ 0 ≤ semver_Compare (normalizeSemver (sv_version s)) (normalizeSemver (MinWORM r))).
Proof.
  unfold incompatible. intros [[Ha Ho]%orb_false_iff Hm]%orb_false_iff. apply negb_false_iff, String.eqb_eq in Ha, Ho.
  split_and!; [done..|]. apply andb_false_iff in Hm as [Hm|Hm]; [left; by apply negb_false_iff, String.eqb_eq in Hm|right; lia].
Qed.

Lemma managed_spec m selected f old :
  f = target_file m (cp_Name selected) →
  managed selected (entry_of m (cp_Name selected)) f (sha256_hex old) = true → managed_bytes m selected f old.
Proof.
  intros ->. unfold managed, entry_of, target_file. intros [Hr|He]%orb_true_iff.
  - apply existsb_exists in Hr as (r & Hin & Hd). left. exists r. rewrite list_elem_of_In. split; [done|]. by apply String.eqb_eq in Hd.
  - right. unfold manifestEntryMatches in He. apply andb_true_iff in He as [H1' H2']. apply String.eqb_eq in H1', H2'.
    destruct (Entries m !! cp_Name selected) as [e|]; [by exists e|]. cbn in H1'. by destruct (cp_Name selected).
Qed.

Lemma wp_read_manifest b (Q : res PackManifest → Backend → Prop) :
  sv_packsDir s ≠ None →
  (∀ x b', packs_kept_by b b' → match x with Ok m => manifest_on (h_disk (be_packs b)) = Ok m | _ => True end → Q x b') →
  wp (read_manifest s) Q b.
Proof.
  intros Hdir HQ. apply (wp_keeps packs_kept_by); [by eapply rk_manifest, _|]. unfold read_manifest.
  destruct (sv_packsDir s); [|done]. apply wp_on_packs. unfold ReadManifest, Disk.ReadFile, manifest_on in *.
  apply wp_bind, wp_try, wp_fs_call; cbn [fst snd].
  - destruct (at_path manifestPath (h_disk (be_packs b))) as [[c|names|[c|]]|] eqn:E.
    2: { apply wp_fail. intros Hk. by apply HQ. }
    all: try (destruct (Unmarshal_manifest zero_manifest c) as [m|]; [destruct (pm_Version m =? 1)|]; cbn [negb];
      first [apply wp_ret|apply wp_fail]; intros Hk; by apply HQ).
    all: apply wp_ret; intros Hk; by apply HQ.
  - intros d Hd _. apply wp_fail. intros Hk. by apply HQ.
Qed.

(** The installation of verified bytes. *)
Section chosen.
Context (h : Host PackStore.Manager) (selected : CatalogPack) (r : Release) (m : PackManifest).
Context (Hsigned : ∃ envelope c, Catalog.Verify envelope = Ok c ∧ selected ∈ c_Packs c).
Context (Hlisted : r ∈ Releases selected ∧ Withdrawn r = false) (Hcompatible : incompatible s r = false).
Context (Hmanifest : manifest_on (h_disk h) = Ok m).
Abbreviation f := (target_file m (cp_Name selected)).
Abbreviation post := (λ (x : res Response) (b' : Backend), outcome h x (be_packs b')).

Lemma out_refused b (resp : Response) : same_packs h (be_packs b) → status_of (Ok resp) ≠ Some (DStr "installed") → wp (ret resp) post b.
Proof. intros Hs Hn. apply wp_ret. by apply out_same. Qed.

Lemma wp_activate_artifact expected pinned data b :
  same_packs h (be_packs b) → VerifyArtifact r data = Ok () → inspected m selected f expected →
  wp (activate_artifact selected r f expected pinned data) post b.
Proof.
  intros Hs Hv Hi. unfold activate_artifact. apply wp_checked, wp_mcall.
  destruct (LoadPack data) as [p|e|q] eqn:El; [|by apply out_refused|by apply out_same].
  destruct (_ || _) eqn:Eid; [by apply out_refused|]. apply orb_false_iff in Eid as [Hn Hver].
  apply negb_false_iff, String.eqb_eq in Hn, Hver.
  apply wp_checked, wp_on_packs. destruct (ApplyPackFileWithState f data expected "marketplace" pinned (be_packs b)) as [y h'] eqn:Ea.
  eapply wp_run; [exact Ea|].
  assert (install_step h y h') as Hstep.
  { econstructor; [|exact Hmanifest|exact Hi|exact Hs|exact Ea]. split; [done..|by apply incompatible_spec|by apply VerifyArtifact_spec|by exists p]. }
  destruct y as [snap|e|q]; right; eexists; (split; [exact Hstep|]); done.
Qed.

Lemma wp_install_artifact req expected b :
  same_packs h (be_packs b) → inspected m selected f expected → wp (install_artifact s req selected r f expected) post b.
Proof.
  intros Hs Hi. unfold install_artifact. apply wp_bind, wp_cached. intros x b1 Hk Hx.
  assert (same_packs h (be_packs b1)) as Hs1 by (by transitivity (be_packs b)).
  destruct x as [[data|]|e|q]; [by apply wp_activate_artifact| |by apply out_same..].
  unfold fetch_artifact. apply wp_checked, wp_on_tree, wp_FetchArtifact. intros x t Ht.
  destruct x as [data|e|q]; [|by apply out_refused|by apply out_same].
  apply wp_checked, wp_on_tree, wp_whatever. intros [[]|e|q] t'; [|by apply out_refused|by apply out_same].
  by apply wp_activate_artifact.
Qed.

Lemma wp_already_active b (Q : res bool → Backend → Prop) :
  (∀ x b', packs_kept_by b b' → Q x b') → wp (already_active selected r) Q b.
Proof.
  intros HQ. unfold already_active, active_snapshot. apply wp_bind, wp_on_packs. apply wp_ret.
  destruct (m_active _) as [snap|]; apply HQ; by destruct b.
Qed.

Lemma wp_install_over req data b :
  same_packs h (be_packs b) → wp (install_over s req selected r (entry_of m (cp_Name selected)) f data) post b.
Proof.
  intros Hs. unfold install_over. cbv zeta. destruct (changed_since _ _ _); [by apply out_refused|].
  destruct (String.eqb_spec (sha256_hex data) (SHA256 r)) as [Hd|Hd].
  - apply wp_bind, wp_already_active. intros x b1 Hk.
    assert (same_packs h (be_packs b1)) as Hs1 by (by transitivity (be_packs b)).
    destruct x as [[]|e|q]; [by apply out_refused| |by apply out_same..]. apply wp_install_artifact; [done|].
    right. exists data. split; [done|]. left. exists r. split; [apply Hlisted|done].
  - destruct (managed _ _ _ _) eqn:Em; [|by apply out_refused]. apply wp_install_artifact; [done|].
    right. exists data. split; [done|]. by eapply managed_spec.
Qed.
End chosen.

Lemma wp_install_release h selected r req b :
  (∃ envelope c, Catalog.Verify envelope = Ok c ∧ selected ∈ c_Packs c) → r ∈ Releases selected ∧ Withdrawn r = false →
  incompatible s r = false → sv_packsDir s ≠ None → same_packs h (be_packs b) →
  wp (install_release s req selected r) (λ x b', outcome h x (be_packs b')) b.
Proof.
  intros Hsig Hl Hc Hdir Hs. unfold install_release. apply wp_checked, wp_read_manifest; [done|]. intros x b1 Hk Hx.
  assert (same_packs h (be_packs b1)) as Hs1 by (by transitivity (be_packs b)).
  destruct x as [m|e|q]; [|by apply out_refused|by apply out_same]. rewrite (proj1 Hs) in Hx. cbv zeta.
  apply wp_bind, wp_try, (wp_keeps packs_kept_by); [by eapply rk_file, _|]. apply wp_whatever. intros x b2 Hk2.
  assert (same_packs h (be_packs b2)) as Hs2 by (by transitivity (be_packs b1)).
  destruct x as [data|e|q]; [| |by apply out_same].
  - by apply (wp_install_over h selected r m).
  - destruct (IsNotExist e); [|by apply out_refused]. apply (wp_install_artifact h selected r m); [done..|by left].
Qed.

Lemma install_outcome r b : wp (handleMarketplaceInstall s r) (λ x b', outcome (be_packs b) x (be_packs b')) b.
Proof.
  unfold handleMarketplaceInstall. apply wp_checked, wp_mcall.
  destruct (decode_struct _ _) as [req|e|q]; [|by apply out_refused|by apply out_same].
  apply wp_checked, wp_read_catalog. intros x b1 Hk Hx. destruct x as [c|e|q]; [|by apply out_refused|by apply out_same].
  destruct Hx as [envelope Hv]. destruct (find_pack c _) as [selected|] eqn:Ef; [|by apply out_refused].
  unfold find_pack in Ef. apply find_some in Ef as [Hin%list_elem_of_In _].
  destruct (requested_release s _ selected) as [rel|] eqn:Er; [|by apply out_refused].
  destruct (incompatible s rel) eqn:Ei; [by apply out_refused|].
  destruct (negb (configured s)) eqn:Ec; [by apply out_refused|].
  apply wp_install_release; [by exists envelope, c| |done| |done].
  - eapply requested_release_spec; [|reflexivity|exact Er]. intros r' Hr'.
    eapply valid_version_nonempty; [|exact Hin|exact Hr']. by eapply Verify_valid.
  - apply negb_false_iff in Ec. unfold configured in Ec. destruct (sv_packManager s), (sv_packsDir s); done.
Qed.

(** Every change that an installation or an upgrade makes to the packs. *)
Definition install_steps : Host PackStore.Manager → Host PackStore.Manager → Prop :=
  rtc (λ h h', same_packs h h' ∨ ∃ y, install_step h y h').
Definition steps_between (b b' : Backend) : Prop := install_steps (be_packs b) (be_packs b').
#[export] Instance steps_between_preorder : PreOrder steps_between.
Proof. split; [intros b; apply rtc_refl|]. intros x y z Hxy Hyz. unfold steps_between, install_steps in *. by etransitivity. Qed.
Lemma steps_same {A} (m : H A) : keeps packs_kept_by m → keeps steps_between m.
Proof. intros Hm b. apply rtc_once. left. apply Hm. Qed.

Lemma steps_install r : keeps steps_between (handleMarketplaceInstall s r).
Proof.
  intros b. pose proof (install_outcome r b) as Ho. unfold wp in Ho. destruct (handleMarketplaceInstall s r b) as [x b']. cbn.
  apply rtc_once. destruct Ho as [[Hs _]|(y & Hy & _)]; [by left|right; by exists y].
Qed.
Lemma steps_upgrade r : keeps steps_between (handleMarketplaceUpgrade s r).
Proof.
  assert (∀ c m l, keeps steps_between (upgrade_each s c m l)) as Heach.
  { intros c m l. induction l as [|n l IH]; [apply keeps_ret, _|]. cbn [upgrade_each]. apply keeps_bind; [apply _| |].
    - unfold upgrade_one. cbv zeta. destruct (pi_Pinned _); [apply keeps_ret, _|]. destruct (find_pack _ _); [|apply keeps_ret, _].
      destruct (upgrade_target _ _ _); [|apply keeps_ret, _]. apply keeps_bind; [apply _|apply steps_install|].
      intros resp. apply keeps_bind; [apply _|apply keeps_mcall, _|]. intros d. apply keeps_ret, _.
    - intros one. apply keeps_bind; [apply _|exact IH|]. intros rest. apply keeps_ret, _. }
  unfold handleMarketplaceUpgrade. apply keeps_checked; [apply _|apply keeps_mcall, _|intros e; apply keeps_pure, _|intros req].
  apply keeps_checked; [apply _|apply steps_same; by eapply rk_manifest, _|intros e; apply keeps_pure, _|intros m].
  destruct (upgrade_names req m) as [names|[code msg]]; [|apply keeps_pure, _].
  apply keeps_checked; [apply _|apply steps_same; by eapply rk_catalog, _|intros e; apply keeps_pure, _|intros c].
  apply keeps_bind; [apply _|apply Heach|intros res]. apply keeps_pure, _.
Qed.
End install.

(** ** What the manager checks again *)

Section expected.
Context `{FsEnv} `{PackCodec} (f : string) (d0 : Disk) (Hready : ready f d0).

Lemma wp_begin_expected expected h :
  h_disk h = d0 →
  wp (beginFileTransaction f expected) (λ x _, is_ok x = true →
    unexpected expected (rr_Existed (b_before (observed f d0))) (bytes_at (pack_path f) d0) = false) h.
Proof.
  intros Hh. pose proof (rd_tidy _ _ Hready) as (Hl & Hp & _). unfold beginFileTransaction.
  apply wp_bind, wp_ret. destruct (_ =s ""); [by apply wp_fail|]. destruct (_ || _); [by apply wp_fail|].
  destruct (negb _); [by apply wp_fail|]. rewrite <- Hh in *.
  apply wp_bind. eapply wp_mono; [apply wp_Recover_none; [done|by apply rd_journal with f]|]. intros x h1 (_ & _ & Hd1).
  destruct x as [[]|e|q]; [|done..]. rewrite <- Hd1 in *.
  apply wp_bind, wp_RejectSymlinks; [done..|]. intros x h2 _ _ Hd2. destruct x as [[]|e|q]; [|done..]. rewrite <- Hd2 in *.
  apply wp_bind, wp_try, wp_ReadFile; [done|]. intros x h3 _ Hd3 Hx.
  assert (∀ ex c, ex = rr_Existed (b_before (observed f (h_disk h2))) → c = bytes_at (pack_path f) (h_disk h2) →
    wp (begin_read f expected ex c) (λ y _, is_ok y = true →
      unexpected expected (rr_Existed (b_before (observed f (h_disk h2)))) (bytes_at (pack_path f) (h_disk h2)) = false) h3) as Hread.
  { intros ex c -> ->. unfold begin_read. destruct (unexpected _ _ _); [by apply wp_fail|]. by apply wp_whatever. }
  destruct x as [c|e|q]; [|destruct Hx as [[He Hn]|[He _]]; rewrite He; [|by apply wp_fail]|done]; apply Hread;
    unfold observed, bytes_at; cbn [b_before rr_Existed]; rewrite ?Hx, ?Hn; done.
Qed.

Lemma apply_expected content expected origin pinned h y h' :
  h_disk h = d0 → ApplyPackFileWithState f content expected origin pinned h = (y, h') → is_ok y = true →
  unexpected expected (rr_Existed (b_before (observed f d0))) (bytes_at (pack_path f) d0) = false.
Proof.
  intros Hh. set (P := unexpected expected _ _ = false).
  assert (wp (ApplyPackFileWithState f content expected origin pinned) (λ y _, is_ok y = true → P) h) as Hw.
  { unfold ApplyPackFileWithState.
    apply wp_bind, wp_mcall. destruct (wrap_err _ _); [|done..]. apply wp_bind, wp_ret. destruct (_ =s ""); [by apply wp_fail|].
    apply wp_bind. eapply wp_mono; [by apply wp_begin_expected|]. intros [b|e|q] h1 Hb; [|done..].
    apply wp_whatever. intros y1 h2 _. by apply Hb. }
  intros Hrun. exact (wp_elim _ _ _ _ _ Hw Hrun).
Qed.
End expected.

(** ** Properties *)

(** The file that an installation would replace: there is none, or it holds a release of the
    pack or what the manifest records for it. *)
Definition replaceable `{PackCodec} (m : PackManifest) (pack : CatalogPack) (d : Disk) : Prop :=
  let f := target_file m (cp_Name pack) in
  at_path (pack_path f) d = None ∨ ∃ old, at_path (pack_path f) d = Some (EFile old) ∧ managed_bytes m pack f old.

Lemma inspected_replaceable `{PackCodec} m pack d expected :
  let f := target_file m (cp_Name pack) in
  plain (pack_path f) d → inspected m pack f expected →
  unexpected expected (rr_Existed (b_before (observed f d))) (bytes_at (pack_path f) d) = false → replaceable m pack d.
Proof.
  intros f Hp Hi Hu. unfold replaceable, plain, bytes_at, observed in *. cbn [b_before rr_Existed] in Hu. fold f.
  destruct (at_path (pack_path f) d) as [[old|l|t]|] eqn:E; [|done..|by left]. right. exists old. split; [done|].
  destruct Hi as [->|(c & -> & Hm)]; [done|]. unfold unexpected in Hu. cbn in Hu.
  destruct (String.eqb_spec (sha256_hex c) (digestBytes old)) as [Hd|Hd]; [|done]. unfold digestBytes in Hd.
  destruct Hm as [(r & Hr & Hs)|(e & He & Hf & Hs)]; [left; exists r|right; exists e]; by rewrite <- Hd.
Qed.

(** A directory in good order: no links, no unfinished transaction, plain files where the
    manager works, and a manifest of pack files. *)
Record in_order `{PackCodec} (d : Disk) : Prop := {
  io_links : no_links d;
  io_plain : ∀ p, is_yaml p.2 = true ∨ p ∈ [rollbackPath; manifestPath; transactionPath] → plain p d;
  io_journal : at_path transactionPath d = None;
  io_undo : at_path rollbackPath d ≠ Some (EFile "");
  io_manifest : at_path manifestPath d ≠ Some (EFile "");
  io_entries m name e : manifest_on d = Ok m → Entries m !! name = Some e →
    is_yaml (pi_Filename e) = true ∧ utf8_Valid (pi_Filename e) = true }.

Lemma pack_file_name name : all_bytes name_byte name = true →
  is_yaml (name +:+ ".yaml") = true ∧ utf8_Valid (name +:+ ".yaml") = true.
Proof.
  intros Hn. split.
  - assert (∀ cur, ext_from (name +:+ ".yaml") cur = ".yaml") as He.
    { induction name as [|c s IH]; intros cur; [done|]. cbn in Hn |- *. apply andb_prop in Hn as [Hc Hs].
      destruct (Ascii.eqb_spec c ".") as [->|_]; [done|]. destruct (Ascii.eqb_spec c "/") as [->|_]; [done|]. by apply IH. }
    unfold is_yaml, filepath_Ext. by rewrite He.
  - induction name as [|c s IH]; [done|]. cbn in Hn. apply andb_prop in Hn as [Hc Hs].
    assert (bz c < 128) as Hb.
    { pose proof (bz_range c). unfold name_byte, is_digit in Hc. destruct (Ascii.eqb_spec c "-") as [->|_]; [done|]. lia. }
    cbn [String.append]. unfold utf8_Valid. rewrite runes_ascii by done. cbn [forallb fst snd].
    unfold utf8_Valid in IH. rewrite IH, andb_true_r by done. unfold RuneError.
    destruct (bz c =? 65533) eqn:E; [lia|done].
Qed.

Lemma in_order_ready `{PackCodec} d m name :
  in_order d → manifest_on d = Ok m → all_bytes name_byte name = true → ready (target_file m name) d.
Proof.
  intros [Hl Hp Hj Hu Hm He] Hman Hn.
  assert (is_yaml (target_file m name) = true ∧ utf8_Valid (target_file m name) = true) as [Hy Hv].
  { unfold target_file. destruct (Entries m !! name) as [e|] eqn:E; [by eapply He|by apply pack_file_name]. }
  split; try done. split; [done|]. split_and!; apply Hp; [by left|right; set_solver..].
Qed.

(** C12: an installation over the API changes nothing, or installs what was signed.  On a
    working disk in good order, with whatever the network and the cache hold: a request that
    is answered [installed] has put into the pack's own file bytes whose size and digest are
    those that a catalogue with the owner's signature lists for a compatible release that is
    not withdrawn, which hold that release of that pack; it replaced no file but one of a
    release or one that the manifest records, wrote rollback record and manifest, and
    activated exactly the packs of the directory.  Any other request leaves the directory
    and the active packs as they were, unless the program panics. *)
Theorem handleMarketplaceInstall_safe (fs : FsEnv) (tree : TreeEnv) (sv : SemVer) (cat : CatalogEnv)
    (codec : PackCodec) (market : MarketEnv) (api : ApiEnv) (s : Server) (r : Request) (b b' : Backend) (x : res Response) :
  let d := h_disk (be_packs b) in
  CodecLaws → no_failure → in_order d →
  handleMarketplaceInstall s r b = (x, b') →
  (answered_installed x
   ∧ ∃ pack rel data m pinned d1 snap,
       verified_release s pack rel data ∧ manifest_on d = Ok m ∧ replaceable m pack d
       ∧ installed (target_file m (cp_Name pack)) data "marketplace" pinned d = Ok d1
       ∧ h_disk (be_packs b') ≡ d1 ∧ m_active (h_own (be_packs b')) = Some snap ∧ dir_packs d1 = Ok (ListPacks snap))
  ∨ (¬ answered_installed x ∧ h_own (be_packs b') = h_own (be_packs b) ∧ (h_disk (be_packs b') ≡ d ∨ ∃ q, x = Panic q)).
Proof.
  intros d Hlaws Hnf Hready Hrun. pose calm as env. pose proof (no_failure_fail_stop Hnf) as Hfs.
  destruct (wp_elim _ _ _ _ _ (install_outcome s r b) Hrun) as [[[Hd Ho] Hn]|(y & Hy & Hx)].
  { right. split_and!; [done..|]. left. by rewrite Hd. }
  destruct Hy as [pack rel data m expected pinned h1 Hv Hm Hi [Hd1 Ho1] Ha].
  assert (ready (target_file m (cp_Name pack)) (h_disk h1)) as Hr.
  { rewrite Hd1. apply in_order_ready; [done..|]. destruct (vd_signed _ _ _ _ Hv) as (envelope & c & Hc & Hin).
    apply (vp_name _ (vc_packs _ (Verify_valid _ _ Hc) _ Hin)). }
  pose proof (wp_elim _ _ _ _ _ (attempts_Apply Hfs _ data expected "marketplace" pinned h1 Hr) Ha) as Hw.
  rewrite Hd1, Ho1 in Hw. fold d in Hw. destruct y as [snap|e|q].
  - left. split; [done|]. destruct Hw as (rec & d1 & HN & _ & _ & _ & Hd & Hp & Ho). exists pack, rel, data, m, pinned, d1, snap.
    split_and!; [done..| |done|by apply Hd|by rewrite Ho|done]. apply (inspected_replaceable m pack d expected); [|done|].
    + pose proof (rd_tidy _ _ Hr) as (_ & Hp' & _). by rewrite Hd1 in Hp'.
    + unfold d. rewrite <- Hd1. by apply (apply_expected _ _ Hr data expected "marketplace" pinned h1 (Ok snap) (be_packs b')).
  - right. split; [done|]. destruct Hw as (Hw & _ & Hx'). split; [by rewrite (ad_own _ _ Hw)|]. left.
    destruct Hx' as [Hx'|Hx']; [|done]. by apply no_failure_alive in Hx'.
  - right. subst x. split; [done|]. split; [by rewrite (ad_own _ _ (proj1 Hw))|]. right. by exists q.
Qed.

(** C13: whatever changes the packs was verified.  Whatever calls fail and wherever the process
    stops, an installation or an upgrade of any number of packs changes the pack directory and the
    active packs only by transactions of the pack manager, each of which writes verified
    bytes of a signed release to the file of its pack, and is told what was read there: an
    absent file, a release, or what the manifest records. *)
Theorem marketplace_changes_verified (ord : MapOrder) (fs : FsEnv) (tree : TreeEnv) (sv : SemVer) (cat : CatalogEnv)
    (codec : PackCodec) (market : MarketEnv) (api : ApiEnv) (s : Server) (r : Request) (b : Backend) :
  install_steps s (be_packs b) (be_packs (handleMarketplaceInstall s r b).2)
  ∧ install_steps s (be_packs b) (be_packs (handleMarketplaceUpgrade s r b).2).
Proof. pose calm as env. split; [apply steps_install|apply steps_upgrade]. Qed.

(** ** An instance *)

Lemma sample_in_order : @in_order market_codec sample_disk.
Proof.
  split; try done.
  - intros [[] name] _; unfold plain, at_path, sample_disk; cbn; [|done].
    destruct (decide (name = "one.yaml")) as [->|]; [done|by rewrite lookup_singleton_ne].
  - assert (@manifest_on market_codec sample_disk = Ok EmptyManifest) as -> by done.
    intros m name e Hm. injection Hm as <-. intros He. exact (False_ind _ (lookup_empty_Some (M := gmap string) _ _ He)).
Qed.

(** Release 1.0.0 of the pack demo, from the cache. *)
Definition install_sample : res Response * Backend :=
  @handleMarketplaceInstall working working_tree sample_semver sample_catalog_env market_codec sample_market sample_api
    sample_server install_demo sample_backend.

Lemma handleMarketplaceInstall_safe_witness :
  answered_installed install_sample.1
  ∧ ∃ pack rel data m pinned d1 snap,
      @verified_release sample_semver sample_catalog_env market_codec sample_server pack rel data
      ∧ @manifest_on market_codec sample_disk = Ok m ∧ @replaceable market_codec m pack sample_disk
      ∧ @installed market_codec (target_file m (cp_Name pack)) data "marketplace" pinned sample_disk = Ok d1
      ∧ h_disk (be_packs install_sample.2) ≡ d1 ∧ m_active (h_own (be_packs install_sample.2)) = Some snap
      ∧ @dir_packs market_codec d1 = Ok (ListPacks snap).
Proof.
  assert (answered_installed install_sample.1) as Hi by (vm_compute; reflexivity).
  destruct (@handleMarketplaceInstall_safe working working_tree sample_semver sample_catalog_env market_codec sample_market
    sample_api sample_server install_demo sample_backend install_sample.2 install_sample.1 market_laws working_no_failure sample_in_order
    (surjective_pairing _)) as [Hx|[Hn _]]; [exact Hx|by destruct Hn].
Defined.
