(* ===== verification/ApiReplay.v ===== *)
(** * The replay of the quarantine over the management API: the report is true *)

From S2P Require Import Connections FileTree Catalog Market.
From S2P Require Import Prelude GoStrings GoNum GoTime GoPath GoHttp Model Decoder Registry Csv Json Xml Decoders Extract Normalize Pack Snapshot Disk DiskSpec PackStore.
From S2P Require Import MarketSamples PackSamples Samples World StoreSpec RawStore Outbox Pipeline Accounting Lifecycle NoLoss.
From S2P Require Export Monad ApiCore ApiStore ApiServer ApiSpec ApiInstall.

#[local] Open Scope monad_scope.

(** The tables are as they were. *)
Definition same_db (w w' : World) : Prop := w_db w' = w_db w.
#[export] Instance same_db_preorder : PreOrder same_db.
Proof. split; [by intros x|]. intros x y z ??. unfold same_db in *. congruence. Qed.

Section replay.
Context (fmt_float : f64 → string) (time_Parse : string → string → option gtime) (currentYear : Z).
Context `{GoPlatform} `{MapOrder} `{Env} (cfg : Config).

Lemma sd_world {A} (m : M A) : keeps world_same m → keeps same_db m.
Proof. apply keeps_mono. by intros w w' [_ Hd]. Qed.
Lemma sd_stamp a b : keeps same_db (stamp a b).
Proof. by intros w. Qed.
Lemma sd_draw4 : keeps same_db draw4.
Proof. by intros w. Qed.
Lemma sd_Now : keeps same_db Now.
Proof. by intros w. Qed.
Lemma sd_normalizer {A} (f : Normalizer → res A * Normalizer) : keeps same_db (normalizer_step f).
Proof. intros w. unfold normalizer_step. by repeat case_match. Qed.
Lemma sd_wrap {A} f (m : M A) : keeps same_db m → keeps same_db (wrap f m).
Proof. intros Hm. unfold wrap. keeps_tac. Qed.
#[local] Hint Resolve sd_stamp sd_draw4 sd_Now sd_normalizer sd_wrap : worm.
Lemma sd_replay_event entry raw : keeps same_db (replay_event fmt_float time_Parse currentYear cfg entry raw).
Proof. unfold replay_event. keeps_tac. Qed.

(** One entry: it leaves the quarantine with its event written, or nothing changes. *)
Definition replayed (id : string) (names : list string) (ev : NormalizedEvent) (db db' : Db) : Prop :=
  (∃ q, q ∈ quars db ∧ q_id q = id) ∧ resolved id ev names db db'.

Lemma wp_Replay names id w :
  cfg_durable cfg = Some names →
  wp (Replay fmt_float time_Parse currentYear cfg id) (λ r w', match r with
    | Ok ev => replayed id names ev (w_db w) (w_db w')
    | _ => w_db w' = w_db w
    end) w.
Proof.
  intros Hdur. unfold Replay. rewrite Hdur. cbn [default].
  apply wp_bind. unfold wrap at 1. apply wp_bind, wp_try.
  apply (wp_keeps same_db); [apply sd_world, ws_GetQuarantineByID|]. unfold GetQuarantineByID. apply wp_bind, wp_try. unfold query_row.
  apply wp_query; [intros e w1 _ Hd; apply wp_fail; intros _; by apply wp_fail|]. intros w1 _ Hd.
  destruct (List.find _ _) as [q|] eqn:Eq; [|apply wp_fail; intros _; by apply wp_fail].
  apply find_elem in Eq as [Hq Hid%String.eqb_eq]. apply wp_ret. intros Hd1. apply wp_ret.
  apply wp_bind. unfold wrap at 1. apply wp_bind, wp_try, (wp_keeps same_db); [apply sd_world, ws_Retrieve|].
  apply wp_whatever. intros r w2 Hd2. assert (w_db w2 = w_db w) as Hw2 by (unfold same_db in *; congruence).
  destruct r as [raw|e|p]; [|done..]. apply wp_ret.
  apply wp_bind, wp_try, (wp_keeps same_db); [apply sd_world, ws_Verify|]. apply wp_whatever. intros r w3 Hd3.
  assert (w_db w3 = w_db w) as Hw3 by (unfold same_db in *; congruence). destruct r as [[[] sum]|e|p]; [|done..].
  apply wp_bind, (wp_keeps same_db); [apply sd_replay_event|]. apply wp_whatever. intros r w4 Hd4.
  assert (w_db w4 = w_db w) as Hw4 by (unfold same_db in *; congruence). destruct r as [norm|e|p]; [|done..].
  apply wp_bind. unfold wrap. apply wp_bind, wp_try. eapply wp_mono; [apply wp_ResolveQuarantine|]. cbv beta. rewrite Hw4.
  intros r w5 [_ Hr]. destruct r as [ev|e|p]; [|done..]. apply wp_ret, wp_bind, wp_ret. cbn. by split; [exists q|].
Qed.
End replay.

Section report.
Context (fmt_float : f64 → string) (time_Parse : string → string → option gtime) (currentYear : Z).
Context `{GoPlatform} `{MapOrder} `{Env} (names : list string).

(** What the entries that a request replays, in their order, do to the tables, and the details
    that tell of it. *)
Inductive replays : list string → list replayDetail → Db → Db → Prop :=
| replays_nil db : replays [] [] db db
| replays_done id ids ev ds db db1 db' :
    replayed id names ev db db1 → replays ids ds db1 db' →
    replays (id :: ids) ({| rd_QuarantineID := id; rd_Status := "replayed"; rd_EventID := EventID (Worm ev); rd_Error := None |} :: ds) db db'
| replays_failed id ids e ds db db' :
    replays ids ds db db' →
    replays (id :: ids) ({| rd_QuarantineID := id; rd_Status := "failed"; rd_EventID := ""; rd_Error := Some e |} :: ds) db db'.

Definition was_replayed (d : replayDetail) : bool := rd_Status d =s "replayed".
Definition replayed_count (ds : list replayDetail) : Z := count was_replayed ds.

Lemma replays_quars ids ds db db' : replays ids ds db db' →
  Z.of_nat (length (quars db')) = Z.of_nat (length (quars db)) - replayed_count ds.
Proof.
  unfold replayed_count.
  induction 1 as [db|id ids ev ds db db1 db' [_ Hr] _ IH|id ids e ds db db' _ IH]; cbn [count]; [lia| |rewrite IH; cbn; lia].
  apply resolved_length in Hr. rewrite IH, Hr. cbn. lia.
Qed.
Lemma replays_ids ids ds db db' : replays ids ds db db' → rd_QuarantineID <$> ds = ids.
Proof. induction 1; [done|by rewrite fmap_cons, IHreplays..]. Qed.

Definition tables (b : Backend) : Db := w_db (ps_world (be_pipe b)).

Lemma wp_replay_all cfg ids : cfg_durable cfg = Some names → ∀ t b,
  wp (replay_all fmt_float time_Parse currentYear cfg ids t) (λ x b', match x with
    | Ok t' => ∃ ds, replays ids ds (tables b) (tables b') ∧ ty_details t' = ty_details t ++ ds
        ∧ ty_replayed t' = ty_replayed t + replayed_count ds
        ∧ ty_failed t' = ty_failed t + (Z.of_nat (length ids) - replayed_count ds)
    | Err _ => False
    | Panic _ => True
    end) b.
Proof.
  intros Hdur. unfold replayed_count. induction ids as [|id ids IH]; intros t b; cbn [replay_all].
  { apply wp_ret. exists []. rewrite app_nil_r. cbn. repeat (split; [by (constructor || lia)|]). lia. }
  apply wp_bind, wp_try. unfold wp at 1, on_store.
  pose proof (wp_Replay fmt_float time_Parse currentYear cfg names id (ps_world (be_pipe b)) Hdur) as Hr. unfold wp in Hr.
  destruct (Replay _ _ _ _ _ _) as [r w1]. destruct r as [ev|e|q]; [| |done]; (eapply wp_mono; [apply IH|]);
    (intros [t'|e'|q'] b' Hx; [|done..]); destruct Hx as (ds & Hds & Hd & Hn & Hf); cbn in Hd, Hn, Hf.
  - eexists. split; [eapply replays_done; [exact Hr|exact Hds]|]. rewrite Hd, Hn, Hf, <- app_assoc. cbn. split; [done|lia].
  - eexists. split; [apply (replays_failed _ _ e); unfold tables in *; cbn in Hds; rewrite Hr in Hds; exact Hds|].
    rewrite Hd, Hn, Hf, <- app_assoc. cbn. split; [done|lia].
Qed.

(** The entries that a request replays: the eligible ones, those already replayed only when
    they are asked for, oldest first. *)
Definition pending_ids (force : bool) (db : Db) : list string :=
  map q_id (order_by oldest_first
    (List.filter (λ q, q_eligible q && (force || match q_replayed q with None => true | _ => false end)) (quars db))).
End report.

(** ** Property *)

(** C15: the report of a replay of the quarantine is true.  Where deliveries go through the
    outbox and whatever calls fail: an answer other than 200 leaves the tables as they were;
    an answer of 200 lists exactly the eligible entries, oldest first.  Each one reported
    replayed was in the quarantine and has left it, its event is stored under the reported
    identifier and queued for every destination, and the raw row has kept all but its
    status; each one reported failed changed nothing.  The totals add up, and the quarantine
    is shorter by the number replayed. *)
Theorem replay_all_truthful (fmt_float : f64 → string) (time_Parse : string → string → option gtime) (currentYear : Z)
    (plat : GoPlatform) (ord : MapOrder) (env : Env) (s : Server) (r : Request) (b b' : Backend)
    (cfg : Config) (names : list string) (resp : Response) :
  sv_pipe s = Some cfg → cfg_durable cfg = Some names →
  handleReplayAllQuarantine fmt_float time_Parse currentYear s r b = (Ok resp, b') →
  (rs_Code resp ≠ 200 ∧ tables b' = tables b)
  ∨ ∃ ds, let ids := pending_ids (query_Get (query_of r) "force" =s "true") (tables b) in
      replays names ids ds (tables b) (tables b') ∧ rd_QuarantineID <$> ds = ids
      ∧ Z.of_nat (length (quars (tables b'))) = Z.of_nat (length (quars (tables b))) - replayed_count ds
      ∧ resp = jsonResponse 200 (DObj [("total", DInt (Z.of_nat (length ids))); ("replayed", DInt (replayed_count ds));
                                       ("failed", DInt (Z.of_nat (length ids) - replayed_count ds));
                                       ("details", match ds with [] => DNull | l => DList (detail_data <$> l) end)]).
Proof.
  intros Hpipe Hdur Hrun. revert Hrun. unfold handleReplayAllQuarantine, with_pipe. rewrite Hpipe. cbv zeta.
  set (force := _ =s "true").
  assert (wp (snap <- active_snapshot ;;
    (ids <- on_store (GetReplayPendingIDs force) orelse refuse_with 500 "failed to query pending quarantine entries: " ;;
     t <- replay_all fmt_float time_Parse currentYear (pipe_config s cfg snap) ids {| ty_replayed := 0; ty_failed := 0; ty_details := [] |} ;;
     reply 200 [("total", DInt (Z.of_nat (length ids))); ("replayed", DInt (ty_replayed t)); ("failed", DInt (ty_failed t));
                ("details", match ty_details t with [] => DNull | l => DList (detail_data <$> l) end)]))
    (λ x b', match x with
      | Ok resp => (rs_Code resp ≠ 200 ∧ tables b' = tables b)
          ∨ ∃ ds, let ids := pending_ids force (tables b) in replays names ids ds (tables b) (tables b')
              ∧ resp = jsonResponse 200 (DObj [("total", DInt (Z.of_nat (length ids))); ("replayed", DInt (replayed_count ds));
                                               ("failed", DInt (Z.of_nat (length ids) - replayed_count ds));
                                               ("details", match ds with [] => DNull | l => DList (detail_data <$> l) end)])
      | _ => True
      end) b) as Hw.
  { apply wp_bind. unfold active_snapshot. apply wp_on_packs, wp_ret. apply wp_checked. unfold wp at 1, on_store.
    pose proof (wp_read (λ db, pending_ids force db) (ps_world (be_pipe b))) as Hread. unfold GetReplayPendingIDs, wp in *. cbn [be_pipe set_packs] in *.
    change (query _ (ps_world (be_pipe b))) with (query (λ db, Ok (pending_ids force db)) (ps_world (be_pipe b))).
    destruct (query _ _) as [ids w1]. destruct Hread as (_ & Hd1 & Hids). destruct ids as [ids|e|q]; [|by left|done].
    subst ids. set (b1 := set_pipe _ _). assert (tables b1 = tables b) as Hb1 by exact Hd1.
    apply wp_bind. eapply wp_mono; [by apply (wp_replay_all fmt_float time_Parse currentYear names)|].
    intros [t|e|q] b2 Ht; [|done..]. destruct Ht as (ds & Hds & Hdet & Hn & Hf). rewrite Hb1 in Hds.
    cbn [ty_replayed ty_failed ty_details] in *. apply wp_ret. right. exists ds. split; [done|].
    rewrite Hdet, Hn, Hf, !Z.add_0_l. by destruct ds. }
  intros Hrun. destruct (wp_elim _ _ _ _ _ Hw Hrun) as [Hx|(ds & Hds & Hx)]; [by left|]. right. exists ds.
  split; [done|]. split; [by eapply replays_ids|]. split; [by eapply replays_quars|done].
Qed.

(** ** An instance *)

(** A server whose active snapshot matches the quarantined record, and whose deliveries go
    through the outbox. *)
Definition replay_server : Server := {|
  sv_pipe := Some {| cfg_registry := cfg_registry sample_cfg; cfg_snapshot := None; cfg_durable := Some ["siem"] |};
  sv_packManager := true; sv_packsDir := Some old_store; sv_connManager := true; sv_registryURL := "";
  sv_cfgInfo := sample_config; sv_version := "0.2.0"; sv_dist := None; sv_tracked := false; sv_startTime := 0; sv_bufferSize := 100 |}.
Definition hello_snapshot : option Snapshot :=
  match NewSnapshot (λ s, s) "1" [Some (sample_pack "hello" "1.0.0")] with Ok snap => Some snap | _ => None end.
Definition replay_backend : Backend := {|
  be_pipe := {| ps_world := recovered; ps_inbound := []; ps_closed := false |};
  be_packs := {| h_disk := sample_disk; h_own := {| m_active := hello_snapshot; m_previous := None; m_packsDir := "packs"; m_backupFile := "";
                 m_backupContent := None; m_addedFile := "" |}; h_calls := 0; h_ticks := 0 |};
  be_tree := MarketSamples.sample_host; be_site := sample_site;
  be_eps := {| lastAccepted := 0; lastTime := 0; recentEPS := f64_of_Z 0 |}; be_ticks := 0 |}.
Definition replay_sample : res Response * Backend :=
  @handleReplayAllQuarantine no_float_text no_layout 2026 amd64 forward_order calm replay_server (post "/api/v1/quarantine/replay-all" "secret" "") replay_backend.

Lemma replay_all_truthful_witness :
  match replay_sample.1 with
  | Ok resp =>
      rs_Code resp = 200 ∧ length (quars (tables replay_backend)) = 1%nat ∧ quars (tables replay_sample.2) = []
      ∧ ((rs_Code resp ≠ 200 ∧ tables replay_sample.2 = tables replay_backend)
         ∨ ∃ ds, replays ["siem"] (pending_ids false (tables replay_backend)) ds (tables replay_backend) (tables replay_sample.2)
             ∧ rd_QuarantineID <$> ds = pending_ids false (tables replay_backend))
  | _ => False
  end.
Proof.
  assert (match replay_sample.1 with Ok resp => rs_Code resp = 200 | _ => False end
    ∧ length (quars (tables replay_backend)) = 1%nat ∧ quars (tables replay_sample.2) = []) as Hf by (vm_compute; done).
  destruct Hf as (Hc & Hn & Hq). pose proof (surjective_pairing replay_sample) as Hrun.
  destruct (replay_sample.1) as [resp|e|q]; [|done..]. split; [done|]. split; [done|]. split; [done|].
  destruct (replay_all_truthful no_float_text no_layout 2026 amd64 forward_order calm replay_server
    (post "/api/v1/quarantine/replay-all" "secret" "") replay_backend replay_sample.2 _ ["siem"] resp eq_refl eq_refl Hrun) as [Hx|(ds & Hds & Hids & _)].
  - by left.
  - right. exists ds. exact (conj Hds Hids).
Defined.
